(* ===== verification/_CoqProject ===== *)
-Q . S2P
Prelude.v
Deque.v
DequeConc.v
FptrList.v
MemTree.v
Jsmn.v
LocalityText.v
Locality.v
LocalityRun.v
Forasync.v
ForasyncCpp.v
Atomic.v
AtomicCpp.v
Module.v
Affinity.v
Pool.v
Init.v
Runtime.v
RuntimeHeap.v
RuntimeStack.v
RuntimeStep.v
RuntimeMoves.v
RuntimeSafe.v
RuntimeStart.v
MainCtx.v
CppAsync.v
RuntimeEnds.v
RuntimeOwner.v
RuntimeScopes.v
RuntimeCalls.v
RuntimeBlocking.v
RuntimeSpawns.v
RuntimeFaults.v
Comm.v
ForasyncRun.v
CppPromise.v
OpenShmem.v
Locks.v
SosLocks.v
Sos.v
Mpi.v
Upcxx.v
Mem.v
Devices.v
Startup.v
ActiveMessages.v
Instrument.v
PromiseConc.v
Pending.v
WaitSets.v
