(* ===== verification/Prelude.v ===== *)
(** * A verification development for HClib

    HClib is a library for task parallelism in C: a program spawns tasks
    ([hclib_async]), waits for groups of them (finish scopes) and synchronises
    through promises and futures, and a pool of workers runs the tasks and steals
    from one another.  A locality graph, read from a JSON file or generated, says
    which places ("locales") exist and which of them each worker visits.

    ** How the program fits together, and where each part is modelled

    A user's call goes through the following parts.

    - [hclib.c], [hclib-runtime.c], [hclib-promise.c]: a task is a record with a
      function, a finish scope and the futures it waits for.  A task that waits
      is linked into the wait list of one of its futures; [hclib_promise_put]
      takes the list and registers each task on its next future, or schedules
      it.  A worker runs the stack of its lightweight context; a blocking call
      looks for other tasks, and may swap the context out and leave a task that
      resumes it.  [Runtime] has all of this as a machine whose actions are calls
      of the runtime, interleaved in any order over the workers.  Its state
      [rt] is the memory (tasks, promises, scopes, contexts by address), the
      workers and the queues.  [PromiseConc] has the compare-and-swap loops of
      the wait lists again, one memory access at a time.
    - [hclib-deque.c]: one deque per worker and locale.  [Deque] runs each
      operation at once, [DequeConc] one memory access at a time, with one owner
      and any number of thieves.
    - [hclib-locality-graph.c]: [Locality] loads or generates the graph (the
      names in it are interpreted by [LocalityText], the JSON is tokenized by
      [Jsmn], which is [jsmn/jsmn.c]) and answers questions about it;
      [LocalityRun] pushes, pops and steals along the paths of a worker.  The
      class [TaskPool] of [Pool] is what the runtime relies on, and the locality
      graph is an instance; the class [WorkQueue] of [Deque] is what the locality
      graph relies on, and the deque is an instance.
    - [hclib_global_init] and [create_hwloc_cpusets] of [hclib-runtime.c]: [Init]
      composes the loading of the graph with the creation of the workers, and
      [Affinity] has the processing units and the neighbours that each worker gets
      in a build with hwloc.  [RuntimeStart] runs [Runtime] on the graph that [Init]
      leaves, [Startup] is the start without a locality file.  [MainCtx] has the
      functions that tasks hand to the main context ([hclib_run_on_main_ctx]), and
      the loop of [hclib_finalize] that runs them until a worker says that it is done.
    - [hclib.c] and [hclib-forasync.h], parallel loops: [Forasync] for C,
      [ForasyncCpp] for the C++ templates, with a scheduler that runs the spawned
      chunks in any order.  [ForasyncRun] has the loops of both as code of tasks of
      [Runtime].
    - [hclib-mem.c], memory operations on locales: [Mem], as code of tasks of
      [Runtime]; the table of routines by locale type is [FptrList]
      ([hclib-fptr-list.c]), the pinned ranges are [MemTree] ([hclib-tree.c]).
    - [hclib_atomic.c], [hclib_module.c], [hclib-instrument.c] with
      [tools/hclib_instrument_parser.c], and the list of pending operations of
      [modules/common/hclib-module-common.h]: [Atomic] (and [AtomicCpp] for the
      C++ templates), [Module], [Instrument], [Pending].

    - [hclib-async.h], [hclib_promise.h] and [hclib_future.h]: [CppAsync], the C++
      templates that spawn a lambda, as code of a task of [Runtime], and [CppPromise],
      the typed promises and futures.
    - [src/modules]: the operations of a communication module open a scope, spawn
      a task at the locale of the network interface that calls the library, and
      end the scope.  [Comm] says what they have in common, [OpenShmem], [Sos],
      [Mpi] and [Upcxx] have one definition per operation.  [Locks] and
      [SosLocks] have the locks of the two OpenSHMEM modules, tasks that take turns
      by a chain of futures, one chain per lock or one for all.
      [WaitSets] has the operations whose completion [Pending] polls for: waits for
      memory and requests of a library.  [ActiveMessages] has the messages of the
      module on top of OpenSHMEM, as bytes.  [Devices] has what the modules for
      system memory and CUDA add to the graph and to the tables of [Mem].

    [RuntimeHeap], [RuntimeStack], [RuntimeStep], [RuntimeMoves],
    [RuntimeBlocking] and [RuntimeSpawns] hold the invariant of [Runtime], one lemma
    per action, what an action does to the code of the stacks, how the calls of a
    scope are counted, and how calls are left to spawned tasks; [RuntimeSafe], [RuntimeEnds], [RuntimeOwner], [RuntimeScopes],
    [RuntimeCalls] and [RuntimeFaults] hold its theorems.

    Every definition that models code carries the file, the lines and the name of
    what it models, and keeps that name.  This file holds the outcomes of C code,
    its integers, arrays and bytes, and the automation shared by all the others.

    ** How code is modelled

    A function of C is a function into [res]: a value, or the fault that ends the
    run (a failed assertion, an access outside an array, an overflow of [int], a
    division by zero, a read of an indeterminate value).  [unsigned] and [size_t]
    wrap.  Functions on shared state are in a state monad over [res]
    ([Runtime.M]), or are one step per memory access of a machine ([DequeConc],
    [PromiseConc], [Pending]).  What a user's program does is [Runtime.code], a
    tree of the runtime's calls with a continuation for each result; a call of
    code that is not in the repository is the constructor [Call], and what it
    returns is the class [Externs].

    The configuration is the default build: assertions on, no statistics, no
    inlined futures, [jsmn] neither strict nor with parent links; hwloc is an
    option of [Init], and off elsewhere.
    Memory is sequentially consistent ([hc_mfence] and the locked instructions of
    x86 are where the code needs them to be).  [Runtime] never reuses an address;
    [PromiseConc] and [Pending] allow every reuse the code allows, and a task or
    an operation is gone the moment another thread may free it.

    ** What the theorems show

    - Tasks ([RuntimeSafe]): no task starts twice; a task starts only when all
      its futures are put; a promise keeps its value.  Every action of a worker
      ends ([RuntimeEnds]).
    - Finish scopes ([RuntimeScopes]): the counter of a scope is one plus its
      tasks in memory plus its open scopes, so [hclib_end_finish] returns exactly
      when everything spawned in the scope is done.  The theorems are about runs
      in which no scope is ended with [hclib_end_finish_nonblocking]
      ([only_blocking]), which checks the scope out of its parent early, and in
      which fewer than 2^30 objects are allocated, so that the [int] counter does
      not wrap.
    - The calls of a scope ([RuntimeCalls]): when [hclib_end_finish] returns, all
      calls that the code of the scope and of its tasks was bound to make have
      been made.  The theorems of the communication modules are instances: an
      operation that has returned has made its calls of the library, in the order
      of the code, and with MPI they have succeeded.
    - Stacks ([RuntimeOwner]): no two workers are on one context, and none
      resumes or destroys a context that another is on.
    - What goes wrong in blocking calls ([RuntimeFaults]): a program on which
      [help_finish] loses a task for good, and a run in which it gives a deque two owners.
    - Wait lists under concurrency ([PromiseConc]): no access to a task after it
      is handed over, at most one hand-over each and only when it is ready, no
      lost wakeup, and an upper bound on the accesses of the calls in progress.
    - Deques: the operations implement a bounded double-ended queue ([Deque]);
      with thieves they are linearizable and every task is handed out once
      ([DequeConc]).  The bound on [tail] is that of [int]: a deque takes
      INT_MAX pushes in its life.
    - Locality: a file that loads gives a well-formed graph, names evaluate as
      their syntax says, popping and stealing visit exactly the queues of the
      paths, and the search for the closest locale finds a closest one where its
      reads are of written memory.
    - Start ([Init], [RuntimeStart], [Startup]): after initialisation no search for
      work faults, whatever the program does, and, if each locale of a pop path is
      also on a steal path, a task that is queued can be found;
      [pop_only_task_stranded] is a graph on which it cannot.  The start without a
      locality file succeeds.
    - Main context ([MainCtx]): every function handed over is run once, in order,
      before its task goes on, and the loop ends when the program does.
    - Locks ([Locks], [SosLocks]) are granted in the order in which they are asked
      for, and are never stuck, except that with one chain for all locks a task that
      asks for a second lock waits for itself; a wait ([WaitSets]) ends only when its condition was read to
      hold; a message ([ActiveMessages]) calls what its sender passed.
    - Tokenizer: one scan with a stack of brackets says what the counting and what
      the filling pass return, which is the same count or error except where
      brackets do not match or tokens run out; the tokens delimit what their types
      say.
    - Pending operations ([Pending]): an operation leaves the list, and is completed
      and freed, only after the callback said of it that it is complete; none is
      forgotten.
    - Parallel loops: under every order of the chunks each index is visited
      exactly once, under conditions each of which is shown to be needed; on the
      workers of [Runtime], a finish scope around a loop of C or C++ ends when every
      index has been visited ([ForasyncRun]).
    - Memory operations: a copy starts when its source is ready, and its caller
      gets the promise that the copy puts.
    - Trees of ranges, tables of routines, atomics and module state: functional
      correctness, the reference each implements, and the inputs on which the code
      fails.
    - Typed promises ([CppPromise]): what is put comes out.
    - Instrumentation ([Instrument]): [hclib_register_event] is a stub, so the dump
      files of a run hold their headers and no event; the event types read back, and
      the paths fit or overflow their buffers exactly as stated.  That the flushes
      and the parser agree on events is proved for buffers with any contents,
      which no run of the program fills.

    The theorems that state a fault of the code are examples of the model that
    compute ([vm_compute]) or follow from it; the findings name the lines.

    ** Fuel

    A loop of C that is not structural takes fuel, and [OutOfFuel] is never a
    behaviour of the program: [terminates] says that a call does not run out of
    it.  A put walks its wait list with one unit per task in memory, which bounds
    the list; registering a task takes one unit per position of its futures; the
    recursive loops halve a range of [int], so 33 levels per dimension
    ([split_fuel]) are enough, and the code of a loop's tasks takes the weight of the
    loop, which bounds how deep they spawn; the tokenizer takes the length of its input, the
    search the number of locales, the removal of a range the size of the tree.
    For each the theorems prove a result, not only that a result is right.

    ** Not modelled

    The start of threads, command lines, the loading of shared objects, timers,
    statistics and printing: calls of the operating system that do not change what
    is scheduled.  The assembly that swaps stacks: a context is a value.  The C++
    classes over the C functions, which copy lambdas to the heap.  Of the modules:
    what a call does on another rank, the launch of CUDA kernels, and the classes that
    pass their arguments on.  What the libraries return is a parameter, so nothing is said
    about the value that an operation fetches.
    Macros for tracing and profiling are off.
    Progress of a whole program needs a fair scheduler and is not stated for
    [Runtime]; [RuntimeFaults] shows a program that makes none. *)

From Stdlib Require Export ZArith Lia Permutation.
From stdpp Require Export base tactics functions list list_numbers gmap strings numbers sorting.
From stdpp Require Import options.
Export stdpp.list_basics.list.

#[global] Open Scope Z_scope.

(** ** Outcomes of C code

    A call either returns a value or ends the run: an assertion that fails, a
    call of [exit], an access outside live memory, signed overflow, a division
    by zero, a read of an indeterminate value.  [OutOfFuel] is the model's own:
    the theorems show that the fuel given is enough. *)
Inductive fault : Type :=
  | AssertFail
  | ExitCode (code : Z)
  | BadDeref
  | IntOverflow
  | DivByZero
  | UninitRead
  | Disabled
  | OutOfFuel.

#[export] Instance fault_eq_dec : EqDecision fault.
Proof. solve_decision. Defined.

Inductive res (A : Type) : Type :=
  | Ok (a : A)
  | Err (f : fault).
Arguments Ok {A} a.
Arguments Err {A} f.

#[export] Instance res_ret : MRet res := λ A a, Ok a.
#[export] Instance res_bind : MBind res := λ A B k m,
  match m with Ok a => k a | Err f => Err f end.
#[export] Instance res_fmap : FMap res := λ A B k m,
  match m with Ok a => Ok (k a) | Err f => Err f end.

Definition is_ok {A} (m : res A) : bool :=
  match m with Ok _ => true | Err _ => false end.

Lemma bind_Ok {A B} (m : res A) (k : A → res B) (b : B) :
  (m ≫= k) = Ok b ↔ ∃ a, m = Ok a ∧ k a = Ok b.
Proof.
  destruct m as [a|f]; cbn; split.
  - intros H. by exists a.
  - intros (a' & [= ->] & H). exact H.
  - intros [=].
  - intros (a' & [=] & _).
Qed.

Lemma bind_Err {A B} (m : res A) (k : A → res B) (f : fault) :
  (m ≫= k) = Err f ↔ m = Err f ∨ ∃ a, m = Ok a ∧ k a = Err f.
Proof.
  destruct m as [a|g]; cbn; split.
  - intros H. right. by exists a.
  - intros [[=]|(a' & [= ->] & H)]. exact H.
  - intros [= ->]. by left.
  - intros [[= ->]|(a' & [=] & _)]. done.
Qed.

(** [assert] and, in the default (non production) build, [HASSERT]. *)
Definition hassert (b : bool) : res unit := if b then Ok tt else Err AssertFail.

Lemma hassert_Ok b u : hassert b = Ok u ↔ b = true.
Proof. destruct b, u; cbn; split; congruence. Qed.

(** A lookup that the code performs without a check. *)
Definition deref {A} (o : option A) : res A :=
  match o with Some a => Ok a | None => Err BadDeref end.

Lemma deref_Ok {A} (o : option A) a : deref o = Ok a ↔ o = Some a.
Proof. destruct o; cbn; split; congruence. Qed.

(** ** Machine integers

    [int] is 32-bit two's complement; an operation whose result leaves the
    range has undefined behaviour.  [unsigned] arithmetic wraps. *)
Definition INT_MAX : Z := 2147483647.
Definition INT_MIN : Z := -2147483648.
Definition UINT_MOD : Z := 4294967296.

Definition in_int (z : Z) : bool := (INT_MIN <=? z) && (z <=? INT_MAX).

Definition to_int (z : Z) : res Z := if in_int z then Ok z else Err IntOverflow.

Definition int_add (a b : Z) : res Z := to_int (a + b).
Definition int_sub (a b : Z) : res Z := to_int (a - b).
Definition int_mul (a b : Z) : res Z := to_int (a * b).
Definition int_div (a b : Z) : res Z :=
  if b =? 0 then Err DivByZero else to_int (Z.quot a b).
Definition int_rem (a b : Z) : res Z :=
  if b =? 0 then Err DivByZero
  else if in_int (Z.quot a b) then Ok (Z.rem a b) else Err IntOverflow.

Definition to_uint (z : Z) : Z := z mod UINT_MOD.

#[global] Arguments to_int : simpl never.
#[global] Arguments int_add : simpl never.
#[global] Arguments int_sub : simpl never.
#[global] Arguments int_mul : simpl never.
#[global] Arguments int_div : simpl never.
#[global] Arguments int_rem : simpl never.
#[global] Arguments hassert : simpl never.
#[global] Arguments deref : simpl never.

Lemma in_int_spec z : in_int z = true ↔ INT_MIN <= z <= INT_MAX.
Proof. unfold in_int. rewrite andb_true_iff, !Z.leb_le. lia. Qed.

Lemma to_int_Ok z r : to_int z = Ok r ↔ r = z ∧ INT_MIN <= z <= INT_MAX.
Proof.
  unfold to_int. destruct (in_int z) eqn:E.
  - apply in_int_spec in E. split; [intros [= <-]; done|intros [-> _]; done].
  - split; [done|]. intros [-> H]. apply in_int_spec in H. congruence.
Qed.

Lemma to_int_id z : INT_MIN <= z <= INT_MAX → to_int z = Ok z.
Proof. intros H. by apply to_int_Ok. Qed.

Lemma to_int_over z : ~ (INT_MIN <= z <= INT_MAX) → to_int z = Err IntOverflow.
Proof.
  intros H. unfold to_int. destruct (in_int z) eqn:E; [|done].
  by apply in_int_spec in E.
Qed.

Lemma int_add_id a b : INT_MIN <= a + b <= INT_MAX → int_add a b = Ok (a + b).
Proof. apply to_int_id. Qed.

Lemma int_sub_id a b : INT_MIN <= a - b <= INT_MAX → int_sub a b = Ok (a - b).
Proof. apply to_int_id. Qed.

Lemma int_rem_pos a b :
  0 <= a <= INT_MAX → 0 < b → int_rem a b = Ok (a mod b).
Proof.
  intros Ha Hb. unfold int_rem.
  rewrite (proj2 (Z.eqb_neq b 0)) by lia.
  assert (Hq : 0 <= Z.quot a b <= a).
  { rewrite Z.quot_div_nonneg by lia. split; [apply Z.div_pos; lia|].
    apply Z.div_le_upper_bound; nia. }
  rewrite (proj2 (in_int_spec _)) by (unfold INT_MIN, INT_MAX in *; lia).
  by rewrite Z.rem_mod_nonneg by lia.
Qed.

(** [size_t] of an [int]. *)
Definition SIZE_MOD : Z := 18446744073709551616.
Definition to_size (z : Z) : Z := z mod SIZE_MOD.

Lemma to_size_id z : 0 <= z <= INT_MAX → to_size z = z.
Proof. intros H. unfold to_size, SIZE_MOD, INT_MAX in *. rewrite Z.mod_small; lia. Qed.

Lemma Z2Nat_nonpos z : z <= 0 → Z.to_nat z = 0%nat.
Proof. lia. Qed.

(** ** Pointers and arrays *)

(** A pointer the model does not look through is a number; [NULL] is 0. *)
Definition NULL : Z := 0.

(** An array access the code does not check: it is defined inside the array. *)
Definition array_get {A} (a : list A) (i : Z) : res A :=
  if i <? 0 then Err BadDeref else deref (a !! Z.to_nat i).

Definition array_set {A} (a : list A) (i : Z) (v : A) : res (list A) :=
  _ ← array_get a i; Ok (<[Z.to_nat i := v]> a).

#[global] Arguments array_get {A} a i : simpl never.
#[global] Arguments array_set {A} a i v : simpl never.

Lemma array_get_in {A} (a : list A) i v :
  0 <= i → a !! Z.to_nat i = Some v → array_get a i = Ok v.
Proof.
  intros Hi Ha. unfold array_get. by rewrite (proj2 (Z.ltb_ge _ _)), Ha by lia.
Qed.

Lemma array_get_out {A} (a : list A) i :
  i < 0 ∨ Z.of_nat (length a) <= i → array_get a i = Err BadDeref.
Proof.
  intros Hi. unfold array_get. destruct (Z.ltb_spec i 0); [done|].
  rewrite lookup_ge_None_2; [done|lia].
Qed.

Lemma array_get_Ok {A} (a : list A) i v :
  array_get a i = Ok v ↔ 0 <= i ∧ a !! Z.to_nat i = Some v.
Proof.
  split; [|intros []; by apply array_get_in].
  unfold array_get. destruct (Z.ltb_spec i 0); [done|].
  intros H'%deref_Ok. done.
Qed.

Lemma array_get_lt {A} (a : list A) i :
  0 <= i < Z.of_nat (length a) → ∃ v, array_get a i = Ok v ∧ a !! Z.to_nat i = Some v.
Proof.
  intros Hi. destruct (lookup_lt_is_Some_2 a (Z.to_nat i)) as [v Hv]; [lia|].
  exists v. split; [apply array_get_in; [lia|done]|done].
Qed.

Lemma array_set_in {A} (a : list A) i w :
  0 <= i < Z.of_nat (length a) → array_set a i w = Ok (<[Z.to_nat i := w]> a).
Proof.
  intros Hi. unfold array_set. by destruct (array_get_lt a i Hi) as (v & -> & _).
Qed.

(** ** Characters

    A character constant, and the characters of a string literal. *)
Definition ch (s : string) : Z :=
  match s with String c _ => Z.of_N (Ascii.N_of_ascii c) | EmptyString => 0 end.

Definition chars (s : string) : list Z :=
  (λ c, Z.of_N (Ascii.N_of_ascii c)) <$> String.list_ascii_of_string s.

#[global] Arguments ch s%_string : simpl never.
#[global] Arguments chars s%_string.

(** ** Automation *)

(** Turn the hypotheses left by running a monadic definition into equations on
    its parts. *)
Ltac res_step :=
  match goal with
  | H : Ok _ = Ok _ |- _ => injection H as H; subst
  | H : Err _ = Err _ |- _ => injection H as H; subst
  | H : Ok _ = Err _ |- _ => discriminate H
  | H : Err _ = Ok _ |- _ => discriminate H
  | H : (_ ≫= _) = Ok _ |- _ =>
      apply bind_Ok in H; destruct H as (? & ? & H)
  | H : hassert _ = Ok _ |- _ => apply hassert_Ok in H
  | H : deref _ = Ok _ |- _ => apply deref_Ok in H
  | H : array_get _ _ = Ok _ |- _ => apply array_get_Ok in H; destruct H
  | H : to_int _ = Ok _ |- _ => apply to_int_Ok in H; destruct H as [-> H]
  | H : int_add _ _ = Ok _ |- _ => unfold int_add in H
  | H : int_sub _ _ = Ok _ |- _ => unfold int_sub in H
  | H : int_mul _ _ = Ok _ |- _ => unfold int_mul in H
  | H : context [ (mret _) ] |- _ => unfold mret, res_ret in H
  | H : (_, _) = (_, _) |- _ => injection H as H; subst
  end.
Ltac res_inv := repeat (res_step; cbn beta iota in *).

(** Boolean tests of the code as propositions. *)
Ltac bool_inv :=
  repeat match goal with
  | H : (_ && _) = true |- _ => apply andb_true_iff in H; destruct H
  | H : (_ && _) = false |- _ => apply andb_false_iff in H
  | H : (_ || _) = true |- _ => apply orb_true_iff in H
  | H : (_ || _) = false |- _ => apply orb_false_iff in H; destruct H
  | H : negb _ = true |- _ => apply negb_true_iff in H
  | H : negb _ = false |- _ => apply negb_false_iff in H
  | H : (_ =? _) = true |- _ => apply Z.eqb_eq in H
  | H : (_ =? _) = false |- _ => apply Z.eqb_neq in H
  | H : (_ <? _) = true |- _ => apply Z.ltb_lt in H
  | H : (_ <? _) = false |- _ => apply Z.ltb_ge in H
  | H : (_ <=? _) = true |- _ => apply Z.leb_le in H
  | H : (_ <=? _) = false |- _ => apply Z.leb_gt in H
  end.

Create HintDb hclib discriminated.
#[export] Hint Resolve to_int_id : hclib.

(** ** Termination

    A call that does not run out of the model's fuel. *)
Definition terminates {A} (m : res A) : Prop := m ≠ Err OutOfFuel.

Lemma terminates_Ok {A} (a : A) : terminates (Ok a).
Proof. done. Qed.

Lemma terminates_bind {A B} (m : res A) (k : A → res B) :
  terminates m → (∀ a, m = Ok a → terminates (k a)) → terminates (m ≫= k).
Proof. intros Hm Hk. destruct m as [a|f]; [by apply Hk|]. intros [= ->]. by apply Hm. Qed.

Lemma terminates_hassert b : terminates (hassert b).
Proof. by destruct b. Qed.

Lemma terminates_deref {A} (o : option A) : terminates (deref o).
Proof. by destruct o. Qed.

Lemma terminates_to_int z : terminates (to_int z).
Proof. unfold to_int. by destruct (in_int z). Qed.

Lemma terminates_int_rem a b : terminates (int_rem a b).
Proof. unfold int_rem. destruct (b =? 0); [done|]. by destruct (in_int _). Qed.

Lemma terminates_array_get {A} (a : list A) i : terminates (array_get a i).
Proof. unfold array_get. destruct (i <? 0); [done|]. apply terminates_deref. Qed.

Lemma terminates_array_set {A} (a : list A) i v : terminates (array_set a i v).
Proof. unfold array_set. apply terminates_bind; [apply terminates_array_get|done]. Qed.

#[export] Hint Resolve terminates_Ok terminates_hassert terminates_deref terminates_to_int
  terminates_int_rem terminates_array_get terminates_array_set : hclib.

(** Run a monadic definition through its binds and cases. *)
Ltac terminate :=
  repeat (eauto with hclib; lazymatch goal with
    | |- terminates (Err _) => done
    | |- terminates (int_add _ _) => apply terminates_to_int
    | |- terminates (int_sub _ _) => apply terminates_to_int
    | |- terminates (_ ≫= _) => apply terminates_bind; [|intros ? ?]
    | |- terminates (match ?x with _ => _ end) => destruct x
    end).

(** ** Bytes in memory

A byte that [malloc] returned has no value yet. *)
Notation bytes := (list (option Z)).

(** [n] bytes at an offset in an allocation, which a callback may read and
    write; the access is defined when they are inside. *)
Definition block (mem : bytes) (off n : Z) : res bytes :=
  if (0 <=? off) && (off + n <=? Z.of_nat (length mem))
  then Ok (take (Z.to_nat n) (drop (Z.to_nat off) mem)) else Err BadDeref.

Definition set_block (mem : bytes) (off : Z) (b : bytes) : bytes :=
  take (Z.to_nat off) mem ++ b ++ drop (Z.to_nat off + length b) mem.

Definition on_block (mem : bytes) (off n : Z) (f : bytes → bytes) : res bytes :=
  b ← block mem off n; Ok (set_block mem off (f b)).

Lemma block_ok mem off n :
  0 <= off → off + n <= Z.of_nat (length mem) →
  block mem off n = Ok (take (Z.to_nat n) (drop (Z.to_nat off) mem)).
Proof. intros H1 H2. unfold block. by rewrite (proj2 (Z.leb_le _ _)), (proj2 (Z.leb_le _ _)) by lia. Qed.

Lemma length_set_block mem off b :
  0 <= off → off + Z.of_nat (length b) <= Z.of_nat (length mem) →
  length (set_block mem off b) = length mem.
Proof. intros. unfold set_block. rewrite !length_app, length_take, length_drop. lia. Qed.

Lemma block_set_same mem off b :
  0 <= off → off + Z.of_nat (length b) <= Z.of_nat (length mem) →
  block (set_block mem off b) off (Z.of_nat (length b)) = Ok b.
Proof.
  intros H1 H2. rewrite block_ok by (rewrite ?length_set_block; lia). f_equal.
  unfold set_block. rewrite drop_app_length' by (rewrite length_take; lia).
  rewrite Nat2Z.id. by rewrite take_app_length.
Qed.

Lemma block_set_other mem off b off' n :
  0 <= off → off + Z.of_nat (length b) <= Z.of_nat (length mem) → 0 <= off' → 0 <= n →
  off' + n <= off ∨ off + Z.of_nat (length b) <= off' →
  block (set_block mem off b) off' n = block mem off' n.
Proof.
  intros H1 H2 H3 H4 Hd. unfold block. rewrite length_set_block by lia.
  destruct ((0 <=? off') && (off' + n <=? Z.of_nat (length mem))) eqn:E; [|done]. bool_inv.
  f_equal. apply list_eq. intros i. destruct (decide (i < Z.to_nat n)%nat).
  - rewrite !lookup_take_lt by lia. rewrite !lookup_drop. unfold set_block.
    destruct Hd.
    + rewrite lookup_app_l by (rewrite length_take; lia). by rewrite lookup_take_lt by lia.
    + rewrite lookup_app_r by (rewrite length_take; lia). rewrite length_take.
      rewrite lookup_app_r by lia. rewrite lookup_drop. f_equal. lia.
  - rewrite !lookup_take_ge by lia. done.
Qed.

Lemma on_block_ok mem off n f b :
  block mem off n = Ok b → on_block mem off n f = Ok (set_block mem off (f b)).
Proof. intros H. unfold on_block. by rewrite H. Qed.

Lemma length_block mem off n b :
  0 <= n → block mem off n = Ok b → Z.of_nat (length b) = n.
Proof.
  intros Hn. unfold block. destruct (_ && _) eqn:E; [|done]. bool_inv. intros [= <-].
  rewrite length_take, length_drop. lia.
Qed.

(** *** Integers as bytes, little-endian *)

Fixpoint to_le (n : nat) (v : Z) : list Z :=
  match n with O => [] | S n => v mod 256 :: to_le n (v / 256) end.

Fixpoint of_le (l : list Z) : Z :=
  match l with [] => 0 | b :: l => b + 256 * of_le l end.

Lemma length_le n v : length (to_le n v) = n.
Proof. revert v. induction n as [|n IH]; intros v; cbn; [done|by rewrite IH]. Qed.

Lemma take_le n v l : take n (to_le n v ++ l) = to_le n v.
Proof. apply take_app_length'. by rewrite length_le. Qed.

Lemma drop_le n v l : drop n (to_le n v ++ l) = l.
Proof. apply drop_app_length'. by rewrite length_le. Qed.

Lemma of_le_le n v : 0 <= v < 256 ^ Z.of_nat n → of_le (to_le n v) = v.
Proof.
  revert v. induction n as [|n IH]; intros v Hv; cbn [to_le of_le].
  - cbn in Hv. lia.
  - rewrite Nat2Z.inj_succ, Z.pow_succ_r in Hv by lia. rewrite IH.
    + pose proof (Z.div_mod v 256 ltac:(lia)). lia.
    + split; [apply Z.div_pos; lia|]. apply Z.div_lt_upper_bound; lia.
Qed.
