(* ===== verification/Deque.v ===== *)
(** * The work-stealing deque, run by one thread at a time

    [src/src/hclib-deque.c] and [src/src/inc/hclib-deque.h]: the ring buffer,
    its five operations as C code with checked [int] arithmetic, and their
    refinement of a double-ended queue of task pointers.  [DequeConc] runs the
    same operations one memory access at a time against concurrent thieves. *)

From S2P Require Import Prelude.
From stdpp Require Import options.

(** ** Data *)

(** src/src/inc/hclib-deque.h:48-48 (STEAL_CHUNK_SIZE) *)
Definition STEAL_CHUNK_SIZE : Z := 1.

(** src/src/inc/hclib-deque.h:51-51 (INIT_DEQUE_CAPACITY) *)
Definition INIT_DEQUE_CAPACITY : Z := 1048576.

(** The array of the deque is part of a [calloc]ed block, so a slot never
    written holds [NULL].

    src/src/inc/hclib-deque.h:53-71 (hclib_internal_deque_t) *)
Record hclib_internal_deque_t := mkDeque {
  dq_head : Z;
  dq_tail : Z;
  dq_data : gmap Z Z
}.

(** The slots of [data] that an index reaches. *)
Definition slot_of (i : Z) : Z := i mod INIT_DEQUE_CAPACITY.

Definition slot_get (d : gmap Z Z) (n : Z) : Z := default NULL (d !! n).

(** [data[n]] for the [n] computed by [i % INIT_DEQUE_CAPACITY]; C's remainder
    is negative for a negative index, which is outside the array. *)
Definition slot_index (i : Z) : res Z :=
  n ← int_rem i INIT_DEQUE_CAPACITY;
  if 0 <=? n then Ok n else Err BadDeref.

#[global] Arguments slot_index : simpl never.
#[global] Arguments slot_of : simpl never.

(** ** Atomic operations *)

(** The [__sync] builtins return the new value ([add_and_fetch]), the old one
    ([fetch_and_sub]) and the value found ([val_compare_and_swap]); they wrap.

    src/src/inc/hclib-atomics.h:46-48 (hc_atomic_inc) *)
Definition hc_atomic_inc (v : Z) : Z * Z :=
  let v' := (v + 1 - INT_MIN) mod UINT_MOD + INT_MIN in (v', v').

(** src/src/inc/hclib-atomics.h:54-56 (hc_atomic_dec) *)
Definition hc_atomic_dec (v : Z) : Z * Z :=
  (v, (v - 1 - INT_MIN) mod UINT_MOD + INT_MIN).

(** src/src/inc/hclib-atomics.h:66-68 (hc_cas) *)
Definition hc_cas (v ag x : Z) : Z * Z := (v, if v =? ag then x else v).

(** ** Operations *)

(** src/src/hclib-deque.c:42-45 (deque_init) *)
Definition deque_init (deq : hclib_internal_deque_t) : hclib_internal_deque_t :=
  mkDeque 0 0 (dq_data deq).

(** src/src/hclib-deque.c:47-64 (deque_push) *)
Definition deque_push (deq : hclib_internal_deque_t) (entry : Z)
    : res (Z * hclib_internal_deque_t) :=
  size ← int_sub (dq_tail deq) (dq_head deq);
  if size =? INIT_DEQUE_CAPACITY then Ok (0, deq)
  else
    n ← slot_index (dq_tail deq);
    let data := <[n := entry]> (dq_data deq) in
    tail' ← int_add (dq_tail deq) 1;
    Ok (1, mkDeque (dq_head deq) tail' data).

(** The loop of [deque_steal]; [stolen] is the array filled so far.  With one
    thread the compare-and-swap finds the head it read.  The fuel is the room
    left in [stolen].

    src/src/hclib-deque.c:86-103 (deque_steal) *)
Fixpoint deque_steal_loop (fuel : nat) (deq : hclib_internal_deque_t)
    (stolen : list Z) : res (list Z * hclib_internal_deque_t) :=
  match fuel with
  | O => Err OutOfFuel
  | S fuel =>
      let head := dq_head deq in
      let tail := dq_tail deq in
      diff ← int_sub tail head;
      if diff <=? 0 then Ok (stolen, deq)
      else
        n ← slot_index head;
        let t := slot_get (dq_data deq) n in
        head1 ← int_add head 1;
        let '(old, head') := hc_cas (dq_head deq) head head1 in
        let stolen' := if old =? head then stolen ++ [t] else stolen in
        let deq' := mkDeque head' tail (dq_data deq) in
        if Z.of_nat (length stolen') <? STEAL_CHUNK_SIZE
        then deque_steal_loop fuel deq' stolen'
        else Ok (stolen', deq')
  end.

(** Returns the stolen pointers; C returns their number and stores them in the
    caller's array.

    src/src/hclib-deque.c:70-106 (deque_steal) *)
Definition deque_steal (deq : hclib_internal_deque_t)
    : res (list Z * hclib_internal_deque_t) :=
  deque_steal_loop (Z.to_nat STEAL_CHUNK_SIZE) deq [].

(** src/src/hclib-deque.c:108-139 (deque_pop) *)
Definition deque_pop (deq : hclib_internal_deque_t)
    : res (Z * hclib_internal_deque_t) :=
  tail ← int_sub (dq_tail deq) 1;
  let deq := mkDeque (dq_head deq) tail (dq_data deq) in
  let head := dq_head deq in
  size ← int_sub tail head;
  if size <? 0 then Ok (NULL, mkDeque (dq_head deq) (dq_head deq) (dq_data deq))
  else
    n ← slot_index tail;
    let t := slot_get (dq_data deq) n in
    if size >? 0 then Ok (t, deq)
    else
      head1 ← int_add head 1;
      let '(old, head') := hc_cas (dq_head deq) head head1 in
      let t := if negb (old =? head) then NULL else t in
      Ok (t, mkDeque head' head' (dq_data deq)).

(** src/src/hclib-deque.c:141-145 (deque_size) *)
Definition deque_size (deq : hclib_internal_deque_t) : res Z :=
  size ← int_sub (dq_tail deq) (dq_head deq);
  Ok (if size <=? 0 then 0 else size).

(** ** Abstract specification: a double-ended queue *)

(** The pointers held in the index range [lo, lo + n). *)
Definition contents_from (d : gmap Z Z) (lo : Z) (n : nat) : list Z :=
  (λ k, slot_get d (slot_of (lo + Z.of_nat k))) <$> seq 0 n.

Definition contents (deq : hclib_internal_deque_t) : list Z :=
  contents_from (dq_data deq) (dq_head deq)
    (Z.to_nat (dq_tail deq - dq_head deq)).

#[global] Arguments contents_from : simpl never.
#[global] Arguments contents : simpl never.

(** Head and tail only grow between resets; the buffer holds at most its
    capacity. *)
Definition deque_wf (deq : hclib_internal_deque_t) : Prop :=
  0 <= dq_head deq <= dq_tail deq ∧
  dq_tail deq - dq_head deq <= INIT_DEQUE_CAPACITY ∧
  dq_tail deq <= INT_MAX.

(** ** Lemmas on the ring buffer *)

Lemma slot_index_ok i :
  0 <= i <= INT_MAX → slot_index i = Ok (slot_of i).
Proof.
  intros Hi. unfold slot_index, slot_of.
  rewrite int_rem_pos by (unfold INIT_DEQUE_CAPACITY; lia). cbn.
  by rewrite (proj2 (Z.leb_le _ _)) by (apply Z.mod_pos_bound; unfold INIT_DEQUE_CAPACITY; lia).
Qed.

Lemma slot_of_inj i j :
  slot_of i = slot_of j → Z.abs (i - j) < INIT_DEQUE_CAPACITY → i = j.
Proof.
  unfold slot_of. intros Hm Hd.
  assert (0 < INIT_DEQUE_CAPACITY) by (unfold INIT_DEQUE_CAPACITY; lia).
  pose proof (Z.div_mod i INIT_DEQUE_CAPACITY ltac:(lia)).
  pose proof (Z.div_mod j INIT_DEQUE_CAPACITY ltac:(lia)).
  set (qi := i / INIT_DEQUE_CAPACITY) in *.
  set (qj := j / INIT_DEQUE_CAPACITY) in *.
  assert (qi = qj) by nia. nia.
Qed.

Lemma length_contents_from d lo n : length (contents_from d lo n) = n.
Proof. unfold contents_from. by rewrite length_fmap, length_seq. Qed.

Lemma contents_from_S d lo n :
  contents_from d lo (S n) =
  contents_from d lo n ++ [slot_get d (slot_of (lo + Z.of_nat n))].
Proof.
  unfold contents_from. rewrite seq_S, fmap_app. done.
Qed.

Lemma contents_from_cons d lo n :
  contents_from d lo (S n) =
  slot_get d (slot_of lo) :: contents_from d (lo + 1) n.
Proof.
  unfold contents_from. cbn [seq fmap list_fmap]. f_equal.
  - by rewrite Z.add_0_r.
  - rewrite <- (fmap_S_seq 0 n), <- list_fmap_compose.
    apply list_fmap_ext. intros ? k _. cbn. do 2 f_equal. lia.
Qed.

(** A write outside the index range leaves the contents alone. *)
Lemma contents_from_insert d lo n i x :
  (∀ j, lo <= j < lo + Z.of_nat n → slot_of j <> slot_of i) →
  contents_from (<[slot_of i := x]> d) lo n = contents_from d lo n.
Proof.
  intros Hne. unfold contents_from. apply list_fmap_ext.
  intros idx k Hk. apply lookup_seq in Hk as [-> Hk]. cbn.
  unfold slot_get. rewrite lookup_insert_ne; [done|].
  intros Heq. apply (Hne (lo + Z.of_nat idx)); [lia|done].
Qed.

Lemma slot_get_insert d n x : slot_get (<[n := x]> d) n = x.
Proof. unfold slot_get. by rewrite lookup_insert_eq. Qed.

(** ** The interface the scheduler relies on

    What the locality layer asks of the queue at a locale: pushing appends at
    the owner's end, popping takes from that end, stealing takes from the
    other.  [wq_room] is what a push needs to succeed. *)
Class WorkQueue (Q : Type) := {
  wq_items : Q → list Z;
  wq_ok : Q → Prop;
  wq_room : Q → Prop;
  wq_push : Q → Z → res (Z * Q);
  wq_pop : Q → res (Z * Q);
  wq_steal : Q → res (list Z * Q);
  wq_push_spec q x : wq_ok q → wq_room q →
    ∃ q', wq_push q x = Ok (1, q') ∧ wq_ok q' ∧ wq_items q' = wq_items q ++ [x];
  wq_push_inv q x r q' : wq_ok q → wq_push q x = Ok (r, q') → r ≠ 0 →
    wq_ok q' ∧ wq_items q' = wq_items q ++ [x];
  wq_pop_spec q : wq_ok q →
    ∃ t q', wq_pop q = Ok (t, q') ∧ wq_ok q' ∧
      ((wq_items q = [] ∧ t = NULL ∧ wq_items q' = []) ∨
       wq_items q = wq_items q' ++ [t]);
  wq_steal_spec q : wq_ok q →
    ∃ ts q', wq_steal q = Ok (ts, q') ∧ wq_ok q' ∧
      wq_items q = ts ++ wq_items q' ∧ (ts = [] → wq_items q = []) ∧
      (length ts <= 1)%nat
}.

(** ** Functional correctness *)

Lemma deque_wf_int deq :
  deque_wf deq →
  int_sub (dq_tail deq) (dq_head deq) = Ok (dq_tail deq - dq_head deq).
Proof.
  intros (? & ? & ?). apply to_int_id. unfold INT_MIN, INT_MAX in *. lia.
Qed.

Lemma contents_nil deq :
  deque_wf deq → contents deq = [] ↔ dq_tail deq = dq_head deq.
Proof.
  intros (? & ? & ?). rewrite <- length_zero_iff_nil.
  unfold contents. rewrite length_contents_from. lia.
Qed.

Lemma contents_snoc deq :
  dq_head deq <= dq_tail deq - 1 →
  contents deq =
  contents (mkDeque (dq_head deq) (dq_tail deq - 1) (dq_data deq)) ++
  [slot_get (dq_data deq) (slot_of (dq_tail deq - 1))].
Proof.
  intros H. unfold contents. cbn [dq_head dq_tail dq_data].
  replace (Z.to_nat (dq_tail deq - dq_head deq))
    with (S (Z.to_nat (dq_tail deq - 1 - dq_head deq))) by lia.
  rewrite contents_from_S. do 4 f_equal. lia.
Qed.

Lemma contents_cons deq :
  dq_head deq < dq_tail deq →
  contents deq =
  slot_get (dq_data deq) (slot_of (dq_head deq)) ::
  contents (mkDeque (dq_head deq + 1) (dq_tail deq) (dq_data deq)).
Proof.
  intros H. unfold contents. cbn [dq_head dq_tail dq_data].
  replace (Z.to_nat (dq_tail deq - dq_head deq))
    with (S (Z.to_nat (dq_tail deq - (dq_head deq + 1)))) by lia.
  apply contents_from_cons.
Qed.

Lemma deque_push_ok deq x :
  deque_wf deq → dq_tail deq < INT_MAX →
  (length (contents deq) < Z.to_nat INIT_DEQUE_CAPACITY)%nat →
  ∃ deq', deque_push deq x = Ok (1, deq') ∧ deque_wf deq' ∧
    contents deq' = contents deq ++ [x].
Proof.
  intros Hwf Hmax Hlen. pose proof Hwf as (Hh & Hc & Ht).
  unfold contents in Hlen. rewrite length_contents_from in Hlen.
  eexists. unfold deque_push. rewrite (deque_wf_int _ Hwf). cbn.
  rewrite (proj2 (Z.eqb_neq _ _)) by lia.
  rewrite slot_index_ok by lia. cbn.
  unfold int_add. rewrite to_int_id by (unfold INT_MIN in *; lia). cbn.
  split; [done|]. split.
  { unfold deque_wf; cbn. lia. }
  rewrite contents_snoc by (cbn; lia). cbn [dq_head dq_tail dq_data].
  rewrite Z.add_simpl_r, slot_get_insert. f_equal.
  unfold contents. cbn [dq_head dq_tail dq_data]. rewrite contents_from_insert; [done|].
  intros j Hj Hs. apply slot_of_inj in Hs; lia.
Qed.

Lemma deque_push_full deq x :
  deque_wf deq →
  length (contents deq) = Z.to_nat INIT_DEQUE_CAPACITY →
  deque_push deq x = Ok (0, deq).
Proof.
  intros Hwf Hlen. pose proof Hwf as (Hh & Hc & Ht).
  unfold contents in Hlen. rewrite length_contents_from in Hlen.
  unfold deque_push. rewrite (deque_wf_int _ Hwf). cbn.
  rewrite (proj2 (Z.eqb_eq _ _)); [done|]. unfold INIT_DEQUE_CAPACITY in *. lia.
Qed.

Lemma deque_push_inv deq x r deq' :
  deque_wf deq → deque_push deq x = Ok (r, deq') → r ≠ 0 →
  deque_wf deq' ∧ contents deq' = contents deq ++ [x].
Proof.
  intros Hwf H Hr. pose proof Hwf as (Hh & Hc & Ht).
  assert (dq_tail deq < INT_MAX ∧ (length (contents deq) < Z.to_nat INIT_DEQUE_CAPACITY)%nat)
    as [H1 H2].
  { unfold deque_push in H. rewrite (deque_wf_int _ Hwf) in H. cbn [mbind res_bind] in H.
    destruct (Z.eqb_spec (dq_tail deq - dq_head deq) INIT_DEQUE_CAPACITY); [res_inv; done|].
    res_inv. unfold contents. rewrite length_contents_from. lia. }
  destruct (deque_push_ok deq x Hwf H1 H2) as (d & E & Hd & Hq).
  rewrite E in H. injection H as _ <-. done.
Qed.

Lemma deque_pop_ok deq :
  deque_wf deq →
  ∃ t deq', deque_pop deq = Ok (t, deq') ∧ deque_wf deq' ∧
    ((contents deq = [] ∧ t = NULL ∧ contents deq' = []) ∨
     contents deq = contents deq' ++ [t]).
Proof.
  intros Hwf. pose proof Hwf as (Hh & Hc & Ht).
  unfold deque_pop, int_sub, int_add.
  rewrite (to_int_id (_ - 1)) by (unfold INT_MIN, INT_MAX in *; lia). cbn.
  rewrite (to_int_id (_ - _)) by (unfold INT_MIN, INT_MAX in *; lia). cbn.
  destruct (Z.ltb_spec (dq_tail deq - 1 - dq_head deq) 0) as [Hs|Hs].
  { eexists _, _. split; [done|].
    assert (Heq : dq_tail deq = dq_head deq) by lia.
    assert (deque_wf (mkDeque (dq_head deq) (dq_head deq) (dq_data deq)))
      by (unfold deque_wf, INIT_DEQUE_CAPACITY; cbn; lia).
    split; [done|]. left. rewrite !contents_nil by done. done. }
  rewrite slot_index_ok by lia. cbn.
  pose proof (contents_snoc deq ltac:(lia)) as Hsnoc.
  destruct (Z.gtb_spec (dq_tail deq - 1 - dq_head deq) 0) as [Hg|Hg].
  { eexists _, _. split; [done|]. split; [unfold deque_wf; cbn; lia|]. by right. }
  rewrite to_int_id by (unfold INT_MIN, INT_MAX in *; lia). cbn.
  rewrite Z.eqb_refl. cbn. eexists _, _. split; [done|].
  split; [unfold deque_wf, INIT_DEQUE_CAPACITY; cbn; lia|].
  right. rewrite Hsnoc. f_equal. unfold contents; cbn.
  by rewrite !Z2Nat_nonpos by lia.
Qed.

Lemma deque_steal_ok deq :
  deque_wf deq →
  ∃ ts deq', deque_steal deq = Ok (ts, deq') ∧ deque_wf deq' ∧
    contents deq = ts ++ contents deq' ∧
    length ts = (length (contents deq) `min` Z.to_nat STEAL_CHUNK_SIZE)%nat.
Proof.
  intros Hwf. pose proof Hwf as (Hh & Hc & Ht).
  unfold deque_steal. change (Z.to_nat STEAL_CHUNK_SIZE) with 1%nat.
  cbn [deque_steal_loop]. cbv zeta.
  rewrite (deque_wf_int _ Hwf). cbn.
  destruct (Z.leb_spec (dq_tail deq - dq_head deq) 0) as [Hs|Hs].
  { eexists _, _. split; [done|]. split; [done|].
    rewrite (proj2 (contents_nil _ Hwf)) by lia. done. }
  rewrite slot_index_ok by lia. cbn.
  unfold int_add. rewrite to_int_id by (unfold INT_MIN in *; lia). cbn.
  rewrite Z.eqb_refl. cbn. eexists _, _. split; [done|].
  split; [unfold deque_wf in *; cbn; lia|].
  rewrite contents_cons by lia. split; [done|]. cbn. lia.
Qed.

#[export] Instance deque_work_queue : WorkQueue hclib_internal_deque_t.
Proof.
  refine {| wq_items := contents; wq_ok := deque_wf;
    wq_room q := dq_tail q < INT_MAX ∧
      (length (contents q) < Z.to_nat INIT_DEQUE_CAPACITY)%nat;
    wq_push := deque_push; wq_pop := deque_pop; wq_steal := deque_steal |}.
  - intros q x Hq [? ?]. by apply deque_push_ok.
  - apply deque_push_inv.
  - apply deque_pop_ok.
  - intros q Hq. destruct (deque_steal_ok q Hq) as (ts & q' & ? & ? & Hc & Hl).
    change (Z.to_nat STEAL_CHUNK_SIZE) with 1%nat in Hl.
    exists ts, q'. split; [done|]. split; [done|]. split; [done|]. split; [|lia].
    intros ->. cbn in Hl. destruct (contents q); [done|]. cbn in Hl. lia.
Defined.

(** ** Properties *)

(** C9: [deque_push], [deque_pop] and [deque_steal] implement a double-ended
    queue of bounded capacity: on a well-formed deque a push appends at the
    tail and returns 1, or returns 0 and changes nothing exactly when
    [INIT_DEQUE_CAPACITY] tasks are queued; a pop removes the newest task, or
    returns [NULL] when there is none; a steal removes the oldest
    [STEAL_CHUNK_SIZE] tasks (or all there are); each leaves it well formed. *)
Theorem deque_refines_queue (deq : hclib_internal_deque_t) (x : Z) :
  deque_wf deq → dq_tail deq < INT_MAX →
  (∃ r d1, deque_push deq x = Ok (r, d1) ∧ deque_wf d1 ∧
     ((r = 1 ∧ contents d1 = contents deq ++ [x] ∧
       (length (contents deq) < Z.to_nat INIT_DEQUE_CAPACITY)%nat) ∨
      (r = 0 ∧ d1 = deq ∧
       length (contents deq) = Z.to_nat INIT_DEQUE_CAPACITY))) ∧
  (∃ t d2, deque_pop deq = Ok (t, d2) ∧ deque_wf d2 ∧
     ((contents deq = [] ∧ t = NULL ∧ contents d2 = []) ∨
      contents deq = contents d2 ++ [t])) ∧
  (∃ ts d3, deque_steal deq = Ok (ts, d3) ∧ deque_wf d3 ∧
     contents deq = ts ++ contents d3 ∧
     length ts = (length (contents deq) `min` Z.to_nat STEAL_CHUNK_SIZE)%nat).
Proof.
  intros Hwf Hmax. split; [|split; [by apply deque_pop_ok|by apply deque_steal_ok]].
  assert (Hl : length (contents deq) = Z.to_nat (dq_tail deq - dq_head deq))
    by (unfold contents; apply length_contents_from).
  pose proof Hwf as (Hh & Hc & Ht).
  destruct (decide (dq_tail deq - dq_head deq = INIT_DEQUE_CAPACITY)) as [Heq|Hne].
  - exists 0, deq. rewrite deque_push_full by (done || lia).
    split; [done|]. split; [done|]. right. split; [done|]. split; [done|lia].
  - destruct (deque_push_ok deq x) as (d1 & -> & ? & ?); [done..|lia|].
    exists 1, d1. split; [done|]. split; [done|]. left. split; [done|]. split; [done|lia].
Qed.

Lemma deque_refines_queue_witness :
  let d := mkDeque 1048575 1048577 {[1048575 := 7; 0 := 8]} in
  contents d = [7; 8] ∧
  ∃ d1, deque_push d 9 = Ok (1, d1) ∧ contents d1 = [7; 8; 9].
Proof.
  intros d.
  assert (Hd : deque_wf d ∧ dq_tail d < INT_MAX) by (vm_compute; split; [split|]; naive_solver congruence).
  destruct (deque_refines_queue d 9 (proj1 Hd) (proj2 Hd))
    as [(r & d1 & Hp & _ & [(-> & Hc & _)|(-> & _ & Hl)]) _].
  - split; [vm_compute; reflexivity|]. exists d1. split; [exact Hp|].
    rewrite Hc. vm_compute. reflexivity.
  - exfalso. vm_compute in Hp. congruence.
Defined.

(** The counters of a deque are never reset, so the queue has a lifetime:
    once [tail] has reached [INT_MAX] a push into a deque that is not full
    overflows a signed [int]; before that no push does. *)
Theorem deque_push_lifetime (deq : hclib_internal_deque_t) (x : Z) :
  deque_wf deq →
  (length (contents deq) < Z.to_nat INIT_DEQUE_CAPACITY)%nat →
  (deque_push deq x = Err IntOverflow ↔ dq_tail deq = INT_MAX).
Proof.
  intros Hwf Hl. pose proof Hwf as (Hh & Hc & Ht). split.
  - intros He. destruct (decide (dq_tail deq = INT_MAX)); [done|].
    destruct (deque_push_ok deq x) as (d1 & H & _); [done|lia|done|congruence].
  - intros He. unfold contents in Hl. rewrite length_contents_from in Hl.
    unfold deque_push. rewrite (deque_wf_int _ Hwf). cbn.
    rewrite (proj2 (Z.eqb_neq _ _)) by lia.
    rewrite slot_index_ok by lia. cbn.
    unfold int_add. rewrite to_int_over by (unfold INT_MIN in *; lia). done.
Qed.

Lemma deque_push_lifetime_witness :
  let d := mkDeque INT_MAX INT_MAX ∅ in
  deque_wf d ∧ deque_push d 5 = Err IntOverflow.
Proof.
  intros d.
  assert (Hd : deque_wf d) by (vm_compute; naive_solver congruence).
  split; [exact Hd|].
  apply (deque_push_lifetime d 5 Hd); [|reflexivity].
  unfold contents, INIT_DEQUE_CAPACITY. rewrite length_contents_from.
  unfold d. cbn [dq_tail dq_head]. lia.
Defined.
