(* ===== verification/DequeConc.v ===== *)
(** * The work-stealing deque under concurrent thieves

    The operations of [src/src/hclib-deque.c] again, now as a machine whose
    steps are the single memory accesses of the C code: one owner that pushes
    and pops, any number of thieves that steal, interleaved in any order.
    [hc_mfence] separates the accesses it separates in C; memory is
    sequentially consistent.  The machine carries a log of the operations that
    took effect, and the theorems relate the log to an abstract queue. *)

From S2P Require Import Prelude Deque.
From stdpp Require Import options.

(** ** Program counters

    Each constructor is the point before the next access to shared memory, and
    holds the locals read so far.

    src/src/hclib-deque.c:50-64 (deque_push) and, from [PopTail],

    src/src/hclib-deque.c:111-139 (deque_pop) *)
Inductive owner_pc : Type :=
  | OIdle
  | PushTail (x : Z)                      (** read [tail] for [size] *)
  | PushHead (x tail : Z)                 (** read [head] for [size] *)
  | PushData (x : Z)                      (** read [tail], write [data[n]] *)
  | PushInc (x : Z)                       (** [deq->tail++] *)
  | PopTail                               (** read [tail] *)
  | PopDec (tail : Z)                     (** [deq->tail = tail] *)
  | PopHead (tail : Z)                    (** read [head] *)
  | PopEmptyHead (tail : Z)               (** [size < 0]: read [head] *)
  | PopEmptyTail (tail head2 : Z)         (** [deq->tail = deq->head] *)
  | PopData (tail head : Z)               (** read [data[tail % CAP]] *)
  | PopCas (tail head t : Z)              (** [hc_cas(&deq->head, ...)] *)
  | PopResetHead (tail t : Z)             (** read [head] *)
  | PopResetTail (tail t head2 : Z).      (** [deq->tail = deq->head] *)

(** [success] starts out indeterminate: [None].

    src/src/hclib-deque.c:75-106 (deque_steal) *)
Inductive thief_pc : Type :=
  | TIdle
  | StealHead (success : option bool) (stolen : list Z)
  | StealTail (success : option bool) (stolen : list Z) (head : Z)
  | StealData (success : option bool) (stolen : list Z) (head : Z)
  | StealCas (success : option bool) (stolen : list Z) (head t : Z)
  | StealTest (success : option bool) (stolen : list Z).

(** ** Operations that took effect *)
Inductive event : Type :=
  | EvPush (x : Z)
  | EvPushFull (x : Z)
  | EvPop (x : Z)
  | EvPopNull
  | EvSteal (thief : nat) (x : Z).

Record dstate := mkD {
  d_head : Z;
  d_tail : Z;
  d_data : gmap Z Z;
  d_owner : owner_pc;
  d_thieves : gmap nat thief_pc;
  d_log : list event
}.

Definition thief (s : dstate) (i : nat) : thief_pc :=
  default TIdle (d_thieves s !! i).

Definition set_owner (s : dstate) (pc : owner_pc) : dstate :=
  mkD (d_head s) (d_tail s) (d_data s) pc (d_thieves s) (d_log s).
Definition set_head (s : dstate) (h : Z) : dstate :=
  mkD h (d_tail s) (d_data s) (d_owner s) (d_thieves s) (d_log s).
Definition set_tail (s : dstate) (t : Z) : dstate :=
  mkD (d_head s) t (d_data s) (d_owner s) (d_thieves s) (d_log s).
Definition set_data (s : dstate) (d : gmap Z Z) : dstate :=
  mkD (d_head s) (d_tail s) d (d_owner s) (d_thieves s) (d_log s).
Definition set_thief (s : dstate) (i : nat) (pc : thief_pc) : dstate :=
  mkD (d_head s) (d_tail s) (d_data s) (d_owner s) (<[i := pc]> (d_thieves s)) (d_log s).
Definition logged (s : dstate) (e : event) : dstate :=
  mkD (d_head s) (d_tail s) (d_data s) (d_owner s) (d_thieves s) (d_log s ++ [e]).

(** ** One access of the owner *)

(** The steps of [deque_push]: [deq->tail - deq->head] reads [tail] first.

    src/src/hclib-deque.c:50-64 (deque_push) *)
Definition push_step (s : dstate) : res dstate :=
  match d_owner s with
  | PushTail x => Ok (set_owner s (PushHead x (d_tail s)))
  | PushHead x tail =>
      size ← int_sub tail (d_head s);
      if size =? INIT_DEQUE_CAPACITY
      then Ok (logged (set_owner s OIdle) (EvPushFull x))
      else Ok (set_owner s (PushData x))
  | PushData x =>
      n ← slot_index (d_tail s);
      Ok (set_owner (set_data s (<[n := x]> (d_data s))) (PushInc x))
  | PushInc x =>
      tail' ← int_add (d_tail s) 1;
      Ok (logged (set_owner (set_tail s tail') OIdle) (EvPush x))
  | _ => Err Disabled
  end.

(** src/src/hclib-deque.c:111-139 (deque_pop) *)
Definition pop_step (s : dstate) : res dstate :=
  match d_owner s with
  | PopTail =>
      tail ← int_sub (d_tail s) 1;
      Ok (set_owner s (PopDec tail))
  | PopDec tail => Ok (set_owner (set_tail s tail) (PopHead tail))
  | PopHead tail =>
      let head := d_head s in
      size ← int_sub tail head;
      if size <? 0 then Ok (set_owner s (PopEmptyHead tail))
      else Ok (set_owner s (PopData tail head))
  | PopEmptyHead tail => Ok (set_owner s (PopEmptyTail tail (d_head s)))
  | PopEmptyTail tail head2 =>
      Ok (logged (set_owner (set_tail s head2) OIdle) EvPopNull)
  | PopData tail head =>
      n ← slot_index tail;
      let t := slot_get (d_data s) n in
      size ← int_sub tail head;
      if size >? 0 then Ok (logged (set_owner s OIdle) (EvPop t))
      else Ok (set_owner s (PopCas tail head t))
  | PopCas tail head t =>
      head1 ← int_add head 1;
      let '(old, h') := hc_cas (d_head s) head head1 in
      if negb (old =? head)
      then Ok (logged (set_owner (set_head s h') (PopResetHead tail NULL)) EvPopNull)
      else Ok (logged (set_owner (set_head s h') (PopResetHead tail t)) (EvPop t))
  | PopResetHead tail t => Ok (set_owner s (PopResetTail tail t (d_head s)))
  | PopResetTail tail t head2 => Ok (set_owner (set_tail s head2) OIdle)
  | _ => Err Disabled
  end.

(** ** One access of thief [i]

    [junk] is the value an indeterminate [success] happens to hold when the
    loop condition reads it.

    src/src/hclib-deque.c:75-106 (deque_steal) *)
Definition steal_step (junk : bool) (i : nat) (s : dstate) : res dstate :=
  match thief s i with
  | TIdle => Err Disabled
  | StealHead success stolen =>
      Ok (set_thief s i (StealTail success stolen (d_head s)))
  | StealTail success stolen head =>
      diff ← int_sub (d_tail s) head;
      if diff <=? 0
      then Ok (set_thief s i (StealTest (Some false) stolen))
      else Ok (set_thief s i (StealData success stolen head))
  | StealData success stolen head =>
      n ← slot_index head;
      Ok (set_thief s i (StealCas success stolen head (slot_get (d_data s) n)))
  | StealCas success stolen head t =>
      head1 ← int_add head 1;
      let '(old, h') := hc_cas (d_head s) head head1 in
      if old =? head
      then Ok (logged (set_thief (set_head s h') i
                         (StealTest (Some true) (stolen ++ [t]))) (EvSteal i t))
      else Ok (set_thief (set_head s h') i (StealTest success stolen))
  | StealTest success stolen =>
      if default junk success && (Z.of_nat (length stolen) <? STEAL_CHUNK_SIZE)
      then Ok (set_thief s i (StealHead success stolen))
      else Ok (set_thief s i TIdle)
  end.

(** ** The scheduler picks who moves *)
Inductive label : Type :=
  | StartPush (x : Z)
  | StartPop
  | StepOwner
  | StartSteal (i : nat)
  | StepThief (junk : bool) (i : nat).

Definition dstep (l : label) (s : dstate) : res dstate :=
  match l with
  | StartPush x =>
      match d_owner s with
      | OIdle => Ok (set_owner s (PushTail x)) | _ => Err Disabled end
  | StartPop =>
      match d_owner s with
      | OIdle => Ok (set_owner s PopTail) | _ => Err Disabled end
  | StepOwner =>
      match d_owner s with
      | OIdle => Err Disabled
      | PushTail _ | PushHead _ _ | PushData _ | PushInc _ => push_step s
      | _ => pop_step s
      end
  | StartSteal i =>
      match thief s i with
      | TIdle => Ok (set_thief s i (StealHead None [])) | _ => Err Disabled end
  | StepThief junk i => steal_step junk i s
  end.

Fixpoint drun (ls : list label) (s : dstate) : res dstate :=
  match ls with
  | [] => Ok s
  | l :: ls => s' ← dstep l s; drun ls s'
  end.

(** A freshly initialised deque. *)
Definition dinit : dstate := mkD 0 0 ∅ OIdle ∅ [].

Definition reachable (s : dstate) : Prop := ∃ ls, drun ls dinit = Ok s.

(** ** Specification: a sequential queue replaying the log *)

Definition spec_step (e : event) (q : list Z) : option (list Z) :=
  match e with
  | EvPush x =>
      if Z.of_nat (length q) <? INIT_DEQUE_CAPACITY then Some (q ++ [x]) else None
  | EvPushFull _ =>
      if Z.of_nat (length q) =? INIT_DEQUE_CAPACITY then Some q else None
  | EvPop x =>
      match last q with
      | Some y => if x =? y then Some (take (length q - 1) q) else None
      | None => None
      end
  | EvPopNull => match q with [] => Some [] | _ => None end
  | EvSteal _ x =>
      match q with
      | y :: q' => if x =? y then Some q' else None
      | [] => None
      end
  end.

Fixpoint spec_run (es : list event) (q : list Z) : option (list Z) :=
  match es with
  | [] => Some q
  | e :: es => q' ← spec_step e q; spec_run es q'
  end.

(** The tasks put in and taken out, in the order of the log. *)
Definition pushed (es : list event) : list Z :=
  omap (λ e, match e with EvPush x => Some x | _ => None end) es.
Definition taken (es : list event) : list Z :=
  omap (λ e, match e with EvPop x | EvSteal _ x => Some x | _ => None end) es.

(** ** Abstraction and invariant *)

(** The end of the queue: a pop that has lowered [tail] but not yet decided has
    not removed its task. *)
Definition top (s : dstate) : Z :=
  match d_owner s with
  | OIdle | PushTail _ | PushHead _ _ | PushData _ | PushInc _
  | PopTail | PopDec _ => d_tail s
  | _ => d_tail s + 1
  end.

(** The index below which a thief may still win. *)
Definition limit (s : dstate) : Z :=
  match d_owner s with
  | PopData t h => if h <? t then t else t + 1
  | _ => top s
  end.

Definition items (s : dstate) : list Z :=
  contents_from (d_data s) (d_head s) (Z.to_nat (top s - d_head s)).

Definition owner_ok (s : dstate) : Prop :=
  match d_owner s with
  | OIdle | PushTail _ | PopTail => True
  | PushHead x t => t = d_tail s
  | PushData x => d_tail s - d_head s < INIT_DEQUE_CAPACITY
  | PushInc x => d_tail s - d_head s < INIT_DEQUE_CAPACITY ∧
      slot_get (d_data s) (slot_of (d_tail s)) = x
  | PopDec t => t = d_tail s - 1
  | PopHead t => t = d_tail s
  | PopEmptyHead t => t = d_tail s ∧ d_head s = t + 1
  | PopEmptyTail t h2 => t = d_tail s ∧ d_head s = t + 1 ∧ h2 = t + 1
  | PopData t h => t = d_tail s ∧ 0 <= h <= t ∧ h <= d_head s ∧
      (h < t → d_head s <= t)
  | PopCas t h x => t = d_tail s ∧ h = t ∧ 0 <= t ∧ t <= d_head s ∧
      x = slot_get (d_data s) (slot_of t)
  | PopResetHead t x => t = d_tail s ∧ d_head s = t + 1
  | PopResetTail t x h2 => t = d_tail s ∧ d_head s = t + 1 ∧ h2 = t + 1
  end.

(** What thief locals guarantee, given the head, the limit and the buffer. *)
Definition thief_ok (hd lim : Z) (d : gmap Z Z) (pc : thief_pc) : Prop :=
  match pc with
  | TIdle | StealHead _ _ | StealTest _ _ => True
  | StealTail _ _ h => 0 <= h <= hd
  | StealData _ _ h => 0 <= h <= hd ∧ (h = hd → h < lim)
  | StealCas _ _ h x => 0 <= h <= hd ∧ (h = hd → h < lim) ∧
      (h = hd → x = slot_get d (slot_of h))
  end.

Record dinv (s : dstate) : Prop := {
  dinv_head : 0 <= d_head s <= top s;
  dinv_cap : top s - d_head s <= INIT_DEQUE_CAPACITY;
  dinv_max : top s <= INT_MAX;
  dinv_owner : owner_ok s;
  dinv_thieves : ∀ i pc, d_thieves s !! i = Some pc →
    thief_ok (d_head s) (limit s) (d_data s) pc
}.

Lemma dinv_init : dinv dinit.
Proof.
  constructor; cbn; [lia| |unfold INT_MAX; lia|done|done].
  unfold INIT_DEQUE_CAPACITY. lia.
Qed.

(** A thief's guarantee survives a growing head and limit, and a buffer that
    agrees at the current head. *)
Lemma thief_ok_mono hd lim d hd' lim' d' pc :
  hd <= hd' → (hd = hd' → hd < lim → hd < lim') →
  (hd = hd' → hd < lim → slot_get d' (slot_of hd) = slot_get d (slot_of hd)) →
  thief_ok hd lim d pc → thief_ok hd' lim' d' pc.
Proof.
  intros Hh Hl Hd. destruct pc; cbn; try done; intros; destruct_and?; [lia|..].
  - split; [lia|]. intros Heq. assert (Hhd : hd = hd') by lia.
    rewrite Heq, <- Hhd. apply Hl; [done|]. subst. lia.
  - split; [lia|]. assert (Heqs : head = hd' → hd = hd' ∧ head = hd) by lia.
    split; intros Heq; apply Heqs in Heq as [Hhd Heq].
    + rewrite Heq. apply Hl; [done|]. lia.
    + rewrite Heq, Hd by (done || lia). subst. auto.
Qed.

Lemma thieves_ok_insert (m : gmap nat thief_pc) hd lim d i pc' :
  (∀ j pc, m !! j = Some pc → thief_ok hd lim d pc) →
  thief_ok hd lim d pc' →
  ∀ j pc, <[i := pc']> m !! j = Some pc → thief_ok hd lim d pc.
Proof.
  intros Hm Hpc j pc. destruct (decide (i = j)) as [<-|Hne].
  - rewrite lookup_insert_eq. by intros [= <-].
  - rewrite lookup_insert_ne by done. apply Hm.
Qed.

Lemma dinv_thief s i pc :
  dinv s → thief s i = pc → thief_ok (d_head s) (limit s) (d_data s) pc.
Proof.
  intros Hi <-. unfold thief. destruct (d_thieves s !! i) eqn:E; cbn; [|done].
  by apply (dinv_thieves s Hi i).
Qed.

Lemma slot_index_inv i n : slot_index i = Ok n → 0 <= i → n = slot_of i.
Proof.
  unfold slot_index, int_rem. intros H Hi.
  destruct (in_int _); cbn in H; [|done].
  destruct (0 <=? Z.rem i INIT_DEQUE_CAPACITY); [|done].
  injection H as <-. unfold slot_of.
  by rewrite Z.rem_mod_nonneg by (unfold INIT_DEQUE_CAPACITY; lia).
Qed.

Lemma limit_le_top s : owner_ok s → limit s <= top s.
Proof.
  unfold limit, owner_ok, top. destruct (d_owner s); intros; destruct_and?; try lia.
  case_match; lia.
Qed.

Lemma tail_le_limit s : owner_ok s → d_tail s <= limit s.
Proof.
  unfold limit, owner_ok, top. destruct (d_owner s); intros; destruct_and?; try lia.
  case_match; lia.
Qed.

(** ** Steps simulate the specification *)

(** The log grows by what the specification accepts. *)
Definition sim (s s' : dstate) : Prop :=
  ∃ es, d_log s' = d_log s ++ es ∧ spec_run es (items s) = Some (items s').

Lemma sim_tau s s' : d_log s' = d_log s → items s' = items s → sim s s'.
Proof. intros Hl Hi. exists []. rewrite Hl, Hi, app_nil_r. done. Qed.

Lemma sim_ev s s' e :
  d_log s' = d_log s ++ [e] → spec_step e (items s) = Some (items s') → sim s s'.
Proof. intros Hl Hs. exists [e]. split; [done|]. cbn. by rewrite Hs. Qed.

Lemma length_items s : dinv s → Z.of_nat (length (items s)) = top s - d_head s.
Proof.
  intros Hi. unfold items. rewrite length_contents_from.
  pose proof (dinv_head s Hi). lia.
Qed.

Lemma spec_pop q x : spec_step (EvPop x) (q ++ [x]) = Some q.
Proof.
  cbn. rewrite last_snoc, Z.eqb_refl, length_app. cbn.
  replace (length q + 1 - 1)%nat with (length q) by lia.
  by rewrite take_app_length.
Qed.

(** A step of the owner keeps the thieves' guarantees when the head does not
    move back, the limit keeps protecting the current head and the buffer
    agrees there. *)
Lemma dinv_owner_step s s' :
  dinv s → d_thieves s' = d_thieves s → d_head s <= d_head s' →
  0 <= d_head s' <= top s' → top s' - d_head s' <= INIT_DEQUE_CAPACITY →
  top s' <= INT_MAX → owner_ok s' →
  (d_head s = d_head s' → d_head s < limit s → d_head s < limit s') →
  (d_head s = d_head s' → d_head s < limit s →
   slot_get (d_data s') (slot_of (d_head s)) = slot_get (d_data s) (slot_of (d_head s))) →
  dinv s'.
Proof.
  intros Hi Ht Hh ???? Hl Hd. constructor; [done..|].
  intros i pc. rewrite Ht. intros Hpc.
  eapply thief_ok_mono; [exact Hh|exact Hl|exact Hd|].
  by apply (dinv_thieves s Hi i).
Qed.

(** Expose the owner's state after [destruct (d_owner s)]. *)
Ltac owner_simpl Ho :=
  unfold items, limit, top, owner_ok, set_owner, set_head, set_tail, set_data, logged in *;
  cbn [d_head d_tail d_data d_owner d_thieves d_log] in *; try rewrite Ho in *;
  cbn beta iota in *.

Ltac owner_step Ho :=
  match goal with Hi : dinv ?s |- _ => apply (dinv_owner_step s _ Hi) end; owner_simpl Ho;
  try done; try lia.

Lemma push_step_sim s s' : dinv s → push_step s = Ok s' → dinv s' ∧ sim s s'.
Proof.
  intros Hi. unfold push_step.
  pose proof (dinv_head s Hi) as Hh. pose proof (dinv_cap s Hi) as Hc.
  pose proof (dinv_max s Hi) as Hm. pose proof (dinv_owner s Hi) as Hw.
  pose proof (length_items s Hi) as Hlen.
  destruct (d_owner s) eqn:Ho; try done; intros H; res_inv.
  - split; [owner_step Ho|apply sim_tau; [done|by owner_simpl Ho]].
  - destruct (_ =? INIT_DEQUE_CAPACITY) eqn:E; res_inv; bool_inv.
    + split; [owner_step Ho|].
      apply (sim_ev _ _ (EvPushFull x)); [done|]. cbn [spec_step].
      owner_simpl Ho. rewrite (proj2 (Z.eqb_eq _ _)) by lia. done.
    + split; [owner_step Ho|apply sim_tau; [done|by owner_simpl Ho]].
  - owner_simpl Ho. apply slot_index_inv in H0; [subst|lia].
    assert (Hne : ∀ j, d_head s <= j < d_tail s → slot_of j <> slot_of (d_tail s)).
    { intros j Hj Hs. apply slot_of_inj in Hs; lia. }
    split.
    + owner_step Ho.
      * split; [done|]. apply slot_get_insert.
      * intros _ Hlt. unfold slot_get. rewrite lookup_insert_ne; [done|].
        intros Heq. apply (Hne (d_head s)); [lia|done].
    + apply sim_tau; [done|]. owner_simpl Ho.
      apply contents_from_insert. intros j Hj. apply Hne. lia.
  - owner_simpl Ho. destruct Hw as [Hsz Hx].
    split; [owner_step Ho|].
    apply (sim_ev _ _ (EvPush x)); [done|]. cbn [spec_step]. owner_simpl Ho.
    rewrite (proj2 (Z.ltb_lt _ _)) by lia. f_equal.
    replace (Z.to_nat (d_tail s + 1 - d_head s))
      with (S (Z.to_nat (d_tail s - d_head s))) by lia.
    rewrite contents_from_S, Z2Nat.id by lia. by rewrite Zplus_minus, Hx.
Qed.

Lemma items_empty s : dinv s → items s = [] ↔ d_head s = top s.
Proof.
  intros Hi. rewrite <- length_zero_iff_nil. pose proof (length_items s Hi). lia.
Qed.

(** The queue ends with the task at [top - 1]. *)
Lemma items_snoc d h t :
  h <= t →
  contents_from d h (Z.to_nat (t + 1 - h)) =
  contents_from d h (Z.to_nat (t - h)) ++ [slot_get d (slot_of t)].
Proof.
  intros. replace (Z.to_nat (t + 1 - h)) with (S (Z.to_nat (t - h))) by lia.
  rewrite contents_from_S, Z2Nat.id by lia. by rewrite Zplus_minus.
Qed.

Lemma contents_from_none d h t : t <= h → contents_from d h (Z.to_nat (t - h)) = [].
Proof. intros. by rewrite Z2Nat_nonpos by lia. Qed.

Lemma pop_step_sim s s' : dinv s → pop_step s = Ok s' → dinv s' ∧ sim s s'.
Proof.
  intros Hi. unfold pop_step.
  pose proof (dinv_head s Hi) as Hh. pose proof (dinv_cap s Hi) as Hc.
  pose proof (dinv_max s Hi) as Hm. pose proof (dinv_owner s Hi) as Hw.
  destruct (d_owner s) eqn:Ho; try done; intros H; res_inv; owner_simpl Ho.
  - split; [owner_step Ho|apply sim_tau; [done|by owner_simpl Ho]].
  - subst. split; [owner_step Ho|apply sim_tau; [done|owner_simpl Ho]].
    by rewrite Z.sub_add.
  - subst. destruct (_ <? 0) eqn:E; res_inv; bool_inv.
    + split; [owner_step Ho|apply sim_tau; [done|by owner_simpl Ho]].
    + split; [owner_step Ho; case_match; lia|apply sim_tau; [done|by owner_simpl Ho]].
  - destruct_and?; subst.
    split; [owner_step Ho|apply sim_tau; [done|by owner_simpl Ho]].
  - destruct_and?; subst. split; [owner_step Ho|].
    apply (sim_ev _ _ EvPopNull); [done|]. owner_simpl Ho.
    rewrite !contents_from_none by lia. done.
  - destruct_and?; subst. apply slot_index_inv in H0; [subst|lia].
    destruct (_ >? 0) eqn:E; res_inv; rewrite Z.gtb_ltb in E; bool_inv.
    + split; [owner_step Ho; case_match; bool_inv; lia|].
      apply (sim_ev _ _ (EvPop (slot_get (d_data s) (slot_of (d_tail s))))); [done|].
      owner_simpl Ho. rewrite items_snoc by lia. apply spec_pop.
    + split; [owner_step Ho; case_match; bool_inv; lia|].
      apply sim_tau; [done|by owner_simpl Ho].
  - destruct_and?; subst.
    unfold hc_cas in H. cbn beta iota in H.
    destruct (d_head s =? d_tail s) eqn:E; cbn in H; res_inv; bool_inv.
    + split; [owner_step Ho|].
      apply (sim_ev _ _ (EvPop (slot_get (d_data s) (slot_of (d_tail s))))); [done|].
      owner_simpl Ho. rewrite E, items_snoc by lia.
      rewrite !contents_from_none by lia. apply spec_pop.
    + split; [owner_step Ho|].
      apply (sim_ev _ _ EvPopNull); [done|]. owner_simpl Ho.
      rewrite !contents_from_none by lia. done.
  - destruct_and?; subst.
    split; [owner_step Ho|apply sim_tau; [done|by owner_simpl Ho]].
  - destruct_and?; subst.
    split; [owner_step Ho|apply sim_tau; [done|by owner_simpl Ho]].
Qed.

(** A thief step that leaves the shared state alone. *)
Lemma dinv_set_thief s i pc :
  dinv s → thief_ok (d_head s) (limit s) (d_data s) pc → dinv (set_thief s i pc).
Proof.
  intros Hi Hpc. destruct Hi as [H1 H2 H3 H4 H5].
  constructor; [exact H1|exact H2|exact H3|exact H4|].
  unfold set_thief at 1; cbn [d_thieves].
  apply (thieves_ok_insert (d_thieves s)); [exact H5|exact Hpc].
Qed.

Lemma sim_set_thief s i pc : sim s (set_thief s i pc).
Proof. by apply sim_tau. Qed.

(** A successful compare-and-swap removes the oldest task. *)
Lemma steal_cas_sim s i head t success stolen :
  dinv s → thief s i = StealCas success stolen head t → d_head s = head →
  let s' := logged (set_thief (set_head s (head + 1)) i
              (StealTest (Some true) (stolen ++ [t]))) (EvSteal i t) in
  dinv s' ∧ sim s s'.
Proof.
  intros Hi Hpc Hhd s'.
  pose proof (dinv_thief _ _ _ Hi Hpc) as (Hb & Hlim & Hval).
  specialize (Hlim (eq_sym Hhd)). specialize (Hval (eq_sym Hhd)).
  pose proof (limit_le_top s (dinv_owner s Hi)) as Hlt.
  pose proof Hi as [H1 H2 H3 H4 H5].
  assert (Htop : top s' = top s) by done.
  assert (Hl : limit s' = limit s) by done.
  split.
  - constructor; [rewrite Htop; cbn; lia|rewrite Htop; cbn; lia|by rewrite Htop| |].
    + clear H5. unfold owner_ok, limit, top in *. cbn [s' logged set_thief set_head d_owner d_tail d_head d_data].
      destruct (d_owner s) eqn:Ho; cbn in *; destruct_and?; subst; try done; try lia;
        repeat split; try done; try lia.
      intros Hlt'. rewrite (proj2 (Z.ltb_lt _ _)) in Hlim by lia. lia.
    + unfold s' at 1, logged, set_thief, set_head; cbn [d_thieves].
      apply (thieves_ok_insert (d_thieves s)); [|done].
      intros j pc Hj. eapply thief_ok_mono; [| | |by apply H5 in Hj; exact Hj];
        cbn; lia || done.
  - apply (sim_ev _ _ (EvSteal i t)); [done|]. cbn [spec_step].
    unfold items. rewrite Htop.
    replace (Z.to_nat (top s - d_head s))
      with (S (Z.to_nat (top s - d_head s'))) by (cbn; lia).
    rewrite contents_from_cons, Hhd, Hval, Z.eqb_refl. done.
Qed.

Lemma steal_step_sim junk i s s' :
  dinv s → steal_step junk i s = Ok s' → dinv s' ∧ sim s s'.
Proof.
  intros Hi. unfold steal_step. pose proof (dinv_head s Hi) as Hh.
  pose proof (tail_le_limit s (dinv_owner s Hi)) as Htl.
  destruct (thief s i) as [|su st|su st h|su st h|su st h t|su st] eqn:Hpc; try done;
    pose proof (dinv_thief _ _ _ Hi Hpc) as Hok; cbn in Hok; intros H; res_inv.
  - split; [apply dinv_set_thief; [done|cbn; lia]|apply sim_set_thief].
  - destruct (_ <=? 0) eqn:E; res_inv; bool_inv;
      (split; [apply dinv_set_thief; [done|cbn]|apply sim_set_thief]); [done|lia].
  - destruct Hok as [Hb Hlim]. apply slot_index_inv in H0; [subst|lia].
    split; [apply dinv_set_thief; [done|cbn]|apply sim_set_thief]. done.
  - unfold hc_cas in H. cbn beta iota in H.
    destruct (d_head s =? h) eqn:E; cbn in H; res_inv; bool_inv.
    + by apply (steal_cas_sim s i h t su st).
    + replace (set_head s (d_head s)) with s by (by destruct s).
      split; [by apply dinv_set_thief|apply sim_set_thief].
  - case_match; res_inv; (split; [by apply dinv_set_thief|apply sim_set_thief]).
Qed.

Lemma dstep_sim l s s' : dinv s → dstep l s = Ok s' → dinv s' ∧ sim s s'.
Proof.
  intros Hi. pose proof (dinv_head s Hi) as Hh. pose proof (dinv_cap s Hi) as Hc.
  pose proof (dinv_max s Hi) as Hm. pose proof (dinv_owner s Hi) as Hw.
  destruct l as [x| | |i|junk i]; cbn.
  - destruct (d_owner s) eqn:Ho; try done. intros H; res_inv.
    split; [owner_step Ho|apply sim_tau; [done|by owner_simpl Ho]].
  - destruct (d_owner s) eqn:Ho; try done. intros H; res_inv.
    split; [owner_step Ho|apply sim_tau; [done|by owner_simpl Ho]].
  - destruct (d_owner s) eqn:Ho; try done; intros H;
      (by apply push_step_sim) || (by apply pop_step_sim).
  - destruct (thief s i) eqn:Hpc; try done. intros H; res_inv.
    split; [by apply dinv_set_thief|apply sim_set_thief].
  - by apply steal_step_sim.
Qed.

Lemma spec_run_app es1 es2 q :
  spec_run (es1 ++ es2) q = spec_run es1 q ≫= spec_run es2.
Proof.
  revert q. induction es1 as [|e es1 IH]; intros q; cbn; [done|].
  destruct (spec_step e q); cbn; [apply IH|done].
Qed.

Lemma drun_inv ls s s' :
  dinv s → spec_run (d_log s) [] = Some (items s) → drun ls s = Ok s' →
  dinv s' ∧ spec_run (d_log s') [] = Some (items s').
Proof.
  revert s. induction ls as [|l ls IH]; intros s Hi Hs H; cbn in H; res_inv; [done|].
  destruct (dstep_sim l s x Hi H0) as [Hi' (es & Hlog & Hrun)].
  apply (IH x); [done| |done].
  rewrite Hlog, spec_run_app, Hs. exact Hrun.
Qed.

Lemma reachable_inv s :
  reachable s → dinv s ∧ spec_run (d_log s) [] = Some (items s).
Proof. intros [ls H]. by apply (drun_inv ls dinit); [apply dinv_init| |]. Qed.

#[global] Arguments pushed : simpl never.
#[global] Arguments taken : simpl never.

(** The specification neither loses nor invents a task. *)
Lemma spec_step_balance e q q' :
  spec_step e q = Some q' → pushed [e] ++ q ≡ₚ taken [e] ++ q'.
Proof.
  unfold pushed, taken.
  destruct e as [x|x|x| |i x]; cbn [spec_step omap list_omap app].
  - case_match; intros [= <-]. apply Permutation_cons_append.
  - case_match; by intros [= <-].
  - destruct (last q) as [y|] eqn:E; [|done].
    destruct (x =? y) eqn:Exy; [|done]. bool_inv. subst y. intros [= <-].
    apply last_Some in E as [q0 ->]. rewrite length_app. cbn.
    replace (length q0 + 1 - 1)%nat with (length q0) by lia.
    rewrite take_app_length. symmetry. apply Permutation_cons_append.
  - destruct q; by intros [= <-].
  - destruct q as [|y q0]; [done|]. destruct (x =? y) eqn:Exy; [|done].
    bool_inv. subst y. by intros [= <-].
Qed.

Lemma pushed_app es1 es2 : pushed (es1 ++ es2) = pushed es1 ++ pushed es2.
Proof. apply omap_app. Qed.

Lemma taken_app es1 es2 : taken (es1 ++ es2) = taken es1 ++ taken es2.
Proof. apply omap_app. Qed.

Lemma spec_run_balance es q q' :
  spec_run es q = Some q' → pushed es ++ q ≡ₚ taken es ++ q'.
Proof.
  revert q. induction es as [|e es IH]; intros q; cbn [spec_run].
  - by intros [= ->].
  - destruct (spec_step e q) as [q1|] eqn:E; cbn; [|done]. intros H.
    apply IH in H. apply spec_step_balance in E.
    rewrite (pushed_app [e] es : pushed (e :: es) = _), (taken_app [e] es : taken (e :: es) = _).
    rewrite (Permutation_app_comm (pushed [e])), <- app_assoc, E.
    rewrite app_assoc, (Permutation_app_comm (pushed es)), <- app_assoc, H.
    by rewrite app_assoc.
Qed.

(** The indices of a reachable state and what they compute stay within [int]. *)
Lemma index_ok z : -1 <= z <= INT_MAX → to_int z = Ok z.
Proof. intros H. apply to_int_id. unfold INT_MIN, INT_MAX in *. lia. Qed.

Lemma index_sub_ok a b : -1 <= a <= INT_MAX → 0 <= b <= INT_MAX → int_sub a b = Ok (a - b).
Proof. intros Ha Hb. apply to_int_id. unfold INT_MIN, INT_MAX in *. lia. Qed.

Lemma dinv_tail s : dinv s → -1 <= d_tail s <= INT_MAX.
Proof.
  intros Hi. pose proof (dinv_head s Hi). pose proof (dinv_max s Hi).
  pose proof (dinv_owner s Hi) as Hw. pose proof (tail_le_limit s Hw) as Htl.
  pose proof (limit_le_top s Hw). pose proof (dinv_cap s Hi).
  unfold owner_ok, limit, top in *. destruct (d_owner s); lia.
Qed.

(** Where arithmetic of the owner can leave [int]: only the increment of [tail]. *)
Lemma owner_fault s f :
  dinv s → d_owner s <> OIdle → push_step s = Err f ∨ pop_step s = Err f →
  f = Disabled ∨ (f = IntOverflow ∧ d_tail s = INT_MAX ∧ ∃ x, d_owner s = PushInc x).
Proof.
  intros Hi. pose proof (dinv_head s Hi) as Hh. pose proof (dinv_cap s Hi) as Hc.
  pose proof (dinv_max s Hi) as Hm. pose proof (dinv_owner s Hi) as Hw.
  pose proof (tail_le_limit s Hw) as Htl. pose proof (limit_le_top s Hw) as Hlt.
  pose proof (dinv_tail s Hi) as Ht.
  unfold push_step, pop_step, int_add in *. unfold owner_ok, limit, top in *.
  destruct (d_owner s) eqn:Ho; intros _ [H|H]; try (left; congruence);
    destruct_and?; subst; try discriminate H.
  - rewrite index_sub_ok in H by lia. cbn in H. by case_match.
  - rewrite slot_index_ok in H by lia. discriminate H.
  - unfold to_int in H. destruct (in_int _) eqn:E in H; [discriminate H|].
    injection H as <-. right. split; [done|]. split; [|by eexists].
    destruct (decide (d_tail s = INT_MAX)); [done|].
    assert (in_int (d_tail s + 1) = true)
      by (apply in_int_spec; unfold INT_MIN, INT_MAX in *; lia).
    congruence.
  - unfold int_sub in H. rewrite index_ok in H by lia. discriminate H.
  - rewrite index_sub_ok in H by lia. cbn in H. by case_match.
  - rewrite slot_index_ok in H by lia. cbn in H.
    rewrite index_sub_ok in H by lia. cbn in H. by case_match.
  - rewrite index_ok in H by lia. unfold hc_cas in H. cbn in H. by case_match.
Qed.

(** A thief computes nothing that leaves [int]. *)
Lemma thief_fault junk i s f : dinv s → steal_step junk i s = Err f → f = Disabled.
Proof.
  intros Hi. pose proof (dinv_head s Hi) as Hh. pose proof (dinv_cap s Hi) as Hc.
  pose proof (dinv_max s Hi) as Hm. pose proof (dinv_owner s Hi) as Hw.
  pose proof (limit_le_top s Hw) as Hlt. pose proof (dinv_tail s Hi) as Ht. unfold steal_step.
  destruct (thief s i) as [|su st|su st h|su st h|su st h t|su st] eqn:Hpc;
    pose proof (dinv_thief _ _ _ Hi Hpc) as Hok; cbn in Hok; intros H.
  - congruence.
  - discriminate H.
  - rewrite index_sub_ok in H by lia. cbn in H. by case_match.
  - rewrite slot_index_ok in H by lia. discriminate H.
  - unfold int_add in H. rewrite index_ok in H.
    + unfold hc_cas in H. cbn in H. by case_match.
    + destruct_and!. destruct (decide (h = d_head s)) as [->|]; [|lia].
      assert (d_head s < limit s) by auto. lia.
  - by case_match.
Qed.

Lemma dstep_fault l s f :
  dinv s → dstep l s = Err f →
  f = Disabled ∨
  (f = IntOverflow ∧ l = StepOwner ∧ d_tail s = INT_MAX ∧
   ∃ x, d_owner s = PushInc x).
Proof.
  intros Hi. destruct l as [x| | |i|junk i]; cbn.
  - destruct (d_owner s); intros [= <-]; by left.
  - destruct (d_owner s); intros [= <-]; by left.
  - intros H. assert (d_owner s = OIdle ∨ d_owner s <> OIdle) as [Ho|Ho]
      by (destruct (d_owner s); (by left) || (by right)); [rewrite Ho in H; left; congruence|].
    assert (push_step s = Err f ∨ pop_step s = Err f) as Hstep
      by (revert H Ho; destruct (d_owner s); auto; congruence).
    destruct (owner_fault s f Hi Ho Hstep) as [->|(-> & ? & Hx)]; [by left|].
    right. by split_and!.
  - destruct (thief s i); intros [= <-]; by left.
  - intros H. left. by eapply thief_fault.
Qed.

(** ** Properties *)

(** C2: Linearizability of the deque: in any interleaving of one owner and any
    number of thieves, whatever an uninitialised [success] holds, the
    operations in the order in which they took effect are a run of a bounded
    sequential queue (push at the back when fewer than [INIT_DEQUE_CAPACITY]
    tasks are held and refused only when full, pop at the back and [NULL] only
    when empty, steal at the front), and that run ends in the tasks the buffer
    holds. *)
Theorem deque_linearizable (s : dstate) :
  reachable s → spec_run (d_log s) [] = Some (items s).
Proof. intros H. by apply reachable_inv. Qed.

(** The schedule in which the owner pops the last task while thief 0 is about
    to take it. *)
Definition race_schedule : list label :=
  [StartPush 7; StepOwner; StepOwner; StepOwner; StepOwner;
   StartSteal 0; StepThief false 0; StepThief false 0; StepThief false 0;
   StartPop; StepOwner; StepOwner; StepOwner; StepOwner;
   StepThief false 0; StepOwner; StepOwner; StepOwner].

Definition run_or_init (ls : list label) : dstate :=
  match drun ls dinit with Ok s => s | Err _ => dinit end.

Lemma deque_linearizable_witness :
  let s := run_or_init race_schedule in
  d_log s = [EvPush 7; EvSteal 0 7; EvPopNull] ∧
  spec_run (d_log s) [] = Some (items s).
Proof.
  intros s. split; [vm_compute; reflexivity|].
  apply (deque_linearizable s). exists race_schedule. vm_compute. reflexivity.
Defined.

(** No task is lost and none is handed out twice: the tasks pushed are, as
    a multiset, the tasks returned by pops and steals together with the tasks
    still queued; with the owner idle those are the slots from [head] to
    [tail]. *)
Theorem deque_exactly_once (s : dstate) :
  reachable s →
  pushed (d_log s) ≡ₚ taken (d_log s) ++ items s ∧
  (d_owner s = OIdle →
   items s = contents (mkDeque (d_head s) (d_tail s) (d_data s))).
Proof.
  intros H. destruct (reachable_inv s H) as [_ Hrun]. split.
  - apply spec_run_balance in Hrun. by rewrite app_nil_r in Hrun.
  - intros Ho. unfold items, top, contents. by rewrite Ho.
Qed.

Lemma deque_exactly_once_witness :
  let s := run_or_init race_schedule in
  d_owner s = OIdle ∧ taken (d_log s) = [7] ∧
  pushed (d_log s) ≡ₚ taken (d_log s) ++ items s.
Proof.
  intros s. split; [vm_compute; reflexivity|]. split; [vm_compute; reflexivity|].
  apply (deque_exactly_once s). exists race_schedule. vm_compute. reflexivity.
Defined.

(** In a reachable state every access is in bounds and every [int]
    operation in range, but one: the increment of [tail] overflows once [tail]
    is [INT_MAX].  The queue never holds more than its capacity. *)
Theorem deque_accesses_safe (s : dstate) (l : label) (f : fault) :
  reachable s → dstep l s = Err f →
  Z.of_nat (length (items s)) <= INIT_DEQUE_CAPACITY ∧
  (f = Disabled ∨
   (f = IntOverflow ∧ l = StepOwner ∧ d_tail s = INT_MAX ∧
    ∃ x, d_owner s = PushInc x)).
Proof.
  intros H He. destruct (reachable_inv s H) as [Hi _]. split.
  - rewrite (length_items s Hi). apply (dinv_cap s Hi).
  - by apply dstep_fault.
Qed.

Lemma deque_accesses_safe_witness :
  dstep StepOwner dinit = Err Disabled ∧
  Z.of_nat (length (items dinit)) <= INIT_DEQUE_CAPACITY.
Proof.
  assert (He : dstep StepOwner dinit = Err Disabled) by reflexivity.
  split; [exact He|].
  apply (deque_accesses_safe dinit StepOwner Disabled); [|exact He].
  exists []. reflexivity.
Defined.

(** C8: The deque with its owner and any number of thieves is safe.  In every reachable
    state no task is lost and none is handed out twice: the tasks pushed are, as a
    multiset, the tasks returned by pops and steals together with those still queued,
    which are the slots from [head] to [tail] while the owner is idle.  There are never
    more than the capacity, every access is in bounds and every [int] operation in
    range, but one: the increment of [tail] overflows once [tail] is [INT_MAX]. *)
Theorem deque_concurrent_safe (s : dstate) :
  reachable s →
  pushed (d_log s) ≡ₚ taken (d_log s) ++ items s ∧
  (d_owner s = OIdle → items s = contents (mkDeque (d_head s) (d_tail s) (d_data s))) ∧
  Z.of_nat (length (items s)) <= INIT_DEQUE_CAPACITY ∧
  ∀ l f, dstep l s = Err f →
    f = Disabled ∨ (f = IntOverflow ∧ l = StepOwner ∧ d_tail s = INT_MAX ∧ ∃ x, d_owner s = PushInc x).
Proof.
  intros H. destruct (deque_exactly_once s H) as [H1 H2]. destruct (reachable_inv s H) as [Hi _].
  split; [done|]. split; [done|]. split; [rewrite (length_items s Hi); apply (dinv_cap s Hi)|].
  intros l f He. by apply dstep_fault.
Qed.

Lemma deque_concurrent_safe_witness :
  let s := run_or_init race_schedule in
  d_owner s = OIdle ∧ taken (d_log s) = [7] ∧ pushed (d_log s) ≡ₚ taken (d_log s) ++ items s.
Proof.
  intros s. split; [vm_compute; reflexivity|]. split; [vm_compute; reflexivity|].
  apply (deque_concurrent_safe s). exists race_schedule. vm_compute. reflexivity.
Defined.

(** Two thieves race for one task. *)
Definition junk_schedule : list label :=
  [StartPush 7; StepOwner; StepOwner; StepOwner; StepOwner;
   StartSteal 0; StartSteal 1;
   StepThief false 0; StepThief false 0; StepThief false 0;
   StepThief false 1; StepThief false 1; StepThief false 1;
   StepThief false 0; StepThief false 1].

(** [deque_steal] reads [success] before writing it: two thieves can race
    for one task so that the loser tests an indeterminate [success], and what
    it does next (try again or give up) depends on that value. *)
Theorem deque_steal_reads_indeterminate :
  ∃ s, reachable s ∧ thief s 1 = StealTest None [] ∧
    dstep (StepThief true 1) s = Ok (set_thief s 1 (StealHead None [])) ∧
    dstep (StepThief false 1) s = Ok (set_thief s 1 TIdle).
Proof.
  exists (run_or_init junk_schedule).
  split; [exists junk_schedule; vm_compute; reflexivity|].
  split; [vm_compute; reflexivity|].
  split; vm_compute; reflexivity.
Qed.

(** ** The machine without interference is the sequential code *)

Definition deque_of (s : dstate) : hclib_internal_deque_t :=
  mkDeque (d_head s) (d_tail s) (d_data s).

Lemma thief_insert_eq h t d o m lg i pc :
  thief (mkD h t d o (<[i := pc]> m) lg) i = pc.
Proof. unfold thief. cbn. by rewrite lookup_insert_eq. Qed.

(** Run the machine with the facts that the sequential run established. *)
Ltac run_machine :=
  repeat (progress cbn || (rewrite int_sub_id by done) || (rewrite int_add_id by done) ||
          rewrite Z.eqb_refl || (progress unfold steal_step, set_thief, logged) ||
          (progress change (Z.of_nat 1 <? STEAL_CHUNK_SIZE) with false) ||
          match goal with
          | |- context [match thief (mkD ?h ?t ?d ?o (insert ?i ?pc ?m) ?lg) ?i with _ => _ end] =>
              rewrite (thief_insert_eq h t d o m lg i pc)
          | H : (_ =? _) = _ |- _ => rewrite H
          | H : (_ <? _) = _ |- _ => rewrite H
          | H : (_ >? _) = _ |- _ => rewrite H
          | H : (_ <=? _) = _ |- _ => rewrite H
          | H : slot_index _ = _ |- _ => rewrite H
          end).

Lemma push_uninterrupted s x r d :
  d_owner s = OIdle → deque_push (deque_of s) x = Ok (r, d) →
  ∃ n s', drun (StartPush x :: replicate n StepOwner) s = Ok s' ∧
    d_owner s' = OIdle ∧ deque_of s' = d ∧
    d_log s' = d_log s ++ [if r =? 1 then EvPush x else EvPushFull x].
Proof.
  destruct s as [h t data o th lg]; cbn. intros ->.
  unfold deque_push; cbn. intros H; res_inv.
  destruct (t - h =? INIT_DEQUE_CAPACITY) eqn:E; res_inv;
    [exists 2%nat|exists 4%nat]; eexists; by run_machine.
Qed.

Lemma pop_uninterrupted s t d :
  d_owner s = OIdle → deque_pop (deque_of s) = Ok (t, d) →
  ∃ n s' e, drun (StartPop :: replicate n StepOwner) s = Ok s' ∧
    d_owner s' = OIdle ∧ deque_of s' = d ∧ d_log s' = d_log s ++ [e] ∧
    (e = EvPop t ∨ (e = EvPopNull ∧ t = NULL)).
Proof.
  destruct s as [h tl data o th lg]; cbn. intros ->.
  unfold deque_pop; cbn. intros H; res_inv.
  destruct (tl - 1 - h <? 0) eqn:E; res_inv.
  - exists 5%nat. eexists _, _. run_machine. eauto 10.
  - destruct (tl - 1 - h >? 0) eqn:E2; res_inv.
    + exists 4%nat. eexists _, _. run_machine. eauto 10.
    + exists 7%nat. eexists _, _. run_machine. eauto 10.
Qed.

Lemma steal_uninterrupted s i ts d :
  thief s i = TIdle → deque_steal (deque_of s) = Ok (ts, d) →
  ∃ n s', drun (StartSteal i :: replicate n (StepThief false i)) s = Ok s' ∧
    thief s' i = TIdle ∧ deque_of s' = d ∧
    d_log s' = d_log s ++ (EvSteal i <$> ts).
Proof.
  destruct s as [h tl data o th lg]. intros Hi.
  unfold deque_steal. change (Z.to_nat STEAL_CHUNK_SIZE) with 1%nat.
  cbn [deque_steal_loop]. cbv zeta. cbn. intros H; res_inv.
  unfold set_thief. destruct (tl - h <=? 0) eqn:E; res_inv.
  - exists 3%nat. eexists. cbn. rewrite Hi. clear Hi. run_machine.
    by rewrite app_nil_r, thief_insert_eq.
  - rewrite Z.eqb_refl in H. cbn in H.
    change (Z.of_nat 1 <? STEAL_CHUNK_SIZE) with false in H. cbn in H. res_inv.
    exists 5%nat. eexists. cbn. rewrite Hi. clear Hi. run_machine.
    by rewrite thief_insert_eq.
Qed.

(** An operation that runs without interference behaves as the sequential
    code: from an idle state, stepping the owner (or an idle thief) alone until
    it is idle again computes the deque that [deque_push], [deque_pop] and
    [deque_steal] compute, and logs what they return. *)
Theorem deque_uninterrupted (s : dstate) (x : Z) (i : nat) :
  d_owner s = OIdle → thief s i = TIdle →
  (∀ r d, deque_push (deque_of s) x = Ok (r, d) →
    ∃ n s', drun (StartPush x :: replicate n StepOwner) s = Ok s' ∧
      d_owner s' = OIdle ∧ deque_of s' = d ∧
      d_log s' = d_log s ++ [if r =? 1 then EvPush x else EvPushFull x]) ∧
  (∀ t d, deque_pop (deque_of s) = Ok (t, d) →
    ∃ n s' e, drun (StartPop :: replicate n StepOwner) s = Ok s' ∧
      d_owner s' = OIdle ∧ deque_of s' = d ∧ d_log s' = d_log s ++ [e] ∧
      (e = EvPop t ∨ (e = EvPopNull ∧ t = NULL))) ∧
  (∀ ts d, deque_steal (deque_of s) = Ok (ts, d) →
    ∃ n s', drun (StartSteal i :: replicate n (StepThief false i)) s = Ok s' ∧
      thief s' i = TIdle ∧ deque_of s' = d ∧
      d_log s' = d_log s ++ (EvSteal i <$> ts)).
Proof.
  intros Ho Hi. split; [|split]; intros.
  - by apply push_uninterrupted.
  - by apply pop_uninterrupted.
  - by apply steal_uninterrupted.
Qed.

Lemma deque_uninterrupted_witness :
  let s := mkD 3 4 {[3 := 9]} OIdle ∅ [] in
  ∃ n s', drun (StartSteal 2 :: replicate n (StepThief false 2)) s = Ok s' ∧
    d_log s' = [EvSteal 2 9].
Proof.
  intros s.
  destruct (deque_uninterrupted s 5 2 eq_refl eq_refl) as (_ & _ & Hs).
  destruct (Hs [9] (mkDeque 4 4 {[3 := 9]})) as (n & s' & Hr & _ & _ & Hl);
    [vm_compute; reflexivity|].
  exists n, s'. split; [exact Hr|exact Hl].
Defined.
