(* ===== verification/FptrList.v ===== *)
(** * Function-pointer lists indexed by locale type

    [src/src/hclib-fptr-list.c]: the growable table in which modules register
    the routine that implements an operation for a locale type.  [Mem] builds
    its five registration tables on it. *)

From S2P Require Import Prelude.
From stdpp Require Import options.

(** ** Data *)

(** src/inc/hclib-module.h:15-15 (MAY_USE) *)
Definition MAY_USE : Z := 2.

(** src/inc/hclib-module.h:14-14 (MUST_USE) *)
Definition MUST_USE : Z := 1.

(** src/src/inc/hclib-fptr-list.h:4-8 (hclib_fptr_list_t) *)
Record hclib_fptr_list_t := mkFptrList {
  fl_fptrs : list Z;
  fl_priorities : list Z;
  fl_capacity : Z
}.

(** [realloc] to a larger size followed by [memset] of the new part.  A size
    that comes from a negative index is beyond what [malloc] can return, so
    the [memset] would write through the null pointer. *)
Definition grow (a : list Z) (n : Z) : res (list Z) :=
  if n <? UINT_MOD then Ok (a ++ replicate (Z.to_nat n - length a) 0)
  else Err BadDeref.

(** ** Operations *)

(** [*list] is [None] for the null pointer.

    src/src/hclib-fptr-list.c:9-39 (hclib_register_func) *)
Definition hclib_register_func (list : option hclib_fptr_list_t)
    (index fptr priority : Z) : res hclib_fptr_list_t :=
  _ ← hassert ((priority =? MUST_USE) || (priority =? MAY_USE));
  let l := match list with
           | None => mkFptrList [] [] 0
           | Some l => l
           end in
  needed ← int_add index 1;
  let needed_capacity := to_size needed in
  l ← (if needed_capacity >? to_size (fl_capacity l) then
         fptrs ← grow (fl_fptrs l) needed_capacity;
         priorities ← grow (fl_priorities l) needed_capacity;
         Ok (mkFptrList fptrs priorities needed_capacity)
       else Ok l);
  old ← array_get (fl_fptrs l) index;
  _ ← hassert (old =? NULL);
  fptrs ← array_set (fl_fptrs l) index fptr;
  priorities ← array_set (fl_priorities l) index priority;
  Ok (mkFptrList fptrs priorities (fl_capacity l)).

(** src/src/hclib-fptr-list.c:41-48 (hclib_get_func_for) *)
Definition hclib_get_func_for (list : option hclib_fptr_list_t) (index : Z)
    : res Z :=
  match list with
  | None => Err AssertFail
  | Some l =>
      if index <? fl_capacity l then array_get (fl_fptrs l) index else Ok NULL
  end.

(** src/src/hclib-fptr-list.c:50-52 (hclib_has_func_for) *)
Definition hclib_has_func_for (list : option hclib_fptr_list_t) (index : Z)
    : res bool :=
  match list with
  | None => Ok false
  | Some l =>
      if fl_capacity l >? index
      then f ← array_get (fl_fptrs l) index; Ok (negb (f =? NULL))
      else Ok false
  end.

(** src/src/hclib-fptr-list.c:54-57 (hclib_get_priority_for) *)
Definition hclib_get_priority_for (list : option hclib_fptr_list_t) (index : Z)
    : res Z :=
  match list with
  | None => Err AssertFail
  | Some l => array_get (fl_priorities l) index
  end.

(** ** Abstract specification: a finite map from types to routines *)

Definition registered (list : option hclib_fptr_list_t) (i : Z)
    : option (Z * Z) :=
  match list with
  | None => None
  | Some l =>
      if i <? 0 then None
      else f ← fl_fptrs l !! Z.to_nat i;
           p ← fl_priorities l !! Z.to_nat i;
           if f =? NULL then None else Some (f, p)
  end.

Definition fptr_list_wf (list : option hclib_fptr_list_t) : Prop :=
  match list with
  | None => True
  | Some l => Z.of_nat (length (fl_fptrs l)) = fl_capacity l ∧
              Z.of_nat (length (fl_priorities l)) = fl_capacity l ∧
              fl_capacity l <= INT_MAX
  end.

(** ** Lemmas *)

Lemma lookup_grow a n v k :
  (a ++ replicate n 0) !! k = Some v → a !! k = Some v ∨ (a !! k = None ∧ v = 0).
Proof.
  rewrite lookup_app. destruct (a !! k); [by left|].
  intros H%lookup_replicate. right. naive_solver.
Qed.


Lemma registered_Some l i f p :
  registered (Some l) i = Some (f, p) ↔
  0 <= i ∧ fl_fptrs l !! Z.to_nat i = Some f ∧
  fl_priorities l !! Z.to_nat i = Some p ∧ f ≠ NULL.
Proof.
  cbn. destruct (Z.ltb_spec i 0); [split; [done|lia]|].
  destruct (fl_fptrs l !! _) as [f'|] eqn:Ef; cbn; [|naive_solver].
  destruct (fl_priorities l !! _) as [p'|] eqn:Ep; cbn; [|naive_solver].
  destruct (Z.eqb_spec f' NULL); naive_solver.
Qed.

(** The table after making room for [index]: same routines, and the slot is
    inside the arrays. *)
Definition make_room (list : option hclib_fptr_list_t) (index : Z)
    : hclib_fptr_list_t :=
  let l := default (mkFptrList [] [] 0) list in
  let n := Z.to_nat (index + 1 - fl_capacity l) in
  mkFptrList (fl_fptrs l ++ replicate n 0) (fl_priorities l ++ replicate n 0)
    (fl_capacity l `max` (index + 1)).

Lemma make_room_wf list index :
  fptr_list_wf list → 0 <= index < INT_MAX →
  fptr_list_wf (Some (make_room list index)) ∧
  index < fl_capacity (make_room list index).
Proof.
  intros Hwf Hi. assert (Hl : fptr_list_wf (Some (default (mkFptrList [] [] 0) list))).
  { destruct list; [done|]. cbn. unfold INT_MAX. lia. }
  revert Hl. unfold make_room. generalize (default (mkFptrList [] [] 0) list).
  intros l (Hf & Hp & Hc). cbn. rewrite !length_app, !length_replicate. lia.
Qed.

Lemma registered_make_room list index j :
  fptr_list_wf list → registered (Some (make_room list index)) j = registered list j.
Proof.
  intros Hwf. apply option_eq. intros [f p]. rewrite registered_Some. split.
  - intros (Hj & Hf & Hp & Hn). cbn in *.
    apply lookup_grow in Hf as [Hf|[_ ->]]; [|done].
    destruct list as [l|]; cbn in *; [|done].
    destruct Hwf as (Hlf & Hlp & _). pose proof (lookup_lt_Some _ _ _ Hf).
    rewrite lookup_app_l in Hp by lia. rewrite (proj2 (Z.ltb_ge _ _)) by lia.
    rewrite Hf, Hp; cbn. by rewrite (proj2 (Z.eqb_neq _ _)).
  - destruct list as [l|]; [|done]. rewrite registered_Some.
    intros (Hj & Hf & Hp & Hn). cbn. repeat split; try done;
      by apply lookup_app_l_Some.
Qed.

Lemma register_func_eq list index fptr priority :
  fptr_list_wf list → 0 <= index < INT_MAX →
  hclib_register_func list index fptr priority =
  (_ ← hassert ((priority =? MUST_USE) || (priority =? MAY_USE));
   let l := make_room list index in
   _ ← hassert (bool_decide (registered list index = None));
   Ok (mkFptrList (<[Z.to_nat index := fptr]> (fl_fptrs l))
         (<[Z.to_nat index := priority]> (fl_priorities l)) (fl_capacity l))).
Proof.
  intros Hwf Hi. unfold hclib_register_func.
  destruct (hassert _) as [[]|]; [cbn -[make_room registered]|done].
  rewrite int_add_id by (unfold INT_MIN, INT_MAX in *; lia).
  cbn -[make_room registered].
  set (l := match list with Some _ => _ | None => _ end).
  assert (Hl : fptr_list_wf (Some l) ∧ l = default (mkFptrList [] [] 0) list).
  { subst l. destruct list; [done|]. cbn. unfold INT_MAX. split; [lia|done]. }
  destruct Hl as [Hlw Hl]. destruct (Hlw) as (Hlf & Hlp & Hlc).
  rewrite !to_size_id by (unfold INT_MAX in *; lia).
  match goal with |- (?m ≫= _) = _ => assert (m = Ok (make_room list index)) as -> end.
  { unfold make_room, grow. rewrite <- Hl. destruct (index + 1 >? fl_capacity l) eqn:E.
    - rewrite (proj2 (Z.ltb_lt _ _)) by (unfold INT_MAX, UINT_MOD in *; lia). cbn.
      do 2 f_equal; [do 2 f_equal; lia..|lia].
    - rewrite Z2Nat_nonpos by lia. cbn. rewrite !app_nil_r, Z.max_l by lia.
      by destruct l. }
  destruct (make_room_wf list index Hwf Hi) as [(Hf & Hp & _) Hin].
  rewrite <- (registered_make_room list index index Hwf).
  cbn -[make_room registered].
  destruct (array_get_lt (fl_fptrs (make_room list index)) index) as (v & -> & Hv); [lia|].
  destruct (array_get_lt (fl_priorities (make_room list index)) index) as (q & _ & Hq); [lia|].
  rewrite !array_set_in by lia. cbn -[make_room registered].
  assert (bool_decide (registered (Some (make_room list index)) index = None) = (v =? NULL)) as ->;
    [|done].
  cbn -[make_room]. rewrite (proj2 (Z.ltb_ge _ _)), Hv, Hq by lia. cbn.
  by destruct (Z.eqb_spec v NULL).
Qed.

(** ** Properties *)

(** [hclib_register_func] implements insertion into a finite map without
    overwriting: for a type in range and a known priority it succeeds exactly
    when no routine is registered for the type, then binds the type to the
    routine and its priority and leaves every other type as it was, whatever
    the growth of the arrays; otherwise the only outcome is an assertion. *)
Theorem register_func_spec list index fptr priority :
  fptr_list_wf list → 0 <= index < INT_MAX → fptr ≠ NULL →
  match hclib_register_func list index fptr priority with
  | Ok l =>
      (priority = MUST_USE ∨ priority = MAY_USE) ∧ registered list index = None ∧
      fptr_list_wf (Some l) ∧
      ∀ j, registered (Some l) j =
           if decide (j = index) then Some (fptr, priority) else registered list j
  | Err e =>
      e = AssertFail ∧
      (¬ (priority = MUST_USE ∨ priority = MAY_USE) ∨ registered list index ≠ None)
  end.
Proof.
  intros Hwf Hi Hf. rewrite register_func_eq by done.
  destruct (_ || _) eqn:Hpr; cbn -[registered make_room]; bool_inv.
  2: { split; [done|]. left. naive_solver. }
  assert (Hpr' : priority = MUST_USE ∨ priority = MAY_USE).
  { destruct Hpr as [H%Z.eqb_eq|H%Z.eqb_eq]; auto. }
  destruct (bool_decide _) eqn:Hd; cbn -[registered make_room].
  2: { split; [done|]. right. by apply bool_decide_eq_false in Hd. }
  apply bool_decide_eq_true in Hd.
  destruct (make_room_wf list index Hwf Hi) as [(Hlf & Hlp & Hlc) Hin].
  split; [done|]. split; [done|]. split.
  { split; cbn -[make_room]; [by rewrite length_insert|]. by rewrite length_insert. }
  intros j. rewrite <- (registered_make_room list index j Hwf).
  apply option_eq. intros [f p]. rewrite registered_Some. cbn -[make_room registered].
  destruct (decide (j = index)) as [->|Hj].
  - rewrite !list_lookup_insert_eq by lia. naive_solver lia.
  - rewrite registered_Some. destruct (decide (0 <= j)); [|naive_solver lia].
    by rewrite !list_lookup_insert_ne by lia.
Qed.

Lemma register_func_spec_witness :
  match hclib_register_func (Some (mkFptrList [0; 77] [0; 2] 2)) 4 99 MUST_USE with
  | Ok l => registered (Some l) 4 = Some (99, MUST_USE) ∧ registered (Some l) 1 = Some (77, 2)
  | Err e => False
  end.
Proof.
  assert (Hwf : fptr_list_wf (Some (mkFptrList [0; 77] [0; 2] 2)))
    by (repeat split; cbn; unfold INT_MAX; lia).
  pose proof (register_func_spec _ 4 99 MUST_USE Hwf
    ltac:(unfold INT_MAX; lia) ltac:(done)) as H.
  destruct (hclib_register_func _ 4 99 MUST_USE) as [l|e] eqn:E.
  - destruct H as (_ & _ & _ & H). rewrite (H 4), (H 1). done.
  - vm_compute in E. discriminate.
Defined.

(** The three queries read the same map, and differ in what they do
    outside it.  [hclib_has_func_for] is a membership test and accepts a null
    list; [hclib_get_func_for] returns the routine or [NULL]; but
    [hclib_get_priority_for] does not test the capacity, so for a type beyond
    it the code reads past the end of the array. *)
Theorem fptr_list_queries list index :
  fptr_list_wf list → 0 <= index →
  hclib_has_func_for list index = Ok (bool_decide (registered list index ≠ None)) ∧
  (∀ l, list = Some l →
    hclib_get_func_for list index = Ok (default NULL (fst <$> registered list index)) ∧
    (∀ f p, registered list index = Some (f, p) → hclib_get_priority_for list index = Ok p) ∧
    (hclib_get_priority_for list index = Err BadDeref ↔ fl_capacity l <= index)).
Proof.
  intros Hwf Hi. destruct list as [l|]; [|done].
  destruct Hwf as (Hlf & Hlp & _).
  destruct (Z.ltb_spec index (fl_capacity l)) as [Hlt|Hge].
  - destruct (array_get_lt (fl_fptrs l) index) as (f & Gf & Hf); [lia|].
    destruct (array_get_lt (fl_priorities l) index) as (p & Gp & Hp); [lia|].
    assert (registered (Some l) index = if f =? NULL then None else Some (f, p)) as Hr.
    { cbn. by rewrite (proj2 (Z.ltb_ge _ _)), Hf, Hp by lia. }
    rewrite Hr. cbn. rewrite Z.gtb_ltb, (proj2 (Z.ltb_lt _ _) Hlt), Gf.
    split; [cbn; by destruct (f =? NULL)|]. intros l' [= <-]. rewrite Gp.
    destruct (Z.eqb_spec f NULL); cbn; naive_solver lia.
  - assert (registered (Some l) index = None) as Hr.
    { cbn. rewrite (proj2 (Z.ltb_ge _ _)) by lia. rewrite (lookup_ge_None_2 (fl_fptrs l)); [done|lia]. }
    rewrite Hr. cbn. rewrite Z.gtb_ltb, (proj2 (Z.ltb_ge _ _) Hge).
    split; [done|]. intros l' [= <-]. split; [done|]. split; [done|].
    rewrite array_get_out by lia. done.
Qed.

Lemma fptr_list_queries_witness :
  hclib_has_func_for (Some (mkFptrList [0; 77] [0; 2] 2)) 1 = Ok true ∧
  hclib_get_priority_for (Some (mkFptrList [0; 77] [0; 2] 2)) 5 = Err BadDeref.
Proof.
  assert (Hwf : fptr_list_wf (Some (mkFptrList [0; 77] [0; 2] 2)))
    by (repeat split; cbn; unfold INT_MAX; lia).
  split.
  - apply (fptr_list_queries _ 1 Hwf ltac:(lia)).
  - eapply (fptr_list_queries _ 5 Hwf ltac:(lia)); [reflexivity|cbn; lia].
Defined.
