(* ===== verification/MemTree.v ===== *)
(** * The tree of pinned memory ranges

    [src/src/hclib-tree.c]: a self-balancing search tree of address ranges,
    with the heights the code stores in the nodes.  A node is a constructor, a
    pointer to a node (or to a pointer to it) is the subtree it reaches; no
    node is shared, so replacing a subtree is the assignment the code makes. *)

From S2P Require Import Prelude.
From stdpp Require Import options.

(** ** Data *)

Inductive dir := LEFT | RIGHT.

(** src/src/inc/hclib-tree.h:9-15 (hclib_memory_tree_node) *)
Inductive hclib_memory_tree_node :=
  | Null
  | Node (stored_height : Z) (lt rt : hclib_memory_tree_node)
      (start_address length : Z).

(** ** Operations *)

(** src/src/hclib-tree.c:13-26 (create_memory_tree_node) *)
Definition create_memory_tree_node (address length : Z)
    : hclib_memory_tree_node :=
  Node (-1) Null Null address length.

(** src/src/hclib-tree.c:28-30 (height) *)
Definition height (t : hclib_memory_tree_node) : Z :=
  match t with Null => -1 | Node h _ _ _ _ => h end.

(** src/src/hclib-tree.c:32-38 (left) *)
Definition child (d : dir) (t : hclib_memory_tree_node)
    : res hclib_memory_tree_node :=
  match t, d with
  | Null, _ => Err BadDeref
  | Node _ l _ _ _, LEFT => Ok l
  | Node _ _ r _ _, RIGHT => Ok r
  end.

(** The assignment [t->children[d] = c]. *)
Definition set_child (d : dir) (c t : hclib_memory_tree_node)
    : res hclib_memory_tree_node :=
  match t, d with
  | Null, _ => Err BadDeref
  | Node h _ r a n, LEFT => Ok (Node h c r a n)
  | Node h l _ a n, RIGHT => Ok (Node h l c a n)
  end.

(** [!dir] *)
Definition flip (d : dir) : dir := match d with LEFT => RIGHT | RIGHT => LEFT end.

(** src/src/hclib-tree.c:44-46 (set_height) *)
Definition set_height (t : hclib_memory_tree_node)
    : res hclib_memory_tree_node :=
  match t with
  | Null => Err BadDeref
  | Node _ l r a n =>
      h ← int_add 1 (height l `max` height r); Ok (Node h l r a n)
  end.

(** src/src/hclib-tree.c:48-50 (balance) *)
Definition balance (t : hclib_memory_tree_node) : res Z :=
  l ← child LEFT t; r ← child RIGHT t; int_sub (height l) (height r).

(** The new value of [*root], which is also what the code returns.

    src/src/hclib-tree.c:52-64 (rotate) *)
Definition rotate (root : hclib_memory_tree_node) (d : dir)
    : res hclib_memory_tree_node :=
  let old_r := root in
  new_r ← child d old_r;
  match new_r with
  | Null => Ok Null
  | _ =>
      c ← child (flip d) new_r;
      old_r ← set_child d c old_r;
      old_r ← set_height old_r;
      set_child (flip d) old_r new_r
  end.

(** An index into [children]. *)
Definition dir_of_int (z : Z) : res dir :=
  if z =? 0 then Ok LEFT else if z =? 1 then Ok RIGHT else Err BadDeref.

(** src/src/hclib-tree.c:66-77 (adjust_balance) *)
Definition adjust_balance (root : hclib_memory_tree_node)
    : res hclib_memory_tree_node :=
  bal ← balance root;
  b ← int_div bal 2;
  root ← (if negb (b =? 0) then
            d1 ← int_sub 1 b;
            d2 ← int_div d1 2;
            d ← dir_of_int d2;
            c ← child d root;
            cb ← balance c;
            root ← (if cb =? - b then c' ← rotate c (flip d); set_child d c' root
                    else Ok root);
            rotate root d
          else Ok root);
  match root with
  | Null => Ok root
  | _ => set_height root
  end.

(** src/src/hclib-tree.c:80-96 (find) *)
Fixpoint find (address : Z) (curr : hclib_memory_tree_node)
    : hclib_memory_tree_node :=
  match curr with
  | Null => Null
  | Node _ l r start_address length =>
      if (start_address <=? address) && (address <? start_address + length) then curr
      else if address <? start_address then find address l
      else find address r
  end.

(** src/src/hclib-tree.c:98-120 (hclib_memory_tree_insert) *)
Fixpoint hclib_memory_tree_insert (address length : Z)
    (root : hclib_memory_tree_node) : res hclib_memory_tree_node :=
  match root with
  | Null => Ok (create_memory_tree_node address length)
  | Node h l r a n =>
      _ ← hassert ((address <? a) || (a + n <=? address));
      root ← (if address <? a
              then l' ← hclib_memory_tree_insert address length l;
                   Ok (Node h l' r a n)
              else r' ← hclib_memory_tree_insert address length r;
                   Ok (Node h l r' a n));
      adjust_balance root
  end.

(** The fuel bounds the depth of the recursion; [remove_fuel] is enough, since
    each call moves below one node.

    src/src/hclib-tree.c:122-143 (hclib_memory_tree_remove) *)
Fixpoint memory_tree_remove (fuel : nat) (address : Z)
    (root : hclib_memory_tree_node) : res hclib_memory_tree_node :=
  match fuel with
  | O => Err OutOfFuel
  | S fuel =>
      match root with
      | Null => Err AssertFail
      | Node _ _ _ start _ =>
          bal ← balance root;
          root ← (if start =? address
                  then rotate root (if bal <? 0 then RIGHT else LEFT)
                  else Ok root);
          match root with
          | Null => Ok Null
          | Node _ _ _ start _ =>
              let d := if address >? start then RIGHT else LEFT in
              c ← child d root;
              c' ← memory_tree_remove fuel address c;
              root ← set_child d c' root;
              adjust_balance root
          end
      end
  end.

Fixpoint tree_size (t : hclib_memory_tree_node) : nat :=
  match t with Null => 0 | Node _ l r _ _ => S (tree_size l + tree_size r) end.

(** src/src/hclib-tree.c:122-143 (hclib_memory_tree_remove) *)
Definition hclib_memory_tree_remove (address : Z) (root : hclib_memory_tree_node)
    : res hclib_memory_tree_node :=
  memory_tree_remove (S (tree_size root)) address root.

(** src/src/hclib-tree.c:145-148 (hclib_memory_tree_contains) *)
Definition hclib_memory_tree_contains (address : Z)
    (root : hclib_memory_tree_node) : bool :=
  match root with
  | Null => false
  | _ => match find address root with Null => false | _ => true end
  end.

(** ** Abstract specification: an ordered list of disjoint ranges *)

Fixpoint ranges (t : hclib_memory_tree_node) : list (Z * Z) :=
  match t with
  | Null => []
  | Node _ l r a n => ranges l ++ (a, n) :: ranges r
  end.

Definition before (x y : Z * Z) : Prop := x.1 + x.2 <= y.1.
Definition disjoint_from (x y : Z * Z) : Prop := before x y ∨ before y x.
Definition range_ok (x : Z * Z) : Prop := 0 < x.2.
Definition in_range (z : Z) (x : Z * Z) : Prop := x.1 <= z < x.1 + x.2.

Definition ordered (xs : list (Z * Z)) : Prop :=
  Forall range_ok xs ∧ StronglySorted before xs.

(** The stored heights: a node just created has the height of the null
    pointer; any other is one more than its higher child, and its children
    differ by at most one. *)
Fixpoint balanced (t : hclib_memory_tree_node) : Prop :=
  match t with
  | Null => True
  | Node h l r _ _ =>
      balanced l ∧ balanced r ∧
      ((h = -1 ∧ l = Null ∧ r = Null) ∨
       (h = 1 + height l `max` height r ∧ -1 <= height l - height r <= 1))
  end.

Fixpoint depth (t : hclib_memory_tree_node) : Z :=
  match t with Null => 0 | Node _ l r _ _ => 1 + depth l `max` depth r end.

(** ** Lemmas *)

Lemma height_ge t : balanced t → -1 <= height t.
Proof.
  induction t as [|h l IHl r IHr a n]; cbn; [lia|]. intros (Hl & Hr & Hh).
  specialize (IHl Hl). specialize (IHr Hr). lia.
Qed.

Lemma height_le_size t : balanced t → height t <= Z.of_nat (tree_size t) - 1.
Proof.
  induction t as [|h l IHl r IHr a n]; cbn -[Z.of_nat]; [lia|]. intros (Hl & Hr & Hh).
  specialize (IHl Hl). specialize (IHr Hr). lia.
Qed.

Lemma tree_size_ranges t : length (ranges t) = tree_size t.
Proof.
  induction t as [|h l IHl r IHr a n]; cbn; [done|]. rewrite length_app. cbn. lia.
Qed.

(** A node whose height is positive is not one just created. *)
Lemma balanced_high t :
  balanced t → 0 < height t →
  ∃ l r a n, t = Node (height t) l r a n ∧ balanced l ∧ balanced r ∧
    height t = 1 + height l `max` height r ∧ -1 <= height l - height r <= 1.
Proof.
  destruct t as [|h l r a n]; cbn; [lia|]. intros (Hl & Hr & [Hh|Hh]) Hp; [lia|].
  exists l, r, a, n. repeat split; try done; lia.
Qed.

Lemma balanced_node t :
  balanced t → 0 <= height t →
  ∃ l r a n, t = Node (height t) l r a n ∧ balanced l ∧ balanced r ∧
    height t = 1 + height l `max` height r ∧ -1 <= height l - height r <= 1.
Proof.
  destruct t as [|h l r a n]; cbn; [lia|]. intros (Hl & Hr & [Hh|Hh]) Hp; [lia|].
  exists l, r, a, n. repeat split; try done; lia.
Qed.

Lemma rotate_left_eq h hl ll lr b m r a n :
  -1 <= height lr `max` height r < INT_MAX →
  rotate (Node h (Node hl ll lr b m) r a n) LEFT =
  Ok (Node hl ll (Node (1 + height lr `max` height r) lr r a n) b m).
Proof. intros H. cbn. rewrite int_add_id; [done|unfold INT_MIN in *; lia]. Qed.

Lemma rotate_right_eq h l hr rl rr b m a n :
  -1 <= height l `max` height rl < INT_MAX →
  rotate (Node h l (Node hr rl rr b m) a n) RIGHT =
  Ok (Node hr (Node (1 + height l `max` height rl) l rl a n) rr b m).
Proof. intros H. cbn. rewrite int_add_id; [done|unfold INT_MIN in *; lia]. Qed.

(** What rebalancing does to a node whose subtrees are balanced and differ by
    at most two. *)
Definition rebalanced (l r : hclib_memory_tree_node) (a n : Z)
    (t : hclib_memory_tree_node) : Prop :=
  ranges t = ranges l ++ (a, n) :: ranges r ∧ balanced t ∧ t ≠ Null ∧
  (height t = 1 + height l `max` height r ∨
   height t = height l `max` height r ∧
   (height l - height r = 2 ∨ height l - height r = -2)).

Ltac int_ok :=
  repeat match goal with
  | |- context [int_add ?a ?b] =>
      rewrite (int_add_id a b) by (unfold INT_MIN, INT_MAX in *; cbn in *; lia)
  | |- context [int_sub ?a ?b] =>
      rewrite (int_sub_id a b) by (unfold INT_MIN, INT_MAX in *; cbn in *; lia)
  end.

Lemma adjust_balance_even h l r a n :
  balanced l → balanced r → -1 <= height l - height r <= 1 →
  height l `max` height r < INT_MAX - 2 →
  ∃ t, adjust_balance (Node h l r a n) = Ok t ∧ rebalanced l r a n t.
Proof.
  intros Hl Hr Hb Hm. pose proof (height_ge l Hl). pose proof (height_ge r Hr).
  unfold adjust_balance. cbn [balance child mbind res_bind]. int_ok.
  cbn [mbind res_bind].
  assert (int_div (height l - height r) 2 = Ok 0) as ->.
  { assert (height l - height r = -1 ∨ height l - height r = 0 ∨ height l - height r = 1)
      as [->|[->| ->]] by lia; reflexivity. }
  cbn. int_ok. cbn. eexists. split; [done|].
  split; [done|]. split; [|split; [done|by left]]. cbn. split; [done|]. split; [done|]. by right.
Qed.

Lemma adjust_balance_left h l r a n :
  balanced l → balanced r → height l - height r = 2 →
  height l < INT_MAX - 2 →
  ∃ t, adjust_balance (Node h l r a n) = Ok t ∧ rebalanced l r a n t.
Proof.
  intros Hl Hr Hb Hm. pose proof (height_ge r Hr).
  destruct (balanced_high l Hl) as (ll & lr & b & m & El & Hll & Hlr & Hh & Hbl); [lia|].
  pose proof (height_ge ll Hll). pose proof (height_ge lr Hlr).
  set (hl := height l) in *. clearbody hl. subst l.
  unfold adjust_balance. cbn [balance child mbind res_bind height]. int_ok. rewrite Hb.
  cbn [mbind res_bind].
  assert (int_div 2 2 = Ok 1) as -> by done. cbn [mbind res_bind negb Z.eqb]. int_ok.
  cbn [mbind res_bind]. change (1 - 1) with 0. assert (int_div 0 2 = Ok 0) as -> by done.
  cbn [mbind res_bind]. try change (dir_of_int 0) with (Ok LEFT).
  try change (dir_of_int 1) with (Ok RIGHT). cbn [mbind res_bind child]. unfold balance.
  cbn [mbind res_bind child].
  int_ok. cbn [mbind res_bind].
  destruct (Z.eqb_spec (height ll - height lr) (- (1))) as [E|E]; cbn [mbind res_bind flip].
  - destruct (balanced_node lr Hlr) as (rl & rr & c & k & Elr & Hrl & Hrr & Hh' & Hb'); [lia|].
    pose proof (height_ge rl Hrl). pose proof (height_ge rr Hrr).
    set (hlr := height lr) in *. clearbody hlr. subst lr.
    rewrite rotate_right_eq by lia. cbn [mbind res_bind set_child].
    rewrite rotate_left_eq by lia. cbn [mbind res_bind set_height height]. int_ok.
    cbn [mbind res_bind mret res_ret]. eexists. split; [done|].
    unfold rebalanced. cbn. repeat (rewrite <- ?app_assoc; cbn).
    split; [done|]. split; [|split; [done|lia]].
    repeat split; try done; right; lia.
  - rewrite rotate_left_eq by lia. cbn [mbind res_bind set_height height]. int_ok.
    cbn [mbind res_bind]. eexists. split; [done|].
    unfold rebalanced. cbn. repeat (rewrite <- ?app_assoc; cbn).
    split; [done|]. split; [|split; [done|lia]].
    repeat split; try done; right; lia.
Qed.

Lemma adjust_balance_right h l r a n :
  balanced l → balanced r → height l - height r = -2 →
  height r < INT_MAX - 2 →
  ∃ t, adjust_balance (Node h l r a n) = Ok t ∧ rebalanced l r a n t.
Proof.
  intros Hl Hr Hb Hm. pose proof (height_ge l Hl).
  destruct (balanced_high r Hr) as (rl & rr & b & m & Er & Hrl & Hrr & Hh & Hbr); [lia|].
  pose proof (height_ge rl Hrl). pose proof (height_ge rr Hrr).
  set (hr := height r) in *. clearbody hr. subst r.
  unfold adjust_balance. cbn [balance child mbind res_bind height]. int_ok. rewrite Hb.
  cbn [mbind res_bind].
  assert (int_div (-2) 2 = Ok (-1)) as -> by done. cbn [mbind res_bind negb Z.eqb]. int_ok.
  cbn [mbind res_bind]. change (1 - -1) with 2. assert (int_div 2 2 = Ok 1) as -> by done.
  cbn [mbind res_bind]. try change (dir_of_int 0) with (Ok LEFT).
  try change (dir_of_int 1) with (Ok RIGHT). cbn [mbind res_bind child]. unfold balance.
  cbn [mbind res_bind child].
  int_ok. cbn [mbind res_bind].
  destruct (Z.eqb_spec (height rl - height rr) (- (-1))) as [E|E]; cbn [mbind res_bind flip].
  - destruct (balanced_node rl Hrl) as (sl & sr & c & k & Erl & Hsl & Hsr & Hh' & Hb'); [lia|].
    pose proof (height_ge sl Hsl). pose proof (height_ge sr Hsr).
    set (hrl := height rl) in *. clearbody hrl. subst rl.
    rewrite rotate_left_eq by lia. cbn [mbind res_bind set_child].
    rewrite rotate_right_eq by lia. cbn [mbind res_bind set_height height]. int_ok.
    cbn [mbind res_bind]. eexists. split; [done|].
    unfold rebalanced. cbn. repeat (rewrite <- ?app_assoc; cbn).
    split; [done|]. split; [|split; [done|lia]].
    repeat split; try done; right; lia.
  - rewrite rotate_right_eq by lia. cbn [mbind res_bind set_height height]. int_ok.
    cbn [mbind res_bind]. eexists. split; [done|].
    unfold rebalanced. cbn. repeat (rewrite <- ?app_assoc; cbn).
    split; [done|]. split; [|split; [done|lia]].
    repeat split; try done; right; lia.
Qed.

Lemma adjust_balance_ok h l r a n :
  balanced l → balanced r → -2 <= height l - height r <= 2 →
  height l `max` height r < INT_MAX - 2 →
  ∃ t, adjust_balance (Node h l r a n) = Ok t ∧ rebalanced l r a n t.
Proof.
  intros Hl Hr Hb Hm.
  assert (height l - height r = 2 ∨ height l - height r = -2 ∨
          -1 <= height l - height r <= 1) as [E|[E|E]] by lia.
  - apply adjust_balance_left; (done || lia).
  - apply adjust_balance_right; (done || lia).
  - by apply adjust_balance_even.
Qed.

(** Insertion, given that the new range fits between its neighbours. *)
Lemma insert_ok t a n :
  balanced t → ordered (ranges t) → range_ok (a, n) →
  Forall (disjoint_from (a, n)) (ranges t) →
  Z.of_nat (tree_size t) < INT_MAX - 2 →
  ∃ t' xs ys, hclib_memory_tree_insert a n t = Ok t' ∧ balanced t' ∧ t' ≠ Null ∧
    ranges t = xs ++ ys ∧ ranges t' = xs ++ (a, n) :: ys ∧
    Forall (λ x, before x (a, n)) xs ∧ Forall (before (a, n)) ys ∧
    height t <= height t' <= height t + 1 ∧ (t = Null → height t' = -1).
Proof.
  intros Hb Ho Hn Hd Hsz. induction t as [|h l IHl r IHr b m].
  { exists (create_memory_tree_node a n), [], []. cbn. repeat split; try done; [by left|lia..]. }
  cbn [hclib_memory_tree_insert]. cbn in Hb. destruct Hb as (Hbl & Hbr & Hh).
  cbn [ranges] in *. destruct Ho as [Hf Hs].
  apply StronglySorted_app in Hs as (Hlr & Hsl & Hsr).
  apply StronglySorted_inv in Hsr as [Hsr Hbr'].
  apply Forall_app in Hf as [Hfl Hfr]. apply Forall_cons in Hfr as [Hfb Hfr].
  apply Forall_app in Hd as [Hdl Hdr]. apply Forall_cons in Hdr as [Hdb Hdr].
  cbn [tree_size] in Hsz.
  pose proof (height_le_size l Hbl). pose proof (height_le_size r Hbr).
  pose proof (height_ge l Hbl). pose proof (height_ge r Hbr).
  assert (Hbd : -1 <= height l - height r <= 1)
    by (destruct Hh as [(-> & -> & ->)|[-> ?]]; cbn; lia).
  unfold disjoint_from, before in Hdb. unfold range_ok in Hn, Hfb. cbn in Hdb, Hn, Hfb.
  destruct Hdb as [Hab|Hba].
  - rewrite (proj2 (Z.ltb_lt a b)) by lia. cbn [orb hassert mbind res_bind].
    destruct IHl as (l' & xs & ys & -> & Hb' & Hn' & El & El' & Hxs & Hys & Hh' & Hnul);
      [done|by split|done|lia|].
    cbn [mbind res_bind].
    destruct (adjust_balance_ok h l' r b m) as (t' & -> & Hr & Hbt & Hnt & Hht);
      [done|done|lia..|].
    exists t', xs, (ys ++ (b, m) :: ranges r). split; [done|]. split; [done|].
    split; [done|]. rewrite El, Hr, El'. rewrite <- !app_assoc. cbn.
    repeat split; try done; [|cbn; destruct Hh as [(->&->&->)|[-> ?]]; [specialize (Hnul eq_refl)|];
       cbn in *; lia..].
    apply Forall_app. split; [done|]. constructor; [done|].
    apply Forall_forall. intros x Hx. apply (proj1 (Forall_forall _ _) Hbr') in Hx.
    unfold before in *. cbn in *. lia.
  - rewrite (proj2 (Z.ltb_ge a b)) by lia. cbn [orb].
    rewrite (proj2 (Z.leb_le _ _)) by lia. cbn [hassert mbind res_bind].
    destruct IHr as (r' & xs & ys & -> & Hb' & Hn' & Er & Er' & Hxs & Hys & Hh' & Hnul);
      [done|by split|done|lia|].
    cbn [mbind res_bind].
    destruct (adjust_balance_ok h l r' b m) as (t' & -> & Hr & Hbt & Hnt & Hht);
      [done|done|lia..|].
    exists t', (ranges l ++ (b, m) :: xs), ys. split; [done|]. split; [done|].
    split; [done|]. rewrite Er, Hr, Er'. rewrite <- !app_assoc. cbn.
    repeat split; try done; [|cbn; destruct Hh as [(->&->&->)|[-> ?]]; [specialize (Hnul eq_refl)|];
       cbn in *; lia..].
    apply Forall_app. split; [|by constructor].
    apply Forall_forall. intros x Hx.
    assert (before x (b, m)) as Hxb by (apply Hlr; [done|left]).
    unfold before in *. cbn in *. lia.
Qed.

Lemma ordered_insert xs ys a n :
  ordered (xs ++ ys) → range_ok (a, n) →
  Forall (λ x, before x (a, n)) xs → Forall (before (a, n)) ys →
  ordered (xs ++ (a, n) :: ys).
Proof.
  intros [Hf Hs] Hn Hxs Hys. apply Forall_app in Hf as [Hfx Hfy].
  apply StronglySorted_app in Hs as (Hxy & Hsx & Hsy). split.
  - apply Forall_app. split; [done|by constructor].
  - apply StronglySorted_app. split; [|split; [done|by constructor]].
    intros x y Hx. rewrite Forall_forall in Hxs. intros [->|Hy]%elem_of_cons; auto.
Qed.

Lemma find_spec z t :
  ordered (ranges t) → (find z t ≠ Null ↔ ∃ x, x ∈ ranges t ∧ in_range z x).
Proof.
  induction t as [|h l IHl r IHr b m]; cbn [find ranges].
  { intros _. split; [done|]. intros (x & Hx & _). by apply elem_of_nil in Hx. }
  intros [Hf Hs].
  apply StronglySorted_app in Hs as (Hlr & Hsl & Hsr).
  apply StronglySorted_inv in Hsr as [Hsr Hbr'].
  apply Forall_app in Hf as [Hfl Hfr]. apply Forall_cons in Hfr as [Hfb Hfr].
  unfold range_ok in Hfb. cbn in Hfb.
  destruct (_ && _) eqn:E; bool_inv.
  { split; [|done]. intros _. exists (b, m). split; [|by split].
    apply elem_of_app. right. left. }
  destruct (Z.ltb_spec z b) as [Hz|Hz].
  - rewrite IHl by (by split). split; intros (x & Hx & Hin); exists x; (split; [|done]).
    + apply elem_of_app. by left.
    + apply elem_of_app in Hx as [Hx|[->|Hx]%elem_of_cons]; [done|..];
        unfold in_range in *; cbn in *; [lia|].
      apply (proj1 (Forall_forall _ _) Hbr') in Hx. unfold before in *. cbn in *. lia.
  - assert (b + m <= z) by (destruct E as [E|E]; [apply Z.leb_gt in E|apply Z.ltb_ge in E]; lia).
    rewrite IHr by (by split). split; intros (x & Hx & Hin); exists x; (split; [|done]).
    + apply elem_of_app. right. by right.
    + apply elem_of_app in Hx as [Hx|[->|Hx]%elem_of_cons]; [|..|done];
        unfold in_range in *; cbn in *; [|lia].
      assert (before x (b, m)) as Hxb by (apply Hlr; [done|left]).
      unfold before in *. cbn in *. lia.
Qed.

Lemma depth_le_height t : balanced t → depth t <= height t + 2.
Proof.
  induction t as [|h l IHl r IHr a n]; cbn; [lia|]. intros (Hl & Hr & Hh).
  specialize (IHl Hl). specialize (IHr Hr).
  destruct Hh as [(-> & -> & ->)|[-> ?]]; cbn; lia.
Qed.

Lemma height_log_size t k :
  balanced t → 2 * Z.of_nat k <= height t + 1 →
  2 ^ Z.of_nat k <= Z.of_nat (tree_size t) + 1.
Proof.
  revert k. induction t as [|h l IHl r IHr a n]; intros k Hb Hk.
  { cbn in *. assert (k = 0%nat) as -> by lia. cbn. lia. }
  destruct k as [|k]; [cbn [tree_size]; change (2 ^ Z.of_nat 0) with 1; lia|].
  destruct (balanced_node _ Hb) as (l' & r' & a' & n' & [= -> -> -> ->] & Hl & Hr & Hh & Hd);
    [lia|].
  specialize (IHl k Hl ltac:(lia)). specialize (IHr k Hr ltac:(lia)).
  rewrite Nat2Z.inj_succ, Z.pow_succ_r by lia. cbn [tree_size]. lia.
Qed.

(** ** Properties *)

(** C17: [hclib_memory_tree_insert] adds a range to an ordered set: on a
    balanced tree of ordered, disjoint ranges, the insertion of a disjoint
    range succeeds (no assertion, null access or bad child index in the
    rebalancing), the new tree holds the old ranges and the new one in order,
    it is balanced again, and lookups in it are of logarithmic depth. *)
Theorem memory_tree_insert_correct (t : hclib_memory_tree_node) (a n : Z) :
  balanced t → ordered (ranges t) → range_ok (a, n) →
  Forall (disjoint_from (a, n)) (ranges t) →
  Z.of_nat (tree_size t) < INT_MAX - 2 →
  ∃ t', hclib_memory_tree_insert a n t = Ok t' ∧
    ranges t' ≡ₚ (a, n) :: ranges t ∧ ordered (ranges t') ∧ balanced t' ∧
    2 ^ ((depth t' - 1) / 2) <= Z.of_nat (length (ranges t')) + 1.
Proof.
  intros Hb Ho Hn Hd Hsz.
  destruct (insert_ok t a n) as (t' & xs & ys & -> & Hb' & Hn' & E & E' & Hxs & Hys & Hh & _);
    [done..|].
  exists t'. split; [done|]. rewrite E'. split; [rewrite E; by rewrite Permutation_middle|].
  split; [apply ordered_insert; [by rewrite <- E|done..]|]. split; [done|].
  rewrite <- E', tree_size_ranges. pose proof (depth_le_height t' Hb').
  assert (0 < depth t').
  { destruct t' as [|h l r ? ?]; [done|]. cbn.
    assert (∀ t, 0 <= depth t) as Hdp by (intros u; induction u; cbn; lia).
    pose proof (Hdp l). lia. }
  pose proof (Z.div_mod (depth t' - 1) 2). pose proof (Z.mod_pos_bound (depth t' - 1) 2).
  rewrite <- (Z2Nat.id ((depth t' - 1) / 2)) by (apply Z.div_pos; lia).
  apply height_log_size; [done|]. rewrite Z2Nat.id by (apply Z.div_pos; lia). lia.
Qed.

Lemma memory_tree_insert_correct_witness :
  let t := Node 1 Null (Node 0 Null (Node (-1) Null Null 30 5) 20 5) 10 5 in
  ∃ t', hclib_memory_tree_insert 40 5 t = Ok t' ∧ ordered (ranges t') ∧ balanced t' ∧
        ranges t' = [(10, 5); (20, 5); (30, 5); (40, 5)].
Proof.
  intros t.
  assert (Hb : balanced t) by (cbn; repeat split; try (right; lia); try by left).
  assert (Ho : ordered (ranges t)).
  { split; [repeat constructor|]. repeat constructor; unfold before; cbn; lia. }
  assert (Hd : Forall (disjoint_from (40, 5)) (ranges t)).
  { cbn. repeat (apply Forall_cons; split; [right; unfold before; cbn; lia|]).
    apply Forall_nil. done. }
  destruct (memory_tree_insert_correct t 40 5 Hb Ho) as (t' & E & _ & Ho' & Hb' & _).
  - unfold range_ok. cbn. lia.
  - exact Hd.
  - cbn. unfold INT_MAX. lia.
  - exists t'. split; [exact E|]. split; [exact Ho'|]. split; [exact Hb'|].
    vm_compute in E. injection E as <-. reflexivity.
Defined.

(** [hclib_memory_tree_contains] on a tree of ordered, disjoint ranges
    answers whether the address lies inside one of them, the start included
    and the end excluded. *)
Theorem memory_tree_contains_correct (t : hclib_memory_tree_node) (z : Z) :
  ordered (ranges t) →
  (hclib_memory_tree_contains z t = true ↔ ∃ x, x ∈ ranges t ∧ in_range z x).
Proof.
  intros Ho. rewrite <- (find_spec z t Ho). destruct t as [|h l r a n]; [done|].
  unfold hclib_memory_tree_contains. by destruct (find z (Node h l r a n)).
Qed.

Lemma memory_tree_contains_correct_witness :
  hclib_memory_tree_contains 24 (Node 0 Null (Node (-1) Null Null 20 5) 10 5) = true.
Proof.
  apply memory_tree_contains_correct.
  - split; [repeat constructor|]. repeat constructor; unfold before; cbn; lia.
  - exists (20, 5). split; [right; left|]. split; cbn; lia.
Defined.

(** Removal can lose a range that was not asked for.  A new node has the
    height of the null pointer, so in the tree made by inserting two ranges
    the second is invisible to [balance]; removing the first rotates towards
    the empty side, [rotate] frees the node, and the second range goes with
    it.  A node of height 0 in its place would have been kept. *)
Theorem memory_tree_remove_drops_range (a n b m : Z) :
  0 < n → a + n <= b →
  ∃ t, (t ← hclib_memory_tree_insert a n Null; hclib_memory_tree_insert b m t) = Ok t ∧
    ranges t = [(a, n); (b, m)] ∧
    hclib_memory_tree_remove a t = Ok Null ∧
    ∃ t', hclib_memory_tree_remove a (Node 1 Null (Node 0 Null Null b m) a n) = Ok t' ∧
          ranges t' = [(b, m)].
Proof.
  intros Hn Hb. cbn [hclib_memory_tree_insert mbind res_bind create_memory_tree_node].
  rewrite (proj2 (Z.ltb_ge b a)), (proj2 (Z.leb_le _ _)) by lia. cbn [orb].
  exists (Node 0 Null (Node (-1) Null Null b m) a n). split; [done|]. split; [done|].
  unfold hclib_memory_tree_remove. cbn [tree_size Nat.add]. split.
  - cbn. unfold balance, child. cbn. by rewrite Z.eqb_refl.
  - exists (Node 0 Null Null b m). split; [|done].
    assert (E : (a >? b) = false) by (rewrite Z.gtb_ltb; apply Z.ltb_ge; lia).
    assert (E1 : rotate (Node 1 Null (Node 0 Null Null b m) a n) RIGHT =
      Ok (Node 0 (Node 0 Null Null a n) Null b m)) by done.
    cbn [memory_tree_remove mbind res_bind]. rewrite Z.eqb_refl.
    change (balance (Node 1 _ _ a n)) with (Ok (-1)). cbn [mbind res_bind Z.ltb Z.compare].
    rewrite E1. cbn [mbind res_bind]. rewrite E. cbn [mbind res_bind child].
    change (balance (Node 0 Null Null a n)) with (Ok 0). cbn [mbind res_bind].
    by rewrite Z.eqb_refl.
Qed.

Lemma memory_tree_remove_drops_range_witness :
  hclib_memory_tree_remove 10 (Node 0 Null (Node (-1) Null Null 20 8) 10 8) = Ok Null.
Proof.
  destruct (memory_tree_remove_drops_range 10 8 20 8) as (t & E & _ & H & _); [lia..|].
  vm_compute in E. injection E as <-. exact H.
Defined.
