(* ===== verification/Jsmn.v ===== *)
(** * The JSON tokenizer

    [src/src/jsmn/jsmn.c] in its default configuration (neither [JSMN_STRICT]
    nor [JSMN_PARENT_LINKS]).  [Locality] runs it twice on the locality file,
    once with a null token array to count the tokens and once to fill an array
    of that size; the theorems relate the two passes and say what the tokens
    delimit. *)

From S2P Require Import Prelude.
From stdpp Require Import options.

(** ** Data *)

(** src/src/jsmn/jsmn.h:17-23 (jsmntype_t) *)
Inductive jsmntype_t :=
  | JSMN_UNDEFINED
  | JSMN_OBJECT
  | JSMN_ARRAY
  | JSMN_STRING
  | JSMN_PRIMITIVE.

#[export] Instance jsmntype_eq_dec : EqDecision jsmntype_t.
Proof. solve_decision. Defined.

(** src/src/jsmn/jsmn.h:27-27 (JSMN_ERROR_NOMEM) *)
Definition JSMN_ERROR_NOMEM : Z := -1.

(** src/src/jsmn/jsmn.h:29-29 (JSMN_ERROR_INVAL) *)
Definition JSMN_ERROR_INVAL : Z := -2.

(** src/src/jsmn/jsmn.h:31-31 (JSMN_ERROR_PART) *)
Definition JSMN_ERROR_PART : Z := -3.

(** src/src/jsmn/jsmn.h:40-48 (jsmntok_t) *)
Record jsmntok_t := mkTok {
  tok_type : jsmntype_t;
  tok_start : Z;
  tok_end : Z;
  tok_size : Z
}.

(** src/src/jsmn/jsmn.h:54-58 (jsmn_parser) *)
Record jsmn_parser := mkParser {
  p_pos : Z;
  p_toknext : Z;
  p_toksuper : Z
}.

(** The token array; [None] is the null pointer.  An array is what [malloc]
    returned, so its contents are arbitrary until written. *)
Notation tokens := (option (list jsmntok_t)).

(** Characters are signed. *)
Definition QUOTE : Z := 34.
Definition BACKSLASH : Z := 92.
Definition TAB : Z := 9.
Definition LF : Z := 10.
Definition CR : Z := 13.

Definition uinc (z : Z) : Z := to_uint (z + 1).
Definition udec (z : Z) : Z := to_uint (z - 1).

(** The conversion of an [unsigned int] to [int]. *)
Definition uint_to_int (z : Z) : Z := if z <=? INT_MAX then z else z - UINT_MOD.

Definition set_pos (p : jsmn_parser) (pos : Z) : jsmn_parser :=
  mkParser pos (p_toknext p) (p_toksuper p).
Definition set_super (p : jsmn_parser) (s : Z) : jsmn_parser :=
  mkParser (p_pos p) (p_toknext p) s.

(** ** Operations *)

(** The index of the token allocated, or [None] when the array is full.

    src/src/jsmn/jsmn.c:6-19 (jsmn_alloc_token) *)
Definition jsmn_alloc_token (p : jsmn_parser) (toks : list jsmntok_t)
    (num_tokens : Z) : res (option Z * jsmn_parser * list jsmntok_t) :=
  if p_toknext p >=? num_tokens then Ok (None, p, toks)
  else
    let i := p_toknext p in
    tok ← array_get toks i;
    toks ← array_set toks i (mkTok (tok_type tok) (-1) (-1) 0);
    Ok (Some i, mkParser (p_pos p) (uinc (p_toknext p)) (p_toksuper p), toks).

(** src/src/jsmn/jsmn.c:24-30 (jsmn_fill_token) *)
Definition jsmn_fill_token (toks : list jsmntok_t) (i : Z) (type : jsmntype_t)
    (start end_ : Z) : res (list jsmntok_t) :=
  array_set toks i (mkTok type start end_ 0).

(** The characters that end a primitive. *)
Definition is_delim (c : Z) : bool :=
  (c =? ch ":") || (c =? TAB) || (c =? CR) || (c =? LF) || (c =? ch " ") ||
  (c =? ch ",") || (c =? ch "]") || (c =? ch "}").

Section with_input.
Context (js : list Z) (len : Z).

(** The position at which the scan stops, or [None] on a character that a
    primitive cannot hold.

    src/src/jsmn/jsmn.c:42-56 (jsmn_parse_primitive) *)
Fixpoint primitive_scan (fuel : nat) (pos : Z) : res (option Z) :=
  match fuel with
  | O => Err OutOfFuel
  | S fuel =>
      if pos <? len then
        c ← array_get js pos;
        if c =? 0 then Ok (Some pos)
        else if is_delim c then Ok (Some pos)
        else if (c <? 32) || (c >=? 127) then Ok None
        else primitive_scan fuel (uinc pos)
      else Ok (Some pos)
  end.

(** src/src/jsmn/jsmn.c:35-79 (jsmn_parse_primitive) *)
Definition jsmn_parse_primitive (p : jsmn_parser) (toks : tokens)
    (num_tokens : Z) : res (Z * jsmn_parser * tokens) :=
  let start := uint_to_int (p_pos p) in
  found ← primitive_scan (S (length js)) (p_pos p);
  match found with
  | None => Ok (JSMN_ERROR_INVAL, set_pos p (to_uint start), toks)
  | Some pos =>
      let p := set_pos p pos in
      match toks with
      | None => Ok (0, set_pos p (udec pos), None)
      | Some ts =>
          '(token, p, ts) ← jsmn_alloc_token p ts num_tokens;
          match token with
          | None => Ok (JSMN_ERROR_NOMEM, set_pos p (to_uint start), Some ts)
          | Some i =>
              ts ← jsmn_fill_token ts i JSMN_PRIMITIVE start (uint_to_int pos);
              Ok (0, set_pos p (udec (p_pos p)), Some ts)
          end
      end
  end.

Definition is_hex (c : Z) : bool :=
  ((c >=? 48) && (c <=? 57)) || ((c >=? 65) && (c <=? 70)) ||
  ((c >=? 97) && (c <=? 102)).

(** The four digits of an escape, as far as the input goes.

    src/src/jsmn/jsmn.c:125-134 (jsmn_parse_string) *)
Fixpoint hex_scan (n : nat) (pos : Z) : res (option Z) :=
  match n with
  | O => Ok (Some pos)
  | S n =>
      if pos <? len then
        c ← array_get js pos;
        if c =? 0 then Ok (Some pos)
        else if negb (is_hex c) then Ok None
        else hex_scan n (uinc pos)
      else Ok (Some pos)
  end.

(** The escaped symbols other than [u]. *)
Definition is_escaped (c : Z) : bool :=
  (c =? QUOTE) || (c =? ch "/") || (c =? BACKSLASH) || (c =? ch "b") ||
  (c =? ch "f") || (c =? ch "r") || (c =? ch "n") || (c =? ch "t").

Inductive string_end :=
  | Quoted (pos : Z)
  | BadEscape
  | Unterminated.

(** src/src/jsmn/jsmn.c:93-143 (jsmn_parse_string) *)
Fixpoint string_scan (fuel : nat) (pos : Z) : res string_end :=
  match fuel with
  | O => Err OutOfFuel
  | S fuel =>
      if pos <? len then
        c ← array_get js pos;
        if c =? 0 then Ok Unterminated
        else if c =? QUOTE then Ok (Quoted pos)
        else if (c =? BACKSLASH) && (uinc pos <? len) then
          let pos := uinc pos in
          c ← array_get js pos;
          if is_escaped c then string_scan fuel (uinc pos)
          else if c =? ch "u" then
            hexed ← hex_scan 4 (uinc pos);
            match hexed with
            | None => Ok BadEscape
            | Some pos => string_scan fuel (uinc (udec pos))
            end
          else Ok BadEscape
        else string_scan fuel (uinc pos)
      else Ok Unterminated
  end.

(** src/src/jsmn/jsmn.c:84-146 (jsmn_parse_string) *)
Definition jsmn_parse_string (p : jsmn_parser) (toks : tokens)
    (num_tokens : Z) : res (Z * jsmn_parser * tokens) :=
  let start := uint_to_int (p_pos p) in
  stop ← string_scan (S (length js)) (uinc (p_pos p));
  match stop with
  | BadEscape => Ok (JSMN_ERROR_INVAL, set_pos p (to_uint start), toks)
  | Unterminated => Ok (JSMN_ERROR_PART, set_pos p (to_uint start), toks)
  | Quoted pos =>
      let p := set_pos p pos in
      match toks with
      | None => Ok (0, p, None)
      | Some ts =>
          '(token, p, ts) ← jsmn_alloc_token p ts num_tokens;
          match token with
          | None => Ok (JSMN_ERROR_NOMEM, set_pos p (to_uint start), Some ts)
          | Some i =>
              start1 ← int_add start 1;
              ts ← jsmn_fill_token ts i JSMN_STRING start1 (uint_to_int pos);
              Ok (0, p, Some ts)
          end
      end
  end.
End with_input.

(** A token opened and not yet closed. *)
Definition is_open (t : jsmntok_t) : bool :=
  negb (tok_start t =? -1) && (tok_end t =? -1).

(** The searches below count an index down to 0; [n] is the index plus one,
    and the result is -1 when nothing is found.

    src/src/jsmn/jsmn.c:222-228 (jsmn_parse) *)
Fixpoint last_open (toks : list jsmntok_t) (n : nat) : res Z :=
  match n with
  | O => Ok (-1)
  | S k =>
      t ← array_get toks (Z.of_nat k);
      if is_open t then Ok (Z.of_nat k) else last_open toks k
  end.

Definition is_container (t : jsmntok_t) : bool :=
  bool_decide (tok_type t = JSMN_ARRAY) || bool_decide (tok_type t = JSMN_OBJECT).

(** src/src/jsmn/jsmn.c:250-257 (jsmn_parse) *)
Fixpoint last_container (toks : list jsmntok_t) (n : nat) : res Z :=
  match n with
  | O => Ok (-1)
  | S k =>
      t ← array_get toks (Z.of_nat k);
      if is_container t && is_open t then Ok (Z.of_nat k) else last_container toks k
  end.

(** [tokens[i].size++]

    src/src/jsmn/jsmn.c:235-236 (jsmn_parse) *)
Definition size_inc (toks : list jsmntok_t) (i : Z) : res (list jsmntok_t) :=
  t ← array_get toks i;
  n ← int_add (tok_size t) 1;
  array_set toks i (mkTok (tok_type t) (tok_start t) (tok_end t) n).

(** How an iteration of the loop of [jsmn_parse] ends. *)
Inductive flow :=
  | Next (p : jsmn_parser) (toks : tokens) (count : Z)
  | Return (r : Z) (p : jsmn_parser) (toks : tokens).

(** src/src/jsmn/jsmn.c:164-181 (jsmn_parse) *)
Definition open_bracket (p : jsmn_parser) (toks : tokens) (num_tokens count c : Z)
    : res flow :=
  count ← int_add count 1;
  match toks with
  | None => Ok (Next p None count)
  | Some ts =>
      '(token, p, ts) ← jsmn_alloc_token p ts num_tokens;
      match token with
      | None => Ok (Return JSMN_ERROR_NOMEM p (Some ts))
      | Some i =>
          ts ← (if negb (p_toksuper p =? -1) then size_inc ts (p_toksuper p) else Ok ts);
          t ← array_get ts i;
          ts ← array_set ts i
            (mkTok (if c =? ch "{" then JSMN_OBJECT else JSMN_ARRAY)
               (uint_to_int (p_pos p)) (tok_end t) (tok_size t));
          Ok (Next (set_super p (uint_to_int (udec (p_toknext p)))) (Some ts) count)
      end
  end.

(** src/src/jsmn/jsmn.c:182-230 (jsmn_parse) *)
Definition close_bracket (p : jsmn_parser) (toks : tokens) (count c : Z)
    : res flow :=
  match toks with
  | None => Ok (Next p None count)
  | Some ts =>
      let type := if c =? ch "}" then JSMN_OBJECT else JSMN_ARRAY in
      let n := Z.to_nat (uint_to_int (udec (p_toknext p)) + 1) in
      i ← last_open ts n;
      if i =? -1 then Ok (Return JSMN_ERROR_INVAL p (Some ts))
      else
        t ← array_get ts i;
        if negb (bool_decide (tok_type t = type))
        then Ok (Return JSMN_ERROR_INVAL p (Some ts))
        else
          end_ ← int_add (uint_to_int (p_pos p)) 1;
          ts ← array_set ts i (mkTok (tok_type t) (tok_start t) end_ (tok_size t));
          super ← last_open ts (S (Z.to_nat i));
          Ok (Next (set_super p super) (Some ts) count)
  end.

(** src/src/jsmn/jsmn.c:243-260 (jsmn_parse) *)
Definition comma (p : jsmn_parser) (toks : tokens) (count : Z) : res flow :=
  match toks with
  | Some ts =>
      if negb (p_toksuper p =? -1) then
        t ← array_get ts (p_toksuper p);
        if negb (is_container t) then
          i ← last_container ts (Z.to_nat (uint_to_int (udec (p_toknext p)) + 1));
          Ok (Next (if i =? -1 then p else set_super p i) (Some ts) count)
        else Ok (Next p toks count)
      else Ok (Next p toks count)
  | None => Ok (Next p None count)
  end.

(** What follows the call that parsed a string or a primitive.

    src/src/jsmn/jsmn.c:279-283 (jsmn_parse) *)
Definition after_value (r : Z) (p : jsmn_parser) (toks : tokens) (count : Z)
    : res flow :=
  if r <? 0 then Ok (Return r p toks)
  else
    count ← int_add count 1;
    toks ← match toks with
           | Some ts =>
               if negb (p_toksuper p =? -1)
               then ts ← size_inc ts (p_toksuper p); Ok (Some ts)
               else Ok (Some ts)
           | None => Ok None
           end;
    Ok (Next p toks count).

(** The body of the loop, for the character [c] at the position.

    src/src/jsmn/jsmn.c:159-290 (jsmn_parse) *)
Definition jsmn_char (js : list Z) (len : Z) (p : jsmn_parser) (toks : tokens)
    (num_tokens count c : Z) : res flow :=
  if (c =? ch "{") || (c =? ch "[") then open_bracket p toks num_tokens count c
  else if (c =? ch "}") || (c =? ch "]") then close_bracket p toks count c
  else if c =? QUOTE then
    '(r, p, toks) ← jsmn_parse_string js len p toks num_tokens;
    after_value r p toks count
  else if (c =? TAB) || (c =? CR) || (c =? LF) || (c =? ch " ")
  then Ok (Next p toks count)
  else if c =? ch ":" then
    Ok (Next (set_super p (uint_to_int (udec (p_toknext p)))) toks count)
  else if c =? ch "," then comma p toks count
  else
    '(r, p, toks) ← jsmn_parse_primitive js len p toks num_tokens;
    after_value r p toks count.

(** src/src/jsmn/jsmn.c:293-302 (jsmn_parse) *)
Definition jsmn_finish (p : jsmn_parser) (toks : tokens) (count : Z)
    : res (Z * jsmn_parser * tokens) :=
  match toks with
  | None => Ok (count, p, None)
  | Some ts =>
      i ← last_open ts (Z.to_nat (uint_to_int (udec (p_toknext p)) + 1));
      if i =? -1 then Ok (count, p, Some ts)
      else Ok (JSMN_ERROR_PART, p, Some ts)
  end.

(** src/src/jsmn/jsmn.c:158-291 (jsmn_parse) *)
Fixpoint jsmn_loop (fuel : nat) (js : list Z) (len : Z) (p : jsmn_parser)
    (toks : tokens) (num_tokens count : Z) : res (Z * jsmn_parser * tokens) :=
  match fuel with
  | O => Err OutOfFuel
  | S fuel =>
      if p_pos p <? len then
        c ← array_get js (p_pos p);
        if c =? 0 then jsmn_finish p toks count
        else
          next ← jsmn_char js len p toks num_tokens count c;
          match next with
          | Return r p toks => Ok (r, p, toks)
          | Next p toks count =>
              jsmn_loop fuel js len (set_pos p (uinc (p_pos p))) toks num_tokens count
          end
      else jsmn_finish p toks count
  end.

(** src/src/jsmn/jsmn.c:151-303 (jsmn_parse) *)
Definition jsmn_parse (p : jsmn_parser) (js : list Z) (len : Z) (toks : tokens)
    (num_tokens : Z) : res (Z * jsmn_parser * tokens) :=
  jsmn_loop (S (length js)) js len p toks num_tokens (uint_to_int (p_toknext p)).

(** src/src/jsmn/jsmn.c:309-313 (jsmn_init) *)
Definition jsmn_init : jsmn_parser := mkParser 0 0 (-1).

(** ** What the tokens delimit *)

Section delimit.
Context (js : list Z).

Definition at_pos (i c : Z) : Prop := 0 <= i ∧ js !! Z.to_nat i = Some c.

Definition container_ok (pos : Z) (t : jsmntok_t) (op cl : Z) : Prop :=
  0 <= tok_start t < pos ∧ at_pos (tok_start t) op ∧
  (tok_end t = -1 ∨ tok_start t < tok_end t <= pos ∧ at_pos (tok_end t - 1) cl).

(** A token written by the time the parser is at [pos]. *)
Definition tok_ok (pos : Z) (t : jsmntok_t) : Prop :=
  0 <= tok_size t <= pos ∧
  match tok_type t with
  | JSMN_OBJECT => container_ok pos t (ch "{") (ch "}")
  | JSMN_ARRAY => container_ok pos t (ch "[") (ch "]")
  | JSMN_STRING =>
      0 < tok_start t <= tok_end t ∧ tok_end t < pos ∧
      at_pos (tok_start t - 1) QUOTE ∧ at_pos (tok_end t) QUOTE
  | JSMN_PRIMITIVE =>
      0 <= tok_start t < tok_end t ∧ tok_end t <= pos ∧
      ∀ k, tok_start t <= k < tok_end t →
        ∃ c, at_pos k c ∧ is_delim c = false ∧ 32 <= c < 127
  | JSMN_UNDEFINED => False
  end.

(** The first [n] tokens of the array are written. *)
Definition toks_ok (pos n : Z) (ts : list jsmntok_t) : Prop :=
  ∀ k : nat, Z.of_nat k < n → ∃ t, ts !! k = Some t ∧ tok_ok pos t.
End delimit.

(** ** What both passes should say of an input

    One scan of the input with a stack of the brackets that are open, and room
    for [num] tokens; there is no token array.  Strings and primitives are
    skipped with the scanners of both passes. *)

Inductive verdict :=
  | Complete (n : Z)       (** [n] tokens, and the brackets match *)
  | Unclosed (n : Z)       (** [n] tokens, and some brackets are left open *)
  | Mismatched             (** a bracket closes none, or one of the other kind *)
  | BadValue (r : Z)       (** a string or primitive is malformed, with this error *)
  | NoRoom.                (** token [num + 1] comes first *)

Inductive judged :=
  | More (pos : Z) (stack : list jsmntype_t) (count : Z)
  | Stop (v : verdict).

Definition token_at (num : Z) (pos : Z) (stack : list jsmntype_t) (count : Z) : judged :=
  if count =? num then Stop NoRoom else More pos stack (count + 1).

Definition judge_open (num pos : Z) (stack : list jsmntype_t) (count c : Z) : judged :=
  token_at num (pos + 1) ((if c =? ch "{" then JSMN_OBJECT else JSMN_ARRAY) :: stack) count.

Definition judge_close (pos : Z) (stack : list jsmntype_t) (count c : Z) : judged :=
  match stack with
  | type :: stack =>
      if decide (type = if c =? ch "}" then JSMN_OBJECT else JSMN_ARRAY)
      then More (pos + 1) stack count else Stop Mismatched
  | [] => Stop Mismatched
  end.

Definition judge_string (js : list Z) (len num pos : Z) (stack : list jsmntype_t) (count : Z)
    : res judged :=
  stop ← string_scan js len (S (length js)) (pos + 1);
  Ok match stop with
     | Quoted q => token_at num (q + 1) stack count
     | BadEscape => Stop (BadValue JSMN_ERROR_INVAL)
     | Unterminated => Stop (BadValue JSMN_ERROR_PART)
     end.

Definition judge_primitive (js : list Z) (len num pos : Z) (stack : list jsmntype_t) (count : Z)
    : res judged :=
  found ← primitive_scan js len (S (length js)) pos;
  Ok match found with
     | Some q => token_at num q stack count
     | None => Stop (BadValue JSMN_ERROR_INVAL)
     end.

Definition judge_char (js : list Z) (len num pos : Z) (stack : list jsmntype_t) (count c : Z)
    : res judged :=
  if (c =? ch "{") || (c =? ch "[") then Ok (judge_open num pos stack count c)
  else if (c =? ch "}") || (c =? ch "]") then Ok (judge_close pos stack count c)
  else if c =? QUOTE then judge_string js len num pos stack count
  else if (c =? TAB) || (c =? CR) || (c =? LF) || (c =? ch " ") || (c =? ch ":") || (c =? ch ",")
  then Ok (More (pos + 1) stack count)
  else judge_primitive js len num pos stack count.

Definition judge_end (stack : list jsmntype_t) (count : Z) : verdict :=
  match stack with [] => Complete count | _ => Unclosed count end.

Fixpoint judge (fuel : nat) (js : list Z) (len num pos : Z) (stack : list jsmntype_t) (count : Z)
    : res verdict :=
  match fuel with
  | O => Err OutOfFuel
  | S fuel =>
      if pos <? len then
        c ← array_get js pos;
        if c =? 0 then Ok (judge_end stack count)
        else
          next ← judge_char js len num pos stack count c;
          match next with
          | Stop v => Ok v
          | More pos stack count => judge fuel js len num pos stack count
          end
      else Ok (judge_end stack count)
  end.

(** The counting pass returned [n] and the filling pass [r], as they should:
    the counting pass does not look at brackets and needs no room. *)
Definition passes_agree (num : Z) (v : verdict) (n r : Z) : Prop :=
  match v with
  | Complete k => n = k ∧ r = k
  | Unclosed k => n = k ∧ r = JSMN_ERROR_PART
  | Mismatched => r = JSMN_ERROR_INVAL
  | BadValue e => n = e ∧ r = e
  | NoRoom => (n < 0 ∨ num < n) ∧ r = JSMN_ERROR_NOMEM
  end.

(** The types of the open tokens among the first [n], the last one first. *)
Fixpoint opens (ts : list jsmntok_t) (n : nat) : list jsmntype_t :=
  match n with
  | O => []
  | S k =>
      match ts !! k with
      | Some t => if is_open t then tok_type t :: opens ts k else opens ts k
      | None => opens ts k
      end
  end.

(** ** Lemmas *)

Lemma opens_ext ts ts' n :
  (∀ j, (j < n)%nat → (λ t, (is_open t, tok_type t)) <$> ts' !! j = (λ t, (is_open t, tok_type t)) <$> ts !! j) →
  opens ts' n = opens ts n.
Proof.
  induction n as [|n IH]; intros H; cbn; [done|]. rewrite IH by (intros j Hj; apply H; lia).
  specialize (H n ltac:(lia)). destruct (ts' !! n), (ts !! n); cbn in H; try done. by injection H as -> ->.
Qed.

Lemma opens_insert_ge ts i t n : (n <= i)%nat → opens (<[i := t]> ts) n = opens ts n.
Proof. intros H. apply opens_ext. intros j Hj. by rewrite list_lookup_insert_ne by lia. Qed.

Lemma opens_insert_same ts i t t' n :
  ts !! i = Some t → is_open t' = is_open t → tok_type t' = tok_type t →
  opens (<[i := t']> ts) n = opens ts n.
Proof.
  intros Hi Ho Ht. apply opens_ext. intros j Hj. destruct (decide (j = i)) as [->|Hne].
  - rewrite list_lookup_insert_eq by (by eapply lookup_lt_Some). by rewrite Hi; cbn; rewrite Ho, Ht.
  - by rewrite list_lookup_insert_ne.
Qed.

Lemma opens_snoc ts n t :
  ts !! n = Some t → opens ts (S n) = if is_open t then tok_type t :: opens ts n else opens ts n.
Proof. intros H. cbn. by rewrite H. Qed.

(** The last open token is the top of the stack, and closing it pops. *)
Lemma last_open_opens ts k i :
  last_open ts k = Ok i →
  i = -1 ∧ opens ts k = [] ∨
  0 <= i ∧ ∃ t, ts !! Z.to_nat i = Some t ∧ opens ts k = tok_type t :: opens ts (Z.to_nat i) ∧
    ∀ t', is_open t' = false → opens (<[Z.to_nat i := t']> ts) k = opens ts (Z.to_nat i).
Proof.
  induction k as [|k IH]; cbn [last_open opens]; [intros [= <-]; by left|].
  intros (t & [_ Ht]%array_get_Ok & H)%bind_Ok. rewrite Nat2Z.id in Ht. rewrite Ht.
  destruct (is_open t) eqn:Eo.
  - injection H as <-. right. split; [lia|]. exists t. rewrite Nat2Z.id. split; [done|]. split; [done|].
    intros t' Ht'. rewrite list_lookup_insert_eq by (by eapply lookup_lt_Some). rewrite Ht'.
    by apply opens_insert_ge.
  - destruct (IH H) as [?|(Hi & ti & Hti & Ho & Hc)]; [by left|right]. split; [done|].
    exists ti. split; [done|]. split; [done|]. intros t' Ht'.
    destruct (decide (Z.to_nat i = k)) as [E|Hne].
    + specialize (Hc t' Ht'). rewrite E in Hc |- *.
      rewrite list_lookup_insert_eq by (by eapply lookup_lt_Some). by rewrite Ht'.
    + rewrite list_lookup_insert_ne, Ht, Eo by done. by apply Hc.
Qed.

Lemma to_uint_id z : 0 <= z < UINT_MOD → to_uint z = z.
Proof. apply Z.mod_small. Qed.

Lemma uinc_id z : 0 <= z < INT_MAX → uinc z = z + 1.
Proof. intros H. apply to_uint_id. unfold INT_MAX, UINT_MOD in *. lia. Qed.

Lemma udec_id z : 0 < z <= INT_MAX → udec z = z - 1.
Proof. intros H. apply to_uint_id. unfold INT_MAX, UINT_MOD in *. lia. Qed.

Lemma uint_to_int_id z : z <= INT_MAX → uint_to_int z = z.
Proof. intros H. unfold uint_to_int. by rewrite (proj2 (Z.leb_le _ _)). Qed.

(** [toknext - 1] as an [int], also when no token is allocated. *)
Lemma toknext_index n : 0 <= n <= INT_MAX → uint_to_int (udec n) = n - 1.
Proof.
  intros H. destruct (decide (n = 0)) as [->|]; [reflexivity|].
  rewrite udec_id by lia. apply uint_to_int_id. lia.
Qed.

Lemma container_ok_mono js pos pos' t op cl :
  pos <= pos' → container_ok js pos t op cl → container_ok js pos' t op cl.
Proof.
  intros Hp (Hs & Ho & He). split; [lia|]. split; [done|].
  destruct He as [?|[? ?]]; [by left|right]. split; [lia|done].
Qed.

Lemma tok_ok_mono js pos pos' t : pos <= pos' → tok_ok js pos t → tok_ok js pos' t.
Proof.
  intros Hp [Hs Ht]. split; [lia|]. destruct (tok_type t); [done|..].
  - by eapply container_ok_mono.
  - by eapply container_ok_mono.
  - destruct Ht as (? & ? & ? & ?). split; [done|]. split; [lia|done].
  - destruct Ht as (? & ? & ?). split; [done|]. split; [lia|done].
Qed.

Lemma toks_ok_mono js pos pos' n ts :
  pos <= pos' → toks_ok js pos n ts → toks_ok js pos' n ts.
Proof.
  intros Hp Ht k Hk. destruct (Ht k Hk) as (t & Hl & Ho). exists t.
  split; [done|]. by eapply tok_ok_mono.
Qed.

Lemma toks_ok_insert js pos n ts i t :
  toks_ok js pos n ts → 0 <= i < n → tok_ok js pos t →
  toks_ok js pos n (<[Z.to_nat i := t]> ts).
Proof.
  intros Ht Hi Hok k Hk. destruct (Ht k Hk) as (t' & Hl & Ho).
  destruct (decide (k = Z.to_nat i)) as [->|Hne].
  - exists t. split; [|done]. apply list_lookup_insert_eq. by apply lookup_lt_Some in Hl.
  - exists t'. by rewrite list_lookup_insert_ne.
Qed.

Lemma toks_ok_insert_ge js pos n ts i t :
  toks_ok js pos n ts → 0 <= n <= i → toks_ok js pos n (<[Z.to_nat i := t]> ts).
Proof.
  intros Ht Hi k Hk. rewrite list_lookup_insert_ne by lia. by apply Ht.
Qed.

Lemma toks_ok_snoc js pos n ts t :
  toks_ok js pos n ts → 0 <= n < Z.of_nat (length ts) → ts !! Z.to_nat n = Some t →
  tok_ok js pos t → toks_ok js pos (n + 1) ts.
Proof.
  intros Ht Hn Hl Hok k Hk. destruct (decide (Z.of_nat k = n)) as [<-|].
  - exists t. by rewrite Nat2Z.id in Hl.
  - apply Ht. lia.
Qed.

Lemma alloc_full p ts num :
  p_toknext p >= num → jsmn_alloc_token p ts num = Ok (None, p, ts).
Proof. intros H. unfold jsmn_alloc_token. by rewrite (proj2 (Z.geb_ge _ _)) by lia. Qed.

Lemma alloc_room pos n s ts num :
  0 <= n < num → num = Z.of_nat (length ts) → num <= INT_MAX →
  ∃ ty, jsmn_alloc_token (mkParser pos n s) ts num =
    Ok (Some n, mkParser pos (n + 1) s, <[Z.to_nat n := mkTok ty (-1) (-1) 0]> ts).
Proof.
  intros Hn Hnum Hmax. unfold jsmn_alloc_token. cbn.
  rewrite Z.geb_leb, (proj2 (Z.leb_gt _ _)) by lia.
  destruct (array_get_lt ts n) as (t & -> & _); [lia|]. cbn.
  rewrite array_set_in by lia. cbn. exists (tok_type t). by rewrite uinc_id by lia.
Qed.

Lemma size_inc_ok js pos n ts i :
  toks_ok js pos n ts → 0 <= i < n → pos < INT_MAX →
  ∃ t, size_inc ts i = Ok (<[Z.to_nat i := t]> ts) ∧ tok_ok js (pos + 1) t ∧
    toks_ok js (pos + 1) n (<[Z.to_nat i := t]> ts) ∧ ∀ m, opens (<[Z.to_nat i := t]> ts) m = opens ts m.
Proof.
  intros Ht Hi Hp. destruct (Ht (Z.to_nat i)) as (t & Hl & Ho); [lia|].
  unfold size_inc. rewrite (array_get_in _ _ t) by (done || lia). cbn.
  destruct (Ho) as [Hs Hty].
  rewrite int_add_id by (unfold INT_MIN, INT_MAX in *; lia). cbn.
  pose proof (lookup_lt_Some _ _ _ Hl).
  rewrite array_set_in by lia.
  set (t' := mkTok _ _ _ _). exists t'. split; [done|].
  assert (tok_ok js (pos + 1) t').
  { apply (tok_ok_mono js pos (pos + 1)) in Ho; [|lia]. split; [cbn; lia|apply Ho]. }
  split; [done|]. split.
  - apply toks_ok_insert; [|done..]. by eapply toks_ok_mono; [|done]; lia.
  - intros m. by apply (opens_insert_same _ _ t).
Qed.

Lemma last_open_ok js pos n ts k :
  toks_ok js pos n ts → Z.of_nat k <= n →
  (last_open ts k = Ok (-1) ∧
     ∀ j t, (j < k)%nat → ts !! j = Some t → is_open t = false) ∨
  (∃ i t, last_open ts k = Ok i ∧ 0 <= i < Z.of_nat k ∧
     ts !! Z.to_nat i = Some t ∧ is_open t = true).
Proof.
  intros Ht. induction k as [|k IH]; intros Hk; cbn [last_open].
  { left. split; [done|lia]. }
  destruct (Ht k) as (t & Hl & _); [lia|].
  rewrite (array_get_in _ _ t) by (lia || by rewrite Nat2Z.id). cbn.
  destruct (is_open t) eqn:E.
  - right. exists (Z.of_nat k), t. rewrite Nat2Z.id. split; [done|]. split; [lia|done].
  - destruct IH as [[-> Hc]|(i & t' & -> & Hi & Hl' & Ho)]; [lia|left|right].
    + split; [done|]. intros j t' Hj Hl'. destruct (decide (j = k)) as [->|].
      * congruence.
      * apply (Hc j); [lia|done].
    + exists i, t'. split; [done|]. split; [lia|done].
Qed.

Lemma last_container_ok js pos n ts k :
  toks_ok js pos n ts → Z.of_nat k <= n →
  ∃ i, last_container ts k = Ok i ∧ -1 <= i < Z.of_nat k.
Proof.
  intros Ht. induction k as [|k IH]; intros Hk; cbn [last_container].
  { exists (-1). split; [done|lia]. }
  destruct (Ht k) as (t & Hl & _); [lia|].
  rewrite (array_get_in _ _ t) by (lia || by rewrite Nat2Z.id). cbn.
  destruct (_ && _).
  - exists (Z.of_nat k). split; [done|lia].
  - destruct IH as (i & -> & Hi); [lia|]. exists i. split; [done|lia].
Qed.

#[global] Arguments last_open : simpl never.
#[global] Arguments last_container : simpl never.

Section passes.
Context (js : list Z) (len : Z).
Context (Hjs : 0 <= len <= Z.of_nat (length js)) (Hlen : len < INT_MAX).
#[local] Set Default Proof Using "Type*".

Lemma get_char pos : 0 <= pos < len → ∃ c, array_get js pos = Ok c ∧ at_pos js pos c.
Proof.
  intros Hp. destruct (array_get_lt js pos ltac:(lia)) as (c & Hc & Hl).
  exists c. split; [done|]. split; [lia|done].
Qed.

Lemma primitive_scan_ok fuel pos :
  0 <= pos <= len → len - pos < Z.of_nat fuel →
  ∃ r, primitive_scan js len fuel pos = Ok r ∧
    match r with
    | None => True
    | Some q => pos <= q <= len ∧
        (∀ k, pos <= k < q → ∃ c, at_pos js k c ∧ is_delim c = false ∧ 32 <= c < 127) ∧
        (∀ c, pos < len → at_pos js pos c → c ≠ 0 → is_delim c = false → pos < q)
    end.
Proof.
  revert pos. induction fuel as [|fuel IH]; intros pos Hp Hf; [lia|].
  cbn [primitive_scan]. destruct (Z.ltb_spec pos len) as [Hl|Hl].
  2: { eexists. split; [done|]. split; [lia|]. split; [lia|lia]. }
  destruct (get_char pos) as (c & -> & Hc); [lia|]. cbn [mbind res_bind].
  assert (Hq : ∀ c', at_pos js pos c' → c' = c) by (intros c' [_ H]; destruct Hc; congruence).
  destruct (Z.eqb_spec c 0) as [->|Hz].
  { eexists. split; [done|]. split; [lia|]. split; [lia|]. by intros ? _ ->%Hq. }
  destruct (is_delim c) eqn:Ed.
  { eexists. split; [done|]. split; [lia|]. split; [lia|]. intros ? _ ->%Hq. congruence. }
  destruct ((c <? 32) || (c >=? 127)) eqn:Er; [by exists None|].
  rewrite uinc_id by lia. destruct (IH (pos + 1)) as ([q|] & -> & Hr); [lia..|eauto|eauto].
  eexists. split; [done|]. destruct Hr as (Hr & Hk & _). split; [lia|]. split; [|lia].
  intros k Hk'. destruct (decide (k = pos)) as [->|]; [|apply Hk; lia].
  exists c. split; [done|]. split; [done|].
  apply orb_false_iff in Er as [E1%Z.ltb_ge E2]. rewrite Z.geb_leb in E2. apply Z.leb_gt in E2. lia.
Qed.

Lemma hex_scan_ok n pos :
  0 <= pos <= len →
  ∃ r, hex_scan js len n pos = Ok r ∧
    match r with None => True | Some q => pos <= q <= len end.
Proof.
  revert pos. induction n as [|n IH]; intros pos Hp; cbn [hex_scan].
  { exists (Some pos). split; [done|lia]. }
  destruct (Z.ltb_spec pos len) as [Hl|Hl]; [|exists (Some pos); split; [done|lia]].
  destruct (get_char pos) as (c & -> & Hc); [lia|]. cbn [mbind res_bind].
  destruct (c =? 0); [exists (Some pos); split; [done|lia]|].
  destruct (negb _); [by exists None|]. rewrite uinc_id by lia.
  destruct (IH (pos + 1)) as ([q|] & -> & Hr); [lia| |by exists None].
  exists (Some q). split; [done|lia].
Qed.

Lemma string_scan_ok fuel pos :
  0 <= pos <= len → len - pos < Z.of_nat fuel →
  ∃ r, string_scan js len fuel pos = Ok r ∧
    match r with Quoted q => pos <= q < len ∧ at_pos js q QUOTE | _ => True end.
Proof.
  revert pos. induction fuel as [|fuel IH]; intros pos Hp Hf; [lia|].
  assert (IH' : ∀ q, pos < q <= len → ∃ r, string_scan js len fuel q = Ok r ∧
    match r with Quoted q => pos <= q < len ∧ at_pos js q QUOTE | _ => True end).
  { intros q Hq. destruct (IH q) as ([q'| |] & E & Hr); [lia..|eexists|eexists|eexists];
      (split; [exact E|]); [|done..]. destruct Hr. split; [lia|done]. }
  cbn [string_scan]. destruct (Z.ltb_spec pos len) as [Hl|Hl]; [|by eexists].
  destruct (get_char pos) as (c & -> & Hc); [lia|]. cbn [mbind res_bind].
  destruct (c =? 0); [by eexists|].
  destruct (Z.eqb_spec c QUOTE) as [->|_].
  { eexists. split; [done|]. split; [lia|done]. }
  rewrite uinc_id by lia. destruct (_ && _) eqn:E; bool_inv; [|apply IH'; lia].
  destruct (get_char (pos + 1)) as (c' & -> & Hc'); [lia|]. cbn [mbind res_bind].
  rewrite uinc_id by lia. destruct (is_escaped c'); [apply IH'; lia|].
  destruct (c' =? ch "u"); [|by eexists].
  destruct (hex_scan_ok 4 (pos + 1 + 1)) as ([q|] & -> & Hq); [lia| |by eexists].
  cbn [mbind res_bind]. rewrite udec_id, uinc_id by lia.
  replace (q - 1 + 1) with q by lia. apply IH'. lia.
Qed.

#[local] Arguments primitive_scan : simpl never.
#[local] Arguments string_scan : simpl never.
#[local] Arguments after_value : simpl never.

(** The state of the filling pass between two iterations. *)
Definition jinv (p : jsmn_parser) (ts : list jsmntok_t) (num count : Z) : Prop :=
  0 <= p_pos p <= len ∧ 0 <= p_toknext p <= num ∧ -1 <= p_toksuper p < p_toknext p ∧
  count = p_toknext p ∧ num = Z.of_nat (length ts) ∧ num <= INT_MAX ∧
  p_toknext p <= p_pos p ∧ toks_ok js (p_pos p) (p_toknext p) ts.

(** One iteration of the counting pass against one of the filling pass, and
    what the iteration should say. *)
Definition flow_sim (num count pos : Z) (g : judged) (f0 f : flow) : Prop :=
  match f0, f with
  | Return r0 _ None, Return r _ (Some ts) =>
      r0 < 0 ∧ r < 0 ∧ Z.of_nat (length ts) = num ∧ g = Stop (BadValue r) ∧ r0 = r
  | Next p0 None count', Return r _ (Some ts) =>
      p_toknext p0 = 0 ∧ pos <= p_pos p0 < len ∧ count <= count' <= count + 1 ∧
      r < 0 ∧ (r = JSMN_ERROR_NOMEM → num < count') ∧ Z.of_nat (length ts) = num ∧
      (g = Stop NoRoom ∧ r = JSMN_ERROR_NOMEM ∨ g = Stop Mismatched ∧ r = JSMN_ERROR_INVAL)
  | Next p0 None count', Next p (Some ts) c =>
      p_toknext p0 = 0 ∧ pos <= p_pos p0 < len ∧ count <= count' <= count + 1 ∧
      c = count' ∧ p_pos p = p_pos p0 ∧ jinv (set_pos p (p_pos p + 1)) ts num c ∧
      g = More (p_pos p + 1) (opens ts (Z.to_nat c)) c
  | _, _ => False
  end.

Definition step_sim (num count pos : Z) (g : res judged) (m0 m : res flow) : Prop :=
  ∃ j f0 f, g = Ok j ∧ m0 = Ok f0 ∧ m = Ok f ∧ flow_sim num count pos j f0 f.

Lemma open_bracket_sim p0 p ts num n0 count c :
  jinv p ts num count → p_pos p < len → p_pos p0 = p_pos p → p_toknext p0 = 0 →
  at_pos js (p_pos p) c → c = ch "{" ∨ c = ch "[" →
  step_sim num count (p_pos p) (Ok (judge_open num (p_pos p) (opens ts (Z.to_nat count)) count c)) (open_bracket p0 None n0 count c)
    (open_bracket p (Some ts) num count c).
Proof.
  intros Hi Hl Hp0 Hn0 Hc Hcc. destruct p as [pos n s]. destruct p0 as [pos0 ? s0].
  cbn in *. subst. destruct Hi as (Hpos & Hn & Hs & -> & Hnum & Hmax & Hnp & Hts).
  unfold open_bracket. cbn in *. rewrite int_add_id by (unfold INT_MIN, INT_MAX in *; lia).
  cbn. destruct (decide (n = num)) as [->|Hne].
  { rewrite alloc_full by (cbn; lia). cbn. eexists _, _, _. split; [done|]. split; [done|]. split; [done|].
    unfold judge_open, token_at. rewrite Z.eqb_refl. cbn. repeat split; try done; (lia || by left). }
  destruct (alloc_room pos n s ts num) as (ty & ->); [done || lia..|]. cbn.
  set (ts1 := <[Z.to_nat n := _]> ts).
  assert (Hts1 : toks_ok js pos n ts1) by (apply toks_ok_insert_ge; [done|lia]).
  assert (Hl1 : length ts1 = length ts) by apply length_insert.
  assert (Hlk : ts1 !! Z.to_nat n = Some (mkTok ty (-1) (-1) 0))
    by (apply list_lookup_insert_eq; lia).
  assert (∃ ts2, (if negb (s =? -1) then size_inc ts1 s else Ok ts1) = Ok ts2 ∧
    toks_ok js (pos + 1) n ts2 ∧ length ts2 = length ts ∧
    ts2 !! Z.to_nat n = Some (mkTok ty (-1) (-1) 0) ∧ opens ts2 (Z.to_nat n) = opens ts1 (Z.to_nat n))
    as (ts2 & -> & Hts2 & Hl2 & Hlk2 & Hop2).
  { destruct (Z.eqb_spec s (-1)) as [->|Hse]; cbn.
    - exists ts1. split; [done|]. split; [|done]. by eapply toks_ok_mono; [|done]; lia.
    - destruct (size_inc_ok js pos n ts1 s Hts1) as (t & -> & Ht & Hok & Hop); [lia..|].
      eexists. split; [done|]. split; [done|].
      rewrite length_insert, list_lookup_insert_ne by lia. done. }
  cbn. rewrite (array_get_in ts2 n _ ltac:(lia) Hlk2). cbn. rewrite array_set_in by lia. cbn.
  rewrite (uint_to_int_id pos), toknext_index by lia.
  eexists _, _, _. split; [done|]. split; [done|]. split; [done|].
  cbn. split; [done|]. split; [lia|]. split; [lia|]. split; [done|]. split; [done|].
  set (tn := mkTok _ _ _ _). set (ts3 := <[_ := tn]> ts2).
  assert (opens ts3 (Z.to_nat (n + 1)) = tok_type tn :: opens ts (Z.to_nat n)) as Hop3.
  { replace (Z.to_nat (n + 1)) with (S (Z.to_nat n)) by lia. rewrite (opens_snoc _ _ tn).
    - unfold ts3. rewrite opens_insert_ge, Hop2 by lia. unfold ts1. rewrite opens_insert_ge by lia.
      unfold is_open. cbn. by rewrite (proj2 (Z.eqb_neq pos (-1))) by lia.
    - apply list_lookup_insert_eq. lia. }
  split; [|unfold judge_open, token_at; by rewrite Hop3, (proj2 (Z.eqb_neq n num)) by done].
  unfold jinv, ts3. cbn. split; [lia|]. split; [lia|]. split; [lia|]. split; [done|].
  rewrite length_insert. split; [lia|]. split; [done|]. split; [lia|].
  apply toks_ok_snoc with (mkTok (if c =? ch "{" then JSMN_OBJECT else JSMN_ARRAY) pos (-1) 0).
  - apply toks_ok_insert_ge; [done|lia].
  - rewrite length_insert. lia.
  - apply list_lookup_insert_eq. lia.
  - split; [cbn; lia|]. destruct Hcc as [-> | ->]; cbn; unfold container_ok; cbn;
      (split; [lia|]); split; [done|by left|done|by left].
Qed.

Lemma close_bracket_sim p0 p ts num count c :
  jinv p ts num count → p_pos p < len → p_pos p0 = p_pos p → p_toknext p0 = 0 →
  at_pos js (p_pos p) c → c = ch "}" ∨ c = ch "]" →
  step_sim num count (p_pos p) (Ok (judge_close (p_pos p) (opens ts (Z.to_nat count)) count c)) (close_bracket p0 None count c)
    (close_bracket p (Some ts) count c).
Proof.
  intros Hi Hl Hp0 Hn0 Hc Hcc. destruct p as [pos n s]. destruct p0 as [pos0 ? s0].
  cbn in *. subst. destruct Hi as (Hpos & Hn & Hs & -> & Hnum & Hmax & Hnp & Hts).
  unfold close_bracket. cbn in *. rewrite toknext_index by lia.
  replace (Z.to_nat (n - 1 + 1)) with (Z.to_nat n) by lia.
  assert (Hret : ∀ r ts', r = JSMN_ERROR_INVAL →
    Z.of_nat (length ts') = num →
    flow_sim num n pos (Stop Mismatched) (Next (mkParser pos 0 s0) None n) (Return r (mkParser pos n s) (Some ts'))).
  { intros r ts' -> Hl'. cbn. repeat split; try done; (lia || by right). }
  pose proof (last_open_opens ts (Z.to_nat n)) as Htop. unfold judge_close.
  destruct (last_open_ok js pos n ts (Z.to_nat n) Hts) as [[El _]|(i & t & El & Hi & Hlk & Ho)]; [lia|..];
    rewrite El; destruct (Htop _ El) as [(Ei & ->)|(Hi0 & t1 & Hlk1 & -> & Hpop)]; try lia;
    [eexists _, _, _; split; [done|]; split; [done|]; split; [done|]; by apply Hret|].
  assert (t1 = t) as -> by congruence. clear Hlk1 Hi0 El Htop.
  cbn. rewrite (proj2 (Z.eqb_neq i (-1))) by lia. cbn.
  rewrite (array_get_in ts i _ ltac:(lia) Hlk). cbn.
  case_bool_decide as Hty; cbn;
    [rewrite decide_True by done|rewrite decide_False by done;
     eexists _, _, _; split; [done|]; split; [done|]; split; [done|]; by apply Hret].
  rewrite uint_to_int_id, int_add_id by (unfold INT_MIN in *; lia). cbn.
  rewrite array_set_in by lia. cbn.
  set (t' := mkTok _ _ _ _). set (ts' := <[_ := _]> ts).
  assert (Hok : tok_ok js (pos + 1) t').
  { destruct (Hts (Z.to_nat i)) as (t0 & Hlk0 & [Hsz Hto]); [lia|].
    assert (t0 = t) as -> by congruence. split; [cbn; lia|]. cbn.
    unfold is_open in Ho. bool_inv. rewrite Hty in *.
    assert (Hcc' : ∀ op cl, container_ok js pos t op cl → c = cl →
      container_ok js (pos + 1) t' op cl).
    { intros op cl (? & ? & He) ->. split; [cbn; lia|]. split; [done|].
      right. cbn. split; [lia|]. by replace (pos + 1 - 1) with pos by lia. }
    destruct Hcc as [-> | ->]; cbn in *; by eapply Hcc'. }
  assert (Hts' : toks_ok js (pos + 1) n ts').
  { apply toks_ok_insert; [by eapply toks_ok_mono; [|done]; lia|lia|done]. }
  assert (∃ sp, last_open ts' (S (Z.to_nat i)) = Ok sp ∧ -1 <= sp < n) as (sp & -> & Hsp).
  { destruct (last_open_ok js (pos + 1) n ts' (S (Z.to_nat i)) Hts')
      as [[-> _]|(j & ? & -> & Hj & _)]; [lia|eexists; split; [done|lia]..]. }
  cbn. eexists _, _, _. split; [done|]. split; [done|]. split; [done|]. cbn.
  split; [done|]. split; [lia|]. split; [lia|]. split; [done|]. split; [done|].
  unfold ts'. rewrite Hpop by (unfold t', is_open; cbn; rewrite (proj2 (Z.eqb_neq (pos + 1) (-1))) by lia;
    apply andb_false_r).
  unfold jinv, ts' in *. cbn. rewrite length_insert. repeat split; (done || lia).
Qed.

Lemma comma_sim p0 p ts num count :
  jinv p ts num count → p_pos p < len → p_pos p0 = p_pos p → p_toknext p0 = 0 →
  step_sim num count (p_pos p) (Ok (More (p_pos p + 1) (opens ts (Z.to_nat count)) count)) (comma p0 None count) (comma p (Some ts) count).
Proof.
  intros Hi Hl Hp0 Hn0. destruct p as [pos n s]. destruct p0 as [pos0 ? s0].
  cbn in *. subst. destruct Hi as (Hpos & Hn & Hs & -> & Hnum & Hmax & Hnp & Hts).
  assert (Hnext : ∀ s', -1 <= s' < n → flow_sim num n pos (More (pos + 1) (opens ts (Z.to_nat n)) n)
    (Next (mkParser pos 0 s0) None n)
    (Next (mkParser pos n s') (Some ts) n)).
  { intros s' Hs'. cbn. repeat split; try done; cbn in *; try lia.
    by eapply toks_ok_mono; [|done]; lia. }
  cbn in *. unfold comma. cbn. destruct (Z.eqb_spec s (-1)) as [->|Hse]; cbn.
  { eexists _, _, _. split; [done|]. split; [done|]. split; [done|]. apply Hnext. lia. }
  destruct (Hts (Z.to_nat s)) as (t & Hlk & _); [lia|].
  rewrite (array_get_in ts s _ ltac:(lia) Hlk). cbn. destruct (is_container t); cbn.
  { eexists _, _, _. split; [done|]. split; [done|]. split; [done|]. apply Hnext. lia. }
  rewrite toknext_index by lia. replace (Z.to_nat (n - 1 + 1)) with (Z.to_nat n) by lia.
  destruct (last_container_ok js pos n ts (Z.to_nat n) Hts) as (i & -> & Hi'); [lia|].
  cbn. eexists _, _, _. split; [done|]. split; [done|]. split; [done|].
  destruct (Z.eqb_spec i (-1)) as [->|]; apply Hnext; lia.
Qed.

Lemma after_value_ok q n s ts num tok :
  toks_ok js q n ts → 0 <= n < num → num = Z.of_nat (length ts) → num <= INT_MAX →
  -1 <= s < n → n <= q < len → tok_ok js (q + 1) tok → is_open tok = false →
  ∃ ts', after_value 0 (mkParser q (n + 1) s) (Some (<[Z.to_nat n := tok]> ts)) n =
      Ok (Next (mkParser q (n + 1) s) (Some ts') (n + 1)) ∧
    jinv (mkParser (q + 1) (n + 1) s) ts' num (n + 1) ∧
    opens ts' (Z.to_nat (n + 1)) = opens ts (Z.to_nat n).
Proof.
  intros Hts Hn Hnum Hmax Hs Hq Htok Hcl. unfold after_value. cbn.
  rewrite int_add_id by (unfold INT_MIN, INT_MAX in *; lia). cbn.
  set (ts1 := <[_ := _]> ts).
  assert (Hts1 : toks_ok js q n ts1) by (apply toks_ok_insert_ge; [done|lia]).
  assert (Hl1 : length ts1 = length ts) by apply length_insert.
  assert (Hlk : ts1 !! Z.to_nat n = Some tok) by (apply list_lookup_insert_eq; lia).
  assert (∃ ts2, (if negb (s =? -1) then ts ← size_inc ts1 s; @Ok tokens (Some ts)
                  else @Ok tokens (Some ts1)) = Ok (Some ts2) ∧
    toks_ok js (q + 1) n ts2 ∧ length ts2 = length ts ∧
    ts2 !! Z.to_nat n = Some tok ∧ opens ts2 (Z.to_nat n) = opens ts1 (Z.to_nat n))
    as (ts2 & -> & Hts2 & Hl2 & Hlk2 & Hop2).
  { destruct (Z.eqb_spec s (-1)) as [->|Hse]; cbn.
    - exists ts1. split; [done|]. split; [|done]. by eapply toks_ok_mono; [|done]; lia.
    - destruct (size_inc_ok js q n ts1 s Hts1) as (t & -> & Ht & Hok & Hop); [lia..|].
      eexists. split; [done|]. split; [done|].
      rewrite length_insert, list_lookup_insert_ne by lia. done. }
  cbn. exists ts2. split; [done|]. split.
  2: { replace (Z.to_nat (n + 1)) with (S (Z.to_nat n)) by lia. rewrite (opens_snoc _ _ tok), Hcl, Hop2 by done.
    apply opens_insert_ge. lia. }
  unfold jinv. cbn. repeat split; try (done || lia).
  apply toks_ok_snoc with tok; (done || lia).
Qed.

Lemma string_sim p0 p ts num n0 count :
  jinv p ts num count → p_pos p < len → p_pos p0 = p_pos p → p_toknext p0 = 0 →
  at_pos js (p_pos p) QUOTE →
  step_sim num count (p_pos p) (judge_string js len num (p_pos p) (opens ts (Z.to_nat count)) count)
    ('(r, p, toks) ← jsmn_parse_string js len p0 None n0; after_value r p toks count)
    ('(r, p, toks) ← jsmn_parse_string js len p (Some ts) num; after_value r p toks count).
Proof.
  intros Hi Hl Hp0 Hn0 Hq. destruct p as [pos n s]. destruct p0 as [pos0 ? s0].
  cbn in *. subst. destruct Hi as (Hpos & Hn & Hs & -> & Hnum & Hmax & Hnp & Hts).
  cbn in *. unfold jsmn_parse_string, judge_string. cbn -[string_scan].
  rewrite uinc_id, uint_to_int_id by lia.
  destruct (string_scan_ok (S (length js)) (pos + 1)) as ([q| |] & -> & Hr); [lia..| | |].
  2-3: by eexists _, _, _; repeat split.
  destruct Hr as [Hqr Hqq]. unfold set_pos. cbn.
  assert (Hadd : after_value 0 (mkParser q 0 s0) None n = Ok (Next (mkParser q 0 s0) None (n + 1))).
  { unfold after_value. cbn. by rewrite int_add_id by (unfold INT_MIN, INT_MAX in *; lia). }
  rewrite Hadd. destruct (decide (n = num)) as [->|Hne].
  { rewrite alloc_full by (cbn; lia). cbn. eexists _, _, _. split; [done|]. split; [done|]. split; [done|].
    unfold token_at. rewrite Z.eqb_refl. cbn. repeat split; try done; (lia || by left). }
  destruct (alloc_room q n s ts num) as (ty & E); [done || lia..|].
  rewrite E. cbn.
  rewrite int_add_id by (unfold INT_MIN, INT_MAX in *; lia). cbn.
  unfold jsmn_fill_token. rewrite array_set_in by (rewrite length_insert; lia). cbn.
  rewrite list_insert_insert_eq, uint_to_int_id by lia.
  destruct (after_value_ok q n s ts num (mkTok JSMN_STRING (pos + 1) q 0)) as (ts' & -> & Hj & Hop);
    [by eapply toks_ok_mono; [|done]; lia|done || lia..| | |].
  { split; [cbn; lia|]. cbn. split; [lia|]. split; [lia|].
    by replace (pos + 1 - 1) with pos by lia. }
  { unfold is_open. cbn. by rewrite (proj2 (Z.eqb_neq q (-1))), andb_false_r by lia. }
  eexists _, _, _. split; [done|]. split; [done|]. split; [done|]. cbn. rewrite Hop.
  unfold token_at. rewrite (proj2 (Z.eqb_neq n num)) by done. repeat split; (done || lia || apply Hj).
Qed.

Lemma primitive_sim p0 p ts num n0 count c :
  jinv p ts num count → p_pos p < len → p_pos p0 = p_pos p → p_toknext p0 = 0 →
  at_pos js (p_pos p) c → c ≠ 0 → is_delim c = false →
  step_sim num count (p_pos p) (judge_primitive js len num (p_pos p) (opens ts (Z.to_nat count)) count)
    ('(r, p, toks) ← jsmn_parse_primitive js len p0 None n0; after_value r p toks count)
    ('(r, p, toks) ← jsmn_parse_primitive js len p (Some ts) num; after_value r p toks count).
Proof.
  intros Hi Hl Hp0 Hn0 Hc Hz Hd. destruct p as [pos n s]. destruct p0 as [pos0 ? s0].
  cbn in *. subst. destruct Hi as (Hpos & Hn & Hs & -> & Hnum & Hmax & Hnp & Hts).
  cbn in *. unfold jsmn_parse_primitive, judge_primitive. cbn -[primitive_scan].
  rewrite (uint_to_int_id pos) by lia.
  destruct (primitive_scan_ok (S (length js)) pos) as ([q|] & -> & Hr); [lia..| |].
  2: by eexists _, _, _; repeat split.
  destruct Hr as (Hqr & Hk & Hgt). specialize (Hgt c Hl Hc Hz Hd). cbn.
  rewrite (udec_id q) by lia.
  assert (Hadd : after_value 0 (mkParser (q - 1) 0 s0) None n =
    Ok (Next (mkParser (q - 1) 0 s0) None (n + 1))).
  { unfold after_value. cbn. by rewrite int_add_id by (unfold INT_MIN, INT_MAX in *; lia). }
  unfold set_pos. cbn [p_pos p_toknext p_toksuper].
  rewrite Hadd. destruct (decide (n = num)) as [->|Hne].
  { rewrite alloc_full by (cbn; lia). cbn. eexists _, _, _. split; [done|]. split; [done|]. split; [done|].
    unfold token_at. rewrite Z.eqb_refl. cbn. repeat split; try done; (lia || by left). }
  destruct (alloc_room q n s ts num) as (ty & E); [done || lia..|]. rewrite E. cbn.
  unfold jsmn_fill_token. rewrite array_set_in by (rewrite length_insert; lia). cbn.
  rewrite list_insert_insert_eq, uint_to_int_id, udec_id by lia.
  destruct (after_value_ok (q - 1) n s ts num (mkTok JSMN_PRIMITIVE pos q 0)) as (ts' & -> & Hj & Hop);
    [by eapply toks_ok_mono; [|done]; lia|done || lia..| | |].
  { split; [cbn; lia|]. cbn. split; [lia|]. split; [lia|done]. }
  { unfold is_open. cbn. by rewrite (proj2 (Z.eqb_neq q (-1))), andb_false_r by lia. }
  eexists _, _, _. split; [done|]. split; [done|]. split; [done|]. cbn. rewrite Hop.
  unfold token_at. rewrite (proj2 (Z.eqb_neq n num)) by done. replace (q - 1 + 1) with q by lia.
  repeat split; (done || lia || (replace (q - 1 + 1) with q in Hj by lia; apply Hj)).
Qed.

Lemma char_sim p0 p ts num n0 count c :
  jinv p ts num count → p_pos p < len → p_pos p0 = p_pos p → p_toknext p0 = 0 →
  at_pos js (p_pos p) c → c ≠ 0 →
  step_sim num count (p_pos p) (judge_char js len num (p_pos p) (opens ts (Z.to_nat count)) count c)
    (jsmn_char js len p0 None n0 count c)
    (jsmn_char js len p (Some ts) num count c).
Proof.
  intros Hi Hl Hp0 Hn0 Hc Hz. unfold jsmn_char, judge_char.
  destruct (_ || _) eqn:E1.
  { eapply open_bracket_sim; try done. bool_inv. by destruct E1 as [?%Z.eqb_eq|?%Z.eqb_eq]; [left|right]. }
  destruct ((c =? ch "}") || _) eqn:E2.
  { eapply close_bracket_sim; try done. bool_inv. by destruct E2 as [?%Z.eqb_eq|?%Z.eqb_eq]; [left|right]. }
  destruct (Z.eqb_spec c QUOTE) as [->|Hnq]; [by apply string_sim|].
  assert (Hsame : ∀ s0, ∀ s, -1 <= s < p_toknext p →
    flow_sim num count (p_pos p) (More (p_pos p + 1) (opens ts (Z.to_nat count)) count)
      (Next (set_super p0 s0) None count)
      (Next (set_super p s) (Some ts) count)).
  { destruct p as [pos n sp], p0 as [pos0 nx sp0]. unfold jinv in *. cbn in *. subst.
    intros s0 s Hs. destruct Hi as (? & ? & ? & -> & ? & ? & ? & Hts).
    repeat split; try done; cbn; try lia. by eapply toks_ok_mono; [|done]; lia. }
  destruct ((c =? TAB) || _ || _ || _) eqn:E3.
  { eexists _, _, _. split; [done|]. split; [done|]. split; [done|].
    specialize (Hsame (p_toksuper p0) (p_toksuper p)).
    destruct p as [pos n sp], p0 as [pos0 nx sp0]. apply Hsame. by destruct Hi as (_&_&?&_). }
  destruct (c =? ch ":") eqn:E4.
  { eexists _, _, _. split; [done|]. split; [done|]. split; [done|]. apply Hsame.
    destruct Hi as (?&?&?&?&?&?&?&?). rewrite toknext_index by lia. lia. }
  destruct (c =? ch ",") eqn:E5; [by apply comma_sim|].
  apply primitive_sim with c; try done. unfold is_delim. bool_inv.
  rewrite !orb_false_iff, !Z.eqb_neq. naive_solver.
Qed.

(** A written token that is not open. *)
Definition closed (t : jsmntok_t) : Prop := tok_ok js len t ∧ is_open t = false.

Lemma finish_ok p ts num count :
  jinv p ts num count →
  ∃ r, jsmn_finish p (Some ts) count = Ok (r, p, Some ts) ∧
    passes_agree num (judge_end (opens ts (Z.to_nat count)) count) count r ∧
    (r = JSMN_ERROR_PART ∨ r = count ∧
      ∀ k : nat, Z.of_nat k < count → ∃ t, ts !! k = Some t ∧ closed t).
Proof.
  destruct p as [pos n s]. intros (Hpos & Hn & Hs & -> & Hnum & Hmax & Hnp & Hts).
  cbn in *. unfold jsmn_finish. cbn. rewrite toknext_index by lia.
  replace (Z.to_nat (n - 1 + 1)) with (Z.to_nat n) by lia.
  pose proof (last_open_opens ts (Z.to_nat n)) as Htop.
  destruct (last_open_ok js pos n ts (Z.to_nat n) Hts) as [[El Hc]|(i & t & El & Hi & _)]; [lia|..];
    rewrite El; destruct (Htop _ El) as [(Ei & ->)|(Hi0 & t1 & Hlk1 & -> & _)]; try lia.
  - exists n. split; [done|]. split; [done|]. right. split; [done|]. intros k Hk.
    destruct (Hts k Hk) as (t & Hl & Ho). exists t. split; [done|].
    split; [eapply tok_ok_mono; [|done]; lia|]. apply (Hc k); [lia|done].
  - exists JSMN_ERROR_PART. cbn. rewrite (proj2 (Z.eqb_neq i (-1))) by lia.
    split; [done|]. split; [done|by left].
Qed.

(** The counting pass alone does not fail, and its count only grows. *)
Definition count_flow (num count pos : Z) (f : flow) : Prop :=
  match f with
  | Return r _ None => r < 0
  | Next p' None count' =>
      p_toknext p' = 0 ∧ pos <= p_pos p' < len ∧ count <= count' <= count + 1
  | _ => False
  end.

Lemma count_value r q s0 n0 count pos :
  0 <= count < len → pos <= q < len → r <= 0 →
  ∃ f, after_value r (mkParser q 0 s0) None count = Ok f ∧ count_flow n0 count pos f.
Proof.
  intros Hc Hq Hr. unfold after_value. destruct (Z.ltb_spec r 0) as [|_].
  - eexists. split; [done|]. done.
  - rewrite int_add_id by (unfold INT_MIN, INT_MAX in *; lia). cbn.
    eexists. split; [done|]. cbn. split; [done|]. lia.
Qed.

Lemma count_char p0 n0 count c :
  0 <= count <= p_pos p0 → p_pos p0 < len → p_toknext p0 = 0 →
  at_pos js (p_pos p0) c → c ≠ 0 →
  ∃ f, jsmn_char js len p0 None n0 count c = Ok f ∧ count_flow n0 count (p_pos p0) f.
Proof.
  destruct p0 as [pos n s]. cbn. intros Hcnt Hl -> Hc Hz. unfold jsmn_char, open_bracket.
  rewrite int_add_id by (unfold INT_MIN, INT_MAX in *; lia). cbn -[string_scan primitive_scan].
  destruct (_ || _) eqn:E1; [eexists; split; [done|]; cbn; lia|].
  destruct ((c =? ch "}") || _) eqn:E2; [eexists; split; [done|]; cbn; lia|].
  destruct (Z.eqb_spec c QUOTE) as [->|Hnq].
  { unfold jsmn_parse_string. cbn -[string_scan]. rewrite uinc_id by lia.
    destruct (string_scan_ok (S (length js)) (pos + 1)) as ([q| |] & -> & Hr); [lia..| | |];
      cbn; rewrite ?uint_to_int_id, ?to_uint_id by (unfold UINT_MOD, INT_MAX in *; lia);
      apply count_value; unfold JSMN_ERROR_INVAL, JSMN_ERROR_PART; lia. }
  destruct ((c =? TAB) || _ || _ || _) eqn:E3; [eexists; split; [done|]; cbn; lia|].
  destruct (c =? ch ":") eqn:E4; [eexists; split; [done|]; cbn; lia|].
  destruct (c =? ch ",") eqn:E5; [eexists; split; [done|]; cbn; lia|].
  unfold jsmn_parse_primitive. cbn -[primitive_scan].
  destruct (primitive_scan_ok (S (length js)) pos) as ([q|] & -> & Hr); [lia..| |]; cbn.
  - destruct Hr as (? & _ & Hgt). assert (pos < q).
    { apply (Hgt c); [lia|done..|]. unfold is_delim. bool_inv.
      rewrite !orb_false_iff, !Z.eqb_neq. naive_solver. }
    rewrite udec_id by lia. apply count_value; lia.
  - rewrite uint_to_int_id, to_uint_id by (unfold UINT_MOD, INT_MAX in *; lia).
    apply count_value; unfold JSMN_ERROR_INVAL; lia.
Qed.

Lemma count_total fuel p0 n0 count :
  0 <= count <= p_pos p0 → p_pos p0 <= len → p_toknext p0 = 0 →
  len - p_pos p0 < Z.of_nat fuel →
  ∃ r p', jsmn_loop fuel js len p0 None n0 count = Ok (r, p', None) ∧
    (0 <= r → count <= r) ∧ r <= count + (len - p_pos p0).
Proof.
  revert p0 count. induction fuel as [|fuel IH]; intros p0 count Hc Hl Hn Hf; [lia|].
  cbn [jsmn_loop]. destruct (Z.ltb_spec (p_pos p0) len) as [Hlt|Hge].
  2: { cbn. eexists _, _. split; [done|lia]. }
  destruct (get_char (p_pos p0)) as (c & -> & Hc'); [lia|]. cbn [mbind res_bind].
  destruct (Z.eqb_spec c 0) as [->|Hz]; [cbn; eexists _, _; split; [done|lia]|].
  destruct (count_char p0 n0 count c) as (f & -> & Hf'); [done..|]. cbn [mbind res_bind].
  destruct f as [p' [|] count'|r p' [|]]; try done; cbn in Hf'.
  - destruct Hf' as (Hn' & Hp & Hcc). rewrite uinc_id by lia.
    destruct (IH (set_pos p' (p_pos p' + 1)) count') as (r & q & -> & Hr & Hb);
      [cbn; lia|cbn; lia|done|cbn; lia|].
    cbn in Hb. eexists _, _. split; [done|lia].
  - eexists _, _. split; [done|lia].
Qed.

Lemma loop_sim fuel p0 p ts num n0 count :
  jinv p ts num count → p_pos p0 = p_pos p → p_toknext p0 = 0 →
  len - p_pos p < Z.of_nat fuel →
  ∃ r0 p0' r p' ts',
    jsmn_loop fuel js len p0 None n0 count = Ok (r0, p0', None) ∧
    jsmn_loop fuel js len p (Some ts) num count = Ok (r, p', Some ts') ∧
    Z.of_nat (length ts') = num ∧
    (0 <= r0 → count <= r0) ∧ (r0 < 0 → r < 0) ∧
    (r = JSMN_ERROR_NOMEM → 0 <= r0 → num < r0) ∧
    (0 <= r → r = r0 ∧ ∀ k : nat, Z.of_nat k < r → ∃ t, ts' !! k = Some t ∧ closed t) ∧
    ∃ v, judge fuel js len num (p_pos p) (opens ts (Z.to_nat count)) count = Ok v ∧ passes_agree num v r0 r.
Proof.
  revert p0 p ts count. induction fuel as [|fuel IH]; intros p0 p ts count Hi Hp0 Hn0 Hf.
  { destruct Hi. lia. }
  pose proof Hi as (Hpos & ? & ? & Hcnt & Hnum & ?).
  assert (Hfin : ∃ r0 p0' r p' ts', jsmn_finish p0 None count = Ok (r0, p0', None) ∧
    jsmn_finish p (Some ts) count = Ok (r, p', Some ts') ∧
    Z.of_nat (length ts') = num ∧ (0 <= r0 → count <= r0) ∧ (r0 < 0 → r < 0) ∧
    (r = JSMN_ERROR_NOMEM → 0 <= r0 → num < r0) ∧
    (0 <= r → r = r0 ∧ ∀ k : nat, Z.of_nat k < r → ∃ t, ts' !! k = Some t ∧ closed t) ∧
    ∃ v, Ok (judge_end (opens ts (Z.to_nat count)) count) = Ok v ∧ passes_agree num v r0 r).
  { destruct (finish_ok p ts num count Hi) as (r & -> & Hv & Hr). cbn.
    eexists _, _, _, _, _. split; [done|]. split; [done|]. split; [done|].
    destruct Hr as [->|[-> Hc]]; try unfold JSMN_ERROR_PART in Hv; unfold JSMN_ERROR_PART, JSMN_ERROR_NOMEM;
      (split; [lia|]); (split; [lia|]); (split; [lia|]);
      (split; [first [done|intros; exfalso; lia]|]); by eexists. }
  cbn [jsmn_loop judge]. rewrite Hp0. destruct (Z.ltb_spec (p_pos p) len) as [Hl|Hl]; [|done].
  destruct (get_char (p_pos p)) as (c & -> & Hc); [lia|]. cbn [mbind res_bind].
  destruct (Z.eqb_spec c 0) as [->|Hz]; [done|].
  destruct (char_sim p0 p ts num n0 count c) as (g & f0 & f & -> & -> & -> & Hsim); [done..|].
  cbn [mbind res_bind]. destruct f0 as [p0' [|] count'|r0 p0' [|]]; try done;
    destruct f as [p' [ts'|] c'|r p' [ts'|]]; try done; cbn in Hsim.
  - destruct Hsim as (Hn' & Hq & Hcc & -> & Hpp & Hj & ->).
    rewrite Hpp in Hj |- *. rewrite uinc_id by lia.
    destruct (IH (set_pos p0' (p_pos p0' + 1)) (set_pos p' (p_pos p0' + 1)) ts' count')
      as (r0 & q0 & r & q & ts'' & -> & -> & Hlen' & Hr1 & Hr2 & Hr3 & Hr4 & Hr5);
      [done|done|done|cbn; lia|].
    eexists _, _, _, _, _. split; [done|]. split; [done|]. split; [done|].
    split; [lia|]. split; [done|]. split; [done|]. split; done.
  - destruct Hsim as (Hn' & Hq & Hcc & Hr & Hnm & Hlen' & Hg). rewrite uinc_id by lia.
    destruct (count_total fuel (set_pos p0' (p_pos p0' + 1)) n0 count')
      as (r0 & q0 & -> & Hr0 & _); [cbn; lia|cbn; lia|done|cbn; lia|].
    eexists _, _, _, _, _. split; [done|]. split; [done|]. split; [done|].
    split; [lia|]. split; [lia|].
    split; [intros ->; specialize (Hnm eq_refl); lia|]. split; [intros; exfalso; lia|].
    destruct Hg as [[-> ->]|[-> ->]]; (eexists; split; [done|]); [|done].
    specialize (Hnm eq_refl). cbn. split; [lia|done].
  - destruct Hsim as (Hr0 & Hr & Hlen' & -> & ->).
    eexists _, _, _, _, _. split; [done|]. split; [done|]. split; [done|].
    split; [lia|]. split; [lia|]. split; [intros; exfalso; lia|].
    split; [intros; exfalso; lia|]. by eexists.
Qed.

(** As many tokens as characters are always enough. *)
Lemma judge_room fuel num pos stack count :
  0 <= count <= pos → pos <= len → count <= num → judge fuel js len num pos stack count = Ok NoRoom → num < len.
Proof.
  revert pos stack count. induction fuel as [|fuel IH]; intros pos stack count Hc Hp Hn; [done|].
  cbn [judge]. assert (Hend : Ok (judge_end stack count) ≠ Ok NoRoom) by (by destruct stack).
  destruct (Z.ltb_spec pos len) as [Hl|Hl]; [|done].
  destruct (get_char pos) as (c & -> & Hc'); [lia|]. cbn [mbind res_bind].
  destruct (Z.eqb_spec c 0) as [|Hz]; [done|].
  assert (Htok : ∀ q st, pos < q <= len → match token_at num q st count with
    | Stop v => @Ok verdict v | More q st k => judge fuel js len num q st k end = Ok NoRoom → num < len).
  { intros q st Hq. unfold token_at. destruct (Z.eqb_spec count num); [intros; lia|]. apply IH; lia. }
  unfold judge_char, judge_open, judge_close, judge_string, judge_primitive.
  destruct ((c =? ch "{") || _) eqn:E1; [apply Htok; lia|].
  destruct ((c =? ch "}") || _) eqn:E2.
  { cbn [mbind res_bind]. destruct stack as [|ty stack]; [done|]. destruct (decide _); [|done]. apply IH; lia. }
  destruct (Z.eqb_spec c QUOTE) as [->|Hnq].
  { destruct (string_scan_ok (S (length js)) (pos + 1)) as ([q| |] & -> & Hr); [lia..| | |]; cbn [mbind res_bind];
      [apply Htok; lia|done..]. }
  destruct ((c =? TAB) || _ || _ || _ || _ || _) eqn:E3; [apply IH; lia|].
  destruct (primitive_scan_ok (S (length js)) pos) as ([q|] & -> & Hr); [lia..| |]; cbn [mbind res_bind]; [|done].
  destruct Hr as (? & _ & Hgt). apply Htok. split; [|lia]. apply (Hgt c); [done..|].
  unfold is_delim. bool_inv. rewrite !orb_false_iff, !Z.eqb_neq. naive_solver.
Qed.
End passes.

(** ** Properties *)

Lemma jinv_init js len ts :
  0 <= len → Z.of_nat (length ts) <= INT_MAX → jinv js len jsmn_init ts (Z.of_nat (length ts)) 0.
Proof.
  intros Hl Hmax. unfold jinv. cbn. repeat split; try lia. intros k Hk. lia.
Qed.

(** The count is at most the length, and a successful filling pass of an array
    of that size fills it. *)
Lemma count_bound js len :
  0 <= len <= Z.of_nat (length js) → len < INT_MAX →
  ∀ n p0 t0, jsmn_parse jsmn_init js len None 0 = Ok (n, p0, t0) →
  n <= len ∧
  ∀ ts r p toks, 0 <= n → Z.of_nat (length ts) = n →
    jsmn_parse jsmn_init js len (Some ts) n = Ok (r, p, toks) → 0 <= r → r = n.
Proof.
  intros Hjs Hlen n p0 t0 E0. unfold jsmn_parse in *.
  change (uint_to_int (p_toknext jsmn_init)) with 0 in *.
  destruct (count_total js len Hjs Hlen (S (length js)) jsmn_init 0 0)
    as (n' & p' & E & _ & Hle); [cbn; lia|cbn; lia|done|cbn; lia|].
  rewrite E in E0. injection E0 as -> -> <-. cbn in Hle. split; [lia|].
  intros ts r p toks Hn Hl E' Hr.
  destruct (loop_sim js len Hjs Hlen (S (length js)) jsmn_init jsmn_init ts (Z.of_nat (length ts)) 0 0)
    as (n2 & p2 & r' & p3 & ts2 & E2 & E3 & _ & _ & _ & _ & Hc & _);
    [apply jinv_init; lia|done|done|cbn; lia|].
  rewrite E in E2. injection E2 as <- _. rewrite Hl, E' in E3. injection E3 as <- _ _. by apply Hc.
Qed.

(** A successful filling pass of a full array leaves no negative size. *)
Lemma jsmn_parse_sizes js len ts r p toks :
  0 <= len <= Z.of_nat (length js) → len < INT_MAX → Z.of_nat (length ts) <= INT_MAX →
  jsmn_parse jsmn_init js len (Some ts) (Z.of_nat (length ts)) = Ok (r, p, toks) →
  r = Z.of_nat (length ts) →
  ∃ ts', toks = Some ts' ∧ Forall (λ t, 0 <= tok_size t) ts'.
Proof.
  intros Hjs Hlen Hmax E Hr. unfold jsmn_parse in E.
  change (uint_to_int (p_toknext jsmn_init)) with 0 in E.
  destruct (loop_sim js len Hjs Hlen (S (length js)) jsmn_init jsmn_init ts (Z.of_nat (length ts)) 0 0)
    as (n & p0 & r' & p' & ts2 & _ & E' & Hl & _ & _ & _ & Hc & _);
    [apply jinv_init; lia|done|done|cbn; lia|].
  rewrite E in E'. injection E' as -> -> ->. destruct Hc as [_ Hk]; [lia|].
  exists ts2. split; [done|]. apply Forall_lookup. intros k t Hkt.
  pose proof (lookup_lt_Some _ _ _ Hkt).
  destruct (Hk k) as (t' & Ht' & [[Hsz _] _]); [lia|]. assert (t' = t) as -> by congruence. lia.
Qed.

(** C19: The two passes of the tokenizer agree, whatever the input and whatever
    the token array holds before.  Both end without an access out of bounds or
    an overflow.  One scan with a stack of brackets and no token array ([judge])
    says what both return ([passes_agree]): when the input is well formed, the
    filling pass returns exactly the count of the counting pass; when a string
    or a primitive is malformed, both return the same error; the filling pass
    differs only where brackets do not match ([JSMN_ERROR_INVAL]), where some are
    left open ([JSMN_ERROR_PART]), and where the array is too small
    ([JSMN_ERROR_NOMEM]), which it is not when the count fits it, nor when it is
    as long as the input. *)
Theorem jsmn_passes_agree (js : list Z) (len : Z) (ts : list jsmntok_t) (n0 : Z) :
  0 <= len <= Z.of_nat (length js) → len < INT_MAX → Z.of_nat (length ts) <= INT_MAX →
  ∃ n p0 r p ts' v,
    jsmn_parse jsmn_init js len None n0 = Ok (n, p0, None) ∧
    jsmn_parse jsmn_init js len (Some ts) (Z.of_nat (length ts)) = Ok (r, p, Some ts') ∧
    length ts' = length ts ∧
    judge (S (length js)) js len (Z.of_nat (length ts)) 0 [] 0 = Ok v ∧
    passes_agree (Z.of_nat (length ts)) v n r ∧
    (len <= Z.of_nat (length ts) → v ≠ NoRoom) ∧
    (n < 0 → r < 0) ∧
    (0 <= n <= Z.of_nat (length ts) → r ≠ JSMN_ERROR_NOMEM) ∧
    (0 <= r → r = n).
Proof.
  intros Hjs Hlen Hmax. unfold jsmn_parse.
  destruct (loop_sim js len Hjs Hlen (S (length js)) jsmn_init jsmn_init ts (Z.of_nat (length ts)) n0 0)
    as (n & p0 & r & p & ts' & E0 & E & Hl & _ & Hneg & Hnm & Hr & v & Ev & Hv);
    [apply jinv_init; lia|done|done|cbn; lia|].
  exists n, p0, r, p, ts', v. split; [exact E0|]. split; [exact E|]. split; [lia|].
  split; [exact Ev|]. split; [done|]. split.
  { intros Hle ->. apply (judge_room js len Hjs Hlen) in Ev; cbn; lia. }
  split; [done|]. split; [lia|]. intros H. by apply Hr.
Qed.

(** An object that is well formed and one whose last bracket is of the wrong
    kind; the counting pass finds five tokens in both. *)
Lemma jsmn_passes_agree_witness :
  let js := chars "{a: [1, x]}" in
  let ts := replicate 5 (mkTok JSMN_UNDEFINED 7 7 7) in
  (∃ p ts', jsmn_parse jsmn_init js (Z.of_nat (length js)) (Some ts) 5 = Ok (5, p, Some ts')) ∧
  ∃ p ts', jsmn_parse jsmn_init (chars "{a: [1, x}}") 11 (Some ts) 5 = Ok (JSMN_ERROR_INVAL, p, Some ts').
Proof.
  intros js ts. split.
  - destruct (jsmn_passes_agree js (Z.of_nat (length js)) ts 0)
      as (n & p0 & r & p & ts' & v & E0 & E & _ & Ev & Hv & _);
      [vm_compute; split; discriminate|vm_compute; done|vm_compute; discriminate|].
    vm_compute in Ev. injection Ev as <-. destruct Hv as [_ ->]. by exists p, ts'.
  - destruct (jsmn_passes_agree (chars "{a: [1, x}}") 11 ts 0)
      as (n & p0 & r & p & ts' & v & E0 & E & _ & Ev & Hv & _);
      [vm_compute; split; discriminate|vm_compute; done|vm_compute; discriminate|].
    vm_compute in Ev. injection Ev as <-. cbn in Hv. subst r. by exists p, ts'.
Defined.

(** C18: When the filling pass succeeds, every token it returns delimits what
    its type says: an object or array runs from its opening bracket to just
    after the matching kind of closing bracket, a string is what stands
    between two quotes, a primitive is a non-empty run of printable characters
    that holds no delimiter; all of them lie inside the input and none is left
    open. *)
Theorem jsmn_tokens_delimit (js : list Z) (len : Z) (ts : list jsmntok_t) (r : Z)
    (p : jsmn_parser) (ts' : list jsmntok_t) :
  0 <= len <= Z.of_nat (length js) → len < INT_MAX → Z.of_nat (length ts) <= INT_MAX →
  jsmn_parse jsmn_init js len (Some ts) (Z.of_nat (length ts)) = Ok (r, p, Some ts') →
  0 <= r →
  r <= Z.of_nat (length ts') ∧
  Forall (λ t, tok_ok js len t ∧
    0 <= tok_start t <= tok_end t ∧ tok_end t <= len)
    (take (Z.to_nat r) ts').
Proof.
  intros Hjs Hlen Hmax E Hr. unfold jsmn_parse in E.
  change (uint_to_int (p_toknext jsmn_init)) with 0 in E.
  destruct (loop_sim js len Hjs Hlen (S (length js)) jsmn_init jsmn_init ts (Z.of_nat (length ts)) 0 0)
    as (n & p0 & r' & p' & ts2 & _ & E' & Hl & _ & _ & _ & Hc & _);
    [apply jinv_init; lia|done|done|cbn; lia|].
  rewrite E in E'. injection E' as -> -> ->. destruct (Hc Hr) as [_ Hk].
  split.
  - destruct (decide (r' = 0)) as [->|]; [lia|].
    destruct (Hk (Z.to_nat (r' - 1))) as (t & Ht%lookup_lt_Some & _); lia.
  - apply Forall_lookup. intros k t [Hl1 Hl2]%lookup_take_Some.
    destruct (Hk k) as (t' & Hl3 & [Hok Hcl]); [lia|].
    assert (t' = t) as -> by congruence. split; [done|].
    destruct Hok as [_ Hok]. unfold is_open in Hcl. unfold container_ok in Hok.
    apply andb_false_iff in Hcl. rewrite negb_false_iff, Z.eqb_eq, Z.eqb_neq in Hcl.
    destruct (tok_type t); [done|..]; lia.
Qed.

Lemma jsmn_tokens_delimit_witness :
  let js := chars "[7]" in
  let ts := [mkTok JSMN_OBJECT 0 0 0; mkTok JSMN_UNDEFINED 0 0 0] in
  ∃ p ts', jsmn_parse jsmn_init js 3 (Some ts) 2 = Ok (2, p, Some ts') ∧
    Forall (λ t, 0 <= tok_start t <= tok_end t) ts'.
Proof.
  intros js ts.
  destruct (jsmn_parse jsmn_init js 3 (Some ts) 2) as [[[r p] [ts'|]]|] eqn:E;
    [|vm_compute in E; discriminate..].
  assert (r = 2) as -> by (vm_compute in E; by injection E as <- _ _).
  exists p, ts'. split; [done|].
  destruct (jsmn_tokens_delimit js 3 ts 2 p ts') as [_ H];
    [vm_compute; split; discriminate|vm_compute; done|vm_compute; discriminate|exact E|lia|].
  assert (length ts' = 2%nat) as Hl by (vm_compute in E; by injection E as _ <-).
  change (Z.to_nat 2) with 2%nat in H. rewrite <- Hl, firstn_all in H.
  eapply Forall_impl; [exact H|]. intros t (_ & Ht & _). exact Ht.
Defined.
