(* ===== verification/LocalityText.v ===== *)
(** * Locale names in a locality file

    The string routines of [src/src/hclib-locality-graph.c]: decimal printing
    and the interpreter of the [$(id / 2)] placeholders that a path may hold in
    a locale name, with an abstract syntax of such names and the theorem that
    interpreting a printed name evaluates it.

    A C string is the list of its characters, the terminating NUL left out; a
    pointer into it is the suffix it points to. *)

From S2P Require Import Prelude.
From stdpp Require Import options.

(** ** The C library *)

Definition is_digit (c : Z) : bool := (48 <=? c) && (c <=? 57).
Definition is_space (c : Z) : bool := (c =? 32) || ((9 <=? c) && (c <=? 13)).

Fixpoint digits_val (acc : Z) (s : list Z) : Z :=
  match s with
  | c :: s => if is_digit c then digits_val (10 * acc + (c - 48)) s else acc
  | [] => acc
  end.

Fixpoint skip_space (s : list Z) : list Z :=
  match s with
  | c :: s' => if is_space c then skip_space s' else s
  | [] => []
  end.

(** [atoi]: undefined when the value is out of range. *)
Definition atoi (s : list Z) : res Z :=
  match skip_space s with
  | c :: s' =>
      if c =? ch "-" then to_int (- digits_val 0 s')
      else if c =? ch "+" then to_int (digits_val 0 s')
      else to_int (digits_val 0 (c :: s'))
  | [] => Ok 0
  end.

(** ** Printing *)

(** Swapping from both ends reverses the string.

    src/src/hclib-locality-graph.c:124-129 (strreverse) *)
Definition strreverse (s : list Z) : list Z := rev s.

(** [num[d]] *)
Definition digit_char (d : Z) : Z := if d <? 10 then 48 + d else 87 + d.

(** The characters in the order they are written; a 32-bit value has at most
    31 digits.

    src/src/hclib-locality-graph.c:146-146 (itoa) *)
Fixpoint itoa_loop (fuel : nat) (value base : Z) : res (list Z) :=
  match fuel with
  | O => Err OutOfFuel
  | S fuel =>
      d ← int_rem value base;
      value ← int_div value base;
      s ← (if value =? 0 then Ok [] else itoa_loop fuel value base);
      Ok (digit_char d :: s)
  end.

(** src/src/hclib-locality-graph.c:134-152 (itoa) *)
Definition itoa (value base : Z) : res (list Z) :=
  if (base <? 2) || (base >? 35) then Ok []
  else
    let sign := value in
    value ← (if value <? 0 then int_sub 0 value else Ok value);
    s ← itoa_loop 32 value base;
    Ok (strreverse (if sign <? 0 then s ++ [ch "-"] else s)).

(** ** Interpreting *)

Fixpoint skip_blanks (pc : list Z) : list Z :=
  match pc with
  | c :: pc' => if c =? ch " " then skip_blanks pc' else pc
  | [] => []
  end.

Fixpoint span_digits (pc : list Z) : list Z * list Z :=
  match pc with
  | c :: pc' =>
      if is_digit c then let '(d, r) := span_digits pc' in (c :: d, r) else ([], pc)
  | [] => ([], [])
  end.

(** The digits are copied to a buffer of 1024 bytes.

    src/src/hclib-locality-graph.c:154-176 (parse_value) *)
Definition parse_value (pc : list Z) (worker_id : Z) : res (Z * list Z) :=
  match skip_blanks pc with
  | [] => Err AssertFail
  | c :: pc' =>
      if (c =? ch "i") && bool_decide (head pc' = Some (ch "d"))
      then Ok (worker_id, tail pc')
      else
        let '(digits, rest) := span_digits (c :: pc') in
        _ ← (if Z.of_nat (length digits) <? 1024 then Ok tt else Err BadDeref);
        v ← atoi digits;
        Ok (v, rest)
  end.

(** src/src/hclib-locality-graph.c:67-70 (LOCALE_OP) *)
Inductive LOCALE_OP := DIVIDE | REMAINDER.

(** src/src/hclib-locality-graph.c:178-194 (parse_op) *)
Definition parse_op (pc : list Z) : res (LOCALE_OP * list Z) :=
  match skip_blanks pc with
  | [] => Err AssertFail
  | c :: pc' =>
      if c =? ch "/" then Ok (DIVIDE, pc')
      else if c =? ch "%" then Ok (REMAINDER, pc')
      else Err (ExitCode 1)
  end.

(** src/src/hclib-locality-graph.c:212-222 (interpret_locale) *)
Definition apply_op (op : LOCALE_OP) (value_so_far next_value : Z) : res Z :=
  match op with
  | DIVIDE => int_div value_so_far next_value
  | REMAINDER => int_rem value_so_far next_value
  end.

(** src/src/hclib-locality-graph.c:208-223 (interpret_locale) *)
Fixpoint interpret_ops (fuel : nat) (pc : list Z) (worker_id value_so_far : Z)
    : res (Z * list Z) :=
  match fuel with
  | O => Err OutOfFuel
  | S fuel =>
      if bool_decide (head pc = Some (ch ")")) then Ok (value_so_far, pc)
      else
        '(op, pc) ← parse_op pc;
        '(next_value, pc) ← parse_value pc worker_id;
        value_so_far ← apply_op op value_so_far next_value;
        interpret_ops fuel pc worker_id value_so_far
  end.

(** Appending to [result], a buffer of 1024 bytes. *)
Definition emit (out s : list Z) : res (list Z) :=
  if Z.of_nat (length (out ++ s)) <=? 1024 then Ok (out ++ s) else Err BadDeref.

(** src/src/hclib-locality-graph.c:203-233 (interpret_locale) *)
Fixpoint interpret_loop (fuel : nat) (pc out : list Z) (worker_id : Z)
    : res (list Z) :=
  match fuel with
  | O => Err OutOfFuel
  | S fuel =>
      match pc with
      | [] => Ok out
      | c :: pc' =>
          if (c =? ch "$") && bool_decide (head pc' = Some (ch "(")) then
            '(value_so_far, pc) ← parse_value (tail pc') worker_id;
            '(value_so_far, pc) ← interpret_ops (S (length pc)) pc worker_id value_so_far;
            buf ← itoa value_so_far 10;
            out ← emit out buf;
            interpret_loop fuel (tail pc) out worker_id
          else
            out ← emit out [c];
            interpret_loop fuel pc' out worker_id
      end
  end.

(** The terminating NUL must fit too.

    src/src/hclib-locality-graph.c:196-237 (interpret_locale) *)
Definition interpret_locale (locale_name : list Z) (worker_id : Z) : res (list Z) :=
  out ← interpret_loop (S (length locale_name)) locale_name [] worker_id;
  _ ← emit out [0];
  Ok out.

(** ** Abstract syntax of locale names *)

Inductive value := Id | Num (n : Z).

(** A literal character or a placeholder, with the blanks before each value
    and operator. *)
Inductive piece :=
  | Lit (c : Z)
  | Expr (sp : nat) (v : value) (ops : list (nat * LOCALE_OP * nat * value)).

Definition blanks (n : nat) : list Z := replicate n (ch " ").
Definition dec (n : Z) : list Z := match itoa n 10 with Ok s => s | Err _ => [] end.

Definition print_value (v : value) : list Z :=
  match v with Id => chars "id" | Num n => dec n end.
Definition print_op (op : LOCALE_OP) : Z :=
  match op with DIVIDE => ch "/" | REMAINDER => ch "%" end.
Definition print_term (t : nat * LOCALE_OP * nat * value) : list Z :=
  let '(n, op, m, v) := t in blanks n ++ print_op op :: blanks m ++ print_value v.
Definition print_piece (p : piece) : list Z :=
  match p with
  | Lit c => [c]
  | Expr sp v ops =>
      ch "$" :: ch "(" :: blanks sp ++ print_value v ++ concat (print_term <$> ops) ++ [ch ")"]
  end.
Definition print (ps : list piece) : list Z := concat (print_piece <$> ps).

Definition eval_value (w : Z) (v : value) : Z := match v with Id => w | Num n => n end.
Fixpoint eval_ops (w acc : Z) (ops : list (nat * LOCALE_OP * nat * value)) : res Z :=
  match ops with
  | [] => Ok acc
  | (_, op, _, v) :: ops => acc ← apply_op op acc (eval_value w v); eval_ops w acc ops
  end.
Fixpoint eval (w : Z) (ps : list piece) : res (list Z) :=
  match ps with
  | [] => Ok []
  | Lit c :: ps => s ← eval w ps; Ok (c :: s)
  | Expr _ v ops :: ps =>
      x ← eval_ops w (eval_value w v) ops;
      d ← itoa x 10;
      s ← eval w ps;
      Ok (d ++ s)
  end.

Definition value_ok (v : value) : Prop :=
  match v with Id => True | Num n => 0 <= n <= INT_MAX end.
Definition piece_ok (p : piece) : Prop :=
  match p with
  | Lit c => c ≠ ch "$"
  | Expr _ v ops => value_ok v ∧ Forall (λ t, value_ok t.2) ops
  end.

(** ** Lemmas *)

Lemma digits_val_app acc s c :
  Forall (λ c, is_digit c = true) s → is_digit c = true →
  digits_val acc (s ++ [c]) = 10 * digits_val acc s + (c - 48).
Proof.
  intros Hs Hc. revert acc. induction Hs as [|x s Hx Hs IH]; intros acc; cbn.
  - by rewrite Hc.
  - by rewrite Hx, IH.
Qed.

Lemma digit_char_ok d : 0 <= d < 10 → is_digit (digit_char d) = true ∧ digit_char d - 48 = d.
Proof.
  intros Hd. unfold digit_char, is_digit. rewrite (proj2 (Z.ltb_lt d 10)) by lia.
  rewrite !(proj2 (Z.leb_le _ _)) by lia. split; [done|lia].
Qed.

(** The digits of a non-negative value: their number is bounded by the fuel,
    and reading them back in reverse gives the value. *)
Lemma itoa_loop_ok fuel v :
  0 <= v <= INT_MAX → v < 10 ^ Z.of_nat fuel → fuel ≠ 0%nat →
  ∃ s, itoa_loop fuel v 10 = Ok s ∧ Forall (λ c, is_digit c = true) s ∧ s ≠ [] ∧
    (length s <= fuel)%nat ∧ digits_val 0 (rev s) = v.
Proof.
  revert v. induction fuel as [|fuel IH]; intros v Hv Hf Hz; [done|]. cbn [itoa_loop].
  rewrite int_rem_pos by lia. cbn [mbind res_bind].
  assert (int_div v 10 = Ok (v / 10)) as ->.
  { unfold int_div. cbn. rewrite Z.quot_div_nonneg by lia. apply to_int_id.
    pose proof (Z.div_pos v 10). pose proof (Z.div_le_upper_bound v 10 INT_MAX).
    unfold INT_MIN, INT_MAX in *. lia. }
  cbn [mbind res_bind].
  pose proof (Z.mod_pos_bound v 10 ltac:(lia)) as Hm.
  pose proof (Z.div_mod v 10 ltac:(lia)) as Hd.
  destruct (digit_char_ok (v mod 10) Hm) as [Hdc Hdv].
  destruct (Z.eqb_spec (v / 10) 0) as [E|E]; cbn [mbind res_bind].
  - eexists. split; [done|]. split; [by repeat constructor|]. split; [done|].
    split; [cbn; lia|]. cbn. rewrite Hdc. lia.
  - destruct (IH (v / 10)) as (s & -> & Hs & Hne & Hl & Hval).
    + split; [apply Z.div_pos; lia|]. apply Z.div_le_upper_bound; lia.
    + apply Z.div_lt_upper_bound; [lia|]. rewrite Nat2Z.inj_succ, Z.pow_succ_r in Hf; lia.
    + intros ->. cbn in Hf. assert (v / 10 < 1) by (apply Z.div_lt_upper_bound; lia).
      pose proof (Z.div_pos v 10). lia.
    + cbn [mbind res_bind]. eexists. split; [done|]. split; [by constructor|]. split; [done|].
      split; [cbn; lia|]. cbn [rev]. rewrite digits_val_app; [lia| |done]. by apply Forall_rev.
Qed.

Lemma itoa_ok v :
  INT_MIN < v <= INT_MAX →
  ∃ s, itoa v 10 = Ok (if v <? 0 then ch "-" :: s else s) ∧
    Forall (λ c, is_digit c = true) s ∧ s ≠ [] ∧ (length s <= 32)%nat ∧
    digits_val 0 s = Z.abs v.
Proof.
  intros Hv. unfold itoa. cbn [Z.ltb Z.gtb Z.compare orb].
  assert ((if v <? 0 then int_sub 0 v else Ok v) = Ok (Z.abs v)) as ->.
  { destruct (Z.ltb_spec v 0); [|f_equal; lia].
    rewrite int_sub_id by (unfold INT_MIN, INT_MAX in *; lia). f_equal. lia. }
  cbn [mbind res_bind].
  destruct (itoa_loop_ok 32 (Z.abs v)) as (s & -> & Hs & Hne & Hl & Hval);
    [unfold INT_MIN, INT_MAX in *; lia|unfold INT_MIN, INT_MAX in *; cbn; lia|done|].
  cbn [mbind res_bind]. exists (rev s). unfold strreverse. split.
  - destruct (v <? 0); [|done]. by rewrite rev_app_distr.
  - split; [by apply Forall_rev|]. split; [|by rewrite length_rev].
    intros E. apply Hne. by rewrite <- (rev_involutive s), E.
Qed.

Lemma digit_not_sign c :
  is_digit c = true → is_space c = false ∧ c ≠ ch "-" ∧ c ≠ ch "+" ∧ c ≠ ch " ".
Proof.
  unfold is_digit, is_space. intros H. bool_inv.
  change (ch "-") with 45. change (ch "+") with 43. change (ch " ") with 32.
  split; [|lia]. rewrite (proj2 (Z.eqb_neq c 32)), (proj2 (Z.leb_gt c 13)) by lia.
  cbn. by rewrite andb_false_r.
Qed.

Lemma atoi_digits s :
  Forall (λ c, is_digit c = true) s → atoi s = to_int (digits_val 0 s).
Proof.
  intros Hs. unfold atoi. destruct Hs as [|c s Hc Hs]; [done|].
  destruct (digit_not_sign c Hc) as (H1 & H2 & H3 & _). cbn [skip_space]. rewrite H1.
  by rewrite !(proj2 (Z.eqb_neq _ _)).
Qed.

Lemma skip_blanks_blanks n s c : c ≠ ch " " → skip_blanks (blanks n ++ c :: s) = c :: s.
Proof.
  intros Hc. induction n as [|n IH]; cbn; [by rewrite (proj2 (Z.eqb_neq _ _))|done].
Qed.

Lemma span_digits_app d s :
  Forall (λ c, is_digit c = true) d → (∀ c, head s = Some c → is_digit c = false) →
  span_digits (d ++ s) = (d, s).
Proof.
  intros Hd Hs. induction Hd as [|c d Hc Hd IH]; cbn.
  - destruct s as [|c s]; [done|]. cbn. by rewrite (Hs c).
  - by rewrite Hc, IH.
Qed.

Lemma dec_ok n :
  0 <= n <= INT_MAX →
  itoa n 10 = Ok (dec n) ∧ Forall (λ c, is_digit c = true) (dec n) ∧ dec n ≠ [] ∧
  (length (dec n) <= 32)%nat ∧ digits_val 0 (dec n) = n.
Proof.
  intros Hn. unfold dec. destruct (itoa_ok n) as (s & E & Hs & Hne & Hl & Hv);
    [unfold INT_MIN; lia|]. rewrite (proj2 (Z.ltb_ge n 0)) in E by lia. rewrite E.
  split; [done|]. split; [done|]. split; [done|]. split; [done|]. lia.
Qed.

(** What stands after a value in a printed placeholder. *)
Definition value_end (s : list Z) : Prop :=
  ∃ c s', s = c :: s' ∧ is_digit c = false.

Lemma parse_value_print n v s w :
  value_ok v → value_end s →
  parse_value (blanks n ++ print_value v ++ s) w = Ok (eval_value w v, s).
Proof.
  intros Hv (c & s' & -> & Hc). unfold parse_value. destruct v as [|k].
  - change (print_value Id) with [ch "i"; ch "d"]. cbn [app].
    rewrite skip_blanks_blanks by done. done.
  - cbn in Hv. destruct (dec_ok k Hv) as (_ & Hd & Hne & Hl & Hval). cbn [print_value].
    destruct (dec k) as [|x d] eqn:E; [done|]. cbn [app].
    pose proof (Forall_inv Hd) as Hx. destruct (digit_not_sign x Hx) as (_ & _ & _ & Hb).
    rewrite skip_blanks_blanks by done.
    assert ((x =? ch "i") = false) as ->.
    { apply Z.eqb_neq. intros ->. done. }
    cbn [andb].
    change (x :: d ++ c :: s') with ((x :: d) ++ c :: s').
    rewrite span_digits_app by (done || (intros ? [= <-]; done)).
    rewrite (proj2 (Z.ltb_lt _ _)) by lia. cbn [mbind res_bind].
    rewrite atoi_digits, Hval by done. rewrite to_int_id by (unfold INT_MIN; lia). done.
Qed.

Lemma print_term_end t s : value_end (print_term t ++ s).
Proof.
  destruct t as [[[n op] m] v]. cbn. unfold blanks. destruct n as [|n]; cbn.
  - destruct op; eexists _, _; (split; [done|done]).
  - eexists _, _. split; [done|done].
Qed.

Lemma ops_end ops s : value_end (concat (print_term <$> ops) ++ ch ")" :: s).
Proof.
  destruct ops as [|t ops]; cbn -[print_term].
  - eexists _, _. split; [done|done].
  - rewrite <- app_assoc. apply print_term_end.
Qed.

Lemma interpret_ops_print ops s w acc x fuel :
  Forall (λ t, value_ok t.2) ops → eval_ops w acc ops = Ok x →
  (length ops < fuel)%nat →
  interpret_ops fuel (concat (print_term <$> ops) ++ ch ")" :: s) w acc = Ok (x, ch ")" :: s).
Proof.
  intros Hok. revert acc fuel. induction Hok as [|t ops Ht Hok IH]; intros acc fuel Hx Hf.
  - destruct fuel; [cbn in *; lia|]. cbn in Hx. injection Hx as ->. done.
  - destruct fuel as [|fuel]; [cbn in *; lia|]. destruct t as [[[n op] m] v]. cbn in Ht.
    cbn [eval_ops] in Hx. apply bind_Ok in Hx as (acc' & Hop & Hx).
    cbn [fmap list_fmap concat print_term]. cbn [interpret_ops].
    set (rest := concat (print_term <$> ops) ++ ch ")" :: s).
    replace ((blanks n ++ print_op op :: blanks m ++ print_value v) ++
      concat (print_term <$> ops)) with
      (blanks n ++ print_op op :: (blanks m ++ print_value v ++ concat (print_term <$> ops)))
      by (rewrite <- !app_assoc; cbn; by rewrite <- !app_assoc).
    rewrite <- app_assoc. cbn [app]. rewrite <- !app_assoc. fold rest.
    assert (bool_decide (head (blanks n ++ print_op op :: blanks m ++ print_value v ++ rest) =
      Some (ch ")")) = false) as ->.
    { apply bool_decide_eq_false. destruct n; cbn; [by destruct op|done]. }
    assert (parse_op (blanks n ++ print_op op :: blanks m ++ print_value v ++ rest) =
      Ok (op, blanks m ++ print_value v ++ rest)) as ->.
    { unfold parse_op. rewrite skip_blanks_blanks by (by destruct op). by destruct op. }
    cbn [mbind res_bind]. rewrite parse_value_print by (done || apply ops_end).
    cbn [mbind res_bind]. rewrite Hop. cbn [mbind res_bind]. apply IH; [done|cbn in Hf; lia].
Qed.

Lemma length_print_terms ops : (length ops <= length (concat (print_term <$> ops)))%nat.
Proof.
  induction ops as [|[[[n op] m] v] ops IH]; cbn; [lia|].
  rewrite !length_app. cbn. rewrite length_app. lia.
Qed.

Lemma emit_ok out s : Z.of_nat (length out + length s) <= 1024 → emit out s = Ok (out ++ s).
Proof.
  intros H. unfold emit. by rewrite (proj2 (Z.leb_le _ _)) by (rewrite length_app; lia).
Qed.

Lemma interpret_print ps w s out fuel :
  Forall piece_ok ps → eval w ps = Ok s → Z.of_nat (length out + length s) < 1024 →
  (length (print ps) < fuel)%nat →
  interpret_loop fuel (print ps) out w = Ok (out ++ s).
Proof.
  intros Hok. revert s out fuel. induction Hok as [|p ps Hp Hok IH]; intros s out fuel Hs Hl Hf.
  - destruct fuel; [cbn in *; lia|]. cbn in Hs. injection Hs as <-. cbn. by rewrite app_nil_r.
  - destruct fuel as [|fuel]; [lia|]. unfold print in *. cbn [fmap list_fmap concat] in *.
    rewrite length_app in Hf. fold (print ps) in *. destruct p as [c|sp v ops].
    + cbn [eval] in Hs. apply bind_Ok in Hs as (s' & Hs & [= <-]).
      cbn [print_piece app interpret_loop length] in *.
      rewrite (proj2 (Z.eqb_neq c _)) by done. cbn [andb].
      rewrite emit_ok by (cbn; lia). cbn [mbind res_bind].
      rewrite (IH s'); [by rewrite <- app_assoc|done| |lia].
      rewrite length_app. cbn. lia.
    + destruct Hp as [Hv Hops]. cbn [eval] in Hs.
      apply bind_Ok in Hs as (x & Hx & Hs). apply bind_Ok in Hs as (d & Hd & Hs).
      apply bind_Ok in Hs as (s' & Hs & [= <-]). rewrite length_app in Hl.
      cbn [print_piece app interpret_loop length] in *.
      assert ((ch "$" =? ch "$") && bool_decide (head (ch "(" ::
        (blanks sp ++ print_value v ++ concat (print_term <$> ops) ++ [ch ")"]) ++ print ps) =
        Some (ch "(")) = true) as ->.
      { rewrite Z.eqb_refl. by apply bool_decide_eq_true. }
      cbn [tail]. rewrite <- !app_assoc. cbn [app].
      rewrite parse_value_print by (done || apply ops_end). cbn [mbind res_bind].
      rewrite (interpret_ops_print _ _ _ _ x) by
        (done || (pose proof (length_print_terms ops); rewrite length_app; lia)).
      cbn [mbind res_bind]. rewrite Hd. cbn [mbind res_bind].
      rewrite emit_ok by lia. cbn [mbind res_bind tail].
      rewrite (IH s'); [by rewrite <- app_assoc|done| |lia].
      rewrite length_app. lia.
Qed.

(** ** Properties *)

(** Printing and reading a number are inverse: for every [int] but the
    smallest, [itoa] in base 10 terminates without overflow, and [atoi] reads
    back the value from its output. *)
Theorem itoa_atoi_roundtrip (v : Z) :
  INT_MIN < v <= INT_MAX →
  ∃ s, itoa v 10 = Ok s ∧ atoi s = Ok v ∧ (length s <= 33)%nat.
Proof.
  intros Hv. destruct (itoa_ok v Hv) as (s & -> & Hs & Hne & Hl & Hval).
  eexists. split; [done|]. destruct (Z.ltb_spec v 0) as [Hneg|Hpos].
  - split; [|cbn; lia]. unfold atoi. cbn [skip_space]. change (is_space (ch "-")) with false.
    cbn [negb]. rewrite Z.eqb_refl, Hval. replace (- Z.abs v) with v by lia.
    apply to_int_id. lia.
  - split; [|lia]. rewrite atoi_digits, Hval by done.
    replace (Z.abs v) with v by lia. apply to_int_id. lia.
Qed.

Lemma itoa_atoi_roundtrip_witness :
  itoa (-2147483647) 10 = Ok (chars "-2147483647") ∧
  atoi (chars "-2147483647") = Ok (-2147483647).
Proof.
  destruct (itoa_atoi_roundtrip (-2147483647)) as (s & E & H & _);
    [unfold INT_MIN, INT_MAX; lia|].
  vm_compute in E. injection E as <-. split; [reflexivity|exact H].
Defined.

(** C26: [interpret_locale] evaluates the names of a locality path: for every
    name made of literal characters and of placeholders [$(v op v ...)] over
    the worker's id and constants, with any blanks before the values and
    operators, if the value of the name is defined and fits the buffer then
    the interpreter terminates and returns it. *)
Theorem interpret_locale_evaluates (ps : list piece) (w : Z) (s : list Z) :
  Forall piece_ok ps → eval w ps = Ok s → Z.of_nat (length s) < 1024 →
  interpret_locale (print ps) w = Ok s.
Proof.
  intros Hok Hs Hl. unfold interpret_locale.
  rewrite (interpret_print ps w s []) by (done || lia). cbn [mbind res_bind app].
  rewrite emit_ok by (cbn; lia). done.
Qed.

Lemma interpret_locale_evaluates_witness :
  print [Lit (ch "L"); Lit (ch "2"); Expr 0 Id [(1%nat, DIVIDE, 1%nat, Num 2)]] =
    chars "L2$(id / 2)" ∧
  interpret_locale (chars "L2$(id / 2)") 7 = Ok (chars "L23").
Proof.
  split; [vm_compute; reflexivity|].
  apply (interpret_locale_evaluates
    [Lit (ch "L"); Lit (ch "2"); Expr 0 Id [(1%nat, DIVIDE, 1%nat, Num 2)]]).
  - repeat constructor; vm_compute; congruence.
  - vm_compute. reflexivity.
  - cbn. lia.
Defined.
