(* ===== verification/Locality.v ===== *)
(** * The locality graph: loading it and asking it questions

    [src/src/hclib-locality-graph.c] up to the runtime part, and its queries:
    known locale types, the loader of a locality file (on top of [Jsmn] and
    [LocalityText]), the generated default graph, the check that marks the
    reachable locales, private and central locales, and the breadth-first
    search for the closest locale of some types.  [LocalityRun] has the part
    that schedules tasks.

    A pointer to a locale is its index in [graph->locales].  The contents of
    the file, the environment variable and the number of processors are
    arguments. *)

From S2P Require Import Prelude Deque FptrList Jsmn LocalityText.
From stdpp Require Import options.

(** ** Data *)

(** [loc_reachable] is [None] until [check_locality_graph] writes it, and
    [loc_deques] has one deque per worker.

    src/inc/hclib-locality-graph.h:56-67 (hclib_locale_t) *)
Record hclib_locale_t := mkLocale {
  loc_id : Z;
  loc_type : Z;
  loc_lbl : list Z;
  loc_special_type : option (list Z);
  loc_metadata : Z;
  loc_idle_funcs : list Z;
  loc_reachable : option bool;
  loc_deques : list hclib_internal_deque_t
}.

(** [n_locales] is the length of [gr_locales]; an edge never written is
    [None].

    src/inc/hclib-locality-graph.h:69-73 (hclib_locality_graph) *)
Record hclib_locality_graph := mkGraph {
  gr_locales : list hclib_locale_t;
  gr_edges : list (option Z)
}.

(** A path ([hclib_locality_path]) is the list of its locales, by index. *)
Notation hclib_locality_path := (list Z).

(** src/inc/hclib-locality-graph.h:80-84 (hclib_worker_paths) *)
Record hclib_worker_paths := mkPaths {
  pop_path : hclib_locality_path;
  steal_path : hclib_locality_path;
  last_successful_steal_locale : Z
}.

(** The file's static variables.

    src/src/hclib-locality-graph.c:17-23 (known_locale_types) *)
Record locality_state := mkLS {
  known_locale_types : list (list Z);
  metadata_size_registrations : option hclib_fptr_list_t;
  metadata_populate_registrations : option hclib_fptr_list_t
}.

Definition n_locales (g : hclib_locality_graph) : Z := Z.of_nat (length (gr_locales g)).

(** ** Locale types *)

Definition same_str (a b : list Z) : bool := bool_decide (a = b).

(** The index of the first element a test accepts, counted from [i]. *)
Fixpoint index_of {A} (test : A → bool) (l : list A) (i : Z) : option Z :=
  match l with
  | [] => None
  | x :: l => if test x then Some i else index_of test l (i + 1)
  end.

(** src/src/hclib-locality-graph.c:26-49 (hclib_add_known_locale_type) *)
Definition hclib_add_known_locale_type (s : locality_state) (lbl : list Z)
    : Z * locality_state :=
  match index_of (same_str lbl) (known_locale_types s) 0 with
  | Some i => (i, s)
  | None =>
      (Z.of_nat (length (known_locale_types s)),
       mkLS (known_locale_types s ++ [lbl]) (metadata_size_registrations s)
         (metadata_populate_registrations s))
  end.

(** src/src/hclib-locality-graph.c:51-60 (hclib_add_locale_metadata_functions) *)
Definition hclib_add_locale_metadata_functions (s : locality_state)
    (locale_id size_func populate_func : Z) : res locality_state :=
  _ ← hassert (negb (size_func =? NULL));
  _ ← hassert (negb (populate_func =? NULL));
  sizes ← hclib_register_func (metadata_size_registrations s) locale_id size_func MAY_USE;
  pops ← hclib_register_func (metadata_populate_registrations s) locale_id
           populate_func MAY_USE;
  Ok (mkLS (known_locale_types s) (Some sizes) (Some pops)).

(** The comparison is unsigned.

    src/src/hclib-locality-graph.c:63-65 (hclib_is_known_locale_type) *)
Definition hclib_is_known_locale_type (s : locality_state) (type : Z) : bool :=
  to_uint type <? Z.of_nat (length (known_locale_types s)).

(** ** Reading tokens *)

(** [strncmp(a, b, n) == 0], with [a] inside a buffer and [b] a string. *)
Fixpoint strncmp_eq (n : nat) (a b : list Z) : res bool :=
  match n with
  | O => Ok true
  | S n =>
      match a, b with
      | [], _ => Err BadDeref
      | x :: _, [] => Ok (x =? 0)
      | x :: a, y :: b => if x =? y then strncmp_eq n a b else Ok false
      end
  end.

(** A negative length converts to a huge one.

    src/src/hclib-locality-graph.c:72-80 (string_token_equals) *)
Definition string_token_equals (token : jsmntok_t) (json str : list Z) : res bool :=
  if negb (bool_decide (tok_type token = JSMN_STRING)) then Err (ExitCode 1)
  else
    token_length ← int_sub (tok_end token) (tok_start token);
    if tok_start token <? 0 then Err BadDeref
    else
      let n := if token_length <? 0 then S (length json) else Z.to_nat token_length in
      strncmp_eq n (drop (Z.to_nat (tok_start token)) json) str.

(** src/src/hclib-locality-graph.c:82-91 (find_matching_locale) *)
Fixpoint find_matching_locale (token : jsmntok_t) (json : list Z)
    (locales : list hclib_locale_t) (i : Z) : res (option Z) :=
  match locales with
  | [] => Ok None
  | l :: locales =>
      eq ← string_token_equals token json (loc_lbl l);
      if eq : bool then Ok (Some i) else find_matching_locale token json locales (i + 1)
  end.

(** src/src/hclib-locality-graph.c:93-102 (find_matching_locale_by_str) *)
Definition find_matching_locale_by_str (locale_name : list Z)
    (locales : list hclib_locale_t) : option Z :=
  index_of (λ l, same_str locale_name (loc_lbl l)) locales 0.

(** A buffer read as a C string. *)
Fixpoint cstr (s : list Z) : list Z :=
  match s with
  | [] => []
  | c :: s => if c =? 0 then [] else c :: cstr s
  end.

(** src/src/hclib-locality-graph.c:104-111 (get_copy_of_string_token) *)
Definition get_copy_of_string_token (token : jsmntok_t) (json : list Z)
    : res (list Z) :=
  token_length ← int_sub (tok_end token) (tok_start token);
  if (tok_start token <? 0) || (token_length <? 0) ||
     (Z.of_nat (length json) <? tok_end token)
  then Err BadDeref
  else Ok (cstr (take (Z.to_nat token_length) (drop (Z.to_nat (tok_start token)) json))).

(** src/src/hclib-locality-graph.c:113-119 (parse_int_from_primitive) *)
Definition parse_int_from_primitive (token : jsmntok_t) (json : list Z) : res Z :=
  _ ← hassert (bool_decide (tok_type token = JSMN_PRIMITIVE));
  int_str ← get_copy_of_string_token token json;
  atoi int_str.

(** src/src/hclib-locality-graph.c:254-271 (parse_locality_path_from_array) *)
Fixpoint parse_path_entries (n : nat) (tokens : list jsmntok_t) (index : Z)
    (json : list Z) (worker_id : Z) (locales : list hclib_locale_t)
    : res hclib_locality_path :=
  match n with
  | O => Ok []
  | S n =>
      token ← array_get tokens index;
      _ ← hassert (bool_decide (tok_type token = JSMN_STRING));
      str ← get_copy_of_string_token token json;
      interpreted_str ← interpret_locale str worker_id;
      match find_matching_locale_by_str interpreted_str locales with
      | None => Err (ExitCode 1)
      | Some locale =>
          rest ← parse_path_entries n tokens (index + 1) json worker_id locales;
          Ok (locale :: rest)
      end
  end.

(** src/src/hclib-locality-graph.c:239-274 (parse_locality_path_from_array) *)
Definition parse_locality_path_from_array (tokens : list jsmntok_t)
    (starting_token : Z) (json : list Z) (worker_id : Z)
    (locales : list hclib_locale_t) : res hclib_locality_path :=
  token ← array_get tokens starting_token;
  _ ← hassert (bool_decide (tok_type token = JSMN_ARRAY));
  let path_length := tok_size token in
  _ ← hassert (path_length >? 0);
  parse_path_entries (Z.to_nat path_length) tokens (starting_token + 1) json
    worker_id locales.

(** The result is the index after the last path, the paths of the workers and
    the token of the default path.

    src/src/hclib-locality-graph.c:276-307 (parse_paths) *)
Fixpoint parse_paths (n_paths : nat) (path_index : Z) (json : list Z)
    (tokens : list jsmntok_t) (locales : list hclib_locale_t)
    (worker_paths : list (option hclib_locality_path)) (default_path_token : option Z)
    : res (Z * list (option hclib_locality_path) * option Z) :=
  match n_paths with
  | O => Ok (path_index, worker_paths, default_path_token)
  | S n_paths =>
      token ← array_get tokens path_index;
      is_default ← (if bool_decide (tok_type token = JSMN_STRING)
                    then string_token_equals token json (chars "default")
                    else Ok false);
      if is_default : bool then
        let path_index := path_index + 1 in
        path ← array_get tokens path_index;
        _ ← hassert (bool_decide (tok_type path = JSMN_ARRAY));
        _ ← hassert (bool_decide (default_path_token = None));
        parse_paths n_paths (path_index + (1 + tok_size path)) json tokens locales
          worker_paths (Some path_index)
      else
        worker_id ← parse_int_from_primitive token json;
        let path_index := path_index + 1 in
        path ← parse_locality_path_from_array tokens path_index json worker_id locales;
        old ← array_get worker_paths worker_id;
        _ ← hassert (bool_decide (old = None));
        worker_paths ← array_set worker_paths worker_id (Some path);
        parse_paths n_paths (path_index + (1 + Z.of_nat (length path))) json tokens
          locales worker_paths default_path_token
  end.

(** ** Creating locales *)

(** src/src/hclib-locality-graph.c:309-320 (init_hclib_deque_t) *)
Definition init_hclib_deque_t : hclib_internal_deque_t := mkDeque 0 0 ∅.

(** src/src/hclib-locality-graph.c:327-335 (initialize_locale) *)
Definition locale_type_of (s : locality_state) (lbl : list Z) : option Z :=
  index_of (λ known, (Z.of_nat (length known) <=? Z.of_nat (length lbl)) &&
                     same_str known (take (length known) lbl))
    (known_locale_types s) 0.

Section loading.
(** What a module's function does to the locale whose metadata it fills. *)
Context (run_populate : Z → hclib_locale_t → res hclib_locale_t).

(** The old value of the locale keeps [reachable], which this does not set.

    src/src/hclib-locality-graph.c:322-367 (initialize_locale) *)
Definition initialize_locale (s : locality_state) (reachable : option bool)
    (id : Z) (lbl : list Z) (nworkers : Z) : res hclib_locale_t :=
  match locale_type_of s lbl with
  | None => Err (ExitCode 1)
  | Some locale_type_id =>
      _ ← hassert (0 <=? nworkers);
      let locale := mkLocale id locale_type_id lbl None NULL [] reachable
                      (replicate (Z.to_nat nworkers) init_hclib_deque_t) in
      has ← hclib_has_func_for (metadata_size_registrations s) locale_type_id;
      if has : bool then
        _ ← hclib_get_func_for (metadata_size_registrations s) locale_type_id;
        populate_func ← hclib_get_func_for (metadata_populate_registrations s)
                          locale_type_id;
        run_populate populate_func locale
      else Ok locale
  end.

(** src/src/hclib-locality-graph.c:441-454 (load_locality_info) *)
Fixpoint load_locales (n : nat) (s : locality_state) (tokens : list jsmntok_t)
    (index : Z) (json : list Z) (nworkers : Z) (locales : list hclib_locale_t)
    : res (list hclib_locale_t) :=
  match n with
  | O => Ok locales
  | S n =>
      token ← array_get tokens index;
      _ ← hassert (bool_decide (tok_type token = JSMN_STRING));
      lbl ← get_copy_of_string_token token json;
      locale ← initialize_locale s None (Z.of_nat (length locales)) lbl nworkers;
      _ ← hassert (forallb (λ l, negb (same_str (loc_lbl locale) (loc_lbl l))) locales);
      load_locales n s tokens (index + 1) json nworkers (locales ++ [locale])
  end.

Definition edge_at (n i j : Z) : Z := i * n + j.

(** src/src/hclib-locality-graph.c:478-500 (load_locality_info) *)
Fixpoint load_edges (nedges : nat) (tokens : list jsmntok_t) (edge_index : Z)
    (json : list Z) (locales : list hclib_locale_t) (edges : list (option Z))
    : res (list (option Z)) :=
  match nedges with
  | O => Ok edges
  | S nedges =>
      let nlocales := Z.of_nat (length locales) in
      token ← array_get tokens edge_index;
      _ ← hassert (bool_decide (tok_type token = JSMN_ARRAY));
      _ ← hassert (tok_size token =? 2);
      token1 ← array_get tokens (edge_index + 1);
      locale1 ← find_matching_locale token1 json locales 0;
      match locale1 with
      | None => Err (ExitCode 1)
      | Some locale1 =>
          token2 ← array_get tokens (edge_index + 2);
          locale2 ← find_matching_locale token2 json locales 0;
          match locale2 with
          | None => Err (ExitCode 1)
          | Some locale2 =>
              l1 ← array_get locales locale1;
              l2 ← array_get locales locale2;
              edges ← array_set edges (edge_at nlocales (loc_id l1) (loc_id l2)) (Some 1);
              edges ← array_set edges (edge_at nlocales (loc_id l2) (loc_id l1)) (Some 1);
              load_edges nedges tokens (edge_index + 3) json locales edges
          end
      end
  end.

(** src/src/hclib-locality-graph.c:539-553 (load_locality_info) *)
Fixpoint load_worker_paths (n : nat) (i : Z) (tokens : list jsmntok_t)
    (json : list Z) (locales : list hclib_locale_t)
    (worker_pop_paths worker_steal_paths : list (option hclib_locality_path))
    (default_pop default_steal : option Z) : res (list hclib_worker_paths) :=
  match n with
  | O => Ok []
  | S n =>
      p ← array_get worker_pop_paths i;
      pop ← (match p with
             | Some p => Ok p
             | None => d ← deref default_pop;
                       parse_locality_path_from_array tokens d json i locales
             end);
      q ← array_get worker_steal_paths i;
      steal ← (match q with
               | Some q => Ok q
               | None => d ← deref default_steal;
                         parse_locality_path_from_array tokens d json i locales
               end);
      rest ← load_worker_paths n (i + 1) tokens json locales worker_pop_paths
               worker_steal_paths default_pop default_steal;
      Ok (mkPaths pop steal 0 :: rest)
  end.

(** The key at [index]: [assert(string_token_equals(...) == 0)]. *)
Definition expect_key (tokens : list jsmntok_t) (index : Z) (json : list Z)
    (key : list Z) : res unit :=
  token ← array_get tokens index;
  eq ← string_token_equals token json key;
  hassert eq.

Definition expect_array (tokens : list jsmntok_t) (index : Z) : res Z :=
  token ← array_get tokens index;
  _ ← hassert (bool_decide (tok_type token = JSMN_ARRAY));
  Ok (tok_size token).

(** From the tokens on.

    src/src/hclib-locality-graph.c:409-566 (load_locality_info) *)
Definition load_tokens (s : locality_state) (tokens : list jsmntok_t)
    (json : list Z) (hclib_workers : option (list Z))
    : res (Z * hclib_locality_graph * list hclib_worker_paths) :=
  token ← array_get tokens 0;
  _ ← hassert (bool_decide (tok_type token = JSMN_OBJECT));
  _ ← expect_key tokens 1 json (chars "nworkers");
  token ← array_get tokens 2;
  nworkers ← parse_int_from_primitive token json;
  nworkers ← (match hclib_workers with Some str => atoi str | None => Ok nworkers end);
  _ ← expect_key tokens 3 json (chars "declarations");
  nlocales ← expect_array tokens 4;
  locales ← load_locales (Z.to_nat nlocales) s tokens 5 json nworkers [];
  let token_index := 5 + nlocales in
  n_edges ← int_mul nlocales nlocales;
  let edges := replicate (Z.to_nat n_edges) (Some 0) in
  _ ← expect_key tokens token_index json (chars "reachability");
  nedges ← expect_array tokens (token_index + 1);
  let token_index := token_index + 2 in
  edges ← load_edges (Z.to_nat nedges) tokens token_index json locales edges;
  let token_index := token_index + nedges * 3 in
  _ ← hassert (0 <=? nworkers);
  let none := replicate (Z.to_nat nworkers) None in
  _ ← expect_key tokens token_index json (chars "pop_paths");
  token ← array_get tokens (token_index + 1);
  let n_pop_paths := tok_size token in
  _ ← hassert ((n_pop_paths >? 0) || (nworkers =? 0));
  '(token_index, pops, default_pop) ←
    parse_paths (Z.to_nat n_pop_paths) (token_index + 2) json tokens locales none None;
  _ ← hassert (negb (bool_decide (default_pop = None)) || (nworkers =? 0));
  _ ← expect_key tokens token_index json (chars "steal_paths");
  token ← array_get tokens (token_index + 1);
  let n_steal_paths := tok_size token in
  _ ← hassert ((n_steal_paths >? 0) || (nworkers =? 0));
  '(token_index, steals, default_steal) ←
    parse_paths (Z.to_nat n_steal_paths) (token_index + 2) json tokens locales none None;
  _ ← hassert (negb (bool_decide (default_steal = None)) || (nworkers =? 0));
  worker_paths ← load_worker_paths (Z.to_nat nworkers) 0 tokens json locales pops
                   steals default_pop default_steal;
  Ok (nworkers, mkGraph locales edges, worker_paths).

(** [file] is the contents of the file, or [None] when it cannot be opened;
    [junk] is what the allocated token array holds.

    src/src/hclib-locality-graph.c:372-408 (load_locality_info) *)
Definition load_locality_info (s : locality_state) (file : option (list Z))
    (junk : jsmntok_t) (hclib_workers : option (list Z))
    : res (Z * hclib_locality_graph * list hclib_worker_paths) :=
  match file with
  | None => Err (ExitCode 1)
  | Some contents =>
      let file_size := Z.of_nat (length contents) in
      let json := contents ++ [0] in
      '(ntokens, _, _) ← jsmn_parse jsmn_init json file_size None 0;
      _ ← hassert (0 <=? ntokens);
      let tokens := replicate (Z.to_nat ntokens) junk in
      '(parsing_err, _, tokens) ← jsmn_parse jsmn_init json file_size (Some tokens) ntokens;
      _ ← hassert (0 <=? parsing_err);
      tokens ← deref tokens;
      load_tokens s tokens json hclib_workers
  end.

(** src/src/hclib-locality-graph.c:568-573 (create_heap_allocated_str) *)
Definition create_heap_allocated_str (s : list Z) : list Z := s.

(** src/src/hclib-locality-graph.c:614-638 (generate_locality_info) *)
Fixpoint generate_locales (n : nat) (i : Z) (s : locality_state) (nworkers : Z)
    (locales : list hclib_locale_t) (edges : list (option Z))
    (worker_paths : list hclib_worker_paths)
    : res (list hclib_locale_t * list (option Z) * list hclib_worker_paths) :=
  match n with
  | O => Ok (locales, edges, worker_paths)
  | S n =>
      buf ← itoa (i - 1) 10;
      locale ← initialize_locale s None i
                 (create_heap_allocated_str (chars "L1" ++ buf)) nworkers;
      edges ← array_set edges (to_uint (edge_at (1 + nworkers) i 0)) (Some 1);
      edges ← array_set edges (to_uint (edge_at (1 + nworkers) 0 i)) (Some 1);
      generate_locales n (i + 1) s nworkers (locales ++ [locale]) edges
        (worker_paths ++ [mkPaths [i; 0] [i; 0] 0])
  end.

(** The edges are [malloc]ed and only those of the star are written; their number
    and their indices are unsigned.

    src/src/hclib-locality-graph.c:581-643 (generate_locality_info) *)
Definition generate_locality_info (s : locality_state)
    (hclib_workers : option (list Z)) (nprocessors : Z)
    : res (Z * hclib_locality_graph * list hclib_worker_paths) :=
  nworkers ← (match hclib_workers with Some str => atoi str | None => Ok nprocessors end);
  _ ← hassert (0 <=? nworkers);
  n ← int_add 1 nworkers;
  let edges := replicate (Z.to_nat (to_uint (n * n))) None in
  root ← initialize_locale s None 0 (create_heap_allocated_str (chars "sysmem")) nworkers;
  '(locales, edges, worker_paths) ←
    generate_locales (Z.to_nat nworkers) 1 s nworkers [root] edges [];
  Ok (nworkers, mkGraph locales edges, worker_paths).
End loading.

(** ** Reachability *)

(** [reachable] of the locales at the given indices. *)
Definition set_reachable (r : bool) (l : hclib_locale_t) : hclib_locale_t :=
  mkLocale (loc_id l) (loc_type l) (loc_lbl l) (loc_special_type l) (loc_metadata l)
    (loc_idle_funcs l) (Some r) (loc_deques l).

(** src/src/hclib-locality-graph.c:656-661 (check_locality_graph) *)
Fixpoint mark_path (path : hclib_locality_path) (locales : list hclib_locale_t)
    : res (list hclib_locale_t) :=
  match path with
  | [] => Ok locales
  | i :: path =>
      l ← array_get locales i;
      locales ← array_set locales i (set_reachable true l);
      mark_path path locales
  end.

(** src/src/hclib-locality-graph.c:653-664 (check_locality_graph) *)
Fixpoint mark_workers (worker_paths : list hclib_worker_paths)
    (locales : list hclib_locale_t) : res (list hclib_locale_t) :=
  match worker_paths with
  | [] => Ok locales
  | curr :: worker_paths =>
      locales ← mark_path (pop_path curr) locales;
      locales ← mark_path (steal_path curr) locales;
      _ ← hassert (last_successful_steal_locale curr =? 0);
      mark_workers worker_paths locales
  end.

(** src/src/hclib-locality-graph.c:645-665 (check_locality_graph) *)
Definition check_locality_graph (graph : hclib_locality_graph)
    (worker_paths : list hclib_worker_paths) : res hclib_locality_graph :=
  locales ← mark_workers worker_paths (set_reachable false <$> gr_locales graph);
  Ok (mkGraph locales (gr_edges graph)).

(** ** Queries of the running platform *)

(** The part of [hc_context] they read; the array of worker paths has one
    entry per worker.

    src/src/inc/hclib-internal.h:92-105 (hclib_context) *)
Record hclib_context := mkContext {
  hc_graph : hclib_locality_graph;
  hc_worker_paths : list hclib_worker_paths
}.

(** src/src/hclib-locality-graph.c:893-895 (hclib_get_num_locales) *)
Definition hclib_get_num_locales (cx : hclib_context) : Z := n_locales (hc_graph cx).

(** src/src/hclib-locality-graph.c:901-903 (hclib_get_closest_locale) *)
Definition hclib_get_closest_locale (cx : hclib_context) (wid : Z) : res Z :=
  paths ← array_get (hc_worker_paths cx) wid;
  array_get (pop_path paths) 0.

(** src/src/hclib-locality-graph.c:1020-1022 (hclib_get_master_place) *)
Definition hclib_get_master_place (cx : hclib_context) : res Z :=
  paths ← array_get (hc_worker_paths cx) 0;
  array_get (pop_path paths) 0.

(** The search loop that stops at the first match.

    src/src/hclib-locality-graph.c:936-940 (found) *)
Fixpoint on_path (path : hclib_locality_path) (curr : Z) : bool :=
  match path with
  | [] => false
  | l :: path => if l =? curr then true else on_path path curr
  end.

(** The loop that shifts the rejected elements out of an array, [j] being the
    index under test.

    src/src/hclib-locality-graph.c:1032-1050 (keep_duplicates) *)
Fixpoint delete_loop (fuel : nat) (keep : Z → res bool) (l : list Z) (j : nat)
    : res (list Z) :=
  match fuel with
  | O => Err OutOfFuel
  | S fuel =>
      match l !! j with
      | None => Ok l
      | Some curr =>
          found ← keep curr;
          if found : bool then delete_loop fuel keep l (S j)
          else delete_loop fuel keep (delete j l) j
      end
  end.

(** src/src/hclib-locality-graph.c:1027-1051 (keep_duplicates) *)
Definition keep_duplicates (l path : list Z) : res (list Z) :=
  delete_loop (S (length l)) (λ curr, Ok (on_path path curr)) l 0.

(** The candidates on both paths of a worker, in the order of its steal path.

    src/src/hclib-locality-graph.c:933-945 (also_in_pop) *)
Fixpoint also_in_pop (steal pop : hclib_locality_path) : list Z :=
  match steal with
  | [] => []
  | x :: steal =>
      if on_path pop x then x :: also_in_pop steal pop else also_in_pop steal pop
  end.

(** Is the locale on a path of a worker other than [i]?  [k] counts workers.

    src/src/hclib-locality-graph.c:959-973 (found) *)
Fixpoint on_other_path (worker_paths : list hclib_worker_paths) (k i curr : Z) : bool :=
  match worker_paths with
  | [] => false
  | paths :: worker_paths =>
      if k =? i then on_other_path worker_paths (k + 1) i curr
      else if on_path (steal_path paths) curr || on_path (pop_path paths) curr then true
      else on_other_path worker_paths (k + 1) i curr
  end.

(** src/src/hclib-locality-graph.c:929-1011 (hclib_get_thread_private_locales) *)
Definition thread_private_locale (cx : hclib_context) (i : Z)
    (paths : hclib_worker_paths) : res (option Z) :=
  let candidates := also_in_pop (steal_path paths) (pop_path paths) in
  candidates ← delete_loop (S (length candidates))
    (λ curr, Ok (negb (on_other_path (hc_worker_paths cx) 0 i curr))) candidates 0;
  candidates ← delete_loop (S (length candidates))
    (λ curr, l ← array_get (gr_locales (hc_graph cx)) curr;
             Ok (bool_decide (loc_special_type l = None))) candidates 0;
  Ok (head candidates).

(** src/src/hclib-locality-graph.c:924-1012 (hclib_get_thread_private_locales) *)
Fixpoint thread_private_from (cx : hclib_context) (i : Z)
    (worker_paths : list hclib_worker_paths) : res (list (option Z)) :=
  match worker_paths with
  | [] => Ok []
  | paths :: worker_paths =>
      l ← thread_private_locale cx i paths;
      rest ← thread_private_from cx (i + 1) worker_paths;
      Ok (l :: rest)
  end.

(** src/src/hclib-locality-graph.c:917-1015 (hclib_get_thread_private_locales) *)
Definition hclib_get_thread_private_locales (cx : hclib_context)
    : res (list (option Z)) :=
  thread_private_from cx 0 (hc_worker_paths cx).

(** src/src/hclib-locality-graph.c:1074-1083 (hclib_get_central_place) *)
Fixpoint central_candidates (candidates : list Z)
    (worker_paths : list hclib_worker_paths) : res (list Z) :=
  match worker_paths with
  | [] => Ok candidates
  | paths :: worker_paths =>
      candidates ← keep_duplicates candidates (steal_path paths);
      candidates ← keep_duplicates candidates (pop_path paths);
      central_candidates candidates worker_paths
  end.

(** [cache] is the function's static result, [None] before the first call.

    src/src/hclib-locality-graph.c:1056-1093 (hclib_get_central_place) *)
Definition hclib_get_central_place (cx : hclib_context) (cache : option (option Z))
    : res (option Z * option (option Z)) :=
  match cache with
  | Some central => Ok (central, cache)
  | None =>
      paths ← array_get (hc_worker_paths cx) 0;
      candidates ← keep_duplicates (steal_path paths) (pop_path paths);
      candidates ← central_candidates candidates (tail (hc_worker_paths cx));
      let central := head candidates in
      Ok (central, Some central)
  end.

(** src/src/hclib-locality-graph.c:1103-1109 (contains) *)
Fixpoint contains (target : Z) (list : list Z) : bool :=
  match list with
  | [] => false
  | x :: list => if x =? target then true else contains target list
  end.

(** The indices of the locales of a type, from [i].

    src/src/hclib-locality-graph.c:1114-1129 (hclib_get_all_locales_of_type) *)
Fixpoint locales_of_type (locales : list hclib_locale_t) (type i : Z) : list Z :=
  match locales with
  | [] => []
  | l :: locales =>
      if loc_type l =? to_uint type then i :: locales_of_type locales type (i + 1)
      else locales_of_type locales type (i + 1)
  end.

(** src/src/hclib-locality-graph.c:1114-1129 (hclib_get_all_locales_of_type) *)
Definition hclib_get_all_locales_of_type (cx : hclib_context) (type : Z) : list Z :=
  locales_of_type (gr_locales (hc_graph cx)) type 0.

(** src/src/hclib-locality-graph.c:1172-1183 (hclib_get_num_locales_of_type) *)
Fixpoint count_locales_of_type (locales : list hclib_locale_t) (type count : Z)
    : res Z :=
  match locales with
  | [] => Ok count
  | l :: locales =>
      if loc_type l =? to_uint type
      then count ← int_add count 1; count_locales_of_type locales type count
      else count_locales_of_type locales type count
  end.

(** src/src/hclib-locality-graph.c:1172-1183 (hclib_get_num_locales_of_type) *)
Definition hclib_get_num_locales_of_type (cx : hclib_context) (locale_type : Z) : res Z :=
  count_locales_of_type (gr_locales (hc_graph cx)) locale_type 0.

(** An edge the code reads; a never-written one is indeterminate. *)
Definition read_edge (g : hclib_locality_graph) (id i : Z) : res bool :=
  e ← array_get (gr_edges g) (edge_at (n_locales g) id i);
  match e with None => Err UninitRead | Some v => Ok (negb (v =? 0)) end.

(** The neighbours not seen yet are appended; [n] locales are left, from [i].

    src/src/hclib-locality-graph.c:1155-1160 (hclib_get_closest_locale_of_types) *)
Fixpoint visit_edges (g : hclib_locality_graph) (id : Z) (n : nat) (i : Z)
    (to_visit : list Z) : res (list Z) :=
  match n with
  | O => Ok to_visit
  | S n =>
      e ← read_edge g id i;
      if (e : bool) && negb (contains i to_visit) then
        _ ← (if Z.of_nat (length to_visit) <? n_locales g then Ok tt else Err BadDeref);
        visit_edges g id n (i + 1) (to_visit ++ [i])
      else visit_edges g id n (i + 1) to_visit
  end.

(** [to_visit] is the part of the array written so far: reading an index past
    it gives an indeterminate value.  The fuel is the number of iterations
    left, [n_locales - visiting_index].

    src/src/hclib-locality-graph.c:1146-1163 (hclib_get_closest_locale_of_types) *)
Fixpoint bfs_loop (fuel : nat) (g : hclib_locality_graph) (locale_types : list Z)
    (visiting_index : nat) (to_visit : list Z) : res (option Z) :=
  match fuel with
  | O => Ok None
  | S fuel =>
      match to_visit !! visiting_index with
      | None => Err UninitRead
      | Some x =>
          curr ← array_get (gr_locales g) x;
          if contains (uint_to_int (loc_type curr)) locale_types then Ok (Some x)
          else
            to_visit ← visit_edges g (loc_id curr) (length (gr_locales g)) 0 to_visit;
            bfs_loop fuel g locale_types (S visiting_index) to_visit
      end
  end.

(** src/src/hclib-locality-graph.c:1136-1164 (hclib_get_closest_locale_of_types) *)
Definition hclib_get_closest_locale_of_types (cx : hclib_context) (locale : Z)
    (locale_types : list Z) : res (option Z) :=
  _ ← hassert (locale <? n_locales (hc_graph cx));
  bfs_loop (length (gr_locales (hc_graph cx))) (hc_graph cx) locale_types 0 [locale].

(** src/src/hclib-locality-graph.c:1166-1170 (hclib_get_closest_locale_of_type) *)
Definition hclib_get_closest_locale_of_type (cx : hclib_context)
    (locale locale_type : Z) : res (option Z) :=
  hclib_get_closest_locale_of_types cx locale [locale_type].

(** ** Lemmas: loops *)

Lemma index_of_Some {A} (test : A → bool) l i k :
  index_of test l i = Some k →
  i <= k < i + Z.of_nat (length l) ∧
  ∃ x, l !! Z.to_nat (k - i) = Some x ∧ test x = true ∧
    ∀ j y, (j < Z.to_nat (k - i))%nat → l !! j = Some y → test y = false.
Proof.
  revert i. induction l as [|x l IH]; intros i; cbn -[Z.of_nat]; [done|].
  destruct (test x) eqn:E.
  - intros [= <-]. rewrite Z.sub_diag. split; [lia|]. exists x.
    split; [done|]. split; [done|lia].
  - intros H. destruct (IH _ H) as (Hk & y & Hy & Hty & Hmin).
    replace (Z.to_nat (k - i)) with (S (Z.to_nat (k - (i + 1)))) by lia.
    split; [lia|]. exists y. split; [done|]. split; [done|].
    intros [|j] z Hj; cbn; [by intros [= <-]|]. apply Hmin. lia.
Qed.

Lemma index_of_None {A} (test : A → bool) l i :
  index_of test l i = None ↔ ∀ x, x ∈ l → test x = false.
Proof.
  revert i. induction l as [|x l IH]; intros i; cbn.
  - split; [|done]. intros _ x Hx. by apply elem_of_nil in Hx.
  - destruct (test x) eqn:E.
    + split; [done|]. intros H. specialize (H x). rewrite E in H. discriminate H. left.
    + rewrite IH. split; intros H y; [intros [->|Hy]%elem_of_cons; auto|].
      intros Hy. apply H. by right.
Qed.

Lemma on_path_spec path x : on_path path x = true ↔ x ∈ path.
Proof.
  induction path as [|y path IH]; cbn; [split; [done|by intros ?%elem_of_nil]|].
  rewrite elem_of_cons. destruct (Z.eqb_spec y x) as [->|]; [naive_solver|].
  rewrite IH. naive_solver.
Qed.

Lemma contains_spec x l : contains x l = true ↔ x ∈ l.
Proof.
  induction l as [|y l IH]; cbn; [split; [done|by intros ?%elem_of_nil]|].
  rewrite elem_of_cons. destruct (Z.eqb_spec y x) as [->|]; [naive_solver|].
  rewrite IH. naive_solver.
Qed.

(** The shifting loop filters the array. *)
Lemma delete_loop_filter fuel keep f l j :
  (∀ x, x ∈ l → keep x = Ok (f x)) → (length l - j < fuel)%nat →
  delete_loop fuel keep l j = Ok (take j l ++ filter (λ x, f x = true) (drop j l)).
Proof.
  revert l j. induction fuel as [|fuel IH]; intros l j Hk Hf; [lia|]. cbn [delete_loop].
  destruct (l !! j) as [x|] eqn:E.
  - rewrite (Hk x) by (by eapply list_elem_of_lookup_2). cbn.
    pose proof (lookup_lt_Some _ _ _ E) as Hj. rewrite (drop_S l x j E).
    destruct (f x) eqn:Ef.
    + rewrite IH by (done || lia). rewrite (take_S_r l j x E), filter_cons_True by done.
      by rewrite <- app_assoc.
    + rewrite filter_cons_False by congruence. rewrite IH.
      * rewrite delete_take_drop, take_app_length', drop_app_length'
          by (rewrite length_take; lia). done.
      * intros y Hy. apply Hk. rewrite delete_take_drop in Hy.
        rewrite <- (take_drop_middle l j x E), elem_of_app, elem_of_cons.
        apply elem_of_app in Hy. naive_solver.
      * rewrite length_delete by (by eexists). lia.
  - apply lookup_ge_None in E. by rewrite take_ge, drop_ge, filter_nil, app_nil_r by lia.
Qed.

Lemma keep_duplicates_filter l path :
  keep_duplicates l path = Ok (filter (λ x, x ∈ path) l).
Proof.
  unfold keep_duplicates.
  rewrite (delete_loop_filter _ _ (on_path path)) by (done || lia).
  cbn. f_equal. apply list_filter_iff. intros x. apply on_path_spec.
Qed.

Lemma also_in_pop_filter steal pop :
  also_in_pop steal pop = filter (λ x, x ∈ pop) steal.
Proof.
  induction steal as [|x steal IH]; cbn [also_in_pop]; [done|].
  destruct (on_path pop x) eqn:E; rewrite IH.
  - apply on_path_spec in E. by rewrite filter_cons_True.
  - rewrite filter_cons_False; [done|]. rewrite <- on_path_spec. congruence.
Qed.

Lemma on_other_path_spec worker_paths k i curr :
  on_other_path worker_paths k i curr = true ↔
  ∃ n paths, worker_paths !! n = Some paths ∧ k + Z.of_nat n ≠ i ∧
    (curr ∈ steal_path paths ∨ curr ∈ pop_path paths).
Proof.
  revert k. induction worker_paths as [|paths wps IH]; intros k; cbn [on_other_path].
  { split; [done|]. by intros (n & ? & ? & _). }
  assert (Htl : on_other_path wps (k + 1) i curr = true ↔
    ∃ n paths', (paths :: wps) !! S n = Some paths' ∧ k + Z.of_nat (S n) ≠ i ∧
      (curr ∈ steal_path paths' ∨ curr ∈ pop_path paths')).
  { rewrite IH. split; intros (n & q & ? & ? & ?); exists n, q;
      (split; [done|]); (split; [lia|done]). }
  destruct (Z.eqb_spec k i) as [->|Hne].
  - rewrite Htl. split; [naive_solver|]. intros ([|n] & q & Hl & Hi & Hq); [lia|eauto].
  - destruct (on_path (steal_path paths) curr || on_path (pop_path paths) curr) eqn:E.
    + split; [|done]. intros _. exists 0%nat, paths. split; [done|]. split; [lia|].
      apply orb_true_iff in E. by rewrite !on_path_spec in E.
    + rewrite Htl. split; [naive_solver|]. intros ([|n] & q & Hl & Hi & Hq); [|eauto].
      cbn in Hl. injection Hl as <-. apply orb_false_iff in E.
      rewrite <- !not_true_iff_false, !on_path_spec in E. naive_solver.
Qed.

(** ** Lemmas: reachability marks *)

Definition reachable_at (locales : list hclib_locale_t) (i : Z) : option bool :=
  l ← locales !! Z.to_nat i; loc_reachable l.

Lemma mark_path_ok path locales :
  Forall (λ i, 0 <= i < Z.of_nat (length locales)) path →
  ∃ locales', mark_path path locales = Ok locales' ∧ length locales' = length locales ∧
    ∀ i l', 0 <= i → locales' !! Z.to_nat i = Some l' →
      ∃ l, locales !! Z.to_nat i = Some l ∧
           l' = if decide (i ∈ path) then set_reachable true l else l.
Proof.
  intros Hp. revert locales Hp. induction path as [|x path IH]; intros locales Hp; cbn [mark_path].
  { exists locales. split; [done|]. split; [done|]. intros i l' Hi Hl. exists l'. done. }
  apply Forall_cons in Hp as [Hx Hp].
  destruct (array_get_lt locales x Hx) as (l & -> & Hl). cbn [mbind res_bind].
  rewrite array_set_in by done. cbn [mbind res_bind].
  destruct (IH (<[Z.to_nat x := set_reachable true l]> locales)) as (ls & -> & Hlen & Hls).
  { by rewrite length_insert. }
  exists ls. split; [done|]. rewrite length_insert in Hlen. split; [done|].
  intros i l' Hi Hl'. destruct (Hls i l' Hi Hl') as (l0 & Hl0 & ->).
  destruct (decide (i = x)) as [->|Hne].
  - rewrite list_lookup_insert_eq in Hl0 by lia. injection Hl0 as <-. exists l.
    split; [done|]. rewrite (decide_True (P := x ∈ x :: path)) by left.
    by destruct (decide _).
  - rewrite list_lookup_insert_ne in Hl0 by lia. exists l0. split; [done|].
    destruct (decide (i ∈ path)); [rewrite decide_True by (by right)|rewrite decide_False]; try done.
    by intros [->|?]%elem_of_cons.
Qed.

Definition on_some_path (wps : list hclib_worker_paths) (i : Z) : Prop :=
  Exists (λ w, i ∈ pop_path w ∨ i ∈ steal_path w) wps.

#[export] Instance on_some_path_dec wps i : Decision (on_some_path wps i).
Proof. unfold on_some_path. apply _. Defined.

Definition paths_in (n : Z) (w : hclib_worker_paths) : Prop :=
  Forall (λ i, 0 <= i < n) (pop_path w) ∧ Forall (λ i, 0 <= i < n) (steal_path w).

Lemma mark_workers_ok wps locales :
  Forall (paths_in (Z.of_nat (length locales))) wps →
  Forall (λ w, last_successful_steal_locale w = 0) wps →
  ∃ locales', mark_workers wps locales = Ok locales' ∧ length locales' = length locales ∧
    ∀ i l', 0 <= i → locales' !! Z.to_nat i = Some l' →
      ∃ l, locales !! Z.to_nat i = Some l ∧
           l' = if decide (on_some_path wps i) then set_reachable true l else l.
Proof.
  intros Hp Hl. revert locales Hp. induction Hl as [|w wps Hw Hl IH];
    intros locales Hp; cbn [mark_workers].
  { exists locales. split; [done|]. split; [done|]. intros i l' Hi Hli. by exists l'. }
  apply Forall_cons in Hp as [[Hpop Hsteal] Hp].
  destruct (mark_path_ok (pop_path w) locales Hpop) as (ls1 & -> & Hlen1 & H1).
  cbn [mbind res_bind].
  destruct (mark_path_ok (steal_path w) ls1) as (ls2 & -> & Hlen2 & H2); [by rewrite Hlen1|].
  cbn [mbind res_bind]. rewrite Hw. cbn [mbind res_bind hassert Z.eqb].
  destruct (IH ls2) as (ls & -> & Hlen & H); [by rewrite Hlen2, Hlen1|].
  exists ls. split; [done|]. split; [congruence|]. intros i l' Hi Hli.
  destruct (H i l' Hi Hli) as (l2 & Hl2 & ->). destruct (H2 i l2 Hi Hl2) as (l1 & Hl1 & ->).
  destruct (H1 i l1 Hi Hl1) as (l0 & Hl0 & ->). exists l0. split; [done|].
  assert (Hc : on_some_path (w :: wps) i ↔
    (i ∈ pop_path w ∨ i ∈ steal_path w) ∨ on_some_path wps i) by apply Exists_cons.
  destruct (decide (on_some_path (w :: wps) i)) as [Hin|Hout]; rewrite Hc in *;
    repeat (destruct (decide _)); try done; exfalso; tauto.
Qed.

(** ** Lemmas: breadth-first search *)

Definition adj (g : hclib_locality_graph) (i j : Z) : Prop :=
  0 <= j < n_locales g ∧
  ∃ v, gr_edges g !! Z.to_nat (edge_at (n_locales g) i j) = Some (Some v) ∧ v ≠ 0.

(** [y] is at the end of a walk of [k] edges from [src]. *)
Inductive reach (g : hclib_locality_graph) (src : Z) : nat → Z → Prop :=
  | reach_O : reach g src 0 src
  | reach_S k x y : reach g src k x → adj g x y → reach g src (S k) y.

Definition dist (g : hclib_locality_graph) (src : Z) (k : nat) (x : Z) : Prop :=
  reach g src k x ∧ ∀ j, reach g src j x → (k <= j)%nat.

(** A graph whose ids are the indices and whose edges are all written. *)
Definition graph_ok (g : hclib_locality_graph) : Prop :=
  (∀ i l, gr_locales g !! i = Some l → loc_id l = Z.of_nat i) ∧
  Z.of_nat (length (gr_edges g)) = n_locales g * n_locales g ∧
  Forall (λ e, e ≠ None) (gr_edges g).

Definition has_type (g : hclib_locality_graph) (types : list Z) (x : Z) : Prop :=
  ∃ l, gr_locales g !! Z.to_nat x = Some l ∧ uint_to_int (loc_type l) ∈ types.

Section bfs.
Context (g : hclib_locality_graph) (Hg : graph_ok g).
#[local] Set Default Proof Using "Type*".
Notation N := (n_locales g).

Lemma read_edge_ok i j :
  0 <= i < N → 0 <= j < N →
  ∃ b, read_edge g i j = Ok b ∧ (b = true ↔ adj g i j).
Proof.
  intros Hi Hj. destruct Hg as (_ & Hlen & Hall). unfold read_edge.
  destruct (array_get_lt (gr_edges g) (edge_at N i j)) as (e & -> & He);
    [unfold edge_at; nia|]. cbn.
  destruct e as [v|].
  - eexists. split; [done|]. rewrite negb_true_iff, Z.eqb_neq. unfold adj. split.
    + intros Hv. split; [done|]. by exists v.
    + intros (_ & v' & Hv' & Hn). congruence.
  - exfalso. apply list_elem_of_lookup_2 in He. by apply (proj1 (Forall_forall _ _) Hall) in He.
Qed.

Lemma length_in_range (L : list Z) :
  NoDup L → Forall (λ x, 0 <= x < N) L → Z.of_nat (length L) <= N.
Proof.
  intros Hnd Hr.
  assert (L ⊆+ seqZ 0 N) as Hs.
  { apply NoDup_submseteq; [done|]. intros x Hx.
    apply (proj1 (Forall_forall _ _) Hr) in Hx. apply elem_of_seqZ. lia. }
  apply submseteq_length in Hs. rewrite length_seqZ in Hs. unfold n_locales in *. lia.
Qed.

Lemma visit_edges_ok id n i L :
  0 <= id < N → 0 <= i → i + Z.of_nat n = N → NoDup L → Forall (λ x, 0 <= x < N) L →
  ∃ new, visit_edges g id n i L = Ok (L ++ new) ∧ NoDup (L ++ new) ∧
    Forall (λ x, 0 <= x < N) (L ++ new) ∧
    ∀ y, y ∈ new ↔ i <= y ∧ adj g id y ∧ y ∉ L.
Proof.
  intros Hid. revert i L. induction n as [|n IH]; intros i L Hi Hn Hnd Hr; cbn [visit_edges].
  { exists []. rewrite app_nil_r. split; [done|]. split; [done|]. split; [done|].
    intros y. split; [by intros ?%elem_of_nil|]. intros (? & [? _] & _). lia. }
  destruct (read_edge_ok id i Hid) as (b & -> & Hb); [lia|]. cbn [mbind res_bind].
  destruct (b && negb (contains i L)) eqn:E.
  - apply andb_true_iff in E as [Hb1 Hc]. rewrite Hb in Hb1.
    apply negb_true_iff in Hc. rewrite <- not_true_iff_false, contains_spec in Hc.
    assert (Hnd' : NoDup (L ++ [i])).
    { apply NoDup_app. split; [done|]. split; [|apply NoDup_singleton].
      by intros x Hx ->%list_elem_of_singleton. }
    assert (Hr' : Forall (λ x, 0 <= x < N) (L ++ [i])).
    { apply Forall_app. split; [done|]. constructor; [lia|done]. }
    pose proof (length_in_range _ Hnd' Hr') as Hlen. rewrite length_app in Hlen. cbn in Hlen.
    rewrite (proj2 (Z.ltb_lt _ _)) by lia. cbn [mbind res_bind].
    destruct (IH (i + 1) (L ++ [i])) as (new & -> & Hnd2 & Hr2 & Hnew); [lia|lia|done|done|].
    exists (i :: new). rewrite <- app_assoc in *. split; [done|]. split; [done|].
    split; [done|]. intros y. rewrite elem_of_cons, Hnew, elem_of_app, list_elem_of_singleton.
    split.
    + intros [->|(? & ? & ?)]; [split; [lia|done]|]. split; [lia|]. naive_solver.
    + intros (? & ? & ?). destruct (decide (y = i)); [by left|right]. split; [lia|]. naive_solver.
  - destruct (IH (i + 1) L) as (new & -> & Hnd2 & Hr2 & Hnew); [lia|lia|done|done|].
    exists new. split; [done|]. split; [done|]. split; [done|]. intros y. rewrite Hnew.
    split; intros (? & Ha & ?); [split; [lia|done]|]. split; [|done].
    destruct (decide (y = i)) as [->|]; [|lia]. exfalso.
    apply Hb in Ha. subst b. cbn in E. apply negb_false_iff, contains_spec in E. done.
Qed.

(** The traversal after [v] nodes have been examined: [L] holds distinct
    locales at their distances [ds] from the source, in order. *)
Record bfs_inv (src : Z) (types : list Z) (v : nat) (L : list Z) (ds : list nat) : Prop := {
  bi_nodup : NoDup L;
  bi_range : Forall (λ x, 0 <= x < N) L;
  bi_src : L !! 0%nat = Some src;
  bi_visited : (v <= length L)%nat;
  bi_dist : Forall2 (dist g src) ds L;
  bi_sorted : ∀ i j d e, (i <= j)%nat → ds !! i = Some d → ds !! j = Some e → (d <= e)%nat;
  bi_span : ∀ d j e, ds !! v = Some d → ds !! j = Some e → (e <= S d)%nat;
  bi_closed : ∀ i x y, (i < v)%nat → L !! i = Some x → adj g x y → y ∈ L;
  bi_none : ∀ i x, (i < v)%nat → L !! i = Some x → ¬ has_type g types x
}.

(** Every locale nearer than the one about to be examined has been examined. *)
Lemma bfs_nearer src types v L ds x d j y :
  bfs_inv src types v L ds → L !! v = Some x → ds !! v = Some d →
  reach g src j y → (j < d)%nat → ∃ i, (i < v)%nat ∧ L !! i = Some y.
Proof.
  intros Hi Hx Hd Hr. induction Hr as [|j w y Hr IH Ha]; intros Hj.
  - exists 0%nat. split; [|apply Hi]. destruct v as [|v]; [|lia].
    destruct (Forall2_lookup_lr _ _ _ _ _ _ (bi_dist _ _ _ _ _ Hi) Hd Hx) as [_ Hmin].
    rewrite (bi_src _ _ _ _ _ Hi) in Hx. injection Hx as <-. specialize (Hmin 0%nat).
    specialize (Hmin (reach_O g src)). lia.
  - destruct IH as (i & Hiv & Hw); [lia|].
    pose proof (bi_closed _ _ _ _ _ Hi i w y Hiv Hw Ha) as [k Hk]%list_elem_of_lookup.
    exists k. split; [|done]. destruct (decide (k < v)%nat) as [|Hkv]; [done|exfalso].
    destruct (Forall2_lookup_r _ _ _ _ _ (bi_dist _ _ _ _ _ Hi) Hk) as (e & He & [_ Hmin]).
    specialize (Hmin (S j) (reach_S g src j w y Hr Ha)).
    pose proof (bi_sorted _ _ _ _ _ Hi v k d e ltac:(lia) Hd He). lia.
Qed.

Lemma bfs_step src types v L ds x new :
  bfs_inv src types v L ds → L !! v = Some x → ¬ has_type g types x →
  NoDup (L ++ new) → Forall (λ x, 0 <= x < N) (L ++ new) →
  (∀ y, y ∈ new ↔ 0 <= y ∧ adj g x y ∧ y ∉ L) →
  ∃ ds', bfs_inv src types (S v) (L ++ new) ds'.
Proof.
  intros Hi Hx Hno Hnd Hr Hnew. pose proof (lookup_lt_Some _ _ _ Hx) as Hv.
  destruct (Forall2_lookup_r _ _ _ _ _ (bi_dist _ _ _ _ _ Hi) Hx) as (d & Hd & [Hrd Hmin]).
  pose proof (Forall2_length _ _ _ (bi_dist _ _ _ _ _ Hi)) as Hlen.
  assert (Hds : ∀ j e, (ds ++ replicate (length new) (S d)) !! j = Some e →
    (ds !! j = Some e ∧ (j < length ds)%nat) ∨ (e = S d ∧ (length ds <= j)%nat)).
  { intros j e [H|[Hge H]]%lookup_app_Some.
    - left. split; [done|]. by apply lookup_lt_Some in H.
    - right. apply lookup_replicate in H as [-> _]. done. }
  exists (ds ++ replicate (length new) (S d)). split.
  - done.
  - done.
  - rewrite lookup_app_l by lia. apply Hi.
  - rewrite length_app. lia.
  - apply Forall2_app; [apply Hi|]. apply Forall2_replicate_l; [done|].
    apply Forall_forall. intros y Hy. apply Hnew in Hy as (_ & Ha & HnL).
    split; [by econstructor|]. intros j Hj.
    destruct (decide (S d <= j)%nat) as [|Hlt]; [done|exfalso]. apply HnL.
    inversion Hj as [|k w ? Hk Hkw]; subst.
    + eapply list_elem_of_lookup_2. apply Hi.
    + destruct (bfs_nearer src types v L ds x d k w) as (i & Hiv & Hw); [done..|lia|].
      by apply (bi_closed _ _ _ _ _ Hi i w y).
  - intros i j d1 d2 Hij H1 H2. apply Hds in H1, H2.
    destruct H1 as [[H1 ?]|[-> ?]], H2 as [[H2 ?]|[-> ?]]; try lia.
    + by apply (bi_sorted _ _ _ _ _ Hi i j d1 d2).
    + by apply (bi_span _ _ _ _ _ Hi d i d1).
  - intros d1 j d2 H1 H2. apply Hds in H1, H2.
    assert (d <= d1)%nat.
    { destruct H1 as [[H1 ?]|[-> ?]]; [|lia].
      apply (bi_sorted _ _ _ _ _ Hi v (S v) d d1); (done || lia). }
    destruct H2 as [[H2 ?]|[-> ?]]; [|lia].
    pose proof (bi_span _ _ _ _ _ Hi d j d2 Hd H2). lia.
  - intros i w y Hiv Hw Ha. apply elem_of_app. rewrite lookup_app_l in Hw by lia.
    destruct (decide (i = v)) as [->|].
    + assert (w = x) as -> by congruence.
      destruct (decide (y ∈ L)); [by left|right]. apply Hnew. destruct Ha as [[? ?] ?]. done.
    + left. apply (bi_closed _ _ _ _ _ Hi i w y); (done || lia).
  - intros i w Hiv Hw. rewrite lookup_app_l in Hw by lia.
    destruct (decide (i = v)) as [->|]; [by assert (w = x) as -> by congruence|].
    apply (bi_none _ _ _ _ _ Hi i w); (done || lia).
Qed.

(** What the search answers. *)
Definition search_result (src : Z) (types : list Z) (m : res (option Z)) : Prop :=
  match m with
  | Ok (Some x) =>
      has_type g types x ∧
      ∃ k, dist g src k x ∧ ∀ j y, reach g src j y → has_type g types y → (k <= j)%nat
  | Ok None => ∀ y, 0 <= y < N → ¬ has_type g types y
  | Err UninitRead =>
      (∀ j y, reach g src j y → ¬ has_type g types y) ∧
      ∃ z, 0 <= z < N ∧ ∀ j, ¬ reach g src j z
  | Err _ => False
  end.

(** When every position of [to_visit] has been visited, every locale has. *)
Lemma bfs_all_visited src types v L ds y :
  bfs_inv src types v L ds → v = length (gr_locales g) → 0 <= y < N → ¬ has_type g types y.
Proof.
  intros Hi Hv Hy. pose proof (length_in_range L (bi_nodup _ _ _ _ _ Hi) (bi_range _ _ _ _ _ Hi)) as Hl.
  pose proof (bi_visited _ _ _ _ _ Hi). unfold n_locales in *.
  assert (y ∈ L) as [i Hyi]%list_elem_of_lookup.
  { assert (L ≡ₚ seqZ 0 N) as ->; [|apply elem_of_seqZ; unfold n_locales; lia].
    apply submseteq_length_Permutation.
    - apply NoDup_submseteq; [apply Hi|]. intros x Hx.
      apply (proj1 (Forall_forall _ _) (bi_range _ _ _ _ _ Hi)) in Hx.
      apply elem_of_seqZ. unfold n_locales in *. lia.
    - rewrite length_seqZ. unfold n_locales. lia. }
  apply (bi_none _ _ _ _ _ Hi i y); [|done]. apply lookup_lt_Some in Hyi. lia.
Qed.

(** When the queue is exhausted before, it holds what is reachable, and some
    locale is not. *)
Lemma bfs_exhausted src types v L ds :
  bfs_inv src types v L ds → (v < length (gr_locales g))%nat → L !! v = None →
  (∀ j y, reach g src j y → ¬ has_type g types y) ∧ ∃ z, 0 <= z < N ∧ ∀ j, ¬ reach g src j z.
Proof.
  intros Hi Hv Hx%lookup_ge_None. pose proof (bi_visited _ _ _ _ _ Hi).
  assert (Hall : ∀ j y, reach g src j y → ∃ i, L !! i = Some y).
  { intros j y Hj. induction Hj as [|j w y Hj [i Hw] Ha]; [exists 0%nat; apply Hi|].
    apply list_elem_of_lookup, (bi_closed _ _ _ _ _ Hi i w y); [|done..].
    apply lookup_lt_Some in Hw. lia. }
  split.
  - intros j y Hj. destruct (Hall j y Hj) as (i & Hyi).
    apply (bi_none _ _ _ _ _ Hi i y); [|done]. apply lookup_lt_Some in Hyi. lia.
  - destruct (decide (Forall (λ z, z ∈ L) (seqZ 0 N))) as [Hin|Hout].
    + exfalso. assert (seqZ 0 N ⊆+ L) as Hs.
      { apply NoDup_submseteq; [apply NoDup_seqZ|]. by apply Forall_forall. }
      apply submseteq_length in Hs. rewrite length_seqZ in Hs. unfold n_locales in Hs. lia.
    + apply not_Forall_Exists, Exists_exists in Hout as (z & Hz & HzL); [|apply _].
      apply elem_of_seqZ in Hz. exists z. split; [lia|]. intros j Hj.
      destruct (Hall j z Hj) as (i & Hzi). apply HzL. by eapply list_elem_of_lookup_2.
Qed.

Lemma bfs_loop_ok src types v L ds fuel :
  bfs_inv src types v L ds → (v + fuel)%nat = length (gr_locales g) →
  search_result src types (bfs_loop fuel g types v L).
Proof.
  revert v L ds. induction fuel as [|fuel IH]; intros v L ds Hi Hf; cbn [bfs_loop].
  { cbn. intros y. apply (bfs_all_visited src types v L ds); [done|lia]. }
  destruct (L !! v) as [x|] eqn:Hx; [|apply (bfs_exhausted src types v L ds); [done|lia|done]].
  pose proof (bi_range _ _ _ _ _ Hi) as Hr. rewrite Forall_lookup in Hr.
  pose proof (Hr v x Hx) as Hxr. destruct Hg as (Hids & _).
  destruct (array_get_lt (gr_locales g) x) as (l & -> & Hl); [done|].
  cbn [mbind res_bind]. pose proof (Hids _ _ Hl) as Hid. rewrite Z2Nat.id in Hid by lia.
  destruct (contains _ types) eqn:Hc.
  - apply contains_spec in Hc. cbn. split; [by exists l|].
    destruct (Forall2_lookup_r _ _ _ _ _ (bi_dist _ _ _ _ _ Hi) Hx) as (d & Hd & Hdx).
    exists d. split; [done|]. intros j y Hj Hy.
    destruct (decide (d <= j)%nat) as [|Hlt]; [done|exfalso].
    destruct (bfs_nearer src types v L ds x d j y) as (i & Hiv & Hyi); [done..|lia|].
    by apply (bi_none _ _ _ _ _ Hi i y).
  - assert (Hno : ¬ has_type g types x).
    { intros (l' & Hl' & Ht). assert (l' = l) as -> by congruence.
      apply contains_spec in Ht. congruence. }
    rewrite Hid.
    destruct (visit_edges_ok x (length (gr_locales g)) 0 L Hxr) as
      (new & -> & Hnd & Hr' & Hnew); [lia|done|apply Hi|apply Hi|].
    cbn [mbind res_bind].
    destruct (bfs_step src types v L ds x new) as (ds' & Hi'); [done..|].
    apply (IH _ _ ds'); [done|lia].
Qed.

Lemma bfs_inv_init src types : 0 <= src < N → bfs_inv src types 0 [src] [0%nat].
Proof.
  intros Hs. split.
  - apply NoDup_singleton.
  - by constructor.
  - done.
  - cbn. lia.
  - repeat constructor. lia.
  - intros [|i] [|j] d e _; cbn; intros [= <-] [= <-]; lia.
  - intros d [|j] e; cbn; intros [= <-] [= <-]; lia.
  - lia.
  - lia.
Qed.
End bfs.

(** ** Lemmas: what the loader builds *)

Definition path_ok (n : Z) (p : hclib_locality_path) : Prop :=
  p ≠ [] ∧ Forall (λ i, 0 <= i < n) p.

Definition paths_ok (n : Z) (w : hclib_worker_paths) : Prop :=
  path_ok n (pop_path w) ∧ path_ok n (steal_path w) ∧ last_successful_steal_locale w = 0.

Definition opt_path_ok (n : Z) (p : option hclib_locality_path) : Prop :=
  match p with None => True | Some p => path_ok n p end.

Lemma parse_path_entries_ok n tokens index json w locales p :
  parse_path_entries n tokens index json w locales = Ok p →
  length p = n ∧ Forall (λ i, 0 <= i < Z.of_nat (length locales)) p.
Proof.
  revert index p. induction n as [|n IH]; intros index p H; cbn in H; res_inv; [done|].
  destruct (find_matching_locale_by_str _ _) as [i|] eqn:E; res_inv.
  match goal with H : parse_path_entries _ _ _ _ _ _ = Ok _ |- _ => apply IH in H as [<- ?] end.
  split; [done|]. constructor; [|done]. apply index_of_Some in E as [? _]. lia.
Qed.

Lemma parse_path_ok tokens start json w locales p :
  parse_locality_path_from_array tokens start json w locales = Ok p →
  path_ok (Z.of_nat (length locales)) p.
Proof.
  unfold parse_locality_path_from_array. intros H; res_inv.
  apply parse_path_entries_ok in H as [Hl Hr]. split; [|done]. intros ->. cbn in Hl.
  match goal with H : (tok_size _ >? 0) = true |- _ => rewrite Z.gtb_ltb in H; apply Z.ltb_lt in H end.
  lia.
Qed.

Lemma array_set_Ok {A} (a : list A) i v b :
  array_set a i v = Ok b →
  b = <[Z.to_nat i := v]> a ∧ 0 <= i < Z.of_nat (length a).
Proof.
  unfold array_set. intros H; res_inv. split; [done|].
  match goal with H : a !! _ = Some _ |- _ => apply lookup_lt_Some in H end. lia.
Qed.

Lemma parse_paths_ok n index json tokens locales wps d r :
  parse_paths n index json tokens locales wps d = Ok r →
  Forall (opt_path_ok (Z.of_nat (length locales))) wps →
  length r.1.2 = length wps ∧ Forall (opt_path_ok (Z.of_nat (length locales))) r.1.2.
Proof.
  revert index wps d. induction n as [|n IH]; intros index wps d H Hw; cbn [parse_paths] in H.
  { res_inv. by cbn. }
  res_inv. destruct x0; res_inv; [by eapply IH|].
  match goal with H : array_set _ _ _ = Ok _ |- _ => apply array_set_Ok in H as [-> ?] end.
  apply IH in H as [Hl Hr].
  - rewrite length_insert in Hl. done.
  - apply Forall_insert; [done|]. by eapply parse_path_ok.
Qed.

Lemma load_worker_paths_ok n i tokens json locales pops steals dp ds r :
  load_worker_paths n i tokens json locales pops steals dp ds = Ok r →
  Forall (opt_path_ok (Z.of_nat (length locales))) pops →
  Forall (opt_path_ok (Z.of_nat (length locales))) steals →
  length r = n ∧ Forall (paths_ok (Z.of_nat (length locales))) r.
Proof.
  intros H Hp Hs. revert i r H. induction n as [|n IH]; intros i r H; cbn [load_worker_paths] in H.
  { res_inv. done. }
  res_inv.
  match goal with H : load_worker_paths _ _ _ _ _ _ _ _ _ = Ok _ |- _ => apply IH in H as [<- Hr] end.
  split; [done|]. constructor; [|done].
  repeat match goal with
  | H : ?l !! _ = Some _, Hf : Forall _ ?l |- _ => apply (Forall_lookup_1 _ _ _ _ Hf) in H
  end.
  split; [|split; [|done]]; cbn.
  - destruct x; res_inv; [done|]. by eapply parse_path_ok.
  - destruct x1; res_inv; [done|]. by eapply parse_path_ok.
Qed.

Definition symmetric (g : hclib_locality_graph) : Prop :=
  ∀ i j, 0 <= i < n_locales g → 0 <= j < n_locales g →
    gr_edges g !! Z.to_nat (edge_at (n_locales g) i j) =
    gr_edges g !! Z.to_nat (edge_at (n_locales g) j i).

Lemma edge_at_inj n i j k l :
  0 <= j < n → 0 <= l < n → edge_at n i j = edge_at n k l → i = k ∧ j = l.
Proof.
  unfold edge_at. intros Hj Hl E.
  assert (i = k) as -> by (destruct (Z.lt_trichotomy i k) as [|[]]; [nia|done|nia]). lia.
Qed.

Lemma find_matching_locale_range token json locales i k :
  find_matching_locale token json locales i = Ok (Some k) →
  i <= k < i + Z.of_nat (length locales).
Proof.
  revert i. induction locales as [|l ls IH]; intros i H; cbn [find_matching_locale] in H; [done|].
  cbn [length]. res_inv. destruct x; res_inv; [lia|]. apply IH in H. lia.
Qed.

Definition ids_ok (locales : list hclib_locale_t) : Prop :=
  ∀ i l, locales !! i = Some l → loc_id l = Z.of_nat i.

Lemma symmetric_set locales edges a b v :
  let n := Z.of_nat (length locales) in
  0 <= a < n → 0 <= b < n → Z.of_nat (length edges) = n * n →
  symmetric (mkGraph locales edges) →
  symmetric (mkGraph locales (<[Z.to_nat (edge_at n b a) := v]>
    (<[Z.to_nat (edge_at n a b) := v]> edges))).
Proof.
  intros n Ha Hb Hlen Hs i j Hi Hj. unfold n_locales in *. cbn in *. fold n in Hi, Hj |- *.
  specialize (Hs i j Hi Hj). unfold n_locales in Hs. cbn in Hs. fold n in Hs.
  assert (Hin : ∀ i j, 0 <= i < n → 0 <= j < n → 0 <= edge_at n i j < Z.of_nat (length edges))
    by (unfold edge_at; intros; nia).
  assert (Heq : ∀ i j k l, 0 <= i < n → 0 <= j < n → 0 <= k < n → 0 <= l < n →
    Z.to_nat (edge_at n i j) = Z.to_nat (edge_at n k l) → i = k ∧ j = l).
  { intros i' j' k l Hi' Hj' Hk Hl He. apply (edge_at_inj n); try lia.
    pose proof (Hin i' j'). pose proof (Hin k l). lia. }
  assert (Hget : ∀ i j, 0 <= i < n → 0 <= j < n →
    <[Z.to_nat (edge_at n b a) := v]> (<[Z.to_nat (edge_at n a b) := v]> edges)
      !! Z.to_nat (edge_at n i j) =
    if decide ((i = a ∧ j = b) ∨ (i = b ∧ j = a)) then Some v
    else edges !! Z.to_nat (edge_at n i j)).
  { intros i' j' Hi' Hj'. destruct (decide (i' = b ∧ j' = a)) as [[-> ->]|H1].
    - rewrite list_lookup_insert_eq by (rewrite length_insert; pose proof (Hin b a); lia).
      by rewrite decide_True by auto.
    - rewrite list_lookup_insert_ne by (intros H%Heq; (done || lia || tauto)).
      destruct (decide (i' = a ∧ j' = b)) as [[-> ->]|H2].
      + rewrite list_lookup_insert_eq by (pose proof (Hin a b); lia). by rewrite decide_True by auto.
      + rewrite list_lookup_insert_ne by (intros H%Heq; (done || lia || tauto)).
        by rewrite decide_False by tauto. }
  rewrite !Hget by done. rewrite Hs.
  destruct (decide ((i = a ∧ j = b) ∨ _)), (decide ((j = a ∧ i = b) ∨ _)); tauto.
Qed.

Lemma load_edges_ok n tokens index json locales edges edges' :
  load_edges n tokens index json locales edges = Ok edges' →
  graph_ok (mkGraph locales edges) → symmetric (mkGraph locales edges) →
  graph_ok (mkGraph locales edges') ∧ symmetric (mkGraph locales edges').
Proof.
  revert index edges. induction n as [|n IH]; intros index edges H Hg Hs; cbn [load_edges] in H.
  { res_inv. done. }
  res_inv.
  match type of H with match ?o with _ => _ end = _ => destruct o as [k1|] end; res_inv.
  match type of H with match ?o with _ => _ end = _ => destruct o as [k2|] end; res_inv.
  repeat match goal with
  | H : find_matching_locale _ _ _ _ = Ok _ |- _ => apply find_matching_locale_range in H
  | H : array_set _ _ _ = Ok _ |- _ => apply array_set_Ok in H as [-> ?]
  end.
  destruct Hg as (Hids & Hlen & Hall). cbn in Hids.
  repeat match goal with H : locales !! _ = Some _ |- _ => apply Hids in H end.
  rewrite Z2Nat.id in * by lia.
  match goal with H1 : loc_id ?a = k1, H2 : loc_id ?b = k2 |- _ => rewrite H1, H2 in * end.
  eapply IH; [exact H|..].
  - split; [done|]. cbn. rewrite !length_insert. split; [done|].
    by repeat apply Forall_insert.
  - apply symmetric_set; (done || lia).
Qed.

Section load_wf.
Context (run_populate : Z → hclib_locale_t → res hclib_locale_t).
(** A module fills the metadata of a locale and leaves what identifies it. *)
Context (Hpop : ∀ f l l', run_populate f l = Ok l' →
  loc_id l' = loc_id l ∧ loc_lbl l' = loc_lbl l ∧ loc_deques l' = loc_deques l).
#[local] Set Default Proof Using "Type*".

Lemma initialize_locale_ok s r id lbl nworkers l :
  initialize_locale run_populate s r id lbl nworkers = Ok l →
  loc_id l = id ∧ loc_lbl l = lbl ∧ 0 <= nworkers ∧
  loc_deques l = replicate (Z.to_nat nworkers) init_hclib_deque_t.
Proof.
  unfold initialize_locale. destruct (locale_type_of s lbl); [|done]. intros H; res_inv.
  bool_inv. destruct x0; res_inv; [|done].
  apply Hpop in H as (-> & -> & ->). done.
Qed.

Definition locales_ok (nworkers : Z) (locales : list hclib_locale_t) : Prop :=
  ids_ok locales ∧ NoDup (loc_lbl <$> locales) ∧
  Forall (λ l, loc_deques l = replicate (Z.to_nat nworkers) init_hclib_deque_t) locales.

Lemma load_locales_ok n s tokens index json nworkers ls ls' :
  load_locales run_populate n s tokens index json nworkers ls = Ok ls' →
  locales_ok nworkers ls → locales_ok nworkers ls' ∧ length ls' = (length ls + n)%nat.
Proof.
  revert index ls. induction n as [|n IH]; intros index ls H Hok; cbn [load_locales] in H.
  { res_inv. split; [done|lia]. }
  res_inv.
  match goal with H : initialize_locale _ _ _ _ _ _ = Ok _ |- _ =>
    apply initialize_locale_ok in H as (Hid & Hlbl & _ & Hdq) end.
  apply IH in H as [Hok' Hlen].
  { split; [done|]. rewrite length_app in Hlen. cbn in Hlen. lia. }
  destruct Hok as (Hids & Hnd & Hdqs). split; [|split].
  - intros i l [Hl|[Hge Hl]]%lookup_app_Some; [by apply Hids|].
    apply list_lookup_singleton_Some in Hl as [Hi <-]. rewrite Hid. lia.
  - rewrite fmap_app. apply NoDup_app. split; [done|]. split; [|apply NoDup_singleton].
    intros y Hy ->%list_elem_of_singleton. apply list_elem_of_fmap in Hy as (l & Hl & Hin).
    match goal with H : forallb _ _ = true |- _ => rewrite forallb_forall in H;
      specialize (H l) end.
    rewrite <- list_elem_of_In in *. unfold same_str in *.
    assert (negb (bool_decide (loc_lbl x2 = loc_lbl l)) = true) as Hb by auto.
    apply negb_true_iff, bool_decide_eq_false in Hb. congruence.
  - apply Forall_app. split; [done|]. by constructor.
Qed.

Lemma replicate_ok locales :
  ids_ok locales →
  graph_ok (mkGraph locales (replicate (Z.to_nat (Z.of_nat (length locales) *
    Z.of_nat (length locales))) (Some 0))) ∧
  symmetric (mkGraph locales (replicate (Z.to_nat (Z.of_nat (length locales) *
    Z.of_nat (length locales))) (Some 0))).
Proof.
  intros Hids. split.
  - split; [done|]. unfold n_locales. cbn. rewrite length_replicate. split; [lia|].
    by apply Forall_replicate.
  - intros i j Hi Hj. unfold n_locales in *. cbn in *.
    rewrite !lookup_replicate_2 by (unfold edge_at; nia). done.
Qed.

Lemma expect_array_size tokens i n :
  expect_array tokens i = Ok n → Forall (λ t, 0 <= tok_size t) tokens → 0 <= n.
Proof.
  unfold expect_array. intros H Hf; res_inv.
  match goal with H : tokens !! _ = Some _ |- _ => by apply (Forall_lookup_1 _ _ _ _ Hf) in H end.
Qed.

Lemma locales_ok_nil nworkers : locales_ok nworkers [].
Proof. split; [|split; constructor]. intros i l Hl. done. Qed.

Lemma load_tokens_ok s tokens json workers nworkers g wps :
  Forall (λ t, 0 <= tok_size t) tokens →
  load_tokens run_populate s tokens json workers = Ok (nworkers, g, wps) →
  0 <= nworkers ∧ graph_ok g ∧ symmetric g ∧ locales_ok nworkers (gr_locales g) ∧
  Z.of_nat (length wps) = nworkers ∧ Forall (paths_ok (n_locales g)) wps.
Proof.
  unfold load_tokens. intros Hsz H.
  repeat match goal with
  | H : (_ ≫= _) = Ok _ |- _ => apply bind_Ok in H as (? & ? & H)
  | x : (_ * _)%type |- _ => destruct x
  end. res_inv. bool_inv.
  match goal with H : load_locales _ _ _ _ _ _ _ _ = Ok _ |- _ =>
    apply load_locales_ok in H as [Hloc Hnl]; [cbn in Hnl|apply locales_ok_nil] end.
  match goal with H : load_edges _ _ _ _ ?locs (replicate (Z.to_nat (?n * ?n)) _) = Ok _ |- _ =>
    destruct (replicate_ok locs (proj1 Hloc)) as [Hg Hs];
    assert (Hn : 0 <= n) by (by eapply expect_array_size);
    rewrite Hnl, Z2Nat.id in Hg, Hs by lia;
    apply load_edges_ok in H as [Hg' Hs']; [|done..] end.
  match goal with
  | Hp : parse_paths _ _ _ _ _ _ _ = Ok (_, ?p, _), Hq : parse_paths _ _ _ _ _ _ _ = Ok (_, ?q, _),
    H : load_worker_paths _ _ _ _ _ ?p ?q _ _ = Ok _ |- _ =>
    apply parse_paths_ok in Hp as [_ Hp], Hq as [_ Hq]; [|by apply Forall_replicate..];
    apply load_worker_paths_ok in H as [Hwl Hwp]; [|done..]
  end.
  split; [done|]. split; [done|]. split; [done|]. split; [done|]. split; [lia|done].
Qed.

Lemma load_locality_info_ok s contents junk workers nworkers g wps :
  Z.of_nat (length contents) < INT_MAX →
  load_locality_info run_populate s (Some contents) junk workers = Ok (nworkers, g, wps) →
  0 <= nworkers ∧ graph_ok g ∧ symmetric g ∧ locales_ok nworkers (gr_locales g) ∧
  Z.of_nat (length wps) = nworkers ∧ Forall (paths_ok (n_locales g)) wps.
Proof.
  intros Hlen. unfold load_locality_info. intros H.
  apply bind_Ok in H as ([[ntokens p0] t0] & E0 & H).
  apply bind_Ok in H as (? & Hn & H). apply bind_Ok in H as ([[r p] toks] & E & H).
  apply bind_Ok in H as (? & Hr & H). apply bind_Ok in H as (tokens & Ht & H).
  apply hassert_Ok in Hn, Hr. bool_inv. apply deref_Ok in Ht. subst toks.
  eapply load_tokens_ok; [|exact H].
  assert (Hjs : 0 <= Z.of_nat (length contents) <= Z.of_nat (length (contents ++ [0])))
    by (rewrite length_app; lia).
  destruct (count_bound (contents ++ [0]) (Z.of_nat (length contents)) Hjs Hlen ntokens p0 t0)
    as [Hmax Hcount]; [exact E0|].
  assert (Hl : Z.of_nat (length (replicate (Z.to_nat ntokens) junk)) = ntokens)
    by (rewrite length_replicate; lia).
  destruct (jsmn_parse_sizes (contents ++ [0]) (Z.of_nat (length contents))
    (replicate (Z.to_nat ntokens) junk) r p (Some tokens)) as (ts' & [= <-] & Hsz);
    [done|done|lia|by rewrite Hl| |done].
  rewrite Hl. by eapply Hcount; [| |exact E|].
Qed.
End load_wf.

(** ** Properties *)

(** C20: A locality file that loads describes a well-formed platform: locale ids
    are the indices of the locales and labels are distinct, the edge matrix is
    square, fully written and symmetric, every worker has its paths, no path is
    empty or leaves the array of locales, and every locale has one empty deque
    per worker. *)
Theorem load_locality_well_formed run_populate s contents junk workers nworkers g wps :
  (∀ f l l', run_populate f l = Ok l' →
    loc_id l' = loc_id l ∧ loc_lbl l' = loc_lbl l ∧ loc_deques l' = loc_deques l) →
  Z.of_nat (length contents) < INT_MAX →
  load_locality_info run_populate s (Some contents) junk workers = Ok (nworkers, g, wps) →
  0 <= nworkers ∧ graph_ok g ∧ symmetric g ∧ NoDup (loc_lbl <$> gr_locales g) ∧
  Z.of_nat (length wps) = nworkers ∧ Forall (paths_ok (n_locales g)) wps ∧
  Forall (λ l, loc_deques l = replicate (Z.to_nat nworkers) init_hclib_deque_t) (gr_locales g).
Proof.
  intros Hpop Hlen H.
  destruct (load_locality_info_ok run_populate Hpop s contents junk workers nworkers g wps Hlen H)
    as (Hn & Hg & Hs & (_ & Hnd & Hd) & Hw & Hp).
  split; [done|]. split; [done|]. split; [done|]. split; [done|]. split; [done|]. by split.
Qed.

(** A locality file, with [']  for the double quotes. *)
Definition json_text (s : string) : list Z :=
  (λ c, if c =? 39 then 34 else c) <$> chars s.
#[global] Arguments json_text s%_string.

Definition two_cores : list Z := json_text
  "{'nworkers': 2, 'declarations': ['sysmem', 'L10', 'L1'],
    'reachability': [['sysmem', 'L1']],
    'pop_paths': {'default': ['L1', 'sysmem'], 0: ['L1$(id)', 'sysmem']},
    'steal_paths': {'default': ['sysmem']}}".

Definition two_core_types : locality_state :=
  mkLS [chars "sysmem"; chars "L1"] None None.

Definition no_token : jsmntok_t := mkTok JSMN_UNDEFINED 0 0 0.

Lemma load_locality_well_formed_witness :
  ∃ g wps, load_locality_info (λ _ l, Ok l) two_core_types (Some two_cores) no_token None
      = Ok (2, g, wps) ∧
    wps = [mkPaths [1; 0] [0] 0; mkPaths [2; 0] [0] 0] ∧ graph_ok g ∧ symmetric g.
Proof.
  destruct (load_locality_info (λ _ l, Ok l) two_core_types (Some two_cores) no_token None)
    as [[[n g] wps]|] eqn:E; [|vm_compute in E; discriminate].
  assert (n = 2 ∧ wps = [mkPaths [1; 0] [0] 0; mkPaths [2; 0] [0] 0]) as [-> ->]
    by (vm_compute in E; by injection E as <- _ <-).
  exists g, [mkPaths [1; 0] [0] 0; mkPaths [2; 0] [0] 0]. split; [done|]. split; [done|].
  destruct (load_locality_well_formed (λ _ l, Ok l) two_core_types two_cores no_token None
    2 g [mkPaths [1; 0] [0] 0; mkPaths [2; 0] [0] 0]) as (_ & Hg & Hs & _).
  - clear E. intros f l l' [= <-]. done.
  - vm_compute. reflexivity.
  - exact E.
  - split; [exact Hg|exact Hs].
Defined.

Lemma strncmp_eq_prefix (t rest str : list Z) :
  Forall (λ c, c ≠ 0) t →
  strncmp_eq (length t) (t ++ rest) str = Ok (bool_decide (t `prefix_of` str)).
Proof.
  intros Ht. revert str. induction Ht as [|c t Hc Ht IH]; intros str; cbn.
  - rewrite bool_decide_eq_true_2; [done|apply prefix_nil].
  - destruct str as [|d str].
    + rewrite (proj2 (Z.eqb_neq _ _)) by done. rewrite bool_decide_eq_false_2; [done|].
      apply prefix_nil_not.
    + destruct (Z.eqb_spec c d) as [->|Hne].
      * rewrite IH. f_equal. apply bool_decide_ext. split; [apply prefix_cons|].
        apply prefix_cons_inv_2.
      * rewrite bool_decide_eq_false_2; [done|]. intros H%prefix_cons_inv_1. done.
Qed.

(** A locale named in the reachability list is looked up by prefix: the
    comparison stops at the end of the name in the file, so the result is the
    first declared locale whose label starts with that name, not the one
    that equals it. *)
Theorem find_matching_locale_first_prefix (token : jsmntok_t) (pre name post : list Z)
    (locales : list hclib_locale_t) :
  tok_type token = JSMN_STRING → tok_start token = Z.of_nat (length pre) →
  tok_end token = Z.of_nat (length (pre ++ name)) → tok_end token <= INT_MAX →
  Forall (λ c, c ≠ 0) name →
  find_matching_locale token (pre ++ name ++ post) locales 0 =
  Ok (index_of (λ l, bool_decide (name `prefix_of` loc_lbl l)) locales 0).
Proof.
  intros Hty Hst Hend Hmax Hname.
  assert (Heq : ∀ str, string_token_equals token (pre ++ name ++ post) str =
    Ok (bool_decide (name `prefix_of` str))).
  { intros str. unfold string_token_equals. rewrite Hty, bool_decide_eq_true_2 by done.
    cbn [negb]. rewrite length_app in Hend.
    rewrite int_sub_id by (unfold INT_MIN; lia). cbn [mbind res_bind].
    rewrite (proj2 (Z.ltb_ge _ _)), (proj2 (Z.ltb_ge _ _)) by lia.
    rewrite Hst, Nat2Z.id, drop_app_length. rewrite Hend, Nat2Z.inj_add.
    replace (Z.to_nat _) with (length name) by lia. by apply strncmp_eq_prefix. }
  generalize 0. induction locales as [|l locales IH]; intros i; cbn; [done|].
  rewrite Heq. cbn. by destruct (bool_decide _).
Qed.

Lemma find_matching_locale_first_prefix_witness :
  let mk lbl := mkLocale 0 0 (chars lbl) None 0 [] None [] in
  find_matching_locale (mkTok JSMN_STRING 2 4 0) (chars "[ L1]") [mk "L10"; mk "L1"]%string 0
    = Ok (Some 0).
Proof.
  intros mk.
  apply (find_matching_locale_first_prefix (mkTok JSMN_STRING 2 4 0)
    (chars "[ ") (chars "L1") (chars "]") [mk "L10"; mk "L1"]%string); try reflexivity.
  - unfold INT_MAX. cbn. lia.
  - repeat constructor; vm_compute; discriminate.
Defined.

(** [check_locality_graph] marks exactly the locales on some worker's pop
    or steal path as reachable, every other locale as not reachable, and
    changes nothing else; the assertion of [deque_push_locale] then fails
    exactly for the locales no worker looks at. *)
Theorem check_locality_graph_marks (g : hclib_locality_graph)
    (wps : list hclib_worker_paths) :
  Forall (paths_ok (n_locales g)) wps →
  ∃ g', check_locality_graph g wps = Ok g' ∧ gr_edges g' = gr_edges g ∧
    length (gr_locales g') = length (gr_locales g) ∧
    ∀ i l, 0 <= i → gr_locales g !! Z.to_nat i = Some l →
      gr_locales g' !! Z.to_nat i =
      Some (set_reachable (bool_decide (on_some_path wps i)) l).
Proof.
  intros Hok. unfold check_locality_graph.
  destruct (mark_workers_ok wps (set_reachable false <$> gr_locales g))
    as (ls & -> & Hlen & Hls).
  { rewrite length_fmap. eapply Forall_impl; [exact Hok|]. intros w ([_ ?] & [_ ?] & _). by split. }
  { eapply Forall_impl; [exact Hok|]. by intros w (_ & _ & ?). }
  rewrite length_fmap in Hlen. eexists. split; [done|]. split; [done|]. split; [done|].
  intros i l Hi Hl. cbn. pose proof (lookup_lt_Some _ _ _ Hl).
  destruct (lookup_lt_is_Some_2 ls (Z.to_nat i)) as [l' Hl']; [lia|].
  rewrite Hl'. destruct (Hls i l' Hi Hl') as (l0 & Hl0 & ->).
  rewrite list_lookup_fmap, Hl in Hl0. cbn in Hl0. injection Hl0 as <-. f_equal.
  destruct (decide (on_some_path wps i)); [rewrite bool_decide_true|rewrite bool_decide_false]; done.
Qed.

Lemma check_locality_graph_marks_witness :
  let l i := mkLocale i 0 [] None 0 [] None [] in
  ∃ g', check_locality_graph (mkGraph [l 0; l 1; l 2] []) [mkPaths [1] [1; 0] 0] = Ok g' ∧
    loc_reachable <$> gr_locales g' = [Some true; Some true; Some false].
Proof.
  intros l. destruct (check_locality_graph_marks (mkGraph [l 0; l 1; l 2] [])
    [mkPaths [1] [1; 0] 0]) as (g' & E & _).
  - repeat constructor; cbn; (discriminate || lia).
  - exists g'. split; [exact E|]. vm_compute in E. injection E as <-. reflexivity.
Defined.

(** ** Lemmas: private and central locales *)

Lemma keep_by_filter (f : Z → bool) l :
  delete_loop (S (length l)) (λ x, Ok (f x)) l 0 = Ok (filter (λ x, f x = true) l).
Proof. by rewrite (delete_loop_filter _ _ f) by (done || lia). Qed.

(** A locale that only worker [i] looks at, on both of its paths, and that no
    module has marked as special. *)
Definition private_to (cx : hclib_context) (i : nat) (x : Z) : Prop :=
  (∃ w, hc_worker_paths cx !! i = Some w ∧ x ∈ pop_path w ∧ x ∈ steal_path w) ∧
  (∀ k w, hc_worker_paths cx !! k = Some w → k ≠ i → x ∉ pop_path w ∧ x ∉ steal_path w) ∧
  (∃ l, gr_locales (hc_graph cx) !! Z.to_nat x = Some l ∧ loc_special_type l = None).

Lemma thread_private_locale_ok cx (i : nat) w :
  hc_worker_paths cx !! i = Some w → paths_in (n_locales (hc_graph cx)) w →
  ∃ r, thread_private_locale cx (Z.of_nat i) w = Ok r ∧
    match r with
    | Some x => private_to cx i x
    | None => ∀ x, ¬ private_to cx i x
    end.
Proof.
  intros Hw [_ Hs]. unfold thread_private_locale. rewrite also_in_pop_filter.
  set (c0 := filter (λ x, x ∈ pop_path w) (steal_path w)).
  rewrite (keep_by_filter (λ curr, negb (on_other_path (hc_worker_paths cx) 0 (Z.of_nat i) curr)) c0).
  cbn [mbind res_bind]. set (c1 := filter _ c0).
  set (special := λ curr : Z, match gr_locales (hc_graph cx) !! Z.to_nat curr with
    | Some l => bool_decide (loc_special_type l = None) | None => false end).
  assert (Hc1 : ∀ x, x ∈ c1 ↔ x ∈ pop_path w ∧ x ∈ steal_path w ∧
    ∀ k w', hc_worker_paths cx !! k = Some w' → k ≠ i → x ∉ pop_path w' ∧ x ∉ steal_path w').
  { intros x. unfold c1, c0. rewrite !list_elem_of_filter, negb_true_iff, <- not_true_iff_false,
      on_other_path_spec.
    split.
    - intros (Hno & Hp & Hst). split; [done|]. split; [done|]. intros k w' Hk Hki.
      split; intros Hx; apply Hno; exists k, w'; (split; [done|]); (split; [lia|]); auto.
    - intros (Hp & Hst & Ho). split; [|done]. intros (k & w' & Hk & Hki & Hx).
      destruct (Ho k w' Hk) as [H1 H2]; [lia|]. tauto. }
  rewrite (delete_loop_filter _ _ special); [|..|lia].
  2: { intros x (_ & Hx & _)%Hc1. apply (proj1 (Forall_forall _ _) Hs) in Hx.
       unfold special. destruct (array_get_lt (gr_locales (hc_graph cx)) x Hx) as (l & -> & ->).
       done. }
  rewrite drop_0. change (take 0 c1) with (@nil Z). cbn [mbind res_bind app].
  eexists. split; [done|].
  assert (Hc2 : ∀ x, x ∈ filter (λ x, special x = true) c1 ↔ private_to cx i x).
  { intros x. rewrite list_elem_of_filter, Hc1. unfold private_to, special. split.
    - intros (Hsp & Hp & Hst & Ho). split; [by exists w|]. split; [done|].
      destruct (gr_locales _ !! _) as [l|]; [|done]. exists l. split; [done|].
      by apply bool_decide_eq_true in Hsp.
    - intros ((w' & Hw' & Hp & Hst) & Ho & l & -> & Hl). assert (w' = w) as -> by congruence.
      split; [by apply bool_decide_eq_true|]. done. }
  destruct (filter _ c1) as [|x c2] eqn:E; cbn.
  - intros x. rewrite <- Hc2. apply not_elem_of_nil.
  - apply Hc2. left.
Qed.

Lemma thread_private_from_ok cx wps (i : nat) :
  (∀ k w, wps !! k = Some w → hc_worker_paths cx !! (i + k)%nat = Some w) →
  Forall (paths_in (n_locales (hc_graph cx))) wps →
  ∃ rs, thread_private_from cx (Z.of_nat i) wps = Ok rs ∧ length rs = length wps ∧
    ∀ k r, rs !! k = Some r →
      match r with
      | Some x => private_to cx (i + k) x
      | None => ∀ x, ¬ private_to cx (i + k) x
      end.
Proof.
  revert i. induction wps as [|w wps IH]; intros i Hk Hp; cbn [thread_private_from].
  { exists []. done. }
  apply Forall_cons in Hp as [Hpw Hp].
  destruct (thread_private_locale_ok cx i w) as (r & -> & Hr); [|done|].
  { rewrite <- (Nat.add_0_r i). by apply Hk. }
  cbn [mbind res_bind]. replace (Z.of_nat i + 1) with (Z.of_nat (S i)) by lia.
  destruct (IH (S i)) as (rs & -> & Hl & Hrs); [|done|].
  { intros k w' Hw'. replace (S i + k)%nat with (i + S k)%nat by lia. by apply Hk. }
  cbn [mbind res_bind]. exists (r :: rs). split; [done|]. split; [cbn; lia|].
  intros [|k] r'; cbn.
  - intros [= <-]. by rewrite Nat.add_0_r.
  - intros Hkr. specialize (Hrs k r' Hkr).
    by replace (i + S k)%nat with (S i + k)%nat by lia.
Qed.

(** On both paths of every worker. *)
Definition central_to (wps : list hclib_worker_paths) (x : Z) : Prop :=
  Forall (λ w, x ∈ steal_path w ∧ x ∈ pop_path w) wps.

Lemma central_candidates_ok wps c :
  ∃ c', central_candidates c wps = Ok c' ∧ ∀ x, x ∈ c' ↔ x ∈ c ∧ central_to wps x.
Proof.
  revert c. induction wps as [|w wps IH]; intros c; cbn [central_candidates].
  { exists c. split; [done|]. intros x. unfold central_to. rewrite Forall_nil. tauto. }
  rewrite keep_duplicates_filter. cbn [mbind res_bind].
  rewrite keep_duplicates_filter. cbn [mbind res_bind].
  destruct (IH (filter (λ x, x ∈ pop_path w) (filter (λ x, x ∈ steal_path w) c)))
    as (c' & -> & Hc'). exists c'. split; [done|]. intros x.
  rewrite Hc', !list_elem_of_filter. unfold central_to. rewrite Forall_cons. tauto.
Qed.

(** A thread-private locale is what its comment says: for each worker the
    function returns a locale that is on both of its paths, on no path of any
    other worker and not special, and returns [NULL] only if there is none. *)
Theorem thread_private_locales_correct (cx : hclib_context) :
  Forall (paths_in (n_locales (hc_graph cx))) (hc_worker_paths cx) →
  ∃ rs, hclib_get_thread_private_locales cx = Ok rs ∧
    length rs = length (hc_worker_paths cx) ∧
    ∀ k r, rs !! k = Some r →
      match r with
      | Some x => private_to cx k x
      | None => ∀ x, ¬ private_to cx k x
      end.
Proof. intros Hp. by apply (thread_private_from_ok cx (hc_worker_paths cx) 0). Qed.

Lemma thread_private_locales_correct_witness :
  let l i sp := mkLocale i 0 [] sp 0 [] None [] in
  let cx := mkContext (mkGraph [l 0 None; l 1 (Some [71]); l 2 None] [])
              [mkPaths [1; 2; 0] [1; 2; 0] 0; mkPaths [0] [0] 0] in
  hclib_get_thread_private_locales cx = Ok [Some 2; None] ∧ private_to cx 0 2.
Proof.
  intros l cx. destruct (thread_private_locales_correct cx) as (rs & E & _ & H).
  - repeat constructor; cbn; lia.
  - vm_compute in E. injection E as <-. split; [reflexivity|]. exact (H 0%nat (Some 2) eq_refl).
Defined.

(** The central place is a locale on the pop and the steal path of every
    worker; [NULL] is returned only if there is none; later calls return the
    same answer without looking at the paths again. *)
Theorem central_place_correct (cx cx' : hclib_context) :
  hc_worker_paths cx ≠ [] →
  ∃ r, hclib_get_central_place cx None = Ok (r, Some r) ∧
    hclib_get_central_place cx' (Some r) = Ok (r, Some r) ∧
    match r with
    | Some x => central_to (hc_worker_paths cx) x
    | None => ∀ x, ¬ central_to (hc_worker_paths cx) x
    end.
Proof.
  intros Hne. unfold hclib_get_central_place.
  destruct (hc_worker_paths cx) as [|w wps]; [done|].
  change (array_get (w :: wps) 0) with (Ok w). cbn [mbind res_bind tail].
  rewrite keep_duplicates_filter. cbn [mbind res_bind].
  destruct (central_candidates_ok wps (filter (λ x, x ∈ pop_path w) (steal_path w)))
    as (c & -> & Hc). cbn [mbind res_bind]. eexists. split; [done|]. split; [done|].
  assert (Hc' : ∀ x, x ∈ c ↔ central_to (w :: wps) x).
  { intros x. rewrite Hc, list_elem_of_filter. unfold central_to. rewrite Forall_cons. tauto. }
  destruct c as [|x c]; cbn; [|apply Hc'; left].
  intros x. rewrite <- Hc'. apply not_elem_of_nil.
Qed.

Lemma central_place_correct_witness :
  let cx := mkContext (mkGraph [] []) [mkPaths [1; 2; 0] [1; 2; 0] 0; mkPaths [2; 0] [0; 2] 0] in
  hclib_get_central_place cx None = Ok (Some 2, Some (Some 2)).
Proof.
  intros cx. destruct (central_place_correct cx cx) as (r & E & _); [discriminate|].
  vm_compute in E. injection E as <-. reflexivity.
Defined.

(** C39: The breadth-first search returns a closest locale: on a graph whose
    edges are all written, the answer has one of the types and no locale with
    one of them is reachable over fewer edges; [NULL] means no locale has the
    types.  But the loop runs once per locale of the platform, so when the
    wanted types are not reachable and some locale is not connected to the
    start, it reads elements of the queue that were never written. *)
Theorem closest_locale_correct (cx : hclib_context) (src : Z) (types : list Z) :
  graph_ok (hc_graph cx) → 0 <= src < n_locales (hc_graph cx) →
  search_result (hc_graph cx) src types (hclib_get_closest_locale_of_types cx src types).
Proof.
  intros Hg Hs. unfold hclib_get_closest_locale_of_types.
  rewrite (proj2 (Z.ltb_lt _ _)) by lia. cbn [hassert mbind res_bind].
  apply (bfs_loop_ok (hc_graph cx) Hg src types 0 [src] [0%nat]); [|done].
  by apply bfs_inv_init.
Qed.

Lemma closest_locale_correct_witness :
  let l i ty := mkLocale i ty [] None 0 [] None [] in
  let g := mkGraph [l 0 5; l 1 6; l 2 7] (Some <$> [0; 1; 0; 1; 0; 0; 0; 0; 0]) in
  hclib_get_closest_locale_of_types (mkContext g []) 0 [7] = Err UninitRead ∧
  search_result g 0 [7] (Err UninitRead).
Proof.
  intros l g. split; [vm_compute; reflexivity|].
  change (Err UninitRead) with (hclib_get_closest_locale_of_types (mkContext g []) 0 [7]).
  apply (closest_locale_correct (mkContext g []) 0 [7]).
  - split; [|split; [reflexivity|cbn; repeat constructor; discriminate]].
    intros [|[|[|i]]] l'; cbn; [intros [= <-]; reflexivity..|discriminate].
  - unfold n_locales. cbn. lia.
Defined.

(** ** Lemmas: the generated graph *)

(** The edges written: those between the root and each other locale. *)
Definition star_edges (n : Z) (upto : Z) (edges : list (option Z)) : Prop :=
  Z.of_nat (length edges) = n * n ∧
  ∀ i j, 0 <= i < n → 0 <= j < n →
    edges !! Z.to_nat (edge_at n i j) =
    Some (if decide ((i = 0 ∧ 0 < j < upto) ∨ (j = 0 ∧ 0 < i < upto)) then Some 1 else None).

Lemma star_edges_set n i edges :
  0 < i < n → star_edges n i edges →
  star_edges n (i + 1) (<[Z.to_nat (edge_at n 0 i) := Some 1]>
    (<[Z.to_nat (edge_at n i 0) := Some 1]> edges)).
Proof.
  intros Hi [Hlen Hs]. split; [by rewrite !length_insert|]. intros a b Ha Hb.
  assert (Hin : ∀ i j, 0 <= i < n → 0 <= j < n → 0 <= edge_at n i j < Z.of_nat (length edges))
    by (unfold edge_at; intros; nia).
  assert (Heq : ∀ i j k l, 0 <= i < n → 0 <= j < n → 0 <= k < n → 0 <= l < n →
    Z.to_nat (edge_at n i j) = Z.to_nat (edge_at n k l) → i = k ∧ j = l).
  { intros i' j' k l Hi' Hj' Hk Hl He. apply (edge_at_inj n); try lia.
    pose proof (Hin i' j'). pose proof (Hin k l). lia. }
  destruct (decide (a = 0 ∧ b = i)) as [[-> ->]|H1].
  { rewrite list_lookup_insert_eq by (rewrite length_insert; pose proof (Hin 0 i); lia).
    by rewrite decide_True by lia. }
  rewrite list_lookup_insert_ne by (intros H%Heq; lia).
  destruct (decide (a = i ∧ b = 0)) as [[-> ->]|H2].
  { rewrite list_lookup_insert_eq by (pose proof (Hin i 0); lia). by rewrite decide_True by lia. }
  rewrite list_lookup_insert_ne by (intros H%Heq; lia). rewrite Hs by done. f_equal.
  destruct (decide ((a = 0 ∧ 0 < b < i) ∨ _)), (decide ((a = 0 ∧ 0 < b < i + 1) ∨ _));
    (done || lia).
Qed.

Section generated.
Context (run_populate : Z → hclib_locale_t → res hclib_locale_t).
Context (Hpop : ∀ f l l', run_populate f l = Ok l' →
  loc_id l' = loc_id l ∧ loc_lbl l' = loc_lbl l ∧ loc_deques l' = loc_deques l).
#[local] Set Default Proof Using "Type*".

Lemma generate_locales_ok n i s nw ls edges wps r :
  generate_locales run_populate n i s nw ls edges wps = Ok r →
  i + Z.of_nat n = 1 + nw → (1 + nw) * (1 + nw) < UINT_MOD → 0 < i → Z.of_nat (length ls) = i → ids_ok ls →
  star_edges (1 + nw) i edges →
  Z.of_nat (length r.1.1) = 1 + nw ∧ ids_ok r.1.1 ∧ star_edges (1 + nw) (1 + nw) r.1.2.
Proof.
  revert i ls edges wps. induction n as [|n IH]; intros i ls edges wps H Hn Hmax Hi Hl Hids Hst;
    cbn [generate_locales] in H.
  { assert (E : i = 1 + nw) by lia. rewrite E in *. res_inv. done. }
  rewrite !to_uint_id in H by (unfold edge_at; nia). res_inv.
  repeat match goal with H : array_set _ _ _ = Ok _ |- _ => apply array_set_Ok in H as [-> _] end.
  match goal with H : initialize_locale _ _ _ _ _ _ = Ok _ |- _ =>
    apply (initialize_locale_ok run_populate Hpop) in H as (Hid & _ & _ & _) end.
  apply IH in H; try lia.
  - done.
  - rewrite length_app. cbn. lia.
  - intros k l [Hk|[Hge Hk]]%lookup_app_Some; [by apply Hids|].
    apply list_lookup_singleton_Some in Hk as [? <-]. rewrite Hid. lia.
  - apply star_edges_set; [lia|done].
Qed.
End generated.

(** The default graph is not fully initialised: [generate_locality_info]
    allocates the edge matrix without clearing it and writes only the edges
    between the root and the workers' locales, so a search for the closest
    locale that does not end at its starting locale reads an indeterminate
    edge. *)
Theorem generated_graph_search_indeterminate run_populate s workers nprocessors
    nworkers g wps src types :
  (∀ f l l', run_populate f l = Ok l' →
    loc_id l' = loc_id l ∧ loc_lbl l' = loc_lbl l ∧ loc_deques l' = loc_deques l) →
  generate_locality_info run_populate s workers nprocessors = Ok (nworkers, g, wps) → nworkers < 65535 →
  0 <= src < n_locales g → ¬ has_type g types src →
  hclib_get_closest_locale_of_types (mkContext g wps) src types = Err UninitRead.
Proof.
  intros Hpop H Hmax Hsrc Hno. unfold generate_locality_info in H.
  apply bind_Ok in H as (nw & _ & H). apply bind_Ok in H as (? & Hnw & H).
  apply hassert_Ok, Z.leb_le in Hnw. apply bind_Ok in H as (n & [-> _]%to_int_Ok & H).
  apply bind_Ok in H as (root & Hroot & H). apply bind_Ok in H as ([[ls edges] wps'] & Hgen & H).
  injection H as -> <- <-. assert ((1 + nworkers) * (1 + nworkers) < UINT_MOD) as Hwrap by (unfold UINT_MOD; nia).
  rewrite to_uint_id in Hgen by nia.
  apply (initialize_locale_ok run_populate Hpop) in Hroot as (Hid & _ & _ & _).
  apply (generate_locales_ok run_populate Hpop) in Hgen as (Hlen & Hids & Hst); cbn in *.
  2: lia. 2: exact Hwrap. 2: lia. 2: lia.
  2: { intros [|i] l Hl; [|done]. cbn in Hl. injection Hl as <-. done. }
  2: { split; [rewrite length_replicate; nia|]. intros i j Hi Hj.
       rewrite decide_False by lia. apply lookup_replicate_2. unfold edge_at. nia. }
  unfold hclib_get_closest_locale_of_types, n_locales in *. cbn in *.
  rewrite (proj2 (Z.ltb_lt _ _)) by lia. cbn [hassert mbind res_bind].
  destruct (array_get_lt ls src Hsrc) as (l & Hg & Hl).
  destruct (length ls) as [|m] eqn:Els; [lia|].
  cbn [bfs_loop lookup list_lookup gr_locales]. rewrite Hg. cbn [mbind res_bind].
  destruct (contains _ types) eqn:Hc.
  { exfalso. apply Hno. exists l. split; [done|]. by apply contains_spec. }
  assert (loc_id l = src) as -> by (rewrite (Hids _ _ Hl); lia).
  destruct Hst as [Helen Hst].
  (* the first indeterminate edge of the row: [src, 0] or [src, 1] *)
  assert (Hread : ∀ j, 0 <= j < 1 + nworkers → read_edge (mkGraph ls edges) src j =
    if decide ((src = 0 ∧ 0 < j) ∨ (j = 0 ∧ 0 < src)) then Ok true else Err UninitRead).
  { intros j Hj. unfold read_edge, n_locales. cbn [gr_locales gr_edges]. rewrite Els, Hlen.
    assert (0 <= edge_at (1 + nworkers) src j) by (unfold edge_at; nia).
    rewrite (array_get_in edges (edge_at (1 + nworkers) src j) _ ltac:(assumption)
      (Hst src j ltac:(lia) Hj)). cbn.
    destruct (decide ((src = 0 ∧ 0 < j < 1 + nworkers) ∨ _)),
      (decide ((src = 0 ∧ 0 < j) ∨ _)); (done || lia). }
  rewrite Els. cbn [visit_edges]. rewrite Hread by lia.
  destruct (decide (_ ∨ _)) as [Hd|]; [|done].
  assert (0 < src) by lia. cbn [mbind res_bind contains andb negb orb].
  rewrite (proj2 (Z.eqb_neq src 0)) by lia. cbn [negb andb].
  unfold n_locales at 1. cbn [gr_locales length]. rewrite Els.
  rewrite (proj2 (Z.ltb_lt _ _)) by lia. cbn [mbind res_bind].
  destruct m as [|m]; [lia|]. cbn [visit_edges]. change (0 + 1) with 1.
  rewrite Hread, decide_False by lia. done.
Qed.

Lemma generated_graph_search_indeterminate_witness :
  ∃ g wps, generate_locality_info (λ _ l, Ok l) two_core_types (Some (chars "2")) 8
      = Ok (2, g, wps) ∧
    hclib_get_closest_locale_of_types (mkContext g wps) 0 [1] = Err UninitRead.
Proof.
  destruct (generate_locality_info (λ _ l, Ok l) two_core_types (Some (chars "2")) 8)
    as [[[n g] wps]|] eqn:E; [|vm_compute in E; discriminate].
  assert (n = 2) as -> by (vm_compute in E; by injection E as <- _ _).
  exists g, wps. split; [reflexivity|].
  apply (generated_graph_search_indeterminate (λ _ l, Ok l) two_core_types
    (Some (chars "2")) 8 2 g wps).
  - clear E. intros f l l' [= <-]. done.
  - exact E.
  - lia.
  - vm_compute in E. injection E as <- _. unfold n_locales. cbn. lia.
  - vm_compute in E. injection E as <- _. intros (l & [= <-] & H). cbn in H.
    by apply list_elem_of_singleton in H.
Defined.
