(* ===== verification/LocalityRun.v ===== *)
(** * The locality graph at run time: where tasks are queued and found

    The runtime part of [src/src/hclib-locality-graph.c]: pushing to a locale,
    popping along a worker's pop path, stealing along its steal path, and the
    counts of queued tasks.  The proofs use the deques only through the
    [WorkQueue] interface of [Deque]. *)

From S2P Require Import Prelude Deque Locality.
From stdpp Require Import options.

(** ** State *)

(** The fields of a worker that this layer reads; [ws->paths] is the worker's
    entry of [hc_worker_paths].

    src/inc/hclib-rt.h:80-106 (_hclib_worker_state) *)
Record worker := mkWorker {
  ws_id : Z;
  ws_nworkers : Z;
  base_intra_socket_workers : Z;
  limit_intra_socket_workers : Z
}.

Definition set_deques (l : hclib_locale_t) (ds : list hclib_internal_deque_t)
    : hclib_locale_t :=
  mkLocale (loc_id l) (loc_type l) (loc_lbl l) (loc_special_type l) (loc_metadata l)
    (loc_idle_funcs l) (loc_reachable l) ds.

Definition set_locales (cx : hclib_context) (ls : list hclib_locale_t) : hclib_context :=
  mkContext (mkGraph ls (gr_edges (hc_graph cx))) (hc_worker_paths cx).

(** Run an operation on the deque of worker [wid] at a locale.

    src/src/hclib-locality-graph.c:726-730 (get_deque_locale) *)
Definition with_deque {A} (cx : hclib_context) (locale wid : Z)
    (op : hclib_internal_deque_t → res (A * hclib_internal_deque_t))
    : res (A * hclib_context) :=
  l ← array_get (gr_locales (hc_graph cx)) locale;
  deq ← array_get (loc_deques l) wid;
  '(r, deq) ← op deq;
  ds ← array_set (loc_deques l) wid deq;
  ls ← array_set (gr_locales (hc_graph cx)) locale (set_deques l ds);
  Ok (r, set_locales cx ls).

(** ** Operations *)

(** src/src/hclib-locality-graph.c:735-740 (deque_push_locale) *)
Definition deque_push_locale (cx : hclib_context) (ws : worker) (locale ele : Z)
    : res (Z * hclib_context) :=
  l ← array_get (gr_locales (hc_graph cx)) locale;
  reachable ← (match loc_reachable l with Some b => Ok b | None => Err UninitRead end);
  _ ← hassert reachable;
  with_deque cx locale (ws_id ws) (λ deq, deque_push deq ele).

(** src/src/hclib-locality-graph.c:749-755 (workers_backlog) *)
Fixpoint backlog_loop (cx : hclib_context) (wid : Z) (path : list Z) (sum_work : Z)
    : res Z :=
  match path with
  | [] => Ok sum_work
  | locale :: path =>
      l ← array_get (gr_locales (hc_graph cx)) locale;
      deq ← array_get (loc_deques l) wid;
      d ← int_sub (dq_tail deq) (dq_head deq);
      backlog_loop cx wid path (to_size (sum_work + d))
  end.

(** src/src/hclib-locality-graph.c:742-758 (workers_backlog) *)
Definition workers_backlog (cx : hclib_context) (ws : worker) : res Z :=
  paths ← array_get (hc_worker_paths cx) (ws_id ws);
  backlog_loop cx (ws_id ws) (pop_path paths) 0.

(** src/src/hclib-locality-graph.c:764-766 (locale_num_tasks) *)
Fixpoint num_tasks_loop (deqs : list hclib_internal_deque_t) (n : nat) (i count : Z)
    : res Z :=
  match n with
  | O => Ok count
  | S n =>
      deq ← array_get deqs i;
      s ← deque_size deq;
      num_tasks_loop deqs n (i + 1) (to_uint (count + s))
  end.

(** src/src/hclib-locality-graph.c:760-768 (locale_num_tasks) *)
Definition locale_num_tasks (cx : hclib_context) (locale : Z) : res Z :=
  l ← array_get (gr_locales (hc_graph cx)) locale;
  num_tasks_loop (loc_deques l) (length (hc_worker_paths cx)) 0 0.

(** src/src/hclib-locality-graph.c:785-804 (locale_pop_task) *)
Fixpoint pop_along (cx : hclib_context) (wid : Z) (path : list Z)
    : res (Z * hclib_context) :=
  match path with
  | [] => Ok (NULL, cx)
  | locale :: path =>
      '(task, cx) ← with_deque cx locale wid deque_pop;
      if negb (task =? NULL) then Ok (task, cx) else pop_along cx wid path
  end.

(** src/src/hclib-locality-graph.c:774-805 (locale_pop_task) *)
Definition locale_pop_task (cx : hclib_context) (ws : worker)
    : res (Z * hclib_context) :=
  paths ← array_get (hc_worker_paths cx) (ws_id ws);
  pop_along cx (ws_id ws) (pop_path paths).

(** What a search for work found: the tasks, the victim and the position of
    the locale on the steal path. *)
Record loot := mkLoot { lt_tasks : list Z; lt_victim : Z; lt_index : Z }.

(** The workers of the same socket: [n] are left, from [j].

    src/src/hclib-locality-graph.c:864-872 (locale_steal_task) *)
Fixpoint steal_intra (cx : hclib_context) (locale locale_index : Z) (n : nat) (j : Z)
    : res (option loot * hclib_context) :=
  match n with
  | O => Ok (None, cx)
  | S n =>
      let victim := j in
      '(stolen, cx) ← with_deque cx locale victim deque_steal;
      match stolen with
      | _ :: _ => Ok (Some (mkLoot stolen victim locale_index), cx)
      | [] => steal_intra cx locale locale_index n (j + 1)
      end
  end.

(** The other workers.

    src/src/hclib-locality-graph.c:876-884 (locale_steal_task) *)
Fixpoint steal_leftover (cx : hclib_context) (ws : worker) (locale locale_index : Z)
    (n : nat) (j : Z) : res (option loot * hclib_context) :=
  match n with
  | O => Ok (None, cx)
  | S n =>
      k ← int_add (limit_intra_socket_workers ws) j;
      victim ← int_rem k (ws_nworkers ws);
      '(stolen, cx) ← with_deque cx locale victim deque_steal;
      match stolen with
      | _ :: _ => Ok (Some (mkLoot stolen victim locale_index), cx)
      | [] => steal_leftover cx ws locale locale_index n (j + 1)
      end
  end.

(** src/src/hclib-locality-graph.c:859-885 (locale_steal_task) *)
Fixpoint steal_along (cx : hclib_context) (ws : worker) (steal : list Z)
    (last_successful_locale : Z) (n : nat) (i : Z) : res (option loot * hclib_context) :=
  match n with
  | O => Ok (None, cx)
  | S n =>
      k ← int_add last_successful_locale i;
      locale_index ← int_rem k (Z.of_nat (length steal));
      locale ← array_get steal locale_index;
      intra ← int_sub (limit_intra_socket_workers ws) (base_intra_socket_workers ws);
      '(found, cx) ← steal_intra cx locale locale_index (Z.to_nat intra)
                       (base_intra_socket_workers ws);
      match found with
      | Some _ => Ok (found, cx)
      | None =>
          leftover ← int_sub (ws_nworkers ws) intra;
          '(found, cx) ← steal_leftover cx ws locale locale_index (Z.to_nat leftover) 0;
          match found with
          | Some _ => Ok (found, cx)
          | None => steal_along cx ws steal last_successful_locale n (i + 1)
          end
      end
  end.

Definition set_last_steal (cx : hclib_context) (wid : Z) (i : Z) : res hclib_context :=
  p ← array_get (hc_worker_paths cx) wid;
  ps ← array_set (hc_worker_paths cx) wid (mkPaths (pop_path p) (steal_path p) i);
  Ok (mkContext (hc_graph cx) ps).

(** The tasks stolen and the victim; no task stands for the result 0, which
    leaves [*out_victim] as it was.

    src/src/hclib-locality-graph.c:843-888 (locale_steal_task) *)
Definition locale_steal_task (cx : hclib_context) (ws : worker)
    : res (list Z * option Z * hclib_context) :=
  paths ← array_get (hc_worker_paths cx) (ws_id ws);
  let steal := steal_path paths in
  '(found, cx) ← steal_along cx ws steal (last_successful_steal_locale paths)
                   (length steal) 0;
  match found with
  | None => Ok ([], None, cx)
  | Some l =>
      cx ← set_last_steal cx (ws_id ws) (lt_index l);
      Ok (lt_tasks l, Some (lt_victim l), cx)
  end.

Definition update_locale (cx : hclib_context) (locale : Z)
    (f : hclib_locale_t → res hclib_locale_t) : res hclib_context :=
  l ← array_get (gr_locales (hc_graph cx)) locale;
  l ← f l;
  ls ← array_set (gr_locales (hc_graph cx)) locale l;
  Ok (set_locales cx ls).

(** src/src/hclib-locality-graph.c:807-813 (locale_register_idle_task) *)
Definition locale_register_idle_task (cx : hclib_context) (locale fp : Z)
    : res hclib_context :=
  update_locale cx locale (λ l,
    Ok (mkLocale (loc_id l) (loc_type l) (loc_lbl l) (loc_special_type l)
          (loc_metadata l) (loc_idle_funcs l ++ [fp]) (loc_reachable l) (loc_deques l))).

(** The functions called, in order.

    src/src/hclib-locality-graph.c:820-826 (locale_run_idle_tasks) *)
Fixpoint run_idle_along (cx : hclib_context) (path : list Z) : res (list Z) :=
  match path with
  | [] => Ok []
  | locale :: path =>
      l ← array_get (gr_locales (hc_graph cx)) locale;
      rest ← run_idle_along cx path;
      Ok (loc_idle_funcs l ++ rest)
  end.

(** src/src/hclib-locality-graph.c:815-827 (locale_run_idle_tasks) *)
Definition locale_run_idle_tasks (cx : hclib_context) (ws : worker) : res (list Z) :=
  paths ← array_get (hc_worker_paths cx) (ws_id ws);
  run_idle_along cx (steal_path paths).

(** src/src/hclib-locality-graph.c:829-837 (hclib_locale_mark_special) *)
Definition hclib_locale_mark_special (cx : hclib_context) (locale : Z)
    (special_type : list Z) : res hclib_context :=
  update_locale cx locale (λ l,
    match loc_special_type l with
    | Some old => _ ← hassert (same_str old special_type); Ok l
    | None =>
        Ok (mkLocale (loc_id l) (loc_type l) (loc_lbl l) (Some special_type)
              (loc_metadata l) (loc_idle_funcs l) (loc_reachable l) (loc_deques l))
    end).

(** ** Abstract specification: a queue per locale and worker *)

Definition queue (cx : hclib_context) (locale wid : Z) : list Z :=
  match gr_locales (hc_graph cx) !! Z.to_nat locale with
  | Some l => match loc_deques l !! Z.to_nat wid with
              | Some d => wq_items d
              | None => []
              end
  | None => []
  end.

(** Deques well formed, one per worker at each locale, no null task. *)
Definition locale_ok (nworkers : Z) (l : hclib_locale_t) : Prop :=
  Z.of_nat (length (loc_deques l)) = nworkers ∧
  Forall (λ d, wq_ok d ∧ Forall (λ t, t ≠ NULL) (wq_items d)) (loc_deques l).

Definition context_ok (nworkers : Z) (cx : hclib_context) : Prop :=
  Forall (locale_ok nworkers) (gr_locales (hc_graph cx)).

(** [cx'] differs from [cx] in at most the queue of [wid] at [locale]. *)
Definition only_queue (cx cx' : hclib_context) (locale wid : Z) : Prop :=
  hc_worker_paths cx' = hc_worker_paths cx ∧ n_locales (hc_graph cx') = n_locales (hc_graph cx) ∧
  ∀ l w, 0 <= l → 0 <= w → (l, w) ≠ (locale, wid) → queue cx' l w = queue cx l w.

Definition same_queues (cx cx' : hclib_context) : Prop :=
  hc_worker_paths cx' = hc_worker_paths cx ∧ n_locales (hc_graph cx') = n_locales (hc_graph cx) ∧
  ∀ l w, 0 <= l → 0 <= w → queue cx' l w = queue cx l w.

(** ** Lemmas *)

Lemma with_deque_spec {A} nw cx locale wid
    (op : hclib_internal_deque_t → res (A * hclib_internal_deque_t))
    (P : list Z → A → list Z → Prop) :
  context_ok nw cx → 0 <= locale < n_locales (hc_graph cx) → 0 <= wid < nw →
  (∀ d, wq_ok d → Forall (λ t, t ≠ NULL) (wq_items d) →
    ∃ r d', op d = Ok (r, d') ∧ wq_ok d' ∧ Forall (λ t, t ≠ NULL) (wq_items d') ∧
      P (wq_items d) r (wq_items d')) →
  ∃ r cx', with_deque cx locale wid op = Ok (r, cx') ∧ context_ok nw cx' ∧
    only_queue cx cx' locale wid ∧ P (queue cx locale wid) r (queue cx' locale wid).
Proof.
  intros Hok Hl Hw Hop. unfold with_deque.
  destruct (array_get_lt (gr_locales (hc_graph cx)) locale Hl) as (l & -> & Hll).
  pose proof (Forall_lookup_1 _ _ _ _ Hok Hll) as [Hlen Hds]. cbn [mbind res_bind].
  destruct (array_get_lt (loc_deques l) wid) as (d & -> & Hd); [lia|]. cbn [mbind res_bind].
  pose proof (Forall_lookup_1 _ _ _ _ Hds Hd) as [Hdok Hdn].
  destruct (Hop d Hdok Hdn) as (r & d' & -> & Hdok' & Hdn' & HP). cbn [mbind res_bind].
  rewrite array_set_in by lia. cbn [mbind res_bind]. rewrite array_set_in by done.
  cbn [mbind res_bind]. eexists _, _. split; [done|].
  pose proof (lookup_lt_Some _ _ _ Hll) as Hlt. pose proof (lookup_lt_Some _ _ _ Hd) as Hdt.
  split; [|split; [split; [done|split; [by unfold n_locales; cbn; rewrite length_insert|]]|]].
  - apply Forall_insert; [done|]. split; cbn; [by rewrite length_insert|].
    by apply Forall_insert.
  - intros l' w' Hl' Hw' Hne. unfold queue. cbn.
    destruct (decide (l' = locale)) as [->|Hll'].
    + rewrite list_lookup_insert_eq, Hll by done. cbn.
      rewrite list_lookup_insert_ne; [done|]. intros E. apply Hne. f_equal. lia.
    + by rewrite list_lookup_insert_ne by lia.
  - unfold queue. cbn. rewrite list_lookup_insert_eq, Hll by done. cbn.
    by rewrite list_lookup_insert_eq, Hd by done.
Qed.

Lemma only_queue_same cx cx' locale wid :
  only_queue cx cx' locale wid → queue cx' locale wid = queue cx locale wid →
  same_queues cx cx'.
Proof.
  intros (Hp & Hn & Hq) He. split; [done|]. split; [done|]. intros l w Hl Hw.
  destruct (decide ((l, w) = (locale, wid))) as [[= -> ->]|]; [done|by apply Hq].
Qed.

Lemma same_queues_only cx1 cx2 cx3 locale wid :
  same_queues cx1 cx2 → only_queue cx2 cx3 locale wid → only_queue cx1 cx3 locale wid.
Proof.
  intros (Hp & Hn & Hq) (Hp' & Hn' & Hq'). split; [congruence|]. split; [congruence|].
  intros l w Hl Hw Hne. rewrite Hq' by done. by apply Hq.
Qed.

Lemma same_queues_trans cx1 cx2 cx3 :
  same_queues cx1 cx2 → same_queues cx2 cx3 → same_queues cx1 cx3.
Proof.
  intros (Hp & Hn & Hq) (Hp' & Hn' & Hq'). split; [congruence|]. split; [congruence|].
  intros l w Hl Hw. rewrite Hq' by done. by apply Hq.
Qed.

Lemma with_deque_pop nw cx locale wid :
  context_ok nw cx → 0 <= locale < n_locales (hc_graph cx) → 0 <= wid < nw →
  ∃ t cx', with_deque cx locale wid deque_pop = Ok (t, cx') ∧ context_ok nw cx' ∧
    ((t = NULL ∧ queue cx locale wid = [] ∧ same_queues cx cx') ∨
     (t ≠ NULL ∧ queue cx locale wid = queue cx' locale wid ++ [t] ∧
      only_queue cx cx' locale wid)).
Proof.
  intros Hok Hl Hw.
  destruct (with_deque_spec nw cx locale wid deque_pop
    (λ q t q', (t = NULL ∧ q = [] ∧ q' = []) ∨ (t ≠ NULL ∧ q = q' ++ [t])) Hok Hl Hw)
    as (t & cx' & -> & Hok' & Ho & HP).
  { intros d Hd Hn. destruct (wq_pop_spec d Hd) as (t & d' & E & Hd' & Hq). exists t, d'.
    split; [done|]. split; [done|]. destruct Hq as [(Hq & -> & Hq')|Hq].
    - rewrite Hq'. split; [done|]. by left.
    - rewrite Hq in Hn. apply Forall_app in Hn as [Hn [Ht _]%Forall_cons].
      split; [done|]. by right. }
  exists t, cx'. split; [done|]. split; [done|]. destruct HP as [(-> & Hq & Hq')|[Ht Hq]].
  - left. split; [done|]. split; [done|]. eapply only_queue_same; [done|congruence].
  - right. done.
Qed.

Lemma with_deque_steal nw cx locale wid :
  context_ok nw cx → 0 <= locale < n_locales (hc_graph cx) → 0 <= wid < nw →
  ∃ ts cx', with_deque cx locale wid deque_steal = Ok (ts, cx') ∧ context_ok nw cx' ∧
    ((ts = [] ∧ queue cx locale wid = [] ∧ same_queues cx cx') ∨
     (∃ t, ts = [t] ∧ queue cx locale wid = t :: queue cx' locale wid ∧
      only_queue cx cx' locale wid)).
Proof.
  intros Hok Hl Hw.
  destruct (with_deque_spec nw cx locale wid deque_steal
    (λ q ts q', (ts = [] ∧ q = [] ∧ q' = []) ∨ (∃ t, ts = [t] ∧ q = t :: q')) Hok Hl Hw)
    as (ts & cx' & -> & Hok' & Ho & HP).
  { intros d Hd Hn. destruct (wq_steal_spec d Hd) as (ts & d' & E & Hd' & Hq & He & Hlen).
    exists ts, d'. split; [done|]. split; [done|]. rewrite Hq in Hn.
    apply Forall_app in Hn as [_ Hn]. split; [done|].
    destruct ts as [|t [|]]; [left|right|cbn in Hlen; lia].
    - rewrite He in * by done. done.
    - by exists t. }
  exists ts, cx'. split; [done|]. split; [done|]. destruct HP as [(-> & Hq & Hq')|(t & -> & Hq)].
  - left. split; [done|]. split; [done|]. eapply only_queue_same; [done|congruence].
  - right. by exists t.
Qed.

(** The first non-empty queue in a list of probes [(locale, victim)]. *)
Definition first_nonempty (cx : hclib_context) (probes : list (Z * Z)) (l w : Z) : Prop :=
  ∃ pre post, probes = pre ++ (l, w) :: post ∧
    (∀ l' w', (l', w') ∈ pre → queue cx l' w' = []) ∧ queue cx l w ≠ [].

Definition all_empty (cx : hclib_context) (probes : list (Z * Z)) : Prop :=
  ∀ l w, (l, w) ∈ probes → queue cx l w = [].

Lemma first_nonempty_cons cx cx' probes l w l0 w0 :
  same_queues cx cx' → queue cx l0 w0 = [] →
  (∀ l w, (l, w) ∈ probes → 0 <= l ∧ 0 <= w) →
  first_nonempty cx' probes l w → first_nonempty cx ((l0, w0) :: probes) l w.
Proof.
  intros (_ & _ & Hq) H0 Hr (pre & post & -> & Hpre & Hne).
  exists ((l0, w0) :: pre), post. split; [done|]. split.
  - intros l' w' [[= -> ->]|Hin]%elem_of_cons; [done|]. rewrite <- Hq; [by apply Hpre|..];
      apply (Hr l' w'); apply elem_of_app; by left.
  - rewrite <- Hq; [done|..]; apply (Hr l w); apply elem_of_app; right; left.
Qed.

Lemma all_empty_cons cx cx' probes l0 w0 :
  same_queues cx cx' → queue cx l0 w0 = [] →
  (∀ l w, (l, w) ∈ probes → 0 <= l ∧ 0 <= w) →
  all_empty cx' probes → all_empty cx ((l0, w0) :: probes).
Proof.
  intros (_ & _ & Hq) H0 Hr He l w [[= -> ->]|Hin]%elem_of_cons; [done|].
  rewrite <- Hq; [by apply He|..]; by apply (Hr l w).
Qed.

Lemma pop_along_ok nw cx wid path :
  context_ok nw cx → 0 <= wid < nw →
  Forall (λ i, 0 <= i < n_locales (hc_graph cx)) path →
  let probes := (λ l, (l, wid)) <$> path in
  ∃ t cx', pop_along cx wid path = Ok (t, cx') ∧ context_ok nw cx' ∧
    ((t = NULL ∧ all_empty cx probes ∧ same_queues cx cx') ∨
     (t ≠ NULL ∧ ∃ l, first_nonempty cx probes l wid ∧
        queue cx l wid = queue cx' l wid ++ [t] ∧ only_queue cx cx' l wid)).
Proof.
  intros Hok Hw Hp. cbn zeta. revert cx Hok Hp.
  induction path as [|l path IH]; intros cx Hok Hp; cbn [pop_along].
  { exists NULL, cx. split; [done|]. split; [done|]. left. split; [done|].
    split; [|done]. intros l w H. by apply elem_of_nil in H. }
  apply Forall_cons in Hp as [Hl Hp].
  destruct (with_deque_pop nw cx l wid Hok Hl Hw) as (t & cx1 & -> & Hok1 & Hc).
  cbn [mbind res_bind fmap list_fmap]. destruct Hc as [(-> & Hq & Hs)|(Ht & Hq & Ho)].
  - rewrite Z.eqb_refl. cbn [negb].
    assert (Hr : ∀ l w, (l, w) ∈ ((λ l, (l, wid)) <$> path) → 0 <= l ∧ 0 <= w).
    { intros l' w' (x & [= -> ->] & Hx)%list_elem_of_fmap.
      apply (proj1 (Forall_forall _ _) Hp) in Hx. lia. }
    destruct (IH cx1 Hok1) as (t & cx2 & -> & Hok2 & Hc); [by destruct Hs as (_ & -> & _)|].
    exists t, cx2. split; [done|]. split; [done|].
    destruct Hc as [(-> & He & Hs2)|(Ht & l' & Hf & Hq2 & Ho)].
    + left. split; [done|]. split; [by eapply all_empty_cons|by eapply same_queues_trans].
    + right. split; [done|]. exists l'. pose proof Hf as Hf0.
      assert (Hl' : 0 <= l' ∧ 0 <= wid).
      { destruct Hf0 as (pre & post & E & _). apply (Hr l' wid). rewrite E.
        apply elem_of_app. right. left. }
      split; [by eapply first_nonempty_cons|].
      split; [|by eapply same_queues_only]. rewrite <- Hq2. destruct Hs as (_ & _ & Hs).
      symmetry. apply Hs; lia.
  - rewrite (proj2 (Z.eqb_neq t NULL)) by done. cbn [negb]. exists t, cx1.
    split; [done|]. split; [done|]. right. split; [done|]. exists l. split; [|done].
    exists [], ((λ l, (l, wid)) <$> path). split; [done|]. split.
    + intros l' w' H. by apply elem_of_nil in H.
    + rewrite Hq. by destruct (queue cx1 l wid).
Qed.

(** The outcome of probing a list of queues for a task to steal. *)
Definition probed (nw : Z) (cx : hclib_context) (probes : list (Z * Z))
    (found : option (list Z * Z * Z)) (cx' : hclib_context) : Prop :=
  context_ok nw cx' ∧
  match found with
  | None => all_empty cx probes ∧ same_queues cx cx'
  | Some (ts, l, w) => ∃ t, ts = [t] ∧ first_nonempty cx probes l w ∧
      queue cx l w = t :: queue cx' l w ∧ only_queue cx cx' l w
  end.

Lemma first_nonempty_in cx probes l w : first_nonempty cx probes l w → (l, w) ∈ probes.
Proof. intros (pre & post & -> & _). apply elem_of_app. right. left. Qed.

(** Probing a list after another. *)
Lemma probed_app nw cx ps1 cx1 ps2 found cx2 :
  (∀ l w, (l, w) ∈ ps2 → 0 <= l ∧ 0 <= w) →
  probed nw cx ps1 None cx1 → probed nw cx1 ps2 found cx2 →
  probed nw cx (ps1 ++ ps2) found cx2.
Proof.
  intros Hr (_ & He & Hs) (Hok & Hf). split; [done|].
  destruct found as [[[ts l] w]|].
  - destruct Hf as (t & -> & Hf & Hq & Ho). exists t. split; [done|].
    pose proof (first_nonempty_in _ _ _ _ Hf) as Hin. apply Hr in Hin.
    pose proof Hs as (_ & _ & Hsq). split.
    + destruct Hf as (pre & post & -> & Hpre & Hne). exists (ps1 ++ pre), post.
      split; [by rewrite <- app_assoc|]. split; [|by rewrite <- Hsq by lia].
      intros l' w' [Hl|Hl]%elem_of_app; [by apply He|]. destruct (Hr l' w') as [? ?].
      { apply elem_of_app. by left. }
      rewrite <- Hsq by done. by apply Hpre.
    + split; [by rewrite <- Hsq by lia|by eapply same_queues_only].
  - destruct Hf as [Hf Hs2]. split; [|by eapply same_queues_trans].
    intros l w [Hl|Hl]%elem_of_app; [by apply He|]. destruct (Hr l w Hl).
    destruct Hs as (_ & _ & Hs). rewrite <- Hs by done. by apply Hf.
Qed.

(** A probe that finds a task ends the search. *)
Lemma probed_prefix nw cx ps1 ps2 r cx' :
  probed nw cx ps1 (Some r) cx' → probed nw cx (ps1 ++ ps2) (Some r) cx'.
Proof.
  destruct r as [[ts l] w]. intros (Hok & t & -> & (pre & post & -> & Hpre & Hne) & Hq & Ho).
  split; [done|]. exists t. split; [done|]. split; [|done].
  exists pre, (post ++ ps2). by rewrite <- app_assoc.
Qed.

Lemma probed_one nw cx l w :
  context_ok nw cx → 0 <= l < n_locales (hc_graph cx) → 0 <= w < nw →
  ∃ ts cx', with_deque cx l w deque_steal = Ok (ts, cx') ∧
    probed nw cx [(l, w)] (match ts with [] => None | _ => Some (ts, l, w) end) cx'.
Proof.
  intros Hok Hl Hw. destruct (with_deque_steal nw cx l w Hok Hl Hw) as (ts & cx' & -> & Hok' & Hc).
  exists ts, cx'. split; [done|]. split; [done|].
  destruct Hc as [(-> & Hq & Hs)|(t & -> & Hq & Ho)].
  - split; [|done]. by intros l' w' [= -> ->]%list_elem_of_singleton.
  - exists t. split; [done|]. split; [|done]. exists [], []. split; [done|]. split.
    + intros l' w' H. by apply elem_of_nil in H.
    + by rewrite Hq.
Qed.

Definition loot_at (locale : Z) (f : option loot) : option (list Z * Z * Z) :=
  (λ f, (lt_tasks f, locale, lt_victim f)) <$> f.

Definition index_is (i : Z) (f : option loot) : Prop :=
  match f with Some f => lt_index f = i | None => True end.

Lemma steal_intra_ok nw cx l li n j :
  context_ok nw cx → 0 <= l < n_locales (hc_graph cx) → 0 <= j → j + Z.of_nat n <= nw →
  ∃ f cx', steal_intra cx l li n j = Ok (f, cx') ∧ index_is li f ∧
    probed nw cx ((λ v, (l, v)) <$> seqZ j (Z.of_nat n)) (loot_at l f) cx'.
Proof.
  revert cx j. induction n as [|n IH]; intros cx j Hok Hl Hj Hn; cbn [steal_intra].
  { exists None, cx. split; [done|]. split; [done|]. split; [done|]. split; [|done].
    intros l' w' H. by apply elem_of_nil in H. }
  rewrite seqZ_cons by lia. cbn [fmap list_fmap].
  destruct (probed_one nw cx l j) as (ts & cx1 & -> & Hp); [done|done|lia|].
  cbn [mbind res_bind]. destruct ts as [|t ts].
  - destruct (IH cx1 (j + 1)) as (f & cx2 & -> & Hi & Hp2); [apply Hp| |lia|lia|].
    { destruct Hp as (_ & _ & (_ & -> & _)). done. }
    exists f, cx2. split; [done|]. split; [done|].
    replace (Z.pred (Z.of_nat (S n))) with (Z.of_nat n) by lia.
    replace (Z.succ j) with (j + 1) by lia.
    apply (probed_app nw cx [(l, j)] cx1 _ _ cx2); [|done|done].
    intros l' w' (v & [= -> ->] & Hv%elem_of_seqZ)%list_elem_of_fmap. lia.
  - eexists _, cx1. split; [done|]. split; [done|]. cbn.
    by apply (probed_prefix nw cx [(l, j)]).
Qed.

(** The victims of the second loop. *)
Definition leftover_victims (ws : worker) (n : nat) (j : Z) : list Z :=
  (λ k, (limit_intra_socket_workers ws + k) mod ws_nworkers ws) <$> seqZ j (Z.of_nat n).

Lemma steal_leftover_ok nw cx ws l li n j :
  context_ok nw cx → 0 <= l < n_locales (hc_graph cx) → ws_nworkers ws = nw → 0 < nw →
  0 <= j → 0 <= limit_intra_socket_workers ws →
  limit_intra_socket_workers ws + j + Z.of_nat n <= INT_MAX →
  ∃ f cx', steal_leftover cx ws l li n j = Ok (f, cx') ∧ index_is li f ∧
    probed nw cx ((λ v, (l, v)) <$> leftover_victims ws n j) (loot_at l f) cx'.
Proof.
  intros Hok Hl Hws Hnw. revert cx j Hok Hl.
  induction n as [|n IH]; intros cx j Hok Hl Hj Hlim Hmax; cbn [steal_leftover].
  { exists None, cx. split; [done|]. split; [done|]. split; [done|]. split; [|done].
    intros l' w' H. by apply elem_of_nil in H. }
  unfold leftover_victims. rewrite seqZ_cons by lia. cbn [fmap list_fmap].
  rewrite int_add_id by (unfold INT_MIN; lia). cbn [mbind res_bind].
  rewrite int_rem_pos by lia. cbn [mbind res_bind]. rewrite Hws in *.
  pose proof (Z.mod_pos_bound (limit_intra_socket_workers ws + j) nw Hnw) as Hm.
  destruct (probed_one nw cx l _ Hok Hl Hm) as (ts & cx1 & -> & Hp).
  cbn [mbind res_bind]. destruct ts as [|t ts].
  - destruct (IH cx1 (j + 1)) as (f & cx2 & -> & Hi & Hp2); [apply Hp| |lia|lia|lia|].
    { destruct Hp as (_ & _ & (_ & -> & _)). done. }
    exists f, cx2. split; [done|]. split; [done|].
    replace (Z.pred (Z.of_nat (S n))) with (Z.of_nat n) by lia.
    replace (Z.succ j) with (j + 1) by lia.
    unfold leftover_victims in Hp2. rewrite Hws in Hp2.
    apply (probed_app nw cx [(l, _)] cx1 _ _ cx2); [|done|done].
    intros l' w' (v & [= -> ->] & (k & -> & Hv)%list_elem_of_fmap)%list_elem_of_fmap.
    pose proof (Z.mod_pos_bound (limit_intra_socket_workers ws + k) nw Hnw). lia.
  - eexists _, cx1. split; [done|]. split; [done|]. cbn.
    by apply (probed_prefix nw cx [(l, _)]).
Qed.

(** The order in which a worker visits the workers at a locale. *)
Definition victims (ws : worker) : list Z :=
  let intra := limit_intra_socket_workers ws - base_intra_socket_workers ws in
  seqZ (base_intra_socket_workers ws) intra ++
  leftover_victims ws (Z.to_nat (ws_nworkers ws - intra)) 0.

Definition worker_ok (ws : worker) : Prop :=
  0 <= ws_id ws < ws_nworkers ws ∧
  0 <= base_intra_socket_workers ws <= limit_intra_socket_workers ws ∧
  limit_intra_socket_workers ws <= ws_nworkers ws ∧ 2 * ws_nworkers ws <= INT_MAX.

(** Every worker is visited, once. *)
Lemma victims_perm ws : worker_ok ws → victims ws ≡ₚ seqZ 0 (ws_nworkers ws).
Proof.
  intros (Hid & Hb & Hl & Hmax). unfold victims, leftover_victims. cbn zeta.
  set (n := ws_nworkers ws) in *. set (b := base_intra_socket_workers ws) in *.
  set (m := limit_intra_socket_workers ws) in *. rewrite Z2Nat.id by lia.
  replace (n - (m - b)) with ((n - m) + b) by lia.
  rewrite (seqZ_app 0 (n - m) b) by lia. rewrite fmap_app.
  assert (E1 : (λ k, (m + k) mod n) <$> seqZ 0 (n - m) = seqZ m (n - m)).
  { apply list_eq. intros i. rewrite list_lookup_fmap.
    destruct (decide (Z.of_nat i < n - m)).
    - rewrite !lookup_seqZ_lt by lia. cbn. f_equal. apply Z.mod_small. lia.
    - rewrite !lookup_seqZ_ge by lia. done. }
  assert (E2 : (λ k, (m + k) mod n) <$> seqZ (0 + (n - m)) b = seqZ 0 b).
  { apply list_eq. intros i. rewrite list_lookup_fmap.
    destruct (decide (Z.of_nat i < b)).
    - rewrite !lookup_seqZ_lt by lia. cbn. f_equal.
      replace (m + (0 + (n - m) + Z.of_nat i)) with (Z.of_nat i + 1 * n) by lia.
      rewrite Z.mod_add by lia. apply Z.mod_small. lia.
    - rewrite !lookup_seqZ_ge by lia. done. }
  rewrite E1, E2. replace n with (b + ((m - b) + (n - m))) at 2 by lia.
  rewrite !seqZ_app by lia. replace (0 + b) with b by lia. replace (b + (m - b)) with m by lia.
  rewrite app_assoc, Permutation_app_comm. done.
Qed.

(** The queues a steal looks at, in order: all victims at a locale, the locales
    from the last successful one around the path. *)
Fixpoint steal_probes (ws : worker) (steal : list Z) (last : Z) (n : nat) (i : Z)
    : list (Z * Z) :=
  match n with
  | O => []
  | S n =>
      (match steal !! Z.to_nat ((last + i) mod Z.of_nat (length steal)) with
       | Some l => (λ v, (l, v)) <$> victims ws
       | None => []
       end) ++ steal_probes ws steal last n (i + 1)
  end.

Lemma steal_probes_range ws steal last n i l w :
  worker_ok ws → Forall (λ i, 0 <= i) steal →
  (l, w) ∈ steal_probes ws steal last n i → 0 <= l ∧ 0 <= w.
Proof.
  intros Hws Hs. revert i. induction n as [|n IH]; intros i; cbn [steal_probes].
  { intros H. by apply elem_of_nil in H. }
  intros [Hin|Hin]%elem_of_app; [|by eapply IH].
  destruct (steal !! _) as [l'|] eqn:E; [|by apply elem_of_nil in Hin].
  apply list_elem_of_fmap in Hin as (v & [= -> ->] & Hv). split.
  - by apply (Forall_lookup_1 _ _ _ _ Hs) in E.
  - rewrite (victims_perm ws Hws) in Hv. apply elem_of_seqZ in Hv. lia.
Qed.

Lemma steal_along_ok cx ws steal last n i :
  let nw := ws_nworkers ws in
  let len := Z.of_nat (length steal) in
  context_ok nw cx → worker_ok ws → Forall (λ i, 0 <= i < n_locales (hc_graph cx)) steal →
  0 <= last < len → 0 <= i → i + Z.of_nat n <= len → 2 * len <= INT_MAX →
  ∃ f cx', steal_along cx ws steal last n i = Ok (f, cx') ∧
    match f with
    | None => probed nw cx (steal_probes ws steal last n i) None cx'
    | Some f => ∃ l, steal !! Z.to_nat (lt_index f) = Some l ∧ 0 <= lt_index f ∧
        probed nw cx (steal_probes ws steal last n i) (Some (lt_tasks f, l, lt_victim f)) cx'
    end.
Proof.
  intros nw len Hok Hws Hst Hlast Hi Hn Hmax. revert cx i Hok Hst Hi Hn.
  induction n as [|n IH]; intros cx i Hok Hst Hi Hn; cbn [steal_along steal_probes].
  { exists None, cx. split; [done|]. split; [done|]. split; [|done].
    intros l w H. by apply elem_of_nil in H. }
  rewrite int_add_id by (unfold INT_MIN; lia). cbn [mbind res_bind].
  rewrite int_rem_pos by lia. cbn [mbind res_bind]. fold len.
  set (li := (last + i) mod len). pose proof (Z.mod_pos_bound (last + i) len) as Hli.
  destruct (array_get_lt steal li) as (l & -> & Hl); [unfold li; lia|]. cbn [mbind res_bind].
  rewrite Hl. pose proof (Forall_lookup_1 _ _ _ _ Hst Hl) as Hlr. cbn in Hlr.
  destruct (Hws) as (Hid & Hb & Hlm & Hw2).
  rewrite int_sub_id by (unfold INT_MIN, INT_MAX in *; lia). cbn [mbind res_bind].
  set (intra := limit_intra_socket_workers ws - base_intra_socket_workers ws).
  destruct (steal_intra_ok nw cx l li (Z.to_nat intra) (base_intra_socket_workers ws))
    as (f & cx1 & -> & Hfi & Hp1); [done|done|lia|unfold nw, intra; lia|].
  cbn [mbind res_bind]. unfold victims. cbn zeta. fold intra.
  rewrite Z2Nat.id in Hp1 by (unfold intra; lia). rewrite fmap_app.
  destruct f as [f|].
  { exists (Some f), cx1. split; [done|]. exists l. cbn in Hfi. rewrite Hfi.
    split; [done|]. split; [unfold li; lia|]. rewrite <- app_assoc. by apply probed_prefix. }
  rewrite int_sub_id by (unfold INT_MIN, INT_MAX, intra in *; lia). cbn [mbind res_bind].
  pose proof Hp1 as (Hok1 & _ & (_ & Hnl & _)).
  destruct (steal_leftover_ok nw cx1 ws l li (Z.to_nat (ws_nworkers ws - intra)) 0)
    as (f & cx2 & -> & Hfi2 & Hp2);
    [done|by rewrite Hnl|done|unfold nw; lia|lia|lia|unfold intra, nw in *; lia|].
  cbn [mbind res_bind].
  assert (Hpa : probed nw cx (((λ v, (l, v)) <$> seqZ (base_intra_socket_workers ws) intra) ++
    ((λ v, (l, v)) <$> leftover_victims ws (Z.to_nat (ws_nworkers ws - intra)) 0))
    (loot_at l f) cx2).
  { apply (probed_app nw cx _ cx1); [|done|done].
    intros l' w' (v & [= -> ->] & (k & -> & Hv)%list_elem_of_fmap)%list_elem_of_fmap.
    pose proof (Z.mod_pos_bound (limit_intra_socket_workers ws + k) (ws_nworkers ws)). lia. }
  destruct f as [f|].
  { exists (Some f), cx2. split; [done|]. exists l. cbn in Hfi2. rewrite Hfi2.
    split; [done|]. split; [unfold li; lia|]. by apply probed_prefix. }
  pose proof Hpa as (Hok2 & _ & (_ & Hnl2 & _)).
  destruct (IH cx2 (i + 1)) as (f & cx3 & -> & Hf); [done|by rewrite Hnl2|lia|lia|].
  exists f, cx3. split; [done|].
  assert (Hr : ∀ l w, (l, w) ∈ steal_probes ws steal last n (i + 1) → 0 <= l ∧ 0 <= w).
  { intros l' w'. apply steal_probes_range; [done|].
    eapply Forall_impl; [exact Hst|]. intros x Hx. cbn in Hx. lia. }
  destruct f as [f|].
  - destruct Hf as (l' & Hl' & Hp0 & Hpf). exists l'. split; [done|]. split; [done|].
    by apply (probed_app nw cx _ cx2).
  - by apply (probed_app nw cx _ cx2).
Qed.

(** Going once around the path visits each of its locales. *)
Lemma steal_probes_all ws steal last l w :
  worker_ok ws → 0 <= last < Z.of_nat (length steal) → l ∈ steal →
  0 <= w < ws_nworkers ws → (l, w) ∈ steal_probes ws steal last (length steal) 0.
Proof.
  intros Hws Hlast [k Hk]%list_elem_of_lookup Hw. pose proof (lookup_lt_Some _ _ _ Hk) as Hlt.
  set (len := Z.of_nat (length steal)) in *.
  assert (Hi : ∃ i, 0 <= i < len ∧ (last + i) mod len = Z.of_nat k).
  { destruct (decide (last <= Z.of_nat k)).
    - exists (Z.of_nat k - last). split; [lia|].
      replace (last + (Z.of_nat k - last)) with (Z.of_nat k) by lia. apply Z.mod_small. lia.
    - exists (Z.of_nat k - last + len). split; [lia|].
      replace (last + (Z.of_nat k - last + len)) with (Z.of_nat k + 1 * len) by lia.
      rewrite Z.mod_add by lia. apply Z.mod_small. lia. }
  destruct Hi as (i & Hi & Hmod).
  assert (Hgen : ∀ n j, j <= i < j + Z.of_nat n → (l, w) ∈ steal_probes ws steal last n j).
  { induction n as [|n IH]; intros j Hj; [lia|]. cbn [steal_probes]. apply elem_of_app.
    destruct (decide (i = j)) as [<-|]; [left|right; apply IH; lia].
    fold len. rewrite Hmod, Nat2Z.id, Hk. apply list_elem_of_fmap. exists w. split; [done|].
    rewrite (victims_perm ws Hws). apply elem_of_seqZ. lia. }
  apply Hgen. lia.
Qed.

Lemma steal_probes_in ws steal last n i l w :
  worker_ok ws → (l, w) ∈ steal_probes ws steal last n i →
  l ∈ steal ∧ 0 <= w < ws_nworkers ws.
Proof.
  intros Hws. revert i. induction n as [|n IH]; intros i; cbn [steal_probes].
  { intros H. by apply elem_of_nil in H. }
  intros [Hin|Hin]%elem_of_app; [|by eapply IH].
  destruct (steal !! _) as [l'|] eqn:E; [|by apply elem_of_nil in Hin].
  apply list_elem_of_fmap in Hin as (v & [= -> ->] & Hv). split.
  - by eapply list_elem_of_lookup_2.
  - rewrite (victims_perm ws Hws) in Hv. apply elem_of_seqZ in Hv. lia.
Qed.

(** The worker's paths are in the platform. *)
Definition worker_paths_ok (cx : hclib_context) (ws : worker) (p : hclib_worker_paths) : Prop :=
  hc_worker_paths cx !! Z.to_nat (ws_id ws) = Some p ∧
  Forall (λ i, 0 <= i < n_locales (hc_graph cx)) (pop_path p) ∧
  Forall (λ i, 0 <= i < n_locales (hc_graph cx)) (steal_path p) ∧
  0 <= last_successful_steal_locale p < Z.of_nat (length (steal_path p)) ∧
  2 * Z.of_nat (length (steal_path p)) <= INT_MAX.

(** ** Properties *)

(** Popping finds a worker's own work: it returns the newest task in the
    first non-empty queue of the worker along its pop path, takes it off that
    queue and touches no other, and it returns [NULL] exactly when all of the
    worker's queues on the path are empty. *)
Theorem locale_pop_task_correct (cx : hclib_context) (ws : worker) (p : hclib_worker_paths) :
  context_ok (ws_nworkers ws) cx → worker_ok ws → worker_paths_ok cx ws p →
  let probes := (λ l, (l, ws_id ws)) <$> pop_path p in
  ∃ t cx', locale_pop_task cx ws = Ok (t, cx') ∧ context_ok (ws_nworkers ws) cx' ∧
    ((t = NULL ∧ all_empty cx probes ∧ same_queues cx cx') ∨
     (t ≠ NULL ∧ ∃ l, first_nonempty cx probes l (ws_id ws) ∧
        queue cx l (ws_id ws) = queue cx' l (ws_id ws) ++ [t] ∧
        only_queue cx cx' l (ws_id ws))).
Proof.
  intros Hok (Hid & _) (Hp & Hpop & _). cbn zeta. unfold locale_pop_task.
  rewrite (array_get_in _ _ _ (proj1 Hid) Hp). by apply pop_along_ok.
Qed.

Definition sample_deque (ts : list Z) : hclib_internal_deque_t :=
  mkDeque 0 (Z.of_nat (length ts)) (list_to_map (imap (λ i t, (Z.of_nat i, t)) ts)).

Definition sample_context : hclib_context :=
  let l i qs := mkLocale i 0 [] None 0 [] (Some true) (sample_deque <$> qs) in
  mkContext (mkGraph [l 0 [[]; [7; 8]]; l 1 [[5; 6]; []]] [])
    [mkPaths [0; 1] [0] 0; mkPaths [1] [1; 0] 1].

Lemma sample_ok w :
  w = 0 ∨ w = 1 → context_ok 2 sample_context ∧ worker_ok (mkWorker w 2 0 1).
Proof.
  intros Hw. split.
  - repeat constructor; vm_compute; try discriminate; auto.
  - repeat split; cbn; unfold INT_MAX; lia.
Qed.

Lemma locale_pop_task_correct_witness :
  ∃ cx', locale_pop_task sample_context (mkWorker 0 2 0 1) = Ok (6, cx') ∧
    queue cx' 1 0 = [5] ∧ queue cx' 0 1 = [7; 8].
Proof.
  destruct (sample_ok 0) as [Hok Hws]; [by left|].
  destruct (locale_pop_task_correct sample_context (mkWorker 0 2 0 1) (mkPaths [0; 1] [0] 0))
    as (t & cx' & E & _ & _); [exact Hok|exact Hws| |].
  - repeat split; cbn; unfold n_locales, INT_MAX; cbn; try lia;
      repeat constructor; lia.
  - assert (t = 6) as -> by (vm_compute in E; by injection E as <- _).
    exists cx'. split; [exact E|]. vm_compute in E. injection E as <-. by vm_compute.
Defined.

(** Stealing looks everywhere it should: it visits the locales of the steal
    path once around from the last successful one and, at each, every worker
    once (those of the same socket first), takes the oldest task of the first
    non-empty queue, names its owner as the victim and remembers the locale; it
    returns no task exactly when every queue of every worker at every locale of
    the path is empty. *)
Theorem locale_steal_task_correct (cx : hclib_context) (ws : worker) (p : hclib_worker_paths) :
  context_ok (ws_nworkers ws) cx → worker_ok ws → worker_paths_ok cx ws p →
  let steal := steal_path p in
  let probes := steal_probes ws steal (last_successful_steal_locale p) (length steal) 0 in
  ∃ ts victim cx', locale_steal_task cx ws = Ok (ts, victim, cx') ∧
    context_ok (ws_nworkers ws) cx' ∧
    ((ts = [] ∧ victim = None ∧ same_queues cx cx' ∧
      ∀ l w, l ∈ steal → 0 <= w < ws_nworkers ws → queue cx l w = []) ∨
     (∃ t l w p', ts = [t] ∧ victim = Some w ∧ first_nonempty cx probes l w ∧
        l ∈ steal ∧ 0 <= w < ws_nworkers ws ∧
        queue cx l w = t :: queue cx' l w ∧
        (∀ l' w', 0 <= l' → 0 <= w' → (l', w') ≠ (l, w) → queue cx' l' w' = queue cx l' w') ∧
        hc_worker_paths cx' = <[Z.to_nat (ws_id ws) := p']> (hc_worker_paths cx) ∧
        pop_path p' = pop_path p ∧ steal_path p' = steal ∧
        0 <= last_successful_steal_locale p' ∧
        steal !! Z.to_nat (last_successful_steal_locale p') = Some l)).
Proof.
  intros Hok Hws (Hp & _ & Hst & Hlast & Hmax). cbn zeta. unfold locale_steal_task.
  pose proof (proj1 Hws) as Hid. rewrite (array_get_in _ _ _ (proj1 Hid) Hp).
  cbn [mbind res_bind].
  destruct (steal_along_ok cx ws (steal_path p) (last_successful_steal_locale p)
    (length (steal_path p)) 0) as (f & cx' & -> & Hf); [done|done|done|done|lia|lia|lia|].
  cbn [mbind res_bind]. destruct f as [f|].
  - destruct Hf as (l & Hl & Hli & Hok' & t & Ets & Hfn & Hq & Ho).
    unfold set_last_steal. destruct (Ho) as (Hpaths & Hn & Hoq).
    rewrite <- Hpaths in Hp. rewrite (array_get_in _ _ _ (proj1 Hid) Hp). cbn [mbind res_bind].
    pose proof (lookup_lt_Some _ _ _ Hp). rewrite array_set_in by lia. cbn [mbind res_bind].
    eexists _, _, _. split; [done|]. split; [done|]. right.
    pose proof (first_nonempty_in _ _ _ _ Hfn) as Hin.
    apply (steal_probes_in ws _ _ _ _ _ _ Hws) in Hin as [Hls Hw].
    exists t, l, (lt_victim f). eexists. split; [done|]. split; [done|]. split; [done|].
    split; [done|]. split; [done|]. split; [done|]. split; [done|].
    cbn. by rewrite Hpaths.
  - destruct Hf as (Hok' & He & Hs). eexists _, _, _. split; [done|]. split; [done|]. left.
    split; [done|]. split; [done|]. split; [done|]. intros l w Hl Hw. apply He.
    by apply steal_probes_all.
Qed.

Lemma locale_steal_task_correct_witness :
  ∃ cx', locale_steal_task sample_context (mkWorker 1 2 0 1) = Ok ([7], Some 1, cx') ∧
    queue cx' 0 1 = [8].
Proof.
  destruct (sample_ok 1) as [Hok Hws]; [by right|].
  destruct (locale_steal_task_correct sample_context (mkWorker 1 2 0 1) (mkPaths [1] [1; 0] 1))
    as (ts & v & cx' & E & _ & _); [exact Hok|exact Hws| |].
  - repeat split; cbn; unfold n_locales, INT_MAX; cbn; try lia;
      repeat constructor; lia.
  - assert (ts = [7] ∧ v = Some 1) as [-> ->] by (vm_compute in E; by injection E as <- <- _).
    exists cx'. split; [exact E|]. vm_compute in E. injection E as <-. by vm_compute.
Defined.
