(* ===== verification/Forasync.v ===== *)
(** * Parallel loops

    The forasync part of [src/src/hclib.c]: the runners, the recursive and the
    flat chunking in one, two and three dimensions, the default tile size, and
    a scheduler that runs the tasks they spawn in any order.  The theorems say
    which loops execute every iteration exactly once under every schedule, and
    which do not. *)

From S2P Require Import Prelude.
From stdpp Require Import options.

(** ** Data *)

(** src/inc/hclib-task.h:53-58 (hclib_loop_domain_t) *)
Record hclib_loop_domain_t := mkLoop { low : Z; high : Z; stride : Z; tile : Z }.

(** src/inc/hclib.h:159-159 (FORASYNC_MODE_RECURSIVE) *)
Definition FORASYNC_MODE_RECURSIVE : Z := 1.

(** src/inc/hclib.h:161-161 (FORASYNC_MODE_FLAT) *)
Definition FORASYNC_MODE_FLAT : Z := 0.

(** A spawned task: the function it runs and its own copy of the loop domains
    ([forasync1D_task_t] and its two- and three-dimensional versions).

    src/inc/hclib-task.h:83-106 (forasync1D_task_t) *)
Inductive forasync_task :=
  | Recursive1D (loop : hclib_loop_domain_t)
  | Runner1D (loop : hclib_loop_domain_t)
  | Recursive2D (loop0 loop1 : hclib_loop_domain_t)
  | Runner2D (loop0 loop1 : hclib_loop_domain_t)
  | Recursive3D (loop0 loop1 loop2 : hclib_loop_domain_t)
  | Runner3D (loop0 loop1 loop2 : hclib_loop_domain_t).

(** What running a piece of code does: the tasks it spawns and the indices at
    which it calls the user's function, both in order. *)
Definition effect_of (T : Type) : Type := list T * list (list Z).
Definition effect : Type := effect_of forasync_task.

Definition seq_effect {T} (a b : effect_of T) : effect_of T := (a.1 ++ b.1, a.2 ++ b.2).

(** [for (i = lo; i < hi; i += st) body(i)].  The number of iterations is at
    most [hi - lo] when the step is positive; a loop that does not end runs
    out of fuel. *)
Fixpoint for_loop {T} (fuel : nat) (i hi st : Z) (body : Z → res (effect_of T)) : res (effect_of T) :=
  match fuel with
  | O => Err OutOfFuel
  | S fuel =>
      if i <? hi then
        e ← body i;
        i ← int_add i st;
        es ← for_loop fuel i hi st body;
        Ok (seq_effect e es)
      else Ok ([], [])
  end.

Definition loop_fuel (lo hi : Z) : nat := S (Z.to_nat (hi - lo)).

Definition call {T} (idx : list Z) : res (effect_of T) := Ok ([], [idx]).
Definition spawn {T} (t : T) : res (effect_of T) := Ok ([t], []).

(** ** Runners *)

(** src/src/hclib.c:110-120 (forasync1D_runner) *)
Definition forasync1D_runner (loop0 : hclib_loop_domain_t) : res effect :=
  for_loop (loop_fuel (low loop0) (high loop0)) (low loop0) (high loop0) (stride loop0)
    (λ i, call [i]).

(** src/src/hclib.c:122-135 (forasync2D_runner) *)
Definition forasync2D_runner (loop0 loop1 : hclib_loop_domain_t) : res effect :=
  for_loop (loop_fuel (low loop0) (high loop0)) (low loop0) (high loop0) (stride loop0)
    (λ i, for_loop (loop_fuel (low loop1) (high loop1)) (low loop1) (high loop1) (stride loop1)
      (λ j, call [i; j])).

(** src/src/hclib.c:137-156 (forasync3D_runner) *)
Definition forasync3D_runner (loop0 loop1 loop2 : hclib_loop_domain_t) : res effect :=
  for_loop (loop_fuel (low loop0) (high loop0)) (low loop0) (high loop0) (stride loop0)
    (λ i, for_loop (loop_fuel (low loop1) (high loop1)) (low loop1) (high loop1) (stride loop1)
      (λ j, for_loop (loop_fuel (low loop2) (high loop2)) (low loop2) (high loop2) (stride loop2)
        (λ k, call [i; j; k]))).

(** ** Recursive chunking *)

(** Is the dimension larger than its tile, and where is it split?

    src/src/hclib.c:167-168 (tile0) *)
Definition split_at (loop : hclib_loop_domain_t) : res (option Z) :=
  n ← int_sub (high loop) (low loop);
  if n >? tile loop then
    s ← int_add (high loop) (low loop);
    mid ← int_div s 2;
    Ok (Some mid)
  else Ok None.

Definition upper (mid : Z) (l : hclib_loop_domain_t) : hclib_loop_domain_t :=
  mkLoop mid (high l) (stride l) (tile l).
Definition lower (mid : Z) (l : hclib_loop_domain_t) : hclib_loop_domain_t :=
  mkLoop (low l) mid (stride l) (tile l).

(** A dimension of at most [2 ^ 32] points is split at most 32 times. *)
Definition split_fuel : nat := 33.

(** src/src/hclib.c:158-190 (forasync1D_recursive) *)
Fixpoint forasync1D_recursive (fuel : nat) (loop0 : hclib_loop_domain_t) : res effect :=
  match fuel with
  | O => Err OutOfFuel
  | S fuel =>
      split ← split_at loop0;
      match split with
      | Some mid =>
          e ← spawn (Recursive1D (upper mid loop0));
          es ← forasync1D_recursive fuel (lower mid loop0);
          Ok (seq_effect e es)
      | None => forasync1D_runner loop0
      end
  end.

(** src/src/hclib.c:192-242 (forasync2D_recursive) *)
Fixpoint forasync2D_recursive (fuel : nat) (loop0 loop1 : hclib_loop_domain_t)
    : res effect :=
  match fuel with
  | O => Err OutOfFuel
  | S fuel =>
      split0 ← split_at loop0;
      match split0 with
      | Some mid =>
          e ← spawn (Recursive2D (upper mid loop0) loop1);
          es ← forasync2D_recursive fuel (lower mid loop0) loop1;
          Ok (seq_effect e es)
      | None =>
          split1 ← split_at loop1;
          match split1 with
          | Some mid =>
              e ← spawn (Recursive2D loop0 (upper mid loop1));
              es ← forasync2D_recursive fuel loop0 (lower mid loop1);
              Ok (seq_effect e es)
          | None => forasync2D_runner loop0 loop1
          end
      end
  end.

(** src/src/hclib.c:244-314 (forasync3D_recursive) *)
Fixpoint forasync3D_recursive (fuel : nat) (loop0 loop1 loop2 : hclib_loop_domain_t)
    : res effect :=
  match fuel with
  | O => Err OutOfFuel
  | S fuel =>
      split0 ← split_at loop0;
      match split0 with
      | Some mid =>
          e ← spawn (Recursive3D (upper mid loop0) loop1 loop2);
          es ← forasync3D_recursive fuel (lower mid loop0) loop1 loop2;
          Ok (seq_effect e es)
      | None =>
          split1 ← split_at loop1;
          match split1 with
          | Some mid =>
              e ← spawn (Recursive3D loop0 (upper mid loop1) loop2);
              es ← forasync3D_recursive fuel loop0 (lower mid loop1) loop2;
              Ok (seq_effect e es)
          | None =>
              split2 ← split_at loop2;
              match split2 with
              | Some mid =>
                  e ← spawn (Recursive3D loop0 loop1 (upper mid loop2));
                  es ← forasync3D_recursive fuel loop0 loop1 (lower mid loop2);
                  Ok (seq_effect e es)
              | None => forasync3D_runner loop0 loop1 loop2
              end
          end
      end
  end.

(** ** Flat chunking *)

(** The loop of the one-dimensional version keeps [low0] for the leftover: the
    result is the effect and the final [low0].

    src/src/hclib.c:325-337 (forasync1D_flat) *)
Fixpoint flat_chunks (fuel : nat) (loop0 : hclib_loop_domain_t) (low0 size : Z)
    : res (effect * Z) :=
  match fuel with
  | O => Err OutOfFuel
  | S fuel =>
      if low0 <? size then
        next ← int_add low0 (tile loop0);
        e ← spawn (Runner1D (mkLoop low0 next (stride loop0) (tile loop0)));
        '(es, last) ← flat_chunks fuel loop0 next size;
        Ok (seq_effect e es, last)
      else Ok (([], []), low0)
  end.

(** src/src/hclib.c:316-351 (forasync1D_flat) *)
Definition forasync1D_flat (loop0 : hclib_loop_domain_t) : res effect :=
  nb_chunks ← int_div (high loop0) (tile loop0);
  size ← int_mul (tile loop0) nb_chunks;
  '(e, low0) ← flat_chunks (loop_fuel (low loop0) size) loop0 (low loop0) size;
  if size <? high loop0 then
    e' ← spawn (Runner1D (mkLoop low0 (high loop0) (stride loop0) (tile loop0)));
    Ok (seq_effect e e')
  else Ok e.

(** One dimension of the other flat versions: the chunks from each [low0] to
    the next, the last one cut at the end.

    src/src/hclib.c:358-359 (forasync2D_flat) *)
Definition chunk_loop (loop : hclib_loop_domain_t) (body : hclib_loop_domain_t → res effect)
    : res effect :=
  for_loop (loop_fuel (low loop) (high loop)) (low loop) (high loop) (tile loop)
    (λ low0, next ← int_add low0 (tile loop);
             body (mkLoop low0 (if next >? high loop then high loop else next)
                     (stride loop) (tile loop))).

(** src/src/hclib.c:353-379 (forasync2D_flat) *)
Definition forasync2D_flat (loop0 loop1 : hclib_loop_domain_t) : res effect :=
  chunk_loop loop0 (λ c0, chunk_loop loop1 (λ c1, spawn (Runner2D c0 c1))).

(** src/src/hclib.c:381-416 (forasync3D_flat) *)
Definition forasync3D_flat (loop0 loop1 loop2 : hclib_loop_domain_t) : res effect :=
  chunk_loop loop0 (λ c0, chunk_loop loop1 (λ c1, chunk_loop loop2
    (λ c2, spawn (Runner3D c0 c1 c2)))).

(** ** Entry points *)

(** src/src/hclib.c:418-450 (forasync_internal) *)
Definition forasync_internal (dim : Z) (loop_domain : list hclib_loop_domain_t)
    (mode : Z) : res effect :=
  _ ← hassert ((dim >? 0) && (dim <? 4));
  l0 ← array_get loop_domain 0;
  if dim =? 1 then
    if mode =? FORASYNC_MODE_RECURSIVE then forasync1D_recursive split_fuel l0
    else forasync1D_flat l0
  else
    l1 ← array_get loop_domain 1;
    if dim =? 2 then
      if mode =? FORASYNC_MODE_RECURSIVE then forasync2D_recursive (split_fuel + split_fuel) l0 l1
      else forasync2D_flat l0 l1
    else
      l2 ← array_get loop_domain 2;
      if mode =? FORASYNC_MODE_RECURSIVE
      then forasync3D_recursive (split_fuel + split_fuel + split_fuel) l0 l1 l2
      else forasync3D_flat l0 l1 l2.

(** A tile of -1 asks for one chunk per worker.

    src/src/hclib.c:456-461 (hclib_forasync) *)
Definition default_tile (nworkers : Z) (l : hclib_loop_domain_t)
    : res hclib_loop_domain_t :=
  if tile l =? -1 then
    n ← int_sub (high l) (low l);
    n ← int_add n nworkers;
    n ← int_sub n 1;
    t ← int_div n nworkers;
    Ok (mkLoop (low l) (high l) (stride l) t)
  else Ok l.

(** src/src/hclib.c:456-461 (hclib_forasync) *)
Fixpoint default_tiles (n : nat) (nworkers : Z) (domain : list hclib_loop_domain_t)
    : res (list hclib_loop_domain_t) :=
  match n, domain with
  | O, _ => Ok domain
  | S n, l :: domain =>
      l ← default_tile nworkers l;
      rest ← default_tiles n nworkers domain;
      Ok (l :: rest)
  | S _, [] => Err BadDeref
  end.

(** src/src/hclib.c:452-464 (hclib_forasync) *)
Definition hclib_forasync (nworkers dim : Z) (domain : list hclib_loop_domain_t)
    (mode : Z) : res effect :=
  domain ← default_tiles (Z.to_nat dim) nworkers domain;
  forasync_internal dim domain mode.

(** ** Running the spawned tasks *)

(** What a worker does with a task it has taken. *)
Definition run_task (t : forasync_task) : res effect :=
  match t with
  | Recursive1D l0 => forasync1D_recursive split_fuel l0
  | Runner1D l0 => forasync1D_runner l0
  | Recursive2D l0 l1 => forasync2D_recursive (split_fuel + split_fuel) l0 l1
  | Runner2D l0 l1 => forasync2D_runner l0 l1
  | Recursive3D l0 l1 l2 => forasync3D_recursive (split_fuel + split_fuel + split_fuel) l0 l1 l2
  | Runner3D l0 l1 l2 => forasync3D_runner l0 l1 l2
  end.

(** The pending tasks and the calls made so far.  Any pending task may be taken
    next. *)
Inductive sched_step : effect → effect → Prop :=
  | take_task pre t post done e :
      run_task t = Ok e →
      sched_step (pre ++ t :: post, done) (pre ++ post ++ e.1, done ++ e.2).

Inductive sched_steps : nat → effect → effect → Prop :=
  | steps_O e : sched_steps 0 e e
  | steps_S n e1 e2 e3 : sched_step e1 e2 → sched_steps n e2 e3 → sched_steps (S n) e1 e3.

(** No pending task can fail. *)
Definition sched_safe (e : effect) : Prop := ∀ t, t ∈ e.1 → ∃ e', run_task t = Ok e'.

(** Every schedule that starts in [e] is finite, no task fails in it, and when
    it cannot go on it has made exactly the calls [space], in some order. *)
Definition completes (e : effect) (space : list (list Z)) : Prop :=
  ∃ bound, ∀ n e', sched_steps n e e' →
    (n <= bound)%nat ∧ sched_safe e' ∧ (e'.1 = [] → e'.2 ≡ₚ space).

(** ** The iteration space *)

Definition pts (lo hi st : Z) : list Z :=
  (λ k, lo + k * st) <$> seqZ 0 ((hi - lo + st - 1) / st).
Definition points (l : hclib_loop_domain_t) : list Z := pts (low l) (high l) (stride l).

Definition space1 (l0 : hclib_loop_domain_t) : list (list Z) :=
  points l0 ≫= λ i, [[i]].
Definition space2 (l0 l1 : hclib_loop_domain_t) : list (list Z) :=
  points l0 ≫= λ i, points l1 ≫= λ j, [[i; j]].
Definition space3 (l0 l1 l2 : hclib_loop_domain_t) : list (list Z) :=
  points l0 ≫= λ i, points l1 ≫= λ j, points l2 ≫= λ k, [[i; j; k]].

(** Bounds under which no index overflows. *)
Definition loop_ok (l : hclib_loop_domain_t) : Prop :=
  -1073741824 <= low l <= 1073741823 ∧ -1073741824 <= high l <= 1073741823 ∧
  1 <= stride l <= 1073741824 ∧ 1 <= tile l <= 1073741824.

(** ** Lemmas: iteration spaces *)

Lemma pts_nil lo hi st : 1 <= st → hi <= lo → pts lo hi st = [].
Proof.
  intros Hst Hle. unfold pts. rewrite seqZ_nil; [done|].
  assert ((hi - lo + st - 1) / st < 1) by (apply Z.div_lt_upper_bound; lia). lia.
Qed.

Lemma pts_cons lo hi st : 1 <= st → lo < hi → pts lo hi st = lo :: pts (lo + st) hi st.
Proof.
  intros Hst Hlt. unfold pts.
  replace (hi - (lo + st) + st - 1) with (hi - lo + st - 1 + (-1) * st) by lia.
  rewrite Z.div_add by lia. set (n := (hi - lo + st - 1) / st).
  assert (1 <= n) by (apply Z.div_le_lower_bound; lia).
  rewrite seqZ_cons by lia. cbn [fmap list_fmap]. f_equal; [lia|].
  replace (Z.pred n) with (n + -1) by lia. apply list_eq. intros i. rewrite !list_lookup_fmap.
  destruct (decide (Z.of_nat i < n + -1)).
  - rewrite !lookup_seqZ_lt by lia. cbn. f_equal. lia.
  - rewrite !lookup_seqZ_ge by lia. done.
Qed.

Lemma pts_app lo mid hi st (q : nat) :
  1 <= st → mid = lo + Z.of_nat q * st → mid <= hi →
  pts lo hi st = pts lo mid st ++ pts mid hi st.
Proof.
  intros Hst. revert lo. induction q as [|q IH]; intros lo Hmid Hhi.
  - rewrite (pts_nil lo mid) by lia. by replace mid with lo by lia.
  - rewrite (pts_cons lo hi), (pts_cons lo mid) by lia. cbn [app]. f_equal. apply IH; lia.
Qed.

(** Cutting a range into chunks whose size is a multiple of the stride. *)
Lemma pts_chunks lo hi st (q : nat) ti :
  1 <= st → ti = Z.of_nat q * st → 1 <= ti →
  (pts lo hi ti ≫= λ c, pts c (if c + ti >? hi then hi else c + ti) st) = pts lo hi st.
Proof.
  intros Hst Hti Hpos. remember (Z.to_nat (hi - lo)) as n eqn:Hn. revert lo Hn.
  induction n as [n IH] using lt_wf_ind. intros lo Hn.
  destruct (decide (hi <= lo)); [by rewrite !pts_nil by lia|].
  rewrite (pts_cons lo hi ti) by lia. cbn [mbind list_bind].
  rewrite Z.gtb_ltb. destruct (Z.ltb_spec hi (lo + ti)).
  - rewrite (pts_nil (lo + ti)) by lia. cbn. by rewrite app_nil_r.
  - rewrite (pts_app lo (lo + ti) hi st q) by lia. f_equal.
    apply (IH (Z.to_nat (hi - (lo + ti)))); lia.
Qed.

Lemma bind_perm {A B} (f g : A → list B) l :
  (∀ x, x ∈ l → f x ≡ₚ g x) → (l ≫= f) ≡ₚ (l ≫= g).
Proof.
  induction l as [|x l IH]; intros H; cbn; [done|].
  rewrite (H x) by left. rewrite IH; [done|]. intros y Hy. apply H. by right.
Qed.

Lemma bind_app_r {A B} (f g : A → list B) l :
  (l ≫= λ x, f x ++ g x) ≡ₚ (l ≫= f) ++ (l ≫= g).
Proof.
  induction l as [|x l IH]; cbn; [done|]. rewrite IH. solve_Permutation.
Qed.

Lemma bind_nil_r {A B} (l : list A) : (l ≫= λ _, @nil B) = [].
Proof. by induction l. Qed.

Lemma bind_swap {A B C} (f : A → B → list C) l k :
  (l ≫= λ x, k ≫= λ y, f x y) ≡ₚ (k ≫= λ y, l ≫= λ x, f x y).
Proof.
  induction l as [|x l IH]; cbn; [by rewrite bind_nil_r|]. by rewrite bind_app_r, IH.
Qed.

Lemma bind_bind {A B C} (f : A → list B) (g : B → list C) l :
  ((l ≫= f) ≫= g) = (l ≫= λ x, f x ≫= g).
Proof. induction l as [|x l IH]; cbn; [done|]. by rewrite bind_app, IH. Qed.

(** ** Lemmas: loops *)

Lemma for_loop_ok fuel i hi st body (f : Z → effect) :
  1 <= st → 0 `max` (hi - i) < Z.of_nat fuel → hi + st <= INT_MAX → INT_MIN <= i →
  (∀ x, x ∈ pts i hi st → body x = Ok (f x)) →
  for_loop fuel i hi st body =
  Ok (pts i hi st ≫= (λ x, (f x).1), pts i hi st ≫= (λ x, (f x).2)).
Proof.
  intros Hst. revert i. induction fuel as [|fuel IH]; intros i Hf Hmax Hmin Hb; cbn [for_loop].
  - lia.
  - destruct (Z.ltb_spec i hi) as [Hlt|Hge]; [|by rewrite pts_nil by lia].
    rewrite pts_cons in * by lia. rewrite Hb by left. cbn [mbind res_bind].
    rewrite int_add_id by lia. cbn [mbind res_bind].
    rewrite IH; [done|lia|lia|lia|]. intros x Hx. apply Hb. by right.
Qed.

Lemma runner_ok l (body : Z → res effect) (f : Z → effect) :
  loop_ok l → (∀ x, body x = Ok (f x)) →
  for_loop (loop_fuel (low l) (high l)) (low l) (high l) (stride l) body =
  Ok (points l ≫= (λ x, (f x).1), points l ≫= (λ x, (f x).2)).
Proof.
  intros (Hl & Hh & Hs & Ht) Hb. unfold points. apply for_loop_ok; try done.
  - lia.
  - unfold loop_fuel. lia.
  - unfold INT_MAX. lia.
  - unfold INT_MIN. lia.
Qed.

Lemma runner1_ok l0 : loop_ok l0 → forasync1D_runner l0 = Ok ([], space1 l0).
Proof.
  intros H0. unfold forasync1D_runner.
  rewrite (runner_ok l0 _ (λ i, ([], [[i]]))) by done. cbn. by rewrite bind_nil_r.
Qed.

Lemma runner2_ok l0 l1 :
  loop_ok l0 → loop_ok l1 → forasync2D_runner l0 l1 = Ok ([], space2 l0 l1).
Proof.
  intros H0 H1. unfold forasync2D_runner.
  rewrite (runner_ok l0 _ (λ i, ([], points l1 ≫= λ j, [[i; j]]))); [|done|].
  - cbn. by rewrite bind_nil_r.
  - intros i. rewrite (runner_ok l1 _ (λ j, ([], [[i; j]]))) by done.
    cbn. by rewrite bind_nil_r.
Qed.

Lemma runner3_ok l0 l1 l2 :
  loop_ok l0 → loop_ok l1 → loop_ok l2 → forasync3D_runner l0 l1 l2 = Ok ([], space3 l0 l1 l2).
Proof.
  intros H0 H1 H2. unfold forasync3D_runner.
  rewrite (runner_ok l0 _ (λ i, ([], points l1 ≫= λ j, points l2 ≫= λ k, [[i; j; k]]))); [|done|].
  - cbn. by rewrite bind_nil_r.
  - intros i. rewrite (runner_ok l1 _ (λ j, ([], points l2 ≫= λ k, [[i; j; k]]))); [|done|].
    + cbn. by rewrite bind_nil_r.
    + intros j. rewrite (runner_ok l2 _ (λ k, ([], [[i; j; k]]))) by done.
      cbn. by rewrite bind_nil_r.
Qed.

(** ** Lemmas: splitting *)

Definition unit_stride (l : hclib_loop_domain_t) : Prop := loop_ok l ∧ stride l = 1.
Definition width (l : hclib_loop_domain_t) : Z := 1 `max` (high l - low l).
Definition fits (l : hclib_loop_domain_t) (n : nat) : Prop := high l - low l <= 2 ^ Z.of_nat n.

Lemma quot2_mid a b : a + 2 <= b → a < Z.quot (b + a) 2 < b.
Proof.
  intros H. destruct (Z.le_gt_cases 0 (b + a)).
  - rewrite Z.quot_div_nonneg by lia. split.
    + assert (a + 1 <= (b + a) / 2) by (apply Z.div_le_lower_bound; lia). lia.
    + apply Z.div_lt_upper_bound; lia.
  - replace (b + a) with (- (- (b + a))) by lia. rewrite Z.quot_opp_l by lia.
    rewrite Z.quot_div_nonneg by lia. split.
    + assert (- (b + a) / 2 < - a) by (apply Z.div_lt_upper_bound; lia). lia.
    + assert (- b + 1 <= - (b + a) / 2) by (apply Z.div_le_lower_bound; lia). lia.
Qed.

Lemma quot2_half a b : a + 2 <= b → 2 * (Z.quot (b + a) 2 - a) <= b - a + 1.
Proof.
  intros H. destruct (Z.le_gt_cases 0 (b + a)).
  - rewrite Z.quot_div_nonneg by lia. pose proof (Z.mul_div_le (b + a) 2). lia.
  - replace (b + a) with (- (- (b + a))) by lia. rewrite Z.quot_opp_l by lia.
    rewrite Z.quot_div_nonneg by lia.
    pose proof (Z.mul_succ_div_gt (- (b + a)) 2 ltac:(lia)). lia.
Qed.

Lemma split_ok l n :
  unit_stride l → fits l n →
  (split_at l = Ok None ∧ high l - low l <= tile l) ∨
  (∃ mid m, split_at l = Ok (Some mid) ∧ n = S m ∧ fits (lower mid l) m ∧
     unit_stride (upper mid l) ∧ unit_stride (lower mid l) ∧
     fits (upper mid l) 31 ∧
     points l = points (lower mid l) ++ points (upper mid l) ∧
     width l = width (lower mid l) + width (upper mid l)).
Proof.
  intros [(Hl & Hh & Hs & Ht) Hst] Hf. unfold split_at, fits in *.
  rewrite int_sub_id by (unfold INT_MIN, INT_MAX; lia). cbn [mbind res_bind].
  destruct (Z.gtb_spec (high l - low l) (tile l)) as [Hgt|Hle]; [right|left; split; [done|lia]].
  rewrite int_add_id by (unfold INT_MIN, INT_MAX; lia). cbn [mbind res_bind].
  pose proof (quot2_mid (low l) (high l) ltac:(lia)) as Hmid.
  pose proof (quot2_half (low l) (high l) ltac:(lia)) as Hhalf.
  set (mid := Z.quot (high l + low l) 2) in *.
  assert (int_div (high l + low l) 2 = Ok mid) as ->.
  { unfold int_div. cbn. apply to_int_id. fold mid. unfold INT_MIN, INT_MAX. lia. }
  cbn [mbind res_bind]. destruct n as [|m]; [cbn in Hf; lia|].
  exists mid, m. split; [done|]. split; [done|]. unfold unit_stride, loop_ok, width. cbn.
  split.
  { rewrite Nat2Z.inj_succ, Z.pow_succ_r in Hf by lia.
    assert (1 <= 2 ^ Z.of_nat m) by (apply Z.pow_le_mono_r with (b := 0); lia). lia. }
  split; [lia|]. split; [lia|]. split; [change (2 ^ Z.of_nat 31) with 2147483648; lia|].
  split; [|lia]. unfold points. cbn. rewrite Hst.
  apply (pts_app _ _ _ _ (Z.to_nat (mid - low l))); lia.
Qed.

Lemma loop_fits l : loop_ok l → fits l 31.
Proof. intros (? & ? & _). unfold fits. change (2 ^ Z.of_nat 31) with 2147483648. lia. Qed.

(** ** Lemmas: tasks *)

Definition task_ok (t : forasync_task) : Prop :=
  match t with
  | Recursive1D l0 => unit_stride l0
  | Runner1D l0 => loop_ok l0
  | Recursive2D l0 l1 => unit_stride l0 ∧ unit_stride l1
  | Runner2D l0 l1 => loop_ok l0 ∧ loop_ok l1
  | Recursive3D l0 l1 l2 => unit_stride l0 ∧ unit_stride l1 ∧ unit_stride l2
  | Runner3D l0 l1 l2 => loop_ok l0 ∧ loop_ok l1 ∧ loop_ok l2
  end.

Definition task_space (t : forasync_task) : list (list Z) :=
  match t with
  | Recursive1D l0 | Runner1D l0 => space1 l0
  | Recursive2D l0 l1 | Runner2D l0 l1 => space2 l0 l1
  | Recursive3D l0 l1 l2 | Runner3D l0 l1 l2 => space3 l0 l1 l2
  end.

Definition task_weight (t : forasync_task) : Z :=
  match t with
  | Runner1D _ | Runner2D _ _ | Runner3D _ _ _ => 1
  | Recursive1D l0 => width l0
  | Recursive2D l0 l1 => width l0 * width l1
  | Recursive3D l0 l1 l2 => width l0 * width l1 * width l2
  end.

Definition total_weight (ts : list forasync_task) : Z :=
  foldr (λ t n, task_weight t + n) 0 ts.

(** The effect of code that is responsible for the calls [sp], as the parent of
    tasks of total weight below [w]. *)
Definition delivers (e : effect) (sp : list (list Z)) (w : Z) : Prop :=
  Forall task_ok e.1 ∧ total_weight e.1 + 1 <= w ∧
  e.2 ++ (e.1 ≫= task_space) ≡ₚ sp.

Lemma width_pos l : 1 <= width l.
Proof. unfold width. lia. Qed.

Lemma weight_pos t : 1 <= task_weight t.
Proof.
  destruct t; cbn; try lia; repeat match goal with
  | |- context [width ?l] => lazymatch goal with
      | H : 1 <= width l |- _ => fail | _ => pose proof (width_pos l) end end; nia.
Qed.

Lemma delivers_run sp : delivers ([], sp) sp 1.
Proof. split; [by constructor|]. split; [cbn; lia|]. cbn. by rewrite app_nil_r. Qed.

Lemma delivers_weight e sp w w' : w <= w' → delivers e sp w → delivers e sp w'.
Proof. intros Hw (H1 & H2 & H3). split; [done|]. split; [lia|done]. Qed.

Lemma delivers_spawn t e sp w sp' w' :
  task_ok t → delivers e sp w → task_space t ++ sp ≡ₚ sp' → task_weight t + w <= w' →
  delivers (seq_effect ([t], []) e) sp' w'.
Proof.
  intros Ht (H1 & H2 & H3) Hsp Hw. split; [by constructor|]. split; [cbn; fold (total_weight e.1); lia|].
  cbn. rewrite <- Hsp, <- H3. solve_Permutation.
Qed.

Lemma rec1_ok fuel l0 n :
  unit_stride l0 → fits l0 n → (n < fuel)%nat →
  ∃ e, forasync1D_recursive fuel l0 = Ok e ∧ delivers e (space1 l0) (width l0).
Proof.
  revert l0 n. induction fuel as [|fuel IH]; intros l0 n H0 Hf Hn; [lia|].
  cbn [forasync1D_recursive].
  destruct (split_ok l0 n H0 Hf) as [[-> _]|(mid & m & -> & -> & Hfm & Hu & Hlo & _ & Hp & Hw)];
    cbn [mbind res_bind].
  - rewrite runner1_ok by apply H0. eexists. split; [done|].
    eapply delivers_weight, delivers_run. apply width_pos.
  - destruct (IH (lower mid l0) m) as (e & -> & He); [done|done|lia|]. cbn [mbind res_bind].
    eexists. split; [done|]. eapply delivers_spawn; [done|exact He| |cbn; lia].
    cbn. unfold space1. rewrite Hp, bind_app. apply Permutation_app_comm.
Qed.

Lemma space2_split0 a b l1 l0 :
  points l0 = points a ++ points b → space2 b l1 ++ space2 a l1 ≡ₚ space2 l0 l1.
Proof. intros Hp. unfold space2. rewrite Hp, bind_app. apply Permutation_app_comm. Qed.

Lemma space2_split1 a b l0 l1 :
  points l1 = points a ++ points b → space2 l0 b ++ space2 l0 a ≡ₚ space2 l0 l1.
Proof.
  intros Hp. unfold space2. rewrite Permutation_app_comm, <- bind_app_r.
  apply bind_perm. intros i _. by rewrite Hp, bind_app.
Qed.

Lemma rec2_ok fuel l0 l1 n0 n1 :
  unit_stride l0 → unit_stride l1 → fits l0 n0 → fits l1 n1 → (n0 + n1 < fuel)%nat →
  ∃ e, forasync2D_recursive fuel l0 l1 = Ok e ∧
    delivers e (space2 l0 l1) (width l0 * width l1).
Proof.
  revert l0 l1 n0 n1. induction fuel as [|fuel IH]; intros l0 l1 n0 n1 H0 H1 Hf0 Hf1 Hn; [lia|].
  cbn [forasync2D_recursive]. pose proof (width_pos l0). pose proof (width_pos l1).
  destruct (split_ok l0 n0 H0 Hf0) as [[-> _]|(mid & m & -> & -> & Hfm & Hu & Hlo & _ & Hp & Hw)];
    cbn [mbind res_bind].
  - destruct (split_ok l1 n1 H1 Hf1) as [[-> _]|(mid & m & -> & -> & Hfm & Hu & Hlo & _ & Hp & Hw)];
      cbn [mbind res_bind].
    + rewrite runner2_ok by (apply H0 || apply H1). eexists. split; [done|].
      eapply delivers_weight, delivers_run. nia.
    + destruct (IH l0 (lower mid l1) n0 m) as (e & -> & He); [done|done|done|done|lia|].
      cbn [mbind res_bind]. eexists. split; [done|].
      eapply delivers_spawn; [done|exact He|by apply space2_split1|cbn; nia].
  - destruct (IH (lower mid l0) l1 m n1) as (e & -> & He); [done|done|done|done|lia|].
    cbn [mbind res_bind]. eexists. split; [done|].
    eapply delivers_spawn; [done|exact He|by apply space2_split0|cbn; nia].
Qed.

Lemma space3_split0 a b l0 l1 l2 :
  points l0 = points a ++ points b → space3 b l1 l2 ++ space3 a l1 l2 ≡ₚ space3 l0 l1 l2.
Proof. intros Hp. unfold space3. rewrite Hp, bind_app. apply Permutation_app_comm. Qed.

Lemma space3_split1 a b l0 l1 l2 :
  points l1 = points a ++ points b → space3 l0 b l2 ++ space3 l0 a l2 ≡ₚ space3 l0 l1 l2.
Proof.
  intros Hp. unfold space3. rewrite Permutation_app_comm, <- bind_app_r.
  apply bind_perm. intros i _. by rewrite Hp, bind_app.
Qed.

Lemma space3_split2 a b l0 l1 l2 :
  points l2 = points a ++ points b → space3 l0 l1 b ++ space3 l0 l1 a ≡ₚ space3 l0 l1 l2.
Proof.
  intros Hp. unfold space3. rewrite Permutation_app_comm, <- bind_app_r.
  apply bind_perm. intros i _. rewrite <- bind_app_r.
  apply bind_perm. intros j _. by rewrite Hp, bind_app.
Qed.

Lemma rec3_ok fuel l0 l1 l2 n0 n1 n2 :
  unit_stride l0 → unit_stride l1 → unit_stride l2 →
  fits l0 n0 → fits l1 n1 → fits l2 n2 → (n0 + n1 + n2 < fuel)%nat →
  ∃ e, forasync3D_recursive fuel l0 l1 l2 = Ok e ∧
    delivers e (space3 l0 l1 l2) (width l0 * width l1 * width l2).
Proof.
  revert l0 l1 l2 n0 n1 n2.
  induction fuel as [|fuel IH]; intros l0 l1 l2 n0 n1 n2 H0 H1 H2 Hf0 Hf1 Hf2 Hn; [lia|].
  cbn [forasync3D_recursive].
  pose proof (width_pos l0). pose proof (width_pos l1). pose proof (width_pos l2).
  destruct (split_ok l0 n0 H0 Hf0) as [[-> _]|(mid & m & -> & -> & Hfm & Hu & Hlo & _ & Hp & Hw)];
    cbn [mbind res_bind].
  - destruct (split_ok l1 n1 H1 Hf1) as [[-> _]|(mid & m & -> & -> & Hfm & Hu & Hlo & _ & Hp & Hw)];
      cbn [mbind res_bind].
    + destruct (split_ok l2 n2 H2 Hf2) as [[-> _]|(mid & m & -> & -> & Hfm & Hu & Hlo & _ & Hp & Hw)];
        cbn [mbind res_bind].
      * rewrite runner3_ok by (apply H0 || apply H1 || apply H2). eexists. split; [done|].
        eapply delivers_weight, delivers_run. nia.
      * destruct (IH l0 l1 (lower mid l2) n0 n1 m) as (e & -> & He); [done..|lia|].
        cbn [mbind res_bind]. eexists. split; [done|].
        eapply delivers_spawn; [done|exact He|by apply space3_split2|cbn; rewrite Hw; nia].
    + destruct (IH l0 (lower mid l1) l2 n0 m n2) as (e & -> & He); [done..|lia|].
      cbn [mbind res_bind]. eexists. split; [done|].
      eapply delivers_spawn; [done|exact He|by apply space3_split1|cbn; rewrite Hw; nia].
  - destruct (IH (lower mid l0) l1 l2 m n1 n2) as (e & -> & He); [done..|lia|].
    cbn [mbind res_bind]. eexists. split; [done|].
    eapply delivers_spawn; [done|exact He|by apply space3_split0|cbn; rewrite Hw; nia].
Qed.

Lemma run_task_ok t :
  task_ok t → ∃ e, run_task t = Ok e ∧ delivers e (task_space t) (task_weight t).
Proof.
  destruct t as [l0|l0|l0 l1|l0 l1|l0 l1 l2|l0 l1 l2]; cbn [task_ok run_task task_space task_weight].
  - intros H0. apply (rec1_ok _ l0 31); [done|apply loop_fits, H0|unfold split_fuel; lia].
  - intros H0. rewrite runner1_ok by done. eexists. split; [done|]. apply delivers_run.
  - intros [H0 H1]. apply (rec2_ok _ l0 l1 31 31); [done|done|apply loop_fits, H0|
      apply loop_fits, H1|unfold split_fuel; lia].
  - intros [H0 H1]. rewrite runner2_ok by done. eexists. split; [done|]. apply delivers_run.
  - intros (H0 & H1 & H2). apply (rec3_ok _ l0 l1 l2 31 31 31);
      [done|done|done|apply loop_fits, H0|apply loop_fits, H1|apply loop_fits, H2|
       unfold split_fuel; lia].
  - intros (H0 & H1 & H2). rewrite runner3_ok by done. eexists. split; [done|]. apply delivers_run.
Qed.

(** ** Lemmas: schedules *)

Lemma total_weight_app a b : total_weight (a ++ b) = total_weight a + total_weight b.
Proof. induction a as [|t a IH]; cbn; [done|]. unfold total_weight in *. lia. Qed.

Lemma total_weight_nonneg ts : 0 <= total_weight ts.
Proof.
  induction ts as [|t ts IH]; cbn; [done|]. fold (total_weight ts). pose proof (weight_pos t). lia.
Qed.

Definition sched_inv (e : effect) (sp : list (list Z)) : Prop :=
  Forall task_ok e.1 ∧ e.2 ++ (e.1 ≫= task_space) ≡ₚ sp.

Lemma sched_step_inv e e' sp :
  sched_inv e sp → sched_step e e' →
  sched_inv e' sp ∧ total_weight e'.1 + 1 <= total_weight e.1.
Proof.
  intros [Hok Hsp] Hs. destruct Hs as [pre t post done e Hrun]. cbn in *.
  apply Forall_app in Hok as [Hpre [Ht Hpost]%Forall_cons].
  destruct (run_task_ok t Ht) as (e' & Hrun' & Hde & Hdw & Hds).
  assert (e' = e) as -> by congruence. split; [split|]; cbn.
  - by rewrite !Forall_app.
  - rewrite <- Hsp. rewrite !bind_app. cbn. rewrite <- Hds. solve_Permutation.
  - rewrite !total_weight_app. cbn. fold (total_weight post). lia.
Qed.

Lemma completes_of_inv e sp : sched_inv e sp → completes e sp.
Proof.
  intros Hi. exists (Z.to_nat (total_weight e.1)). intros n e' Hs.
  assert (sched_inv e' sp ∧ Z.of_nat n + total_weight e'.1 <= total_weight e.1) as [[Hok Hsp] Hw].
  { revert Hi. induction Hs as [e|n e1 e2 e3 H1 Hs IH]; intros Hi; [split; [done|lia]|].
    destruct (sched_step_inv e1 e2 sp Hi H1) as [Hi2 Hw]. destruct (IH Hi2). split; [done|lia]. }
  pose proof (total_weight_nonneg e'.1). split; [lia|]. split.
  - intros t Ht. apply (proj1 (Forall_forall _ _) Hok) in Ht.
    destruct (run_task_ok t Ht) as (e2 & ? & _). by exists e2.
  - intros E. rewrite E in Hsp. cbn in Hsp. by rewrite app_nil_r in Hsp.
Qed.

Lemma completes_of_delivers e sp w : delivers e sp w → completes e sp.
Proof. intros (H1 & _ & H3). apply completes_of_inv. by split. Qed.


(** ** Lemmas: flat chunking *)

Lemma space1_pts lo hi st ti : space1 (mkLoop lo hi st ti) = pts lo hi st ≫= λ i, [[i]].
Proof. done. Qed.

Lemma pts_range lo hi st x : 1 <= st → x ∈ pts lo hi st → lo <= x < hi.
Proof.
  intros Hst (k & -> & Hk%elem_of_seqZ)%list_elem_of_fmap.
  pose proof (Z.mul_div_le (hi - lo + st - 1) st ltac:(lia)). nia.
Qed.

Definition cut (l : hclib_loop_domain_t) (c : Z) : hclib_loop_domain_t :=
  mkLoop c (if c + tile l >? high l then high l else c + tile l) (stride l) (tile l).

Definition chunks (l : hclib_loop_domain_t) : list hclib_loop_domain_t :=
  cut l <$> pts (low l) (high l) (tile l).

Lemma cut_ok l c : loop_ok l → c ∈ pts (low l) (high l) (tile l) → loop_ok (cut l c).
Proof.
  intros (Hl & Hh & Hs & Ht) Hc%pts_range; [|lia]. unfold loop_ok, cut. cbn.
  rewrite Z.gtb_ltb. destruct (Z.ltb_spec (high l) (c + tile l)); lia.
Qed.

Lemma chunks_ok l : loop_ok l → Forall loop_ok (chunks l).
Proof.
  intros Hl. apply Forall_forall. intros x (c & -> & Hc)%list_elem_of_fmap. by apply cut_ok.
Qed.

Lemma chunks_points l (q : nat) :
  loop_ok l → tile l = Z.of_nat q * stride l → (chunks l ≫= points) = points l.
Proof.
  intros (Hl & Hh & Hs & Ht) Hq. unfold chunks.
  rewrite list_fmap_bind. unfold points at 2.
  rewrite <- (pts_chunks (low l) (high l) (stride l) q (tile l)) by lia. done.
Qed.

Lemma chunk_loop_ok l body (f : hclib_loop_domain_t → effect) :
  loop_ok l → (∀ c, loop_ok c → body c = Ok (f c)) →
  chunk_loop l body = Ok (chunks l ≫= (λ c, (f c).1), chunks l ≫= (λ c, (f c).2)).
Proof.
  intros Hl Hb. pose proof Hl as (Hlo & Hhi & Hs & Ht). unfold chunk_loop, chunks.
  rewrite !list_fmap_bind.
  rewrite (for_loop_ok _ _ _ (tile l) _ (λ x, f (cut l x)));
    [done|lia|unfold loop_fuel; lia|unfold INT_MAX; lia|unfold INT_MIN; lia|].
  intros x Hx. pose proof (pts_range _ _ (tile l) _ ltac:(lia) Hx).
  rewrite int_add_id by (unfold INT_MIN, INT_MAX; lia). cbn [mbind res_bind].
  apply Hb. by apply cut_ok.
Qed.

Lemma space2_chunks l0 l1 q0 q1 :
  loop_ok l0 → loop_ok l1 → tile l0 = Z.of_nat q0 * stride l0 →
  tile l1 = Z.of_nat q1 * stride l1 →
  (chunks l0 ≫= λ c0, chunks l1 ≫= λ c1, space2 c0 c1) ≡ₚ space2 l0 l1.
Proof.
  intros H0 H1 Hq0 Hq1. unfold space2.
  rewrite <- (chunks_points l0 q0), <- (chunks_points l1 q1), bind_bind by done.
  apply bind_perm. intros c0 _. rewrite bind_swap. apply bind_perm. intros i _.
  by rewrite bind_bind.
Qed.

Lemma space3_chunks l0 l1 l2 q0 q1 q2 :
  loop_ok l0 → loop_ok l1 → loop_ok l2 → tile l0 = Z.of_nat q0 * stride l0 →
  tile l1 = Z.of_nat q1 * stride l1 → tile l2 = Z.of_nat q2 * stride l2 →
  (chunks l0 ≫= λ c0, chunks l1 ≫= λ c1, chunks l2 ≫= λ c2, space3 c0 c1 c2) ≡ₚ
  space3 l0 l1 l2.
Proof.
  intros H0 H1 H2 Hq0 Hq1 Hq2. unfold space3.
  rewrite <- (chunks_points l0 q0), bind_bind by done.
  apply bind_perm. intros c0 _.
  transitivity (points c0 ≫= λ i, chunks l1 ≫= λ c1, chunks l2 ≫= λ c2,
    points c1 ≫= λ j, points c2 ≫= λ k, [[i; j; k]]).
  { etransitivity; [|apply bind_swap]. apply bind_perm. intros c1 _. apply bind_swap. }
  apply bind_perm. intros i _.
  rewrite <- (chunks_points l1 q1), bind_bind by done.
  apply bind_perm. intros c1 _. rewrite bind_swap. apply bind_perm. intros j _.
  by rewrite <- (chunks_points l2 q2), bind_bind by done.
Qed.

Lemma flat2_ok l0 l1 q0 q1 :
  loop_ok l0 → loop_ok l1 → tile l0 = Z.of_nat q0 * stride l0 →
  tile l1 = Z.of_nat q1 * stride l1 →
  ∃ e, forasync2D_flat l0 l1 = Ok e ∧ sched_inv e (space2 l0 l1).
Proof.
  intros H0 H1 Hq0 Hq1. unfold forasync2D_flat.
  rewrite (chunk_loop_ok l0 _ (λ c0, (chunks l1 ≫= λ c1, [Runner2D c0 c1], []))); [|done|].
  - eexists. split; [done|]. split; cbn.
    + apply Forall_bind. eapply Forall_impl; [by apply chunks_ok|]. intros c0 Hc0. cbn.
      apply Forall_bind. eapply Forall_impl; [by apply chunks_ok|]. intros c1 Hc1. cbn.
      by apply Forall_singleton.
    + rewrite bind_nil_r, bind_bind. rewrite <- (space2_chunks l0 l1 q0 q1) by done.
      apply bind_perm. intros c0 _. rewrite bind_bind. apply bind_perm. intros c1 _. cbn.
      by rewrite app_nil_r.
  - intros c0 Hc0.
    rewrite (chunk_loop_ok l1 _ (λ c1, ([Runner2D c0 c1], []))) by done.
    cbn. by rewrite bind_nil_r.
Qed.

Lemma flat3_ok l0 l1 l2 q0 q1 q2 :
  loop_ok l0 → loop_ok l1 → loop_ok l2 → tile l0 = Z.of_nat q0 * stride l0 →
  tile l1 = Z.of_nat q1 * stride l1 → tile l2 = Z.of_nat q2 * stride l2 →
  ∃ e, forasync3D_flat l0 l1 l2 = Ok e ∧ sched_inv e (space3 l0 l1 l2).
Proof.
  intros H0 H1 H2 Hq0 Hq1 Hq2. unfold forasync3D_flat.
  rewrite (chunk_loop_ok l0 _
    (λ c0, (chunks l1 ≫= λ c1, chunks l2 ≫= λ c2, [Runner3D c0 c1 c2], []))); [|done|].
  - eexists. split; [done|]. split; cbn.
    + apply Forall_bind. eapply Forall_impl; [by apply chunks_ok|]. intros c0 Hc0. cbn.
      apply Forall_bind. eapply Forall_impl; [by apply chunks_ok|]. intros c1 Hc1. cbn.
      apply Forall_bind. eapply Forall_impl; [by apply chunks_ok|]. intros c2 Hc2. cbn.
      by apply Forall_singleton.
    + rewrite bind_nil_r, bind_bind. rewrite <- (space3_chunks l0 l1 l2 q0 q1 q2) by done.
      apply bind_perm. intros c0 _. rewrite bind_bind. apply bind_perm. intros c1 _.
      rewrite bind_bind. apply bind_perm. intros c2 _. cbn. by rewrite app_nil_r.
  - intros c0 Hc0.
    rewrite (chunk_loop_ok l1 _ (λ c1, (chunks l2 ≫= λ c2, [Runner3D c0 c1 c2], []))); [|done|].
    + cbn. by rewrite bind_nil_r.
    + intros c1 Hc1. rewrite (chunk_loop_ok l2 _ (λ c2, ([Runner3D c0 c1 c2], []))) by done.
      cbn. by rewrite bind_nil_r.
Qed.

(** The chunks of the one-dimensional version end at a multiple of the tile. *)
Lemma flat_chunks_ok fuel l0 low0 size (n : nat) (q : nat) :
  loop_ok l0 → tile l0 = Z.of_nat q * stride l0 →
  size = low0 + Z.of_nat n * tile l0 → -1073741824 <= low0 → size <= 1073741823 →
  (n < fuel)%nat →
  ∃ ts, flat_chunks fuel l0 low0 size = Ok ((ts, []), size) ∧ Forall task_ok ts ∧
    (ts ≫= task_space) = pts low0 size (stride l0) ≫= λ i, [[i]].
Proof.
  intros Hok Hq. pose proof Hok as (Hl & Hh & Hs & Ht).
  revert low0 n. induction fuel as [|fuel IH]; intros low0 n Hsz Hlo Hhi Hf; [lia|].
  cbn [flat_chunks]. destruct n as [|n].
  - replace size with low0 by lia. rewrite Z.ltb_irrefl. exists [].
    rewrite pts_nil by lia. done.
  - rewrite (proj2 (Z.ltb_lt low0 size)) by nia.
    rewrite int_add_id by (unfold INT_MIN, INT_MAX; nia). cbn [mbind res_bind spawn].
    destruct (IH (low0 + tile l0) n) as (ts & -> & Hts & Hsp); [lia|lia|lia|lia|].
    eexists. split; [done|]. split.
    + constructor; [|done]. cbn. unfold loop_ok. cbn. nia.
    + cbn. rewrite Hsp, space1_pts.
      rewrite (pts_app low0 (low0 + tile l0) size (stride l0) q) by nia. by rewrite bind_app.
Qed.

Lemma flat_chunks_empty fuel l0 low0 size :
  size <= low0 → flat_chunks (S fuel) l0 low0 size = Ok (([], []), low0).
Proof. intros H. cbn. by rewrite (proj2 (Z.ltb_ge _ _)). Qed.

Lemma flat1_ok l0 (q : nat) :
  loop_ok l0 → tile l0 = Z.of_nat q * stride l0 → (tile l0 | low l0) → 0 <= high l0 →
  ∃ e, forasync1D_flat l0 = Ok e ∧ sched_inv e (space1 l0).
Proof.
  intros Hok Hq [k Hk] H0. pose proof Hok as (Hl & Hh & Hs & Ht). unfold forasync1D_flat.
  set (nb := high l0 / tile l0).
  pose proof (Z.mul_div_le (high l0) (tile l0) ltac:(lia)) as Hle. fold nb in Hle.
  assert (0 <= nb) by (apply Z.div_pos; lia).
  assert (0 <= tile l0 * nb) by nia.
  assert (int_div (high l0) (tile l0) = Ok nb) as ->.
  { unfold int_div. rewrite (proj2 (Z.eqb_neq _ _)), Z.quot_div_nonneg by lia.
    fold nb. apply to_int_id. unfold INT_MIN, INT_MAX. nia. }
  cbn [mbind res_bind]. unfold int_mul.
  rewrite to_int_id by (unfold INT_MIN, INT_MAX; lia). cbn [mbind res_bind].
  destruct (Z.le_gt_cases k nb) as [Hkn|Hkn].
  - destruct (flat_chunks_ok (loop_fuel (low l0) (tile l0 * nb)) l0 (low l0) (tile l0 * nb)
      (Z.to_nat (nb - k)) q) as (ts & -> & Hts & Hsp); [done|done|nia|lia|lia| |].
    { unfold loop_fuel. assert (nb - k <= tile l0 * nb - low l0) by nia. lia. }
    assert (space1 l0 = (ts ≫= task_space) ++
      space1 (mkLoop (tile l0 * nb) (high l0) (stride l0) (tile l0))) as E.
    { rewrite Hsp, space1_pts, <- bind_app. unfold space1, points. cbn. f_equal.
      apply (pts_app _ _ _ _ (q * Z.to_nat (nb - k))%nat); nia. }
    cbn [mbind res_bind]. destruct (Z.ltb_spec (tile l0 * nb) (high l0)) as [Hlt|Hge].
    + eexists. split; [done|]. split; cbn.
      * apply Forall_app. split; [done|]. apply Forall_singleton. cbn. unfold loop_ok. cbn. lia.
      * rewrite E, bind_app. cbn. by rewrite app_nil_r.
    + eexists. split; [done|]. split; [done|]. rewrite E. cbn.
      rewrite space1_pts, pts_nil by lia. cbn. by rewrite app_nil_r.
  - unfold loop_fuel. rewrite flat_chunks_empty by nia. cbn [mbind res_bind].
    assert (high l0 < low l0).
    { pose proof (Z.mul_succ_div_gt (high l0) (tile l0) ltac:(lia)) as Hgt. fold nb in Hgt. nia. }
    assert (space1 l0 = []) as -> by (unfold space1, points; by rewrite pts_nil by lia).
    destruct (Z.ltb_spec (tile l0 * nb) (high l0)); eexists; (split; [done|]); split; cbn; try done.
    + by apply Forall_singleton.
    + rewrite space1_pts, pts_nil by lia. done.
Qed.

(** ** Loops as the caller gives them *)

(** The tile after the default has been filled in. *)
Definition tile_of (nworkers : Z) (l : hclib_loop_domain_t) : Z :=
  if tile l =? -1 then (high l - low l + nworkers - 1) / nworkers else tile l.

Definition with_tile (nworkers : Z) (l : hclib_loop_domain_t) : hclib_loop_domain_t :=
  mkLoop (low l) (high l) (stride l) (tile_of nworkers l).

(** Bounds on the loop, and a tile that is either given or can be computed:
    the default is 0 on an empty range. *)
Definition loop_arg (nworkers : Z) (l : hclib_loop_domain_t) : Prop :=
  -536870912 <= low l <= 536870911 ∧ -536870912 <= high l <= 536870911 ∧
  1 <= stride l <= 1073741824 ∧
  (1 <= tile l <= 1073741824 ∨ tile l = -1 ∧ low l < high l).

Definition workers_ok (nworkers : Z) : Prop := 1 <= nworkers <= 1073741823.

Definition domain_space (domain : list hclib_loop_domain_t) : list (list Z) :=
  match domain with
  | [l0] => space1 l0
  | [l0; l1] => space2 l0 l1
  | [l0; l1; l2] => space3 l0 l1 l2
  | _ => []
  end.

Definition dim_ok (domain : list hclib_loop_domain_t) : Prop :=
  (1 <= length domain <= 3)%nat.

(** What flat chunking needs: tiles that are a multiple of the stride, and in
    one dimension a lower bound that is a multiple of the tile and an upper
    bound that is not negative. *)
Definition flat_arg (nworkers : Z) (domain : list hclib_loop_domain_t) : Prop :=
  Forall (λ l, (stride l | tile_of nworkers l)) domain ∧
  match domain with
  | [l0] => (tile_of nworkers l0 | low l0) ∧ 0 <= high l0
  | _ => True
  end.

Lemma default_tile_ok nworkers l :
  workers_ok nworkers → loop_arg nworkers l →
  default_tile nworkers l = Ok (with_tile nworkers l) ∧ loop_ok (with_tile nworkers l).
Proof.
  intros Hw (Hl & Hh & Hs & Ht). unfold workers_ok in Hw.
  unfold default_tile, with_tile, loop_ok, tile_of. cbn.
  destruct (Z.eqb_spec (tile l) (-1)) as [E|E].
  - destruct Ht as [?|[_ Hne]]; [lia|].
    rewrite int_sub_id by (unfold INT_MIN, INT_MAX; lia). cbn [mbind res_bind].
    rewrite int_add_id by (unfold INT_MIN, INT_MAX; lia). cbn [mbind res_bind].
    rewrite int_sub_id by (unfold INT_MIN, INT_MAX; lia). cbn [mbind res_bind].
    set (n := high l - low l + nworkers - 1) in *.
    assert (1 <= n / nworkers) by (apply Z.div_le_lower_bound; lia).
    assert (n / nworkers <= 1073741824).
    { apply Z.div_le_upper_bound; [lia|]. subst n. nia. }
    assert (int_div n nworkers = Ok (n / nworkers)) as ->; [|by repeat split; cbn; lia].
    unfold int_div. rewrite (proj2 (Z.eqb_neq _ _)), Z.quot_div_nonneg by lia.
    apply to_int_id. unfold INT_MIN, INT_MAX. lia.
  - split; [by destruct l|]. lia.
Qed.

Lemma default_tiles_ok nworkers domain :
  workers_ok nworkers → Forall (loop_arg nworkers) domain →
  default_tiles (length domain) nworkers domain = Ok (with_tile nworkers <$> domain).
Proof.
  intros Hw. induction 1 as [|l domain Hl Hd IH]; cbn [length default_tiles]; [done|].
  destruct (default_tile_ok nworkers l Hw Hl) as [-> _]. cbn [mbind res_bind].
  by rewrite IH.
Qed.

Lemma domain_space_tile nworkers domain :
  domain_space (with_tile nworkers <$> domain) = domain_space domain.
Proof. by destruct domain as [|? [|? [|? [|? ?]]]]. Qed.

Lemma entry_tiles nworkers domain mode :
  workers_ok nworkers → Forall (loop_arg nworkers) domain →
  hclib_forasync nworkers (Z.of_nat (length domain)) domain mode =
  forasync_internal (Z.of_nat (length domain)) (with_tile nworkers <$> domain) mode ∧
  Forall loop_ok (with_tile nworkers <$> domain).
Proof.
  intros Hw Hd. unfold hclib_forasync. rewrite Nat2Z.id, default_tiles_ok by done.
  split; [done|]. apply Forall_fmap. eapply Forall_impl; [done|].
  intros l Hl. by apply default_tile_ok.
Qed.

#[local] Opaque forasync1D_recursive forasync2D_recursive forasync3D_recursive
  forasync1D_flat forasync2D_flat forasync3D_flat.

(** ** Lemmas: entry points *)

(** The task whose body [forasync_internal] runs at once. *)
Definition root_task (domain : list hclib_loop_domain_t) : option forasync_task :=
  match domain with
  | [l0] => Some (Recursive1D l0)
  | [l0; l1] => Some (Recursive2D l0 l1)
  | [l0; l1; l2] => Some (Recursive3D l0 l1 l2)
  | _ => None
  end.

Lemma internal_recursive domain t :
  root_task domain = Some t →
  forasync_internal (Z.of_nat (length domain)) domain FORASYNC_MODE_RECURSIVE = run_task t ∧
  domain_space domain = task_space t.
Proof. destruct domain as [|? [|? [|? [|? ?]]]]; intros [= <-]; split; reflexivity. Qed.

Lemma root_task_ok domain :
  dim_ok domain → Forall unit_stride domain → ∃ t, root_task domain = Some t ∧ task_ok t.
Proof.
  unfold dim_ok. destruct domain as [|l0 [|l1 [|l2 [|]]]]; cbn; intros Hd Hu; try lia;
    rewrite ?Forall_cons in Hu; destruct_and?; by eexists.
Qed.

Lemma internal_flat domain e :
  match domain with
  | [l0] => forasync1D_flat l0 = Ok e ∧ sched_inv e (space1 l0)
  | [l0; l1] => forasync2D_flat l0 l1 = Ok e ∧ sched_inv e (space2 l0 l1)
  | [l0; l1; l2] => forasync3D_flat l0 l1 l2 = Ok e ∧ sched_inv e (space3 l0 l1 l2)
  | _ => False
  end →
  forasync_internal (Z.of_nat (length domain)) domain FORASYNC_MODE_FLAT = Ok e ∧
  sched_inv e (domain_space domain).
Proof. destruct domain as [|? [|? [|? [|? ?]]]]; try done; intros [<- Hi]; (split; [reflexivity|done]). Qed.

(** The schedule that always takes the oldest task. *)
Fixpoint oldest_first (n : nat) (e : effect) : option effect :=
  match n with
  | O => Some e
  | S n =>
      match e.1 with
      | t :: ts =>
          match run_task t with
          | Ok e' => oldest_first n (ts ++ e'.1, e.2 ++ e'.2)
          | Err _ => None
          end
      | [] => None
      end
  end.

Lemma oldest_first_steps n e e' : oldest_first n e = Some e' → sched_steps n e e'.
Proof.
  revert e. induction n as [|n IH]; intros [ts done]; cbn; [intros [= <-]; constructor|].
  destruct ts as [|t ts]; [done|]. destruct (run_task t) as [e1|] eqn:E; [|done].
  intros H. econstructor; [|by apply IH]. by apply (take_task [] t ts).
Qed.

(** What [forasync_internal] does, once the tiles are given. *)
Lemma internal_recursive_inv domain :
  dim_ok domain → Forall unit_stride domain →
  ∃ e, forasync_internal (Z.of_nat (length domain)) domain FORASYNC_MODE_RECURSIVE = Ok e ∧
    sched_inv e (domain_space domain).
Proof.
  intros Hdim Hu. destruct (root_task_ok _ Hdim Hu) as (t & Hroot & Ht).
  destruct (internal_recursive _ t Hroot) as [-> ->]. destruct (run_task_ok t Ht) as (e & -> & H1 & _ & H3).
  exists e. by split.
Qed.

Lemma internal_flat_inv domain :
  dim_ok domain → Forall loop_ok domain → Forall (λ l, (stride l | tile l)) domain →
  match domain with [l0] => (tile l0 | low l0) ∧ 0 <= high l0 | _ => True end →
  ∃ e, forasync_internal (Z.of_nat (length domain)) domain FORASYNC_MODE_FLAT = Ok e ∧
    sched_inv e (domain_space domain).
Proof.
  intros Hdim Hok Hm H1.
  assert (∀ l, loop_ok l → (stride l | tile l) → ∃ q : nat, tile l = Z.of_nat q * stride l) as Hq.
  { intros l (_ & _ & Hs & Ht) [k Hk]. exists (Z.to_nat k). nia. }
  destruct domain as [|l0 [|l1 [|l2 [|]]]]; unfold dim_ok in *; cbn in Hdim; try lia;
    rewrite ?Forall_cons in Hok, Hm; destruct_and?;
    repeat match goal with
    | H : (stride ?l | tile ?l), H' : loop_ok ?l |- _ => apply (Hq l H') in H as [? ?]
    end.
  - edestruct (flat1_ok l0) as (e & Hi); [done..|]. exists e. by apply internal_flat.
  - edestruct (flat2_ok l0 l1) as (e & Hi); [done..|]. exists e. by apply internal_flat.
  - edestruct (flat3_ok l0 l1 l2) as (e & Hi); [done..|]. exists e. by apply internal_flat.
Qed.

(** What a mode asks of the loops. *)
Definition mode_arg (nworkers : Z) (domain : list hclib_loop_domain_t) (mode : Z) : Prop :=
  (mode = FORASYNC_MODE_RECURSIVE ∧ Forall (λ l, stride l = 1) domain) ∨
  (mode = FORASYNC_MODE_FLAT ∧ flat_arg nworkers domain).

Lemma forasync_inv nworkers domain mode :
  workers_ok nworkers → dim_ok domain → Forall (loop_arg nworkers) domain →
  mode_arg nworkers domain mode →
  ∃ e, hclib_forasync nworkers (Z.of_nat (length domain)) domain mode = Ok e ∧
    sched_inv e (domain_space domain).
Proof.
  intros Hw Hdim Hd Hm. destruct (entry_tiles nworkers domain mode Hw Hd) as [-> Hok].
  rewrite <- (domain_space_tile nworkers), <- (length_fmap (with_tile nworkers) domain).
  assert (dim_ok (with_tile nworkers <$> domain)) by (unfold dim_ok in *; by rewrite length_fmap).
  destruct Hm as [[-> Hs]|[-> [Hm H1]]].
  - apply internal_recursive_inv; [done|]. rewrite Forall_fmap in *. apply Forall_forall. intros l Hl.
    rewrite Forall_forall in Hok, Hs. split; [exact (Hok l Hl)|exact (Hs l Hl)].
  - apply internal_flat_inv; [done|done|by apply Forall_fmap|]. by destruct domain as [|l0 [|l1 domain]].
Qed.

(** ** Properties *)

(** A parallel loop in recursive mode over one, two or three dimensions of
    unit stride, whatever its tiles (given or default) and the number of
    workers, starts without a fault, and under every order in which workers
    take the spawned tasks it ends, with no fault, having called the user's
    function exactly once for every index of the loop nest. *)
Theorem forasync_recursive_complete nworkers domain :
  workers_ok nworkers → dim_ok domain → Forall (loop_arg nworkers) domain →
  Forall (λ l, stride l = 1) domain →
  ∃ e, hclib_forasync nworkers (Z.of_nat (length domain)) domain FORASYNC_MODE_RECURSIVE = Ok e ∧
    completes e (domain_space domain).
Proof.
  intros Hw Hdim Hd Hs. destruct (forasync_inv nworkers domain FORASYNC_MODE_RECURSIVE Hw Hdim Hd) as (e & E & Hi).
  - by left.
  - exists e. split; [done|by apply completes_of_inv].
Qed.

(** A loop of three dimensions with default and given tiles. *)
Example forasync_recursive_complete_witness :
  ∃ e, hclib_forasync 4 3 [mkLoop 0 10 1 (-1); mkLoop (-3) 4 1 2; mkLoop 5 5 1 1]
      FORASYNC_MODE_RECURSIVE = Ok e ∧
    completes e (domain_space [mkLoop 0 10 1 (-1); mkLoop (-3) 4 1 2; mkLoop 5 5 1 1]).
Proof.
  apply (forasync_recursive_complete 4
    [mkLoop 0 10 1 (-1); mkLoop (-3) 4 1 2; mkLoop 5 5 1 1]);
    [split; lia|split; cbn; lia| |by repeat constructor].
  repeat (apply Forall_cons; split); [..|by apply Forall_nil];
    unfold loop_arg; cbn; lia.
Defined.

(** A parallel loop in flat mode whose tiles are multiples of its strides
    (and, in one dimension, whose lower bound is a multiple of the tile and
    whose upper bound is not negative) starts without a fault and under every
    order of its tasks ends having called the user's function exactly once for
    every index of the loop nest, of any stride. *)
Theorem forasync_flat_complete nworkers domain :
  workers_ok nworkers → dim_ok domain → Forall (loop_arg nworkers) domain →
  flat_arg nworkers domain →
  ∃ e, hclib_forasync nworkers (Z.of_nat (length domain)) domain FORASYNC_MODE_FLAT = Ok e ∧
    completes e (domain_space domain).
Proof.
  intros Hw Hdim Hd Hf. destruct (forasync_inv nworkers domain FORASYNC_MODE_FLAT Hw Hdim Hd) as (e & E & Hi).
  - by right.
  - exists e. split; [done|by apply completes_of_inv].
Qed.

(** A one-dimensional loop of stride 2 with a leftover. *)
Example forasync_flat_complete_witness :
  ∃ e, hclib_forasync 4 1 [mkLoop 4 11 2 4] FORASYNC_MODE_FLAT = Ok e ∧
    completes e (domain_space [mkLoop 4 11 2 4]).
Proof.
  apply (forasync_flat_complete 4 [mkLoop 4 11 2 4]); [split; lia|split; cbn; lia| |].
  - apply Forall_singleton. unfold loop_arg. cbn. lia.
  - split; [apply Forall_singleton; by exists 2|]. split; [by exists 1|cbn; lia].
Defined.



(** What the conditions of the two theorems exclude does go wrong: a flat
    loop whose lower bound is not a multiple of the tile calls the user's
    function at an index beyond the upper bound, a default tile on an empty
    range divides by zero, and a recursive loop of stride 3 splits off the grid
    of the stride, so an order of its tasks ends without index 9. *)
Theorem forasync_conditions_needed :
  (∃ e e' n, hclib_forasync 4 1 [mkLoop 3 10 1 4] FORASYNC_MODE_FLAT = Ok e ∧
     sched_steps n e e' ∧ e'.1 = [] ∧ [10] ∈ e'.2) ∧
  hclib_forasync 4 1 [mkLoop 5 5 1 (-1)] FORASYNC_MODE_FLAT = Err DivByZero ∧
  (∃ e e' n, hclib_forasync 4 1 [mkLoop 0 10 3 2] FORASYNC_MODE_RECURSIVE = Ok e ∧
     sched_steps n e e' ∧ e'.1 = [] ∧ [9] ∉ e'.2 ∧ [9] ∈ domain_space [mkLoop 0 10 3 2]).
Proof.
  split; [|split; [by vm_compute|]].
  - eexists _, _, 3%nat. split; [by vm_compute|].
    split; [by apply oldest_first_steps; vm_compute|]. split; [done|].
    refine (bool_decide_unpack _ _). by vm_compute.
  - eexists _, _, 5%nat. split; [by vm_compute|].
    split; [by apply oldest_first_steps; vm_compute|]. split; [done|]. split.
    + refine (bool_decide_unpack _ _). by vm_compute.
    + refine (bool_decide_unpack _ _). by vm_compute.
Qed.
