(* ===== verification/ForasyncCpp.v ===== *)
(** * Parallel loops of the C++ interface

    [src/inc/hclib-forasync.h]: the loop templates, which do not call the C
    functions of [Forasync] but repeat them with lambdas, and add a future that
    the chunks wait for, a flag for chunks that do not block and, in one
    dimension, a function that places the chunks.  A chunk is a task with the
    attributes that [src/inc/hclib-async.h] spawns it with. *)

From S2P Require Import Prelude Forasync.
From stdpp Require Import options.

(** ** Spawning *)

(** A spawned lambda: what it runs, and how. *)
Record async_call := mkAsync {
  a_task : forasync_task;
  a_nb : bool;
  a_futures : list Z;
  a_locale : option Z
}.

Definition cpp_effect : Type := effect_of async_call.

(** [future ? &future : NULL] with [future ? 1 : 0]. *)
Definition await_list (future : Z) : list Z := if future =? NULL then [] else [future].

(** src/inc/hclib-async.h:247-253 (async_await) *)
Definition async_await (t : forasync_task) (future : Z) : res cpp_effect :=
  spawn (mkAsync t false (await_list future) None).

(** src/inc/hclib-async.h:308-316 (async_await_at) *)
Definition async_await_at (t : forasync_task) (future : Z) (locale : option Z) : res cpp_effect :=
  spawn (mkAsync t false (await_list future) locale).

(** src/inc/hclib-async.h:193-200 (async_nb_await) *)
Definition async_nb_await (t : forasync_task) (future : Z) : res cpp_effect :=
  spawn (mkAsync t true (await_list future) None).

(** src/inc/hclib-async.h:212-220 (async_nb_await_at) *)
Definition async_nb_await_at (t : forasync_task) (future : Z) (locale : option Z) : res cpp_effect :=
  spawn (mkAsync t true (await_list future) locale).

(** ** Placing the chunks *)

(** A distribution function gets the dimension, the chunk, the whole loop and
    the mode, and returns a locale. *)
Definition loop_dist_func : Type :=
  Z → hclib_loop_domain_t → hclib_loop_domain_t → Z → option Z.

(** src/inc/hclib.h:91-91 (HCLIB_DEFAULT_LOOP_DIST) *)
Definition HCLIB_DEFAULT_LOOP_DIST : Z := 0.

(** src/src/hclib.c:19-25 (hclib_register_dist_func) *)
Definition hclib_register_dist_func (registered_dist_funcs : list loop_dist_func)
    (func : loop_dist_func) : Z * list loop_dist_func :=
  (Z.of_nat (length registered_dist_funcs), registered_dist_funcs ++ [func]).

(** The identifier is converted to [unsigned].

    src/src/hclib.c:27-30 (hclib_lookup_dist_func) *)
Definition hclib_lookup_dist_func (registered_dist_funcs : list loop_dist_func) (id : Z)
    : res loop_dist_func :=
  _ ← hassert (to_uint id <? Z.of_nat (length registered_dist_funcs));
  array_get registered_dist_funcs (to_uint id).

(** ** Loop domains *)

(** src/inc/hclib-forasync.h:57-59 (default_tile_size) *)
Definition default_tile_size (n nchunks : Z) : res Z :=
  s ← int_add n nchunks;
  s ← int_sub s 1;
  int_div s nchunks.

(** src/inc/hclib-forasync.h:81-84 (loop_domain_1d) *)
Definition loop_domain_1d_chunks (low high nchunks stride : Z) : res hclib_loop_domain_t :=
  n ← int_sub high low;
  t ← default_tile_size n nchunks;
  Ok (mkLoop low high stride t).

(** src/inc/hclib-forasync.h:76-79 (loop_domain_1d) *)
Definition loop_domain_1d_unit (low high nchunks : Z) : res hclib_loop_domain_t :=
  n ← int_sub high low;
  t ← default_tile_size n nchunks;
  Ok (mkLoop low high 1 t).

(** src/inc/hclib-forasync.h:71-74 (loop_domain_1d) *)
Definition loop_domain_1d (nworkers low high : Z) : res hclib_loop_domain_t :=
  n ← int_sub high low;
  t ← default_tile_size n nworkers;
  Ok (mkLoop low high 1 t).

(** src/inc/hclib-forasync.h:66-69 (loop_domain_1d) *)
Definition loop_domain_1d_N (nworkers N : Z) : res hclib_loop_domain_t :=
  t ← default_tile_size N nworkers;
  Ok (mkLoop 0 N 1 t).

(** src/inc/hclib-forasync.h:101-106 (loop_domain_2d) *)
Definition loop_domain_2d (nworkers low1 high1 low2 high2 : Z) : res (list hclib_loop_domain_t) :=
  n1 ← int_sub high1 low1;
  t1 ← default_tile_size n1 nworkers;
  n2 ← int_sub high2 low2;
  t2 ← default_tile_size n2 nworkers;
  Ok [mkLoop low1 high1 1 t1; mkLoop low2 high2 1 t2].

(** src/inc/hclib-forasync.h:94-99 (loop_domain_2d) *)
Definition loop_domain_2d_N (nworkers N1 N2 : Z) : res (list hclib_loop_domain_t) :=
  t1 ← default_tile_size N1 nworkers;
  t2 ← default_tile_size N2 nworkers;
  Ok [mkLoop 0 N1 1 t1; mkLoop 0 N2 1 t2].

(** src/inc/hclib-forasync.h:125-133 (loop_domain_3d) *)
Definition loop_domain_3d (nworkers low1 high1 low2 high2 low3 high3 : Z)
    : res (list hclib_loop_domain_t) :=
  n1 ← int_sub high1 low1;
  t1 ← default_tile_size n1 nworkers;
  n2 ← int_sub high2 low2;
  t2 ← default_tile_size n2 nworkers;
  n3 ← int_sub high3 low3;
  t3 ← default_tile_size n3 nworkers;
  Ok [mkLoop low1 high1 1 t1; mkLoop low2 high2 1 t2; mkLoop low3 high3 1 t3].

(** src/inc/hclib-forasync.h:116-123 (loop_domain_3d) *)
Definition loop_domain_3d_N (nworkers N1 N2 N3 : Z) : res (list hclib_loop_domain_t) :=
  t1 ← default_tile_size N1 nworkers;
  t2 ← default_tile_size N2 nworkers;
  t3 ← default_tile_size N3 nworkers;
  Ok [mkLoop 0 N1 1 t1; mkLoop 0 N2 1 t2; mkLoop 0 N3 1 t3].

(** src/inc/hclib-forasync.h:135-144 (loop_domain_3d) *)
Definition loop_domain_3d_tiled (low1 high1 tile1 low2 high2 tile2 low3 high3 tile3 : Z)
    : list hclib_loop_domain_t :=
  [mkLoop low1 high1 1 tile1; mkLoop low2 high2 1 tile2; mkLoop low3 high3 1 tile3].

(** ** Runners *)

(** src/inc/hclib-forasync.h:150-156 (forasync1D_runner) *)
Definition forasync1D_runner (loop0 : hclib_loop_domain_t) : res cpp_effect :=
  for_loop (loop_fuel (low loop0) (high loop0)) (low loop0) (high loop0) (stride loop0)
    (λ i, call [i]).

(** src/inc/hclib-forasync.h:158-167 (forasync2D_runner) *)
Definition forasync2D_runner (loop0 loop1 : hclib_loop_domain_t) : res cpp_effect :=
  for_loop (loop_fuel (low loop0) (high loop0)) (low loop0) (high loop0) (stride loop0)
    (λ i, for_loop (loop_fuel (low loop1) (high loop1)) (low loop1) (high loop1) (stride loop1)
      (λ j, call [i; j])).

(** src/inc/hclib-forasync.h:169-181 (forasync3D_runner) *)
Definition forasync3D_runner (loop0 loop1 loop2 : hclib_loop_domain_t) : res cpp_effect :=
  for_loop (loop_fuel (low loop0) (high loop0)) (low loop0) (high loop0) (stride loop0)
    (λ i, for_loop (loop_fuel (low loop1) (high loop1)) (low loop1) (high loop1) (stride loop1)
      (λ j, for_loop (loop_fuel (low loop2) (high loop2)) (low loop2) (high loop2) (stride loop2)
        (λ k, call [i; j; k]))).

(** ** Recursive chunking *)

(** src/inc/hclib-forasync.h:183-208 (forasync1D_recursive) *)
Fixpoint forasync1D_recursive (fuel : nat) (loop0 : hclib_loop_domain_t) (future : Z) (nb : bool)
    : res cpp_effect :=
  match fuel with
  | O => Err OutOfFuel
  | S fuel =>
      _ ← hassert (negb nb);
      split ← split_at loop0;
      match split with
      | Some mid =>
          e ← async_await (Recursive1D (upper mid loop0)) future;
          es ← forasync1D_recursive fuel (lower mid loop0) future nb;
          Ok (seq_effect e es)
      | None => forasync1D_runner loop0
      end
  end.

(** src/inc/hclib-forasync.h:210-267 (forasync2D_recursive) *)
Fixpoint forasync2D_recursive (fuel : nat) (loop0 loop1 : hclib_loop_domain_t) (future : Z)
    (nb : bool) : res cpp_effect :=
  match fuel with
  | O => Err OutOfFuel
  | S fuel =>
      _ ← hassert (negb nb);
      split0 ← split_at loop0;
      match split0 with
      | Some mid =>
          e ← async_await (Recursive2D (upper mid loop0) loop1) future;
          es ← forasync2D_recursive fuel (lower mid loop0) loop1 future nb;
          Ok (seq_effect e es)
      | None =>
          split1 ← split_at loop1;
          match split1 with
          | Some mid =>
              e ← async_await (Recursive2D loop0 (upper mid loop1)) future;
              es ← forasync2D_recursive fuel loop0 (lower mid loop1) future nb;
              Ok (seq_effect e es)
          | None => forasync2D_runner loop0 loop1
          end
      end
  end.

(** src/inc/hclib-forasync.h:269-343 (forasync3D_recursive) *)
Fixpoint forasync3D_recursive (fuel : nat) (loop0 loop1 loop2 : hclib_loop_domain_t)
    (future : Z) (nb : bool) : res cpp_effect :=
  match fuel with
  | O => Err OutOfFuel
  | S fuel =>
      _ ← hassert (negb nb);
      split0 ← split_at loop0;
      match split0 with
      | Some mid =>
          e ← async_await (Recursive3D (upper mid loop0) loop1 loop2) future;
          es ← forasync3D_recursive fuel (lower mid loop0) loop1 loop2 future nb;
          Ok (seq_effect e es)
      | None =>
          split1 ← split_at loop1;
          match split1 with
          | Some mid =>
              e ← async_await (Recursive3D loop0 (upper mid loop1) loop2) future;
              es ← forasync3D_recursive fuel loop0 (lower mid loop1) loop2 future nb;
              Ok (seq_effect e es)
          | None =>
              split2 ← split_at loop2;
              match split2 with
              | Some mid =>
                  e ← async_await (Recursive3D loop0 loop1 (upper mid loop2)) future;
                  es ← forasync3D_recursive fuel loop0 loop1 (lower mid loop2) future nb;
                  Ok (seq_effect e es)
              | None => forasync3D_runner loop0 loop1 loop2
              end
          end
      end
  end.

(** ** Flat chunking *)

(** The spawn at the end of each iteration.

    src/inc/hclib-forasync.h:361-366 (forasync1D_flat) *)
Definition spawn_chunk (func : loop_dist_func) (loop0 ld : hclib_loop_domain_t) (future : Z)
    (nb : bool) : res cpp_effect :=
  let locale := func 1 ld loop0 FORASYNC_MODE_FLAT in
  if nb then async_nb_await_at (Runner1D ld) future locale
  else async_await_at (Runner1D ld) future locale.

(** The effect, and [low0] after the loop.

    src/inc/hclib-forasync.h:355-367 (forasync1D_flat) *)
Fixpoint flat_chunks (fuel : nat) (func : loop_dist_func) (loop0 : hclib_loop_domain_t)
    (low0 size future : Z) (nb : bool) : res (cpp_effect * Z) :=
  match fuel with
  | O => Err OutOfFuel
  | S fuel =>
      if low0 <? size then
        next ← int_add low0 (tile loop0);
        e ← spawn_chunk func loop0 (mkLoop low0 next (stride loop0) (tile loop0)) future nb;
        '(es, last) ← flat_chunks fuel func loop0 next size future nb;
        Ok (seq_effect e es, last)
      else Ok (([], []), low0)
  end.

(** src/inc/hclib-forasync.h:345-381 (forasync1D_flat) *)
Definition forasync1D_flat (dists : list loop_dist_func) (loop0 : hclib_loop_domain_t)
    (future dist_func_id : Z) (nb : bool) : res cpp_effect :=
  func ← hclib_lookup_dist_func dists dist_func_id;
  nb_chunks ← int_div (high loop0) (tile loop0);
  size ← int_mul (tile loop0) nb_chunks;
  '(e, low0) ← flat_chunks (loop_fuel (low loop0) size) func loop0 (low loop0) size future nb;
  if size <? high loop0 then
    e' ← spawn_chunk func loop0 (mkLoop low0 (high loop0) (stride loop0) (tile loop0)) future nb;
    Ok (seq_effect e e')
  else Ok e.

(** One dimension of the other flat versions.

    src/inc/hclib-forasync.h:398-399 (forasync2D_flat) *)
Definition chunk_loop (loop : hclib_loop_domain_t) (body : hclib_loop_domain_t → res cpp_effect)
    : res cpp_effect :=
  for_loop (loop_fuel (low loop) (high loop)) (low loop) (high loop) (tile loop)
    (λ low0, next ← int_add low0 (tile loop);
             body (mkLoop low0 (if next >? high loop then high loop else next)
                     (stride loop) (tile loop))).

(** The end of the innermost loop.

    src/inc/hclib-forasync.h:410-414 (forasync2D_flat) *)
Definition spawn_tile (t : forasync_task) (future : Z) (nb : bool) : res cpp_effect :=
  if nb then async_nb_await t future else async_await t future.

(** src/inc/hclib-forasync.h:383-417 (forasync2D_flat) *)
Definition forasync2D_flat (loop0 loop1 : hclib_loop_domain_t) (future : Z) (nb : bool)
    : res cpp_effect :=
  chunk_loop loop0 (λ c0, chunk_loop loop1 (λ c1, spawn_tile (Runner2D c0 c1) future nb)).

(** src/inc/hclib-forasync.h:419-463 (forasync3D_flat) *)
Definition forasync3D_flat (loop0 loop1 loop2 : hclib_loop_domain_t) (future : Z) (nb : bool)
    : res cpp_effect :=
  chunk_loop loop0 (λ c0, chunk_loop loop1 (λ c1, chunk_loop loop2
    (λ c2, spawn_tile (Runner3D c0 c1 c2) future nb))).

(** ** Entry points *)

(** src/inc/hclib-forasync.h:465-479 (forasync1D_internal) *)
Definition forasync1D_internal (dists : list loop_dist_func) (loop0 : hclib_loop_domain_t)
    (mode future dist_func_id : Z) (nb : bool) : res cpp_effect :=
  if mode =? FORASYNC_MODE_FLAT then forasync1D_flat dists loop0 future dist_func_id nb
  else if mode =? FORASYNC_MODE_RECURSIVE then
    _ ← hassert (dist_func_id =? HCLIB_DEFAULT_LOOP_DIST);
    forasync1D_recursive split_fuel loop0 future nb
  else Err AssertFail.

(** src/inc/hclib-forasync.h:481-494 (forasync2D_internal) *)
Definition forasync2D_internal (loop0 loop1 : hclib_loop_domain_t) (mode future : Z) (nb : bool)
    : res cpp_effect :=
  if mode =? FORASYNC_MODE_FLAT then forasync2D_flat loop0 loop1 future nb
  else if mode =? FORASYNC_MODE_RECURSIVE then
    forasync2D_recursive (split_fuel + split_fuel) loop0 loop1 future nb
  else Err AssertFail.

(** src/inc/hclib-forasync.h:496-509 (forasync3D_internal) *)
Definition forasync3D_internal (loop0 loop1 loop2 : hclib_loop_domain_t) (mode future : Z)
    (nb : bool) : res cpp_effect :=
  if mode =? FORASYNC_MODE_FLAT then forasync3D_flat loop0 loop1 loop2 future nb
  else if mode =? FORASYNC_MODE_RECURSIVE then
    forasync3D_recursive (split_fuel + split_fuel + split_fuel) loop0 loop1 loop2 future nb
  else Err AssertFail.

(** src/inc/hclib-forasync.h:511-517 (forasync1D_seq) *)
Definition forasync1D_seq (loop0 : hclib_loop_domain_t) : res cpp_effect :=
  for_loop (loop_fuel (low loop0) (high loop0)) (low loop0) (high loop0) (stride loop0)
    (λ i, call [i]).

(** src/inc/hclib-forasync.h:519-530 (forasync1D) *)
Definition forasync1D (dists : list loop_dist_func) (loop0 : hclib_loop_domain_t) (force_seq : bool)
    (mode future dist_func_id : Z) : res cpp_effect :=
  if force_seq then forasync1D_seq loop0
  else forasync1D_internal dists loop0 mode future dist_func_id false.

(** src/inc/hclib-forasync.h:532-543 (forasync1D_nb) *)
Definition forasync1D_nb (dists : list loop_dist_func) (loop0 : hclib_loop_domain_t)
    (force_seq : bool) (mode future dist_func_id : Z) : res cpp_effect :=
  if force_seq then forasync1D_seq loop0
  else forasync1D_internal dists loop0 mode future dist_func_id true.

(** src/inc/hclib-forasync.h:545-555 (forasync2D_seq) *)
Definition forasync2D_seq (loop0 loop1 : hclib_loop_domain_t) : res cpp_effect :=
  for_loop (loop_fuel (low loop0) (high loop0)) (low loop0) (high loop0) (stride loop0)
    (λ i, for_loop (loop_fuel (low loop1) (high loop1)) (low loop1) (high loop1) (stride loop1)
      (λ j, call [i; j])).

(** src/inc/hclib-forasync.h:557-567 (forasync2D) *)
Definition forasync2D (loop0 loop1 : hclib_loop_domain_t) (force_seq : bool) (mode future : Z)
    : res cpp_effect :=
  if force_seq then forasync2D_seq loop0 loop1
  else forasync2D_internal loop0 loop1 mode future false.

(** src/inc/hclib-forasync.h:569-579 (forasync2D_nb) *)
Definition forasync2D_nb (loop0 loop1 : hclib_loop_domain_t) (force_seq : bool) (mode future : Z)
    : res cpp_effect :=
  if force_seq then forasync2D_seq loop0 loop1
  else forasync2D_internal loop0 loop1 mode future true.

(** src/inc/hclib-forasync.h:581-587 (forasync3D) *)
Definition forasync3D (loop0 loop1 loop2 : hclib_loop_domain_t) (force_seq : bool)
    (mode future : Z) : res cpp_effect :=
  _ ← hassert (negb force_seq);
  forasync3D_internal loop0 loop1 loop2 mode future false.

(** src/inc/hclib-forasync.h:589-595 (forasync3D_nb) *)
Definition forasync3D_nb (loop0 loop1 loop2 : hclib_loop_domain_t) (force_seq : bool)
    (mode future : Z) : res cpp_effect :=
  _ ← hassert (negb force_seq);
  forasync3D_internal loop0 loop1 loop2 mode future true.

(** The overload for the number of loops. *)
Definition forasync_cpp (dists : list loop_dist_func) (domain : list hclib_loop_domain_t)
    (mode future dist_func_id : Z) (nb : bool) : res cpp_effect :=
  match domain with
  | [l0] => (if nb then forasync1D_nb else forasync1D) dists l0 false mode future dist_func_id
  | [l0; l1] => (if nb then forasync2D_nb else forasync2D) l0 l1 false mode future
  | [l0; l1; l2] => (if nb then forasync3D_nb else forasync3D) l0 l1 l2 false mode future
  | _ => Err Disabled
  end.

(** ** Running the chunks *)

(** The body of a lambda, which has captured [future] and [nb]. *)
Definition run_async (future : Z) (nb : bool) (a : async_call) : res cpp_effect :=
  match a_task a with
  | Recursive1D l0 => forasync1D_recursive split_fuel l0 future nb
  | Runner1D l0 => forasync1D_runner l0
  | Recursive2D l0 l1 => forasync2D_recursive (split_fuel + split_fuel) l0 l1 future nb
  | Runner2D l0 l1 => forasync2D_runner l0 l1
  | Recursive3D l0 l1 l2 =>
      forasync3D_recursive (split_fuel + split_fuel + split_fuel) l0 l1 l2 future nb
  | Runner3D l0 l1 l2 => forasync3D_runner l0 l1 l2
  end.

Inductive cpp_step (future : Z) (nb : bool) : cpp_effect → cpp_effect → Prop :=
  | take_async pre a post done e :
      run_async future nb a = Ok e →
      cpp_step future nb (pre ++ a :: post, done) (pre ++ post ++ e.1, done ++ e.2).

Inductive cpp_steps (future : Z) (nb : bool) : nat → cpp_effect → cpp_effect → Prop :=
  | cpp_steps_O e : cpp_steps future nb 0 e e
  | cpp_steps_S n e1 e2 e3 :
      cpp_step future nb e1 e2 → cpp_steps future nb n e2 e3 → cpp_steps future nb (S n) e1 e3.

(** A chunk waits for the future, is non-blocking as asked, and then does not
    split again. *)
Definition like (future : Z) (nb : bool) (a : async_call) : Prop :=
  a_nb a = nb ∧ a_futures a = await_list future ∧
  (nb = true → match a_task a with Runner1D _ | Runner2D _ _ | Runner3D _ _ _ => True | _ => False end).

(** [completes], for chunks with their attributes. *)
Definition cpp_completes (future : Z) (nb : bool) (e : cpp_effect) (space : list (list Z)) : Prop :=
  ∃ bound, ∀ n e', cpp_steps future nb n e e' →
    (n <= bound)%nat ∧
    (∀ a, a ∈ e'.1 → like future nb a ∧ ∃ e1, run_async future nb a = Ok e1) ∧
    (e'.1 = [] → e'.2 ≡ₚ space).

(** ** Lemmas: the C functions without the attributes *)

Definition erase (e : cpp_effect) : effect := (a_task <$> e.1, e.2).

Section sim.
Context (future : Z) (nb : bool).
#[local] Set Default Proof Using "Type*".

(** The same outcome, and all chunks spawned as asked. *)
Definition sim (m : res cpp_effect) (m' : res effect) : Prop :=
  match m, m' with
  | Ok e, Ok e' => e' = erase e ∧ Forall (like future nb) e.1
  | Err f, Err f' => f = f'
  | _, _ => False
  end.

Lemma sim_seq m m' k k' :
  sim m m' → sim k k' →
  sim (e ← m; es ← k; Ok (seq_effect e es)) (e ← m'; es ← k'; Ok (seq_effect e es)).
Proof.
  unfold sim. destruct m as [e|], m' as [e'|]; try done. intros [-> He].
  destruct k as [es|], k' as [es'|]; try done. intros [-> Hes]. cbn.
  split; [unfold erase, seq_effect; cbn; by rewrite fmap_app|]. by apply Forall_app.
Qed.

Lemma sim_bind {A} (m : res A) k k' :
  (∀ a, sim (k a) (k' a)) → sim (a ← m; k a) (a ← m; k' a).
Proof. intros H. destruct m; [apply H|done]. Qed.

Lemma sim_for_loop fuel i hi st body body' :
  (∀ x, sim (body x) (body' x)) → sim (for_loop fuel i hi st body) (for_loop fuel i hi st body').
Proof.
  intros H. revert i. induction fuel as [|fuel IH]; intros i; cbn [for_loop]; [done|].
  destruct (i <? hi); [|by split; [|constructor]]. specialize (H i).
  unfold sim in H. destruct (body i) as [e|f], (body' i) as [e'|f']; try done.
  destruct H as [-> He]. cbn [mbind res_bind]. destruct (int_add i st) as [j|]; [|done].
  cbn [mbind res_bind]. specialize (IH j).
  apply (sim_seq (Ok e) (Ok (erase e)) _ _ (conj eq_refl He) IH).
Qed.

Lemma sim_call idx : sim (call idx) (call idx).
Proof. split; [done|constructor]. Qed.

Lemma sim_runner1 l0 : sim (forasync1D_runner l0) (Forasync.forasync1D_runner l0).
Proof. apply sim_for_loop. intros i. apply sim_call. Qed.

Lemma sim_runner2 l0 l1 : sim (forasync2D_runner l0 l1) (Forasync.forasync2D_runner l0 l1).
Proof. do 2 (apply sim_for_loop; intros ?). apply sim_call. Qed.

Lemma sim_runner3 l0 l1 l2 : sim (forasync3D_runner l0 l1 l2) (Forasync.forasync3D_runner l0 l1 l2).
Proof. do 3 (apply sim_for_loop; intros ?). apply sim_call. Qed.

Lemma sim_spawn t : nb = false → sim (async_await t future) (spawn t).
Proof.
  intros Hnb. split; [done|]. apply Forall_singleton. split; [by rewrite Hnb|]. split; [done|]. congruence.
Qed.

Lemma blocking : nb = false → hassert (negb nb) = Ok tt.
Proof. by intros ->. Qed.

Lemma sim_recursive1 fuel l0 : nb = false →
  sim (forasync1D_recursive fuel l0 future nb) (Forasync.forasync1D_recursive fuel l0).
Proof.
  intros Hnb. revert l0. induction fuel as [|fuel IH]; intros l0; [done|].
  cbn [forasync1D_recursive Forasync.forasync1D_recursive]. rewrite (blocking Hnb). cbn [mbind res_bind].
  apply sim_bind. intros [mid|]; [|apply sim_runner1].
  apply sim_seq; [by apply sim_spawn|apply IH].
Qed.

Lemma sim_recursive2 fuel l0 l1 : nb = false →
  sim (forasync2D_recursive fuel l0 l1 future nb) (Forasync.forasync2D_recursive fuel l0 l1).
Proof.
  intros Hnb. revert l0 l1. induction fuel as [|fuel IH]; intros l0 l1; [done|].
  cbn [forasync2D_recursive Forasync.forasync2D_recursive]. rewrite (blocking Hnb). cbn [mbind res_bind].
  do 2 (apply sim_bind; intros [mid|]; [apply sim_seq; [by apply sim_spawn|apply IH]|]).
  apply sim_runner2.
Qed.

Lemma sim_recursive3 fuel l0 l1 l2 : nb = false →
  sim (forasync3D_recursive fuel l0 l1 l2 future nb) (Forasync.forasync3D_recursive fuel l0 l1 l2).
Proof.
  intros Hnb. revert l0 l1 l2. induction fuel as [|fuel IH]; intros l0 l1 l2; [done|].
  cbn [forasync3D_recursive Forasync.forasync3D_recursive]. rewrite (blocking Hnb). cbn [mbind res_bind].
  do 3 (apply sim_bind; intros [mid|]; [apply sim_seq; [by apply sim_spawn|apply IH]|]).
  apply sim_runner3.
Qed.

Lemma sim_flat_chunks fuel func l0 low0 size :
  match flat_chunks fuel func l0 low0 size future nb, Forasync.flat_chunks fuel l0 low0 size with
  | Ok (e, last), Ok (e', last') => last = last' ∧ sim (Ok e) (Ok e')
  | Err f, Err f' => f = f'
  | _, _ => False
  end.
Proof.
  revert low0. induction fuel as [|fuel IH]; intros low0; [done|].
  cbn [flat_chunks Forasync.flat_chunks]. destruct (low0 <? size); [|by split; [|split; [|constructor]]].
  destruct (int_add low0 (tile l0)) as [next|]; [|done]. cbn [mbind res_bind].
  specialize (IH next). set (ld := mkLoop _ _ _ _). set (loc := func 1 ld l0 FORASYNC_MODE_FLAT).
  assert (sim (spawn_chunk func l0 ld future nb) (spawn (Runner1D ld))) as Hs.
  { unfold spawn_chunk. destruct nb eqn:E; (split; [done|]); apply Forall_singleton; (split; [by rewrite E|by split]). }
  destruct (spawn_chunk func l0 ld future nb) as [e|f]; [|done]. cbn [mbind res_bind spawn] in Hs |- *.
  destruct (flat_chunks fuel func l0 next size future nb) as [[es last]|],
    (Forasync.flat_chunks fuel l0 next size) as [[es' last']|]; try done.
  destruct IH as [-> IH]. cbn [mbind res_bind]. split; [done|].
  exact (sim_seq (Ok e) (Ok ([Runner1D ld], [])) (Ok es) (Ok es') Hs IH).
Qed.

Lemma sim_flat1 dists l0 dist_func_id :
  is_ok (hclib_lookup_dist_func dists dist_func_id) = true →
  sim (forasync1D_flat dists l0 future dist_func_id nb) (Forasync.forasync1D_flat l0).
Proof.
  intros Hd. unfold forasync1D_flat, Forasync.forasync1D_flat.
  destruct (hclib_lookup_dist_func dists dist_func_id) as [func|]; [|done]. cbn [mbind res_bind].
  apply sim_bind. intros nb_chunks. apply sim_bind. intros size.
  pose proof (sim_flat_chunks (loop_fuel (low l0) size) func l0 (low l0) size) as H.
  destruct (flat_chunks _ _ _ _ _ _ _) as [[e last]|], (Forasync.flat_chunks _ _ _ _) as [[e' last']|]; try done.
  destruct H as [-> H]. cbn [mbind res_bind]. destruct (size <? high l0); [|exact H].
  set (ld := mkLoop _ _ _ _).
  assert (sim (spawn_chunk func l0 ld future nb) (spawn (Runner1D ld))) as Hs.
  { unfold spawn_chunk. destruct nb eqn:E; (split; [done|]); apply Forall_singleton; (split; [by rewrite E|by split]). }
  exact (sim_seq (Ok e) (Ok e') _ _ H Hs).
Qed.

Lemma sim_chunk_loop l body body' :
  (∀ c, sim (body c) (body' c)) → sim (chunk_loop l body) (Forasync.chunk_loop l body').
Proof. intros H. apply sim_for_loop. intros low0. apply sim_bind. intros next. apply H. Qed.

Lemma sim_tile t :
  match t with Runner1D _ | Runner2D _ _ | Runner3D _ _ _ => True | _ => False end →
  sim (spawn_tile t future nb) (spawn t).
Proof.
  intros Ht. unfold spawn_tile. destruct nb eqn:E; (split; [done|]); apply Forall_singleton;
    (split; [by rewrite E|by split]).
Qed.

Lemma sim_flat2 l0 l1 : sim (forasync2D_flat l0 l1 future nb) (Forasync.forasync2D_flat l0 l1).
Proof. do 2 (apply sim_chunk_loop; intros ?). by apply sim_tile. Qed.

Lemma sim_flat3 l0 l1 l2 : sim (forasync3D_flat l0 l1 l2 future nb) (Forasync.forasync3D_flat l0 l1 l2).
Proof. do 3 (apply sim_chunk_loop; intros ?). by apply sim_tile. Qed.

(** Running a chunk is running the C task. *)
Lemma sim_run a : like future nb a → sim (run_async future nb a) (run_task (a_task a)).
Proof.
  intros (_ & _ & Ha). unfold run_async. destruct (a_task a).
  1, 3, 5: assert (nb = false) by (destruct nb; [by destruct (Ha eq_refl)|done]).
  - by apply sim_recursive1.
  - by apply sim_recursive2.
  - by apply sim_recursive3.
  - apply sim_runner1.
  - apply sim_runner2.
  - apply sim_runner3.
Qed.

Lemma sim_steps n e e' :
  cpp_steps future nb n e e' → Forall (like future nb) e.1 →
  sched_steps n (erase e) (erase e') ∧ Forall (like future nb) e'.1.
Proof.
  induction 1 as [e|n e1 e2 e3 Hstep Hsteps IH]; intros Hl; [split; [constructor|done]|].
  destruct Hstep as [pre a post done e Hrun]. cbn in Hl. apply Forall_app in Hl as [Hpre [Ha Hpost]%Forall_cons].
  pose proof (sim_run a Ha) as Hs. rewrite Hrun in Hs. unfold sim in Hs.
  destruct (run_task (a_task a)) as [e'|] eqn:E; [|by destruct Hs]. destruct Hs as [-> He].
  destruct IH as [IH Hl'].
  { cbn. repeat (apply Forall_app; split); done. }
  split; [|done]. econstructor; [|exact IH]. unfold erase. cbn. rewrite !fmap_app. cbn.
  exact (take_task (a_task <$> pre) (a_task a) (a_task <$> post) done (erase e) E).
Qed.

(** Chunks that the C loop would complete complete. *)
Lemma cpp_completes_of m m' e' sp :
  sim m m' → m' = Ok e' → completes e' sp → ∃ e, m = Ok e ∧ cpp_completes future nb e sp.
Proof.
  intros Hs -> [bound Hc]. unfold sim in Hs. destruct m as [e|]; [|done]. destruct Hs as [-> He].
  exists e. split; [done|]. exists bound. intros n e1 Hsteps.
  destruct (sim_steps n e e1 Hsteps He) as [Hsched Hl]. destruct (Hc n _ Hsched) as (Hn & Hsafe & Hend).
  split; [done|]. split.
  - intros a Ha. rewrite Forall_forall in Hl. split; [by apply Hl|].
    destruct (Hsafe (a_task a)) as [e2 E]; [cbn; by apply list_elem_of_fmap_2|].
    pose proof (sim_run a (Hl a Ha)) as Hsr. rewrite E in Hsr. unfold sim in Hsr.
    destruct (run_async future nb a) as [e3|]; [by exists e3|done].
  - intros Hnil. apply Hend. cbn. by rewrite Hnil.
Qed.
End sim.

(** How a loop may be called: in recursive mode, of unit stride, blocking and
    without a distribution function; or in flat mode as for the C loops, with a
    distribution function that is registered. *)
Definition cpp_arg (dists : list loop_dist_func) (domain : list hclib_loop_domain_t)
    (mode dist_func_id : Z) (nb : bool) : Prop :=
  (mode = FORASYNC_MODE_RECURSIVE ∧ nb = false ∧ dist_func_id = HCLIB_DEFAULT_LOOP_DIST ∧
   Forall (λ l, stride l = 1) domain) ∨
  (mode = FORASYNC_MODE_FLAT ∧ is_ok (hclib_lookup_dist_func dists dist_func_id) = true ∧
   Forall (λ l, (stride l | tile l)) domain ∧
   match domain with [l0] => (tile l0 | low l0) ∧ 0 <= high l0 | _ => True end).

Lemma sim_cpp dists domain mode future dist_func_id nb :
  dim_ok domain → cpp_arg dists domain mode dist_func_id nb →
  sim future nb (forasync_cpp dists domain mode future dist_func_id nb)
    (forasync_internal (Z.of_nat (length domain)) domain mode).
Proof.
  intros Hdim [(-> & -> & -> & _)|(-> & Hd & _)].
  - destruct domain as [|l0 [|l1 [|l2 [|]]]]; unfold dim_ok in Hdim; cbn in Hdim; try lia.
    + exact (sim_recursive1 future false split_fuel l0 eq_refl).
    + exact (sim_recursive2 future false (split_fuel + split_fuel) l0 l1 eq_refl).
    + exact (sim_recursive3 future false (split_fuel + split_fuel + split_fuel) l0 l1 l2 eq_refl).
  - destruct domain as [|l0 [|l1 [|l2 [|]]]]; unfold dim_ok in Hdim; cbn in Hdim; try lia.
    + pose proof (sim_flat1 future nb dists l0 dist_func_id Hd). by destruct nb.
    + pose proof (sim_flat2 future nb l0 l1). by destruct nb.
    + pose proof (sim_flat3 future nb l0 l1 l2). by destruct nb.
Qed.

(** What the C loop does with these arguments. *)
Lemma cpp_inv dists domain mode dist_func_id nb :
  dim_ok domain → Forall loop_ok domain → cpp_arg dists domain mode dist_func_id nb →
  ∃ e, forasync_internal (Z.of_nat (length domain)) domain mode = Ok e ∧ sched_inv e (domain_space domain).
Proof.
  intros Hdim Hok [(-> & _ & _ & Hu)|(-> & _ & Hm & H1)]; [|by apply internal_flat_inv].
  apply internal_recursive_inv; [done|]. apply Forall_forall. intros l Hl. rewrite Forall_forall in Hok, Hu.
  split; [by apply Hok|by apply Hu].
Qed.

(** The first tile is run by the caller. *)
Lemma recursive1_first fuel l0 future e :
  loop_ok l0 → low l0 < high l0 → forasync1D_recursive fuel l0 future false = Ok e → [low l0] ∈ e.2.
Proof.
  revert l0 e. induction fuel as [|fuel IH]; intros l0 e Hok Hlt H; [done|].
  cbn [forasync1D_recursive] in H. change (hassert (negb false)) with (Ok tt) in H. cbn [mbind res_bind] in H.
  apply bind_Ok in H as (split & Hsplit & H). destruct split as [mid|].
  - apply bind_Ok in H as (e1 & _ & H). apply bind_Ok in H as (es & Hes & H). injection H as <-.
    assert (low l0 < mid <= high l0) as Hmid.
    { unfold split_at in Hsplit. destruct Hok as (Hl & Hh & _ & Ht).
      rewrite int_sub_id in Hsplit by (unfold INT_MIN, INT_MAX; lia). cbn [mbind res_bind] in Hsplit.
      destruct (Z.gtb_spec (high l0 - low l0) (tile l0)) as [Hgt|]; [|done].
      rewrite int_add_id in Hsplit by (unfold INT_MIN, INT_MAX; lia). cbn [mbind res_bind] in Hsplit.
      unfold int_div in Hsplit. cbn in Hsplit. pose proof (quot2_mid (low l0) (high l0) ltac:(lia)).
      rewrite to_int_id in Hsplit by (unfold INT_MIN, INT_MAX; lia). injection Hsplit as <-. lia. }
    apply (IH (lower mid l0)) in Hes; [|destruct Hok as (?&?&?&?); repeat split; cbn; lia|cbn; lia].
    cbn. apply elem_of_app. by right.
  - pose proof (sim_runner1 future false l0) as Hs. rewrite H, runner1_ok in Hs by done.
    destruct Hs as [E _]. apply (f_equal snd) in E. cbn in E. rewrite <- E. unfold space1, points. rewrite pts_cons by (destruct Hok as (_&_&?&_); lia).
    by left.
Qed.

(** ** Properties *)


Definition one_place : loop_dist_func := λ _ _ _ _, Some 0.


(** Where the C++ loops fail.  The non-blocking loops abort in the mode that
    is their default; and a blocking loop in that mode runs its first tile at
    once, in the caller, even when the future it was given is not satisfied. *)
Theorem cpp_forasync_default_mode dists l0 l1 l2 future :
  forasync1D_nb dists l0 false FORASYNC_MODE_RECURSIVE future HCLIB_DEFAULT_LOOP_DIST = Err AssertFail ∧
  forasync2D_nb l0 l1 false FORASYNC_MODE_RECURSIVE future = Err AssertFail ∧
  forasync3D_nb l0 l1 l2 false FORASYNC_MODE_RECURSIVE future = Err AssertFail ∧
  (loop_ok l0 → low l0 < high l0 → ∀ e,
    forasync1D dists l0 false FORASYNC_MODE_RECURSIVE future HCLIB_DEFAULT_LOOP_DIST = Ok e →
    [low l0] ∈ e.2).
Proof.
  split; [done|]. split; [done|]. split; [done|]. intros Hok Hlt e. by apply recursive1_first.
Qed.

Lemma cpp_forasync_default_mode_witness :
  ∃ e, forasync1D [one_place] (mkLoop 0 10 1 3) false FORASYNC_MODE_RECURSIVE 77 0 = Ok e ∧ [0] ∈ e.2.
Proof.
  assert (is_ok (forasync1D [one_place] (mkLoop 0 10 1 3) false FORASYNC_MODE_RECURSIVE 77 0) = true)
    as Hr by (by vm_compute).
  destruct (forasync1D _ _ _ _ _ _) as [e|f] eqn:E; [|done]. exists e. split; [done|]. revert E.
  apply (cpp_forasync_default_mode [one_place] (mkLoop 0 10 1 3) (mkLoop 0 1 1 1) (mkLoop 0 1 1 1) 77).
  - unfold loop_ok; cbn; lia.
  - cbn; lia.
Defined.
