(* ===== verification/Atomic.v ===== *)
(** * Per-worker atomic variables

    [src/src/hclib_atomic.c]: an array of padded slots, one per worker; a worker
    updates its own slot and a gather reduces them all.  The theorem says that
    the gather of a commutative reduction does not depend on which worker made
    which update. *)

From S2P Require Import Prelude.
From stdpp Require Import options.

(** src/inc/hclib_atomic.h:6-6 (CACHE_LINE_LEN_IN_BYTES) *)
Definition CACHE_LINE_LEN_IN_BYTES : Z := 32.

(** src/inc/hclib_atomic.h:36-41 (hclib_atomic_t) *)
Record hclib_atomic_t := mkAtomic {
  vals : bytes;
  nthreads : Z;
  val_size : Z;
  padded_val_size : Z
}.

(** src/src/hclib_atomic.c:22-24 (padded_ele_size) *)
Definition padded_size (ele_size : Z) : Z :=
  let padded_ele_size := to_size (CACHE_LINE_LEN_IN_BYTES - ele_size mod CACHE_LINE_LEN_IN_BYTES) in
  to_size (padded_ele_size + ele_size).

(** src/src/hclib_atomic.c:29-31 (hclib_atomic_init) *)
Fixpoint init_loop (n : nat) (i : Z) (padded ele_size : Z) (init : bytes → bytes)
    (mem : bytes) : res bytes :=
  match n with
  | O => Ok mem
  | S n =>
      mem ← on_block mem (to_size (i * padded)) ele_size init;
      init_loop n (i + 1) padded ele_size init mem
  end.

(** [nworkers] is what [hclib_get_num_workers] returns; the callback has its
    [user_data] applied.

    src/src/hclib_atomic.c:12-32 (hclib_atomic_init) *)
Definition hclib_atomic_init (nworkers ele_size : Z) (init : bytes → bytes)
    : res hclib_atomic_t :=
  _ ← hassert (ele_size >? 0);
  let padded_ele_size := padded_size ele_size in
  let mem := replicate (Z.to_nat (to_size (nworkers * padded_ele_size))) None in
  mem ← init_loop (Z.to_nat nworkers) 0 padded_ele_size ele_size init mem;
  Ok (mkAtomic mem nworkers ele_size padded_ele_size).

(** src/src/hclib_atomic.c:3-10 (hclib_atomic_create) *)
Definition hclib_atomic_create (nworkers ele_size_in_bytes : Z) (init : bytes → bytes)
    : res hclib_atomic_t :=
  hclib_atomic_init nworkers ele_size_in_bytes init.

(** [tid] is the worker that runs the update.

    src/src/hclib_atomic.c:34-38 (hclib_atomic_update) *)
Definition hclib_atomic_update (tid : Z) (atomic : hclib_atomic_t) (f : bytes → bytes)
    : res hclib_atomic_t :=
  mem ← on_block (vals atomic) (to_size (tid * padded_val_size atomic)) (val_size atomic) f;
  Ok (mkAtomic mem (nthreads atomic) (val_size atomic) (padded_val_size atomic)).

(** src/src/hclib_atomic.c:49-51 (hclib_atomic_gather) *)
Fixpoint gather_loop (n : nat) (i : Z) (atomic : hclib_atomic_t)
    (f : bytes → bytes → bytes) (result : bytes) : res bytes :=
  match n with
  | O => Ok result
  | S n =>
      b ← block (vals atomic) (to_size (i * padded_val_size atomic)) (val_size atomic);
      result ← on_block result 0 (val_size atomic) (λ a, f a b);
      gather_loop n (i + 1) atomic f result
  end.

(** src/src/hclib_atomic.c:40-54 (hclib_atomic_gather) *)
Definition hclib_atomic_gather (atomic : hclib_atomic_t) (f : bytes → bytes → bytes)
    : res bytes :=
  result ← block (vals atomic) 0 (padded_val_size atomic);
  gather_loop (Z.to_nat (nthreads atomic - 1)) 1 atomic f result.

(** A run of updates, each with the worker that makes it. *)
Fixpoint updates (atomic : hclib_atomic_t) (us : list (Z * (bytes → bytes)))
    : res hclib_atomic_t :=
  match us with
  | [] => Ok atomic
  | (tid, f) :: us => atomic ← hclib_atomic_update tid atomic f; updates atomic us
  end.

(** ** Lemmas: slots *)

(** The padded size is a whole number of cache lines, with room for the value. *)
Lemma padded_size_ok ele_size :
  0 < ele_size <= INT_MAX →
  padded_size ele_size = 32 * (ele_size / 32 + 1) ∧
  ele_size < padded_size ele_size <= ele_size + 32.
Proof.
  intros H. unfold padded_size, to_size, SIZE_MOD, INT_MAX, CACHE_LINE_LEN_IN_BYTES in *.
  pose proof (Z.mod_pos_bound ele_size 32 ltac:(lia)).
  pose proof (Z.div_mod ele_size 32 ltac:(lia)).
  rewrite (Z.mod_small (32 - _)) by lia. rewrite Z.mod_small by lia. lia.
Qed.

Section reduction.
Context {V : Type} (enc : V → bytes) (op : V → V → V) (e : V) (sz : Z).
Context (init : bytes → bytes) (update : V → bytes → bytes) (gather : bytes → bytes → bytes).
Context (Hsz : 0 < sz <= INT_MAX).
Context (Henc : ∀ v, Z.of_nat (length (enc v)) = sz).
Context (Hinit : ∀ b, Z.of_nat (length b) = sz → init b = enc e).
Context (Hupdate : ∀ v x, update x (enc v) = enc (op v x)).
Context (Hgather : ∀ v x, gather (enc v) (enc x) = enc (op v x)).

#[local] Set Default Proof Using "Type*".

Let P := padded_size sz.

Definition slots (mem : bytes) (n : Z) (vs : list V) : Prop :=
  Z.of_nat (length mem) = n * P ∧ Z.of_nat (length vs) <= n ∧
  ∀ i v, vs !! i = Some v → block mem (Z.of_nat i * P) sz = Ok (enc v).

Lemma slots_index n i : 0 <= i < n → n <= INT_MAX → to_size (i * P) = i * P ∧ i * P + sz <= n * P.
Proof.
  intros Hi Hn. pose proof (padded_size_ok sz Hsz) as [_ HP]. fold P in HP.
  unfold to_size, SIZE_MOD, INT_MAX in *. rewrite Z.mod_small by nia. split; [done|nia].
Qed.

Lemma slots_set mem n vs i v :
  slots mem n vs → (i < length vs)%nat →
  slots (set_block mem (Z.of_nat i * P) (enc v)) n (<[i := v]> vs).
Proof.
  intros (Hm & Hl & Hs) Hi. pose proof (padded_size_ok sz Hsz) as [_ HP]. fold P in HP.
  assert (0 <= Z.of_nat i * P ∧ Z.of_nat i * P + sz <= n * P) as [H0 H1] by nia.
  split; [|split]; [by rewrite length_set_block by (rewrite ?Henc; lia)|by rewrite length_insert|].
  intros j w Hj. destruct (decide (i = j)) as [<-|Hne].
  - rewrite list_lookup_insert_eq in Hj by done. injection Hj as <-.
    rewrite <- (Henc v). apply block_set_same; rewrite ?Henc; lia.
  - rewrite list_lookup_insert_ne in Hj by done. pose proof (lookup_lt_Some _ _ _ Hj).
    assert (i < j ∨ j < i)%nat as [Hij|Hij] by lia;
      (rewrite block_set_other; [by apply Hs|rewrite ?Henc; nia..]).
Qed.

Lemma init_loop_ok n i mem :
  0 <= i → i + Z.of_nat n <= INT_MAX →
  slots mem (i + Z.of_nat n) (replicate (Z.to_nat i) e) →
  ∃ mem', init_loop n i P sz init mem = Ok mem' ∧
    slots mem' (i + Z.of_nat n) (replicate (Z.to_nat i + n) e).
Proof.
  revert i mem. induction n as [|n IH]; intros i mem Hi Hn Hs; cbn [init_loop].
  - exists mem. split; [done|]. by rewrite Nat.add_0_r.
  - destruct (slots_index (i + Z.of_nat (S n)) i) as [-> Hb]; [lia|lia|].
    pose proof Hs as (Hm & _ & _). pose proof (padded_size_ok sz Hsz) as [_ HP]. fold P in HP.
    set (b := take (Z.to_nat sz) (drop (Z.to_nat (i * P)) mem)).
    assert (block mem (i * P) sz = Ok b) as Hblk by (apply block_ok; nia).
    rewrite (on_block_ok _ _ _ _ _ Hblk), Hinit by (eapply length_block; [|done]; lia).
    cbn [mbind res_bind].
    assert (Z.to_nat i + S n = Z.to_nat (i + 1) + n)%nat as -> by lia.
    replace (i + Z.of_nat (S n)) with (i + 1 + Z.of_nat n) in * by lia.
    apply IH; [lia|lia|]. destruct Hs as (_ & Hl & Hs).
    split; [by rewrite length_set_block by (rewrite ?Henc; nia)|].
    split; [rewrite length_replicate; lia|].
    intros j w [-> Hj]%lookup_replicate.
    destruct (decide (j = Z.to_nat i)) as [->|Hne].
    + rewrite Z2Nat.id by lia. rewrite <- (Henc e). apply block_set_same; rewrite ?Henc; nia.
    + rewrite block_set_other; [|rewrite ?Henc; nia..].
      apply Hs. apply lookup_replicate. split; [done|lia].
Qed.

Lemma updates_ok n us mem vs :
  n <= INT_MAX → slots mem n vs → Z.of_nat (length vs) = n →
  Forall (λ u, 0 <= u.1 < n) us →
  ∃ mem' vs', updates (mkAtomic mem n sz P) ((λ u, (u.1, update u.2)) <$> us) =
      Ok (mkAtomic mem' n sz P) ∧
    slots mem' n vs' ∧ Z.of_nat (length vs') = n ∧
    ∀ i v, vs !! i = Some v →
      vs' !! i = Some (foldl op v (snd <$> filter (λ u, u.1 = Z.of_nat i) us)).
Proof.
  intros Hn. revert mem vs. induction us as [|[tid x] us IH]; intros mem vs Hs Hl Hus.
  - exists mem, vs. cbn. done.
  - apply Forall_cons in Hus as [Ht Hus]. cbn in Ht. cbn [fmap list_fmap updates].
    unfold hclib_atomic_update. cbn [vals padded_val_size val_size nthreads fst snd].
    destruct (slots_index n tid) as [-> _]; [done|done|].
    destruct (lookup_lt_is_Some_2 vs (Z.to_nat tid)) as [v Hv]; [lia|].
    pose proof Hs as (_ & _ & Hb). pose proof (Hb _ _ Hv) as Hblk.
    rewrite Z2Nat.id in Hblk by lia. rewrite (on_block_ok _ _ _ _ _ Hblk), Hupdate.
    cbn [mbind res_bind].
    destruct (IH (set_block mem (tid * P) (enc (op v x))) (<[Z.to_nat tid := op v x]> vs))
      as (mem' & vs' & -> & Hs' & Hl' & Hvs'); [|by rewrite length_insert|done|].
    { rewrite <- (Z2Nat.id tid) at 1 by lia. apply slots_set; [done|lia]. }
    exists mem', vs'. split; [done|]. split; [done|]. split; [done|].
    intros i w Hi. destruct (decide (tid = Z.of_nat i)) as [->|Hne].
    + rewrite filter_cons_True by done. rewrite Nat2Z.id in *.
      assert (w = v) as -> by congruence. cbn. apply Hvs'.
      apply list_lookup_insert_eq. lia.
    + rewrite filter_cons_False by done. apply Hvs'. rewrite list_lookup_insert_ne by lia. done.
Qed.

Lemma gather_loop_ok n i mem vs acc result :
  n <= INT_MAX → slots mem n vs → Z.of_nat (length vs) = n →
  Z.of_nat (length result) = P → block result 0 sz = Ok (enc acc) →
  ∀ k, i + Z.of_nat k = n → 0 <= i →
  ∃ result', gather_loop k i (mkAtomic mem n sz P) gather result = Ok result' ∧
    block result' 0 sz = Ok (enc (foldl op acc (drop (Z.to_nat i) vs))).
Proof.
  intros Hn Hs Hl Hr Hacc k. revert i acc result Hr Hacc.
  pose proof (padded_size_ok sz Hsz) as [_ HP]. fold P in HP.
  induction k as [|k IH]; intros i acc result Hr Hacc Hk Hi; cbn [gather_loop].
  - exists result. split; [done|]. by rewrite drop_ge by lia.
  - cbn [vals padded_val_size val_size].
    destruct (slots_index n i) as [-> _]; [lia|done|].
    destruct (lookup_lt_is_Some_2 vs (Z.to_nat i)) as [v Hv]; [lia|].
    destruct Hs as (Hm & Hlen & Hb). pose proof (Hb _ _ Hv) as Hblk.
    rewrite Z2Nat.id in Hblk by lia. rewrite Hblk. cbn [mbind res_bind].
    rewrite (on_block_ok _ _ _ _ _ Hacc), Hgather. cbn [mbind res_bind].
    rewrite (drop_S vs v) by done. cbn [foldl].
    replace (S (Z.to_nat i)) with (Z.to_nat (i + 1)) by lia.
    apply IH; [by rewrite length_set_block by (rewrite ?Henc; lia)| |lia|lia].
    rewrite <- (Henc (op acc v)). apply block_set_same; rewrite ?Henc; lia.
Qed.

(** A new variable holds [e] in every slot. *)
Lemma create_ok n :
  1 <= n → n * (sz + 32) <= INT_MAX →
  ∃ mem, hclib_atomic_create n sz init = Ok (mkAtomic mem n sz P) ∧
    slots mem n (replicate (Z.to_nat n) e).
Proof.
  intros Hn Hmax. pose proof (padded_size_ok sz Hsz) as [_ HP]. fold P in HP.
  unfold hclib_atomic_create, hclib_atomic_init. rewrite Z.gtb_ltb.
  rewrite (proj2 (Z.ltb_lt _ _)) by lia. cbn [hassert mbind res_bind].
  rewrite to_size_id by nia. fold P.
  destruct (init_loop_ok (Z.to_nat n) 0 (replicate (Z.to_nat (n * P)) None))
    as (mem & -> & Hs); [lia|nia| |].
  - split; [rewrite length_replicate, !Z2Nat.id by nia; lia|].
    split; [rewrite length_replicate; lia|]. done.
  - cbn [mbind res_bind]. rewrite Z2Nat.id in Hs by lia. by exists mem.
Qed.

(** The gather reduces the slots from the first one. *)
Lemma gather_ok n mem v vs :
  n <= INT_MAX → slots mem n (v :: vs) → Z.of_nat (length (v :: vs)) = n →
  ∃ result, hclib_atomic_gather (mkAtomic mem n sz P) gather = Ok result ∧
    take (Z.to_nat sz) result = enc (foldl op v vs).
Proof.
  intros Hn Hs Hl. pose proof (padded_size_ok sz Hsz) as [_ HP]. fold P in HP.
  pose proof Hs as (Hm & _ & Hb). pose proof (Hb 0%nat v eq_refl) as H0. cbn [Z.of_nat Z.mul] in H0.
  cbn [length] in Hl.
  destruct (gather_loop_ok n 1 mem (v :: vs) v (take (Z.to_nat P) mem)) with (k := Z.to_nat (n - 1))
    as (result & Hg & Hr); [done|done|done|rewrite length_take; nia| |lia|lia|].
  { rewrite block_ok in H0 by nia. rewrite block_ok by (rewrite ?length_take; nia).
    cbn in H0 |- *. rewrite drop_0 in *. rewrite take_take. rewrite Nat.min_l by lia. done. }
  exists result. split.
  - unfold hclib_atomic_gather. cbn [vals padded_val_size nthreads]. rewrite block_ok by nia. exact Hg.
  - unfold block in Hr. destruct (_ && _); [|done]. injection Hr as Hr. cbn in Hr.
    by rewrite drop_0 in Hr.
Qed.
End reduction.

(** ** Lemmas: commutative reductions *)

Section monoid.
Context {V : Type} (op : V → V → V) (e : V).
Context (Hassoc : ∀ a b c, op a (op b c) = op (op a b) c).
Context (Hcomm : ∀ a b, op a b = op b a) (Hunit : ∀ a, op e a = a).
#[local] Set Default Proof Using "Type*".

Lemma foldl_unit l a : foldl op a l = op a (foldl op e l).
Proof.
  revert a. induction l as [|x l IH]; intros a; cbn; [by rewrite Hcomm, Hunit|].
  by rewrite IH, (IH (op e x)), Hunit, Hassoc.
Qed.

Lemma foldl_one {A} (g h : A → V) x j (js : list A) :
  NoDup js → j ∈ js → h j = op x (g j) → (∀ i, i ≠ j → h i = g i) →
  foldl op e (h <$> js) = op x (foldl op e (g <$> js)).
Proof.
  intros Hnd Hj Ej Eo. induction js as [|i js IH]; [by apply elem_of_nil in Hj|].
  apply NoDup_cons in Hnd as [Hi Hnd]. cbn.
  rewrite (foldl_unit _ (op e (h i))), (foldl_unit _ (op e (g i))), !Hunit.
  apply elem_of_cons in Hj as [->|Hj].
  - rewrite Ej, <- Hassoc. do 2 f_equal. f_equal. apply list_fmap_ext.
    intros k y Hk. apply Eo. intros ->. apply Hi. by eapply list_elem_of_lookup_2.
  - rewrite IH, Eo by (done || intros ->; done).
    by rewrite !Hassoc, (Hcomm (g i)).
Qed.

(** The reduction of each worker's share, reduced, is the reduction of all. *)
Lemma foldl_shares n us :
  Forall (λ u : Z * V, 0 <= u.1 < Z.of_nat n) us →
  foldl op e ((λ i, foldl op e (snd <$> filter (λ u, u.1 = Z.of_nat i) us)) <$> seq 0 n) =
  foldl op e (snd <$> us).
Proof.
  induction us as [|[tid x] us IH]; intros Hus.
  - cbn. induction (seq 0 n) as [|i js IHi]; cbn; [done|by rewrite Hunit].
  - apply Forall_cons in Hus as [Ht Hus]. cbn in Ht. cbn [fmap list_fmap foldl snd].
    rewrite Hunit, (foldl_unit _ x), <- IH by done.
    apply (foldl_one _ _ _ (Z.to_nat tid)); [apply NoDup_seq|apply elem_of_seq; lia| |].
    + rewrite filter_cons_True by (cbn; lia). cbn. by rewrite Hunit, foldl_unit.
    + intros i Hi. rewrite filter_cons_False by (cbn; lia). done.
Qed.
End monoid.

(** ** Properties *)

(** For a reduction that is associative and commutative with the initial
    value as its unit, an atomic variable is created without a fault, its slots
    are whole cache lines apart, every sequence of updates by the workers is
    defined, and the gather returns the reduction of all the updates whichever
    worker made each and in whatever order. *)
Theorem atomic_gather_reduces {V : Type} (enc : V → bytes) (op : V → V → V) (e : V)
    (nworkers sz : Z) (init : bytes → bytes) (update : V → bytes → bytes)
    (gather : bytes → bytes → bytes) (us : list (Z * V)) :
  1 <= nworkers → 0 < sz → nworkers * (sz + 32) <= INT_MAX →
  (∀ v, Z.of_nat (length (enc v)) = sz) →
  (∀ b, Z.of_nat (length b) = sz → init b = enc e) →
  (∀ v x, update x (enc v) = enc (op v x)) →
  (∀ v x, gather (enc v) (enc x) = enc (op v x)) →
  (∀ a b c, op a (op b c) = op (op a b) c) → (∀ a b, op a b = op b a) →
  (∀ a, op e a = a) → Forall (λ u, 0 <= u.1 < nworkers) us →
  ∃ a a' result, hclib_atomic_create nworkers sz init = Ok a ∧
    padded_val_size a mod CACHE_LINE_LEN_IN_BYTES = 0 ∧ sz < padded_val_size a ∧
    updates a ((λ u, (u.1, update u.2)) <$> us) = Ok a' ∧
    hclib_atomic_gather a' gather = Ok result ∧
    take (Z.to_nat sz) result = enc (foldl op e (snd <$> us)).
Proof.
  intros Hn Hsz Hmax Henc Hinit Hupd Hgat Hassoc Hcomm Hunit Hus.
  assert (0 < sz <= INT_MAX) as Hsz' by nia.
  pose proof (padded_size_ok sz Hsz') as [HP HPb]. assert (nworkers <= INT_MAX) as Hn' by nia.
  destruct (create_ok enc op e sz init update gather Hsz' Henc Hinit Hupd Hgat nworkers Hn Hmax)
    as (mem & Hcr & Hs).
  destruct (updates_ok enc op e sz init update gather Hsz' Henc Hinit Hupd Hgat
    nworkers us mem (replicate (Z.to_nat nworkers) e)) as (mem' & vs & Hup & Hs' & Hl & Hvs);
    [done|done|rewrite length_replicate; lia|done|].
  assert (vs = (λ i, foldl op e (snd <$> filter (λ u, u.1 = Z.of_nat i) us)) <$>
    seq 0 (Z.to_nat nworkers)) as Evs.
  { apply list_eq. intros i. rewrite list_lookup_fmap.
    destruct (decide (i < Z.to_nat nworkers)%nat).
    - rewrite lookup_seq_lt by done. apply Hvs. by apply lookup_replicate.
    - rewrite lookup_seq_ge by lia. apply lookup_ge_None. lia. }
  destruct vs as [|v0 vs]; [cbn in Hl; lia|].
  destruct (gather_ok enc op e sz init update gather Hsz' Henc Hinit Hupd Hgat
    nworkers mem' v0 vs Hn' Hs' Hl) as (result & Hg & Hr).
  eexists _, _, result. split; [exact Hcr|]. split; [|split; [exact (proj1 HPb)|]].
  { cbn [padded_val_size]. rewrite HP. unfold CACHE_LINE_LEN_IN_BYTES.
    rewrite Z.mul_comm. apply Z.mod_mul. lia. }
  split; [exact Hup|]. split; [exact Hg|]. rewrite Hr. f_equal.
  rewrite <- (foldl_shares op e Hassoc Hcomm Hunit (Z.to_nat nworkers)).
  - rewrite <- Evs. cbn. by rewrite Hunit.
  - eapply Forall_impl; [done|]. cbn. lia.
Qed.

(** A sum of one-byte counters (no wrap-around here) over three workers. *)
Example atomic_gather_reduces_witness :
  ∃ a a' result, hclib_atomic_create 3 1 (λ _, [Some 0]) = Ok a ∧
    updates a ((λ u, (u.1, λ b, match b with [Some v] => [Some (v + u.2)] | _ => b end)) <$>
      [(0, 5); (2, 7); (0, 1)]) = Ok a' ∧
    hclib_atomic_gather a' (λ a b, match a, b with [Some v], [Some x] => [Some (v + x)] | _, _ => a end)
      = Ok result ∧
    take 1 result = [Some 13].
Proof.
  destruct (atomic_gather_reduces (λ v, [Some v]) Z.add 0 3 1 (λ _, [Some 0])
    (λ x b, match b with [Some v] => [Some (v + x)] | _ => b end)
    (λ a b, match a, b with [Some v], [Some x] => [Some (v + x)] | _, _ => a end)
    [(0, 5); (2, 7); (0, 1)])
    as (a & a' & r & H1 & _ & _ & H2 & H3 & H4); try done; try (intros; lia).
  - apply Forall_forall. intros u Hu. rewrite !elem_of_cons in Hu.
    destruct Hu as [->|[->|[->|Hu]]]; [cbn; lia..|by apply elem_of_nil in Hu].
  - exists a, a', r. split; [exact H1|]. split; [exact H2|]. split; [exact H3|exact H4].
Defined.
