(* ===== verification/AtomicCpp.v ===== *)
(** * The C++ atomic variables

    The template [atomic_t] of [src/inc/hclib_atomic.h], which keeps one value per
    worker as [Atomic] does for C but with a copy of the initial value beside them, and
    the sums, maxima and disjunctions built on it.  The gather starts from the initial
    value although each worker's slot has it too, so a sum that does not start at 0
    counts its start once per worker and once more. *)

From S2P Require Import Prelude Atomic.
From stdpp Require Import options.

(** ** The template *)

Section template.
Context {T : Type}.

(** A slot is [None] until it is written.

    src/inc/hclib_atomic.h:84-91 (atomic_t) *)
Record atomic_t := mkAtomicT {
  slots_count : Z;
  slot_vals : list (option T);
  default_value : T
}.

(** src/inc/hclib_atomic.h:100-102 (atomic_t) *)
Fixpoint set_slots (n : nat) (i : Z) (v : T) (mem : list (option T)) : res (list (option T)) :=
  match n with
  | O => Ok mem
  | S n => mem ← array_set mem i (Some v); set_slots n (i + 1) v mem
  end.

(** [nworkers] is what [hclib_get_num_workers] returns.

    src/inc/hclib_atomic.h:94-103 (atomic_t) *)
Definition atomic_new (nworkers : Z) (set_default_value : T) : res atomic_t :=
  mem ← set_slots (Z.to_nat nworkers) 0 set_default_value (replicate (Z.to_nat nworkers) None);
  Ok (mkAtomicT nworkers mem set_default_value).

(** src/inc/hclib_atomic.h:106-112 (atomic_t) *)
Definition atomic_copy (other : atomic_t) : atomic_t :=
  mkAtomicT (slots_count other) (take (Z.to_nat (slots_count other)) (slot_vals other)) (default_value other).

Definition read_slot (a : atomic_t) (i : Z) : res T :=
  v ← array_get (slot_vals a) i;
  match v with Some v => Ok v | None => Err UninitRead end.

(** src/inc/hclib_atomic.h:119-122 (update) *)
Definition atomic_update (wid : Z) (a : atomic_t) (f : T → res T) : res atomic_t :=
  v ← read_slot a wid;
  v ← f v;
  mem ← array_set (slot_vals a) wid (Some v);
  Ok (mkAtomicT (slots_count a) mem (default_value a)).

(** src/inc/hclib_atomic.h:132-134 (gather) *)
Fixpoint reduce_slots (n : nat) (i : Z) (a : atomic_t) (reduce : T → T → res T) (aggregate : T) : res T :=
  match n with
  | O => Ok aggregate
  | S n =>
      v ← read_slot a i;
      aggregate ← reduce aggregate v;
      reduce_slots n (i + 1) a reduce aggregate
  end.

(** src/inc/hclib_atomic.h:130-136 (gather) *)
Definition atomic_gather (a : atomic_t) (reduce : T → T → res T) : res T :=
  reduce_slots (Z.to_nat (slots_count a)) 0 a reduce (default_value a).

(** Updates by workers, each with its value; [f] is the lambda of the class. *)
Fixpoint apply_updates (a : atomic_t) (f : T → T → res T) (us : list (Z * T)) : res atomic_t :=
  match us with
  | [] => Ok a
  | (wid, other) :: us => a ← atomic_update wid a (λ curr, f curr other); apply_updates a f us
  end.
End template.
Arguments atomic_t : clear implicits.
Arguments mkAtomicT {T}.

(** ** The variables built on it

    [plus], [gt] and [truth] are the operators of the type. *)

(** src/inc/hclib_atomic.h:147-150 (atomic_sum_t) *)
Definition atomic_sum_add {T} (plus : T → T → res T) (wid : Z) (a : atomic_t T) (other : T) : res (atomic_t T) :=
  atomic_update wid a (λ curr, plus curr other).

(** src/inc/hclib_atomic.h:152-154 (atomic_sum_t) *)
Definition atomic_sum_get {T} (plus : T → T → res T) (a : atomic_t T) : res T := atomic_gather a plus.

Definition max_of {T} (gt : T → T → bool) (a b : T) : T := if gt a b then a else b.

(** src/inc/hclib_atomic.h:163-165 (atomic_max_t) *)
Definition atomic_max_update {T} (gt : T → T → bool) (wid : Z) (a : atomic_t T) (other : T) : res (atomic_t T) :=
  atomic_update wid a (λ curr, Ok (max_of gt curr other)).

(** src/inc/hclib_atomic.h:167-169 (atomic_max_t) *)
Definition atomic_max_get {T} (gt : T → T → bool) (a : atomic_t T) : res T :=
  atomic_gather a (λ a b, Ok (max_of gt a b)).

Definition or_of {T} (truth : T → bool) (of_bool : bool → T) (a b : T) : T := of_bool (truth a || truth b).

(** src/inc/hclib_atomic.h:178-181 (atomic_or_t) *)
Definition atomic_or_set {T} (truth : T → bool) (of_bool : bool → T) (wid : Z) (a : atomic_t T) (other : T)
    : res (atomic_t T) :=
  atomic_update wid a (λ curr, Ok (or_of truth of_bool curr other)).

(** src/inc/hclib_atomic.h:183-185 (atomic_or_t) *)
Definition atomic_or_get {T} (truth : T → bool) (of_bool : bool → T) (a : atomic_t T) : res T :=
  atomic_gather a (λ a b, Ok (or_of truth of_bool a b)).

(** ** Lemmas *)

Section lemmas.
Context {T : Type} (op : T → T → T).
#[local] Set Default Proof Using "Type*".

Lemma set_slots_ok n i (v : T) mem :
  0 <= i → length mem = (Z.to_nat i + n)%nat →
  set_slots n i v mem = Ok (take (Z.to_nat i) mem ++ replicate n (Some v)).
Proof.
  revert i mem. induction n as [|n IH]; intros i mem Hi Hl; cbn [set_slots replicate].
  - by rewrite app_nil_r, take_ge by lia.
  - rewrite array_set_in by lia. cbn [mbind res_bind]. rewrite IH by (rewrite ?length_insert; lia). f_equal.
    replace (Z.to_nat (i + 1)) with (S (Z.to_nat i)) by lia.
    rewrite (take_S_r _ _ (Some v)) by (apply list_lookup_insert_eq; lia).
    rewrite take_insert_ge by lia. by rewrite <- app_assoc.
Qed.

Lemma atomic_new_ok n (v : T) :
  0 <= n → atomic_new n v = Ok (mkAtomicT n (Some <$> replicate (Z.to_nat n) v) v).
Proof.
  intros Hn. unfold atomic_new. rewrite set_slots_ok by (rewrite ?length_replicate; lia).
  cbn. by rewrite fmap_replicate.
Qed.

(** The values of the workers, updated. *)
Definition share (us : list (Z * T)) (vs : list T) : list T :=
  imap (λ i v, foldl op v (snd <$> filter (λ u, u.1 = Z.of_nat i) us)) vs.

Lemma share_nil vs : share [] vs = vs.
Proof. apply list_eq. intros i. unfold share. rewrite list_lookup_imap. by destruct (vs !! i). Qed.

Lemma share_cons wid x us vs v :
  0 <= wid → vs !! Z.to_nat wid = Some v →
  share ((wid, x) :: us) vs = share us (<[Z.to_nat wid := op v x]> vs).
Proof.
  intros Hw Hv. apply list_eq. intros i. unfold share. rewrite !list_lookup_imap.
  destruct (decide (wid = Z.of_nat i)) as [->|Hne].
  - rewrite Nat2Z.id in *. rewrite list_lookup_insert_eq, Hv by (by eapply lookup_lt_Some). cbn.
    by rewrite decide_True.
  - rewrite list_lookup_insert_ne by lia. destruct (vs !! i); [|done]. cbn. by rewrite decide_False.
Qed.

Lemma read_slot_ok n vs (d : T) i v :
  0 <= i → vs !! Z.to_nat i = Some v → read_slot (mkAtomicT n (Some <$> vs) d) i = Ok v.
Proof.
  intros Hi Hv. unfold read_slot. cbn [slot_vals].
  rewrite (array_get_in _ _ (Some v)); [done|done|]. by rewrite list_lookup_fmap, Hv.
Qed.

Lemma apply_updates_ok n vs (d : T) us :
  Z.of_nat (length vs) = n → Forall (λ u, 0 <= u.1 < n) us →
  apply_updates (mkAtomicT n (Some <$> vs) d) (λ a b, Ok (op a b)) us =
  Ok (mkAtomicT n (Some <$> share us vs) d).
Proof.
  intros Hn Hus. revert vs Hn. induction Hus as [|[wid x] us Hw _ IH]; intros vs Hn; cbn [apply_updates].
  - by rewrite share_nil.
  - cbn in Hw. unfold atomic_update. destruct (lookup_lt_is_Some_2 vs (Z.to_nat wid)) as [v Hv]; [lia|].
    rewrite (read_slot_ok _ _ _ _ v) by (done || lia). cbn [mbind res_bind slot_vals slots_count default_value].
    rewrite array_set_in by (rewrite length_fmap; lia). cbn [mbind res_bind].
    rewrite <- list_fmap_insert, IH by (by rewrite length_insert). by rewrite (share_cons _ _ _ _ v) by (done || lia).
Qed.

Lemma reduce_slots_ok n k i vs (d acc : T) :
  0 <= i → length vs = (Z.to_nat i + k)%nat →
  reduce_slots k i (mkAtomicT n (Some <$> vs) d) (λ a b, Ok (op a b)) acc =
  Ok (foldl op acc (drop (Z.to_nat i) vs)).
Proof.
  revert i acc. induction k as [|k IH]; intros i acc Hi Hl; cbn [reduce_slots].
  - by rewrite drop_ge by lia.
  - destruct (lookup_lt_is_Some_2 vs (Z.to_nat i)) as [v Hv]; [lia|].
    rewrite (read_slot_ok _ _ _ _ v) by (done || lia). cbn [mbind res_bind].
    rewrite IH by lia. rewrite (drop_S vs v (Z.to_nat i)) by done. by replace (Z.to_nat (i + 1)) with (S (Z.to_nat i)) by lia.
Qed.
End lemmas.

(** ** Properties *)

Section reduction.
Context {T : Type} (op : T → T → T).
Context (Hassoc : ∀ a b c, op a (op b c) = op (op a b) c) (Hcomm : ∀ a b, op a b = op b a).
#[local] Set Default Proof Using "Type*".

Lemma foldl_out l a b : foldl op (op a b) l = op a (foldl op b l).
Proof. revert b. induction l as [|x l IH]; intros b; cbn; [done|]. by rewrite <- IH, Hassoc. Qed.

Lemma foldl_perm l l' a : l ≡ₚ l' → foldl op a l = foldl op a l'.
Proof.
  intros H. revert a. induction H as [|x l l' _ IH|x y l|l l2 l3 _ IH1 _ IH2]; intros a; cbn; [done|apply IH| |].
  - by rewrite <- !Hassoc, (Hcomm x y).
  - by rewrite IH1.
Qed.

(** The values of the workers, each with its updates, reduce to the values and the
    updates. *)
Lemma foldl_share us vs acc :
  Forall (λ u : Z * T, 0 <= u.1 < Z.of_nat (length vs)) us →
  foldl op acc (share op us vs) = foldl op (foldl op acc vs) (snd <$> us).
Proof.
  revert vs. induction us as [|[wid x] us IH]; intros vs Hus.
  - by rewrite share_nil.
  - apply Forall_cons in Hus as [Hw Hus]. cbn in Hw. cbn [fmap list_fmap foldl snd].
    destruct (lookup_lt_is_Some_2 vs (Z.to_nat wid)) as [v Hv]; [lia|].
    rewrite (share_cons _ _ _ _ _ v) by (done || lia).
    rewrite IH by (by rewrite length_insert). f_equal.
    rewrite <- (take_drop_middle vs (Z.to_nat wid) v) at 2 by done.
    rewrite insert_take_drop by lia. rewrite !foldl_app. cbn.
    rewrite (Hcomm v x), Hassoc, (Hcomm _ x), <- Hassoc, foldl_out. by rewrite Hcomm.
Qed.

(** An associative and commutative operation: a variable is created without a fault,
    each sequence of updates by the workers is defined, and the gather gives the
    updates, the initial value, and the initial value again for each worker, whichever
    worker made each update and in whatever order. *)
Theorem atomic_gather_counts_default (nworkers : Z) (d : T) (us us' : list (Z * T)) :
  0 <= nworkers → Forall (λ u, 0 <= u.1 < nworkers) us' → (snd <$> us) ≡ₚ (snd <$> us') →
  ∃ a a', atomic_new nworkers d = Ok a ∧ apply_updates a (λ x y, Ok (op x y)) us' = Ok a' ∧
    atomic_gather a' (λ x y, Ok (op x y)) =
      Ok (foldl op d (replicate (Z.to_nat nworkers) d ++ (snd <$> us))).
Proof.
  intros Hn Hus Hperm. set (vs := replicate (Z.to_nat nworkers) d).
  assert (Z.of_nat (length vs) = nworkers) as Hl by (unfold vs; rewrite length_replicate; lia).
  eexists _, _. split; [by apply atomic_new_ok|]. split; [by apply apply_updates_ok|].
  unfold atomic_gather. cbn [slots_count default_value].
  rewrite reduce_slots_ok by (unfold share; rewrite ?length_imap, ?length_replicate; lia). fold vs.
  change (Z.to_nat 0) with O. rewrite drop_0.
  rewrite foldl_share by (by rewrite Hl). by rewrite foldl_app, (foldl_perm (snd <$> us) (snd <$> us')).
Qed.
End reduction.

(** A maximum, on which the repeated start does not show: three updates by two of
    three workers. *)
Lemma atomic_gather_counts_default_witness :
  ∃ a a', atomic_new 3 (-7) = Ok a ∧
    apply_updates a (λ x y, Ok (Z.max x y)) [(0, 5); (2, 9); (0, 1)] = Ok a' ∧
    atomic_gather a' (λ x y, Ok (Z.max x y)) = Ok 9.
Proof.
  destruct (atomic_gather_counts_default Z.max Z.max_assoc Z.max_comm 3 (-7) [(0, 5); (2, 9); (0, 1)]
    [(0, 5); (2, 9); (0, 1)]) as (a & a' & H1 & H2 & H3); [done| |done|].
  - apply Forall_forall. intros u Hu. rewrite !elem_of_cons in Hu.
    destruct Hu as [->|[->|[->|Hu]]]; [cbn; lia..|by apply elem_of_nil in Hu].
  - exists a, a'. split; [done|]. split; [done|]. by rewrite H3.
Defined.

(** A sum that starts at 10 on four workers is 50 before anything is added, and 53
    after worker 2 adds 3. *)
Example sum_counts_start :
  (a ← atomic_new 4 10; atomic_sum_get int_add a) = Ok 50 ∧
  (a ← atomic_new 4 10; a ← atomic_sum_add int_add 2 a 3; atomic_sum_get int_add a) = Ok 53.
Proof. by vm_compute. Qed.

(** The copy has slots of its own. *)
Example copy_is_apart :
  (a ← atomic_new 2 0; let b := atomic_copy a in
   a ← atomic_sum_add int_add 1 a 3; b ← atomic_sum_add int_add 0 b 4;
   x ← atomic_sum_get int_add a; y ← atomic_sum_get int_add b; Ok (x, y)) = Ok (3, 4).
Proof. by vm_compute. Qed.
