(* ===== verification/Module.v ===== *)
(** * Modules

    [src/src/hclib_module.c]: the lists of functions that modules register for
    the life cycle of the runtime, and the state that they keep in every worker.
    The theorems say which functions run and in which order, and that the state
    blocks of different modules never disturb each other. *)

From S2P Require Import Prelude.
From stdpp Require Import options.

(** ** Life cycle functions *)

(** The elements of a [simple_list]; the three lists of the file are [NULL]
    until a module registers. *)
Notation simple_list := (list Z).

(** src/src/hclib_module.c:41-43 (pre_init_functions) *)
Record registry := mkRegistry {
  pre_init_functions : option simple_list;
  post_init_functions : option simple_list;
  finalize_functions : option simple_list
}.

Definition no_modules : registry := mkRegistry None None None.

(** src/src/hclib_module.c:14-20 (simple_list_create) *)
Definition simple_list_create : simple_list := [].

(** src/src/hclib_module.c:22-29 (simple_list_contains) *)
Fixpoint simple_list_contains (ele : Z) (l : simple_list) : bool :=
  match l with
  | [] => false
  | x :: l => if x =? ele then true else simple_list_contains ele l
  end.

(** src/src/hclib_module.c:31-39 (simple_list_append) *)
Definition simple_list_append (ele : Z) (l : simple_list) : simple_list :=
  if simple_list_contains ele l then l else l ++ [ele].

(** src/src/hclib_module.c:49-76 (hclib_add_module_init_function) *)
Definition hclib_add_module_init_function (r : registry) (pre post finalize : Z)
    : res registry :=
  let r := match pre_init_functions r with
           | None => mkRegistry (Some simple_list_create) (Some simple_list_create)
                       (Some simple_list_create)
           | Some _ => r
           end in
  pres ← deref (pre_init_functions r);
  posts ← deref (post_init_functions r);
  finals ← deref (finalize_functions r);
  if simple_list_contains pre pres then
    _ ← hassert (simple_list_contains post posts);
    _ ← hassert (simple_list_contains finalize finals);
    Ok r
  else
    _ ← hassert (negb (simple_list_contains post posts));
    _ ← hassert (negb (simple_list_contains finalize finals));
    Ok (mkRegistry (Some (simple_list_append pre pres)) (Some (simple_list_append post posts))
          (Some (simple_list_append finalize finals))).

(** The functions that are called, in order. *)
Definition call_all (l : option simple_list) : list Z :=
  match l with None => [] | Some l => l end.

(** src/src/hclib_module.c:78-93 (hclib_call_module_pre_init_functions) *)
Definition hclib_call_module_pre_init_functions (r : registry) : list Z :=
  call_all (pre_init_functions r).

(** src/src/hclib_module.c:95-110 (hclib_call_module_post_init_functions) *)
Definition hclib_call_module_post_init_functions (r : registry) : list Z :=
  call_all (post_init_functions r).

(** src/src/hclib_module.c:112-127 (hclib_call_finalize_functions) *)
Definition hclib_call_finalize_functions (r : registry) : list Z :=
  call_all (finalize_functions r).

(** ** Per-worker module state *)

(** The module state of each worker and the bytes in use in it.

    src/src/hclib_module.c:7-7 (worker_state_size) *)
Record module_states := mkStates { worker_state_size : Z; module_state : list bytes }.

(** The common prefix is kept, and what is new has no value. *)
Definition realloc (mem : bytes) (n : Z) : bytes :=
  take (Z.to_nat n) mem ++ replicate (Z.to_nat n - length mem) None.

(** src/src/hclib_module.c:135-142 (hclib_add_per_worker_module_state) *)
Fixpoint add_state_loop (size offset state_size : Z) (cb : Z → bytes → bytes) (i : Z)
    (states : list bytes) : res (list bytes) :=
  match states with
  | [] => Ok []
  | mem :: states =>
      let mem := realloc mem (to_size (size + state_size)) in
      mem ← on_block mem offset state_size (cb i);
      states ← add_state_loop size offset state_size cb (i + 1) states;
      Ok (mem :: states)
  end.

(** The callback has its [user_data] applied; it gets the worker and the bytes
    of its block.

    src/src/hclib_module.c:129-147 (hclib_add_per_worker_module_state) *)
Definition hclib_add_per_worker_module_state (s : module_states) (state_size : Z)
    (cb : Z → bytes → bytes) : res (Z * module_states) :=
  let offset := worker_state_size s in
  states ← add_state_loop (worker_state_size s) offset state_size cb 0 (module_state s);
  Ok (offset, mkStates (to_uint (worker_state_size s + state_size)) states).

(** What the returned pointer points to: the bytes from [state_id] on.

    src/src/hclib_module.c:149-152 (hclib_get_curr_worker_module_state) *)
Definition hclib_get_curr_worker_module_state (s : module_states) (wid state_id : Z)
    : res bytes :=
  mem ← array_get (module_state s) wid;
  Ok (drop (Z.to_nat state_id) mem).

(** The pointers the callback gets, worker by worker.

    src/src/hclib_module.c:155-164 (hclib_release_per_worker_module_state) *)
Definition hclib_release_per_worker_module_state (s : module_states) (state_id : Z)
    : list bytes :=
  drop (Z.to_nat state_id) <$> module_state s.

(** ** Lemmas: registration *)

(** A module as it registers: its three functions. *)
Record module := mkModule { m_pre : Z; m_post : Z; m_finalize : Z }.

#[export] Instance module_eq_dec : EqDecision module.
Proof. solve_decision. Defined.

Definition register_module (r : registry) (m : module) : res registry :=
  hclib_add_module_init_function r (m_pre m) (m_post m) (m_finalize m).

Fixpoint register_all (r : registry) (ms : list module) : res registry :=
  match ms with
  | [] => Ok r
  | m :: ms => r ← register_module r m; register_all r ms
  end.

(** The modules without repetition, in the order of their first registration. *)
Fixpoint first_registered (acc ms : list module) : list module :=
  match ms with
  | [] => acc
  | m :: ms => first_registered (if decide (m ∈ acc) then acc else acc ++ [m]) ms
  end.

(** Two registrations share a function only when they are the same module. *)
Definition consistent (ms : list module) : Prop :=
  ∀ m m', m ∈ ms → m' ∈ ms →
    m_pre m = m_pre m' ∨ m_post m = m_post m' ∨ m_finalize m = m_finalize m' → m = m'.

Definition holds (r : registry) (acc : list module) : Prop :=
  (acc = [] ∧ r = no_modules) ∨
  r = mkRegistry (Some (m_pre <$> acc)) (Some (m_post <$> acc)) (Some (m_finalize <$> acc)).

Lemma simple_list_contains_spec ele l : simple_list_contains ele l = bool_decide (ele ∈ l).
Proof.
  induction l as [|x l IH]; cbn; [done|]. destruct (Z.eqb_spec x ele) as [->|Hne].
  - symmetry. apply bool_decide_eq_true_2. by left.
  - rewrite IH. apply bool_decide_ext. rewrite elem_of_cons. naive_solver.
Qed.

Lemma in_column (f : module → Z) acc m :
  (∀ m', m' ∈ acc → f m = f m' → m = m') →
  simple_list_contains (f m) (f <$> acc) = bool_decide (m ∈ acc).
Proof.
  intros Hf. rewrite simple_list_contains_spec. apply bool_decide_ext.
  rewrite list_elem_of_fmap. split.
  - intros (m' & E & Hin). by rewrite (Hf m' Hin E).
  - intros Hin. by exists m.
Qed.

Lemma register_module_ok r acc m :
  holds r acc → consistent (m :: acc) →
  ∃ r', register_module r m = Ok r' ∧
    holds r' (if decide (m ∈ acc) then acc else acc ++ [m]).
Proof.
  intros Hr Hc. unfold register_module, hclib_add_module_init_function.
  set (r1 := match pre_init_functions r with None => _ | Some _ => r end).
  assert (r1 = mkRegistry (Some (m_pre <$> acc)) (Some (m_post <$> acc))
    (Some (m_finalize <$> acc))) as -> by (by destruct Hr as [[-> ->]| ->]).
  unfold deref. cbn [mbind res_bind pre_init_functions post_init_functions finalize_functions].
  assert (∀ m', m' ∈ acc → m_pre m = m_pre m' ∨ m_post m = m_post m' ∨
    m_finalize m = m_finalize m' → m = m') as Hin.
  { intros m' Hm'. apply Hc; [by left|by right]. }
  rewrite !in_column by (intros; apply Hin; auto).
  unfold simple_list_append. rewrite !in_column by (intros; apply Hin; auto).
  destruct (decide (m ∈ acc)) as [Hm|Hm].
  - rewrite bool_decide_eq_true_2 by done. cbn. eexists. split; [done|]. by right.
  - rewrite bool_decide_eq_false_2 by done. cbn. eexists. split; [done|]. right.
    by rewrite !fmap_app.
Qed.

Lemma register_all_ok r acc ms :
  holds r acc → consistent (acc ++ ms) →
  ∃ r', register_all r ms = Ok r' ∧ holds r' (first_registered acc ms).
Proof.
  revert r acc. induction ms as [|m ms IH]; intros r acc Hr Hc; cbn [register_all first_registered].
  - by exists r.
  - destruct (register_module_ok r acc m Hr) as (r' & -> & Hr').
    { intros m1 m2 H1 H2. apply Hc; set_solver. }
    cbn [mbind res_bind]. apply IH; [done|].
    intros m1 m2 H1 H2. apply Hc; destruct (decide (m ∈ acc)); set_solver.
Qed.

Lemma first_registered_spec acc ms m :
  m ∈ first_registered acc ms ↔ m ∈ acc ∨ m ∈ ms.
Proof.
  revert acc. induction ms as [|m' ms IH]; intros acc; cbn [first_registered]; [set_solver|].
  rewrite IH. destruct (decide (m' ∈ acc)); set_solver.
Qed.

Lemma first_registered_nodup acc ms : NoDup acc → NoDup (first_registered acc ms).
Proof.
  revert acc. induction ms as [|m' ms IH]; intros acc Hacc; cbn [first_registered]; [done|].
  apply IH. destruct (decide (m' ∈ acc)); [done|]. apply NoDup_app. split; [done|].
  split; [set_solver|]. apply NoDup_singleton.
Qed.

(** ** Lemmas: module state *)

Lemma length_realloc mem n : length (realloc mem n) = Z.to_nat n.
Proof. unfold realloc. rewrite length_app, length_take, length_replicate. lia. Qed.

Lemma block_realloc mem n off k :
  0 <= off → off + k <= Z.of_nat (length mem) → Z.of_nat (length mem) <= n →
  block (realloc mem n) off k = block mem off k.
Proof.
  intros H1 H2 H3. rewrite !block_ok by (rewrite ?length_realloc; lia). f_equal.
  destruct (Z.le_gt_cases k 0); [by rewrite Z2Nat_nonpos by lia|].
  unfold realloc. rewrite (take_ge mem) by lia. rewrite drop_app_le by lia.
  by rewrite take_app_le by (rewrite length_drop; lia).
Qed.

Lemma block_realloc_new mem k :
  0 <= k → block (realloc mem (Z.of_nat (length mem) + k)) (Z.of_nat (length mem)) k =
  Ok (replicate (Z.to_nat k) None).
Proof.
  intros Hk. rewrite block_ok by (rewrite ?length_realloc; lia). f_equal.
  unfold realloc. rewrite (take_ge mem), drop_app_length' by lia.
  rewrite take_ge by (rewrite length_replicate; lia). f_equal. lia.
Qed.

(** Every worker has the bytes in use. *)
Definition states_ok (s : module_states) : Prop :=
  0 <= worker_state_size s ∧
  Forall (λ mem, Z.of_nat (length mem) = worker_state_size s) (module_state s).

(** One worker's memory before and after a module adds its block. *)
Definition block_added (size n : Z) (cb : Z → bytes → bytes) (i : Z) (mem mem' : bytes) : Prop :=
  Z.of_nat (length mem') = size + n ∧
  block mem' size n = Ok (cb i (replicate (Z.to_nat n) None)) ∧
  ∀ off k, 0 <= off → 0 <= k → off + k <= size → block mem' off k = block mem off k.

Lemma add_state_loop_ok size n cb i states :
  0 <= n → 0 <= size → size + n < SIZE_MOD →
  (∀ j b, Z.of_nat (length b) = n → Z.of_nat (length (cb j b)) = n) →
  Forall (λ mem, Z.of_nat (length mem) = size) states →
  ∃ states', add_state_loop size size n cb i states = Ok states' ∧
    length states' = length states ∧
    ∀ j mem mem', states !! j = Some mem → states' !! j = Some mem' →
      block_added size n cb (i + Z.of_nat j) mem mem'.
Proof.
  intros Hn Hsize Hmax Hcb. revert i.
  induction states as [|mem states IH]; intros i Hall; cbn [add_state_loop].
  - exists []. done.
  - apply Forall_cons in Hall as [Hmem Hall].
    unfold to_size. rewrite Z.mod_small by lia.
    pose proof (block_realloc_new mem n Hn) as Hblk. rewrite Hmem in Hblk.
    rewrite (on_block_ok _ _ _ _ _ Hblk). cbn [mbind res_bind].
    destruct (IH (i + 1) Hall) as (states' & -> & Hlen & Hst). cbn [mbind res_bind].
    eexists. split; [done|]. split; [cbn; by rewrite Hlen|].
    set (b := cb i _). assert (Z.of_nat (length b) = n) as Hb
      by (apply Hcb; rewrite length_replicate; lia).
    assert (size + Z.of_nat (length b) <= Z.of_nat (length (realloc mem (size + n))))
      by (rewrite length_realloc; lia).
    intros [|j] m m' Hm Hm'.
    + injection Hm as ->. injection Hm' as <-. rewrite Z.add_0_r. split; [|split].
      * rewrite length_set_block by lia. rewrite length_realloc. lia.
      * pose proof (block_set_same (realloc m (size + n)) size b) as E.
        rewrite Hb in E. apply E; lia.
      * intros off k Ho Hk Hok. rewrite block_set_other by lia. apply block_realloc; lia.
    + replace (i + Z.of_nat (S j)) with (i + 1 + Z.of_nat j) by lia. by apply Hst.
Qed.

(** ** Properties *)

(** When modules that share a function are the same module, every sequence
    of registrations succeeds and each life cycle phase calls the functions of
    every registered module exactly once, in the order of first registration,
    however often a module registers; a module with a new first function that
    reuses another's second one fails the assertion. *)
Theorem modules_called_once (ms : list module) :
  consistent ms →
  ∃ r, register_all no_modules ms = Ok r ∧
    let mods := first_registered [] ms in
    NoDup mods ∧ (∀ m, m ∈ mods ↔ m ∈ ms) ∧
    hclib_call_module_pre_init_functions r = m_pre <$> mods ∧
    hclib_call_module_post_init_functions r = m_post <$> mods ∧
    hclib_call_finalize_functions r = m_finalize <$> mods ∧
    ∀ m m', m' ∈ ms → m_pre m ∉ m_pre <$> mods → m_post m = m_post m' →
      register_module r m = Err AssertFail.
Proof.
  intros Hc. destruct (register_all_ok no_modules [] ms) as (r & Hr & Hh); [by left|done|].
  exists r. split; [done|]. cbn zeta. split; [by apply first_registered_nodup, NoDup_nil_2|].
  assert (∀ m, m ∈ first_registered [] ms ↔ m ∈ ms) as Hin
    by (intros m; rewrite first_registered_spec; set_solver).
  split; [done|]. set (mods := first_registered [] ms) in *.
  split; [by destruct Hh as [[-> ->]| ->]|]. split; [by destruct Hh as [[-> ->]| ->]|].
  split; [by destruct Hh as [[-> ->]| ->]|].
  intros m m' Hm' Hpre Hpost. apply Hin in Hm'.
  destruct Hh as [[E _]| ->]; [rewrite E in Hm'; by apply elem_of_nil in Hm'|].
  unfold register_module, hclib_add_module_init_function, deref. cbn [pre_init_functions
    post_init_functions finalize_functions mbind res_bind].
  rewrite !simple_list_contains_spec, (bool_decide_eq_false_2 (m_pre m ∈ _)) by done.
  rewrite (bool_decide_eq_true_2 (m_post m ∈ _)); [done|].
  rewrite Hpost. by apply list_elem_of_fmap_2.
Qed.

Example modules_called_once_witness :
  ∃ r, register_all no_modules [mkModule 1 2 3; mkModule 4 5 6; mkModule 1 2 3] = Ok r ∧
    hclib_call_module_post_init_functions r = [2; 5].
Proof.
  destruct (modules_called_once [mkModule 1 2 3; mkModule 4 5 6; mkModule 1 2 3])
    as (r & Hr & _ & _ & _ & Hpost & _).
  - intros m m' Hm Hm' H. rewrite !elem_of_cons in Hm, Hm'.
    destruct Hm as [->|[->|[->|Hm]]]; destruct Hm' as [->|[->|[->|Hm']]];
      try by apply elem_of_nil in Hm. all: try by apply elem_of_nil in Hm'.
    all: cbn in H; first [done | exfalso; lia].
  - exists r. split; [exact Hr|]. rewrite Hpost. by vm_compute.
Defined.

(** While the total size fits an [unsigned], adding a module's state
    succeeds, its block starts where the bytes in use ended, in every worker it
    holds what the module's callback made of indeterminate bytes, and every
    block added before is unchanged; so no module ever sees another's state. *)
Theorem module_state_disjoint (s : module_states) (n : Z) (cb : Z → bytes → bytes) :
  states_ok s → 0 <= n → worker_state_size s + n < UINT_MOD →
  (∀ i b, Z.of_nat (length b) = n → Z.of_nat (length (cb i b)) = n) →
  ∃ s', hclib_add_per_worker_module_state s n cb = Ok (worker_state_size s, s') ∧
    states_ok s' ∧ worker_state_size s' = worker_state_size s + n ∧
    length (module_state s') = length (module_state s) ∧
    ∀ i mem mem', module_state s !! i = Some mem → module_state s' !! i = Some mem' →
      block_added (worker_state_size s) n cb (Z.of_nat i) mem mem'.
Proof.
  intros (Hsize & Hall) Hn Hmax Hcb. unfold hclib_add_per_worker_module_state.
  destruct (add_state_loop_ok (worker_state_size s) n cb 0 (module_state s))
    as (states & -> & Hlen & Hst); [done|done|unfold UINT_MOD, SIZE_MOD in *; lia|done|done|].
  cbn [mbind res_bind]. unfold to_uint. rewrite Z.mod_small by lia.
  eexists. split; [done|]. split; [|split; [done|split; [done|exact Hst]]].
  split; [cbn; lia|].
  cbn. apply Forall_lookup. intros i mem' Hi.
  destruct (lookup_lt_is_Some_2 (module_state s) i) as [mem Hm];
    [rewrite <- Hlen; by eapply lookup_lt_Some|].
  by destruct (Hst i mem mem' Hm Hi) as (E & _).
Qed.

Example module_state_disjoint_witness :
  ∃ s', hclib_add_per_worker_module_state
      (mkStates 1 [[Some 7]; [Some 8]]) 2 (λ i _, [Some i; Some 0]) = Ok (1, s') ∧
    hclib_get_curr_worker_module_state s' 1 1 = Ok [Some 1; Some 0].
Proof.
  destruct (module_state_disjoint (mkStates 1 [[Some 7]; [Some 8]]) 2 (λ i _, [Some i; Some 0]))
    as (s' & E & _).
  - split; [cbn; lia|by repeat constructor].
  - lia.
  - cbn. unfold UINT_MOD. lia.
  - intros i b _. done.
  - exists s'. split; [exact E|]. vm_compute in E. injection E as <-. by vm_compute.
Defined.
