(* ===== verification/Affinity.v ===== *)
(** * Affinity of the workers

    [create_hwloc_cpusets] of [src/src/hclib-runtime.c], in a build with hwloc: the
    processing units that the process may use are dealt to the workers, and each
    worker gets a range of workers that share its memory, from which it steals
    first.  hwloc is not part of the program: a bitmap of its is a set of numbers,
    and the memory nodes of a set of processing units are a parameter. *)

From S2P Require Import Prelude.
From stdpp Require Import options.

(** ** The code *)

(** src/inc/hclib-rt.h:63-77 (hclib_affinity_t) *)
Inductive hclib_affinity_t := HCLIB_AFFINITY_STRIDED | HCLIB_AFFINITY_CHUNKED.

(** The value of the environment variable, if there is one.

    src/src/hclib-runtime.c:750-762 (create_hwloc_cpusets) *)
Definition select_affinity (user_selected_affinity : option (list Z)) : res hclib_affinity_t :=
  match user_selected_affinity with
  | None => Ok HCLIB_AFFINITY_STRIDED
  | Some str =>
      if bool_decide (str = chars "strided") then Ok HCLIB_AFFINITY_STRIDED
      else if bool_decide (str = chars "chunked") then Ok HCLIB_AFFINITY_CHUNKED
      else Err (ExitCode 1)
  end.

Notation bitmap := (gset Z).

(** [hwloc_bitmap_last]: the last member, or -1 *)
Definition bitmap_last (s : bitmap) : Z := foldr Z.max (-1) (elements s).

Definition bitmap_weight (s : bitmap) : Z := Z.of_nat (size s).

(** The loops that deal out the processing units: the [count]-th goes to the worker
    that [owner] gives.

    src/src/hclib-runtime.c:783-792 (create_hwloc_cpusets) *)
Fixpoint deal (owner : Z → res Z) (cpuset : bitmap) (index count : Z) (rounds : nat)
    (thread_cpusets : list bitmap) : res (list bitmap) :=
  match rounds with
  | O => Ok thread_cpusets
  | S rounds =>
      if bool_decide (index ∈ cpuset) then
        w ← owner count;
        s ← array_get thread_cpusets w;
        thread_cpusets ← array_set thread_cpusets w (s ∪ {[index]});
        deal owner cpuset (index + 1) (count + 1) rounds thread_cpusets
      else deal owner cpuset (index + 1) count rounds thread_cpusets
  end.

(** src/src/hclib-runtime.c:764-811 (create_hwloc_cpusets) *)
Definition pin_workers (selected_affinity : hclib_affinity_t) (cpuset : bitmap) (num_workers : Z)
    : res (list bitmap) :=
  let available_pus := bitmap_weight cpuset in
  let rounds := Z.to_nat (bitmap_last cpuset + 1) in
  let thread_cpusets := replicate (Z.to_nat num_workers) ∅ in
  match selected_affinity with
  | HCLIB_AFFINITY_STRIDED =>
      if available_pus <? num_workers then Err (ExitCode 1)
      else deal (λ count, int_rem count num_workers) cpuset 0 0 rounds thread_cpusets
  | HCLIB_AFFINITY_CHUNKED =>
      a ← int_add available_pus num_workers;
      a ← int_sub a 1;
      chunk_size ← int_div a num_workers;
      deal (λ count, int_div count chunk_size) cpuset 0 0 rounds thread_cpusets
  end.

Section nodes.
(** [hwloc_cpuset_to_nodeset] *)
Context (nodes : bitmap → bitmap).

(** The loop that looks for a contiguous range of workers that share a node with
    [nodeset]; the flag says that there is more than one.

    src/src/hclib-runtime.c:828-861 (create_hwloc_cpusets) *)
Fixpoint find_range (nodeset : bitmap) (others : list bitmap) (j base limit : Z) : Z * Z * bool :=
  match others with
  | [] => (base, limit, false)
  | other :: others =>
      let shares := bool_decide (nodes other ∩ nodeset ≠ ∅) in
      if base <? 0 then find_range nodeset others (j + 1) (if shares then j else base) limit
      else if limit <? 0 then find_range nodeset others (j + 1) base (if negb shares then j else limit)
      else if shares then (base, limit, true)
      else find_range nodeset others (j + 1) base limit
  end.

(** The flag is kept from one worker to the next.

    src/src/hclib-runtime.c:823-890 (create_hwloc_cpusets) *)
Fixpoint intra_socket (num_workers : Z) (thread_cpusets todo : list bitmap) (revert_to_naive_stealing : bool)
    : res (list (Z * Z)) :=
  match todo with
  | [] => Ok []
  | set :: todo =>
      let '(base, limit, several) := find_range (nodes set) thread_cpusets 0 (-1) (-1) in
      let revert := revert_to_naive_stealing || several in
      range ← (if revert then Ok (0, num_workers)
               else _ ← hassert (base >=? 0); Ok (base, if limit <? 0 then num_workers else limit));
      rest ← intra_socket num_workers thread_cpusets todo revert;
      Ok (range :: rest)
  end.

(** The processing units of each worker, and its [base_intra_socket_workers] and
    [limit_intra_socket_workers].

    src/src/hclib-runtime.c:731-893 (create_hwloc_cpusets) *)
Definition create_hwloc_cpusets (user_selected_affinity : option (list Z)) (cpuset : bitmap) (num_workers : Z)
    : res (list bitmap * list (Z * Z)) :=
  selected_affinity ← select_affinity user_selected_affinity;
  thread_cpusets ← pin_workers selected_affinity cpuset num_workers;
  ranges ← intra_socket num_workers thread_cpusets thread_cpusets false;
  Ok (thread_cpusets, ranges).
End nodes.

(** ** Lemmas: dealing out processing units *)

Definition pus (cpuset : bitmap) (index : Z) (rounds : nat) : list Z :=
  filter (λ p, p ∈ cpuset) (seqZ index (Z.of_nat rounds)).

Lemma pus_S cpuset index rounds :
  pus cpuset index (S rounds) =
    (if bool_decide (index ∈ cpuset) then [index] else []) ++ pus cpuset (index + 1) rounds.
Proof.
  unfold pus. rewrite Nat2Z.inj_succ, seqZ_cons by lia. replace (Z.pred (Z.succ _)) with (Z.of_nat rounds) by lia.
  rewrite filter_cons. by case_decide; [rewrite bool_decide_true|rewrite bool_decide_false].
Qed.

Lemma deal_ok owner cpuset index count rounds sets :
  (∀ k, count <= k < count + Z.of_nat (length (pus cpuset index rounds)) →
     ∃ w, owner k = Ok w ∧ 0 <= w < Z.of_nat (length sets)) →
  ∃ sets', deal owner cpuset index count rounds sets = Ok sets' ∧ length sets' = length sets ∧
    ∀ i s', sets' !! i = Some s' → ∃ s, sets !! i = Some s ∧
      ∀ p, p ∈ s' ↔ p ∈ s ∨ ∃ k, pus cpuset index rounds !! k = Some p ∧
        owner (count + Z.of_nat k) = Ok (Z.of_nat i).
Proof.
  revert index count sets. induction rounds as [|rounds IH]; intros index count sets Hw; cbn [deal].
  - exists sets. split; [done|]. split; [done|]. intros i s' Hs. exists s'. split; [done|]. intros p.
    split; [by left|]. intros [?|(k & Hk & _)]; [done|]. unfold pus in Hk. cbn in Hk. by destruct k.
  - rewrite pus_S in Hw. case_bool_decide as Hin.
    + destruct (Hw count) as (w & Ew & Hwr); [rewrite length_app; cbn; lia|]. rewrite Ew. cbn [mbind res_bind].
      destruct (array_get_lt sets w Hwr) as (s & -> & Hs). cbn [mbind res_bind].
      rewrite array_set_in by lia. cbn [mbind res_bind].
      destruct (IH (index + 1) (count + 1) (<[Z.to_nat w := s ∪ {[index]}]> sets)) as (sets' & -> & Hl & Hsets).
      { intros k Hk. rewrite length_insert. apply Hw. rewrite length_app. cbn. lia. }
      exists sets'. split; [done|]. rewrite Hl, length_insert. split; [done|]. intros i s' Hs'.
      destruct (Hsets i s' Hs') as (t & Ht & Hp). rewrite pus_S, bool_decide_true by done.
      assert (∀ p, (∃ k, ([index] ++ pus cpuset (index + 1) rounds) !! k = Some p ∧
        owner (count + Z.of_nat k) = Ok (Z.of_nat i)) ↔
        (p = index ∧ Z.of_nat i = w) ∨ ∃ k, pus cpuset (index + 1) rounds !! k = Some p ∧
          owner (count + 1 + Z.of_nat k) = Ok (Z.of_nat i)) as Hk.
      { intros p. split.
        - intros ([|k] & Hk & Ho); cbn in Hk.
          + left. rewrite Z.add_0_r, Ew in Ho. split; congruence.
          + right. exists k. split; [done|]. by replace (count + 1 + Z.of_nat k) with (count + Z.of_nat (S k)) by lia.
        - intros [[-> Hi]|(k & Hk & Ho)].
          + exists 0%nat. rewrite Z.add_0_r, Ew, Hi. done.
          + exists (S k). split; [done|]. by replace (count + Z.of_nat (S k)) with (count + 1 + Z.of_nat k) by lia. }
      destruct (decide (i = Z.to_nat w)) as [->|Hne].
      * rewrite list_lookup_insert_eq in Ht by (apply lookup_lt_Some in Hs; lia). injection Ht as <-.
        exists s. split; [done|]. intros p. rewrite Hp, Hk, elem_of_union, elem_of_singleton. split; [|naive_solver lia].
        intros [[?|?]|?]; [by left|right; left; split; [done|lia]|by right; right].
      * rewrite list_lookup_insert_ne in Ht by done. exists t. split; [done|]. intros p. rewrite Hp, Hk.
        split; [naive_solver|]. intros [?|[[_ ?]|?]]; [by left|lia|by right].
    + destruct (IH (index + 1) count sets) as (sets' & -> & Hl & Hsets).
      { intros k Hk. apply Hw. done. }
      exists sets'. split; [done|]. split; [done|]. intros i s' Hs'. destruct (Hsets i s' Hs') as (s & Hs & Hp).
      exists s. split; [done|]. by rewrite pus_S, bool_decide_false.
Qed.

(** All processing units, in order. *)
Definition all_pus (cpuset : bitmap) : list Z := pus cpuset 0 (Z.to_nat (bitmap_last cpuset + 1)).

Lemma foldr_max_ge (l : list Z) p : p ∈ l → p <= foldr Z.max (-1) l.
Proof.
  induction l as [|x l IH]; [by intros ?%elem_of_nil|]. cbn. intros [->|H]%elem_of_cons; [lia|].
  specialize (IH H). lia.
Qed.

Lemma elem_of_all_pus cpuset p : (∀ p, p ∈ cpuset → 0 <= p) → p ∈ all_pus cpuset ↔ p ∈ cpuset.
Proof.
  intros Hpos. unfold all_pus, pus. rewrite list_elem_of_filter, elem_of_seqZ. split; [by intros []|].
  intros Hp. split; [done|]. pose proof (Hpos p Hp).
  assert (p <= bitmap_last cpuset) by (apply foldr_max_ge; by apply elem_of_elements). lia.
Qed.

Lemma all_pus_nodup cpuset : NoDup (all_pus cpuset).
Proof. apply NoDup_filter, NoDup_seqZ. Qed.

Lemma length_all_pus cpuset : (∀ p, p ∈ cpuset → 0 <= p) → Z.of_nat (length (all_pus cpuset)) = bitmap_weight cpuset.
Proof.
  intros Hpos. unfold bitmap_weight, size, set_size. cbn. f_equal. apply Permutation_length.
  apply NoDup_Permutation; [apply all_pus_nodup|apply NoDup_elements|].
  intros p. rewrite elem_of_all_pus, elem_of_elements; done.
Qed.

(** Every processing unit goes to one worker. *)
Definition dealt (cpuset : bitmap) (n : Z) (o : Z → Z) (sets : list bitmap) : Prop :=
  Z.of_nat (length sets) = n ∧
  ∀ i s p, sets !! i = Some s → p ∈ s ↔ ∃ k, all_pus cpuset !! k = Some p ∧ o (Z.of_nat k) = Z.of_nat i.

Lemma deal_all cpuset n owner o :
  (∀ p, p ∈ cpuset → 0 <= p) → 0 <= n →
  (∀ k, 0 <= k < bitmap_weight cpuset → owner k = Ok (o k) ∧ 0 <= o k < n) →
  ∃ sets, deal owner cpuset 0 0 (Z.to_nat (bitmap_last cpuset + 1)) (replicate (Z.to_nat n) ∅) = Ok sets ∧
    dealt cpuset n o sets.
Proof.
  intros Hpos Hn Ho. rewrite <-length_all_pus in Ho by done.
  destruct (deal_ok owner cpuset 0 0 (Z.to_nat (bitmap_last cpuset + 1)) (replicate (Z.to_nat n) ∅))
    as (sets & E & Hl & Hs).
  { intros k Hk. destruct (Ho k) as [-> Hr]; [exact Hk|]. exists (o k). rewrite length_replicate. split; [done|lia]. }
  exists sets. split; [exact E|]. split; [rewrite Hl, length_replicate; lia|].
  intros i s p Hi. destruct (Hs i s Hi) as (s0 & [-> _]%lookup_replicate & Hp). rewrite Hp.
  split; [intros [?%elem_of_empty|(k & Hk & Hok)]; [done|]|intros (k & Hk & Hok); right]; exists k; (split; [done|]).
  - pose proof (lookup_lt_Some _ _ _ Hk). destruct (Ho (Z.of_nat k)) as [Ek _]; [unfold all_pus in *; lia|].
    rewrite Z.add_0_l, Ek in Hok. congruence.
  - pose proof (lookup_lt_Some _ _ _ Hk). destruct (Ho (Z.of_nat k)) as [Ek _]; [unfold all_pus in *; lia|].
    rewrite Z.add_0_l, Ek. congruence.
Qed.

Lemma dealt_partition cpuset n o sets :
  (∀ p, p ∈ cpuset → 0 <= p) → (∀ k, 0 <= k < bitmap_weight cpuset → 0 <= o k < n) → dealt cpuset n o sets →
  ∀ p, p ∈ cpuset ↔ ∃ i, (∃ s, sets !! i = Some s ∧ p ∈ s) ∧ ∀ j s, sets !! j = Some s → p ∈ s → j = i.
Proof.
  intros Hpos Ho [Hl Hs] p. split.
  - intros Hp%(elem_of_all_pus _ _ Hpos). apply list_elem_of_lookup_1 in Hp as [k Hk].
    pose proof (lookup_lt_Some _ _ _ Hk). rewrite <-length_all_pus in Ho by done.
    destruct (Ho (Z.of_nat k)) as [Hr1 Hr2]; [lia|]. exists (Z.to_nat (o (Z.of_nat k))). split.
    + destruct (lookup_lt_is_Some_2 sets (Z.to_nat (o (Z.of_nat k)))) as [s Hi]; [lia|]. exists s. split; [done|].
      apply (Hs _ _ _ Hi). exists k. split; [done|lia].
    + intros j s Hj Hp. apply (Hs _ _ _ Hj) in Hp as (k' & Hk' & E).
      assert (k' = k) as -> by (eapply NoDup_lookup; [apply all_pus_nodup|done|done]). lia.
  - intros (i & (s & Hi & Hp) & _). apply (Hs _ _ _ Hi) in Hp as (k & Hk & _).
    apply (elem_of_all_pus _ _ Hpos). by eapply list_elem_of_lookup_2.
Qed.

Lemma strided_ok cpuset n :
  (∀ p, p ∈ cpuset → 0 <= p) → 1 <= n <= bitmap_weight cpuset → bitmap_weight cpuset <= INT_MAX →
  ∃ sets, pin_workers HCLIB_AFFINITY_STRIDED cpuset n = Ok sets ∧ dealt cpuset n (λ k, k mod n) sets ∧
    ∀ s, s ∈ sets → s ≠ ∅.
Proof.
  intros Hpos Hn Hmax. unfold pin_workers. rewrite (proj2 (Z.ltb_ge _ _)) by lia.
  destruct (deal_all cpuset n (λ count, int_rem count n) (λ k, k mod n)) as (sets & E & Hd); [done|lia| |].
  { intros k Hk. split; [apply int_rem_pos; lia|apply Z.mod_pos_bound; lia]. }
  exists sets. split; [exact E|]. split; [done|]. intros s (i & Hi)%list_elem_of_lookup_1 ->.
  destruct Hd as [Hl Hs]. pose proof (lookup_lt_Some _ _ _ Hi). rewrite <-length_all_pus in Hn by done.
  destruct (lookup_lt_is_Some_2 (all_pus cpuset) i) as [p Hp]; [lia|].
  apply (not_elem_of_empty (C := bitmap) p), (Hs i ∅ p Hi). exists i. split; [done|]. apply Z.mod_small. lia.
Qed.

Lemma chunked_ok cpuset n :
  (∀ p, p ∈ cpuset → 0 <= p) → 1 <= n → bitmap_weight cpuset + n <= INT_MAX →
  let chunk := (bitmap_weight cpuset + n - 1) / n in
  ∃ sets, pin_workers HCLIB_AFFINITY_CHUNKED cpuset n = Ok sets ∧ dealt cpuset n (λ k, k / chunk) sets.
Proof.
  intros Hpos Hn Hmax chunk. unfold pin_workers.
  assert (0 <= bitmap_weight cpuset) as Hw by (unfold bitmap_weight; lia).
  rewrite int_add_id by (unfold INT_MIN; lia). cbn [mbind res_bind].
  rewrite int_sub_id by (unfold INT_MIN, INT_MAX in *; lia). cbn [mbind res_bind].
  assert (int_div (bitmap_weight cpuset + n - 1) n = Ok chunk) as ->.
  { unfold int_div. rewrite (proj2 (Z.eqb_neq n 0)) by lia. rewrite Z.quot_div_nonneg by lia. apply to_int_id.
    fold chunk. assert (0 <= chunk <= bitmap_weight cpuset + n - 1); [|unfold INT_MIN; lia]. unfold chunk.
    split; [apply Z.div_pos; lia|]. apply Z.div_le_upper_bound; nia. }
  cbn [mbind res_bind].
  destruct (deal_all cpuset n (λ count, int_div count chunk) (λ k, k / chunk)) as (sets & E & Hd); [done|lia| |by exists sets].
  intros k Hk. assert (bitmap_weight cpuset <= chunk * n) as Hc.
  { unfold chunk. pose proof (Z.div_mod (bitmap_weight cpuset + n - 1) n ltac:(lia)).
    pose proof (Z.mod_pos_bound (bitmap_weight cpuset + n - 1) n ltac:(lia)). lia. }
  assert (0 < chunk) by nia.
  assert (0 <= k / chunk < n) by (split; [apply Z.div_pos; lia|apply Z.div_lt_upper_bound; nia]).
  split; [|done]. unfold int_div. rewrite (proj2 (Z.eqb_neq chunk 0)), Z.quot_div_nonneg by lia.
  apply to_int_id. unfold INT_MIN, INT_MAX in *. nia.
Qed.

(** ** Lemmas: ranges of workers *)

Section ranges.
Context (nodes : bitmap → bitmap).

Definition shares (nodeset other : bitmap) : Prop := nodes other ∩ nodeset ≠ ∅.

(** What the search knows when it has looked at the first [j] workers. *)
Definition range_so_far (nodeset : bitmap) (sets : list bitmap) (j base limit : Z) : Prop :=
  (base = -1 ∧ limit = -1 ∧ ∀ k t, sets !! k = Some t → Z.of_nat k < j → ¬ shares nodeset t) ∨
  (0 <= base < j ∧ limit = -1 ∧
    ∀ k t, sets !! k = Some t → Z.of_nat k < j → base <= Z.of_nat k ↔ shares nodeset t) ∨
  (0 <= base < limit ∧ limit < j ∧
    ∀ k t, sets !! k = Some t → Z.of_nat k < j → base <= Z.of_nat k < limit ↔ shares nodeset t).

Lemma find_range_ok nodeset sets pre todo base limit :
  sets = pre ++ todo → range_so_far nodeset sets (Z.of_nat (length pre)) base limit →
  let '(b, l, several) := find_range nodes nodeset todo (Z.of_nat (length pre)) base limit in
  several = true ∨ range_so_far nodeset sets (Z.of_nat (length sets)) b l.
Proof.
  revert pre base limit. induction todo as [|t todo IH]; intros pre base limit -> Hr; cbn [find_range].
  { right. by rewrite app_nil_r in Hr |- *. }
  assert (pre ++ t :: todo = (pre ++ [t]) ++ todo) as E by by rewrite <-app_assoc.
  assert (Z.of_nat (length pre) + 1 = Z.of_nat (length (pre ++ [t]))) as El by (rewrite length_app; cbn; lia).
  assert (∀ k t', (pre ++ t :: todo) !! k = Some t' → Z.of_nat k < Z.of_nat (length (pre ++ [t])) →
    Z.of_nat k < Z.of_nat (length pre) ∨ k = length pre ∧ t' = t) as Hlast.
  { intros k t' Hk Hlt. rewrite length_app in Hlt. cbn in Hlt.
    destruct (decide (k = length pre)) as [->|]; [right|left; lia]. split; [done|].
    rewrite list_lookup_middle in Hk by done. congruence. }
  rewrite El. unfold range_so_far in Hr.
  destruct (Z.ltb_spec base 0) as [Hb|Hb]; [|destruct (Z.ltb_spec limit 0) as [Hl|Hl]];
    (destruct (decide (nodes t ∩ nodeset ≠ ∅)) as [Hs|Hs]; [rewrite bool_decide_true by done|
      rewrite bool_decide_false by done]); cbn [negb]; fold (shares nodeset t) in Hs.
  - apply IH; [exact E|]. destruct Hr as [(-> & -> & Hk)|[?|?]]; [|lia..]. right; left.
    rewrite <-El. split; [lia|]. split; [done|]. intros k t' Hkt Hlt. rewrite El in Hlt.
    destruct (Hlast k t' Hkt Hlt) as [Hlt'|[-> ->]]; [|split; [done|lia]].
    split; [lia|]. intros H. by destruct (Hk k t' Hkt Hlt').
  - apply IH; [exact E|]. destruct Hr as [(-> & -> & Hk)|[?|?]]; [|lia..]. left.
    split; [done|]. split; [done|]. intros k t' Hkt Hlt.
    destruct (Hlast k t' Hkt Hlt) as [Hlt'|[-> ->]]; [by apply (Hk k)|done].
  - apply IH; [exact E|]. destruct Hr as [?|[(Hb' & -> & Hk)|?]]; [lia| |lia]. right; left.
    rewrite <-El. split; [lia|]. split; [done|]. intros k t' Hkt Hlt. rewrite El in Hlt.
    destruct (Hlast k t' Hkt Hlt) as [Hlt'|[-> ->]]; [by apply Hk|split; [done|lia]].
  - apply IH; [exact E|]. destruct Hr as [?|[(Hb' & -> & Hk)|?]]; [lia| |lia]. right; right.
    rewrite <-El. split; [lia|]. split; [lia|]. intros k t' Hkt Hlt. rewrite El in Hlt.
    destruct (Hlast k t' Hkt Hlt) as [Hlt'|[-> ->]]; [|split; [lia|done]].
    rewrite <-(Hk k t' Hkt Hlt'). lia.
  - by left.
  - apply IH; [exact E|]. destruct Hr as [?|[?|(Hb' & Hlt0 & Hk)]]; [lia..|]. right; right.
    rewrite <-El. split; [lia|]. split; [lia|]. intros k t' Hkt Hlt. rewrite El in Hlt.
    destruct (Hlast k t' Hkt Hlt) as [Hlt'|[-> ->]]; [by apply Hk|split; [lia|done]].
Qed.

(** The range of worker [i]: it is in it, and unless the search was given up the
    workers of the range are those that share a node with it. *)
Definition range_ok (n : Z) (sets : list bitmap) (i : Z) (s : bitmap) (range : Z * Z) : Prop :=
  0 <= range.1 <= i ∧ i < range.2 <= n ∧
  (range = (0, n) ∨ ∀ j t, sets !! j = Some t → range.1 <= Z.of_nat j < range.2 ↔ shares (nodes s) t).

Lemma found_range_ok n sets i s base limit several :
  n = Z.of_nat (length sets) → sets !! i = Some s → nodes s ≠ ∅ →
  find_range nodes (nodes s) sets 0 (-1) (-1) = (base, limit, several) →
  several = true ∨ 0 <= base ∧ range_ok n sets (Z.of_nat i) s (base, if limit <? 0 then n else limit).
Proof.
  intros -> Hi Hs E. pose proof (lookup_lt_Some _ _ _ Hi) as Hlt.
  pose proof (find_range_ok (nodes s) sets [] sets (-1) (-1) eq_refl) as H.
  change (Z.of_nat (length [])) with 0 in H. rewrite E in H.
  destruct H as [H|H]; [|by left|].
  { left. split; [done|]. split; [done|]. intros k t _. lia. }
  assert (shares (nodes s) s) as Hself by (unfold shares; by rewrite intersection_idemp_L).
  right. destruct H as [(-> & -> & Hk)|[(Hb & -> & Hk)|(Hb & Hl & Hk)]].
  - by destruct (Hk i s Hi ltac:(lia)).
  - split; [lia|]. cbn. assert (base <= Z.of_nat i) by (apply (Hk i s); [done|lia|done]).
    split; cbn; [lia|]. split; [lia|]. right. intros j t Hj. pose proof (lookup_lt_Some _ _ _ Hj).
    rewrite <-(Hk j t Hj) by lia. lia.
  - rewrite (proj2 (Z.ltb_ge _ _)) by lia. split; [lia|].
    assert (base <= Z.of_nat i < limit) by (apply (Hk i s); [done|lia|done]).
    split; cbn; [lia|]. split; [lia|]. right. intros j t Hj. pose proof (lookup_lt_Some _ _ _ Hj).
    apply Hk; [done|lia].
Qed.

Lemma intra_socket_ok n sets pre todo revert :
  n = Z.of_nat (length sets) → sets = pre ++ todo → Forall (λ s, nodes s ≠ ∅) todo →
  ∃ ranges, intra_socket nodes n sets todo revert = Ok ranges ∧ length ranges = length todo ∧
    ∀ k s range, todo !! k = Some s → ranges !! k = Some range →
      range_ok n sets (Z.of_nat (length pre + k)) s range.
Proof.
  intros Hn. revert pre revert. induction todo as [|s todo IH]; intros pre revert E Hne; cbn [intra_socket].
  { by exists []. }
  apply Forall_cons in Hne as [Hs Hne].
  assert (sets !! length pre = Some s) as Hi by (rewrite E; by apply list_lookup_middle).
  pose proof (lookup_lt_Some _ _ _ Hi) as Hlt.
  destruct (find_range nodes (nodes s) sets 0 (-1) (-1)) as [[base limit] several] eqn:Ef.
  assert (∃ range, (if revert || several then Ok (0, n)
      else _ ← hassert (base >=? 0); Ok (base, if limit <? 0 then n else limit)) = Ok range ∧
    range_ok n sets (Z.of_nat (length pre)) s range) as (range & -> & Hr).
  { destruct (found_range_ok _ _ _ _ _ _ _ Hn Hi Hs Ef) as [->|[Hb H]].
    - rewrite orb_true_r. exists (0, n). split; [done|]. split; cbn; [lia|]. split; [lia|by left].
    - destruct (revert || several).
      + exists (0, n). split; [done|]. split; cbn; [lia|]. split; [lia|by left].
      + rewrite (proj2 (Z.geb_le _ _)) by lia. by eexists. }
  cbn [mbind res_bind].
  destruct (IH (pre ++ [s]) (revert || several)) as (ranges & -> & Hl & Hr'); [by rewrite <-app_assoc|done|].
  exists (range :: ranges). cbn. split; [done|]. split; [by rewrite Hl|].
  intros [|k] s' range' Hk Hk'; cbn in Hk, Hk'.
  - injection Hk as ->. injection Hk' as ->. by rewrite Nat.add_0_r.
  - replace (length pre + S k)%nat with (length (pre ++ [s]) + k)%nat by (rewrite length_app; cbn; lia). by apply Hr'.
Qed.

(** A worker without processing units has no node in common with anyone. *)
Lemma find_range_empty sets :
  nodes ∅ = ∅ → find_range nodes (nodes ∅) sets 0 (-1) (-1) = (-1, -1, false).
Proof.
  intros He. rewrite He. generalize 0. induction sets as [|t sets IH]; intros j; [done|]. cbn.
  rewrite bool_decide_false; [apply IH|]. intros H. apply H. apply intersection_empty_r_L.
Qed.
End ranges.

(** ** Properties *)

(** The default affinity.  Every processing unit of the process goes to
    exactly one worker, and every worker gets at least one; each worker's range of
    neighbours contains it and lies within the workers, and unless the search was
    given up it holds exactly the workers that share a memory node with it.  hwloc
    gives the nodes of a set of processing units, and there are some if the set is
    not empty. *)
Theorem hwloc_cpusets_correct nodes user cpuset n :
  (∀ s, s ≠ ∅ → nodes s ≠ ∅) → (∀ p, p ∈ cpuset → 0 <= p) →
  user = None ∨ user = Some (chars "strided") →
  1 <= n <= bitmap_weight cpuset → bitmap_weight cpuset <= INT_MAX →
  ∃ sets ranges, create_hwloc_cpusets nodes user cpuset n = Ok (sets, ranges) ∧
    Z.of_nat (length sets) = n ∧ Z.of_nat (length ranges) = n ∧ (∀ s, s ∈ sets → s ≠ ∅) ∧
    (∀ p, p ∈ cpuset ↔ ∃ i, (∃ s, sets !! i = Some s ∧ p ∈ s) ∧ ∀ j s, sets !! j = Some s → p ∈ s → j = i) ∧
    ∀ i s range, sets !! i = Some s → ranges !! i = Some range →
      range_ok nodes n sets (Z.of_nat i) s range.
Proof.
  intros Hnodes Hpos Hu Hn Hmax. destruct (strided_ok cpuset n Hpos Hn Hmax) as (sets & E & Hd & Hne).
  assert (select_affinity user = Ok HCLIB_AFFINITY_STRIDED) as Es by by destruct Hu as [-> | ->].
  pose proof (proj1 Hd) as Hl.
  destruct (intra_socket_ok nodes n sets [] sets false) as (ranges & Er & Hlr & Hr); [done|done| |].
  { apply Forall_forall. intros s Hs. by apply Hnodes, Hne. }
  exists sets, ranges. split; [unfold create_hwloc_cpusets; rewrite Es; cbn [mbind res_bind]; rewrite E;
    cbn [mbind res_bind]; by rewrite Er|].
  split; [done|]. split; [by rewrite Hlr|]. split; [done|].
  split; [|exact Hr]. apply (dealt_partition cpuset n (λ k, k mod n) sets Hpos); [|done]. intros k _. apply Z.mod_pos_bound. lia.
Qed.

(** ** Witness

    Four processing units on two nodes. *)
Definition two_nodes (s : bitmap) : bitmap := set_map (λ p, p / 2) s.

Lemma two_nodes_nonempty s : s ≠ ∅ → two_nodes s ≠ ∅.
Proof. intros H. unfold two_nodes. set_solver. Qed.

Lemma hwloc_cpusets_correct_witness :
  create_hwloc_cpusets two_nodes None {[0; 1; 2; 3]} 4 =
    Ok ([{[0]}; {[1]}; {[2]}; {[3]}], [(0, 2); (0, 2); (2, 4); (2, 4)]) ∧
  ∃ sets ranges, create_hwloc_cpusets two_nodes None {[0; 1; 2; 3]} 4 = Ok (sets, ranges) ∧ (∀ s, s ∈ sets → s ≠ ∅).
Proof.
  split; [by vm_compute|].
  destruct (hwloc_cpusets_correct two_nodes None {[0; 1; 2; 3]} 4) as (sets & ranges & E & _ & _ & H & _).
  - exact two_nodes_nonempty.
  - intros p. rewrite !elem_of_union, !elem_of_singleton. lia.
  - by left.
  - vm_compute. split; discriminate.
  - vm_compute. discriminate.
  - exists sets, ranges. split; [exact E|exact H].
Defined.

(** The chunked affinity can leave a worker without processing units, and then the
    assertion that its range was found fails: four workers on five units. *)
Example chunked_aborts :
  create_hwloc_cpusets two_nodes (Some (chars "chunked")) {[0; 1; 2; 3; 4]} 4 = Err AssertFail ∧
  pin_workers HCLIB_AFFINITY_CHUNKED {[0; 1; 2; 3; 4]} 4 = Ok [{[0; 1]}; {[2; 3]}; {[4]}; ∅].
Proof. by vm_compute. Qed.
