(* ===== verification/Pool.v ===== *)
(** * The interface between the runtime and the locality graph

    What [src/src/hclib-runtime.c] relies on when it queues and finds tasks: the
    operations of [src/src/hclib-locality-graph.c] it calls, and their effect on
    the queued tasks, in whatever order the queues hand them out.  The locality
    graph of [LocalityRun] is shown to implement it. *)

From S2P Require Import Prelude Deque Locality LocalityRun.
From stdpp Require Import options.

Class TaskPool (S : Type) := {
  (** [deque_push_locale] for a worker, a locale and a task *)
  pool_push_locale : S → Z → Z → Z → res (Z * S);
  (** [deque_push] on a worker's deque at the default locale *)
  pool_push_default : S → Z → Z → res (Z * S);
  (** [locale_pop_task] for a worker *)
  pool_pop : S → Z → res (Z * S);
  (** [locale_steal_task] for a worker *)
  pool_steal : S → Z → res (list Z * S);

  pool_ok : S → Prop;
  pool_tasks : S → list Z;

  pool_push_locale_law s wid locale t r s' :
    pool_ok s → t ≠ NULL → pool_push_locale s wid locale t = Ok (r, s') → r ≠ 0 →
    pool_ok s' ∧ pool_tasks s' ≡ₚ t :: pool_tasks s;
  pool_push_default_law s wid t r s' :
    pool_ok s → t ≠ NULL → pool_push_default s wid t = Ok (r, s') → r ≠ 0 →
    pool_ok s' ∧ pool_tasks s' ≡ₚ t :: pool_tasks s;
  pool_pop_law s wid t s' :
    pool_ok s → pool_pop s wid = Ok (t, s') →
    pool_ok s' ∧ pool_tasks s ≡ₚ (if t =? NULL then [] else [t]) ++ pool_tasks s';
  pool_steal_law s wid ts s' :
    pool_ok s → pool_steal s wid = Ok (ts, s') →
    pool_ok s' ∧ pool_tasks s ≡ₚ ts ++ pool_tasks s';

  pool_push_locale_ends s wid locale t : terminates (pool_push_locale s wid locale t);
  pool_push_default_ends s wid t : terminates (pool_push_default s wid t);
  pool_pop_ends s wid : terminates (pool_pop s wid);
  pool_steal_ends s wid : terminates (pool_steal s wid)
}.

#[export] Hint Resolve pool_push_locale_ends pool_push_default_ends pool_pop_ends pool_steal_ends
  : hclib.

(** ** The locality graph as a pool *)

(** The locality graph and the fields of the workers it reads. *)
Record locality := mkLocality { lc_context : hclib_context; lc_workers : list worker }.

Definition lift_context {A} (s : locality) (r : res (A * hclib_context)) : res (A * locality) :=
  '(a, cx) ← r; Ok (a, mkLocality cx (lc_workers s)).

(** src/src/hclib-runtime.c:494-498 (rt_schedule_async) *)
Definition locality_push_locale (s : locality) (wid locale t : Z) : res (Z * locality) :=
  ws ← array_get (lc_workers s) wid;
  lift_context s (deque_push_locale (lc_context s) ws locale t).

(** src/src/hclib-runtime.c:507-520 (rt_schedule_async) *)
Definition locality_push_default (s : locality) (wid t : Z) : res (Z * locality) :=
  default_locale ← array_get (gr_locales (hc_graph (lc_context s))) 0;
  reachable ← (match loc_reachable default_locale with
               | Some b => Ok b | None => Err UninitRead end);
  _ ← hassert reachable;
  lift_context s (with_deque (lc_context s) 0 wid (λ deq, deque_push deq t)).

Definition locality_pop (s : locality) (wid : Z) : res (Z * locality) :=
  ws ← array_get (lc_workers s) wid;
  lift_context s (locale_pop_task (lc_context s) ws).

Definition locality_steal (s : locality) (wid : Z) : res (list Z * locality) :=
  ws ← array_get (lc_workers s) wid;
  '(ts, _, cx) ← locale_steal_task (lc_context s) ws;
  Ok (ts, mkLocality cx (lc_workers s)).

(** src/src/hclib-runtime.c:480-486 (hclib_default_queue_capacity) *)
Definition hclib_default_queue_capacity (s : locality) (wid : Z) : res (Z * Z) :=
  default_locale ← array_get (gr_locales (hc_graph (lc_context s))) 0;
  deq ← array_get (loc_deques default_locale) wid;
  used ← int_sub (dq_tail deq) (dq_head deq);
  Ok (used, INIT_DEQUE_CAPACITY).

(** ** Lemmas: the queued tasks of a locality graph *)

Definition locale_tasks (l : hclib_locale_t) : list Z := concat (wq_items <$> loc_deques l).

Definition context_tasks (cx : hclib_context) : list Z :=
  concat (locale_tasks <$> gr_locales (hc_graph cx)).

Definition deques_ok (cx : hclib_context) : Prop :=
  Forall (λ l, Forall wq_ok (loc_deques l)) (gr_locales (hc_graph cx)).

Definition locality_ok (s : locality) : Prop :=
  deques_ok (lc_context s) ∧ Forall (λ t, t ≠ NULL) (context_tasks (lc_context s)).

Lemma concat_insert {A} (f : A → list Z) (ls : list A) i x y :
  ls !! i = Some x →
  ∃ pre post, concat (f <$> ls) = pre ++ f x ++ post ∧
    concat (f <$> <[i := y]> ls) = pre ++ f y ++ post.
Proof.
  intros Hi. exists (concat (f <$> take i ls)), (concat (f <$> drop (S i) ls)). split.
  - by rewrite <- (take_drop_middle ls i x Hi) at 1; rewrite fmap_app, concat_app.
  - rewrite insert_take_drop by (by eapply lookup_lt_Some). by rewrite fmap_app, concat_app.
Qed.

(** An operation on one deque, as seen from all the queued tasks. *)
Lemma with_deque_tasks {A} cx locale wid
    (op : hclib_internal_deque_t → res (A * hclib_internal_deque_t)) r cx' :
  deques_ok cx → with_deque cx locale wid op = Ok (r, cx') →
  ∃ d d' pre post, op d = Ok (r, d') ∧ wq_ok d ∧
    context_tasks cx = pre ++ wq_items d ++ post ∧
    context_tasks cx' = pre ++ wq_items d' ++ post ∧
    (wq_ok d' → deques_ok cx').
Proof.
  intros Hok H. unfold with_deque in H.
  apply bind_Ok in H as (l & [Hl Hll]%array_get_Ok & H).
  apply bind_Ok in H as (d & [Hw Hd]%array_get_Ok & H).
  apply bind_Ok in H as ([r1 d'] & Hop & H).
  pose proof (lookup_lt_Some _ _ _ Hll). pose proof (lookup_lt_Some _ _ _ Hd).
  rewrite array_set_in in H by lia. cbn [mbind res_bind] in H.
  rewrite array_set_in in H by lia. cbn [mbind res_bind] in H. injection H as <- <-.
  set (l' := set_deques l _).
  destruct (concat_insert wq_items (loc_deques l) (Z.to_nat wid) d d' Hd) as (p1 & q1 & E1 & E1').
  destruct (concat_insert locale_tasks (gr_locales (hc_graph cx)) (Z.to_nat locale) l l' Hll)
    as (p2 & q2 & E2 & E2').
  pose proof (Forall_lookup_1 _ _ _ _ Hok Hll) as Hds. cbn in Hds.
  exists d, d', (p2 ++ p1), (q1 ++ q2). split; [done|].
  split; [by eapply (Forall_lookup_1 _ _ _ _ Hds)|]. split; [|split].
  - unfold context_tasks. rewrite E2. unfold locale_tasks at 1. rewrite E1. by rewrite <- !app_assoc.
  - unfold context_tasks. cbn. rewrite E2'.
    change (locale_tasks l') with (concat (wq_items <$> <[Z.to_nat wid := d']> (loc_deques l))).
    rewrite E1'.
    by rewrite <- !app_assoc.
  - intros Hd'. unfold deques_ok. cbn. apply Forall_insert; [done|]. cbn. by apply Forall_insert.
Qed.

Lemma with_deque_pop_tasks cx locale wid t cx' :
  locality_ok (mkLocality cx []) → with_deque cx locale wid deque_pop = Ok (t, cx') →
  deques_ok cx' ∧ context_tasks cx ≡ₚ (if t =? NULL then [] else [t]) ++ context_tasks cx'.
Proof.
  intros [Hok Hn] H. apply with_deque_tasks in H as (d & d' & pre & post & Hop & Hd & E & E' & Hok');
    [|done]. cbn [lc_context] in Hn. rewrite E, E'.
  destruct (wq_pop_spec d Hd) as (t1 & d1 & E1 & Hd1 & Hq).
  assert (t1 = t ∧ d1 = d') as [-> ->] by (change (deque_pop d = Ok (t1, d1)) in E1; split; congruence).
  split; [by apply Hok'|]. destruct Hq as [(Hq & -> & Hq')|Hq].
  - by rewrite Hq, Hq'.
  - rewrite E, Hq, !Forall_app, Forall_singleton in Hn. rewrite (proj2 (Z.eqb_neq _ _)) by tauto.
    rewrite Hq. solve_Permutation.
Qed.

Lemma with_deque_steal_tasks cx locale wid ts cx' :
  deques_ok cx → with_deque cx locale wid deque_steal = Ok (ts, cx') →
  deques_ok cx' ∧ context_tasks cx ≡ₚ ts ++ context_tasks cx'.
Proof.
  intros Hok H. apply with_deque_tasks in H as (d & d' & pre & post & Hop & Hd & E & E' & Hok');
    [|done]. rewrite E, E'.
  destruct (wq_steal_spec d Hd) as (t1 & d1 & E1 & Hd1 & Hq & _).
  assert (t1 = ts ∧ d1 = d') as [-> ->] by (change (deque_steal d = Ok (t1, d1)) in E1; split; congruence).
  split; [by apply Hok'|]. rewrite Hq. solve_Permutation.
Qed.

Lemma with_deque_push_tasks cx locale wid t r cx' :
  deques_ok cx → with_deque cx locale wid (λ deq, deque_push deq t) = Ok (r, cx') → r ≠ 0 →
  deques_ok cx' ∧ context_tasks cx' ≡ₚ t :: context_tasks cx.
Proof.
  intros Hok H Hr. apply with_deque_tasks in H as (d & d' & pre & post & Hop & Hd & E & E' & Hok');
    [|done]. rewrite E, E'.
  destruct (wq_push_inv d t r d' Hd Hop Hr) as [Hd1 Hq].
  split; [by apply Hok'|]. rewrite Hq. solve_Permutation.
Qed.

Lemma nonnull_perm (ts ts' : list Z) more :
  Forall (λ t, t ≠ NULL) ts → ts ≡ₚ more ++ ts' → Forall (λ t, t ≠ NULL) ts'.
Proof. intros Hn E. rewrite E in Hn. by apply Forall_app in Hn as [_ Hn]. Qed.

Lemma pop_along_tasks cx wid path t cx' :
  locality_ok (mkLocality cx []) → pop_along cx wid path = Ok (t, cx') →
  deques_ok cx' ∧ context_tasks cx ≡ₚ (if t =? NULL then [] else [t]) ++ context_tasks cx'.
Proof.
  revert cx. induction path as [|locale path IH]; intros cx Hok H; cbn [pop_along] in H.
  - injection H as <- <-. split; [apply Hok|done].
  - apply bind_Ok in H as ([t1 cx1] & H1 & H).
    destruct (with_deque_pop_tasks _ _ _ _ _ Hok H1) as [Hok1 E1].
    destruct (Z.eqb_spec t1 NULL) as [->|Hne]; cbn [negb] in H.
    + cbn [app] in E1. rewrite E1. apply IH; [|done]. split; [done|].
      eapply (nonnull_perm _ _ []), E1. apply Hok.
    + injection H as <- <-. split; [done|]. by rewrite (proj2 (Z.eqb_neq _ _)) by done.
Qed.

Definition loot_tasks (f : option loot) : list Z :=
  match f with Some l => lt_tasks l | None => [] end.

Lemma steal_intra_tasks cx locale li n j f cx' :
  deques_ok cx → steal_intra cx locale li n j = Ok (f, cx') →
  deques_ok cx' ∧ context_tasks cx ≡ₚ loot_tasks f ++ context_tasks cx'.
Proof.
  revert cx j. induction n as [|n IH]; intros cx j Hok H; cbn [steal_intra] in H.
  - by injection H as <- <-.
  - apply bind_Ok in H as ([ts cx1] & H1 & H).
    destruct (with_deque_steal_tasks _ _ _ _ _ Hok H1) as [Hok1 E1]. destruct ts as [|t ts].
    + rewrite E1. by eapply IH.
    + by injection H as <- <-.
Qed.

Lemma steal_leftover_tasks cx ws locale li n j f cx' :
  deques_ok cx → steal_leftover cx ws locale li n j = Ok (f, cx') →
  deques_ok cx' ∧ context_tasks cx ≡ₚ loot_tasks f ++ context_tasks cx'.
Proof.
  revert cx j. induction n as [|n IH]; intros cx j Hok H; cbn [steal_leftover] in H.
  - by injection H as <- <-.
  - apply bind_Ok in H as (k & _ & H). apply bind_Ok in H as (v & _ & H).
    apply bind_Ok in H as ([ts cx1] & H1 & H).
    destruct (with_deque_steal_tasks _ _ _ _ _ Hok H1) as [Hok1 E1]. destruct ts as [|t ts].
    + rewrite E1. by eapply IH.
    + by injection H as <- <-.
Qed.

Lemma steal_along_tasks cx ws steal last n i f cx' :
  deques_ok cx → steal_along cx ws steal last n i = Ok (f, cx') →
  deques_ok cx' ∧ context_tasks cx ≡ₚ loot_tasks f ++ context_tasks cx'.
Proof.
  revert cx i. induction n as [|n IH]; intros cx i Hok H; cbn [steal_along] in H.
  - by injection H as <- <-.
  - apply bind_Ok in H as (k & _ & H). apply bind_Ok in H as (li & _ & H).
    apply bind_Ok in H as (l & _ & H). apply bind_Ok in H as (intra & _ & H).
    apply bind_Ok in H as ([f1 cx1] & H1 & H).
    destruct (steal_intra_tasks _ _ _ _ _ _ _ Hok H1) as [Hok1 E1]. rewrite E1.
    destruct f1 as [l1|]; [by injection H as <- <-|].
    apply bind_Ok in H as (left & _ & H). apply bind_Ok in H as ([f2 cx2] & H2 & H).
    destruct (steal_leftover_tasks _ _ _ _ _ _ _ _ Hok1 H2) as [Hok2 E2]. cbn [loot_tasks app].
    rewrite E2. destruct f2 as [l2|]; [by injection H as <- <-|]. cbn [loot_tasks app].
    by eapply IH.
Qed.

(** ** Lemmas: the searches end *)

Lemma slot_index_ends i : terminates (slot_index i).
Proof. unfold slot_index. terminate. Qed.
#[local] Hint Resolve slot_index_ends : hclib.

Lemma steal_ends deq : terminates (deque_steal deq).
Proof.
  unfold deque_steal. cbn [Z.to_nat STEAL_CHUNK_SIZE Pos.to_nat Pos.iter_op deque_steal_loop].
  apply terminates_bind; [apply terminates_to_int|intros d _]. destruct (d <=? 0); [done|].
  apply terminates_bind; [terminate|intros n _]. apply terminates_bind; [apply terminates_to_int|intros h _].
  cbn. by rewrite Z.eqb_refl.
Qed.

Lemma push_ends deq t : terminates (deque_push deq t).
Proof. unfold deque_push. terminate. Qed.

Lemma pop_ends deq : terminates (deque_pop deq).
Proof. unfold deque_pop. terminate. Qed.

Lemma with_deque_ends {A} cx locale wid
    (op : hclib_internal_deque_t → res (A * hclib_internal_deque_t)) :
  (∀ d, terminates (op d)) → terminates (with_deque cx locale wid op).
Proof. intros Hop. unfold with_deque. terminate. Qed.

Lemma pop_along_ends cx wid path : terminates (pop_along cx wid path).
Proof.
  revert cx. induction path as [|l path IH]; intros cx; cbn [pop_along]; [done|].
  apply terminates_bind; [apply with_deque_ends, pop_ends|intros [t cx'] _].
  by destruct (negb _).
Qed.

Lemma steal_intra_ends cx locale li n j : terminates (steal_intra cx locale li n j).
Proof.
  revert cx j. induction n as [|n IH]; intros cx j; cbn [steal_intra]; [done|].
  apply terminates_bind; [apply with_deque_ends, steal_ends|intros [[|t ts] cx'] _]; [apply IH|done].
Qed.

Lemma steal_leftover_ends cx ws locale li n j : terminates (steal_leftover cx ws locale li n j).
Proof.
  revert cx j. induction n as [|n IH]; intros cx j; cbn [steal_leftover]; [done|].
  apply terminates_bind; [apply terminates_to_int|intros k _].
  apply terminates_bind; [terminate|intros v _].
  apply terminates_bind; [apply with_deque_ends, steal_ends|intros [[|t ts] cx'] _]; [apply IH|done].
Qed.

Lemma steal_along_ends cx ws steal last n i : terminates (steal_along cx ws steal last n i).
Proof.
  revert cx i. induction n as [|n IH]; intros cx i; cbn [steal_along]; [done|].
  pose proof steal_intra_ends. pose proof steal_leftover_ends. terminate.
Qed.

Lemma lift_context_ends {A} s (r : res (A * hclib_context)) :
  terminates r → terminates (lift_context s r).
Proof. intros H. unfold lift_context. terminate. Qed.

Lemma lift_context_Ok {A} s (r : res (A * hclib_context)) a s' :
  lift_context s r = Ok (a, s') →
  ∃ cx, r = Ok (a, cx) ∧ s' = mkLocality cx (lc_workers s).
Proof.
  intros H. apply bind_Ok in H as ([a1 cx] & -> & H). injection H as -> <-. by exists cx.
Qed.

#[export] Instance locality_pool : TaskPool locality.
Proof.
  refine {| pool_push_locale := locality_push_locale; pool_push_default := locality_push_default;
    pool_pop := locality_pop; pool_steal := locality_steal; pool_ok := locality_ok;
    pool_tasks s := context_tasks (lc_context s) |}.
  - intros [cx ws] wid locale t r s' [Hok Hn] Ht H Hr.
    apply bind_Ok in H as (w & _ & H). apply lift_context_Ok in H as (cx' & H & ->).
    apply bind_Ok in H as (l & _ & H). apply bind_Ok in H as (re & _ & H).
    apply bind_Ok in H as (u & _ & H).
    destruct (with_deque_push_tasks _ _ _ _ _ _ Hok H Hr) as [Hok' E].
    split; [split; [done|]|done]. cbn. rewrite E. by constructor.
  - intros [cx ws] wid t r s' [Hok Hn] Ht H Hr.
    apply bind_Ok in H as (l & _ & H). apply bind_Ok in H as (re & _ & H).
    apply bind_Ok in H as (u & _ & H). apply lift_context_Ok in H as (cx' & H & ->).
    destruct (with_deque_push_tasks _ _ _ _ _ _ Hok H Hr) as [Hok' E].
    split; [split; [done|]|done]. cbn. rewrite E. by constructor.
  - intros [cx ws] wid t s' [Hok Hn] H.
    apply bind_Ok in H as (w & _ & H). apply lift_context_Ok in H as (cx' & H & ->).
    apply bind_Ok in H as (p & _ & H).
    destruct (pop_along_tasks cx (ws_id w) (pop_path p) t cx') as [Hok' E]; [done|done|].
    split; [|done]. split; [done|]. by eapply nonnull_perm.
  - intros [cx ws] wid ts s' [Hok Hn] H.
    apply bind_Ok in H as (w & _ & H). apply bind_Ok in H as ([[ts1 v] cx'] & H & H').
    injection H' as -> <-.
    apply bind_Ok in H as (p & _ & H). apply bind_Ok in H as ([f cx2] & H2 & H).
    destruct (steal_along_tasks _ _ _ _ _ _ _ _ Hok H2) as [Hok' E].
    assert (context_tasks cx2 = context_tasks cx' ∧ deques_ok cx' ∧ loot_tasks f = ts)
      as (E2 & Hok1 & <-).
    { destruct f as [l|]; [|by injection H as <- <- <-].
      apply bind_Ok in H as (cx3 & H3 & H). injection H as <- _ <-.
      apply bind_Ok in H3 as (p' & _ & H3). apply bind_Ok in H3 as (ps & _ & H3).
      by injection H3 as <-. }
    split; [split; [done|]|]; cbn; rewrite <- E2; [by eapply nonnull_perm|done].
  - intros s wid locale t. unfold locality_push_locale, deque_push_locale.
    apply terminates_bind; [terminate|intros w _]. apply lift_context_ends. terminate.
    apply with_deque_ends. intros d. apply push_ends.
  - intros s wid t. unfold locality_push_default. terminate.
    apply lift_context_ends, with_deque_ends. intros d. apply push_ends.
  - intros s wid. unfold locality_pop, locale_pop_task.
    apply terminates_bind; [terminate|intros w _]. apply lift_context_ends. terminate.
    apply pop_along_ends.
  - intros s wid. unfold locality_steal, locale_steal_task, set_last_steal. terminate.
    apply steal_along_ends.
Defined.

(** ** A small locality graph *)

(** One locale, which [n] workers reach, with empty deques. *)
Definition small_pool (n : nat) : locality :=
  mkLocality
    (mkContext
      (mkGraph [mkLocale 0 0 [] None 0 [] (Some true) (replicate n (mkDeque 0 0 ∅))] [])
      (replicate n (mkPaths [0] [0] 0)))
    ((λ w, mkWorker w (Z.of_nat n) 0 (Z.of_nat n)) <$> seqZ 0 (Z.of_nat n)).

Lemma small_pool_empty n : pool_tasks (small_pool n) = [].
Proof.
  unfold pool_tasks. cbn. unfold context_tasks, locale_tasks. cbn. rewrite app_nil_r.
  induction n as [|n IH]; [done|]. cbn. by rewrite IH.
Qed.

Lemma small_pool_ok n : pool_ok (small_pool n).
Proof.
  split; [|change (context_tasks _) with (pool_tasks (small_pool n)); by rewrite small_pool_empty].
  unfold deques_ok. cbn. constructor; [|constructor]. apply Forall_replicate. cbn.
  unfold deque_wf. cbn. unfold INIT_DEQUE_CAPACITY, INT_MAX. lia.
Qed.
