(* ===== verification/Init.v ===== *)
(** * From the start of the process to the first task

    [hclib_global_init] of [src/src/hclib-runtime.c] composes the parts of the
    locality graph: it loads or generates the graph, checks it, and creates the
    workers; [create_hwloc_cpusets] sets the range of neighbours of each.  The
    theorems say that what it leaves is what the runtime relies on ([TaskPool]),
    and stays so while workers push, pop and steal. *)

From S2P Require Import Prelude Deque Jsmn LocalityText Locality LocalityRun Pool Affinity.
From stdpp Require Import options.

(** ** The code *)

Section init.
Context (run_populate : Z → hclib_locale_t → res hclib_locale_t).

(** [locality_file] is what [HCLIB_LOCALITY_FILE] names, if it is set: the contents
    of the file, or [None] when it cannot be opened.

    src/src/hclib-runtime.c:244-293 (hclib_global_init) *)
Definition hclib_global_init (s : locality_state) (locality_file : option (option (list Z)))
    (junk : jsmntok_t) (hclib_workers : option (list Z)) (nprocessors : Z) : res locality :=
  '(nworkers, graph, worker_paths) ←
    (match locality_file with
     | Some file => load_locality_info run_populate s file junk hclib_workers
     | None => generate_locality_info run_populate s hclib_workers nprocessors
     end);
  graph ← check_locality_graph graph worker_paths;
  Ok (mkLocality (mkContext graph worker_paths) ((λ i, mkWorker i nworkers 0 0) <$> seqZ 0 nworkers)).
End init.

(** src/src/hclib-runtime.c:873-875 (create_hwloc_cpusets) *)
Definition set_range (ws : worker) (range : Z * Z) : worker :=
  mkWorker (ws_id ws) (ws_nworkers ws) range.1 range.2.

(** A build with hwloc has what hwloc and the environment say; without, the ranges
    are those that [calloc] leaves.

    src/src/hclib-runtime.c:381-381 (hclib_entrypoint) *)
Definition pin_locality (hwloc : option ((bitmap → bitmap) * option (list Z) * bitmap)) (s : locality)
    : res locality :=
  match hwloc with
  | None => Ok s
  | Some (nodes, user_selected_affinity, cpuset) =>
      '(_, ranges) ← create_hwloc_cpusets nodes user_selected_affinity cpuset
                       (Z.of_nat (length (lc_workers s)));
      Ok (mkLocality (lc_context s) (zip_with set_range (lc_workers s) ranges))
  end.

(** ** Lemmas: what initialisation leaves *)

(** The paths of the workers; they do not change. *)
Notation paths_of wps := ((λ p, (pop_path p, steal_path p)) <$> wps).

(** Well-formed platforms of [n] workers: deques and graph ([context_ok]), the
    workers and their paths, and [reachable] as the paths say; a locale that no
    path visits has no task. *)
Definition ready (n : Z) (paths : list (hclib_locality_path * hclib_locality_path)) (s : locality) : Prop :=
  let cx := lc_context s in
  context_ok n cx ∧ paths_of (hc_worker_paths cx) = paths ∧
  (∀ w, 0 <= w < n → ∃ ws p, lc_workers s !! Z.to_nat w = Some ws ∧ ws_id ws = w ∧ ws_nworkers ws = n ∧
    worker_ok ws ∧ worker_paths_ok cx ws p) ∧
  (∀ i l, gr_locales (hc_graph cx) !! i = Some l →
     loc_reachable l = Some (bool_decide (on_some_path (hc_worker_paths cx) (Z.of_nat i)))) ∧
  ∀ i w, 0 <= i → 0 <= w → queue cx i w ≠ [] → on_some_path (hc_worker_paths cx) i.

(** What [load_locality_info] and [generate_locality_info] leave. *)
Definition loaded (n : Z) (g : hclib_locality_graph) (wps : list hclib_worker_paths) : Prop :=
  0 <= n ∧ Forall (λ l, loc_deques l = replicate (Z.to_nat n) init_hclib_deque_t) (gr_locales g) ∧
  Z.of_nat (length wps) = n ∧ Forall (paths_ok (n_locales g)) wps.

Section loaded.
Context (run_populate : Z → hclib_locale_t → res hclib_locale_t).
Context (Hpop : ∀ f l l', run_populate f l = Ok l' →
  loc_id l' = loc_id l ∧ loc_lbl l' = loc_lbl l ∧ loc_deques l' = loc_deques l).
#[local] Set Default Proof Using "Type*".

Lemma generate_locales_paths n i s nw ls edges wps ls' edges' wps' :
  generate_locales run_populate n i s nw ls edges wps = Ok (ls', edges', wps') →
  0 < i → Z.of_nat (length ls) = i → Z.of_nat (length wps) = i - 1 →
  Forall (λ l, loc_deques l = replicate (Z.to_nat nw) init_hclib_deque_t) ls →
  Forall (paths_ok (i + Z.of_nat n)) wps →
  Z.of_nat (length ls') = i + Z.of_nat n ∧ Z.of_nat (length wps') = i - 1 + Z.of_nat n ∧
  Forall (λ l, loc_deques l = replicate (Z.to_nat nw) init_hclib_deque_t) ls' ∧
  Forall (paths_ok (i + Z.of_nat n)) wps'.
Proof.
  revert i ls edges wps. induction n as [|n IH]; intros i ls edges wps H Hi Hl Hw Hd Hp;
    cbn [generate_locales] in H; res_inv.
  { rewrite !Z.add_0_r in *. done. }
  match goal with H : initialize_locale _ _ _ _ _ _ = Ok _ |- _ =>
    apply (initialize_locale_ok run_populate Hpop) in H as (_ & _ & _ & Hdq) end.
  replace (i + Z.of_nat (S n)) with (i + 1 + Z.of_nat n) in * by lia.
  replace (i - 1 + Z.of_nat (S n)) with (i + 1 - 1 + Z.of_nat n) by lia.
  apply IH in H; [done|lia|rewrite length_app; cbn; lia|rewrite length_app; cbn; lia| |].
  - apply Forall_app. by repeat constructor.
  - apply Forall_app. split; [done|]. repeat constructor; cbn; (discriminate || lia).
Qed.

Lemma generated_loaded s workers nprocessors n g wps :
  generate_locality_info run_populate s workers nprocessors = Ok (n, g, wps) → loaded n g wps.
Proof.
  intros H. unfold generate_locality_info in H.
  apply bind_Ok in H as (nw & _ & H). apply bind_Ok in H as (? & Hnw & H).
  apply hassert_Ok, Z.leb_le in Hnw. apply bind_Ok in H as (n0 & [-> _]%to_int_Ok & H).
  apply bind_Ok in H as (root & Hroot & H). apply bind_Ok in H as ([[ls edges] wps'] & Hgen & H).
  injection H as -> <- <-.
  apply (initialize_locale_ok run_populate Hpop) in Hroot as (_ & _ & _ & Hdq).
  apply generate_locales_paths in Hgen as (Hl & Hw & Hd & Hp); [|done|done|done|by constructor|by constructor].
  split; [done|]. split; [done|]. unfold n_locales. cbn [gr_locales]. rewrite Hl. split; [lia|done].
Qed.

Lemma file_loaded s contents junk workers n g wps :
  Z.of_nat (length contents) < INT_MAX →
  load_locality_info run_populate s (Some contents) junk workers = Ok (n, g, wps) → loaded n g wps.
Proof.
  intros Hlen H.
  destruct (load_locality_info_ok run_populate Hpop _ _ _ _ _ _ _ Hlen H) as (Hn & _ & _ & (_ & _ & Hd) & Hw & Hp).
  by repeat split.
Qed.
End loaded.

Lemma on_some_path_paths wps wps' i :
  paths_of wps = paths_of wps' → on_some_path wps i ↔ on_some_path wps' i.
Proof.
  intros E. unfold on_some_path.
  enough (∀ wps, Exists (λ w, i ∈ pop_path w ∨ i ∈ steal_path w) wps ↔
    Exists (λ ps, i ∈ ps.1 ∨ i ∈ ps.2) (paths_of wps)) as H by by rewrite !H, E.
  intros ws. by rewrite Exists_fmap.
Qed.

(** ** Lemmas: initialisation *)

Lemma init_deque_ok : wq_ok init_hclib_deque_t ∧ wq_items init_hclib_deque_t = [].
Proof. split; [|done]. unfold wq_ok. cbn. unfold deque_wf. cbn. unfold INIT_DEQUE_CAPACITY, INT_MAX. lia. Qed.

Lemma ready_init n g wps g' :
  loaded n g wps → 2 * n <= INT_MAX → Forall (λ p, 2 * Z.of_nat (length (steal_path p)) <= INT_MAX) wps →
  check_locality_graph g wps = Ok g' →
  let s := mkLocality (mkContext g' wps) ((λ i, mkWorker i n 0 0) <$> seqZ 0 n) in
  ready n (paths_of wps) s ∧ pool_tasks s = [].
Proof.
  intros (Hn & Hd & Hw & Hp) Hmax Hsteal E s.
  destruct (check_locality_graph_marks g wps Hp) as (g1 & E1 & _ & Hlen & Hmarks).
  assert (g1 = g') as -> by congruence.
  assert (n_locales g' = n_locales g) as Hnl by (unfold n_locales; by rewrite Hlen).
  assert (∀ i l, gr_locales g' !! i = Some l → loc_deques l = replicate (Z.to_nat n) init_hclib_deque_t ∧
    loc_reachable l = Some (bool_decide (on_some_path wps (Z.of_nat i)))) as Hl.
  { intros i l Hi. pose proof (lookup_lt_Some _ _ _ Hi).
    destruct (lookup_lt_is_Some_2 (gr_locales g) i) as [l0 Hl0]; [lia|].
    specialize (Hmarks (Z.of_nat i) l0 ltac:(lia)). rewrite Nat2Z.id in Hmarks.
    specialize (Hmarks Hl0). rewrite Hi in Hmarks. injection Hmarks as ->.
    split; [|done]. by apply (Forall_lookup_1 _ _ _ _ Hd Hl0). }
  destruct init_deque_ok as [Hok0 Hit0].
  split; [split; [|split; [done|split; [|split]]]|].
  - apply Forall_lookup_2. intros i l Hi. destruct (Hl i l Hi) as [Hdq _]. split; rewrite Hdq.
    + rewrite length_replicate. lia.
    + apply Forall_replicate. rewrite Hit0. done.
  - intros w Hwr. destruct (lookup_lt_is_Some_2 wps (Z.to_nat w)) as [p Hpw]; [lia|].
    exists (mkWorker w n 0 0), p. split; [|split; [done|split; [done|split]]].
    + cbn. rewrite list_lookup_fmap, lookup_seqZ_lt by lia. cbn. do 2 f_equal. lia.
    + repeat split; cbn; lia.
    + destruct (Forall_lookup_1 _ _ _ _ Hp Hpw) as ([_ Hp1] & [Hne Hp2] & Hlast).
      pose proof (Forall_lookup_1 _ _ _ _ Hsteal Hpw) as Hs. cbn in Hs.
      unfold worker_paths_ok. cbn. rewrite Hnl, Hlast. split; [done|]. split; [done|]. split; [done|].
      split; [|done]. destruct (steal_path p); [done|cbn; lia].
  - intros i l Hi. by apply (Hl i l).
  - intros i w Hi Hwr Hq. exfalso. apply Hq. unfold queue. cbn.
    destruct (gr_locales g' !! Z.to_nat i) as [l|] eqn:El; [|done]. destruct (Hl _ _ El) as [-> _].
    destruct (replicate _ _ !! _) as [d|] eqn:Edq; [|done]. by apply lookup_replicate in Edq as [-> _].
  - change (context_tasks (mkContext g' wps) = []). unfold context_tasks. cbn [hc_graph].
    assert (Forall (λ l, locale_tasks l = []) (gr_locales g')) as Ht.
    { apply Forall_lookup_2. intros i l Hi. unfold locale_tasks. destruct (Hl i l Hi) as [-> _].
      rewrite fmap_replicate, Hit0. generalize (Z.to_nat n). intros m. by induction m. }
    clear -Ht. induction Ht as [|l ls E _ IH]; [done|]. cbn. by rewrite E.
Qed.

(** ** Lemmas: the ranges of neighbours *)

Lemma deal_length owner cpuset index count rounds sets sets' :
  deal owner cpuset index count rounds sets = Ok sets' → length sets' = length sets.
Proof.
  revert index count sets. induction rounds as [|rounds IH]; intros index count sets H; cbn [deal] in H.
  { by injection H as ->. }
  case_bool_decide; [|by eapply IH]. apply bind_Ok in H as (w & _ & H). apply bind_Ok in H as (s & _ & H).
  apply bind_Ok in H as (sets1 & [-> _]%array_set_Ok & H). apply IH in H. by rewrite length_insert in H.
Qed.

Lemma intra_socket_bounds nodes n sets todo revert ranges :
  n = Z.of_nat (length sets) → intra_socket nodes n sets todo revert = Ok ranges →
  length ranges = length todo ∧ Forall (λ r, 0 <= r.1 <= r.2 ∧ r.2 <= n) ranges.
Proof.
  intros Hn. revert revert ranges. induction todo as [|s todo IH]; intros revert ranges H; cbn [intra_socket] in H.
  { by injection H as <-. }
  destruct (find_range nodes (nodes s) sets 0 (-1) (-1)) as [[base limit] several] eqn:Ef.
  apply bind_Ok in H as (range & Hr & H). apply bind_Ok in H as (rest & [Hl Hf]%IH & H). injection H as <-.
  split; [by cbn; rewrite Hl|]. constructor; [|done].
  destruct (revert || several) eqn:Er; [injection Hr as <-; cbn; lia|].
  apply bind_Ok in Hr as (? & Hb%hassert_Ok & Hr). injection Hr as <-. cbn.
  pose proof (find_range_ok nodes (nodes s) sets [] sets (-1) (-1) eq_refl) as Hso.
  change (Z.of_nat (length [])) with 0 in Hso. rewrite Ef in Hso.
  destruct Hso as [->|Hso]; [left; split; [done|]; split; [done|]; intros; lia|by rewrite orb_true_r in Er|].
  destruct (Z.ltb_spec limit 0); destruct Hso as [(? & ? & _)|[(? & ? & _)|(? & ? & _)]]; lia.
Qed.

Lemma cpusets_bounds nodes user cpuset n sets ranges :
  0 <= n → create_hwloc_cpusets nodes user cpuset n = Ok (sets, ranges) →
  Z.of_nat (length ranges) = n ∧ Forall (λ r, 0 <= r.1 <= r.2 ∧ r.2 <= n) ranges.
Proof.
  intros Hn H1. unfold create_hwloc_cpusets in H1. apply bind_Ok in H1 as (a & _ & H1).
  apply bind_Ok in H1 as (sets1 & Hp & H1). apply bind_Ok in H1 as (ranges1 & Hi & H1). injection H1 as <- <-.
  assert (Z.of_nat (length sets1) = n) as Hl.
  { unfold pin_workers in Hp. destruct a.
    - destruct (_ <? _); [done|]. apply deal_length in Hp. rewrite length_replicate in Hp. lia.
    - apply bind_Ok in Hp as (? & _ & Hp). apply bind_Ok in Hp as (? & _ & Hp). apply bind_Ok in Hp as (? & _ & Hp).
      apply deal_length in Hp. rewrite length_replicate in Hp. lia. }
  apply intra_socket_bounds in Hi as [Hlr Hb]; [|done]. by rewrite Hlr.
Qed.

Lemma pinned_workers hwloc s s' : pin_locality hwloc s = Ok s' → length (lc_workers s') = length (lc_workers s).
Proof.
  destruct hwloc as [[[nodes user] cpuset]|]; [|by intros [= <-]]. cbn [pin_locality]. intros H.
  apply bind_Ok in H as ([sets ranges] & [Hl _]%cpusets_bounds & H); [|lia]. injection H as <-. cbn.
  rewrite length_zip_with. lia.
Qed.

Lemma ready_pinned n paths hwloc s s' :
  Z.of_nat (length (lc_workers s)) = n →
  ready n paths s → pin_locality hwloc s = Ok s' → ready n paths s' ∧ pool_tasks s' = pool_tasks s.
Proof.
  intros Hn Hs H. destruct hwloc as [[[nodes user] cpuset]|]; [|by injection H as <-].
  cbn [pin_locality] in H. rewrite Hn in H. apply bind_Ok in H as ([sets ranges] & H1 & H). injection H as <-.
  apply cpusets_bounds in H1 as [Hlr Hb]; [|lia].
  destruct Hs as (Hc & Hpa & Hw & Hm & Hq). split; [|done].
  split; [done|]. split; [done|]. split; [|by split]. intros w Hwr.
  destruct (Hw w Hwr) as (ws & p & Hws & Hid & Hnw & Hwok & Hpok).
  destruct (lookup_lt_is_Some_2 ranges (Z.to_nat w)) as [r Hr]; [apply lookup_lt_Some in Hws; lia|].
  pose proof (Forall_lookup_1 _ _ _ _ Hb Hr) as Hrb. cbn in Hrb.
  exists (set_range ws r), p. cbn. split; [by rewrite lookup_zip_with, Hws, Hr|]. split; [done|]. split; [done|].
  destruct Hwok as (? & ? & ? & ?). split; [|done]. repeat split; cbn; lia.
Qed.

(** ** Lemmas: what the operations keep *)

(** The [reachable] flags. *)
Notation marks cx := (loc_reachable <$> gr_locales (hc_graph cx)).

Lemma with_deque_marks {A} cx locale wid (op : hclib_internal_deque_t → res (A * hclib_internal_deque_t)) r cx' :
  with_deque cx locale wid op = Ok (r, cx') → marks cx' = marks cx ∧ hc_worker_paths cx' = hc_worker_paths cx.
Proof.
  unfold with_deque. intros H. apply bind_Ok in H as (l & [_ Hl]%array_get_Ok & H).
  apply bind_Ok in H as (d & _ & H). apply bind_Ok in H as ([r1 d'] & _ & H).
  apply bind_Ok in H as (ds & _ & H). apply bind_Ok in H as (ls & [-> _]%array_set_Ok & H).
  injection H as _ <-. split; [|done]. cbn. rewrite list_fmap_insert. cbn. apply list_insert_id.
  by rewrite list_lookup_fmap, Hl.
Qed.

Lemma pop_along_marks cx wid path t cx' :
  pop_along cx wid path = Ok (t, cx') → marks cx' = marks cx ∧ hc_worker_paths cx' = hc_worker_paths cx.
Proof.
  revert cx. induction path as [|l path IH]; intros cx H; cbn [pop_along] in H; [by injection H as _ <-|].
  apply bind_Ok in H as ([t1 cx1] & [Hm Hp]%with_deque_marks & H).
  destruct (negb _); [by injection H as _ <-|]. rewrite <-Hm, <-Hp. by apply IH.
Qed.

Lemma steal_intra_marks cx locale li n j f cx' :
  steal_intra cx locale li n j = Ok (f, cx') → marks cx' = marks cx ∧ hc_worker_paths cx' = hc_worker_paths cx.
Proof.
  revert cx j. induction n as [|n IH]; intros cx j H; cbn [steal_intra] in H; [by injection H as _ <-|].
  apply bind_Ok in H as ([ts cx1] & [Hm Hp]%with_deque_marks & H).
  destruct ts; [|by injection H as _ <-]. rewrite <-Hm, <-Hp. by eapply IH.
Qed.

Lemma steal_leftover_marks cx ws locale li n j f cx' :
  steal_leftover cx ws locale li n j = Ok (f, cx') → marks cx' = marks cx ∧ hc_worker_paths cx' = hc_worker_paths cx.
Proof.
  revert cx j. induction n as [|n IH]; intros cx j H; cbn [steal_leftover] in H; [by injection H as _ <-|].
  apply bind_Ok in H as (k & _ & H). apply bind_Ok in H as (v & _ & H).
  apply bind_Ok in H as ([ts cx1] & [Hm Hp]%with_deque_marks & H).
  destruct ts; [|by injection H as _ <-]. rewrite <-Hm, <-Hp. by eapply IH.
Qed.

Lemma steal_along_marks cx ws steal last n i f cx' :
  steal_along cx ws steal last n i = Ok (f, cx') → marks cx' = marks cx.
Proof.
  revert cx i. induction n as [|n IH]; intros cx i H; cbn [steal_along] in H; [by injection H as _ <-|].
  apply bind_Ok in H as (k & _ & H). apply bind_Ok in H as (li & _ & H).
  apply bind_Ok in H as (l & _ & H). apply bind_Ok in H as (intra & _ & H).
  apply bind_Ok in H as ([f1 cx1] & [Hm _]%steal_intra_marks & H).
  destruct f1; [by injection H as _ <-|]. apply bind_Ok in H as (left & _ & H).
  apply bind_Ok in H as ([f2 cx2] & [Hm2 _]%steal_leftover_marks & H).
  destruct f2; [injection H as _ <-; congruence|]. apply IH in H. congruence.
Qed.

Lemma locale_steal_task_marks cx ws ts v cx' :
  locale_steal_task cx ws = Ok (ts, v, cx') → marks cx' = marks cx.
Proof.
  unfold locale_steal_task. intros H. apply bind_Ok in H as (p & _ & H).
  apply bind_Ok in H as ([f cx1] & Hm%steal_along_marks & H). destruct f as [l|]; [|by injection H as _ _ <-].
  apply bind_Ok in H as (cx2 & H2 & H). injection H as _ _ <-. rewrite <-Hm.
  unfold set_last_steal in H2. apply bind_Ok in H2 as (p' & _ & H2). apply bind_Ok in H2 as (ps & _ & H2).
  by injection H2 as <-.
Qed.

Lemma ready_keep n paths cx cx' ws :
  ready n paths (mkLocality cx ws) → context_ok n cx' → marks cx' = marks cx →
  paths_of (hc_worker_paths cx') = paths_of (hc_worker_paths cx) →
  (∀ w p', hc_worker_paths cx' !! w = Some p' →
     hc_worker_paths cx !! w = Some p' ∨ 0 <= last_successful_steal_locale p' < Z.of_nat (length (steal_path p'))) →
  (∀ i w, 0 <= i → 0 <= w → queue cx' i w ≠ [] → queue cx i w ≠ [] ∨ on_some_path (hc_worker_paths cx) i) →
  ready n paths (mkLocality cx' ws).
Proof.
  intros (_ & Hpa & Hw & Hm & Hq) Hok Hmarks Hp Hlast Hqs. cbn [lc_context lc_workers] in *.
  assert (n_locales (hc_graph cx') = n_locales (hc_graph cx)) as Hnl.
  { unfold n_locales. f_equal. apply (f_equal length) in Hmarks. by rewrite !length_fmap in Hmarks. }
  split; [done|]. split; [by rewrite <-Hpa|]. split; [|split]; cbn [lc_context lc_workers].
  - intros w Hwr. destruct (Hw w Hwr) as (v & p & Hv & Hid & Hnw & Hwok & (Hlp & H1 & H2 & H3 & H4)).
    assert ((paths_of (hc_worker_paths cx')) !! Z.to_nat (ws_id v) = Some (pop_path p, steal_path p)) as Hlp'
      by by rewrite Hp, list_lookup_fmap, Hlp.
    rewrite list_lookup_fmap in Hlp'. destruct (hc_worker_paths cx' !! Z.to_nat (ws_id v)) as [p'|] eqn:Ep; [|done].
    cbn in Hlp'. injection Hlp' as E1 E2. exists v, p'. split; [done|]. split; [done|]. split; [done|]. split; [done|].
    unfold worker_paths_ok. rewrite Ep, E1, E2, Hnl. split; [done|]. split; [done|]. split; [done|]. split; [|done].
    destruct (Hlast _ _ Ep) as [E|E]; [congruence|by rewrite E2 in E].
  - intros i l Hl. assert ((marks cx) !! i = Some (loc_reachable l)) as Hml
      by by rewrite <-Hmarks, list_lookup_fmap, Hl.
    apply list_lookup_fmap_Some_1 in Hml as (l0 & -> & Hl0). rewrite (Hm i l0 Hl0). f_equal.
    apply bool_decide_ext. symmetry. by apply on_some_path_paths.
  - intros i w Hi Hwr H. rewrite on_some_path_paths by done. destruct (Hqs i w Hi Hwr H); [by eapply Hq|done].
Qed.

(** Taking from a queue. *)
Lemma only_queue_shrinks cx cx' l w pre post i j :
  queue cx l w = pre ++ queue cx' l w ++ post → only_queue cx cx' l w → 0 <= i → 0 <= j →
  queue cx' i j ≠ [] → queue cx i j ≠ [].
Proof.
  intros Hq (_ & _ & Ho) Hi Hj H. destruct (decide ((i, j) = (l, w))) as [[= -> ->]|Hne].
  - rewrite Hq. by destruct pre, (queue cx' l w).
  - by rewrite <-Ho.
Qed.

Lemma ready_pop n paths s w :
  ready n paths s → 0 <= w < n → ∃ t s', locality_pop s w = Ok (t, s') ∧ ready n paths s'.
Proof.
  intros Hs Hw. pose proof Hs as (Hc & _ & Hws & _). destruct s as [cx wss]. cbn [lc_context lc_workers] in *.
  destruct (Hws w Hw) as (ws & p & Hl & Hid & Hnw & Hwok & Hpok).
  destruct (locale_pop_task_correct cx ws p) as (t & cx' & E & Hc' & Hcase); [by rewrite Hnw|done|done|].
  exists t, (mkLocality cx' wss). unfold locality_pop. cbn [lc_workers].
  rewrite (array_get_in wss w ws (proj1 Hw) Hl). cbn [mbind res_bind lc_context]. rewrite E. split; [done|].
  pose proof E as E'. unfold locale_pop_task in E'. apply bind_Ok in E' as (? & _ & [Hm Hp]%pop_along_marks).
  rewrite Hnw in Hc'. apply (ready_keep n paths cx); [done|done|done|by rewrite Hp|rewrite Hp; by left|].
  intros i j Hi Hj H. left. destruct Hcase as [(_ & _ & _ & _ & Hq)|(_ & l & _ & Hq & Ho)]; [by rewrite <-Hq|].
  by eapply (only_queue_shrinks cx cx' _ _ []).
Qed.

Lemma ready_steal n paths s w :
  ready n paths s → 0 <= w < n → ∃ ts s', locality_steal s w = Ok (ts, s') ∧ ready n paths s' ∧
    (ts = [] → ∀ ps l v, paths !! Z.to_nat w = Some ps → l ∈ ps.2 → 0 <= v < n → queue (lc_context s) l v = []).
Proof.
  intros Hs Hw. pose proof Hs as (Hc & Hpa & Hws & _). destruct s as [cx wss]. cbn [lc_context lc_workers] in *.
  destruct (Hws w Hw) as (ws & p & Hl & Hid & Hnw & Hwok & Hpok).
  destruct (locale_steal_task_correct cx ws p) as (ts & v & cx' & E & Hc' & Hcase); [by rewrite Hnw|done|done|].
  exists ts, (mkLocality cx' wss). unfold locality_steal. cbn [lc_workers].
  rewrite (array_get_in wss w ws (proj1 Hw) Hl). cbn [mbind res_bind lc_context]. rewrite E. split; [done|].
  apply locale_steal_task_marks in E. rewrite Hnw in Hc', Hcase. pose proof (proj1 Hpok) as Hlp. rewrite Hid in Hlp.
  assert (paths !! Z.to_nat w = Some (pop_path p, steal_path p)) as Hps by by rewrite <-Hpa, list_lookup_fmap, Hlp.
  destruct Hcase as [(_ & _ & (Hp & _ & Hq) & He)|(t & l & v' & p' & -> & _ & _ & Hin & Hv & Hq & Ho & Hp & Epop & Est & Hlast)].
  - split; [|intros _ ps l v' E2 Hl2 Hv'; rewrite Hps in E2; injection E2 as <-; by apply He].
    apply (ready_keep n paths cx); [done|done|done|by rewrite Hp|rewrite Hp; by left|].
    intros i j Hi Hj H. left. by rewrite <-Hq.
  - split; [|done]. rewrite Hid in Hp. pose proof (lookup_lt_Some _ _ _ Hlp).
    apply (ready_keep n paths cx); [done|done|done| | |].
    + rewrite Hp, list_fmap_insert. apply list_insert_id. by rewrite list_lookup_fmap, Hlp, Epop, Est.
    + intros k p1. rewrite Hp. intros [(_ & <- & _)|[_ ?]]%list_lookup_insert_Some; [right|by left].
      destruct Hlast as [? Hk]. apply lookup_lt_Some in Hk. rewrite Est. lia.
    + intros i j Hi Hj Hne0. left. destruct (decide ((i, j) = (l, v'))) as [[= -> ->]|Hne]; [by rewrite Hq|].
      by rewrite <-Ho.
Qed.

Lemma with_deque_pushed n cx locale wid t r cx' :
  context_ok n cx → t ≠ NULL → with_deque cx locale wid (λ deq, deque_push deq t) = Ok (r, cx') → r ≠ 0 →
  0 <= locale < n_locales (hc_graph cx) ∧ context_ok n cx' ∧ only_queue cx cx' locale wid.
Proof.
  intros Hok Ht H Hr. pose proof H as H0. unfold with_deque in H0.
  apply bind_Ok in H0 as (l & Hgl & H0). apply bind_Ok in H0 as (d & Hgd & H0).
  apply bind_Ok in H0 as ([r1 d'] & Hd & H0).
  assert (r1 = r) as -> by (apply bind_Ok in H0 as (? & _ & H0); apply bind_Ok in H0 as (? & _ & H0); congruence).
  clear H0. pose proof (proj1 (array_get_Ok _ _ _) Hgl) as [Hl Hll]. pose proof (proj1 (array_get_Ok _ _ _) Hgd) as [Hw Hdd].
  pose proof (lookup_lt_Some _ _ _ Hll) as Hll1. pose proof (lookup_lt_Some _ _ _ Hdd) as Hdd1.
  destruct (Forall_lookup_1 _ _ _ _ Hok Hll) as [Hlen Hds].
  destruct (Forall_lookup_1 _ _ _ _ Hds Hdd) as [Hdok Hdn].
  destruct (wq_push_inv d t r d' Hdok Hd Hr) as [Hdok' Hq].
  assert (with_deque cx locale wid (λ deq, deque_push deq t) = with_deque cx locale wid (λ _, Ok (r, d'))) as E.
  { unfold with_deque. rewrite Hgl. cbn [mbind res_bind]. rewrite Hgd. cbn [mbind res_bind].
    by rewrite Hd. }
  destruct (with_deque_spec n cx locale wid (λ _, Ok (r, d')) (λ _ _ _, True)) as (r2 & cx2 & E2 & Hok2 & Ho & _);
    [done|unfold n_locales; lia|lia| |].
  { intros _ _ _. exists r, d'. split; [done|]. split; [done|]. split; [|done]. rewrite Hq. apply Forall_app. by repeat constructor. }
  assert (cx2 = cx') as -> by congruence. unfold n_locales. split; [lia|done].
Qed.

Lemma ready_pushed n paths cx wss locale wid t r cx' l :
  ready n paths (mkLocality cx wss) → t ≠ NULL → gr_locales (hc_graph cx) !! Z.to_nat locale = Some l →
  loc_reachable l = Some true →
  with_deque cx locale wid (λ deq, deque_push deq t) = Ok (r, cx') → r ≠ 0 →
  ready n paths (mkLocality cx' wss).
Proof.
  intros Hs Ht Hl Hre H Hr. pose proof Hs as (Hok & _ & _ & Hm & _). cbn in Hok, Hm.
  destruct (with_deque_pushed n cx locale wid t r cx' Hok Ht H Hr) as (Hlr & Hok' & Ho).
  apply with_deque_marks in H as [Hmk Hp].
  apply (ready_keep n paths cx); [done|done|done|by rewrite Hp|rewrite Hp; by left|].
  intros i j Hi Hj Hne0. destruct (decide ((i, j) = (locale, wid))) as [[= -> ->]|Hne].
  - right. specialize (Hm _ _ Hl). rewrite Hre, Z2Nat.id in Hm by lia. symmetry in Hm. injection Hm as Hm.
    by apply bool_decide_eq_true in Hm.
  - left. destruct Ho as (_ & _ & Ho). by rewrite <-Ho.
Qed.

Lemma ready_push_locale n paths s w locale t r s' :
  ready n paths s → t ≠ NULL → locality_push_locale s w locale t = Ok (r, s') → r ≠ 0 → ready n paths s'.
Proof.
  intros Hs Ht H Hr. destruct s as [cx wss]. unfold locality_push_locale in H. cbn [lc_workers lc_context] in H.
  apply bind_Ok in H as (ws & _ & H). apply lift_context_Ok in H as (cx' & H & ->).
  unfold deque_push_locale in H. apply bind_Ok in H as (l & [_ Hl]%array_get_Ok & H).
  apply bind_Ok in H as (re & Hre & H). apply bind_Ok in H as (? & ->%hassert_Ok & H).
  destruct (loc_reachable l) as [[]|] eqn:El; [|done..]. eapply (ready_pushed n paths cx wss _ _ t r cx' l); done.
Qed.

Lemma ready_push_default n paths s w t r s' :
  ready n paths s → t ≠ NULL → locality_push_default s w t = Ok (r, s') → r ≠ 0 → ready n paths s'.
Proof.
  intros Hs Ht H Hr. destruct s as [cx wss]. unfold locality_push_default in H. cbn [lc_workers lc_context] in H.
  apply bind_Ok in H as (l & [_ Hl]%array_get_Ok & H). apply bind_Ok in H as (re & Hre & H).
  apply bind_Ok in H as (? & ->%hassert_Ok & H). apply lift_context_Ok in H as (cx' & H & ->).
  destruct (loc_reachable l) as [[]|] eqn:El; [|done..]. eapply (ready_pushed n paths cx wss _ _ t r cx' l); done.
Qed.

Lemma ready_pool_ok n paths s : ready n paths s → pool_ok s.
Proof.
  intros (Hok & _). split.
  - eapply Forall_impl; [exact Hok|]. intros l [_ Hd]. eapply Forall_impl; [exact Hd|]. by intros d [? _].
  - apply Forall_concat, Forall_fmap. eapply Forall_impl; [exact Hok|]. intros l [_ Hd]. cbn. unfold locale_tasks.
    apply Forall_concat, Forall_fmap. eapply Forall_impl; [exact Hd|]. by intros d [_ ?].
Qed.

Lemma elem_of_concat (x : Z) ls : x ∈ concat ls ↔ ∃ l, l ∈ ls ∧ x ∈ l.
Proof. rewrite list_elem_of_In, in_concat. by setoid_rewrite list_elem_of_In. Qed.

(** A queued task is in a queue that some path visits. *)
Lemma ready_tasks n paths s :
  ready n paths s → pool_tasks s ≠ [] →
  ∃ i w, 0 <= i ∧ 0 <= w < n ∧ queue (lc_context s) i w ≠ [] ∧ on_some_path (hc_worker_paths (lc_context s)) i.
Proof.
  intros (Hok & _ & _ & _ & Hq) Ht.
  assert (∃ i w, 0 <= i ∧ 0 <= w < n ∧ queue (lc_context s) i w ≠ []) as (i & w & Hi & Hw & Hne).
  { change (context_tasks (lc_context s) ≠ []) in Ht. unfold context_tasks in Ht.
    destruct (concat _) as [|t ts] eqn:E; [done|]. clear Ht.
    assert (t ∈ concat (locale_tasks <$> gr_locales (hc_graph (lc_context s)))) as Ht by (rewrite E; by left).
    apply elem_of_concat in Ht as (q & (l & -> & [i Hl]%list_elem_of_lookup)%list_elem_of_fmap & Ht).
    unfold locale_tasks in Ht. apply elem_of_concat in Ht as (q & (d & -> & [w Hd]%list_elem_of_lookup)%list_elem_of_fmap & Ht).
    exists (Z.of_nat i), (Z.of_nat w). destruct (Forall_lookup_1 _ _ _ _ Hok Hl) as [Hlen _].
    pose proof (lookup_lt_Some _ _ _ Hd). split; [lia|]. split; [lia|]. unfold queue.
    rewrite Nat2Z.id, Hl, Nat2Z.id, Hd. intros E2. rewrite E2 in Ht. by apply elem_of_nil in Ht. }
  exists i, w. split; [done|]. split; [done|]. split; [done|]. apply (Hq i w); [done|lia|done].
Qed.

(** ** Abstract specification: tasks in, tasks out *)

(** Workers use the queues in any order: [pushed] are the tasks that were queued,
    [taken] those that a search has found. *)
Inductive used (n : Z) (s0 : locality) : list Z → list Z → locality → Prop :=
  | used_start : used n s0 [] [] s0
  | used_push_locale pushed taken s w locale t r s' :
      used n s0 pushed taken s → 0 <= w < n → t ≠ NULL →
      locality_push_locale s w locale t = Ok (r, s') → r ≠ 0 → used n s0 (t :: pushed) taken s'
  | used_push_default pushed taken s w t r s' :
      used n s0 pushed taken s → 0 <= w < n → t ≠ NULL →
      locality_push_default s w t = Ok (r, s') → r ≠ 0 → used n s0 (t :: pushed) taken s'
  | used_pop pushed taken s w t s' :
      used n s0 pushed taken s → 0 <= w < n → locality_pop s w = Ok (t, s') →
      used n s0 pushed ((if t =? NULL then [] else [t]) ++ taken) s'
  | used_steal pushed taken s w ts s' :
      used n s0 pushed taken s → 0 <= w < n → locality_steal s w = Ok (ts, s') →
      used n s0 pushed (ts ++ taken) s'.

(** Every locale on a path is on a steal path. *)
Definition stealable (wps : list hclib_worker_paths) : Prop :=
  ∀ i, on_some_path wps i → Exists (λ p, i ∈ steal_path p) wps.

(** As in the files that come with the library, and in the generated graph. *)
Lemma same_paths_stealable wps : Forall (λ p, pop_path p = steal_path p) wps → stealable wps.
Proof.
  intros H i. unfold on_some_path. rewrite !Exists_exists. intros (p & Hp & Hi). exists p. split; [done|].
  rewrite (proj1 (Forall_forall _ _) H p Hp) in Hi. by destruct Hi.
Qed.

Lemma used_ready n paths s0 pushed taken s :
  ready n paths s0 → pool_tasks s0 = [] → used n s0 pushed taken s →
  ready n paths s ∧ pushed ≡ₚ taken ++ pool_tasks s.
Proof.
  intros H0 Ht0 H. induction H as [|pushed taken s w l t r s' _ [Hs Ht] Hw Hn E Hr|pushed taken s w t r s' _ [Hs Ht] Hw Hn E Hr
    |pushed taken s w t s' _ [Hs Ht] Hw E|pushed taken s w ts s' _ [Hs Ht] Hw E].
  - by rewrite Ht0.
  - split; [by apply (ready_push_locale n paths s w l t r)|].
    destruct (pool_push_locale_law s w l t r s') as [_ ->]; [by apply (ready_pool_ok n paths)|done..|]. rewrite Ht. solve_Permutation.
  - split; [by apply (ready_push_default n paths s w t r)|].
    destruct (pool_push_default_law s w t r s') as [_ ->]; [by apply (ready_pool_ok n paths)|done..|]. rewrite Ht. solve_Permutation.
  - destruct (ready_pop n paths s w Hs Hw) as (t1 & s1 & E1 & Hs1). rewrite E in E1. injection E1 as <- <-.
    split; [done|]. destruct (pool_pop_law s w t s') as [_ Hp]; [by apply (ready_pool_ok n paths)|done|]. rewrite Ht, Hp. solve_Permutation.
  - destruct (ready_steal n paths s w Hs Hw) as (t1 & s1 & E1 & Hs1 & _). rewrite E in E1. injection E1 as <- <-.
    split; [done|]. destruct (pool_steal_law s w ts s') as [_ Hp]; [by apply (ready_pool_ok n paths)|done|]. rewrite Ht, Hp. solve_Permutation.
Qed.

(** While a task is queued, some worker's search finds one. *)
Lemma ready_found n wps s :
  ready n (paths_of wps) s → Z.of_nat (length wps) = n → stealable wps → pool_tasks s ≠ [] →
  ∃ w ts s', 0 <= w < n ∧ locality_steal s w = Ok (ts, s') ∧ ts ≠ [].
Proof.
  intros Hs Hn Hst Ht. destruct (ready_tasks _ _ _ Hs Ht) as (i & v & Hi & Hv & Hne & Hon).
  pose proof Hs as (_ & Hp & _). rewrite (on_some_path_paths _ wps i Hp) in Hon.
  apply Hst, Exists_exists in Hon as (p & [w Hw]%list_elem_of_lookup & Hin). pose proof (lookup_lt_Some _ _ _ Hw).
  destruct (ready_steal n _ s (Z.of_nat w) Hs) as (ts & s' & E & _ & He); [lia|].
  exists (Z.of_nat w), ts, s'. split; [lia|]. split; [done|]. intros ->.
  apply Hne, (He eq_refl (pop_path p, steal_path p)); [|done|done].
  by rewrite Nat2Z.id, list_lookup_fmap, Hw.
Qed.

Lemma started_ready run_populate ls file junk workers nprocessors s0 n :
  (∀ f l l', run_populate f l = Ok l' →
     loc_id l' = loc_id l ∧ loc_lbl l' = loc_lbl l ∧ loc_deques l' = loc_deques l) →
  (∀ contents, file = Some (Some contents) → Z.of_nat (length contents) < INT_MAX) →
  hclib_global_init run_populate ls file junk workers nprocessors = Ok s0 →
  Z.of_nat (length (lc_workers s0)) = n → 2 * n <= INT_MAX →
  Forall (λ p, 2 * Z.of_nat (length (steal_path p)) <= INT_MAX) (hc_worker_paths (lc_context s0)) →
  ready n (paths_of (hc_worker_paths (lc_context s0))) s0 ∧ pool_tasks s0 = [] ∧
  Z.of_nat (length (hc_worker_paths (lc_context s0))) = n.
Proof.
  intros Hpop Hfile H Hn Hmax Hst. unfold hclib_global_init in H.
  apply bind_Ok in H as ([[n' g] wps] & H1 & H). apply bind_Ok in H as (g' & Hg & H). injection H as <-.
  cbn [lc_context lc_workers hc_worker_paths] in *. rewrite length_fmap, length_seqZ in Hn.
  assert (loaded n' g wps) as Hl.
  { destruct file as [[contents|]|]; [|done|by eapply generated_loaded].
    eapply file_loaded; [done|by apply Hfile|done]. }
  pose proof Hl as (Hn' & _ & Hw & _). assert (n' = n) as -> by lia.
  destruct (ready_init n g wps g' Hl Hmax Hst Hg) as [Hr Ht]. done.
Qed.

(** ** Properties *)

(** C38: What initialisation leaves serves the workers for the whole run.  After the
    graph has been loaded or generated, checked, and the workers created and
    pinned, and after any pushes, pops and steals: a search for work never faults;
    the tasks that were pushed are those that were taken and those that are queued,
    each as often; and, if every locale on a pop path is also on a steal path, then
    while a task is queued there is a worker whose search finds one. *)
Theorem startup_serves_workers run_populate ls file junk workers nprocessors hwloc s0 s1 n pushed taken s :
  (∀ f l l', run_populate f l = Ok l' →
     loc_id l' = loc_id l ∧ loc_lbl l' = loc_lbl l ∧ loc_deques l' = loc_deques l) →
  (∀ contents, file = Some (Some contents) → Z.of_nat (length contents) < INT_MAX) →
  hclib_global_init run_populate ls file junk workers nprocessors = Ok s0 →
  Z.of_nat (length (lc_workers s0)) = n → 2 * n <= INT_MAX →
  Forall (λ p, 2 * Z.of_nat (length (steal_path p)) <= INT_MAX) (hc_worker_paths (lc_context s0)) →
  pin_locality hwloc s0 = Ok s1 → used n s1 pushed taken s →
  (∀ w, 0 <= w < n → (∃ t s', locality_pop s w = Ok (t, s')) ∧ ∃ ts s', locality_steal s w = Ok (ts, s')) ∧
  pushed ≡ₚ taken ++ pool_tasks s ∧
  (stealable (hc_worker_paths (lc_context s0)) → pool_tasks s ≠ [] →
   ∃ w ts s', 0 <= w < n ∧ locality_steal s w = Ok (ts, s') ∧ ts ≠ []).
Proof.
  intros Hpop Hfile H Hn Hmax Hst Hpin Hu.
  destruct (started_ready _ _ _ _ _ _ _ _ Hpop Hfile H Hn Hmax Hst) as (Hr & Ht & Hl).
  destruct (ready_pinned _ _ _ _ _ Hn Hr Hpin) as [Hr1 Ht1]. rewrite Ht in Ht1.
  destruct (used_ready _ _ _ _ _ _ Hr1 Ht1 Hu) as [Hs Hp]. split; [|split; [done|]].
  - intros w Hw. destruct (ready_pop _ _ _ _ Hs Hw) as (t & s2 & E & _).
    destruct (ready_steal _ _ _ _ Hs Hw) as (ts & s3 & E' & _). split; [by exists t, s2|by exists ts, s3].
  - by apply ready_found.
Qed.

(** ** Witness and example *)

(** The generated graph for two workers, pinned to two nodes. *)
Definition two_workers : res locality :=
  hclib_global_init (λ _ l, Ok l) two_core_types None no_token (Some (chars "2")) 8.

Definition two_workers_pinned : res locality :=
  s ← two_workers; pin_locality (Some (two_nodes, None, {[0; 3]})) s.

(** Worker 0 queues task 9 at its own locale. *)
Definition one_task : res locality :=
  s ← two_workers_pinned; '(_, s) ← locality_push_locale s 0 1 9; Ok s.

Lemma startup_serves_workers_witness :
  ∃ s, one_task = Ok s ∧ pool_tasks s = [9] ∧
    ∃ w ts s', 0 <= w < 2 ∧ locality_steal s w = Ok (ts, s') ∧ ts ≠ [].
Proof.
  destruct two_workers as [s0|] eqn:E0; [|by vm_compute in E0].
  destruct two_workers_pinned as [s1|] eqn:E1; [|by vm_compute in E1].
  destruct (locality_push_locale s1 0 1 9) as [[r s]|] eqn:E2;
    [|exfalso; clear -E1 E2; vm_compute in E1; injection E1 as <-; by vm_compute in E2].
  assert (r = 1 ∧ pool_tasks s = [9]) as [-> Ht].
  { clear -E1 E2. vm_compute in E1. injection E1 as <-. vm_compute in E2. injection E2 as <- <-. by vm_compute. }
  exists s. split; [unfold one_task; rewrite E1; cbn [mbind res_bind]; by rewrite E2|]. split; [done|].
  pose proof (startup_serves_workers (λ _ l, Ok l) two_core_types None no_token (Some (chars "2")) 8
    (Some (two_nodes, None, {[0; 3]})) s0 s1 2 [9] [] s) as H.
  destruct H as (_ & _ & H).
  - by intros f l l' [= <-].
  - done.
  - exact E0.
  - clear -E0. vm_compute in E0. by injection E0 as <-.
  - unfold INT_MAX. lia.
  - clear -E0. vm_compute in E0. injection E0 as <-. repeat constructor; vm_compute; discriminate.
  - clear -E0 E1. unfold two_workers_pinned in E1. by rewrite E0 in E1.
  - eapply used_push_locale; [apply used_start|..|exact E2|]; done.
  - apply H; [|by rewrite Ht]. apply same_paths_stealable. clear -E0. vm_compute in E0. injection E0 as <-.
    by repeat constructor.
Defined.

Definition pop_only : res locality :=
  hclib_global_init (λ _ l, Ok l) two_core_types (Some (Some two_cores)) no_token None 8.

(** With a locale that is only on a pop path the assertion of [deque_push_locale]
    passes for every worker, but a task that another worker queues there is never
    found: each search finds nothing and changes nothing. *)
Example pop_only_task_stranded :
  ∃ s0 s, pop_only = Ok s0 ∧ ¬ stealable (hc_worker_paths (lc_context s0)) ∧
    locality_push_locale s0 1 1 9 = Ok (1, s) ∧ pool_tasks s = [9] ∧
    ∀ w, 0 <= w < 2 → locality_pop s w = Ok (NULL, s) ∧ locality_steal s w = Ok ([], s).
Proof.
  destruct pop_only as [s0|] eqn:E0; [|by vm_compute in E0].
  destruct (locality_push_locale s0 1 1 9) as [[r s]|] eqn:E2;
    [|exfalso; vm_compute in E0; injection E0 as <-; by vm_compute in E2].
  exists s0, s. vm_compute in E0. injection E0 as <-. vm_compute in E2. injection E2 as <- <-.
  split; [done|]. split; [|split; [done|split; [done|]]].
  - intros H. specialize (H 1). assert (Exists (λ p, 1 ∈ steal_path p) [mkPaths [1; 0] [0] 0; mkPaths [2; 0] [0] 0]) as H1.
    { apply H. left. left. cbn. by left. }
    rewrite !Exists_cons, Exists_nil in H1. cbn in H1. rewrite !list_elem_of_singleton in H1. lia.
  - intros w Hw. assert (w = 0 ∨ w = 1) as [-> | ->] by lia; split; by vm_compute.
Qed.
