(* ===== verification/Runtime.v ===== *)
(** * The runtime: tasks, promises, finish scopes, contexts and workers

    [src/src/hclib-runtime.c], [src/src/hclib-promise.c] and the async part of
    [src/src/hclib.c] as a machine: each worker runs the frames of its current
    lightweight context one action at a time, and the workers interleave in any
    order.  One action is one call of the runtime (a spawn, a put, one round of
    looking for work); the compare-and-swap loops inside a call are the subject
    of [PromiseConc] and [DequeConc]. *)

From S2P Require Import Prelude Deque Pool.
From stdpp Require Import options.

(** ** Programs *)

(** What a user function does, as the sequence of its calls of the runtime and
    of other code; a value that is returned goes to the continuation.  A locale is [None] for
    [NULL]; a future is the address of its promise ([future->owner]).  The last ones
    are the C++ calls, which have the non-blocking flag and futures in one, and the
    accesses of memory that tasks share: an object of one value that is allocated,
    read, written and freed. *)
Inductive code : Type :=
  | Return (v : Z)
  | Async (fp : code) (futures : list Z) (locale : option Z) (k : code)
  | Async_nb (fp : code) (locale : option Z) (k : code)
  | Async_future (fp : code) (futures : list Z) (locale : option Z) (k : Z → code)
  | Start_finish (k : code)
  | End_finish (k : code)
  | End_finish_nonblocking (k : Z → code)
  | Promise_create (k : Z → code)
  | Promise_put (promise datum : Z) (k : code)
  | Future_is_satisfied (future : Z) (k : Z → code)
  | Future_get (future : Z) (k : Z → code)
  | Future_wait (future : Z) (k : Z → code)
  | Yield (locale : option Z) (k : code)
  | Call (fptr : Z) (args : list Z) (k : Z → code)
  | Abort (f : fault)
  | Cpp_async (fp : code) (futures : list Z) (locale : option Z) (nb : bool) (k : code)
  | Cpp_async_future (fp : code) (futures : list Z) (locale : option Z) (nb : bool) (k : Z → code)
  | Current_worker (k : Z → code)
  | Cell_new (k : Z → code)
  | Cell_get (cell : Z) (k : Z → code)
  | Cell_set (cell v : Z) (k : code)
  | Cell_free (cell : Z) (k : code).

(** A call of code that is not the runtime's, such as a module's callback: the
    function and its arguments. *)
Notation extern_call := (Z * list Z)%type.

(** What such code returns, after the calls made before it. *)
Class Externs := extern : list extern_call → Z → list Z → Z.

(** Nothing that returns a value. *)
#[export] Instance no_externs : Externs := λ _ _ _, NULL.

(** A function pointer with its argument: a user function, [future_caller] on
    its wrapper, or [_finish_ctx_resume] on the context to resume. *)
Inductive fn : Type :=
  | User (c : code)
  | Future_caller (event : Z) (c : code)
  | Finish_ctx_resume (ctx : Z).

(** ** Data *)

(** src/inc/hclib-promise.h:62-62 (MAX_NUM_WAITS) *)
Definition MAX_NUM_WAITS : Z := 4.

(** src/src/inc/hclib-internal.h:77-77 (UNINITIALIZED_PROMISE_DATA_PTR) *)
Definition UNINITIALIZED_PROMISE_DATA_PTR : Z := NULL.

(** src/src/inc/hclib-internal.h:80-80 (SATISFIED_FUTURE_WAITLIST_PTR) *)
Definition SATISFIED_FUTURE_WAITLIST_PTR : Z := NULL.

(** src/src/inc/hclib-internal.h:81-81 (SENTINEL_FUTURE_WAITLIST_PTR) *)
Definition SENTINEL_FUTURE_WAITLIST_PTR : Z := -1.

(** [waiting_on_extra] is [None] for [NULL].

    src/inc/hclib-task.h:32-44 (hclib_task_t) *)
Record hclib_task_t := mkTask {
  t_fp : fn;
  t_finish : Z;
  waiting_on : list Z;
  waiting_on_extra : option (list Z);
  waiting_on_index : Z;
  t_locale : option Z;
  non_blocking : bool;
  next_waiter : Z
}.

(** src/inc/hclib-promise.h:76-90 (hclib_promise_t) *)
Record hclib_promise_t := mkPromise {
  satisfied : Z;
  datum : Z;
  wait_list_head : Z
}.

(** [finish_dep] is the future, or [NULL].

    src/src/inc/hclib-finish.h:6-10 (finish_t) *)
Record finish_t := mkFinish {
  parent : Z;
  counter : Z;
  finish_dep : Z
}.

(** Where [find_and_run_task] looks to know that it can stop. *)
Inductive flag_ref :=
  | Flag_done (wid : Z)
  | Flag_satisfied (promise : Z)
  | Flag_counter (finish : Z).

(** What a context does next.  [ws] is a worker pointer held in a C local
    variable, which is not always the worker that runs the context. *)
Inductive control :=
  | Run (c : code)
  | Ret (v : Z)
  | Exec (task : Z)
  | Find (ws : Z) (on_fresh_ctx : bool) (flag : flag_ref) (current_finish : Z) (stealing : bool)
  | Core_loop
  | Help_loop (ws finish task : Z) (k : code)
  | Help_resumed (finish task promise : Z) (k : code)
  | Wait_loop (ws future finish task : Z) (k : Z → code)
  | Wait_resumed (future finish task : Z) (k : Z → code)
  | Yield_loop (finish task : Z) (locale : option Z) (k : code)
  | Yield_resumed (finish task : Z) (k : code)
  | Help_finish_ctx (finish starting_task : Z)
  | Help_wait (continuation_dep starting_task : Z)
  | Yield_helper (starting_task : Z) (locale : option Z)
  | Abandoned
  | Exited.

(** A C function that waits for the one above it on the stack to return. *)
Inductive frame :=
  | F_execute (task finish : Z)
  | F_future_caller (event : Z)
  | F_find
  | F_core_start
  | F_core (wid : Z)
  | F_help (ws finish task : Z) (k : code)
  | F_wait (ws future finish task : Z) (k : Z → code)
  | F_yield (finish task : Z) (locale : option Z) (k : code)
  | F_finalize.

(** A context: its stack, innermost call first, and the context that swapped it
    in.

    src/src/inc/litectx.h:33-49 (LiteCtx) *)
Record LiteCtx := mkCtx { ctl : control; frames : list frame; prev : Z }.

(** src/inc/hclib-rt.h:80-111 (hclib_worker_state) *)
Record hclib_worker_state := mkWs {
  current_finish : Z;
  curr_task : Z;
  curr_ctx : Z
}.

(** The memory of the process.  An address is never reused: [brk] is the next
    free one.  [self] is the worker of the running thread; [calls] are the calls
    of other code so far; [cells] are the objects of the program, [None] until
    they are written.

    src/src/inc/hclib-internal.h:92-105 (hclib_context) *)
Record rt (S : Type) := mkRt {
  pool : S;
  tasks : gmap Z hclib_task_t;
  promises : gmap Z hclib_promise_t;
  finishes : gmap Z finish_t;
  ctxs : gmap Z LiteCtx;
  workers : gmap Z hclib_worker_state;
  done_flags : gmap Z Z;
  brk : Z;
  self : Z;
  calls : list extern_call;
  cells : gmap Z (option Z)
}.
Arguments mkRt {S}. Arguments pool {S}. Arguments tasks {S}. Arguments promises {S}.
Arguments finishes {S}. Arguments ctxs {S}. Arguments workers {S}. Arguments done_flags {S}.
Arguments brk {S}. Arguments self {S}. Arguments calls {S}. Arguments cells {S}.

Definition set_pool {S} (p : S) (s : rt S) : rt S :=
  mkRt p (tasks s) (promises s) (finishes s) (ctxs s) (workers s) (done_flags s) (brk s) (self s) (calls s) (cells s).
Definition set_tasks {S} (m : gmap Z hclib_task_t) (s : rt S) : rt S :=
  mkRt (pool s) m (promises s) (finishes s) (ctxs s) (workers s) (done_flags s) (brk s) (self s) (calls s) (cells s).
Definition set_promises {S} (m : gmap Z hclib_promise_t) (s : rt S) : rt S :=
  mkRt (pool s) (tasks s) m (finishes s) (ctxs s) (workers s) (done_flags s) (brk s) (self s) (calls s) (cells s).
Definition set_finishes {S} (m : gmap Z finish_t) (s : rt S) : rt S :=
  mkRt (pool s) (tasks s) (promises s) m (ctxs s) (workers s) (done_flags s) (brk s) (self s) (calls s) (cells s).
Definition set_ctxs {S} (m : gmap Z LiteCtx) (s : rt S) : rt S :=
  mkRt (pool s) (tasks s) (promises s) (finishes s) m (workers s) (done_flags s) (brk s) (self s) (calls s) (cells s).
Definition set_workers {S} (m : gmap Z hclib_worker_state) (s : rt S) : rt S :=
  mkRt (pool s) (tasks s) (promises s) (finishes s) (ctxs s) m (done_flags s) (brk s) (self s) (calls s) (cells s).
Definition set_flags {S} (m : gmap Z Z) (s : rt S) : rt S :=
  mkRt (pool s) (tasks s) (promises s) (finishes s) (ctxs s) (workers s) m (brk s) (self s) (calls s) (cells s).
Definition set_brk {S} (b : Z) (s : rt S) : rt S :=
  mkRt (pool s) (tasks s) (promises s) (finishes s) (ctxs s) (workers s) (done_flags s) b (self s) (calls s) (cells s).
Definition set_self {S} (w : Z) (s : rt S) : rt S :=
  mkRt (pool s) (tasks s) (promises s) (finishes s) (ctxs s) (workers s) (done_flags s) (brk s) w (calls s) (cells s).
Definition set_calls {S} (l : list extern_call) (s : rt S) : rt S :=
  mkRt (pool s) (tasks s) (promises s) (finishes s) (ctxs s) (workers s) (done_flags s) (brk s) (self s) l (cells s).
Definition set_cells {S} (m : gmap Z (option Z)) (s : rt S) : rt S :=
  mkRt (pool s) (tasks s) (promises s) (finishes s) (ctxs s) (workers s) (done_flags s) (brk s) (self s)
    (calls s) m.

(** ** A state monad over that memory *)

Definition M (S A : Type) : Type := rt S → res (A * rt S).

#[export] Instance M_ret {S} : MRet (M S) := λ A a s, Ok (a, s).
#[export] Instance M_bind {S} : MBind (M S) := λ A B k m s,
  match m s with Ok (a, s) => k a s | Err f => Err f end.

Definition gets {S A} (f : rt S → A) : M S A := λ s, Ok (f s, s).
Definition modify {S} (f : rt S → rt S) : M S unit := λ s, Ok (tt, f s).
Definition lift {S A} (r : res A) : M S A := λ s, match r with Ok a => Ok (a, s) | Err f => Err f end.
Definition fail {S A} (f : fault) : M S A := λ _, Err f.
Definition assert {S} (b : bool) : M S unit := lift (hassert b).

(** The [n]-th call runs only when the test holds. *)
Definition when {S} (b : bool) (m : M S unit) : M S unit := if b then m else mret tt.

Section operations.
Context {S : Type} `{!TaskPool S} {EX : Externs}.

(** ** Memory accesses *)

Definition get {A} (m : rt S → gmap Z A) (a : Z) : M S A := λ s,
  match m s !! a with Some v => Ok (v, s) | None => Err BadDeref end.

Definition get_task : Z → M S hclib_task_t := get tasks.
Definition get_promise : Z → M S hclib_promise_t := get promises.
Definition get_finish : Z → M S finish_t := get finishes.
Definition get_ctx : Z → M S LiteCtx := get ctxs.
Definition get_ws : Z → M S hclib_worker_state := get workers.

Definition put_task (a : Z) (v : hclib_task_t) : M S unit :=
  modify (λ s, set_tasks (<[a := v]> (tasks s)) s).
Definition put_promise (a : Z) (v : hclib_promise_t) : M S unit :=
  modify (λ s, set_promises (<[a := v]> (promises s)) s).
Definition put_finish (a : Z) (v : finish_t) : M S unit :=
  modify (λ s, set_finishes (<[a := v]> (finishes s)) s).
Definition put_ctx (a : Z) (v : LiteCtx) : M S unit :=
  modify (λ s, set_ctxs (<[a := v]> (ctxs s)) s).
Definition put_ws (a : Z) (v : hclib_worker_state) : M S unit :=
  modify (λ s, set_workers (<[a := v]> (workers s)) s).

Definition malloc : M S Z := λ s, Ok (brk s, set_brk (brk s + 1) s).

Definition new_task (fp : fn) : M S Z :=
  t ← malloc;
  _ ← put_task t (mkTask fp NULL (replicate (Z.to_nat MAX_NUM_WAITS) NULL) None 0 None false NULL);
  mret t.

Definition free_task (t : Z) : M S unit :=
  _ ← get_task t; modify (λ s, set_tasks (delete t (tasks s)) s).
Definition free_finish (f : Z) : M S unit :=
  _ ← get_finish f; modify (λ s, set_finishes (delete f (finishes s)) s).

Definition with_pool {A} (op : S → res (A * S)) : M S A := λ s,
  match op (pool s) with Ok (a, p) => Ok (a, set_pool p s) | Err f => Err f end.

(** [CURRENT_WS_INTERNAL] *)
Definition current_ws : M S hclib_worker_state := w ← gets self; get_ws w.

Definition set_scope (finish task : Z) : M S unit :=
  w ← gets self;
  ws ← get_ws w;
  put_ws w (mkWs finish task (curr_ctx ws)).

(** ** Promises *)

(** src/src/hclib-promise.c:58-63 (hclib_promise_init) *)
Definition hclib_promise_init (promise : Z) : M S unit :=
  put_promise promise (mkPromise 0 UNINITIALIZED_PROMISE_DATA_PTR SENTINEL_FUTURE_WAITLIST_PTR).

(** src/src/hclib-promise.c:68-73 (hclib_promise_create) *)
Definition hclib_promise_create : M S Z :=
  promise ← malloc;
  _ ← hclib_promise_init promise;
  mret promise.

(** src/src/hclib-promise.c:87-91 (hclib_promise_create_n) *)
Fixpoint create_loop (n : nat) : M S (list Z) :=
  match n with
  | O => mret []
  | Datatypes.S n => p ← hclib_promise_create; ps ← create_loop n; mret (p :: ps)
  end.

(** src/src/hclib-promise.c:82-96 (hclib_promise_create_n) *)
Definition hclib_promise_create_n (nb_promises : Z) (null_terminated : bool) : M S (list Z) :=
  let lg := if null_terminated then nb_promises - 1 else nb_promises in
  ps ← create_loop (Z.to_nat lg);
  mret (if null_terminated then ps ++ [NULL] else ps).

(** src/src/hclib-promise.c:102-105 (hclib_future_get) *)
Definition hclib_future_get (future : Z) : M S Z :=
  p ← get_promise future;
  _ ← assert (negb (satisfied p =? 0));
  mret (datum p).

(** src/src/hclib-promise.c:127-129 (hclib_promise_free) *)
Definition hclib_promise_free (promise : Z) : M S unit :=
  _ ← get_promise promise; modify (λ s, set_promises (delete promise (promises s)) s).

(** src/src/hclib-promise.c:117-120 (hclib_promise_free_n) *)
Fixpoint free_loop (ps : list Z) : M S unit :=
  match ps with
  | [] => mret tt
  | p :: ps => _ ← hclib_promise_free p; free_loop ps
  end.

(** src/src/hclib-promise.c:113-122 (hclib_promise_free_n) *)
Definition hclib_promise_free_n (ps : list Z) (nb_promises : Z) (null_terminated : bool)
    : M S unit :=
  let lg := if null_terminated then nb_promises - 1 else nb_promises in
  free_loop (take (Z.to_nat lg) ps).

(** Returns whether the task is now waiting; the compare-and-swap succeeds the
    first time because the call is one action.

    src/src/hclib-promise.c:132-166 (_register_if_promise_not_ready) *)
Definition _register_if_promise_not_ready (task future_to_check : Z) : M S bool :=
  _ ← assert (negb (task =? SENTINEL_FUTURE_WAITLIST_PTR));
  p ← get_promise future_to_check;
  if negb (wait_list_head p =? SATISFIED_FUTURE_WAITLIST_PTR) then
    t ← get_task task;
    _ ← put_task task (mkTask (t_fp t) (t_finish t) (waiting_on t) (waiting_on_extra t)
          (waiting_on_index t) (t_locale t) (non_blocking t) (wait_list_head p));
    _ ← put_promise future_to_check (mkPromise (satisfied p) (datum p) task);
    mret true
  else mret false.

Definition set_waiting_on_index (task i : Z) : M S unit :=
  t ← get_task task;
  put_task task (mkTask (t_fp t) (t_finish t) (waiting_on t) (waiting_on_extra t) i
    (t_locale t) (non_blocking t) (next_waiter t)).

(** Returns whether the loop ran to its end.

    src/src/hclib-promise.c:172-180 (register_on_all_promise_dependencies) *)
Fixpoint register_inline (fuel : nat) (task : Z) : M S bool :=
  match fuel with
  | O => fail OutOfFuel
  | Datatypes.S fuel =>
      t ← get_task task;
      if waiting_on_index t <? MAX_NUM_WAITS - 1 then
        _ ← set_waiting_on_index task (waiting_on_index t + 1);
        curr ← lift (array_get (waiting_on t) (waiting_on_index t + 1));
        if negb (curr =? NULL) then
          registered ← _register_if_promise_not_ready task curr;
          if (registered : bool) then mret false else register_inline fuel task
        else register_inline fuel task
      else mret true
  end.

(** src/src/hclib-promise.c:183-191 (register_on_all_promise_dependencies) *)
Fixpoint register_extra (fuel : nat) (task : Z) (extra : list Z) : M S bool :=
  match fuel with
  | O => fail OutOfFuel
  | Datatypes.S fuel =>
      t ← get_task task;
      next ← lift (array_get extra (waiting_on_index t - MAX_NUM_WAITS + 1));
      if negb (next =? NULL) then
        _ ← set_waiting_on_index task (waiting_on_index t + 1);
        curr ← lift (array_get extra (waiting_on_index t + 1 - MAX_NUM_WAITS));
        registered ← _register_if_promise_not_ready task curr;
        if (registered : bool) then mret false else register_extra fuel task extra
      else mret true
  end.

(** src/src/hclib-promise.c:171-195 (register_on_all_promise_dependencies) *)
Definition register_on_all_promise_dependencies (wrapper_task : Z) : M S bool :=
  done ← register_inline (Datatypes.S (Z.to_nat (MAX_NUM_WAITS + 1))) wrapper_task;
  if (done : bool) then
    t ← get_task wrapper_task;
    match waiting_on_extra t with
    | Some extra => register_extra (Datatypes.S (length extra)) wrapper_task extra
    | None => mret true
    end
  else mret false.

(** ** Scheduling a task *)

(** src/src/hclib-runtime.c:488-530 (rt_schedule_async) *)
Definition rt_schedule_async (async_task ws : Z) : M S unit :=
  t ← get_task async_task;
  match t_locale t with
  | Some locale =>
      pushed ← with_pool (λ p, pool_push_locale p ws locale async_task);
      assert (negb (pushed =? 0))
  | None =>
      wid ← gets self;
      pushed ← with_pool (λ p, pool_push_default p wid async_task);
      assert (negb (pushed =? 0))
  end.

(** src/src/hclib-runtime.c:540-551 (is_eligible_to_schedule) *)
Definition is_eligible_to_schedule (async_task : Z) : M S bool :=
  t ← get_task async_task;
  first ← lift (array_get (waiting_on t) 0);
  if negb (first =? NULL) then register_on_all_promise_dependencies async_task
  else mret true.

(** src/src/hclib-runtime.c:558-570 (try_schedule_async) *)
Definition try_schedule_async (async_task ws : Z) : M S unit :=
  eligible ← is_eligible_to_schedule async_task;
  when eligible (rt_schedule_async async_task ws).

(** src/src/hclib-promise.c:227-244 (hclib_promise_put) *)
Fixpoint wake_loop (fuel : nat) (curr_task ws : Z) : M S unit :=
  match fuel with
  | O => fail OutOfFuel
  | Datatypes.S fuel =>
      if negb (curr_task =? SENTINEL_FUTURE_WAITLIST_PTR) then
        t ← get_task curr_task;
        let next_task := next_waiter t in
        ready ← register_on_all_promise_dependencies curr_task;
        _ ← when ready (try_schedule_async curr_task ws);
        wake_loop fuel next_task ws
      else mret tt
  end.

(** A wait list is no longer than the tasks in memory.

    src/src/hclib-promise.c:203-245 (hclib_promise_put) *)
Definition hclib_promise_put (promise_to_be_put datum_to_be_put : Z) : M S unit :=
  _ ← assert (negb (promise_to_be_put =? NULL));
  p ← get_promise promise_to_be_put;
  _ ← assert (satisfied p =? 0);
  let wait_list_of_promise := wait_list_head p in
  _ ← put_promise promise_to_be_put (mkPromise 1 datum_to_be_put SATISFIED_FUTURE_WAITLIST_PTR);
  ws ← gets self;
  n ← gets (λ s, size (tasks s));
  wake_loop (Datatypes.S n) wait_list_of_promise ws.

(** ** Finish counters *)

(** src/src/hclib-runtime.c:431-435 (check_in_finish) *)
Definition check_in_finish (finish : Z) : M S unit :=
  when (negb (finish =? NULL))
    (f ← get_finish finish;
     put_finish finish (mkFinish (parent f) (hc_atomic_inc (counter f)).2 (finish_dep f))).

(** src/src/hclib-runtime.c:437-446 (check_out_finish) *)
Definition check_out_finish (finish : Z) : M S unit :=
  when (negb (finish =? NULL))
    (f ← get_finish finish;
     let '(old, counter') := hc_atomic_dec (counter f) in
     _ ← put_finish finish (mkFinish (parent f) counter' (finish_dep f));
     when (old =? 1) (hclib_promise_put (finish_dep f) finish)).

(** ** Spawning *)

(** src/src/hclib-runtime.c:572-617 (spawn_handler) *)
Definition spawn_handler (task : Z) (locale : option Z) (futures : list Z) (escaping : bool)
    : M S unit :=
  _ ← assert (negb (task =? NULL));
  ws ← current_ws;
  wid ← gets self;
  finish ← (if escaping then mret NULL
            else _ ← check_in_finish (current_finish ws); mret (current_finish ws));
  t ← get_task task;
  let locale' := match locale with Some _ => locale | None => t_locale t end in
  let nfutures := Z.of_nat (length futures) in
  let n_inlined := Z.to_nat (if nfutures >? MAX_NUM_WAITS then MAX_NUM_WAITS else nfutures) in
  let extra := drop (Z.to_nat MAX_NUM_WAITS) futures in
  _ ← put_task task
    (if nfutures >? 0 then
       mkTask (t_fp t) finish (take n_inlined futures ++ drop n_inlined (waiting_on t))
         (if nfutures >? MAX_NUM_WAITS then Some (extra ++ [NULL]) else waiting_on_extra t)
         (-1) locale' (non_blocking t) (next_waiter t)
     else
       mkTask (t_fp t) finish (waiting_on t) (waiting_on_extra t) (waiting_on_index t)
         locale' (non_blocking t) (next_waiter t));
  try_schedule_async task wid.

(** src/src/hclib-runtime.c:619-621 (spawn_at) *)
Definition spawn_at (task : Z) (locale : option Z) : M S unit := spawn_handler task locale [] false.

(** src/src/hclib-runtime.c:623-625 (spawn) *)
Definition spawn (task : Z) : M S unit := spawn_handler task None [] false.

(** src/src/hclib-runtime.c:627-629 (spawn_escaping) *)
Definition spawn_escaping (task future : Z) : M S unit := spawn_handler task None [future] true.

(** src/src/hclib-runtime.c:631-634 (spawn_escaping_at) *)
Definition spawn_escaping_at (locale : option Z) (task future : Z) : M S unit :=
  spawn_handler task locale [future] true.

(** src/src/hclib-runtime.c:636-639 (spawn_await_at) *)
Definition spawn_await_at (task : Z) (futures : list Z) (locale : option Z) : M S unit :=
  spawn_handler task locale futures false.

(** src/src/hclib-runtime.c:641-644 (spawn_await) *)
Definition spawn_await (task : Z) (futures : list Z) : M S unit :=
  spawn_await_at task futures None.

(** src/src/hclib.c:34-49 (hclib_async) *)
Definition hclib_async (fp : fn) (futures : list Z) (locale : option Z) : M S unit :=
  task ← new_task fp;
  if Z.of_nat (length futures) >? 0 then spawn_await_at task futures locale
  else spawn_at task locale.

(** src/src/hclib.c:51-57 (hclib_async_nb) *)
Definition hclib_async_nb (fp : fn) (locale : option Z) : M S unit :=
  task ← new_task fp;
  t ← get_task task;
  _ ← put_task task (mkTask (t_fp t) (t_finish t) (waiting_on t) (waiting_on_extra t)
        (waiting_on_index t) (t_locale t) true (next_waiter t));
  spawn_at task locale.

(** The promise lives in the wrapper.

    src/src/hclib.c:71-81 (hclib_async_future) *)
Definition hclib_async_future (fp : code) (futures : list Z) (locale : option Z) : M S Z :=
  event ← malloc;
  _ ← hclib_promise_init event;
  _ ← hclib_async (Future_caller event fp) futures locale;
  mret event.

(** The C++ calls copy the lambda to the heap and call it there.

    src/inc/hclib-async.h:151-159 (async_await_at_helper) *)
Definition async_await_at_helper (fp : fn) (futures : list Z) (locale : option Z)
    (nb : bool) : M S unit :=
  task ← new_task fp;
  t ← get_task task;
  _ ← put_task task (mkTask (t_fp t) (t_finish t) (waiting_on t) (waiting_on_extra t)
        (waiting_on_index t) (t_locale t) nb (next_waiter t));
  spawn_await_at task futures locale.

(** src/inc/hclib-async.h:356-378 (async_future_await_at_helper) *)
Definition async_future_await_at_helper (fp : code) (futures : list Z) (locale : option Z)
    (nb : bool) : M S Z :=
  event ← malloc;
  _ ← hclib_promise_init event;
  _ ← async_await_at_helper (Future_caller event fp) futures locale nb;
  mret event.

(** ** Finish scopes *)

(** src/src/hclib-runtime.c:1219-1247 (hclib_start_finish) *)
Definition hclib_start_finish : M S unit :=
  ws ← current_ws;
  finish ← malloc;
  _ ← put_finish finish (mkFinish (current_finish ws) 1 NULL);
  _ ← check_in_finish (current_finish ws);
  set_scope finish (curr_task ws).

(** The part after [help_finish].

    src/src/hclib-runtime.c:1264-1276 (hclib_end_finish) *)
Definition end_finish_exit (finish task : Z) : M S unit :=
  f ← get_finish finish;
  _ ← check_out_finish (parent f);
  _ ← set_scope (parent f) task;
  free_finish finish.

(** src/src/hclib-runtime.c:1280-1307 (hclib_end_finish_nonblocking_helper) *)
Definition hclib_end_finish_nonblocking_helper (event : Z) : M S unit :=
  ws ← current_ws;
  let finish := current_finish ws in
  f ← get_finish finish;
  _ ← assert (counter f >? 0);
  _ ← put_finish finish (mkFinish (parent f) (counter f) event);
  _ ← check_out_finish finish;
  _ ← check_out_finish (parent f);
  set_scope (parent f) (curr_task ws).

(** src/src/hclib-runtime.c:1309-1313 (hclib_end_finish_nonblocking) *)
Definition hclib_end_finish_nonblocking : M S Z :=
  event ← hclib_promise_create;
  _ ← hclib_end_finish_nonblocking_helper event;
  mret event.

(** src/src/hclib-runtime.c:979-981 (hclib_future_is_satisfied) *)
Definition hclib_future_is_satisfied (future : Z) : M S Z :=
  p ← get_promise future; mret (satisfied p).

(** src/src/hclib-runtime.c:193-198 (hclib_get_current_worker) *)
Definition hclib_get_current_worker : M S Z := w ← gets self; _ ← get_ws w; mret w.

(** src/src/hclib-runtime.c:200-202 (hclib_get_current_worker_pending_work) *)
Definition hclib_get_current_worker_pending_work : M S Z := w ← gets self; _ ← get_ws w; mret w.

(** ** Contexts *)

(** The stack of the running context after this action. *)
Definition set_stack (c : control) (fs : list frame) : M S unit :=
  ws ← current_ws;
  ctx ← get_ctx (curr_ctx ws);
  put_ctx (curr_ctx ws) (mkCtx c fs (prev ctx)).

Definition LiteCtx_create (c : control) : M S Z :=
  ctx ← malloc; _ ← put_ctx ctx (mkCtx c [] NULL); mret ctx.

(** src/src/inc/litectx.h:110-127 (LiteCtx_destroy) *)
Definition LiteCtx_destroy (ctx : Z) : M S unit :=
  _ ← get_ctx ctx; modify (λ s, set_ctxs (delete ctx (ctxs s)) s).

(** Leave the running context, to go on with [c] and [fs] when it is resumed,
    and run [next].

    src/src/hclib-runtime.c:213-222 (ctx_swap) *)
Definition ctx_swap (c : control) (fs : list frame) (next : Z) : M S unit :=
  _ ← set_stack c fs;
  ws ← current_ws;
  w ← gets self;
  ctx ← get_ctx next;
  _ ← put_ctx next (mkCtx (ctl ctx) (frames ctx) (curr_ctx ws));
  put_ws w (mkWs (current_finish ws) (curr_task ws) next).

(** [LiteCtx_destroy(currentCtx->prev)] *)
Definition destroy_prev : M S unit :=
  ws ← current_ws;
  ctx ← get_ctx (curr_ctx ws);
  LiteCtx_destroy (prev ctx).

(** A context that waits for [future] and is then resumed by a task.

    src/src/hclib-runtime.c:963-977 (_help_wait) *)
Definition _help_wait (continuation_dep starting_task : Z) : M S unit :=
  ws ← current_ws;
  ctx ← get_ctx (curr_ctx ws);
  task ← new_task (Finish_ctx_resume (prev ctx));
  _ ← spawn_escaping task continuation_dep;
  set_stack (Exec starting_task) [F_core_start].

(** src/src/hclib-runtime.c:1121-1136 (yield_helper) *)
Definition yield_helper (starting_task : Z) (locale : option Z) : M S unit :=
  _ ← assert (negb (starting_task =? NULL));
  ws ← current_ws;
  ctx ← get_ctx (curr_ctx ws);
  continuation ← new_task (Finish_ctx_resume (prev ctx));
  _ ← spawn_escaping_at locale continuation NULL;
  set_stack (Exec starting_task) [F_core_start].

(** src/src/hclib-runtime.c:1032-1065 (_help_finish_ctx) *)
Definition _help_finish_ctx (finish starting_task : Z) : M S unit :=
  _ ← assert (negb (finish =? NULL) && negb (starting_task =? NULL));
  ws ← current_ws;
  ctx ← get_ctx (curr_ctx ws);
  task ← new_task (Finish_ctx_resume (prev ctx));
  f ← get_finish finish;
  _ ← spawn_escaping task (finish_dep f);
  _ ← check_out_finish finish;
  set_stack (Exec starting_task) [F_core_start].

(** ** Running and finding tasks *)

(** The first part of [execute_task], up to the call of the task's function;
    [fs] is the stack below.

    src/src/hclib-runtime.c:448-470 (execute_task) *)
Definition execute_task (task : Z) (fs : list frame) : M S unit :=
  t ← get_task task;
  _ ← set_scope (t_finish t) task;
  let fs := F_execute task (t_finish t) :: fs in
  match t_fp t with
  | User c => set_stack (Run c) fs
  | Future_caller event c => set_stack (Run c) (F_future_caller event :: fs)
  | Finish_ctx_resume ctx => ctx_swap Abandoned fs ctx
  end.

(** The rest of it.

    src/src/hclib-runtime.c:471-478 (execute_task) *)
Definition execute_task_exit (task finish : Z) (fs : list frame) : M S unit :=
  _ ← check_out_finish finish;
  _ ← free_task task;
  set_stack (Ret NULL) fs.

Definition read_flag (flag : flag_ref) : M S Z :=
  match flag with
  | Flag_done wid => get done_flags wid
  | Flag_satisfied promise => p ← get_promise promise; mret (satisfied p)
  | Flag_counter finish => f ← get_finish finish; mret (counter f)
  end.

Definition flag_val (flag : flag_ref) : Z :=
  match flag with Flag_done _ => 0 | Flag_satisfied _ => 1 | Flag_counter _ => 1 end.

(** Run the task at once, or return it.

    src/src/hclib-runtime.c:672-693 (find_and_run_task) *)
Definition run_or_return (task : Z) (on_fresh_ctx : bool) (finish : Z) (fs : list frame)
    : M S unit :=
  t ← get_task task;
  if on_fresh_ctx || non_blocking t || (negb (t_finish t =? NULL) && (t_finish t =? finish))
  then set_stack (Exec task) (F_find :: fs)
  else set_stack (Ret task) fs.

(** Put back all but the first of the tasks stolen.

    src/src/hclib-runtime.c:664-668 (find_and_run_task) *)
Fixpoint reschedule (stolen : list Z) (ws : Z) : M S unit :=
  match stolen with
  | [] => mret tt
  | t :: stolen => _ ← rt_schedule_async t ws; reschedule stolen ws
  end.

(** The call pops once and then steals until the flag has its value; each
    attempt is one action, [stealing] says where the call is.

    src/src/hclib-runtime.c:646-694 (find_and_run_task) *)
Definition find_and_run_task (ws : Z) (on_fresh_ctx : bool) (flag : flag_ref) (finish : Z)
    (stealing : bool) (fs : list frame) : M S unit :=
  if stealing then
    v ← read_flag flag;
    if v =? flag_val flag then set_stack (Ret NULL) fs
    else
      stolen ← with_pool (λ p, pool_steal p ws);
      match stolen with
      | [] => set_stack (Find ws on_fresh_ctx flag finish true) fs
      | task :: rest =>
          _ ← reschedule rest ws;
          run_or_return task on_fresh_ctx finish fs
      end
  else
    task ← with_pool (λ p, pool_pop p ws);
    if task =? NULL then set_stack (Find ws on_fresh_ctx flag finish true) fs
    else run_or_return task on_fresh_ctx finish fs.

(** ** Blocking calls *)

(** The loop of [help_finish] and, once it ends, the rest of
    [hclib_end_finish].

    src/src/hclib-runtime.c:1067-1089 (help_finish) *)
Definition help_finish (ws finish task : Z) (k : code) (fs : list frame) : M S unit :=
  f ← get_finish finish;
  if counter f >? 1 then
    set_stack (Find ws true (Flag_counter finish) finish false) (F_help ws finish task k :: fs)
  else
    _ ← assert (counter f =? 1);
    _ ← end_finish_exit finish task;
    set_stack (Run k) fs.

(** The branch that swaps contexts.

    src/src/hclib-runtime.c:1091-1108 (help_finish) *)
Definition help_finish_swap (finish task need_to_swap_ctx : Z) (k : code) (fs : list frame)
    : M S unit :=
  finish_promise ← hclib_promise_create;
  f ← get_finish finish;
  _ ← put_finish finish (mkFinish (parent f) (counter f) finish_promise);
  newCtx ← LiteCtx_create (Help_finish_ctx finish need_to_swap_ctx);
  ctx_swap (Help_resumed finish task finish_promise k) fs newCtx.

(** src/src/hclib-runtime.c:1109-1115 (help_finish) *)
Definition help_finish_resumed (finish task finish_promise : Z) (k : code) (fs : list frame)
    : M S unit :=
  _ ← destroy_prev;
  _ ← hclib_promise_free finish_promise;
  f ← get_finish finish;
  _ ← assert (counter f =? 0);
  _ ← end_finish_exit finish task;
  set_stack (Run k) fs.

(** src/src/hclib-runtime.c:1249-1263 (hclib_end_finish) *)
Definition hclib_end_finish (k : code) (fs : list frame) : M S unit :=
  ws ← current_ws;
  w ← gets self;
  _ ← assert (negb (current_finish ws =? NULL));
  f ← get_finish (current_finish ws);
  _ ← assert (counter f >? 0);
  set_stack (Help_loop w (current_finish ws) (curr_task ws) k) fs.

(** What follows the loop of [hclib_future_wait].

    src/src/hclib-runtime.c:1017-1024 (hclib_future_wait) *)
Definition future_wait_exit (future finish task : Z) (k : Z → code) (fs : list frame)
    : M S unit :=
  _ ← set_scope finish task;
  p ← get_promise future;
  _ ← assert (negb (satisfied p =? 0));
  set_stack (Run (k (datum p))) fs.

(** src/src/hclib-runtime.c:997-1001 (hclib_future_wait) *)
Definition future_wait_loop (ws future finish task : Z) (k : Z → code) (fs : list frame)
    : M S unit :=
  p ← get_promise future;
  if satisfied p =? 0 then
    set_stack (Find ws false (Flag_satisfied future) NULL false)
      (F_wait ws future finish task k :: fs)
  else future_wait_exit future finish task k fs.

(** src/src/hclib-runtime.c:1003-1015 (hclib_future_wait) *)
Definition future_wait_swap (future finish task need_to_swap_ctx : Z) (k : Z → code)
    (fs : list frame) : M S unit :=
  newCtx ← LiteCtx_create (Help_wait future need_to_swap_ctx);
  ctx_swap (Wait_resumed future finish task k) fs newCtx.

(** src/src/hclib-runtime.c:983-995 (hclib_future_wait) *)
Definition hclib_future_wait (future : Z) (k : Z → code) (fs : list frame) : M S unit :=
  p ← get_promise future;
  if negb (satisfied p =? 0) then set_stack (Run (k (datum p))) fs
  else
    ws ← current_ws;
    w ← gets self;
    set_stack (Wait_loop w future (current_finish ws) (curr_task ws) k) fs.

(** src/src/hclib-runtime.c:1214-1216 (hclib_yield) *)
Definition yield_exit (finish task : Z) (k : code) (fs : list frame) : M S unit :=
  _ ← set_scope finish task;
  set_stack (Run k) fs.

(** One round: the task found, or [NULL].

    src/src/hclib-runtime.c:1160-1183 (hclib_yield) *)
Definition yield_find (ws : Z) : M S Z :=
  task ← with_pool (λ p, pool_pop p ws);
  if task =? NULL then
    stolen ← with_pool (λ p, pool_steal p ws);
    match stolen with
    | [] => mret NULL
    | task :: rest => _ ← reschedule rest ws; mret task
    end
  else mret task.

(** src/src/hclib-runtime.c:1153-1212 (hclib_yield) *)
Definition yield_loop (finish task : Z) (locale : option Z) (k : code) (fs : list frame)
    : M S unit :=
  ws ← gets self;
  found ← yield_find ws;
  if found =? NULL then yield_exit finish task k fs
  else
    t ← get_task found;
    if non_blocking t then set_stack (Exec found) (F_yield finish task locale k :: fs)
    else
      newCtx ← LiteCtx_create (Yield_helper found locale);
      ctx_swap (Yield_resumed finish task k) fs newCtx.

(** src/src/hclib-runtime.c:1142-1146 (hclib_yield) *)
Definition hclib_yield (locale : option Z) (k : code) (fs : list frame) : M S unit :=
  ws ← current_ws;
  set_stack (Yield_loop (current_finish ws) (curr_task ws) locale k) fs.

(** ** Worker loops *)

(** src/src/hclib-runtime.c:711-716 (core_work_loop) *)
Definition core_work_loop (fs : list frame) : M S unit :=
  wid ← gets self;
  set_stack (Find wid true (Flag_done wid) NULL false) (F_core wid :: fs).

(** The end of a round: again, or back to the thread's own context.

    src/src/hclib-runtime.c:716-723 (core_work_loop) *)
Definition core_work_loop_end (wid must_be_null : Z) (fs : list frame) : M S unit :=
  _ ← assert (must_be_null =? NULL);
  flag ← get done_flags wid;
  if negb (flag =? 0) then set_stack Core_loop fs else set_stack Exited fs.

(** src/src/hclib-runtime.c:403-408 (hclib_signal_join) *)
Definition hclib_signal_join : M S unit :=
  modify (λ s, set_flags ((λ _, 0) <$> done_flags s) s).

(** src/src/hclib-runtime.c:696-703 (_hclib_finalize_ctx) *)
Definition _hclib_finalize_ctx (fs : list frame) : M S unit :=
  _ ← hclib_signal_join;
  set_stack Exited fs.

(** ** One action of a worker *)

Definition call_extern (fptr : Z) (args : list Z) : M S Z := λ s,
  Ok (extern (calls s) fptr args, set_calls (calls s ++ [(fptr, args)]) s).

(** The objects of the program; reading one that was never written, or any
    access after it is freed, is undefined. *)
Definition cell_new : M S Z :=
  a ← malloc; _ ← modify (λ s, set_cells (<[a := None]> (cells s)) s); mret a.

Definition cell_get (a : Z) : M S Z :=
  v ← get cells a;
  match v with Some v => mret v | None => fail UninitRead end.

Definition cell_set (a v : Z) : M S unit :=
  _ ← get cells a; modify (λ s, set_cells (<[a := Some v]> (cells s)) s).

Definition cell_free (a : Z) : M S unit :=
  _ ← get cells a; modify (λ s, set_cells (delete a (cells s)) s).

(** The user function goes on to its next call. *)
Definition run_code (c : code) (fs : list frame) : M S unit :=
  match c with
  | Return v => set_stack (Ret v) fs
  | Async fp futures locale k =>
      _ ← hclib_async (User fp) futures locale; set_stack (Run k) fs
  | Async_nb fp locale k => _ ← hclib_async_nb (User fp) locale; set_stack (Run k) fs
  | Async_future fp futures locale k =>
      future ← hclib_async_future fp futures locale; set_stack (Run (k future)) fs
  | Start_finish k => _ ← hclib_start_finish; set_stack (Run k) fs
  | End_finish k => hclib_end_finish k fs
  | End_finish_nonblocking k =>
      future ← hclib_end_finish_nonblocking; set_stack (Run (k future)) fs
  | Promise_create k => promise ← hclib_promise_create; set_stack (Run (k promise)) fs
  | Promise_put promise datum k =>
      _ ← hclib_promise_put promise datum; set_stack (Run k) fs
  | Future_is_satisfied future k =>
      v ← hclib_future_is_satisfied future; set_stack (Run (k v)) fs
  | Future_get future k => v ← hclib_future_get future; set_stack (Run (k v)) fs
  | Future_wait future k => hclib_future_wait future k fs
  | Yield locale k => hclib_yield locale k fs
  | Call fptr args k => v ← call_extern fptr args; set_stack (Run (k v)) fs
  | Abort f => fail f
  | Cpp_async fp futures locale nb k =>
      _ ← async_await_at_helper (User fp) futures locale nb; set_stack (Run k) fs
  | Cpp_async_future fp futures locale nb k =>
      future ← async_future_await_at_helper fp futures locale nb; set_stack (Run (k future)) fs
  | Current_worker k => w ← hclib_get_current_worker; set_stack (Run (k w)) fs
  | Cell_new k => a ← cell_new; set_stack (Run (k a)) fs
  | Cell_get a k => v ← cell_get a; set_stack (Run (k v)) fs
  | Cell_set a v k => _ ← cell_set a v; set_stack (Run k) fs
  | Cell_free a k => _ ← cell_free a; set_stack (Run k) fs
  end.

(** A call returns [v] to the function that waits for it.

    src/src/hclib.c:65-69 (future_caller) *)
Definition return_to (v : Z) (fs : list frame) : M S unit :=
  match fs with
  | [] => assert false
  | F_execute task finish :: fs => execute_task_exit task finish fs
  | F_future_caller event :: fs => _ ← hclib_promise_put event v; set_stack (Ret NULL) fs
  | F_find :: fs => set_stack (Ret NULL) fs
  | F_core_start :: fs => set_stack Core_loop fs
  | F_core wid :: fs => core_work_loop_end wid v fs
  | F_help ws finish task k :: fs =>
      if v =? NULL then set_stack (Help_loop ws finish task k) fs
      else help_finish_swap finish task v k fs
  | F_wait ws future finish task k :: fs =>
      if v =? NULL then set_stack (Wait_loop ws future finish task k) fs
      else future_wait_swap future finish task v k fs
  | F_yield finish task locale k :: fs => set_stack (Yield_loop finish task locale k) fs
  | F_finalize :: fs => _hclib_finalize_ctx fs
  end.

Definition run_stack (c : control) (fs : list frame) : M S unit :=
  match c with
  | Run c => run_code c fs
  | Ret v => return_to v fs
  | Exec task => execute_task task fs
  | Find ws on_fresh_ctx flag finish stealing =>
      find_and_run_task ws on_fresh_ctx flag finish stealing fs
  | Core_loop => core_work_loop fs
  | Help_loop ws finish task k => help_finish ws finish task k fs
  | Help_resumed finish task promise k => help_finish_resumed finish task promise k fs
  | Wait_loop ws future finish task k => future_wait_loop ws future finish task k fs
  | Wait_resumed future finish task k =>
      _ ← destroy_prev; future_wait_exit future finish task k fs
  | Yield_loop finish task locale k => yield_loop finish task locale k fs
  | Yield_resumed finish task k => _ ← destroy_prev; yield_exit finish task k fs
  | Help_finish_ctx finish task => _help_finish_ctx finish task
  | Help_wait future task => _help_wait future task
  | Yield_helper task locale => yield_helper task locale
  | Abandoned => assert false
  | Exited => fail Disabled
  end.

(** Worker [w] takes one action. *)
Definition step (w : Z) : M S unit :=
  _ ← modify (set_self w);
  ws ← current_ws;
  ctx ← get_ctx (curr_ctx ws);
  run_stack (ctl ctx) (frames ctx).

(** A schedule is the sequence of workers that act. *)
Fixpoint run (schedule : list Z) : M S unit :=
  match schedule with
  | [] => mret tt
  | w :: schedule => _ ← step w; run schedule
  end.

(** ** Launch *)

(** The main function as [hclib_launch] runs it: in the root finish scope that
    [hclib_entrypoint] opens and [_hclib_finalize_ctx] ends.

    src/src/hclib-runtime.c:1460-1478 (hclib_launch) *)
Definition launch_code (main : code) (locale : option Z) : code :=
  Start_finish (Async main [] locale (End_finish (Return NULL))).

Definition worker_ids (nworkers : nat) : list Z := seqZ 0 (Z.of_nat nworkers).

(** Worker [w] starts on context [w + 1]: worker 0 with the main function, the
    others looking for work.

    src/src/hclib-runtime.c:912-945 (worker_routine) *)
Definition launch (p : S) (nworkers : nat) (main : code) (locale : option Z) : rt S :=
  mkRt p ∅ ∅ ∅
    (list_to_map ((λ w, (w + 1, if w =? 0 then mkCtx (Run (launch_code main locale)) [F_finalize] NULL
                               else mkCtx Core_loop [] NULL)) <$> worker_ids nworkers))
    (list_to_map ((λ w, (w, mkWs NULL NULL (w + 1))) <$> worker_ids nworkers))
    (list_to_map ((λ w, (w, 1)) <$> worker_ids nworkers))
    (Z.of_nat nworkers + 1) 0 [] ∅.
End operations.
