(* ===== verification/RuntimeHeap.v ===== *)
(** * Lemmas: tasks, promises and queues of the runtime

    Where each task of [Runtime] is, and which of its futures are satisfied:
    the invariant of the task heap, the wait lists and the pool, and how the
    operations of [hclib-promise.c] and the spawning functions keep it. *)

From S2P Require Import Prelude Deque Pool Runtime.
From stdpp Require Import options.

(** ** Lemmas: running the monad *)

Section monad.
Context {S : Type}.

Lemma M_bind_Ok {A B} (m : M S A) (k : A → M S B) s b s' :
  (m ≫= k) s = Ok (b, s') → ∃ a s1, m s = Ok (a, s1) ∧ k a s1 = Ok (b, s').
Proof.
  unfold mbind, M_bind. destruct (m s) as [[a s1]|f]; [|done]. intros H. by exists a, s1.
Qed.

Lemma get_Ok {A} (m : rt S → gmap Z A) a s v s' :
  get m a s = Ok (v, s') → m s !! a = Some v ∧ s' = s.
Proof. unfold get. destruct (m s !! a); [|done]. by intros [= <- <-]. Qed.

Lemma gets_Ok {A} (f : rt S → A) s v s' : gets f s = Ok (v, s') → v = f s ∧ s' = s.
Proof. by intros [= <- <-]. Qed.

Lemma modify_Ok (f : rt S → rt S) s u s' : modify f s = Ok (u, s') → s' = f s.
Proof. by intros [= <- <-]. Qed.

Lemma mret_Ok {A} (a : A) s v s' : mret (M:=M S) a s = Ok (v, s') → v = a ∧ s' = s.
Proof. by intros [= <- <-]. Qed.

Lemma assert_Ok b s u s' : assert (S:=S) b s = Ok (u, s') → b = true ∧ s' = s.
Proof. unfold assert, lift, hassert. destruct b; [|done]. by intros [= <- <-]. Qed.

Lemma lift_Ok {A} (r : res A) s v s' : lift (S:=S) r s = Ok (v, s') → r = Ok v ∧ s' = s.
Proof. unfold lift. destruct r; [|done]. by intros [= <- <-]. Qed.

Lemma malloc_Ok (s : rt S) v s' : malloc s = Ok (v, s') → v = brk s ∧ s' = set_brk (brk s + 1) s.
Proof. by intros [= <- <-]. Qed.

Lemma with_pool_Ok {A} (op : S → res (A * S)) s v s' :
  with_pool op s = Ok (v, s') → ∃ p, op (pool s) = Ok (v, p) ∧ s' = set_pool p s.
Proof.
  unfold with_pool. destruct (op (pool s)) as [[a p]|] eqn:E; [|done].
  intros [= <- <-]. by exists p.
Qed.
End monad.

(** Run the first action of [H], or [H] itself when it is a single action. *)
Ltac m_action H :=
  lazymatch type of H with
  | get_task _ _ = Ok _ => apply get_Ok in H as [H ->]
  | get_promise _ _ = Ok _ => apply get_Ok in H as [H ->]
  | get_finish _ _ = Ok _ => apply get_Ok in H as [H ->]
  | get_ctx _ _ = Ok _ => apply get_Ok in H as [H ->]
  | get_ws _ _ = Ok _ => apply get_Ok in H as [H ->]
  | get _ _ _ = Ok _ => apply get_Ok in H as [H ->]
  | gets _ _ = Ok _ => apply gets_Ok in H as [-> ->]
  | mret _ _ = Ok _ => apply mret_Ok in H as [-> ->]
  | assert _ _ = Ok _ => apply assert_Ok in H as [H ->]
  | lift _ _ = Ok _ => apply lift_Ok in H as [H ->]
  | malloc _ = Ok _ => apply malloc_Ok in H as [-> ->]
  | put_task _ _ _ = Ok _ => apply modify_Ok in H as ->
  | put_promise _ _ _ = Ok _ => apply modify_Ok in H as ->
  | put_finish _ _ _ = Ok _ => apply modify_Ok in H as ->
  | put_ctx _ _ _ = Ok _ => apply modify_Ok in H as ->
  | put_ws _ _ _ = Ok _ => apply modify_Ok in H as ->
  | modify _ _ = Ok _ => apply modify_Ok in H as ->
  | _ => idtac
  end.
Tactic Notation "m_bind" ident(H) "as" ident(a) ident(s1) ident(H1) :=
  apply M_bind_Ok in H as (a & s1 & H1 & H); m_action H1; cbn beta in H.
Tactic Notation "m_bind" ident(H) :=
  let a := fresh "a" in let s1 := fresh "s" in let H1 := fresh "E" in
  m_bind H as a s1 H1.

Section cells.
Context {S : Type}.

Lemma cell_new_Ok (s : rt S) a s' :
  cell_new s = Ok (a, s') →
  a = brk s ∧ s' = set_cells (<[brk s := None]> (cells s)) (set_brk (brk s + 1) s).
Proof. intros H. unfold cell_new in H. m_bind H. m_bind H. m_action H. done. Qed.

Lemma cell_get_Ok a (s : rt S) v s' :
  cell_get a s = Ok (v, s') → cells s !! a = Some (Some v) ∧ s' = s.
Proof.
  intros H. unfold cell_get in H. m_bind H as o s1 Ho. destruct o; [|done]. m_action H. done.
Qed.

Lemma cell_set_Ok a v (s : rt S) u s' :
  cell_set a v s = Ok (u, s') →
  is_Some (cells s !! a) ∧ s' = set_cells (<[a := Some v]> (cells s)) s.
Proof. intros H. unfold cell_set in H. m_bind H as o s1 Ho. m_action H. split; [by exists o|done]. Qed.

Lemma cell_free_Ok a (s : rt S) u s' :
  cell_free a s = Ok (u, s') → is_Some (cells s !! a) ∧ s' = set_cells (delete a (cells s)) s.
Proof. intros H. unfold cell_free in H. m_bind H as o s1 Ho. m_action H. split; [by exists o|done]. Qed.
End cells.

(** ** Where tasks are *)

Inductive place :=
  | Absent
  | Queued
  | Waiting (promise : Z)
  | Woken
  | Ready (ctx : Z)
  | Running (ctx : Z)
  | Lost.

#[export] Instance place_eq_dec : EqDecision place.
Proof. solve_decision. Defined.

(** Not started yet. *)
Definition unstarted (p : place) : bool :=
  match p with Queued | Waiting _ | Woken | Ready _ => true | _ => false end.

(** ** The futures of a task *)

(** The futures a task waits for, by position: the inline ones, where [NULL] is
    skipped, then the extra ones up to a [NULL]. *)
Definition entry (t : hclib_task_t) (i : Z) : option Z :=
  if i <? MAX_NUM_WAITS then waiting_on t !! Z.to_nat i
  else match waiting_on_extra t with
       | Some extra => extra !! Z.to_nat (i - MAX_NUM_WAITS)
       | None => None
       end.

Fixpoint take_nonnull (l : list Z) : list Z :=
  match l with
  | [] => []
  | p :: l => if p =? NULL then [] else p :: take_nonnull l
  end.

(** A task whose first future is [NULL] waits for nothing. *)
Definition deps (t : hclib_task_t) : list Z :=
  match waiting_on t with
  | p :: _ =>
      if p =? NULL then []
      else filter (λ p, p ≠ NULL) (waiting_on t) ++
        match waiting_on_extra t with Some extra => take_nonnull extra | None => [] end
  | [] => []
  end.

(** [P] holds of everything up to position [i]. *)
Definition upto (P : Z → Prop) (t : hclib_task_t) (i : Z) : Prop :=
  ∀ j p, 0 <= j <= i → entry t j = Some p → p ≠ NULL → P p.

(** The task's arrays have the shape the code gives them. *)
Definition task_shape (t : hclib_task_t) : Prop :=
  length (waiting_on t) = 4%nat ∧ -1 <= waiting_on_index t.

(** A wait list: the tasks from [head], linked by [next_waiter]. *)
Fixpoint chain (ts : gmap Z hclib_task_t) (head : Z) (l : list Z) : Prop :=
  match l with
  | [] => head = SENTINEL_FUTURE_WAITLIST_PTR
  | t :: l => head = t ∧ ∃ tk, ts !! t = Some tk ∧ chain ts (next_waiter tk) l
  end.

Lemma chain_insert ts h l t tk : t ∉ l → chain ts h l → chain (<[t := tk]> ts) h l.
Proof.
  revert h. induction l as [|x l IH]; intros h Hn; cbn; [done|].
  intros (-> & tk' & Hx & Hc). apply not_elem_of_cons in Hn as [Hne Hn]. split; [done|].
  exists tk'. split; [by rewrite lookup_insert_ne|by apply IH].
Qed.

Lemma chain_delete ts h l t : t ∉ l → chain ts h l → chain (delete t ts) h l.
Proof.
  revert h. induction l as [|x l IH]; intros h Hn; cbn; [done|].
  intros (-> & tk' & Hx & Hc). apply not_elem_of_cons in Hn as [Hne Hn]. split; [done|].
  exists tk'. split; [by rewrite lookup_delete_ne|by apply IH].
Qed.

Lemma chain_same_next ts ts' h l :
  (∀ t, t ∈ l → next_waiter <$> ts' !! t = next_waiter <$> ts !! t) → chain ts h l → chain ts' h l.
Proof.
  revert h. induction l as [|x l IH]; intros h Hn; cbn; [done|].
  intros (-> & tk & Hx & Hc). split; [done|].
  pose proof (Hn x ltac:(by left)) as E. rewrite Hx in E. cbn in E.
  apply fmap_Some in E as (tk' & Hx' & E). exists tk'. split; [done|]. rewrite <- E.
  apply IH; [|done]. intros t Ht. apply Hn. by right.
Qed.

Definition set_index (t : hclib_task_t) (i : Z) : hclib_task_t :=
  mkTask (t_fp t) (t_finish t) (waiting_on t) (waiting_on_extra t) i (t_locale t)
    (non_blocking t) (next_waiter t).

Definition set_next (t : hclib_task_t) (h : Z) : hclib_task_t :=
  mkTask (t_fp t) (t_finish t) (waiting_on t) (waiting_on_extra t) (waiting_on_index t)
    (t_locale t) (non_blocking t) h.

Lemma set_index_id tk : set_index tk (waiting_on_index tk) = tk.
Proof. by destruct tk. Qed.

Lemma take_nonnull_lookup l j p :
  p ∈ take_nonnull l → l !! j = Some NULL → ∃ i, (i < j)%nat ∧ l !! i = Some p.
Proof.
  revert j. induction l as [|x l IH]; intros j Hp Hj; cbn in Hp; [by apply elem_of_nil in Hp|].
  destruct (Z.eqb_spec x NULL) as [->|Hn]; [by apply elem_of_nil in Hp|].
  destruct j as [|j]; [cbn in Hj; congruence|].
  apply elem_of_cons in Hp as [->|Hp]; [exists 0%nat; split; [lia|done]|].
  destruct (IH j Hp Hj) as (i & Hi & E). exists (Datatypes.S i). split; [lia|done].
Qed.

Lemma take_nonnull_nonnull l p : p ∈ take_nonnull l → p ≠ NULL.
Proof.
  induction l as [|x l IH]; cbn; [by intros ?%elem_of_nil|].
  destruct (Z.eqb_spec x NULL); [by intros ?%elem_of_nil|].
  intros [->|?]%elem_of_cons; auto.
Qed.

(** The end of the loops is past every dependency. *)
Lemma upto_deps (P : Z → Prop) t i :
  length (waiting_on t) = 4%nat → upto P t i → MAX_NUM_WAITS - 1 <= i →
  (∀ extra, waiting_on_extra t = Some extra →
    extra !! Z.to_nat (i - MAX_NUM_WAITS + 1) = Some NULL) → ∀ p, p ∈ deps t → P p.
Proof.
  intros Hlen Hd Hi Hex p Hp. unfold deps in Hp. unfold MAX_NUM_WAITS in *.
  destruct (waiting_on t) as [|q l] eqn:Hw; [by apply elem_of_nil in Hp|].
  destruct (q =? NULL); [by apply elem_of_nil in Hp|].
  apply elem_of_app in Hp as [Hp|Hp].
  - apply list_elem_of_filter in Hp as [Hn Hp]. apply list_elem_of_lookup in Hp as [j Hj].
    pose proof (lookup_lt_Some _ _ _ Hj). apply (Hd (Z.of_nat j)); [lia| |done].
    unfold entry, MAX_NUM_WAITS. destruct (Z.ltb_spec (Z.of_nat j) 4); [|cbn in *; lia].
    by rewrite Hw, Nat2Z.id.
  - destruct (waiting_on_extra t) as [extra|] eqn:He; [|by apply elem_of_nil in Hp].
    pose proof (take_nonnull_nonnull _ _ Hp).
    destruct (take_nonnull_lookup extra _ p Hp (Hex extra eq_refl)) as (j & Hj & E).
    apply (Hd (Z.of_nat j + 4)); [lia| |done].
    unfold entry, MAX_NUM_WAITS. destruct (Z.ltb_spec (Z.of_nat j + 4) 4); [lia|].
    rewrite He, <- E. f_equal. lia.
Qed.

Definition fresh_task (fp : fn) (nb : bool) : hclib_task_t :=
  mkTask fp NULL [NULL; NULL; NULL; NULL] None 0 None nb NULL.

(** The task that [spawn_handler] hands to the scheduler. *)
Definition spawned_task (t : hclib_task_t) (finish : Z) (locale : option Z) (futures : list Z)
    : hclib_task_t :=
  let nfutures := Z.of_nat (length futures) in
  let n_inlined := Z.to_nat (if nfutures >? MAX_NUM_WAITS then MAX_NUM_WAITS else nfutures) in
  let locale' := match locale with Some _ => locale | None => t_locale t end in
  if nfutures >? 0 then
    mkTask (t_fp t) finish (take n_inlined futures ++ drop n_inlined (waiting_on t))
      (if nfutures >? MAX_NUM_WAITS then Some (drop (Z.to_nat MAX_NUM_WAITS) futures ++ [NULL])
       else waiting_on_extra t)
      (-1) locale' (non_blocking t) (next_waiter t)
  else
    mkTask (t_fp t) finish (waiting_on t) (waiting_on_extra t) (waiting_on_index t)
      locale' (non_blocking t) (next_waiter t).

Lemma spawned_deps_eq fp nb g locale futures :
  (∀ p, p ∈ futures → p ≠ NULL) →
  deps (spawned_task (fresh_task fp nb) g locale futures) = futures.
Proof.
  intros Hn.
  assert (∀ l, (∀ q, q ∈ l → q ≠ NULL) → take_nonnull (l ++ [NULL]) = l) as Htake.
  { induction l as [|q l IH]; intros Hl; [done|]. cbn [app take_nonnull].
    rewrite (proj2 (Z.eqb_neq q NULL)) by (apply Hl; by left). rewrite IH; [done|].
    intros x Hx. apply Hl. by right. }
  assert (∀ l : list Z, (∀ q, q ∈ l → q ≠ NULL) → filter (λ p, p ≠ NULL) l = l) as Hfilter.
  { induction l as [|q l IH]; intros Hl; [done|]. rewrite filter_cons_True by (apply Hl; by left).
    rewrite IH; [done|]. intros x Hx. apply Hl. by right. }
  destruct futures as [|a l]; [done|]. assert (a ≠ NULL) as Ha by (apply Hn; by left).
  unfold spawned_task, deps. rewrite (proj2 (Z.gtb_lt _ _)) by (cbn; lia). cbn [waiting_on].
  destruct (Z.gtb_spec (Z.of_nat (length (a :: l))) MAX_NUM_WAITS) as [Hl|Hl]; cbn [waiting_on_extra].
  - destruct l as [|b [|c [|d l]]]; try (cbn in Hl; unfold MAX_NUM_WAITS in Hl; lia).
    change (Z.to_nat MAX_NUM_WAITS) with 4%nat. cbn [take drop app].
    rewrite (proj2 (Z.eqb_neq a NULL)) by done. rewrite Htake.
    2: { intros x Hx. apply Hn. do 4 right. done. }
    rewrite Hfilter; [done|]. intros x Hx. apply Hn. set_solver.
  - assert (length (a :: l) <= 4)%nat as Hle by (unfold MAX_NUM_WAITS in Hl; lia).
    rewrite take_ge by lia. cbn [app fresh_task waiting_on waiting_on_extra].
    rewrite (proj2 (Z.eqb_neq a NULL)) by done. rewrite app_nil_r.
    change [NULL; NULL; NULL; NULL] with (replicate 4 NULL).
    change (a :: l ++ ?r) with ((a :: l) ++ r).
    rewrite drop_replicate, filter_app, Hfilter by done.
    assert (∀ k, filter (λ p : Z, p ≠ NULL) (replicate k NULL) = []) as ->; [|by rewrite app_nil_r].
    induction k as [|k IH]; [done|]. cbn [replicate]. by rewrite filter_cons_False by auto.
Qed.

Lemma spawned_deps fp nb g locale futures :
  (∀ p, p ∈ futures → p ≠ NULL) →
  ∀ p, p ∈ deps (spawned_task (fresh_task fp nb) g locale futures) ↔ p ∈ futures.
Proof. intros Hn p. by rewrite spawned_deps_eq. Qed.

Section heap.
Context {S : Type} `{!TaskPool S}.
#[local] Set Default Proof Using "Type*".

Definition is_satisfied (s : rt S) (p : Z) : Prop :=
  ∃ pr, promises s !! p = Some pr ∧ satisfied pr = 1.

Definition ready (s : rt S) (t : hclib_task_t) : Prop := ∀ p, p ∈ deps t → is_satisfied s p.

(** Everything up to position [i] is satisfied. *)
Definition done_upto (s : rt S) (t : hclib_task_t) (i : Z) : Prop := upto (is_satisfied s) t i.

Definition promise_ok (s : rt S) (place : Z → place) (p : Z) (pr : hclib_promise_t) : Prop :=
  (satisfied pr = 1 ∧ wait_list_head pr = SATISFIED_FUTURE_WAITLIST_PTR ∧
   ∀ t, place t ≠ Waiting p) ∨
  (satisfied pr = 0 ∧ ∃ l, chain (tasks s) (wait_list_head pr) l ∧ NoDup l ∧
   ∀ t, t ∈ l ↔ place t = Waiting p).

Definition task_ok (s : rt S) (t : hclib_task_t) (p : place) : Prop :=
  task_shape t ∧
  match p with
  | Queued | Ready _ => ready s t ∧ done_upto s t (waiting_on_index t)
  | Waiting p => entry t (waiting_on_index t) = Some p ∧ p ≠ NULL ∧
      0 <= waiting_on_index t ∧ done_upto s t (waiting_on_index t - 1)
  | Woken => done_upto s t (waiting_on_index t)
  | _ => True
  end.

Record heap_ok (s : rt S) (place : Z → place) : Prop := {
  heap_pool_ok : pool_ok (pool s);
  heap_pool_nodup : NoDup (pool_tasks (pool s));
  heap_pool : ∀ t, t ∈ pool_tasks (pool s) ↔ place t = Queued;
  heap_promises : ∀ p pr, promises s !! p = Some pr → promise_ok s place p pr;
  heap_waiting : ∀ t p, place t = Waiting p → is_Some (promises s !! p);
  heap_present : ∀ t, place t ≠ Absent ↔ is_Some (tasks s !! t);
  heap_tasks : ∀ t tk, tasks s !! t = Some tk → task_ok s tk (place t);
  heap_bounds : ∀ t, is_Some (tasks s !! t) → 0 < t < brk s;
  heap_promise_bounds : ∀ p, is_Some (promises s !! p) → 0 < p < brk s
}.

(** ** What the operations leave alone *)

Definition task_static (t : hclib_task_t) : fn * Z * list Z := (t_fp t, t_finish t, deps t).

(** A task of [s'] that [s] had is the same task. *)
Definition static_kept (s s' : rt S) : Prop :=
  ∀ t tk', t < brk s → tasks s' !! t = Some tk' →
    ∃ tk, tasks s !! t = Some tk ∧ task_static tk' = task_static tk.

Record same_rest (s s' : rt S) : Prop := {
  same_finishes : finishes s' = finishes s;
  same_ctxs : ctxs s' = ctxs s;
  same_workers : workers s' = workers s;
  same_flags : done_flags s' = done_flags s;
  same_brk : brk s' = brk s;
  same_self : self s' = self s;
  same_static : task_static <$> tasks s' = task_static <$> tasks s;
  same_nb : non_blocking <$> tasks s' = non_blocking <$> tasks s;
  same_satisfied : ∀ p pr, promises s !! p = Some pr → satisfied pr ≠ 0 →
    ∃ pr', promises s' !! p = Some pr' ∧ satisfied pr' = satisfied pr ∧ datum pr' = datum pr;
  same_promises : ∀ p, is_Some (promises s' !! p) ↔ is_Some (promises s !! p)
}.

(** Only tasks that had not started are moved, and they still have not. *)
Definition moved (place place' : Z → place) : Prop :=
  ∀ t, place' t = place t ∨
    (unstarted (place t) = true ∧ unstarted (place' t) = true ∧ ∀ c, place t ≠ Ready c ∧ place' t ≠ Ready c).

Lemma same_rest_refl s : same_rest s s.
Proof. split; try done. intros p pr Hp _. by exists pr. Qed.

Lemma same_rest_trans s1 s2 s3 : same_rest s1 s2 → same_rest s2 s3 → same_rest s1 s3.
Proof.
  intros [] []. split; try congruence.
  - intros p pr Hp Hs. destruct (same_satisfied0 p pr Hp Hs) as (pr1 & Hp1 & Hs1 & Hd1).
    destruct (same_satisfied1 p pr1 Hp1) as (pr2 & Hp2 & Hs2 & Hd2); [congruence|].
    exists pr2. split; [done|]. split; congruence.
  - intros p. by rewrite same_promises1.
Qed.

Lemma moved_refl f : moved f f.
Proof. intros t. by left. Qed.

Lemma moved_trans f g h : moved f g → moved g h → moved f h.
Proof.
  intros H1 H2 t. destruct (H1 t) as [E1|(U1 & U1' & R1)], (H2 t) as [E2|(U2 & U2' & R2)].
  - left. congruence.
  - right. rewrite <- E1. split; [done|]. split; [done|]. done.
  - right. rewrite E2. split; [done|]. split; [done|]. done.
  - right. split; [done|]. split; [done|]. intros c. split; [apply R1|apply R2].
Qed.

(** ** Lemmas: satisfied futures *)

(** Every promise of [s] that is satisfied still is in [s']. *)
Definition sat_mono (s s' : rt S) : Prop := ∀ p, is_satisfied s p → is_satisfied s' p.

Lemma sat_mono_refl s : sat_mono s s.
Proof. by intros p. Qed.

Lemma ready_mono s s' t : sat_mono s s' → ready s t → ready s' t.
Proof. intros H Hr p Hp. by apply H, Hr. Qed.

Lemma done_mono s s' t i : sat_mono s s' → done_upto s t i → done_upto s' t i.
Proof. intros H Hd j p Hj He Hp. by apply H, (Hd j). Qed.

Lemma task_ok_mono s s' t p : sat_mono s s' → task_ok s t p → task_ok s' t p.
Proof.
  intros H [Hs Hp]. split; [done|]. destruct p; try done.
  - destruct Hp. split; [by eapply ready_mono|by eapply done_mono].
  - destruct Hp as (? & ? & ? & Hd). repeat split; try done. by eapply done_mono.
  - by eapply done_mono.
  - destruct Hp. split; [by eapply ready_mono|by eapply done_mono].
Qed.

Lemma same_rest_sat s s' : same_rest s s' → sat_mono s s'.
Proof.
  intros [] p (pr & Hp & Hs).
  destruct (same_satisfied0 p pr Hp) as (pr' & Hp' & Hs' & _); [congruence|].
  exists pr'. split; [done|congruence].
Qed.

Lemma done_extend s t i p :
  done_upto s t (i - 1) → entry t i = Some p → (p ≠ NULL → is_satisfied s p) → done_upto s t i.
Proof.
  intros Hd He Hp j q Hj Hq Hn. destruct (decide (j = i)) as [->|]; [|apply (Hd j); [lia|done..]].
  assert (q = p) as -> by congruence. by apply Hp.
Qed.

(** ** Lemmas: wait lists *)

Lemma promise_ok_task s f p pr t tk :
  (∀ q, f t ≠ Waiting q) → promise_ok s f p pr →
  promise_ok (set_tasks (<[t := tk]> (tasks s)) s) f p pr.
Proof.
  intros Ht [H|(H0 & l & Hc & Hnd & Hl)]; [by left|]. right. split; [done|]. exists l.
  split; [|done]. cbn. apply chain_insert; [|done]. rewrite Hl. apply Ht.
Qed.

(** Rewriting a task that is in no queue. *)
Lemma heap_ok_task s f t tk tk' :
  heap_ok s f → tasks s !! t = Some tk → (∀ q, f t ≠ Waiting q) → task_ok s tk' (f t) →
  heap_ok (set_tasks (<[t := tk']> (tasks s)) s) f.
Proof.
  intros [] Ht Hf Hok. split; cbn; try done.
  - intros p pr Hp. apply promise_ok_task; [done|by apply heap_promises0].
  - intros t'. rewrite heap_present0. destruct (decide (t' = t)) as [->|].
    + rewrite lookup_insert_eq, Ht. done.
    + by rewrite lookup_insert_ne.
  - intros t' tk1 H1. apply (task_ok_mono s); [apply (sat_mono_refl s)|]. destruct (decide (t' = t)) as [->|].
    + rewrite lookup_insert_eq in H1. by injection H1 as <-.
    + rewrite lookup_insert_ne in H1 by done. by apply heap_tasks0.
  - intros t' H1. apply heap_bounds0. destruct (decide (t' = t)) as [->|]; [by rewrite Ht|].
    by rewrite lookup_insert_ne in H1.
Qed.

Lemma heap_ok_ext s f f' : (∀ t, f' t = f t) → heap_ok s f → heap_ok s f'.
Proof.
  intros E []. split; try done.
  - intros t. by rewrite E.
  - intros p pr Hp. destruct (heap_promises0 p pr Hp) as [(H1 & H2 & H3)|(H1 & l & Hc & Hnd & Hl)].
    + left. split; [done|]. split; [done|]. intros t. by rewrite E.
    + right. split; [done|]. exists l. split; [done|]. split; [done|]. intros t. by rewrite E.
  - intros t p. rewrite E. apply heap_waiting0.
  - intros t. by rewrite E.
  - intros t tk Ht. rewrite E. by apply heap_tasks0.
Qed.

Lemma same_rest_task s t tk tk' :
  tasks s !! t = Some tk → task_static tk' = task_static tk →
  non_blocking tk' = non_blocking tk →
  same_rest s (set_tasks (<[t := tk']> (tasks s)) s).
Proof.
  intros Ht Hst Hnb. split; try done; cbn.
  - rewrite fmap_insert, Hst. apply insert_id. by rewrite lookup_fmap, Ht.
  - rewrite fmap_insert, Hnb. apply insert_id. by rewrite lookup_fmap, Ht.
  - intros p pr Hp _. by exists pr.
Qed.

(** Adding a task that is in no queue to the wait list of an unsatisfied
    promise. *)
Definition wait_state (s : rt S) (t : Z) (tk : hclib_task_t) (p : Z) (pr : hclib_promise_t) : rt S :=
  set_promises (<[p := mkPromise (satisfied pr) (datum pr) t]> (promises s))
    (set_tasks (<[t := tk]> (tasks s)) s).

Lemma heap_ok_wait s f t tk p pr :
  heap_ok s f → is_Some (tasks s !! t) → f t = Woken →
  promises s !! p = Some pr → satisfied pr = 0 → next_waiter tk = wait_list_head pr →
  task_ok s tk (Waiting p) →
  heap_ok (wait_state s t tk p pr) (<[t := Waiting p]> f).
Proof.
  intros Hok Ht Hf Hp Hsat Hnext Htk. set (s2 := wait_state s t tk p pr).
  assert (sat_mono s s2) as Hmono.
  { intros q (qr & Hq & Hs). exists qr. split; [|done]. cbn. rewrite lookup_insert_ne; [done|congruence]. }
  destruct Hok. split; try done.
  - intros t'. change (pool_tasks (pool s2)) with (pool_tasks (pool s)). destruct (decide (t' = t)) as [->|].
    + rewrite fn_lookup_insert, heap_pool0, Hf. done.
    + by rewrite fn_lookup_insert_ne.
  - intros q qr. cbn. destruct (decide (q = p)) as [->|].
    + rewrite lookup_insert_eq. intros [= <-]. right. cbn. split; [done|].
      destruct (heap_promises0 p pr Hp) as [[? _]|(_ & l & Hc & Hnd & Hl)]; [congruence|].
      assert (t ∉ l) as Hn by (rewrite Hl; congruence).
      exists (t :: l). split; [|split].
      * cbn. split; [done|]. eexists. split; [by rewrite lookup_insert_eq|]. rewrite Hnext.
        by apply chain_insert.
      * by constructor.
      * intros t'. rewrite elem_of_cons, Hl. destruct (decide (t' = t)) as [->|].
        -- rewrite fn_lookup_insert. split; [done|by left].
        -- rewrite fn_lookup_insert_ne by done. naive_solver.
    + rewrite lookup_insert_ne by done. intros Hq. apply heap_promises0 in Hq.
      apply (promise_ok_task s f q qr t tk) in Hq; [|congruence].
      destruct Hq as [(H1 & H2 & H3)|(H1 & l & Hc & Hnd & Hl)].
      * left. split; [done|]. split; [done|]. intros t'. destruct (decide (t' = t)) as [->|].
        -- rewrite fn_lookup_insert. congruence.
        -- by rewrite fn_lookup_insert_ne.
      * right. split; [done|]. exists l. split; [done|]. split; [done|]. intros t'.
        rewrite Hl. destruct (decide (t' = t)) as [->|].
        -- rewrite fn_lookup_insert, Hf. split; congruence.
        -- by rewrite fn_lookup_insert_ne.
  - intros t' q. cbn. rewrite lookup_insert_is_Some.
    destruct (decide (t' = t)) as [->|].
    + rewrite fn_lookup_insert. intros [= <-]. by left.
    + rewrite fn_lookup_insert_ne by done. intros Hq. destruct (decide (p = q)); [by left|right].
      split; [done|by eapply heap_waiting0].
  - intros t'. cbn. rewrite lookup_insert_is_Some. destruct (decide (t' = t)) as [->|].
    + rewrite fn_lookup_insert. split; [by left|done].
    + rewrite fn_lookup_insert_ne, heap_present0 by done. naive_solver.
  - intros t' tk'. cbn. destruct (decide (t' = t)) as [->|].
    + rewrite lookup_insert_eq, fn_lookup_insert. intros [= <-].
      apply (task_ok_mono s); [done|]. exact Htk.
    + rewrite lookup_insert_ne, fn_lookup_insert_ne by done. intros H1.
      apply (task_ok_mono s); [done|by apply heap_tasks0].
  - intros t'. cbn. rewrite lookup_insert_is_Some. intros [<-|[_ Hq]]; by apply heap_bounds0.
  - intros q. cbn. rewrite lookup_insert_is_Some. intros [<-|[_ Hq]]; [|by apply heap_promise_bounds0].
    apply heap_promise_bounds0. by rewrite Hp.
Qed.

Lemma same_rest_wait s t tk tk' p pr :
  tasks s !! t = Some tk → promises s !! p = Some pr → satisfied pr = 0 →
  task_static tk' = task_static tk → non_blocking tk' = non_blocking tk →
  same_rest s (wait_state s t tk' p pr).
Proof.
  intros Ht Hp Hs Hst Hnb.
  destruct (same_rest_task s t tk tk' Ht Hst Hnb). split; try done; cbn.
  - intros q qr Hq Hsq. exists qr. split; [|done]. rewrite lookup_insert_ne; [done|congruence].
  - intros q. rewrite lookup_insert_is_Some. split.
    + intros [<-|[_ Hq]]; [by rewrite Hp|done].
    + intros Hq. destruct (decide (p = q)); [by left|by right].
Qed.

(** ** Lemmas: registering on futures *)

Lemma register_if_Ok t p s b s' :
  _register_if_promise_not_ready t p s = Ok (b, s') →
  ∃ pr, promises s !! p = Some pr ∧
    ((b = false ∧ s' = s ∧ wait_list_head pr = SATISFIED_FUTURE_WAITLIST_PTR) ∨
     (b = true ∧ wait_list_head pr ≠ SATISFIED_FUTURE_WAITLIST_PTR ∧
      ∃ tk, tasks s !! t = Some tk ∧ s' = wait_state s t (set_next tk (wait_list_head pr)) p pr)).
Proof.
  intros H. unfold _register_if_promise_not_ready in H. m_bind H. m_bind H as pr s1 Hp.
  exists pr. split; [done|]. destruct (Z.eqb_spec (wait_list_head pr) SATISFIED_FUTURE_WAITLIST_PTR);
    cbn [negb] in H.
  - m_action H. by left.
  - m_bind H as tk s1 Ht. m_bind H. m_bind H. m_action H. right. split; [done|]. split; [done|].
    by exists tk.
Qed.

Definition only_task (s s' : rt S) (t : Z) : Prop :=
  ∀ t', t' ≠ t → tasks s' !! t' = tasks s !! t'.

Lemma only_task_insert s t tk : only_task s (set_tasks (<[t := tk]> (tasks s)) s) t.
Proof. intros t' Ht. cbn. by rewrite lookup_insert_ne. Qed.

Lemma only_task_trans s1 s2 s3 t : only_task s1 s2 t → only_task s2 s3 t → only_task s1 s3 t.
Proof. intros H1 H2 t' Ht. rewrite H2 by done. by apply H1. Qed.

(** The index moves to the next position, and the task is registered there when
    that future is not satisfied. *)
Lemma advance_ok s f t tk p b s' :
  heap_ok s f → f t = Woken → tasks s !! t = Some tk →
  let tk1 := set_index tk (waiting_on_index tk + 1) in
  let s1 := set_tasks (<[t := tk1]> (tasks s)) s in
  entry tk (waiting_on_index tk + 1) = Some p →
  (p = NULL ∧ b = false ∧ s' = s1 ∨
   p ≠ NULL ∧ _register_if_promise_not_ready t p s1 = Ok (b, s')) →
  same_rest s s' ∧ only_task s s' t ∧
  (if b then heap_ok s' (<[t := Waiting p]> f)
   else heap_ok s' f ∧ tasks s' !! t = Some tk1).
Proof.
  intros Hok Hf Ht tk1 s1 He Hcase.
  pose proof (heap_tasks _ _ Hok t tk Ht) as [[Hlen Hidx] Hdone]. rewrite Hf in Hdone.
  assert (task_shape tk1) as Hshape by (split; [done|cbn; lia]).
  assert ((p ≠ NULL → is_satisfied s p) → heap_ok s1 f) as Hnext.
  { intros Hp. apply (heap_ok_task _ _ _ tk); [done|done|congruence|]. split; [done|]. rewrite Hf.
    change (waiting_on_index tk1) with (waiting_on_index tk + 1).
    apply (done_extend s tk1 _ p); [|done|done].
    replace (waiting_on_index tk + 1 - 1) with (waiting_on_index tk) by lia. exact Hdone. }
  destruct Hcase as [(-> & -> & ->)|(Hn & Hr)].
  - split; [by apply (same_rest_task s t tk)|]. split; [apply only_task_insert|].
    split; [by apply Hnext|]. cbn. by rewrite lookup_insert_eq.
  - apply register_if_Ok in Hr as (pr & Hp & [(-> & -> & Hh)|(-> & Hh & tk2 & Ht2 & ->)]).
    + split; [by apply (same_rest_task s t tk)|]. split; [apply only_task_insert|].
      split; [|cbn; by rewrite lookup_insert_eq]. apply Hnext. intros _. exists pr. split; [done|].
      destruct (heap_promises _ _ Hok p pr Hp) as [(? & _)|(_ & l & Hc & _)]; [done|].
      destruct l as [|x l]; cbn in Hc; [rewrite Hc in Hh; done|].
      destruct Hc as (Hx & tk3 & Ht3 & _). exfalso.
      pose proof (heap_bounds _ _ Hok x ltac:(by rewrite Ht3)).
      unfold SATISFIED_FUTURE_WAITLIST_PTR, NULL in Hh. lia.
    + cbn in Ht2. rewrite lookup_insert_eq in Ht2. injection Ht2 as <-.
      assert (satisfied pr = 0) as Hs0.
      { destruct (heap_promises _ _ Hok p pr Hp) as [(_ & ? & _)|(? & _)]; [congruence|done]. }
      set (tk2 := set_next tk1 (wait_list_head pr)).
      assert (wait_state s1 t tk2 p pr = wait_state s t tk2 p pr) as E.
      { unfold wait_state, s1, set_promises, set_tasks. cbn. by rewrite insert_insert_eq. }
      rewrite E. split; [by apply (same_rest_wait s t tk)|]. split; [apply only_task_insert|].
      apply heap_ok_wait; try done.
      split; [done|]. split; [exact He|]. split; [done|]. split; [cbn; lia|].
      change (waiting_on_index tk2) with (waiting_on_index tk + 1).
      replace (waiting_on_index tk + 1 - 1) with (waiting_on_index tk) by lia. exact Hdone.
Qed.

(** What a registration loop leaves: the task waits, or every position up to
    its index is satisfied. *)
Definition registered (s s' : rt S) (f : Z → place) (t : Z) (tk : hclib_task_t) (b : bool)
    (last : Z → Prop) : Prop :=
  same_rest s s' ∧ only_task s s' t ∧
  if b then heap_ok s' f ∧ ∃ i, tasks s' !! t = Some (set_index tk i) ∧ last i
  else ∃ p, heap_ok s' (<[t := Waiting p]> f).

Lemma registered_step s s1 s' f t tk i b last :
  same_rest s s1 → only_task s s1 t →
  registered s1 s' f t (set_index tk i) b last → registered s s' f t tk b last.
Proof.
  intros H1 Ho1 (H2 & Ho & Hb). split; [by eapply same_rest_trans|].
  split; [by eapply only_task_trans|]. destruct b; [|done]. exact Hb.
Qed.

Lemma register_inline_ok fuel t s f tk b s' :
  register_inline fuel t s = Ok (b, s') →
  heap_ok s f → f t = Woken → tasks s !! t = Some tk →
  registered s s' f t tk b (λ i, MAX_NUM_WAITS - 1 <= i).
Proof.
  revert s tk. induction fuel as [|fuel IH]; intros s tk H Hok Hf Ht; [done|].
  cbn [register_inline] in H. m_bind H as tk0 s1 Ht0. assert (tk0 = tk) as -> by congruence.
  destruct (Z.ltb_spec (waiting_on_index tk) (MAX_NUM_WAITS - 1)) as [Hlt|Hge].
  - m_bind H as u s1 Hs1. unfold set_waiting_on_index in Hs1. m_bind Hs1 as tk0 s2 Ht1.
    m_action Hs1. assert (tk0 = tk) as -> by congruence.
    fold (set_index tk (waiting_on_index tk + 1)) in H.
    m_bind H as curr s2 Hcurr. apply array_get_Ok in Hcurr as [Hnn Hcurr].
    assert (entry tk (waiting_on_index tk + 1) = Some curr) as He.
    { unfold entry. destruct (Z.ltb_spec (waiting_on_index tk + 1) MAX_NUM_WAITS); [done|lia]. }
    destruct (Z.eqb_spec curr NULL) as [->|Hn]; cbn [negb] in H.
    + destruct (advance_ok s f t tk NULL false _ Hok Hf Ht He ltac:(by left)) as (Hr & Ho & Hok1 & Ht2).
      eapply registered_step; [exact Hr|exact Ho|]. eapply IH; [exact H|done|done|exact Ht2].
    + m_bind H as r s3 Hr.
      destruct (advance_ok s f t tk curr r s3 Hok Hf Ht He ltac:(by right)) as (Hsr & Ho & Hok1).
      destruct r.
      * m_action H. split; [done|]. split; [done|]. by exists curr.
      * destruct Hok1 as [Hok1 Ht2]. eapply registered_step; [exact Hsr|exact Ho|].
        eapply IH; [exact H|done|done|exact Ht2].
  - m_action H. split; [apply same_rest_refl|]. split; [done|]. split; [done|].
    exists (waiting_on_index tk). by rewrite set_index_id.
Qed.

Lemma register_extra_ok fuel t extra s f tk b s' :
  register_extra fuel t extra s = Ok (b, s') → waiting_on_extra tk = Some extra →
  MAX_NUM_WAITS - 1 <= waiting_on_index tk →
  heap_ok s f → f t = Woken → tasks s !! t = Some tk →
  registered s s' f t tk b (λ i, MAX_NUM_WAITS - 1 <= i ∧
    extra !! Z.to_nat (i - MAX_NUM_WAITS + 1) = Some NULL).
Proof.
  revert s tk. induction fuel as [|fuel IH]; intros s tk H Hex Hi Hok Hf Ht; [done|].
  cbn [register_extra] in H. m_bind H as tk0 s1 Ht0. assert (tk0 = tk) as -> by congruence.
  m_bind H as next s1 Hnext. apply array_get_Ok in Hnext as [Hnn Hnext].
  destruct (Z.eqb_spec next NULL) as [->|Hn]; cbn [negb] in H.
  - m_action H. split; [apply same_rest_refl|]. split; [done|]. split; [done|].
    exists (waiting_on_index tk). by rewrite set_index_id.
  - m_bind H as u s1 Hs1. unfold set_waiting_on_index in Hs1. m_bind Hs1 as tk0 s2 Ht1.
    m_action Hs1. assert (tk0 = tk) as -> by congruence.
    fold (set_index tk (waiting_on_index tk + 1)) in H.
    m_bind H as curr s2 Hcurr. apply array_get_Ok in Hcurr as [Hnn' Hcurr].
    replace (waiting_on_index tk + 1 - MAX_NUM_WAITS) with (waiting_on_index tk - MAX_NUM_WAITS + 1)
      in Hcurr by lia. assert (curr = next) as -> by congruence.
    assert (entry tk (waiting_on_index tk + 1) = Some next) as He.
    { unfold entry. destruct (Z.ltb_spec (waiting_on_index tk + 1) MAX_NUM_WAITS); [lia|].
      rewrite Hex, <- Hnext. f_equal. lia. }
    m_bind H as r s3 Hr.
    destruct (advance_ok s f t tk next r s3 Hok Hf Ht He ltac:(by right)) as (Hsr & Ho & Hok1).
    destruct r.
    + m_action H. split; [done|]. split; [done|]. by exists next.
    + destruct Hok1 as [Hok1 Ht2]. eapply registered_step; [exact Hsr|exact Ho|].
      apply (IH s3 (set_index tk (waiting_on_index tk + 1)));
        [exact H|done|cbn; lia|done|done|exact Ht2].
Qed.

Lemma done_ready s t i :
  length (waiting_on t) = 4%nat → done_upto s t i → MAX_NUM_WAITS - 1 <= i →
  (∀ extra, waiting_on_extra t = Some extra →
    extra !! Z.to_nat (i - MAX_NUM_WAITS + 1) = Some NULL) → ready s t.
Proof. intros ??? Hex p. by apply (upto_deps _ _ i). Qed.

Lemma register_deps_ok t s f tk b s' :
  register_on_all_promise_dependencies t s = Ok (b, s') →
  heap_ok s f → f t = Woken → tasks s !! t = Some tk →
  registered s s' f t tk b (λ i, ready s' (set_index tk i)).
Proof.
  intros H Hok Hf Ht. unfold register_on_all_promise_dependencies in H.
  m_bind H as r s1 Hr. apply (register_inline_ok _ _ _ f tk) in Hr; [|done..].
  destruct r; [|m_action H; exact Hr].
  destruct Hr as (Hsr & Ho & Hok1 & i & Ht1 & Hi). m_bind H as tk1 s2 Ht2.
  assert (tk1 = set_index tk i) as -> by congruence. cbn [waiting_on_extra set_index] in H.
  assert (∀ s2 f2 j tk2, heap_ok s2 f2 → f2 t = Woken → tasks s2 !! t = Some tk2 →
    waiting_on_index tk2 = j → task_ok s2 tk2 Woken) as Htask.
  { intros s2 f2 j tk2 Hok2 Hf2 Ht3 _. pose proof (heap_tasks _ _ Hok2 t tk2 Ht3) as H2.
    by rewrite Hf2 in H2. }
  destruct (waiting_on_extra tk) as [extra|] eqn:Hex.
  - apply (register_extra_ok _ _ _ _ f (set_index tk i)) in H; [|done..].
    destruct H as (Hsr2 & Ho2 & Hb). split; [by eapply same_rest_trans|].
    split; [by eapply only_task_trans|]. destruct b; [|done]. destruct Hb as (Hok2 & j & Ht3 & Hj & Hnull). split; [done|].
    exists j. split; [done|].
    destruct (Htask _ _ j _ Hok2 Hf Ht3 eq_refl) as [[Hlen _] Hd].
    apply (done_ready _ _ j); [done|done|done|]. intros ex Hex'. cbn in Hex'.
    by assert (ex = extra) as -> by congruence.
  - m_action H. split; [done|]. split; [done|]. split; [done|]. exists i. split; [done|].
    destruct (Htask _ _ i _ Hok1 Hf Ht1 eq_refl) as [[Hlen _] Hd].
    apply (done_ready _ _ i); [done|done|done|]. intros ex Hex'. cbn in Hex'. congruence.
Qed.
(** ** Lemmas: scheduling and waking *)

(** Changing the place of a task that is in no queue, without touching memory. *)
Lemma heap_ok_place s f t tk x :
  heap_ok s f → tasks s !! t = Some tk → x ≠ Absent → x ≠ Queued →
  (∀ p, x ≠ Waiting p) → f t ≠ Queued → (∀ p, f t ≠ Waiting p) → task_ok s tk x →
  heap_ok s (<[t := x]> f).
Proof.
  intros [] Ht Hx1 Hx2 Hx3 Hf1 Hf2 Hok. split; try done.
  - intros t'. rewrite heap_pool0. destruct (decide (t' = t)) as [->|].
    + rewrite fn_lookup_insert. done.
    + by rewrite fn_lookup_insert_ne.
  - intros p pr Hp. destruct (heap_promises0 p pr Hp) as [(H1 & H2 & H3)|(H1 & l & Hc & Hnd & Hl)].
    + left. split; [done|]. split; [done|]. intros t'. destruct (decide (t' = t)) as [->|].
      * rewrite fn_lookup_insert. apply Hx3.
      * by rewrite fn_lookup_insert_ne.
    + right. split; [done|]. exists l. split; [done|]. split; [done|]. intros t'. rewrite Hl.
      destruct (decide (t' = t)) as [->|].
      * rewrite fn_lookup_insert. split; intros E; [by apply Hf2 in E|by apply Hx3 in E].
      * by rewrite fn_lookup_insert_ne.
  - intros t' p. destruct (decide (t' = t)) as [->|].
    + rewrite fn_lookup_insert. by intros E%Hx3.
    + rewrite fn_lookup_insert_ne by done. apply heap_waiting0.
  - intros t'. destruct (decide (t' = t)) as [->|].
    + rewrite fn_lookup_insert, Ht. done.
    + rewrite fn_lookup_insert_ne by done. apply heap_present0.
  - intros t' tk' Ht'. destruct (decide (t' = t)) as [->|].
    + rewrite fn_lookup_insert. by assert (tk' = tk) as -> by congruence.
    + rewrite fn_lookup_insert_ne by done. by apply heap_tasks0.
Qed.

(** A change of the pool that adds or removes one task. *)
Lemma heap_ok_push s f t tk pl :
  heap_ok s f → tasks s !! t = Some tk → f t = Woken → ready s tk →
  pool_ok pl → pool_tasks pl ≡ₚ t :: pool_tasks (pool s) →
  heap_ok (set_pool pl s) (<[t := Queued]> f).
Proof.
  intros Hok Ht Hf Hr Hpl Hperm. pose proof (heap_tasks _ _ Hok t tk Ht) as [Hsh Hd].
  rewrite Hf in Hd. destruct Hok. split; cbn; try done.
  - rewrite Hperm. apply NoDup_cons. split; [rewrite heap_pool0; congruence|done].
  - intros t'. rewrite Hperm, elem_of_cons, heap_pool0. destruct (decide (t' = t)) as [->|].
    + rewrite fn_lookup_insert. split; [done|by left].
    + rewrite fn_lookup_insert_ne by done. naive_solver.
  - intros p pr Hp. destruct (heap_promises0 p pr Hp) as [(H1 & H2 & H3)|(H1 & l & Hc & Hnd & Hl)].
    + left. split; [done|]. split; [done|]. intros t'. destruct (decide (t' = t)) as [->|].
      * rewrite fn_lookup_insert. done.
      * by rewrite fn_lookup_insert_ne.
    + right. split; [done|]. exists l. split; [done|]. split; [done|]. intros t'. rewrite Hl.
      destruct (decide (t' = t)) as [->|].
      * rewrite fn_lookup_insert, Hf. done.
      * by rewrite fn_lookup_insert_ne.
  - intros t' p. destruct (decide (t' = t)) as [->|].
    + by rewrite fn_lookup_insert.
    + rewrite fn_lookup_insert_ne by done. apply heap_waiting0.
  - intros t'. destruct (decide (t' = t)) as [->|].
    + rewrite fn_lookup_insert, Ht. done.
    + rewrite fn_lookup_insert_ne by done. apply heap_present0.
  - intros t' tk' Ht'. apply (task_ok_mono s); [apply (sat_mono_refl s)|].
    destruct (decide (t' = t)) as [->|].
    + rewrite fn_lookup_insert. assert (tk' = tk) as -> by congruence. done.
    + rewrite fn_lookup_insert_ne by done. by apply heap_tasks0.
Qed.

Lemma same_rest_pool s pl : same_rest s (set_pool pl s).
Proof. split; try done. intros p pr Hp _. by exists pr. Qed.

Lemma rt_schedule_ok t ws s f tk u s' :
  rt_schedule_async t ws s = Ok (u, s') →
  heap_ok s f → f t = Woken → tasks s !! t = Some tk → ready s tk →
  heap_ok s' (<[t := Queued]> f) ∧ same_rest s s' ∧ tasks s' = tasks s.
Proof.
  intros H Hok Hf Ht Hr. unfold rt_schedule_async in H. m_bind H as tk0 s1 Ht0.
  assert (t ≠ NULL) as Hn.
  { pose proof (heap_bounds _ _ Hok t ltac:(by rewrite Ht)). unfold NULL. lia. }
  pose proof (heap_pool_ok _ _ Hok) as Hpl.
  destruct (t_locale tk0) as [l|]; [|m_bind H]; m_bind H as r s1 Hp;
    apply with_pool_Ok in Hp as (pl & Hp & ->); m_action H;
    apply negb_true_iff, Z.eqb_neq in H.
  - destruct (pool_push_locale_law _ _ _ _ _ _ Hpl Hn Hp H) as [Hpl' Hperm].
    split; [by eapply heap_ok_push|]. split; [apply same_rest_pool|done].
  - destruct (pool_push_default_law _ _ _ _ _ Hpl Hn Hp H) as [Hpl' Hperm].
    split; [by eapply heap_ok_push|]. split; [apply same_rest_pool|done].
Qed.

Lemma try_schedule_ok t ws s f tk u s' :
  try_schedule_async t ws s = Ok (u, s') →
  heap_ok s f → f t = Woken → tasks s !! t = Some tk →
  same_rest s s' ∧ only_task s s' t ∧
  ∃ x, heap_ok s' (<[t := x]> f) ∧ (x = Queued ∨ ∃ p, x = Waiting p).
Proof.
  intros H Hok Hf Ht. unfold try_schedule_async in H. m_bind H as e s1 He.
  unfold is_eligible_to_schedule in He. m_bind He as tk0 s2 Ht0.
  assert (tk0 = tk) as -> by congruence. m_bind He as first s2 Hfirst.
  apply array_get_Ok in Hfirst as [_ Hfirst].
  destruct (Z.eqb_spec first NULL) as [->|Hn]; cbn [negb] in He.
  - m_action He. cbn [when] in H. eapply rt_schedule_ok in H as (Hok' & Hsr & Hts); [|done..|].
    + split; [done|]. split; [intros t' _; by rewrite Hts|]. exists Queued. split; [done|by left].
    + intros p Hp. unfold deps in Hp. destruct (waiting_on tk) as [|q l]; [done|].
      cbn in Hfirst. injection Hfirst as ->. by apply elem_of_nil in Hp.
  - apply (register_deps_ok _ _ f tk) in He; [|done..]. destruct He as (Hsr & Ho & Hb).
    destruct e; cbn [when] in H.
    + destruct Hb as (Hok1 & i & Ht1 & Hr).
      eapply rt_schedule_ok in H as (Hok' & Hsr' & Hts); [|done..].
      split; [by eapply same_rest_trans|]. split; [intros t' Hne; rewrite Hts; by apply Ho|].
      exists Queued. split; [done|by left].
    + m_action H. destruct Hb as (p & Hp). split; [done|]. split; [done|].
      exists (Waiting p). split; [done|]. right. by exists p.
Qed.

(** What waking a list of tasks leaves. *)
Definition scattered (f f' : Z → place) (l : list Z) : Prop :=
  ∀ t, (t ∉ l → f' t = f t) ∧ (t ∈ l → f' t = Queued ∨ ∃ p, f' t = Waiting p).

(** One step of the walk: [t] is registered again, and scheduled when none of its
    futures is left. *)
Lemma wake_one_ok t ws s f tk r s1 u s2 :
  register_on_all_promise_dependencies t s = Ok (r, s1) →
  when r (try_schedule_async t ws) s1 = Ok (u, s2) →
  heap_ok s f → f t = Woken → tasks s !! t = Some tk →
  same_rest s s2 ∧ only_task s s2 t ∧
  ∃ x, heap_ok s2 (<[t := x]> f) ∧ (x = Queued ∨ ∃ p, x = Waiting p).
Proof.
  intros Hr Hw Hok Hf Ht. apply (register_deps_ok _ _ f tk) in Hr as (Hsr & Ho & Hb); [|done..].
  destruct r; cbn [when] in Hw.
  - destruct Hb as (Hok1 & i & Ht1 & _).
    apply (try_schedule_ok _ _ _ f (set_index tk i)) in Hw as (Hsr1 & Ho1 & Hx); [|done..].
    split; [by eapply same_rest_trans|]. split; [by eapply only_task_trans|done].
  - m_action Hw. destruct Hb as (p & Hp). split; [done|]. split; [done|].
    exists (Waiting p). split; [done|]. right. by exists p.
Qed.

Lemma wake_loop_ok fuel head ws l s f u s' :
  wake_loop fuel head ws s = Ok (u, s') →
  chain (tasks s) head l → NoDup l → (∀ t, t ∈ l → f t = Woken) → heap_ok s f →
  same_rest s s' ∧ ∃ f', heap_ok s' f' ∧ scattered f f' l.
Proof.
  revert head l s f. induction fuel as [|fuel IH]; intros head l s f H Hc Hnd Hl Hok; [done|].
  cbn [wake_loop] in H. destruct l as [|t l].
  - cbn in Hc. rewrite Hc, Z.eqb_refl in H. cbn [negb] in H. m_action H.
    split; [apply same_rest_refl|]. exists f. split; [done|]. intros t. by split; [|intros ?%elem_of_nil].
  - destruct Hc as (-> & tk & Ht & Hc). pose proof (heap_bounds _ _ Hok t ltac:(by rewrite Ht)).
    rewrite (proj2 (Z.eqb_neq t SENTINEL_FUTURE_WAITLIST_PTR)) in H
      by (unfold SENTINEL_FUTURE_WAITLIST_PTR; lia). cbn [negb] in H.
    m_bind H as tk0 s1 Ht0. assert (tk0 = tk) as -> by congruence.
    apply NoDup_cons in Hnd as [Hn Hnd]. m_bind H as r s1 Hr. m_bind H as v s2 Hw.
    destruct (wake_one_ok t ws s f tk r s1 v s2) as (Hsr2 & Ho2 & x & Hok2 & Hx);
      [done|done|done|apply Hl; by left|done|].
    destruct (IH (next_waiter tk) l s2 (<[t := x]> f) H) as (Hsr3 & f' & Hok3 & Hsc);
      [|done| |done|].
    { eapply chain_same_next; [|done]. intros t' Ht'. rewrite Ho2; [done|congruence]. }
    { intros t' Ht'. rewrite fn_lookup_insert_ne by congruence. apply Hl. by right. }
    split; [by eapply same_rest_trans|]. exists f'. split; [done|].
    intros t'. destruct (Hsc t') as [H1 H2]. split.
    + intros [Hne Hnl]%not_elem_of_cons. rewrite H1 by done. by rewrite fn_lookup_insert_ne.
    + intros [->|Hin]%elem_of_cons; [|by apply H2]. rewrite H1 by done.
      by rewrite fn_lookup_insert.
Qed.

Definition wake (f : Z → place) (p : Z) : Z → place :=
  λ t, if decide (f t = Waiting p) then Woken else f t.

(** The state in which [hclib_promise_put] starts to wake the wait list. *)
Lemma heap_ok_satisfy s f p pr d :
  heap_ok s f → promises s !! p = Some pr → satisfied pr = 0 →
  heap_ok (set_promises (<[p := mkPromise 1 d SATISFIED_FUTURE_WAITLIST_PTR]> (promises s)) s)
    (wake f p).
Proof.
  intros Hok Hp Hs. set (s1 := set_promises _ s).
  assert (sat_mono s s1) as Hmono.
  { intros q (qr & Hq & Hqs). exists qr. split; [|done]. cbn. rewrite lookup_insert_ne; [done|congruence]. }
  assert (is_satisfied s1 p) as Hsp by (eexists; split; [cbn; by rewrite lookup_insert_eq|done]).
  destruct Hok. split; try done; unfold wake.
  - intros t. change (pool_tasks (pool s1)) with (pool_tasks (pool s)). rewrite heap_pool0.
    destruct (decide (f t = Waiting p)) as [E|]; [rewrite E|]; done.
  - intros q qr. cbn. destruct (decide (q = p)) as [->|].
    + rewrite lookup_insert_eq. intros [= <-]. left. split; [done|]. split; [done|].
      intros t. by destruct (decide (f t = Waiting p)).
    + rewrite lookup_insert_ne by done. intros Hq.
      destruct (heap_promises0 q qr Hq) as [(H1 & H2 & H3)|(H1 & l & Hc & Hnd & Hl)].
      * left. split; [done|]. split; [done|]. intros t. specialize (H3 t).
        by destruct (decide (f t = Waiting p)).
      * right. split; [done|]. exists l. split; [done|]. split; [done|]. intros t. rewrite Hl.
        destruct (decide (f t = Waiting p)) as [E|]; [rewrite E; split; congruence|done].
  - intros t q. destruct (decide (f t = Waiting p)); [done|]. intros Hq. cbn.
    rewrite lookup_insert_is_Some. destruct (decide (p = q)); [by left|right].
    split; [done|by eapply heap_waiting0].
  - intros t. change (tasks s1) with (tasks s). rewrite <- heap_present0.
    destruct (decide (f t = Waiting p)) as [E|]; [by rewrite E|done].
  - intros t tk Ht. pose proof (heap_tasks0 t tk Ht) as H1.
    apply (task_ok_mono s s1) in H1; [|done].
    destruct (decide (f t = Waiting p)) as [E|]; [|done]. rewrite E in H1.
    destruct H1 as [Hsh (He & Hn & Hi & Hd)]. split; [done|].
    by apply (done_extend _ _ _ p).
  - intros q. cbn. rewrite lookup_insert_is_Some. intros [<-|[_ Hq]]; [|by apply heap_promise_bounds0].
    apply heap_promise_bounds0. by rewrite Hp.
Qed.

Lemma put_ok p d s f u s' :
  hclib_promise_put p d s = Ok (u, s') → heap_ok s f →
  same_rest s s' ∧
  (∃ pr, promises s !! p = Some pr ∧ satisfied pr = 0) ∧
  (∃ pr', promises s' !! p = Some pr' ∧ satisfied pr' = 1 ∧ datum pr' = d) ∧
  ∃ f', heap_ok s' f' ∧ moved f f' ∧ (∀ t, f' t = Woken → f t = Woken).
Proof.
  intros H Hok. unfold hclib_promise_put in H. m_bind H. m_bind H as pr s1 Hp. m_bind H as x s1 Hs.
  apply Z.eqb_eq in Hs. m_bind H. m_bind H. m_bind H.
  pose proof (heap_ok_satisfy s f p pr d Hok Hp Hs) as Hok1.
  set (s1 := set_promises _ s) in *.
  destruct (heap_promises _ _ Hok p pr Hp) as [[? _]|(_ & l & Hc & Hnd & Hl)]; [congruence|].
  eapply (wake_loop_ok _ _ _ l) in H as (Hsr & f' & Hok' & Hsc); [|exact Hc|done| |exact Hok1].
  2: { intros t Ht. unfold wake. rewrite decide_True; [done|]. by apply Hl. }
  assert (same_rest s s1) as Hsr1.
  { split; try done; cbn.
    - intros q qr Hq Hqs. exists qr. split; [|done]. rewrite lookup_insert_ne; [done|congruence].
    - intros q. rewrite lookup_insert_is_Some. split.
      + intros [<-|[_ Hq]]; [by rewrite Hp|done].
      + intros Hq. destruct (decide (p = q)); [by left|by right]. }
  split; [by eapply same_rest_trans|]. split; [by exists pr|]. split.
  { destruct (same_satisfied _ _ Hsr p (mkPromise 1 d SATISFIED_FUTURE_WAITLIST_PTR))
      as (pr' & Hp' & E1 & E2); [cbn; by rewrite lookup_insert_eq|done|]. by exists pr'. }
  exists f'. split; [done|].
  assert (∀ t, t ∈ l → f t = Waiting p) as Hlf by (intros t; apply Hl).
  assert (∀ t, t ∉ l → f' t = f t) as Hout.
  { intros t Ht. destruct (Hsc t) as [Eo _]. rewrite Eo by done. unfold wake.
    rewrite decide_False; [done|]. by rewrite <- Hl. }
  split.
  - intros t. destruct (decide (t ∈ l)) as [Ht|Ht]; [|left; by apply Hout]. right.
    rewrite (Hlf t Ht). destruct (Hsc t) as [_ Ei]. destruct (Ei Ht) as [->|[q ->]]; done.
  - intros t Ht. destruct (decide (t ∈ l)) as [Hin|Hin]; [|by rewrite <- Hout].
    destruct (Hsc t) as [_ Ei]. destruct (Ei Hin) as [E1|[q E1]]; congruence.
Qed.
(** ** Lemmas: calls that leave the stacks alone *)

(** No context changes, and no task starts or reaches a stack. *)
Record quiet (s : rt S) (f : Z → place) (s' : rt S) (f' : Z → place) : Prop := {
  quiet_ctxs : ctxs s' = ctxs s;
  quiet_self : self s' = self s;
  quiet_curr : curr_ctx <$> workers s' = curr_ctx <$> workers s;
  quiet_brk : brk s <= brk s';
  quiet_ready : ∀ t c, f' t = Ready c ↔ f t = Ready c;
  quiet_running : ∀ t c, f' t = Running c ↔ f t = Running c;
  quiet_unstarted : ∀ t, unstarted (f' t) = true → unstarted (f t) = true ∨ brk s <= t;
  quiet_lost : ∀ t, f' t = Lost ↔ f t = Lost;
  quiet_static : static_kept s s';
  quiet_datum : ∀ p pr, promises s !! p = Some pr → satisfied pr ≠ 0 →
    ∃ pr', promises s' !! p = Some pr' ∧ satisfied pr' = satisfied pr ∧ datum pr' = datum pr
}.

Lemma static_same s s' : task_static <$> tasks s' = task_static <$> tasks s → static_kept s s'.
Proof.
  intros E t tk' _ Ht. assert (task_static <$> tasks s !! t = Some (task_static tk')) as H.
  { by rewrite <- lookup_fmap, <- E, lookup_fmap, Ht. }
  apply fmap_Some in H as (tk & Htk & ->). by exists tk.
Qed.

Lemma static_trans s1 s2 s3 :
  brk s1 <= brk s2 → static_kept s1 s2 → static_kept s2 s3 → static_kept s1 s3.
Proof.
  intros Hb H1 H2 t tk3 Ht H3. destruct (H2 t tk3 ltac:(lia) H3) as (tk2 & Hk2 & E2).
  destruct (H1 t tk2 Ht Hk2) as (tk1 & Hk1 & E1). exists tk1. split; [done|congruence].
Qed.

(** Changing one task that is new. *)
Lemma static_insert s t tk m :
  brk s <= t → tasks m = <[t := tk]> (tasks s) → static_kept s m.
Proof.
  intros Hb E x tk' Hx. rewrite E, lookup_insert_ne by lia. intros H. by exists tk'.
Qed.

Lemma quiet_refl s f : quiet s f s f.
Proof. split; try done; auto; [by apply static_same|]. intros p pr Hp _. by exists pr. Qed.

Lemma quiet_trans s1 f1 s2 f2 s3 f3 :
  quiet s1 f1 s2 f2 → quiet s2 f2 s3 f3 → quiet s1 f1 s3 f3.
Proof.
  intros [] []. split; try congruence; try lia.
  - intros t c. by rewrite quiet_ready1.
  - intros t c. by rewrite quiet_running1.
  - intros t H. destruct (quiet_unstarted1 t H) as [H1|H1]; [by apply quiet_unstarted0|right; lia].
  - intros t. by rewrite quiet_lost1.
  - by eapply static_trans.
  - intros p pr Hp Hs. destruct (quiet_datum0 p pr Hp Hs) as (pr1 & Hp1 & Hs1 & Hd1).
    destruct (quiet_datum1 p pr1 Hp1) as (pr2 & Hp2 & Hs2 & Hd2); [congruence|].
    exists pr2. split; [done|]. split; congruence.
Qed.

Lemma quiet_moved s f s' f' : same_rest s s' → moved f f' → quiet s f s' f'.
Proof.
  intros [] Hm. split; try done; try congruence; try lia.
  - intros t c. destruct (Hm t) as [->|(_ & _ & Hr)]; [done|]. destruct (Hr c). done.
  - intros t c. destruct (Hm t) as [->|(H1 & H2 & _)]; [done|]. split; intros E; by rewrite E in *.
  - intros t H. left. destruct (Hm t) as [E|(? & _)]; congruence.
  - intros t. destruct (Hm t) as [->|(H1 & H2 & _)]; [done|]. split; intros E; by rewrite E in *.
  - by apply static_same.
Qed.

(** What a call keeps, from [f] to some [f']. *)
Definition kept (s : rt S) (f : Z → place) (s' : rt S) : Prop :=
  ∃ f', heap_ok s' f' ∧ quiet s f s' f' ∧ (∀ t, f' t = Woken → f t = Woken).

Lemma kept_trans s1 f s2 s3 :
  kept s1 f s2 → (∀ f', heap_ok s2 f' → kept s2 f' s3) → kept s1 f s3.
Proof.
  intros (f2 & Hok2 & Hq2 & Hw2) H. destruct (H f2 Hok2) as (f3 & Hok3 & Hq3 & Hw3).
  exists f3. split; [done|]. split; [by eapply quiet_trans|]. auto.
Qed.

Lemma heap_ok_finishes s f m : heap_ok s f → heap_ok (set_finishes m s) f.
Proof. intros []. by split. Qed.

Lemma heap_ok_workers s f m : heap_ok s f → heap_ok (set_workers m s) f.
Proof. intros []. by split. Qed.

Lemma kept_finishes s f m : heap_ok s f → kept s f (set_finishes m s).
Proof.
  intros H. exists f. split; [by apply heap_ok_finishes|]. split; [|done].
  split; try done; auto; [by apply static_same|]. intros p pr Hp _. by exists pr.
Qed.

Lemma kept_refl s f : heap_ok s f → kept s f s.
Proof. intros H. exists f. split; [done|]. split; [apply quiet_refl|done]. Qed.

Lemma put_kept p d s f u s' : hclib_promise_put p d s = Ok (u, s') → heap_ok s f → kept s f s'.
Proof.
  intros H Hok. apply (put_ok _ _ _ f) in H as (Hsr & _ & _ & f' & Hok' & Hm & Hw); [|done].
  exists f'. split; [done|]. split; [by apply quiet_moved|done].
Qed.

Lemma check_in_kept g s f u s' : check_in_finish g s = Ok (u, s') → heap_ok s f → kept s f s'.
Proof.
  intros H Hok. unfold check_in_finish, when in H. destruct (negb _); [|m_action H; by apply kept_refl].
  m_bind H. m_action H. by apply kept_finishes.
Qed.

Lemma check_out_kept g s f u s' : check_out_finish g s = Ok (u, s') → heap_ok s f → kept s f s'.
Proof.
  intros H Hok. unfold check_out_finish, when in H. destruct (negb _); [|m_action H; by apply kept_refl].
  m_bind H as g1 s1 Hg. destruct (hc_atomic_dec (counter g1)) as [old c'] eqn:E. m_bind H.
  eapply kept_trans; [by apply kept_finishes|]. intros f' Hok'.
  destruct (old =? 1); [by eapply put_kept|]. m_action H. by apply kept_refl.
Qed.

Lemma set_scope_Ok g t (s : rt S) u (s' : rt S) :
  set_scope g t s = Ok (u, s') →
  ∃ ws, workers s !! self s = Some ws ∧
    s' = set_workers (<[self s := mkWs g t (curr_ctx ws)]> (workers s)) s.
Proof.
  intros H. unfold set_scope in H. m_bind H. m_bind H as ws s1 Hws. m_action H. by exists ws.
Qed.

Lemma set_scope_kept g t s f u s' : set_scope g t s = Ok (u, s') → heap_ok s f → kept s f s'.
Proof.
  intros (ws & Hws & ->)%set_scope_Ok Hok. exists f. split; [by apply heap_ok_workers|].
  split; [|done]. split; try done; auto; cbn.
  - rewrite fmap_insert. apply insert_id. by rewrite lookup_fmap, Hws.
  - by apply static_same.
  - intros p pr Hp _. by exists pr.
Qed.

(** ** Lemmas: new objects *)

Lemma heap_ok_brk s f b : brk s <= b → heap_ok s f → heap_ok (set_brk b s) f.
Proof.
  intros Hb []. split; try done; cbn.
  - intros t Ht. pose proof (heap_bounds0 t Ht). lia.
  - intros p Hp. pose proof (heap_promise_bounds0 p Hp). lia.
Qed.

Lemma fresh_absent s f : heap_ok s f → f (brk s) = Absent ∧ tasks s !! brk s = None.
Proof.
  intros Hok. assert (tasks s !! brk s = None) as E.
  { apply eq_None_not_Some. intros Ht. pose proof (heap_bounds _ _ Hok _ Ht). lia. }
  split; [|done]. destruct (decide (f (brk s) = Absent)) as [|Hn]; [done|].
  apply (heap_present _ _ Hok) in Hn. rewrite E in Hn. by apply is_Some_None in Hn.
Qed.

(** A new task, in no queue yet. *)
Lemma heap_ok_new s f tk :
  heap_ok s f → 0 < brk s → task_ok s tk Woken →
  heap_ok (set_tasks (<[brk s := tk]> (tasks s)) (set_brk (brk s + 1) s)) (<[brk s := Woken]> f).
Proof.
  intros Hok Hb Htk. destruct (fresh_absent s f Hok) as [Hf Hnone]. set (t := brk s) in *.
  set (s1 := set_tasks _ _). assert (sat_mono s s1) as Hmono by apply (sat_mono_refl s).
  destruct Hok. split; try done.
  - intros t'. change (pool_tasks (pool s1)) with (pool_tasks (pool s)). rewrite heap_pool0.
    destruct (decide (t' = t)) as [->|]; [by rewrite fn_lookup_insert, Hf|].
    by rewrite fn_lookup_insert_ne.
  - intros p pr Hp. apply heap_promises0 in Hp.
    destruct Hp as [(H1 & H2 & H3)|(H1 & l & Hc & Hnd & Hl)].
    + left. split; [done|]. split; [done|]. intros t'. destruct (decide (t' = t)) as [->|].
      * by rewrite fn_lookup_insert.
      * by rewrite fn_lookup_insert_ne.
    + right. split; [done|]. exists l. split.
      * cbn. apply chain_insert; [|done]. rewrite Hl, Hf. done.
      * split; [done|]. intros t'. rewrite Hl. destruct (decide (t' = t)) as [->|].
        -- by rewrite fn_lookup_insert, Hf.
        -- by rewrite fn_lookup_insert_ne.
  - intros t' p. destruct (decide (t' = t)) as [->|]; [by rewrite fn_lookup_insert|].
    rewrite fn_lookup_insert_ne by done. apply heap_waiting0.
  - intros t'. cbn. rewrite lookup_insert_is_Some. destruct (decide (t' = t)) as [->|].
    + rewrite fn_lookup_insert. split; [by left|done].
    + rewrite fn_lookup_insert_ne, heap_present0 by done. naive_solver.
  - intros t' tk'. cbn. destruct (decide (t' = t)) as [->|].
    + rewrite lookup_insert_eq, fn_lookup_insert. intros [= <-]. by apply (task_ok_mono s).
    + rewrite lookup_insert_ne, fn_lookup_insert_ne by done. intros H.
      by apply (task_ok_mono s), heap_tasks0.
  - intros t'. cbn. rewrite lookup_insert_is_Some. intros [<-|[_ H]]; [lia|].
    pose proof (heap_bounds0 t' H). lia.
  - intros p Hp. pose proof (heap_promise_bounds0 p Hp). cbn. lia.
Qed.

Lemma promise_create_kept s f p s' :
  hclib_promise_create s = Ok (p, s') → heap_ok s f → 0 < brk s →
  kept s f s' ∧ p = brk s ∧ is_Some (promises s' !! p) ∧ brk s' = brk s + 1.
Proof.
  intros H Hok Hb. unfold hclib_promise_create, hclib_promise_init in H.
  m_bind H as x s1 Hm. m_bind H. m_action H. split; [|split; [done|split; [|done]]];
    [|cbn; by rewrite lookup_insert_eq].
  assert (promises s !! brk s = None) as Hnone.
  { apply eq_None_not_Some. intros Hp. pose proof (heap_promise_bounds _ _ Hok _ Hp). lia. }
  set (s1 := set_promises _ _). exists f.
  assert (sat_mono s s1) as Hmono.
  { intros q (qr & Hq & Hs). exists qr. split; [|done]. cbn. rewrite lookup_insert_ne; [done|congruence]. }
  assert (∀ t, f t ≠ Waiting (brk s)) as Hw.
  { intros t Ht. apply (heap_waiting _ _ Hok) in Ht. rewrite Hnone in Ht. by apply is_Some_None in Ht. }
  split; [|split; [|done]].
  - destruct Hok. split; try done; cbn.
    + intros q qr. destruct (decide (q = brk s)) as [->|].
      * rewrite lookup_insert_eq. intros [= <-]. right. split; [done|]. exists []. split; [done|].
        split; [constructor|]. intros t. split; [by intros ?%elem_of_nil|]. intros ?%Hw. done.
      * rewrite lookup_insert_ne by done. apply heap_promises0.
    + intros t q Hq. rewrite lookup_insert_is_Some. destruct (decide (brk s = q)); [by left|right].
      split; [done|by eapply heap_waiting0].
    + intros t tk Ht. apply (task_ok_mono s); [done|by apply heap_tasks0].
    + intros t Ht. pose proof (heap_bounds0 t Ht). lia.
    + intros q. rewrite lookup_insert_is_Some. intros [<-|[_ Hq]]; [lia|].
      pose proof (heap_promise_bounds0 q Hq). lia.
  - split; try done; auto; [cbn; lia|by apply static_same|]. cbn.
    intros q qr Hq _. exists qr. split; [|done]. rewrite lookup_insert_ne; [done|congruence].
Qed.
(** ** Lemmas: spawning *)

(** A task as [calloc] and the caller leave it. *)
Lemma check_in_Ok g (s : rt S) u (s' : rt S) :
  check_in_finish g s = Ok (u, s') → ∃ m, s' = set_finishes m s ∧
    (g = NULL → m = finishes s) ∧
    (g ≠ NULL → ∃ x, finishes s !! g = Some x ∧
       m = <[g := mkFinish (parent x) (hc_atomic_inc (counter x)).2 (finish_dep x)]> (finishes s)).
Proof.
  intros H. unfold check_in_finish, when in H. destruct (Z.eqb_spec g NULL); cbn [negb] in H.
  - m_action H. exists (finishes s). split; [by destruct s|done].
  - m_bind H as x s1 Hx. m_action H. eexists. split; [done|]. split; [done|]. intros _. by exists x.
Qed.

Lemma spawned_task_ok s fp nb finish locale futures :
  task_ok s (spawned_task (fresh_task fp nb) finish locale futures) Woken.
Proof.
  unfold spawned_task. set (n := Z.of_nat (length futures)). unfold MAX_NUM_WAITS.
  rewrite !Z.gtb_ltb. destruct (Z.ltb_spec 0 n).
  - split; [split|]; cbn.
    + rewrite length_app, length_take, length_drop. cbn. destruct (Z.ltb_spec 4 n); lia.
    + lia.
    + intros j p Hj. cbn in Hj. lia.
  - split; [split; cbn; [done|lia]|]. intros j p Hj He Hn. cbn in Hj.
    assert (j = 0) as -> by lia. by injection He as <-.
Qed.

Lemma spawn_handler_Ok t locale futures escaping (s : rt S) u s' :
  spawn_handler t locale futures escaping s = Ok (u, s') →
  ∃ ws m tk, workers s !! self s = Some ws ∧
    let g := if escaping then NULL else current_finish ws in
    (∃ v, check_in_finish g s = Ok (v, set_finishes m s)) ∧ tasks s !! t = Some tk ∧
    try_schedule_async t (self s)
      (set_tasks (<[t := spawned_task tk g locale futures]> (tasks s)) (set_finishes m s)) = Ok (u, s').
Proof.
  intros H. unfold spawn_handler in H. m_bind H. unfold current_ws in H.
  m_bind H as ws s1 Hws. m_bind Hws. m_action Hws. m_bind H.
  m_bind H as g s1 Hg. m_bind H as tk s2 Ht. m_bind H as v s3 Hs.
  exists ws. destruct escaping.
  - m_action Hg. exists (finishes s), tk. split; [done|]. cbn zeta. split; [exists tt; by destruct s|].
    split; [done|]. destruct s; unfold set_finishes; cbn in *. unfold spawned_task.
    destruct (Z.of_nat (length futures) >? 0); exact H.
  - m_bind Hg as w s4 Hc. m_action Hg. pose proof (check_in_Ok _ _ _ _ Hc) as (m & -> & _).
    exists m, tk. split; [done|]. cbn zeta. split; [by exists w|]. split; [done|].
    unfold spawned_task. destruct (Z.of_nat (length futures) >? 0); exact H.
Qed.

(** What a call from [s0] keeps that has made the new task [t] and spawns it. *)
Lemma spawn_kept fp nb locale futures escaping s0 f0 s f t u s' :
  spawn_handler t locale futures escaping s = Ok (u, s') →
  quiet s0 f0 s f → brk s0 <= t →
  heap_ok s f → f t = Woken → tasks s !! t = Some (fresh_task fp nb) →
  ∃ f', heap_ok s' f' ∧ quiet s0 f0 s' f' ∧ (∀ t', f' t' = Woken → t' ≠ t ∧ f t' = Woken) ∧
    brk s' = brk s ∧ (∀ tk', tasks s' !! t = Some tk' → ∃ g,
       task_static tk' = task_static (spawned_task (fresh_task fp nb) g locale futures)).
Proof.
  intros H Hq0 Hbt Hok Hf Ht.
  apply spawn_handler_Ok in H as (ws & m & tk & Hws & (v & Hc) & Htk & H). cbn zeta in *.
  rewrite Ht in Htk. injection Htk as <-.
  set (g := if escaping then NULL else current_finish ws) in *.
  set (tk1 := spawned_task (fresh_task fp nb) g locale futures) in *.
  set (s2 := set_finishes m s) in *. set (s1 := set_tasks (<[t := tk1]> (tasks s)) s2) in *.
  assert (heap_ok s2 f) as Hok0 by by apply heap_ok_finishes.
  assert (heap_ok s1 f) as Hok1.
  { apply (heap_ok_task s2 f t (fresh_task fp nb) tk1 Hok0 Ht); [congruence|].
    rewrite Hf. apply spawned_task_ok. }
  eapply try_schedule_ok in H as (Hsr & _ & x & Hokx & Hx); [|exact Hok1|exact Hf|].
  2: { cbn. by rewrite lookup_insert_eq. }
  exists (<[t := x]> f). split; [done|]. destruct Hsr. split; [|split; [|split; [done|]]].
  - assert (static_kept s0 s') as Hst.
    { intros t' tk' Hb' Ht'. apply (static_same s1 s' same_static0) in Ht' as (tk & Htk & E).
      - cbn in Htk. rewrite lookup_insert_ne in Htk by lia.
        destruct (quiet_static _ _ _ _ Hq0 t' tk Hb' Htk) as (tk0 & Htk0 & E0).
        exists tk0. split; [done|congruence].
      - pose proof (quiet_brk _ _ _ _ Hq0). cbn in *. lia. }
    assert (∀ t', (∀ c, <[t := x]> f t' = Ready c ↔ f t' = Ready c) ∧
      (∀ c, <[t := x]> f t' = Running c ↔ f t' = Running c) ∧
      (<[t := x]> f t' = Lost ↔ f t' = Lost)) as Hf'.
    { intros t'. destruct (decide (t' = t)) as [->|]; [|by rewrite fn_lookup_insert_ne].
      rewrite fn_lookup_insert, Hf. by destruct Hx as [->|[p ->]]. }
    destruct Hq0. split; try done; cbn in *; try congruence; try lia.
    + intros t' c. by rewrite <- quiet_ready0, (proj1 (Hf' t')).
    + intros t' c. by rewrite <- quiet_running0, (proj1 (proj2 (Hf' t'))).
    + intros t' Hu. destruct (decide (t' = t)) as [->|]; [by right|].
      rewrite fn_lookup_insert_ne in Hu by done. by apply quiet_unstarted0.
    + intros t'. by rewrite <- quiet_lost0, (proj2 (proj2 (Hf' t'))).
    + intros p pr Hp Hs. destruct (quiet_datum0 p pr Hp Hs) as (pr1 & Hp1 & Hs1 & Hd1).
      destruct (same_satisfied0 p pr1 Hp1) as (pr2 & Hp2 & Hs2 & Hd2); [congruence|].
      exists pr2. split; [done|]. split; congruence.
  - intros t' Hw. destruct (decide (t' = t)) as [->|].
    + rewrite fn_lookup_insert in Hw. by destruct Hx as [->|[p ->]].
    + rewrite fn_lookup_insert_ne in Hw by done. done.
  - intros tk' Ht'. exists g.
    assert (task_static <$> tasks s' !! t = task_static <$> tasks s1 !! t) as E.
    { by rewrite <- (lookup_fmap _ (tasks s')), same_static0, lookup_fmap. }
    unfold s1 in E. cbn [tasks set_tasks] in E. rewrite Ht', lookup_insert_eq in E.
    by apply (inj Some) in E.
Qed.

(** Creating a task and spawning it. *)
Lemma new_spawn_kept fp nb locale futures escaping s f u s' :
  spawn_handler (brk s) locale futures escaping
    (set_tasks (<[brk s := fresh_task fp nb]> (tasks s)) (set_brk (brk s + 1) s)) = Ok (u, s') →
  heap_ok s f → 0 < brk s → kept s f s' ∧ brk s < brk s' ∧
  (∀ tk', tasks s' !! brk s = Some tk' → ∃ g,
     task_static tk' = task_static (spawned_task (fresh_task fp nb) g locale futures)).
Proof.
  intros H Hok Hb. destruct (fresh_absent s f Hok) as [Hf _].
  set (s1 := set_tasks _ _) in *. set (f1 := <[brk s := Woken]> f).
  assert (task_ok s (fresh_task fp nb) Woken) as Htk.
  { split; [split; cbn; [done|lia]|]. intros j p Hj He Hn. cbn in Hj.
    assert (j = 0) as -> by lia. by injection He as <-. }
  pose proof (heap_ok_new s f _ Hok Hb Htk) as Hok1. fold s1 f1 in Hok1.
  assert (∀ t c, (f1 t = Ready c ↔ f t = Ready c) ∧ (f1 t = Running c ↔ f t = Running c) ∧
    (f1 t = Lost ↔ f t = Lost)) as Hf1.
  { intros t c. unfold f1. destruct (decide (t = brk s)) as [->|]; [by rewrite fn_lookup_insert, Hf|].
    by rewrite fn_lookup_insert_ne. }
  assert (quiet s f s1 f1) as Hq1.
  { split; try done; try (cbn; lia).
    - intros t c. apply Hf1.
    - intros t c. apply Hf1.
    - intros t. unfold f1. destruct (decide (t = brk s)) as [->|]; [right; lia|].
      rewrite fn_lookup_insert_ne by done. by left.
    - intros t. by apply (Hf1 t 0).
    - by eapply static_insert.
    - intros p pr Hp _. by exists pr. }
  eapply (spawn_kept fp nb _ _ _ s f) in H as (f' & Hok' & Hq & Hw & Hbrk & Hst);
    [|exact Hq1|done|exact Hok1|by unfold f1; rewrite fn_lookup_insert|].
  2: { cbn. by rewrite lookup_insert_eq. }
  split; [|split; [cbn in Hbrk; lia|done]].
  exists f'. split; [done|]. split; [done|].
  intros t Ht. destruct (Hw t Ht) as [Hne H1]. unfold f1 in H1. by rewrite fn_lookup_insert_ne in H1.
Qed.

Lemma new_task_Ok fp (s : rt S) t s' :
  new_task fp s = Ok (t, s') →
  t = brk s ∧ s' = set_tasks (<[brk s := fresh_task fp false]> (tasks s)) (set_brk (brk s + 1) s).
Proof. intros H. unfold new_task in H. m_bind H. m_bind H. m_action H. done. Qed.

Lemma async_ok fp futures locale s f u s' :
  hclib_async fp futures locale s = Ok (u, s') → heap_ok s f → 0 < brk s →
  kept s f s' ∧ brk s < brk s' ∧
  ∀ tk', tasks s' !! brk s = Some tk' → ∃ g l,
    task_static tk' = task_static (spawned_task (fresh_task fp false) g l futures).
Proof.
  intros H Hok Hb. unfold hclib_async in H. m_bind H as t s1 Ht. apply new_task_Ok in Ht as [-> ->].
  destruct (Z.gtb_spec (Z.of_nat (length futures)) 0).
  - eapply new_spawn_kept in H as (Hk & Hb' & Hst); [|done..].
    split; [done|]. split; [done|]. intros tk' Hk'. destruct (Hst tk' Hk') as [g E]. by exists g, locale.
  - eapply new_spawn_kept in H as (Hk & Hb' & Hst); [|done..].
    split; [done|]. split; [done|]. intros tk' Hk'. destruct (Hst tk' Hk') as [g E].
    destruct futures; [|cbn in *; lia]. by exists g, locale.
Qed.

Lemma async_kept fp futures locale s f u s' :
  hclib_async fp futures locale s = Ok (u, s') → heap_ok s f → 0 < brk s → kept s f s'.
Proof. intros H Hok Hb. by eapply async_ok in H as [Hk _]. Qed.

Lemma await_helper_ok fp futures locale nb s f u s' :
  async_await_at_helper fp futures locale nb s = Ok (u, s') → heap_ok s f → 0 < brk s →
  kept s f s' ∧ brk s < brk s' ∧
  ∀ tk', tasks s' !! brk s = Some tk' → ∃ g,
    task_static tk' = task_static (spawned_task (fresh_task fp nb) g locale futures).
Proof.
  intros H Hok Hb. unfold async_await_at_helper in H. m_bind H as t s1 Ht. apply new_task_Ok in Ht as [-> ->].
  m_bind H as tk s1 Htk. m_bind H. cbn in Htk. rewrite lookup_insert_eq in Htk. injection Htk as <-.
  unfold spawn_await_at in H. eapply (new_spawn_kept fp nb); [|done|done].
  match type of H with spawn_handler _ _ _ _ ?s1 = _ =>
    assert (s1 = set_tasks (<[brk s := fresh_task fp nb]> (tasks s)) (set_brk (brk s + 1) s)) as E
  end; [|rewrite E in H; exact H].
  unfold set_tasks. cbn. by rewrite insert_insert_eq.
Qed.

Lemma await_helper_kept fp futures locale nb s f u s' :
  async_await_at_helper fp futures locale nb s = Ok (u, s') → heap_ok s f → 0 < brk s → kept s f s'.
Proof. intros H Hok Hb. by eapply await_helper_ok in H as [Hk _]. Qed.

(** [hclib_async_nb] is the C++ call without futures. *)
Lemma async_nb_kept fp locale s f u s' :
  hclib_async_nb fp locale s = Ok (u, s') → heap_ok s f → 0 < brk s → kept s f s'.
Proof. intros H. by apply (await_helper_kept fp [] locale true s f u s'). Qed.

Lemma async_future_split fp futures locale (s : rt S) v s' :
  hclib_async_future fp futures locale s = Ok (v, s') →
  ∃ s1, hclib_promise_create s = Ok (brk s, s1) ∧
    ∃ u, hclib_async (Future_caller (brk s) fp) futures locale s1 = Ok (u, s').
Proof.
  intros H. unfold hclib_async_future in H. m_bind H. m_bind H as x s1 Hi. m_bind H as y s2 Ha. m_action H.
  exists s1. split; [|by exists y]. unfold hclib_promise_create. unfold mbind, M_bind, malloc.
  by rewrite Hi.
Qed.

Lemma await_future_split fp futures locale nb (s : rt S) v s' :
  async_future_await_at_helper fp futures locale nb s = Ok (v, s') →
  ∃ s1, hclib_promise_create s = Ok (brk s, s1) ∧
    ∃ u, async_await_at_helper (Future_caller (brk s) fp) futures locale nb s1 = Ok (u, s').
Proof.
  intros H. unfold async_future_await_at_helper in H. m_bind H. m_bind H as x s1 Hi.
  m_bind H as y s2 Ha. m_action H.
  exists s1. split; [|by exists y]. unfold hclib_promise_create. unfold mbind, M_bind, malloc.
  by rewrite Hi.
Qed.

Lemma async_future_kept fp futures locale s f v s' :
  hclib_async_future fp futures locale s = Ok (v, s') → heap_ok s f → 0 < brk s → kept s f s'.
Proof.
  intros (s1 & Hp & u & Ha)%async_future_split Hok Hb.
  apply (promise_create_kept _ f) in Hp as (Hk & _ & _ & Hb1); [|done|done].
  eapply kept_trans; [exact Hk|]. intros f' Hok'. eapply async_kept; [done|done|lia].
Qed.

Lemma await_future_kept fp futures locale nb s f v s' :
  async_future_await_at_helper fp futures locale nb s = Ok (v, s') → heap_ok s f → 0 < brk s → kept s f s'.
Proof.
  intros (s1 & Hp & u & Ha)%await_future_split Hok Hb.
  apply (promise_create_kept _ f) in Hp as (Hk & _ & _ & Hb1); [|done|done].
  eapply kept_trans; [exact Hk|]. intros f' Hok'. eapply await_helper_kept; [done|done|lia].
Qed.

Lemma start_finish_kept s f u s' :
  hclib_start_finish s = Ok (u, s') → heap_ok s f → 0 < brk s → kept s f s'.
Proof.
  intros H Hok Hb. unfold hclib_start_finish, current_ws in H. m_bind H as ws s1 Hws.
  m_bind Hws. m_action Hws. m_bind H. m_bind H. m_bind H as v s2 Hc.
  assert (kept s f (set_finishes (<[brk s := mkFinish (current_finish ws) 1 NULL]> (finishes s))
    (set_brk (brk s + 1) s))) as Hk.
  { exists f. split; [apply heap_ok_finishes, heap_ok_brk; [lia|done]|]. split; [|done].
    split; try done; auto; [cbn; lia|by apply static_same|]. intros p pr Hp _. by exists pr. }
  eapply kept_trans; [exact Hk|]. intros f1 Hok1.
  eapply kept_trans; [by eapply check_in_kept|]. intros f2 Hok2. by eapply set_scope_kept.
Qed.

Lemma free_finish_kept g s f u s' :
  free_finish g s = Ok (u, s') → heap_ok s f → kept s f s'.
Proof. intros H Hok. unfold free_finish in H. m_bind H. m_action H. by apply kept_finishes. Qed.

Lemma end_finish_exit_kept g t s f u s' :
  end_finish_exit g t s = Ok (u, s') → heap_ok s f → kept s f s'.
Proof.
  intros H Hok. unfold end_finish_exit in H. m_bind H as x s1 Hx. m_bind H as y s1 Hc. m_bind H as z s2 Hs.
  eapply kept_trans; [by eapply check_out_kept|]. intros f1 Hok1.
  eapply kept_trans; [by eapply set_scope_kept|]. intros f2 Hok2. by eapply free_finish_kept.
Qed.

Lemma end_finish_nonblocking_kept s f v s' :
  hclib_end_finish_nonblocking s = Ok (v, s') → heap_ok s f → 0 < brk s → kept s f s'.
Proof.
  intros H Hok Hb. unfold hclib_end_finish_nonblocking, hclib_end_finish_nonblocking_helper in H.
  m_bind H as p s1 Hp. apply (promise_create_kept _ f) in Hp as (Hk & _); [|done|done].
  m_bind H as u s2 H1. m_action H. eapply kept_trans; [exact Hk|]. intros f1 Hok1.
  unfold current_ws in H1. m_bind H1 as ws s3 Hws. m_bind Hws. m_action Hws.
  m_bind H1 as g s3 Hg. m_bind H1. m_bind H1. m_bind H1 as x s3 Hc. m_bind H1 as y s4 Hc'.
  eapply kept_trans; [by apply kept_finishes|]. intros f2 Hok2.
  eapply kept_trans; [by eapply check_out_kept|]. intros f3 Hok3.
  eapply kept_trans; [by eapply check_out_kept|]. intros f4 Hok4. by eapply set_scope_kept.
Qed.
End heap.
