(* ===== verification/RuntimeStack.v ===== *)
(** * Lemmas: stacks and contexts of the runtime

    The invariant of the machine of [Runtime]: what each stack looks like, which
    tasks it holds, and that every action of a worker keeps it. *)

From S2P Require Import Prelude Deque Pool Runtime RuntimeHeap.
From stdpp Require Import options.

(** ** The shape of stacks

    Below a user function, below a task that is executed, and below a search
    for a task. *)
Fixpoint below_user (fs : list frame) : bool :=
  match fs with
  | F_future_caller _ :: fs => below_user fs
  | F_execute _ _ :: fs => below_task fs
  | [F_finalize] => true
  | _ => false
  end
with below_task (fs : list frame) : bool :=
  match fs with
  | F_find :: fs => below_find fs
  | [F_core_start] => true
  | F_yield _ _ _ _ :: fs => below_user fs
  | _ => false
  end
with below_find (fs : list frame) : bool :=
  match fs with
  | [F_core _] => true
  | F_help _ _ _ _ :: fs => below_user fs
  | F_wait _ _ _ _ _ :: fs => below_user fs
  | _ => false
  end.

Definition top_wait (fs : list frame) : bool :=
  match fs with F_wait _ _ _ _ _ :: _ => true | _ => false end.

(** Only [hclib_future_wait] searches without a fresh context, so only there
    does a search return a task. *)
Definition shape (c : control) (fs : list frame) : Prop :=
  match c with
  | Run _ | Help_loop _ _ _ _ | Wait_loop _ _ _ _ _ | Wait_resumed _ _ _ _
  | Yield_loop _ _ _ _ | Yield_resumed _ _ _ => below_user fs = true
  | Ret v => below_user fs = true ∨ (below_task fs = true ∧ v = NULL) ∨
      (below_find fs = true ∧ (top_wait fs = false → v = NULL))
  | Exec _ => below_task fs = true
  | Find _ on_fresh_ctx _ _ _ =>
      below_find fs = true ∧ (top_wait fs = false → on_fresh_ctx = true)
  | Core_loop | Help_wait _ _ | Yield_helper _ _ => fs = []
  | Help_resumed _ _ _ _ | Help_finish_ctx _ _ => False
  | Abandoned | Exited => True
  end.

(** The task a stack is about to run, and the tasks it is running. *)
Definition ready_of (c : control) (fs : list frame) : list Z :=
  match c with
  | Exec t | Help_wait _ t | Yield_helper t _ => [t]
  | Ret v => if top_wait fs && negb (v =? NULL) then [v] else []
  | _ => []
  end.

Fixpoint executing (fs : list frame) : list Z :=
  match fs with
  | [] => []
  | F_execute t _ :: fs => t :: executing fs
  | _ :: fs => executing fs
  end.

Definition running_of (c : control) (fs : list frame) : list Z :=
  match c with Abandoned => [] | _ => executing fs end.

Record ctx_ok (f : Z → place) (c : Z) (x : LiteCtx) : Prop := {
  ctx_shape : shape (ctl x) (frames x);
  ctx_ready : ∀ t, t ∈ ready_of (ctl x) (frames x) ↔ f t = Ready c;
  ctx_running : ∀ t, t ∈ running_of (ctl x) (frames x) ↔ f t = Running c;
  ctx_nodup : NoDup (running_of (ctl x) (frames x))
}.

Section stacks.
Context {S : Type} `{!TaskPool S}.
#[local] Set Default Proof Using "Type*".

Record stacks_ok (s : rt S) (f : Z → place) : Prop := {
  stacks_ctx : ∀ c x, ctxs s !! c = Some x → ctx_ok f c x;
  stacks_place : ∀ t c, f t = Ready c ∨ f t = Running c → is_Some (ctxs s !! c);
  stacks_bounds : ∀ c, is_Some (ctxs s !! c) → 0 < c < brk s
}.

(** The invariant of the machine. *)
Record inv (s : rt S) (f : Z → place) : Prop := {
  inv_heap : heap_ok s f;
  inv_stacks : stacks_ok s f;
  inv_woken : ∀ t, f t ≠ Woken;
  inv_brk : 0 < brk s
}.

(** What no action undoes. *)
Record later (s : rt S) (f : Z → place) (s' : rt S) (f' : Z → place) : Prop := {
  later_brk : brk s <= brk s';
  later_unstarted : ∀ t, unstarted (f' t) = true → unstarted (f t) = true ∨ brk s <= t;
  later_datum : ∀ p pr, promises s !! p = Some pr → satisfied pr ≠ 0 →
    ∃ pr', promises s' !! p = Some pr' ∧ satisfied pr' = satisfied pr ∧ datum pr' = datum pr;
  later_static : static_kept s s'
}.

(** An action that leaves the promises and only frees tasks. *)
Lemma later_frame s f s' f' :
  brk s <= brk s' → promises s' = promises s →
  (∀ t tk, tasks s' !! t = Some tk → tasks s !! t = Some tk) →
  (∀ t, unstarted (f' t) = true → unstarted (f t) = true) → later s f s' f'.
Proof.
  intros Hb Hp Ht Hu. split; [done|auto| |].
  - intros p pr H _. rewrite Hp. by exists pr.
  - intros t tk _ H. exists tk. split; [by apply Ht|done].
Qed.

Lemma later_refl s f : later s f s f.
Proof. by apply later_frame. Qed.

Lemma later_trans s1 f1 s2 f2 s3 f3 :
  later s1 f1 s2 f2 → later s2 f2 s3 f3 → later s1 f1 s3 f3.
Proof.
  intros [] []. split; [lia| | |by eapply static_trans].
  - intros t H. destruct (later_unstarted1 t H) as [H1|H1]; [by apply later_unstarted0|right; lia].
  - intros p pr Hp Hs. destruct (later_datum0 p pr Hp Hs) as (pr1 & Hp1 & Hs1 & Hd1).
    destruct (later_datum1 p pr1 Hp1) as (pr2 & Hp2 & Hs2 & Hd2); [congruence|].
    exists pr2. split; [done|]. split; congruence.
Qed.

Lemma quiet_later s f s' f' : quiet s f s' f' → later s f s' f'.
Proof. intros []. by split. Qed.

(** ** Lemmas: changing stacks *)

Lemma ctx_ok_other f f' c x :
  ctx_ok f c x → (∀ t, f' t = Ready c ↔ f t = Ready c) → (∀ t, f' t = Running c ↔ f t = Running c) →
  ctx_ok f' c x.
Proof.
  intros [] Hr Hu. split; [done| | |done]; intros t; rewrite ?Hr, ?Hu; auto.
Qed.

Lemma heap_ok_ctxs s f m : heap_ok s f → heap_ok (set_ctxs m s) f.
Proof. intros []. by split. Qed.

Lemma heap_ok_self s f w : heap_ok s f → heap_ok (set_self w s) f.
Proof. intros []. by split. Qed.

Lemma inv_self s f w : inv s f → inv (set_self w s) f ∧ later s f (set_self w s) f.
Proof.
  intros [Hh [] Hw Hb]. split; [|by apply later_frame].
  split; [by apply heap_ok_self|by split|done|done].
Qed.

Lemma set_stack_Ok c fs (s : rt S) u (s' : rt S) :
  set_stack c fs s = Ok (u, s') →
  ∃ ws x, workers s !! self s = Some ws ∧ ctxs s !! curr_ctx ws = Some x ∧
    s' = set_ctxs (<[curr_ctx ws := mkCtx c fs (prev x)]> (ctxs s)) s.
Proof.
  intros H. unfold set_stack, current_ws in H. m_bind H as ws s1 Hws. m_bind Hws. m_action Hws.
  m_bind H as x s1 Hx. m_action H. by exists ws, x.
Qed.

(** The running context. *)
Definition running (s : rt S) (c : Z) (x : LiteCtx) : Prop :=
  ∃ ws, workers s !! self s = Some ws ∧ curr_ctx ws = c ∧ ctxs s !! c = Some x.

Lemma running_quiet s f s' f' c x : quiet s f s' f' → running s c x → running s' c x.
Proof.
  intros [] (ws & Hws & Hc & Hx). 
  assert (curr_ctx <$> workers s' !! self s' = Some c) as E.
  { rewrite quiet_self, <- lookup_fmap, quiet_curr, lookup_fmap, Hws. cbn. by rewrite Hc. }
  apply fmap_Some in E as (ws' & Hws' & E). exists ws'. split; [done|]. split; [done|].
  by rewrite quiet_ctxs.
Qed.

Lemma set_stack_running c fs s u s' c0 x0 :
  set_stack c fs s = Ok (u, s') → running s c0 x0 →
  s' = set_ctxs (<[c0 := mkCtx c fs (prev x0)]> (ctxs s)) s.
Proof.
  intros (ws & x & Hws & Hx & ->)%set_stack_Ok (ws' & Hws' & <- & Hx').
  assert (ws' = ws) as -> by congruence. assert (x0 = x) as -> by congruence. done.
Qed.

(** The running context gets a new stack; places change from [f] to [f']. *)
Lemma stacks_set s f f' c0 x0 x1 :
  stacks_ok s f → ctxs s !! c0 = Some x0 → ctx_ok f' c0 x1 →
  (∀ t c, c ≠ c0 → f' t = Ready c ↔ f t = Ready c) →
  (∀ t c, c ≠ c0 → f' t = Running c ↔ f t = Running c) →
  stacks_ok (set_ctxs (<[c0 := x1]> (ctxs s)) s) f'.
Proof.
  intros [] Hx Hok Hr Hu. split; cbn.
  - intros c x. destruct (decide (c = c0)) as [->|].
    + rewrite lookup_insert_eq. by intros [= <-].
    + rewrite lookup_insert_ne by done. intros Hc.
      apply (ctx_ok_other f); [by apply stacks_ctx0|intros t; by apply Hr|intros t; by apply Hu].
  - intros t c H. rewrite lookup_insert_is_Some. destruct (decide (c0 = c)) as [->|Hne]; [by left|].
    right. split; [done|]. apply (stacks_place0 t c). rewrite <- Hr, <- Hu; done.
  - intros c. rewrite lookup_insert_is_Some. intros [<-|[_ H]]; [|by apply stacks_bounds0].
    apply stacks_bounds0. by rewrite Hx.
Qed.

Lemma stacks_quiet s f s' f' : stacks_ok s f → quiet s f s' f' → stacks_ok s' f'.
Proof.
  intros [] []. split; rewrite quiet_ctxs.
  - intros c x Hc. apply (ctx_ok_other f); [by apply stacks_ctx0|intros t..]; auto.
  - intros t c H. apply (stacks_place0 t c). by rewrite <- quiet_ready, <- quiet_running.
  - intros c Hc. pose proof (stacks_bounds0 c Hc). lia.
Qed.

Lemma inv_kept s f s' : inv s f → kept s f s' →
  ∃ f', inv s' f' ∧ quiet s f s' f'.
Proof.
  intros [] (f' & Hok & Hq & Hw). exists f'. split; [|done]. split; [done| | |].
  - by eapply stacks_quiet.
  - intros t Ht. by apply (inv_woken0 t), Hw.
  - pose proof (quiet_brk _ _ _ _ Hq). lia.
Qed.

(** An action that only moves the running stack on. *)
Lemma inv_set s f c0 x0 c fs :
  inv s f → ctxs s !! c0 = Some x0 → shape c fs →
  ready_of c fs = ready_of (ctl x0) (frames x0) →
  running_of c fs = running_of (ctl x0) (frames x0) →
  inv (set_ctxs (<[c0 := mkCtx c fs (prev x0)]> (ctxs s)) s) f.
Proof.
  intros [] Hx Hs Hr Hu. split; [by apply heap_ok_ctxs| |done|done].
  apply (stacks_set s f f c0 x0); [done|done| |done|done].
  destruct (stacks_ctx _ _ inv_stacks0 c0 x0 Hx) as [_ Hr1 Hu1 Hn1].
  split; cbn; [done| | |]; by rewrite ?Hr, ?Hu.
Qed.

Lemma later_ctxs s f m : later s f (set_ctxs m s) f.
Proof. by apply later_frame. Qed.

(** What one action of a worker must give. *)
Definition acted (s : rt S) (f : Z → place) (s' : rt S) : Prop :=
  ∃ f', inv s' f' ∧ later s f s' f'.

Lemma acted_set s f s2 c0 x0 c fs u s' :
  inv s f → running s c0 x0 → kept s f s2 → set_stack c fs s2 = Ok (u, s') → shape c fs →
  ready_of c fs = ready_of (ctl x0) (frames x0) →
  running_of c fs = running_of (ctl x0) (frames x0) → acted s f s'.
Proof.
  intros Hi Hrun Hk H Hs Hr Hu. destruct (inv_kept s f s2 Hi Hk) as (f2 & Hi2 & Hq).
  pose proof (running_quiet _ _ _ _ _ _ Hq Hrun) as Hrun2.
  rewrite (set_stack_running _ _ _ _ _ _ _ H Hrun2).
  exists f2. split.
  - apply inv_set; [done| |done..]. by destruct Hrun2 as (? & _ & _ & ?).
  - eapply later_trans; [by apply quiet_later|apply later_ctxs].
Qed.
(** ** Lemmas: taking tasks from the pool *)

Definition taken (f : Z → place) (ts : list Z) : Z → place :=
  λ t, if decide (t ∈ ts) then Woken else f t.

Lemma heap_ok_take s f ts pl :
  heap_ok s f → pool_ok pl → pool_tasks (pool s) ≡ₚ ts ++ pool_tasks pl →
  heap_ok (set_pool pl s) (taken f ts) ∧ NoDup ts ∧
  ∀ t, t ∈ ts → f t = Queued ∧ ∃ tk, tasks s !! t = Some tk ∧ ready s tk.
Proof.
  intros Hok Hpl Hperm.
  assert (∀ t, t ∈ ts → f t = Queued) as Hq.
  { intros t Ht. apply (heap_pool _ _ Hok). rewrite Hperm. apply elem_of_app. by left. }
  pose proof (heap_pool_nodup _ _ Hok) as Hnd. rewrite Hperm in Hnd.
  apply NoDup_app in Hnd as (Hnd1 & Hdis & Hnd2).
  assert (∀ t p, taken f ts t = Waiting p ↔ f t = Waiting p) as Hw.
  { intros t p. unfold taken. destruct (decide (t ∈ ts)) as [Ht|]; [|done]. by rewrite (Hq t Ht). }
  split; [|split; [done|]].
  - destruct Hok. split; cbn; try done.
    + intros t. unfold taken. destruct (decide (t ∈ ts)) as [Ht|Ht].
      * split; [|done]. intros H. by apply Hdis in H.
      * rewrite <- heap_pool, Hperm, elem_of_app. naive_solver.
    + intros p pr Hp. destruct (heap_promises p pr Hp) as [(H1 & H2 & H3)|(H1 & l & Hc & Hnd & Hl)].
      * left. split; [done|]. split; [done|]. intros t. rewrite Hw. apply H3.
      * right. split; [done|]. exists l. split; [done|]. split; [done|]. intros t. by rewrite Hw, Hl.
    + intros t p. rewrite Hw. apply heap_waiting.
    + intros t. rewrite <- heap_present. unfold taken. destruct (decide (t ∈ ts)) as [Ht|]; [|done].
      by rewrite (Hq t Ht).
    + intros t tk Ht. apply (task_ok_mono s); [apply (sat_mono_refl s)|].
      pose proof (heap_tasks t tk Ht) as H. unfold taken. destruct (decide (t ∈ ts)) as [Hin|]; [|done].
      rewrite (Hq t Hin) in H. destruct H as [? [? ?]]. done.
  - intros t Ht. pose proof (Hq t Ht) as E. split; [done|].
    destruct (proj1 (heap_present _ _ Hok t)) as [tk Htk]; [congruence|].
    pose proof (heap_tasks _ _ Hok t tk Htk) as H. rewrite E in H. destruct H as [_ [Hr _]].
    by exists tk.
Qed.

Lemma kept_pool s f pl :
  heap_ok s f → pool_ok pl → pool_tasks (pool s) ≡ₚ pool_tasks pl → kept s f (set_pool pl s).
Proof.
  intros Hok Hpl Hperm. destruct (heap_ok_take s f [] pl Hok Hpl Hperm) as (H & _ & _).
  exists f. split; [|split; [|done]].
  - apply (heap_ok_ext _ (taken f [])); [|done]. intros t. unfold taken.
    rewrite decide_False; [done|apply not_elem_of_nil].
  - apply quiet_moved; [apply same_rest_pool|apply moved_refl].
Qed.

Lemma reschedule_ok rest ws s f u s' :
  reschedule rest ws s = Ok (u, s') → NoDup rest → heap_ok s f →
  (∀ t, t ∈ rest → f t = Woken ∧ ∃ tk, tasks s !! t = Some tk ∧ ready s tk) →
  same_rest s s' ∧ tasks s' = tasks s ∧
  heap_ok s' (λ t, if decide (t ∈ rest) then Queued else f t).
Proof.
  revert s f. induction rest as [|t rest IH]; intros s f H Hnd Hok Hw; cbn [reschedule] in H.
  - m_action H. split; [apply same_rest_refl|]. split; [done|]. destruct Hok. by split.
  - apply NoDup_cons in Hnd as [Hn Hnd]. m_bind H as v s1 H1.
    destruct (Hw t ltac:(by left)) as (Hf & tk & Ht & Hr).
    eapply rt_schedule_ok in H1 as (Hok1 & Hsr & Hts); [|done..].
    apply (IH s1 (<[t := Queued]> f)) in H as (Hsr2 & Hts2 & Hok2); [|done|done|].
    + split; [by eapply same_rest_trans|]. split; [congruence|].
      apply (heap_ok_ext s' (λ x, if decide (x ∈ rest) then Queued else <[t := Queued]> f x)); [|done].
      intros x. destruct (decide (x = t)) as [->|Hne].
      * rewrite (decide_True (P := t ∈ t :: rest)) by (by left).
        rewrite fn_lookup_insert. by destruct (decide (t ∈ rest)).
      * rewrite fn_lookup_insert_ne by done.
        destruct (decide (x ∈ rest)), (decide (x ∈ t :: rest)); try done; set_solver.
    + intros x Hx. rewrite fn_lookup_insert_ne by congruence.
      destruct (Hw x ltac:(by right)) as (Hfx & tkx & Htx & Hrx). split; [done|].
      exists tkx. rewrite Hts. split; [done|]. by apply (ready_mono s), Hrx; apply same_rest_sat.
Qed.
(** One task has been taken from the pool, for the running stack. *)
Record grabbed (s : rt S) (f : Z → place) (s2 : rt S) (t : Z) : Prop := {
  grabbed_rest : same_rest s s2;
  grabbed_queued : f t = Queued;
  grabbed_heap : heap_ok s2 (<[t := Woken]> f);
  grabbed_ready : ∃ tk, tasks s2 !! t = Some tk ∧ ready s2 tk
}.

Lemma grab s f pl t rest ws u s2 :
  inv s f → pool_ok pl → pool_tasks (pool s) ≡ₚ (t :: rest) ++ pool_tasks pl →
  reschedule rest ws (set_pool pl s) = Ok (u, s2) → grabbed s f s2 t.
Proof.
  intros [Hh _ _ _] Hpl Hperm H.
  destruct (heap_ok_take s f (t :: rest) pl Hh Hpl Hperm) as (Hok & Hnd & Hts).
  apply NoDup_cons in Hnd as [Hn Hnd].
  destruct (Hts t ltac:(by left)) as (Hq & tk & Htk & Hr).
  eapply reschedule_ok in H as (Hsr & Htasks & Hok2); [|done|exact Hok|].
  - assert (same_rest s s2) as Hsr2 by (eapply same_rest_trans; [apply same_rest_pool|done]).
    split; [done|done| |].
    + eapply heap_ok_ext; [|exact Hok2]. intros x. unfold taken. cbn.
      destruct (decide (x = t)) as [->|Hne].
      * rewrite fn_lookup_insert. rewrite (decide_False (P := t ∈ rest)) by done.
        rewrite decide_True; [done|by left].
      * rewrite fn_lookup_insert_ne by done. destruct (decide (x ∈ rest)) as [Hx|Hx].
        -- destruct (Hts x ltac:(by right)) as (E & _). done.
        -- rewrite decide_False; [done|]. set_solver.
    + exists tk. rewrite Htasks. split; [done|]. eapply ready_mono; [|exact Hr].
      by apply same_rest_sat.
  - intros x Hx. unfold taken. rewrite decide_True by (by right). split; [done|].
    destruct (Hts x ltac:(by right)) as (_ & tkx & Htx & Hrx). by exists tkx.
Qed.

Lemma running_rest s s' c x : same_rest s s' → running s c x → running s' c x.
Proof. intros [] (ws & Hws & Hc & Hx). exists ws. split; [congruence|]. split; [done|congruence]. Qed.

(** The grabbed task goes to the running stack. *)
Lemma acted_hold s f s2 t c0 x0 c fs u s' :
  inv s f → running s c0 x0 → grabbed s f s2 t → set_stack c fs s2 = Ok (u, s') → shape c fs →
  ready_of c fs = [t] → ready_of (ctl x0) (frames x0) = [] →
  running_of c fs = running_of (ctl x0) (frames x0) → acted s f s'.
Proof.
  intros Hi Hrun Hg H Hs Hr Hr0 Hu. pose proof (grabbed_rest _ _ _ _ Hg) as Hsr.
  pose proof (running_rest _ _ _ _ Hsr Hrun) as Hrun2.
  rewrite (set_stack_running _ _ _ _ _ _ _ H Hrun2).
  destruct Hg as [_ Hq Hok (tk & Htk & Hrt)]. destruct Hi as [Hh Hst Hw Hb].
  destruct Hrun as (_ & _ & _ & Hx).
  pose proof (heap_tasks _ _ Hok t tk Htk) as [Hsh Hd]. rewrite fn_lookup_insert in Hd.
  set (f' := <[t := Ready c0]> f). exists f'. split; [split|].
  - apply heap_ok_ctxs. apply (heap_ok_ext _ (<[t := Ready c0]> (<[t := Woken]> f))).
    + intros x. unfold f'. destruct (decide (x = t)) as [->|]; [by rewrite !fn_lookup_insert|].
      by rewrite !fn_lookup_insert_ne.
    + apply (heap_ok_place _ _ _ tk); rewrite ?fn_lookup_insert; try done.
  - assert (stacks_ok s2 f) as Hst2.
    { apply (stacks_quiet s f); [done|]. apply quiet_moved; [done|apply moved_refl]. }
    apply (stacks_set s2 f f' c0 x0); [done|by destruct Hrun2 as (? & _ & _ & ?)| | |].
    + destruct (stacks_ctx _ _ Hst c0 x0 Hx) as [_ Hr1 Hu1 Hn1]. split; cbn; [done| | |by rewrite Hu].
      * intros x. rewrite Hr, list_elem_of_singleton. unfold f'.
        destruct (decide (x = t)) as [->|]; [by rewrite fn_lookup_insert|].
        rewrite fn_lookup_insert_ne, <- Hr1, Hr0 by done. set_solver.
      * intros x. rewrite Hu, Hu1. unfold f'.
        destruct (decide (x = t)) as [->|]; [by rewrite fn_lookup_insert, Hq|].
        by rewrite fn_lookup_insert_ne.
    + intros x c1 Hne. unfold f'. destruct (decide (x = t)) as [->|].
      * rewrite fn_lookup_insert, Hq. split; [congruence|done].
      * by rewrite fn_lookup_insert_ne.
    + intros x c1 Hne. unfold f'. destruct (decide (x = t)) as [->|].
      * by rewrite fn_lookup_insert, Hq.
      * by rewrite fn_lookup_insert_ne.
  - intros x. unfold f'. destruct (decide (x = t)) as [->|]; [by rewrite fn_lookup_insert|].
    by rewrite fn_lookup_insert_ne.
  - cbn. destruct Hsr. lia.
  - destruct Hsr. split; [cbn; lia| |done|by apply static_same]. intros x. unfold f'.
    destruct (decide (x = t)) as [->|]; [rewrite Hq; by left|]. rewrite fn_lookup_insert_ne by done.
    by left.
Qed.

Lemma run_or_return_acted t fresh fin fs s f s2 c0 x0 u s' :
  run_or_return t fresh fin fs s2 = Ok (u, s') → inv s f → running s c0 x0 → grabbed s f s2 t →
  below_find fs = true → (top_wait fs = false → fresh = true) →
  ready_of (ctl x0) (frames x0) = [] → running_of (ctl x0) (frames x0) = executing fs →
  acted s f s'.
Proof.
  intros H Hi Hrun Hg Hfs Hfresh Hr0 Hu. unfold run_or_return in H. m_bind H as tk s3 Htk.
  destruct (fresh || _ || _) eqn:E.
  - eapply acted_hold; [done..|exact Hfs|done|done|by rewrite Hu].
  - assert (top_wait fs = true) as Ht.
    { destruct (top_wait fs) eqn:Ht; [done|]. rewrite (Hfresh eq_refl) in E. done. }
    assert (t ≠ NULL) as Hn.
    { pose proof (heap_bounds _ _ (grabbed_heap _ _ _ _ Hg) t ltac:(by rewrite Htk)).
      unfold NULL. lia. }
    eapply acted_hold; [done..| | |done|by rewrite Hu].
    + right. right. split; [done|]. by rewrite Ht.
    + cbn. by rewrite Ht, (proj2 (Z.eqb_neq _ _)).
Qed.

Lemma find_acted ws fresh flag fin stealing fs s f c0 x0 u s' :
  find_and_run_task ws fresh flag fin stealing fs s = Ok (u, s') →
  inv s f → running s c0 x0 →
  below_find fs = true → (top_wait fs = false → fresh = true) →
  ready_of (ctl x0) (frames x0) = [] → running_of (ctl x0) (frames x0) = executing fs →
  acted s f s'.
Proof.
  intros H Hi Hrun Hfs Hfresh Hr0 Hu. unfold find_and_run_task in H.
  pose proof (heap_pool_ok _ _ (inv_heap _ _ Hi)) as Hpl. destruct stealing.
  - m_bind H as v s1 Hv. assert (s1 = s) as ->.
    { unfold read_flag in Hv. destruct flag; [by m_action Hv|m_bind Hv; by m_action Hv|
        m_bind Hv; by m_action Hv]. }
    destruct (v =? flag_val flag).
    + eapply acted_set; [done|done|apply kept_refl, Hi|exact H| | |by rewrite Hu].
      * right. right. split; [exact Hfs|done].
      * cbn. rewrite andb_false_r. done.
    + m_bind H as ts s1 Hts. apply with_pool_Ok in Hts as (pl & Hts & ->).
      destruct (pool_steal_law _ _ _ _ Hpl Hts) as [Hpl' Hperm]. destruct ts as [|t rest].
      * eapply acted_set; [done|done|apply kept_pool; [apply Hi|done|done]|exact H|done|done|by rewrite Hu].
      * m_bind H as v1 s1 Hre.
        eapply run_or_return_acted; [exact H|done|done|by eapply grab|done..].
  - m_bind H as t s1 Ht. apply with_pool_Ok in Ht as (pl & Ht & ->).
    destruct (pool_pop_law _ _ _ _ Hpl Ht) as [Hpl' Hperm].
    destruct (Z.eqb_spec t NULL) as [->|Hn].
    + eapply acted_set; [done|done|apply kept_pool; [apply Hi|done|done]|exact H|done|done|by rewrite Hu].
    + eapply run_or_return_acted; [exact H|done|done| |done..].
      eapply (grab s f pl t [] 0 tt); [done|done|exact Hperm|done].
Qed.
(** ** Lemmas: running a task to its end *)

Lemma ready_in s f c0 x0 t :
  inv s f → ctxs s !! c0 = Some x0 → ready_of (ctl x0) (frames x0) = [t] →
  f t = Ready c0 ∧ ∃ tk, tasks s !! t = Some tk ∧ ready s tk.
Proof.
  intros Hi Hx Hr. destruct (stacks_ctx _ _ (inv_stacks _ _ Hi) c0 x0 Hx) as [_ Hr1 _ _].
  assert (f t = Ready c0) as E by (apply Hr1; rewrite Hr; by left). split; [done|].
  destruct (proj1 (heap_present _ _ (inv_heap _ _ Hi) t)) as [tk Htk]; [congruence|].
  pose proof (heap_tasks _ _ (inv_heap _ _ Hi) t tk Htk) as H. rewrite E in H.
  destruct H as [_ [Hrt _]]. by exists tk.
Qed.

(** The task of an [Exec] starts to run. *)
Lemma acted_start s f s2 t c0 x0 c fs u s' :
  inv s f → running s c0 x0 → ready_of (ctl x0) (frames x0) = [t] → kept s f s2 →
  set_stack c fs s2 = Ok (u, s') → shape c fs → ready_of c fs = [] →
  running_of c fs = t :: running_of (ctl x0) (frames x0) →
  ∃ f', inv s' f' ∧ later s f s' f' ∧ unstarted (f' t) = false.
Proof.
  intros Hi Hrun Hr0 Hk H Hs Hr Hu.
  destruct (ready_in s f c0 x0 t Hi) as (E & tk & Htk & _); [by destruct Hrun as (? & _ & _ & ?)|done|].
  destruct (inv_kept s f s2 Hi Hk) as (f2 & Hi2 & Hq).
  pose proof (running_quiet _ _ _ _ _ _ Hq Hrun) as Hrun2.
  rewrite (set_stack_running _ _ _ _ _ _ _ H Hrun2).
  assert (f2 t = Ready c0) as E2 by (by apply (quiet_ready _ _ _ _ Hq)).
  destruct (proj1 (heap_present _ _ (inv_heap _ _ Hi2) t)) as [tk2 Htk2]; [congruence|].
  assert (ctxs s2 !! c0 = Some x0) as Hx2 by (by destruct Hrun2 as (? & _ & _ & ?)).
  destruct (stacks_ctx _ _ (inv_stacks _ _ Hi2) c0 x0 Hx2) as [_ Hr1 Hu1 Hn1].
  set (f' := <[t := Running c0]> f2). exists f'. split; [split|split].
  - apply heap_ok_ctxs. apply (heap_ok_place _ _ _ tk2); try done; [apply Hi2|congruence..|].
    split; [|done]. by destruct (heap_tasks _ _ (inv_heap _ _ Hi2) t tk2 Htk2) as [Hsh _].
  - apply (stacks_set s2 f2 f' c0 x0); [apply Hi2|done| | |].
    + split; cbn; [done| | |].
      * intros x. rewrite Hr. unfold f'. destruct (decide (x = t)) as [->|].
        -- rewrite fn_lookup_insert. split; [by intros ?%elem_of_nil|done].
        -- rewrite fn_lookup_insert_ne, <- Hr1, Hr0, list_elem_of_singleton by done.
           split; [by intros ?%elem_of_nil|done].
      * intros x. rewrite Hu, elem_of_cons, Hu1. unfold f'. destruct (decide (x = t)) as [->|].
        -- rewrite fn_lookup_insert. split; [done|by left].
        -- rewrite fn_lookup_insert_ne by done. naive_solver.
      * rewrite Hu. constructor; [rewrite Hu1; congruence|done].
    + intros x c1 Hne. unfold f'. destruct (decide (x = t)) as [->|].
      * rewrite fn_lookup_insert, E2. split; congruence.
      * by rewrite fn_lookup_insert_ne.
    + intros x c1 Hne. unfold f'. destruct (decide (x = t)) as [->|].
      * rewrite fn_lookup_insert, E2. split; congruence.
      * by rewrite fn_lookup_insert_ne.
  - intros x. unfold f'. destruct (decide (x = t)) as [->|]; [by rewrite fn_lookup_insert|].
    rewrite fn_lookup_insert_ne by done. apply (inv_woken _ _ Hi2).
  - apply (inv_brk _ _ Hi2).
  - eapply later_trans; [by apply quiet_later|]. apply later_frame; try done.
    intros x. unfold f'. destruct (decide (x = t)) as [->|]; [by rewrite fn_lookup_insert|].
    by rewrite fn_lookup_insert_ne.
  - unfold f'. by rewrite fn_lookup_insert.
Qed.

(** A task that ran to its end is freed. *)
Lemma heap_ok_free s f t c :
  heap_ok s f → f t = Running c → heap_ok (set_tasks (delete t (tasks s)) s) (<[t := Absent]> f).
Proof.
  intros [] Hf. split; try done; cbn.
  - intros t'. rewrite heap_pool. destruct (decide (t' = t)) as [->|].
    + rewrite fn_lookup_insert, Hf. done.
    + by rewrite fn_lookup_insert_ne.
  - intros p pr Hp. destruct (heap_promises p pr Hp) as [(H1 & H2 & H3)|(H1 & l & Hc & Hnd & Hl)].
    + left. split; [done|]. split; [done|]. intros t'. destruct (decide (t' = t)) as [->|].
      * by rewrite fn_lookup_insert.
      * by rewrite fn_lookup_insert_ne.
    + right. split; [done|]. exists l. split; [|split; [done|]].
      * apply chain_delete; [|done]. rewrite Hl, Hf. done.
      * intros t'. rewrite Hl. destruct (decide (t' = t)) as [->|].
        -- by rewrite fn_lookup_insert, Hf.
        -- by rewrite fn_lookup_insert_ne.
  - intros t' p. destruct (decide (t' = t)) as [->|]; [by rewrite fn_lookup_insert|].
    rewrite fn_lookup_insert_ne by done. apply heap_waiting.
  - intros t'. destruct (decide (t' = t)) as [->|].
    + rewrite fn_lookup_insert, lookup_delete_eq. split; [done|by intros []].
    + rewrite fn_lookup_insert_ne, lookup_delete_ne by done. apply heap_present.
  - intros t' tk. destruct (decide (t' = t)) as [->|]; [by rewrite lookup_delete_eq|].
    rewrite lookup_delete_ne, fn_lookup_insert_ne by done. intros H.
    apply (task_ok_mono s); [apply (sat_mono_refl s)|by apply heap_tasks].
  - intros t'. destruct (decide (t' = t)) as [->|]; [rewrite lookup_delete_eq; by intros []|].
    rewrite lookup_delete_ne by done. apply heap_bounds.
Qed.

Lemma exit_acted t g fs s f c0 x0 u s' :
  execute_task_exit t g fs s = Ok (u, s') → inv s f → running s c0 x0 →
  frames x0 = F_execute t g :: fs → ctl x0 ≠ Abandoned → ready_of (ctl x0) (frames x0) = [] →
  below_task fs = true → acted s f s'.
Proof.
  intros H Hi Hrun Hfs Hctl Hr0 Hb. unfold execute_task_exit in H.
  m_bind H as v s1 Hc. m_bind H as w s2 Hfree. unfold free_task in Hfree.
  m_bind Hfree as tk s3 Htk. m_action Hfree.
  pose proof (check_out_kept _ _ f _ _ Hc (inv_heap _ _ Hi)) as Hk.
  destruct (inv_kept s f s1 Hi Hk) as (f1 & Hi1 & Hq).
  pose proof (running_quiet _ _ _ _ _ _ Hq Hrun) as Hrun1.
  set (s2 := set_tasks (delete t (tasks s1)) s1) in *.
  assert (running s2 c0 x0) as Hrun2 by done.
  rewrite (set_stack_running _ _ _ _ _ _ _ H Hrun2).
  assert (ctxs s1 !! c0 = Some x0) as Hx1 by (by destruct Hrun1 as (? & _ & _ & ?)).
  destruct (stacks_ctx _ _ (inv_stacks _ _ Hi1) c0 x0 Hx1) as [_ Hr1 Hu1 Hn1].
  assert (running_of (ctl x0) (frames x0) = t :: executing fs) as Hu0.
  { rewrite Hfs. by destruct (ctl x0). }
  rewrite Hu0 in Hu1, Hn1. apply NoDup_cons in Hn1 as [Hn Hn1].
  assert (f1 t = Running c0) as E by (apply Hu1; by left).
  set (f' := <[t := Absent]> f1). exists f'. split; [split|].
  - apply heap_ok_ctxs. by apply (heap_ok_free _ _ _ c0), E; apply Hi1.
  - apply (stacks_set s2 f1 f' c0 x0); [by destruct Hi1 as [_ [] _ _]; split|done| | |].
    + split; cbn [ctl frames ready_of running_of shape].
      * right. by left.
      * intros x. rewrite andb_false_r. unfold f'. destruct (decide (x = t)) as [->|].
        -- rewrite fn_lookup_insert. split; [by intros ?%elem_of_nil|done].
        -- by rewrite fn_lookup_insert_ne, <- Hr1, Hr0.
      * intros x. unfold f'. destruct (decide (x = t)) as [->|].
        -- rewrite fn_lookup_insert. split; [|done]. intros H1. done.
        -- rewrite fn_lookup_insert_ne, <- Hu1, elem_of_cons by done. naive_solver.
      * done.
    + intros x c1 Hne. unfold f'. destruct (decide (x = t)) as [->|].
      * rewrite fn_lookup_insert, E. done.
      * by rewrite fn_lookup_insert_ne.
    + intros x c1 Hne. unfold f'. destruct (decide (x = t)) as [->|].
      * rewrite fn_lookup_insert, E. split; congruence.
      * by rewrite fn_lookup_insert_ne.
  - intros x. unfold f'. destruct (decide (x = t)) as [->|]; [by rewrite fn_lookup_insert|].
    rewrite fn_lookup_insert_ne by done. apply (inv_woken _ _ Hi1).
  - apply (inv_brk _ _ Hi1).
  - eapply later_trans; [by apply quiet_later|]. apply later_frame; try done.
    + cbn. intros x tk'. by intros [_ ?]%lookup_delete_Some.
    + intros x. unfold f'. destruct (decide (x = t)) as [->|]; [by rewrite fn_lookup_insert|].
      by rewrite fn_lookup_insert_ne.
Qed.
(** ** Lemmas: leaving and destroying contexts *)

(** The tasks on the stack of [c] are lost. *)
Definition drop (c : Z) (f : Z → place) : Z → place :=
  λ t, if decide (f t = Ready c ∨ f t = Running c) then Lost else f t.

Lemma drop_cases c f t :
  (drop c f t = Lost ∧ (f t = Ready c ∨ f t = Running c)) ∨
  (drop c f t = f t ∧ f t ≠ Ready c ∧ f t ≠ Running c).
Proof. unfold drop. destruct (decide _) as [|H]; [by left|right]. naive_solver. Qed.

Lemma drop_other c f t x :
  x ≠ Lost → x ≠ Ready c → x ≠ Running c → drop c f t = x ↔ f t = x.
Proof. intros. destruct (drop_cases c f t) as [(-> & [E|E])|(-> & _)]; split; congruence. Qed.

Lemma heap_ok_drop s f c : heap_ok s f → heap_ok s (drop c f).
Proof.
  intros []. split; try done.
  - intros t. rewrite heap_pool. symmetry. by apply drop_other.
  - intros p pr Hp. destruct (heap_promises p pr Hp) as [(H1 & H2 & H3)|(H1 & l & Hc & Hnd & Hl)].
    + left. split; [done|]. split; [done|]. intros t. by rewrite drop_other.
    + right. split; [done|]. exists l. split; [done|]. split; [done|]. intros t. by rewrite Hl, drop_other.
  - intros t p. rewrite drop_other by done. apply heap_waiting.
  - intros t. rewrite <- heap_present. destruct (drop_cases c f t) as [(-> & [E|E])|(-> & _)]; by rewrite ?E.
  - intros t tk Ht. pose proof (heap_tasks t tk Ht) as [Hs H].
    destruct (drop_cases c f t) as [(-> & _)|(-> & _)]; split; done.
Qed.

Lemma ctx_ok_drop f c c1 x : ctx_ok f c x → c ≠ c1 → ctx_ok (drop c1 f) c x.
Proof. intros H Hne. apply (ctx_ok_other f); [done|intros t; apply drop_other; congruence..]. Qed.

Lemma drop_later f c : ∀ t, unstarted (drop c f t) = true → unstarted (f t) = true.
Proof. intros t. by destruct (drop_cases c f t) as [(-> & _)|(-> & _)]. Qed.

Lemma destroy_prev_Ok s f c0 x0 u s1 :
  destroy_prev s = Ok (u, s1) → inv s f → running s c0 x0 →
  s1 = set_ctxs (delete (prev x0) (ctxs s)) s ∧ inv s1 (drop (prev x0) f).
Proof.
  intros H Hi (ws & Hws & Hc & Hx). unfold destroy_prev, current_ws, LiteCtx_destroy in H.
  m_bind H as ws' s2 Hws'. m_bind Hws'. m_action Hws'. m_bind H as x s2 Hx'. m_bind H as y s2 Hy.
  m_action H. assert (ws' = ws) as -> by congruence. assert (x = x0) as -> by congruence.
  split; [done|]. destruct Hi as [Hh [] Hw Hb]. split; [by apply heap_ok_ctxs, heap_ok_drop| | |done].
  - split; cbn.
    + intros c z. destruct (decide (c = prev x0)) as [->|]; [by rewrite lookup_delete_eq|].
      rewrite lookup_delete_ne by done. intros Hz. apply ctx_ok_drop; [by apply stacks_ctx0|done].
    + intros t c Ht. destruct (drop_cases (prev x0) f t) as [(E & _)|(E & H1 & H2)];
        [rewrite E in Ht; by destruct Ht|]. rewrite E in Ht.
      rewrite lookup_delete_ne by (intros <-; by destruct Ht). by eapply stacks_place0.
    + intros c. destruct (decide (c = prev x0)) as [->|]; [rewrite lookup_delete_eq; by intros []|].
      rewrite lookup_delete_ne by done. apply stacks_bounds0.
  - intros t. destruct (drop_cases (prev x0) f t) as [(-> & _)|(-> & _)]; [done|apply Hw].
Qed.

Lemma ctx_swap_Ok c fs next (s : rt S) c0 x0 u s' :
  ctx_swap c fs next s = Ok (u, s') → running s c0 x0 →
  let m := <[c0 := mkCtx c fs (prev x0)]> (ctxs s) in
  ∃ y w0, m !! next = Some y ∧ workers s !! self s = Some w0 ∧
    s' = set_workers (<[self s := mkWs (current_finish w0) (curr_task w0) next]> (workers s)) (set_ctxs (<[next := mkCtx (ctl y) (frames y) c0]> m) s).
Proof.
  intros H Hrun m. unfold ctx_swap, current_ws in H. m_bind H as v s1 H1.
  rewrite (set_stack_running _ _ _ _ _ _ _ H1 Hrun) in *. clear H1. fold m in H.
  m_bind H as ws s2 Hws. m_bind Hws. m_action Hws. m_bind H. m_bind H as y s2 Hy. m_bind H. m_action H.
  cbn in Hy, Hws. destruct Hrun as (ws' & Hws' & <- & _). assert (ws' = ws) as -> by congruence.
  exists y, ws. split; [done|]. by split.
Qed.

Lemma inv_workers s f m : inv s f → inv (set_workers m s) f.
Proof. intros [Hh [] Hw Hb]. split; [by apply heap_ok_workers|by split|done|done]. Qed.

(** A task that resumes a context starts, and its own context is abandoned. *)
Lemma resume_acted (s : rt S) f t c0 x0 fs next u s' :
  ctx_swap Abandoned fs next s = Ok (u, s') → inv s f → running s c0 x0 → f t = Ready c0 →
  ∃ f', inv s' f' ∧ later s f s' f' ∧ unstarted (f' t) = false.
Proof.
  intros H Hi Hrun Ht. eapply ctx_swap_Ok in H as (y & ws & Hy & _ & ->); [|exact Hrun].
  destruct Hrun as (_ & _ & _ & Hx). exists (drop c0 f). split; [apply inv_workers|split].
  - destruct Hi as [Hh [] Hw Hb]. split; [by apply heap_ok_ctxs, heap_ok_drop| | |done].
    + assert (ctx_ok (drop c0 f) c0 (mkCtx Abandoned fs (prev x0))) as Hab.
      { split; cbn; [done| | |constructor]; intros t'.
        - split; [by intros ?%elem_of_nil|].
          destruct (drop_cases c0 f t') as [(-> & _)|(-> & ? & ?)]; done.
        - split; [by intros ?%elem_of_nil|].
          destruct (drop_cases c0 f t') as [(-> & _)|(-> & ? & ?)]; done. }
      assert (∀ c x, <[c0 := mkCtx Abandoned fs (prev x0)]> (ctxs s) !! c = Some x →
        ctx_ok (drop c0 f) c x) as Hall.
      { intros c x. destruct (decide (c = c0)) as [->|].
        - rewrite lookup_insert_eq. by intros [= <-].
        - rewrite lookup_insert_ne by done. intros Hc. apply ctx_ok_drop; [by apply stacks_ctx0|done]. }
      split; cbn.
      * intros c x. destruct (decide (c = next)) as [->|].
        -- rewrite lookup_insert_eq. intros [= <-]. by destruct (Hall next y Hy); split.
        -- rewrite lookup_insert_ne by done. apply Hall.
      * intros t' c Hc. rewrite !lookup_insert_is_Some.
        destruct (decide (next = c)); [by left|right; split; [done|]].
        destruct (decide (c0 = c)); [by left|right; split; [done|]].
        destruct (drop_cases c0 f t') as [(E & _)|(E & _)]; rewrite E in Hc; [by destruct Hc|].
        by eapply stacks_place0.
      * intros c. rewrite !lookup_insert_is_Some.
        assert (is_Some (ctxs s !! next) ∨ next = c0) as Hn.
        { destruct (decide (next = c0)); [by right|left]. rewrite lookup_insert_ne in Hy by done. by exists y. }
        intros [<-|[_ [<-|[_ Hc]]]]; [|apply stacks_bounds0; by exists x0|by apply stacks_bounds0].
        destruct Hn as [Hn| ->]; [by apply stacks_bounds0|apply stacks_bounds0; by exists x0].
    + intros t'. destruct (drop_cases c0 f t') as [(-> & _)|(-> & _)]; [done|apply Hw].
  - apply later_frame; try done. apply drop_later.
  - destruct (drop_cases c0 f t) as [(-> & _)|(_ & ? & _)]; done.
Qed.

(** The stacks after a swap to the new context [n], which starts [t]. *)
Lemma stacks_new_ctx (s s' : rt S) f t cn c fs c0 x0 n :
  stacks_ok s f → ctxs s !! c0 = Some x0 → c0 < n → ctxs s !! n = None →
  (f t = Ready c0 ∧ ready_of (ctl x0) (frames x0) = [t] ∨
   f t = Queued ∧ ready_of (ctl x0) (frames x0) = []) →
  shape c fs → ready_of c fs = [] → running_of c fs = running_of (ctl x0) (frames x0) →
  shape cn [] → ready_of cn [] = [t] → running_of cn [] = [] →
  brk s <= n → n < brk s' →
  (∀ c1, ctxs s' !! c1 = if decide (c1 = n) then Some (mkCtx cn [] c0)
                         else if decide (c1 = c0) then Some (mkCtx c fs (prev x0)) else ctxs s !! c1) →
  stacks_ok s' (<[t := Ready n]> f).
Proof.
  intros Hst Hx Hc0 Hnone Ht Hs Hr Hu Hsn Hrn Hun Hb Hb' Hctx. set (f' := <[t := Ready n]> f).
  assert (∀ x, f x ≠ Ready n ∧ f x ≠ Running n) as Hnn.
  { intros x. split; intros E; apply (is_Some_None (A:=LiteCtx)); rewrite <- Hnone;
      apply (stacks_place _ _ Hst x); auto. }
  split.
  - intros c1 x. rewrite Hctx. destruct (decide (c1 = n)) as [->|Hne1].
    { intros [= <-]. split; cbn; [done| | |by rewrite Hun; constructor]; intros z; unfold f'.
      - rewrite Hrn, list_elem_of_singleton. destruct (decide (z = t)) as [->|].
        + by rewrite fn_lookup_insert.
        + rewrite fn_lookup_insert_ne by done. destruct (Hnn z). done.
      - rewrite Hun. split; [by intros ?%elem_of_nil|].
        destruct (decide (z = t)) as [->|]; [by rewrite fn_lookup_insert|].
        rewrite fn_lookup_insert_ne by done. by destruct (Hnn z). }
    destruct (decide (c1 = c0)) as [->|Hne0].
    + intros [= <-]. destruct (stacks_ctx _ _ Hst c0 x0 Hx) as [_ Hr1 Hu1 Hn1].
      split; cbn; [done| | |by rewrite Hu]; intros z; unfold f'.
      * rewrite Hr. split; [by intros ?%elem_of_nil|].
        destruct (decide (z = t)) as [->|]; [rewrite fn_lookup_insert; intros [= E]; lia|].
        rewrite fn_lookup_insert_ne, <- Hr1 by done.
        destruct Ht as [(_ & ->)|(_ & ->)]; [by intros ?%list_elem_of_singleton|done].
      * rewrite Hu, Hu1. destruct (decide (z = t)) as [->|]; [|by rewrite fn_lookup_insert_ne].
        rewrite fn_lookup_insert. destruct Ht as [(-> & _)|(-> & _)]; done.
    + intros Hc1. apply (ctx_ok_other f); [by apply (stacks_ctx _ _ Hst)|intros z..]; unfold f';
        (destruct (decide (z = t)) as [->|]; [|by rewrite fn_lookup_insert_ne]);
        rewrite fn_lookup_insert; destruct Ht as [(-> & _)|(-> & _)]; split; congruence.
  - intros z c1 Hz. rewrite Hctx. destruct (decide (c1 = n)); [done|].
    destruct (decide (c1 = c0)); [done|]. unfold f' in Hz. destruct (decide (z = t)) as [->|].
    + rewrite fn_lookup_insert in Hz. by destruct Hz as [[= ?]|?].
    + rewrite fn_lookup_insert_ne in Hz by done. by apply (stacks_place _ _ Hst z).
  - pose proof (stacks_bounds _ _ Hst c0 ltac:(by exists x0)).
    intros c1. rewrite Hctx. destruct (decide (c1 = n)) as [->|]; [intros _; lia|].
    destruct (decide (c1 = c0)) as [->|]; [intros _; lia|].
    intros Hc. pose proof (stacks_bounds _ _ Hst c1 Hc). lia.
Qed.

(** A new context takes over, with a task to start. *)
Lemma new_ctx_acted (s : rt S) f g t cn c fs c0 x0 u s' :
  (newCtx ← LiteCtx_create cn; ctx_swap c fs newCtx) s = Ok (u, s') →
  running s c0 x0 → stacks_ok s f → heap_ok s g → (∀ x, x ≠ t → g x = f x) →
  (∀ x, x ≠ t → f x ≠ Woken) → 0 < brk s →
  (∃ tk, tasks s !! t = Some tk ∧ task_ok s tk (Ready 0)) →
  g t ≠ Queued → (∀ p, g t ≠ Waiting p) →
  (f t = Ready c0 ∧ ready_of (ctl x0) (frames x0) = [t] ∨
   f t = Queued ∧ ready_of (ctl x0) (frames x0) = []) →
  shape c fs → ready_of c fs = [] → running_of c fs = running_of (ctl x0) (frames x0) →
  shape cn [] → ready_of cn [] = [t] → running_of cn [] = [] →
  inv s' (<[t := Ready (brk s)]> f) ∧ later s f s' (<[t := Ready (brk s)]> f).
Proof.
  intros H Hrun Hst Hh Hg Hw Hb (tk & Htk & Hok) Hq Hnw Ht Hs Hr Hu Hsn Hrn Hun.
  unfold LiteCtx_create in H. m_bind H as n s1 Hn. m_bind Hn. m_bind Hn. m_action Hn.
  set (n := brk s) in *. pose proof Hrun as (ws0 & Hws0 & Hcc & Hx).
  assert (0 < c0 < n) as Hc0 by (apply (stacks_bounds _ _ Hst); by exists x0).
  assert (ctxs s !! n = None) as Hnone.
  { apply eq_None_not_Some. intros Hi. apply (stacks_bounds _ _ Hst) in Hi. lia. }
  set (s1 := set_ctxs _ _) in *.
  assert (running s1 c0 x0) as Hrun1.
  { exists ws0. split; [done|]. split; [done|]. cbn. rewrite lookup_insert_ne; [done|lia]. }
  eapply ctx_swap_Ok in H as (y & ws & Hy & _ & ->); [|exact Hrun1].
  cbn in Hy. rewrite lookup_insert_ne, lookup_insert_eq in Hy by lia. injection Hy as <-.
  split; [apply inv_workers; split|].
  - apply heap_ok_ctxs, heap_ok_ctxs, heap_ok_brk; [lia|].
    apply (heap_ok_ext _ (<[t := Ready n]> g)).
    + intros x. destruct (decide (x = t)) as [->|]; [by rewrite !fn_lookup_insert|].
      rewrite !fn_lookup_insert_ne by done. symmetry. by apply Hg.
    + by apply (heap_ok_place _ _ _ tk).
  - eapply (stacks_new_ctx s _ f t cn c fs c0 x0 n); try done; [lia|cbn; lia|]. intros c1. cbn.
    rewrite !lookup_insert. repeat case_decide; first [done|congruence|lia].
  - intros z. destruct (decide (z = t)) as [->|]; [by rewrite fn_lookup_insert|].
    rewrite fn_lookup_insert_ne by done. by apply Hw.
  - cbn. lia.
  - apply later_frame; try done; [cbn; lia|]. intros z. destruct (decide (z = t)) as [->|].
    + by destruct Ht as [(-> & _)|(-> & _)].
    + by rewrite fn_lookup_insert_ne.
Qed.
End stacks.
