(* ===== verification/RuntimeStep.v ===== *)
(** * Lemmas: every action of a worker keeps the invariant

    One lemma per kind of action of [Runtime], and their sum for [step] and
    [run]. *)

From S2P Require Import Prelude Deque Pool Runtime RuntimeHeap RuntimeStack.
From stdpp Require Import options.

Section step.
Context {S : Type} `{!TaskPool S} {EX : Externs}.
#[local] Set Default Proof Using "Type*".

Lemma acted_later s1 f1 s2 f2 s3 :
  later s1 f1 s2 f2 → acted s2 f2 s3 → acted s1 f1 s3.
Proof. intros Hl (f3 & Hi & Hl2). exists f3. split; [done|]. by eapply later_trans. Qed.

(** An action that only moves the running stack on, with nothing else. *)
Lemma acted_move (s : rt S) f c0 x0 c fs u s' :
  inv s f → running s c0 x0 → set_stack c fs s = Ok (u, s') → shape c fs →
  ready_of c fs = ready_of (ctl x0) (frames x0) →
  running_of c fs = running_of (ctl x0) (frames x0) → acted s f s'.
Proof. intros Hi Hrun H. eapply acted_set; [done|done|apply kept_refl, Hi|exact H]. Qed.

(** ** Resuming after a swap *)

(** The running context may have been destroyed. *)
Definition current (s : rt S) (c : Z) (x : LiteCtx) : Prop :=
  (∃ ws, workers s !! self s = Some ws ∧ curr_ctx ws = c) ∧ ∀ y, ctxs s !! c = Some y → y = x.

Lemma running_current s c x : running s c x → current s c x.
Proof. intros (ws & Hws & Hc & Hx). split; [by exists ws|]. intros y Hy. congruence. Qed.

Lemma current_running s f c x s2 d fs u s' :
  current s c x → kept s f s2 → set_stack d fs s2 = Ok (u, s') → running s c x.
Proof.
  intros [(ws & Hws & Hc) Hx] (f2 & _ & Hq & _) H.
  apply set_stack_Ok in H as (ws2 & y & Hws2 & Hy & _). destruct Hq.
  assert (curr_ctx <$> workers s2 !! self s2 = Some c) as E.
  { rewrite quiet_self, <- lookup_fmap, quiet_curr, lookup_fmap, Hws. cbn. by rewrite Hc. }
  rewrite Hws2 in E. injection E as E. rewrite E, quiet_ctxs in Hy.
  exists ws. split; [done|]. split; [done|]. by rewrite <- (Hx y).
Qed.

Lemma future_wait_exit_acted p g t k fs s f c0 x0 u s' :
  future_wait_exit p g t k fs s = Ok (u, s') → inv s f → current s c0 x0 →
  below_user fs = true → ready_of (ctl x0) (frames x0) = [] →
  running_of (ctl x0) (frames x0) = executing fs → acted s f s'.
Proof.
  intros H Hi Hc Hb Hr Hu. unfold future_wait_exit in H. m_bind H as v s1 H1.
  m_bind H as pr s2 Hp. m_bind H as b s2 Hs.
  pose proof (set_scope_kept _ _ _ f _ _ H1 (inv_heap _ _ Hi)) as Hk.
  eapply acted_set; [done|by eapply current_running|done|exact H|exact Hb|by rewrite Hr|by rewrite Hu].
Qed.

Lemma yield_exit_acted g t k fs s f c0 x0 u s' :
  yield_exit g t k fs s = Ok (u, s') → inv s f → current s c0 x0 →
  below_user fs = true → ready_of (ctl x0) (frames x0) = [] →
  running_of (ctl x0) (frames x0) = executing fs → acted s f s'.
Proof.
  intros H Hi Hc Hb Hr Hu. unfold yield_exit in H. m_bind H as v s1 H1.
  pose proof (set_scope_kept _ _ _ f _ _ H1 (inv_heap _ _ Hi)) as Hk.
  eapply acted_set; [done|by eapply current_running|done|exact H|exact Hb|by rewrite Hr|by rewrite Hu].
Qed.

Lemma destroy_prev_current s f c0 x0 u s1 :
  destroy_prev s = Ok (u, s1) → inv s f → running s c0 x0 →
  ∃ f1, inv s1 f1 ∧ later s f s1 f1 ∧ current s1 c0 x0.
Proof.
  intros H Hi Hrun. eapply destroy_prev_Ok in H as (-> & Hi1); [|done..].
  exists (RuntimeStack.drop (prev x0) f). split; [done|]. split.
  - apply later_frame; try done. apply drop_later.
  - destruct Hrun as (ws & Hws & Hc & Hx). split; [by exists ws|]. cbn. intros y Hy.
    apply lookup_delete_Some in Hy as [_ Hy]. congruence.
Qed.

(** ** Running a task *)

Lemma execute_acted t fs s f c0 x0 u s' :
  execute_task t fs s = Ok (u, s') → inv s f → running s c0 x0 →
  below_task fs = true → ctl x0 = Exec t → frames x0 = fs →
  ∃ f', inv s' f' ∧ later s f s' f' ∧ unstarted (f' t) = false.
Proof.
  intros H Hi Hrun Hb Hctl Hfs. unfold execute_task in H.
  m_bind H as tk s1 Htk. m_bind H as v s1 H1.
  pose proof (set_scope_kept _ _ _ f _ _ H1 (inv_heap _ _ Hi)) as Hk.
  assert (ready_of (ctl x0) (frames x0) = [t]) as Hr by (by rewrite Hctl).
  destruct (t_fp tk) as [c|event c|ctx].
  - eapply acted_start; [done..|exact H|exact Hb|done|by rewrite Hctl, Hfs].
  - eapply acted_start; [done..|exact H|exact Hb|done|by rewrite Hctl, Hfs].
  - destruct (ready_in s f c0 x0 t Hi) as (E & _); [by destruct Hrun as (? & _ & _ & ?)|done|].
    destruct (inv_kept s f s1 Hi Hk) as (f1 & Hi1 & Hq).
    eapply resume_acted in H as (f' & Hi' & Hl & Hst);
      [|done|by eapply running_quiet|by apply (quiet_ready _ _ _ _ Hq)].
    exists f'. split; [done|]. split; [|done]. eapply later_trans; [by apply quiet_later|done].
Qed.

(** ** New contexts *)

Lemma help_wait_acted p t s f c0 x0 u s' :
  _help_wait p t s = Ok (u, s') → inv s f → running s c0 x0 →
  ctl x0 = Help_wait p t → frames x0 = [] → acted s f s'.
Proof.
  intros H Hi Hrun Hctl Hfs. unfold _help_wait, current_ws in H.
  m_bind H as ws s1 Hws. m_bind Hws. m_action Hws. m_bind H as x s1 Hx. m_bind H as tk s1 Ht.
  apply new_task_Ok in Ht as (-> & ->). m_bind H as v s2 Hs. unfold spawn_escaping, spawn_escaping_at in Hs.
  pose proof (new_spawn_kept _ false _ _ _ s f _ _ Hs (inv_heap _ _ Hi) (inv_brk _ _ Hi)) as [Hk _].
  eapply acted_set; [exact Hi|exact Hrun|exact Hk|exact H|done|by rewrite Hctl, Hfs|by rewrite Hctl, Hfs].
Qed.

Lemma yield_helper_acted t locale s f c0 x0 u s' :
  yield_helper t locale s = Ok (u, s') → inv s f → running s c0 x0 →
  ctl x0 = Yield_helper t locale → frames x0 = [] → acted s f s'.
Proof.
  intros H Hi Hrun Hctl Hfs. unfold yield_helper, current_ws in H. m_bind H as b s1 Hb.
  m_bind H as ws s1 Hws. m_bind Hws. m_action Hws. m_bind H as x s1 Hx. m_bind H as tk s1 Ht.
  apply new_task_Ok in Ht as (-> & ->). m_bind H as v s2 Hs. unfold spawn_escaping, spawn_escaping_at in Hs.
  pose proof (new_spawn_kept _ false _ _ _ s f _ _ Hs (inv_heap _ _ Hi) (inv_brk _ _ Hi)) as [Hk _].
  eapply acted_set; [exact Hi|exact Hrun|exact Hk|exact H|done|by rewrite Hctl, Hfs|by rewrite Hctl, Hfs].
Qed.

Lemma wait_swap_acted p g t r k fs s f c0 x0 u s' :
  future_wait_swap p g t r k fs s = Ok (u, s') → inv s f → running s c0 x0 →
  ready_of (ctl x0) (frames x0) = [r] → below_user fs = true →
  running_of (ctl x0) (frames x0) = executing fs → acted s f s'.
Proof.
  intros H Hi Hrun Hr Hb Hu.
  destruct (ready_in s f c0 x0 r Hi) as (E & tk & Htk & Hrt);
    [by destruct Hrun as (? & _ & _ & ?)|done|].
  pose proof (heap_tasks _ _ (inv_heap _ _ Hi) r tk Htk) as Hok. rewrite E in Hok.
  edestruct (new_ctx_acted s f f r) as [Hi' Hl];
    [exact H|exact Hrun|apply Hi|apply Hi|done|intros; apply (inv_woken _ _ Hi)|apply (inv_brk _ _ Hi)
    |by exists tk|by rewrite E|by rewrite E|by left|exact Hb|done|by rewrite Hu|done..|].
  by eexists.
Qed.

(** ** Yielding *)

Lemma yield_find_ok ws s f r s1 :
  yield_find ws s = Ok (r, s1) → inv s f → same_rest s s1 ∧
  if r =? NULL then kept s f s1 else grabbed s f s1 r.
Proof.
  intros H Hi. unfold yield_find in H.
  pose proof (heap_pool_ok _ _ (inv_heap _ _ Hi)) as Hpl.
  assert (∀ s1 t, grabbed s f s1 t → (t =? NULL) = false) as Hn.
  { intros s2 t Hg. apply Z.eqb_neq.
    pose proof (grabbed_ready _ _ _ _ Hg) as (tk & Htk & _).
    pose proof (heap_bounds _ _ (grabbed_heap _ _ _ _ Hg) t ltac:(by rewrite Htk)).
    unfold NULL. lia. }
  m_bind H as t s2 Ht. apply with_pool_Ok in Ht as (pl & Ht & ->).
  destruct (pool_pop_law _ _ _ _ Hpl Ht) as [Hpl' Hperm].
  destruct (Z.eqb_spec t NULL) as [->|Ht0].
  - pose proof (kept_pool s f pl (inv_heap _ _ Hi) Hpl' Hperm) as Hk.
    m_bind H as ts s2 Hts. apply with_pool_Ok in Hts as (pl2 & Hts & ->).
    destruct (pool_steal_law _ _ _ _ Hpl' Hts) as [Hpl2 Hperm2]. cbn [pool set_pool] in *.
    destruct ts as [|t rest].
    + m_action H. subst. split; [apply (same_rest_pool s pl2)|]. cbn. change (kept s f (set_pool pl2 s)).
      apply kept_pool; [apply Hi|done|by rewrite Hperm].
    + m_bind H as v s3 Hre. m_action H. subst.
      assert (grabbed s f s3 t) as Hg.
      { eapply (grab s f pl2 t rest); [done|done|by rewrite Hperm|exact Hre]. }
      split; [apply Hg|]. by rewrite (Hn _ _ Hg).
  - m_action H. subst.
    assert (grabbed s f (set_pool pl s) t) as Hg.
    { eapply (grab s f pl t [] 0 tt); [done|done|exact Hperm|done]. }
    split; [apply Hg|]. by rewrite (Hn _ _ Hg).
Qed.

Lemma yield_loop_acted g t locale k fs s f c0 x0 u s' :
  yield_loop g t locale k fs s = Ok (u, s') → inv s f → running s c0 x0 →
  ready_of (ctl x0) (frames x0) = [] → below_user fs = true →
  running_of (ctl x0) (frames x0) = executing fs → acted s f s'.
Proof.
  intros H Hi Hrun Hr Hb Hu. unfold yield_loop in H. m_bind H.
  m_bind H as r s1 Hf. pose proof (yield_find_ok _ _ f _ _ Hf Hi) as [_ Hg].
  destruct (Z.eqb_spec r NULL) as [->|Hn].
  - destruct (inv_kept s f s1 Hi Hg) as (f1 & Hi1 & Hq).
    eapply acted_later; [by apply quiet_later|].
    eapply yield_exit_acted; [exact H|done|by eapply running_current, running_quiet|done..].
  - m_bind H as tk s2 Htk. destruct (non_blocking tk).
    + eapply acted_hold; [done..|exact H|exact Hb|done|done|by rewrite Hu].
    + pose proof (grabbed_rest _ _ _ _ Hg) as Hsr.
      pose proof (running_rest _ _ _ _ Hsr Hrun) as Hrun1.
      pose proof (grabbed_queued _ _ _ _ Hg) as Hq.
      pose proof (grabbed_ready _ _ _ _ Hg) as (tk' & Htk' & Hrt).
      pose proof (heap_tasks _ _ (grabbed_heap _ _ _ _ Hg) r tk' Htk') as [Hsh Hd].
      rewrite fn_lookup_insert in Hd.
      assert (quiet s f s1 f) as Hqt by (by apply quiet_moved, moved_refl).
      assert (0 < brk s1) as Hbrk by (pose proof (inv_brk _ _ Hi); destruct Hsr; lia).
      edestruct (new_ctx_acted s1 f (<[r := Woken]> f) r) as [Hi' Hl];
        [exact H|exact Hrun1|by eapply stacks_quiet; [apply Hi|]|apply Hg
          |by intros; rewrite fn_lookup_insert_ne
          |intros; apply (inv_woken _ _ Hi)|done|exists tk'; split; [done|by split]
          |by rewrite fn_lookup_insert|by rewrite fn_lookup_insert|by right|exact Hb|done
          |by rewrite Hu|done..|].
      eexists. split; [done|]. eapply later_trans; [by apply quiet_later|exact Hl].
Qed.

(** ** The rest of the actions *)

Lemma kept_calls (s : rt S) f l : heap_ok s f → kept s f (set_calls l s).
Proof.
  intros Hh. exists f. split; [by destruct Hh|]. split; [|done].
  split; try done; auto; [by apply static_same|]. intros p pr Hp _. by exists pr.
Qed.

Lemma kept_flags (s : rt S) f m : heap_ok s f → kept s f (set_flags m s).
Proof.
  intros Hh. exists f. split; [by destruct Hh|]. split; [|done].
  split; try done; auto; [by apply static_same|]. intros p pr Hp _. by exists pr.
Qed.

Lemma kept_cells (s : rt S) f b m : brk s <= b → heap_ok s f → kept s f (set_cells m (set_brk b s)).
Proof.
  intros Hb Hh. exists f. split; [by destruct (heap_ok_brk s f b Hb Hh)|]. split; [|done].
  split; try done; auto; [by apply static_same|]. intros p pr Hp _. by exists pr.
Qed.

(** The action is [m], which keeps everything, and then moves the stack on. *)
Ltac moves_on Hi Hrun Hctl Hfs H Hk :=
  eapply acted_set; [exact Hi|exact Hrun|exact Hk|exact H| | |]; rewrite ?Hctl, ?Hfs; try done.

Lemma run_code_acted c fs s f c0 x0 u s' :
  run_code c fs s = Ok (u, s') → inv s f → running s c0 x0 →
  below_user fs = true → ctl x0 = Run c → frames x0 = fs → acted s f s'.
Proof.
  intros H Hi Hrun Hb Hctl Hfs.
  pose proof (inv_heap _ _ Hi) as Hh. pose proof (inv_brk _ _ Hi) as Hbrk.
  pose proof (kept_refl s f Hh) as Hk0.
  destruct c; cbn [run_code] in H.
  - moves_on Hi Hrun Hctl Hfs H Hk0; [by left|].
    destruct fs as [|[] ?]; done.
  - m_bind H as v s1 H1. pose proof (async_kept _ _ _ _ f _ _ H1 Hh Hbrk) as Hk.
    moves_on Hi Hrun Hctl Hfs H Hk.
  - m_bind H as v s1 H1. pose proof (async_nb_kept _ _ _ f _ _ H1 Hh Hbrk) as Hk.
    moves_on Hi Hrun Hctl Hfs H Hk.
  - m_bind H as v s1 H1. pose proof (async_future_kept _ _ _ _ f _ _ H1 Hh Hbrk) as Hk.
    moves_on Hi Hrun Hctl Hfs H Hk.
  - m_bind H as v s1 H1. pose proof (start_finish_kept _ f _ _ H1 Hh Hbrk) as Hk.
    moves_on Hi Hrun Hctl Hfs H Hk.
  - unfold hclib_end_finish, current_ws in H. m_bind H as ws s1 Hws. m_bind Hws. m_action Hws.
    m_bind H. m_bind H as b s1 Hb1. m_bind H as g s1 Hg. m_bind H as b2 s1 Hb2.
    moves_on Hi Hrun Hctl Hfs H Hk0.
  - m_bind H as v s1 H1. pose proof (end_finish_nonblocking_kept _ f _ _ H1 Hh Hbrk) as Hk.
    moves_on Hi Hrun Hctl Hfs H Hk.
  - m_bind H as v s1 H1. pose proof (promise_create_kept _ f _ _ H1 Hh Hbrk) as (Hk & _).
    moves_on Hi Hrun Hctl Hfs H Hk.
  - m_bind H as v s1 H1. pose proof (put_kept _ _ _ f _ _ H1 Hh) as Hk.
    moves_on Hi Hrun Hctl Hfs H Hk.
  - m_bind H as v s1 H1. unfold hclib_future_is_satisfied in H1. m_bind H1 as pr s2 Hp. m_action H1.
    moves_on Hi Hrun Hctl Hfs H Hk0.
  - m_bind H as v s1 H1. unfold hclib_future_get in H1. m_bind H1 as pr s2 Hp.
    m_bind H1 as b s2 Hb1. m_action H1. moves_on Hi Hrun Hctl Hfs H Hk0.
  - unfold hclib_future_wait, current_ws in H. m_bind H as pr s1 Hp. destruct (negb _).
    + moves_on Hi Hrun Hctl Hfs H Hk0.
    + m_bind H as ws s1 Hws. m_bind Hws. m_action Hws. m_bind H.
      moves_on Hi Hrun Hctl Hfs H Hk0.
  - unfold hclib_yield, current_ws in H. m_bind H as ws s1 Hws. m_bind Hws. m_action Hws.
    moves_on Hi Hrun Hctl Hfs H Hk0.
  - m_bind H as v s1 H1. injection H1 as _ <-.
    pose proof (kept_calls s f (calls s ++ [(fptr, args)]) Hh) as Hk. moves_on Hi Hrun Hctl Hfs H Hk.
  - done.
  - m_bind H as v s1 H1. pose proof (await_helper_kept _ _ _ _ _ f _ _ H1 Hh Hbrk) as Hk.
    moves_on Hi Hrun Hctl Hfs H Hk.
  - m_bind H as v s1 H1. pose proof (await_future_kept _ _ _ _ _ f _ _ H1 Hh Hbrk) as Hk.
    moves_on Hi Hrun Hctl Hfs H Hk.
  - m_bind H as v s1 H1. unfold hclib_get_current_worker in H1. m_bind H1. m_bind H1 as ws s2 Hws.
    m_action H1. moves_on Hi Hrun Hctl Hfs H Hk0.
  - m_bind H as v s1 H1. apply cell_new_Ok in H1 as (-> & ->).
    pose proof (kept_cells s f (brk s + 1) (<[brk s := None]> (cells s)) ltac:(lia) Hh) as Hk.
    moves_on Hi Hrun Hctl Hfs H Hk.
  - m_bind H as v s1 H1. apply cell_get_Ok in H1 as (_ & ->). moves_on Hi Hrun Hctl Hfs H Hk0.
  - m_bind H as u1 s1 H1. apply cell_set_Ok in H1 as (_ & ->).
    pose proof (kept_cells s f (brk s) (<[cell := Some v]> (cells s)) ltac:(lia) Hh) as Hk.
    moves_on Hi Hrun Hctl Hfs H Hk.
  - m_bind H as u1 s1 H1. apply cell_free_Ok in H1 as (_ & ->).
    pose proof (kept_cells s f (brk s) (delete cell (cells s)) ltac:(lia) Hh) as Hk.
    moves_on Hi Hrun Hctl Hfs H Hk.
Qed.

Lemma return_to_acted v fs s f c0 x0 u s' :
  return_to v fs s = Ok (u, s') → inv s f → running s c0 x0 →
  shape (Ret v) fs → ctl x0 = Ret v → frames x0 = fs → acted s f s'.
Proof.
  intros H Hi Hrun Hs Hctl Hfs.
  pose proof (inv_heap _ _ Hi) as Hh. pose proof (kept_refl s f Hh) as Hk0.
  destruct fs as [|[] fs]; cbn [return_to] in H; cbn [shape below_user below_task below_find top_wait] in Hs.
  - destruct Hs as [?|[[? _]|[? _]]]; done.
  - destruct Hs as [Hs|[[? _]|[? _]]]; [|done..].
    eapply exit_acted; [exact H|exact Hi|exact Hrun|exact Hfs|by rewrite Hctl| |exact Hs].
    by rewrite Hctl, Hfs.
  - destruct Hs as [Hs|[[? _]|[? _]]]; [|done..].
    m_bind H as w s1 H1. pose proof (put_kept _ _ _ f _ _ H1 Hh) as Hk.
    moves_on Hi Hrun Hctl Hfs H Hk; [by left|].
    cbn. by destruct (top_wait fs).
  - destruct Hs as [?|[[Hs ->]|[? _]]]; [done| |done].
    moves_on Hi Hrun Hctl Hfs H Hk0; [by right; right|].
    cbn. by destruct (top_wait fs).
  - destruct Hs as [?|[[Hs ->]|[? _]]]; [done| |done]. destruct fs; [|done].
    moves_on Hi Hrun Hctl Hfs H Hk0.
  - destruct Hs as [?|[[? _]|[Hs _]]]; [done..|]. destruct fs; [|done].
    unfold core_work_loop_end in H. m_bind H as b s1 Hb. m_bind H as flag s1 Hf.
    destruct (negb _); moves_on Hi Hrun Hctl Hfs H Hk0.
  - destruct Hs as [?|[[? _]|[Hs Hv]]]; [done..|]. rewrite (Hv eq_refl) in *.
    moves_on Hi Hrun Hctl Hfs H Hk0.
  - destruct Hs as [?|[[? _]|[Hs _]]]; [done..|]. destruct (Z.eqb_spec v NULL) as [->|Hn].
    + moves_on Hi Hrun Hctl Hfs H Hk0.
    + eapply wait_swap_acted; [exact H|exact Hi|exact Hrun| |exact Hs|by rewrite Hctl, Hfs].
      rewrite Hctl, Hfs. cbn. by rewrite (proj2 (Z.eqb_neq _ _)).
  - destruct Hs as [?|[[Hs ->]|[? _]]]; [done| |done].
    moves_on Hi Hrun Hctl Hfs H Hk0.
  - destruct Hs as [Hs|[[? _]|[? _]]]; [|done..]. destruct fs; [|done].
    unfold _hclib_finalize_ctx in H. m_bind H as w s1 H1. unfold hclib_signal_join in H1. m_action H1.
    pose proof (kept_flags s f ((λ _, 0) <$> done_flags s) Hh) as Hk.
    moves_on Hi Hrun Hctl Hfs H Hk.
Qed.

(** What worker [w] does next. *)
Definition current_ctl (w : Z) (s : rt S) : option control :=
  ws ← workers s !! w; ctl <$> ctxs s !! curr_ctx ws.

(** The task that worker [w] starts with its next action. *)
Definition starts (w : Z) (s : rt S) : option Z :=
  match current_ctl w s with Some (Exec t) => Some t | _ => None end.

Lemma step_acted w s f u s' :
  step w s = Ok (u, s') → inv s f →
  ∃ f', inv s' f' ∧ later s f s' f' ∧ ∀ t, starts w s = Some t → unstarted (f' t) = false.
Proof.
  intros H Hi0. unfold step, current_ws in H. m_bind H. m_bind H as ws s1 Hws.
  m_bind Hws. m_action Hws. m_bind H as x s1 Hx. cbn in Hx, Hws.
  destruct (inv_self s f w Hi0) as [Hi Hl0]. set (s1 := set_self w s) in *.
  assert (running s1 (curr_ctx ws) x) as Hrun by (by exists ws).
  pose proof (stacks_ctx _ _ (inv_stacks _ _ Hi) _ _ Hx) as [Hs _ _ _].
  pose proof (kept_refl s1 f (inv_heap _ _ Hi)) as Hk0.
  assert (starts w s = match ctl x with Exec t => Some t | _ => None end) as ->.
  { unfold starts, current_ctl. rewrite Hws. cbn. by rewrite Hx. }
  assert ((∃ t, ctl x = Exec t) ∨ ¬ ∃ t, ctl x = Exec t) as [[t Hc]|Hne].
  { destruct (ctl x); try (right; by intros [? [=]]). left. by eexists. }
  { rewrite Hc in H, Hs |- *. cbn [run_stack] in H.
    eapply execute_acted in H as (f' & Hi' & Hl & Hst); [|done..|exact Hc|done].
    exists f'. split; [done|]. split; [by eapply later_trans|]. intros t' [= <-]. done. }
  assert (acted s1 f s') as (f' & Hi' & Hl).
  2: { exists f'. split; [done|]. split; [by eapply later_trans|]. intros t.
       destruct (ctl x) eqn:E; try done. intros [= <-]. destruct Hne. by eexists. }
  pose proof (eq_refl (frames x)) as Hfs.
  destruct (ctl x) eqn:Hc; cbn [run_stack] in H; cbn [shape] in Hs.
  - by eapply run_code_acted.
  - by eapply return_to_acted.
  - destruct Hne. by eexists.
  - destruct Hs as [Hs Hfr]. eapply find_acted; [exact H|done..| |]; by rewrite Hc.
  - unfold core_work_loop in H. m_bind H. rewrite Hs in H.
    moves_on Hi Hrun Hc Hs H Hk0.
  - unfold help_finish in H. m_bind H as g s2 Hg. destruct (_ >? 1).
    + moves_on Hi Hrun Hc Hfs H Hk0.
    + m_bind H as b s2 Hb. m_bind H as v s2 H1.
      pose proof (end_finish_exit_kept _ _ _ f _ _ H1 (inv_heap _ _ Hi)) as Hk.
      moves_on Hi Hrun Hc Hfs H Hk.
  - done.
  - unfold future_wait_loop in H. m_bind H as p s2 Hp. destruct (_ =? _).
    + moves_on Hi Hrun Hc Hfs H Hk0.
    + eapply future_wait_exit_acted; [exact H|done|by apply running_current|done|by rewrite Hc..].
  - m_bind H as v s2 H1. eapply destroy_prev_current in H1 as (f1 & Hi1 & Hl1 & Hc1); [|done..].
    eapply acted_later; [exact Hl1|].
    eapply future_wait_exit_acted; [exact H|done|done|done|by rewrite Hc..].
  - eapply yield_loop_acted; [exact H|done|done|by rewrite Hc|done|by rewrite Hc].
  - m_bind H as v s2 H1. eapply destroy_prev_current in H1 as (f1 & Hi1 & Hl1 & Hc1); [|done..].
    eapply acted_later; [exact Hl1|].
    eapply yield_exit_acted; [exact H|done|done|done|by rewrite Hc..].
  - done.
  - by eapply help_wait_acted.
  - by eapply yield_helper_acted.
  - m_action H. done.
  - done.
Qed.
End step.
