(* ===== verification/RuntimeMoves.v ===== *)
(** * Lemmas: what one action of a worker changes

    [RuntimeStep] says that every action keeps the invariant.  This file says
    what an action does: the runtime's own calls leave the stacks, the queue of
    external calls and the functions of the tasks alone ([calm]); the stack of the
    running context goes on in one of the ways of [goes]; and the contexts change
    in one of the five ways of [turned]. *)

From S2P Require Import Prelude Deque Pool Runtime RuntimeHeap RuntimeStack RuntimeStep.
From stdpp Require Import options.

(** ** What user code does next *)

(** [c'] is what is left of [c] after its first call. *)
Inductive next : code → code → Prop :=
  | next_async fp futures l k : next (Async fp futures l k) k
  | next_async_nb fp l k : next (Async_nb fp l k) k
  | next_async_future fp futures l k v : next (Async_future fp futures l k) (k v)
  | next_start k : next (Start_finish k) k
  | next_end k : next (End_finish k) k
  | next_end_nonblocking k v : next (End_finish_nonblocking k) (k v)
  | next_create k v : next (Promise_create k) (k v)
  | next_put p d k : next (Promise_put p d k) k
  | next_is_satisfied p k v : next (Future_is_satisfied p k) (k v)
  | next_get p k v : next (Future_get p k) (k v)
  | next_wait p k v : next (Future_wait p k) (k v)
  | next_yield l k : next (Yield l k) k
  | next_call f args k v : next (Call f args k) (k v)
  | next_cpp_async fp futures l nb k : next (Cpp_async fp futures l nb k) k
  | next_cpp_async_future fp futures l nb k v : next (Cpp_async_future fp futures l nb k) (k v)
  | next_worker k v : next (Current_worker k) (k v)
  | next_cell_new k v : next (Cell_new k) (k v)
  | next_cell_get a k v : next (Cell_get a k) (k v)
  | next_cell_set a v k : next (Cell_set a v k) k
  | next_cell_free a k : next (Cell_free a k) k.

(** The calls that never go on at once. *)
Definition suspends (c : code) : bool :=
  match c with End_finish _ | Yield _ _ => true | _ => false end.

(** A context on which a task has been handed over, and one whose stack has just
    been resumed. *)
Definition helper (c : control) : Prop :=
  match c with Help_wait _ _ | Yield_helper _ _ | Help_finish_ctx _ _ => True | _ => False end.

Definition resumed (c : control) : Prop :=
  match c with Wait_resumed _ _ _ _ | Yield_resumed _ _ _ | Help_resumed _ _ _ _ => True | _ => False end.

Section moves.
Context {S : Type} `{!TaskPool S} {EX : Externs}.
#[local] Set Default Proof Using "Type*".

(** ** Calls that leave the stacks alone *)

Definition tasks_below (s : rt S) : Prop := ∀ t, is_Some (tasks s !! t) → t < brk s.

(** The functions of the tasks stay; [P] says which new tasks there may be. *)
Record functions_kept (P : Z → fn → Prop) (s s' : rt S) : Prop := {
  functions_below : tasks_below s';
  functions_stay : ∀ t tk, tasks s !! t = Some tk → ∃ tk', tasks s' !! t = Some tk' ∧ t_fp tk' = t_fp tk;
  functions_new : ∀ t tk', tasks s' !! t = Some tk' →
    (∃ tk, tasks s !! t = Some tk ∧ t_fp tk' = t_fp tk) ∨ (brk s <= t ∧ P t (t_fp tk'))
}.

(** [W] says whether the worker may change its scope. *)
Record calm (P : Z → fn → Prop) (W : bool) (s s' : rt S) : Prop := {
  calm_ctxs : ctxs s' = ctxs s;
  calm_self : self s' = self s;
  calm_calls : calls s' = calls s;
  calm_brk : brk s <= brk s';
  calm_workers : W = false → workers s' = workers s;
  calm_curr : curr_ctx <$> workers s' = curr_ctx <$> workers s;
  calm_others : ∀ w, w ≠ self s → workers s' !! w = workers s !! w;
  calm_tasks : tasks_below s → functions_kept P s s'
}.

Lemma functions_refl P s : tasks_below s → functions_kept P s s.
Proof. intros Hb. split; [done| |]; intros t tk H; [by exists tk|left; by exists tk]. Qed.

Lemma calm_refl P W s : calm P W s s.
Proof. split; try done. apply functions_refl. Qed.

Lemma functions_trans P s1 s2 s3 :
  brk s1 <= brk s2 → functions_kept P s1 s2 → functions_kept P s2 s3 → functions_kept P s1 s3.
Proof.
  intros Hb [_ F1 N1] [B2 F2 N2]. split; [done| |].
  - intros t tk H. destruct (F1 t tk H) as (tk1 & H1 & E1). destruct (F2 t tk1 H1) as (tk2 & H2 & E2).
    exists tk2. split; [done|congruence].
  - intros t tk' H. destruct (N2 t tk' H) as [(tk1 & H1 & E1)|[Hn HP]]; [|right; split; [lia|done]].
    destruct (N1 t tk1 H1) as [(tk & H0 & E0)|[Hn HP]].
    + left. exists tk. split; [done|congruence].
    + right. split; [done|by rewrite E1].
Qed.

Lemma calm_trans P W s1 s2 s3 : calm P W s1 s2 → calm P W s2 s3 → calm P W s1 s3.
Proof.
  intros [] []. split; try congruence; try lia.
  - intros HW. by rewrite calm_workers1, calm_workers0.
  - intros w Hw. rewrite calm_others1 by congruence. by apply calm_others0.
  - intros Hb. pose proof (calm_tasks0 Hb) as H1.
    eapply functions_trans; [exact calm_brk0|exact H1|]. apply calm_tasks1, H1.
Qed.

Lemma calm_weaken P W s s' : calm P false s s' → calm P W s s'.
Proof. intros []. split; auto. Qed.

(** A call that is calm from every state. *)
Definition calm_op {A} (P : Z → fn → Prop) (W : bool) (m : M S A) : Prop :=
  ∀ s a s', m s = Ok (a, s') → calm P W s s'.

Lemma calm_ret {A} P W (a : A) : calm_op P W (mret a).
Proof. intros s b s' H. m_action H. apply calm_refl. Qed.

Lemma calm_bind {A B} P W (m : M S A) (k : A → M S B) :
  calm_op P W m → (∀ a, calm_op P W (k a)) → calm_op P W (m ≫= k).
Proof. intros Hm Hk s b s' H. m_bind H as a s1 H1. eapply calm_trans; [by eapply Hm|by eapply Hk]. Qed.

(** An operation that does not change the state at all. *)
Lemma calm_reads {A} P W (m : M S A) : (∀ s a s', m s = Ok (a, s') → s' = s) → calm_op P W m.
Proof. intros H s a s' E. apply H in E as ->. apply calm_refl. Qed.

Lemma calm_get {A} P W (m : rt S → gmap Z A) a : calm_op P W (get m a).
Proof. apply calm_reads. intros s v s' H. by m_action H. Qed.

Lemma calm_gets {A} P W (f : rt S → A) : calm_op P W (gets f).
Proof. apply calm_reads. intros s v s' H. by m_action H. Qed.

Lemma calm_assert P W b : calm_op P W (assert b).
Proof. apply calm_reads. intros s v s' H. by m_action H. Qed.

Lemma calm_lift {A} P W (r : res A) : calm_op P W (lift r).
Proof. apply calm_reads. intros s v s' H. by m_action H. Qed.

Lemma calm_fail {A} P W f : calm_op P W (fail (A:=A) f).
Proof. by intros s v s'. Qed.

Lemma calm_malloc P W : calm_op P W malloc.
Proof.
  intros s v s' H. m_action H. split; try done; [cbn; lia|]. intros Hb.
  split; [intros t Ht; apply Hb in Ht; cbn; lia| |]; cbn; intros t tk H; [by exists tk|left; by exists tk].
Qed.

(** An operation on a part of the state that the others do not look at. *)
Lemma calm_modify P W (f : rt S → rt S) :
  (∀ s, ctxs (f s) = ctxs s ∧ self (f s) = self s ∧ calls (f s) = calls s ∧ brk (f s) = brk s ∧
     workers (f s) = workers s ∧ tasks (f s) = tasks s) → calm_op P W (modify f).
Proof.
  intros Hf s u s' H. m_action H. destruct (Hf s) as (E1 & E2 & E3 & E4 & E5 & E6).
  split; try done; try lia; try congruence. intros Hb. split; unfold tasks_below; rewrite ?E4, E6.
  - exact Hb.
  - intros t tk H. by exists tk.
  - intros t tk H. left. by exists tk.
Qed.

Lemma calm_with_pool {A} P W (op : S → res (A * S)) : calm_op P W (with_pool op).
Proof.
  intros s a s' H. apply with_pool_Ok in H as (p & _ & ->). by apply (calm_modify P W (set_pool p) (λ _, ltac:(done)) s tt).
Qed.

Lemma calm_when P W b m : calm_op P W m → calm_op P W (when b m).
Proof. intros H. destruct b; [exact H|apply calm_ret]. Qed.

(** Writing to a task that is there, without changing its function. *)
Lemma calm_update {A} P W t (f : hclib_task_t → hclib_task_t) (m : M S A) :
  (∀ tk, t_fp (f tk) = t_fp tk) → calm_op P W m →
  calm_op P W (tk ← get_task t; _ ← put_task t (f tk); m).
Proof.
  intros Hf Hm s a s' H. m_bind H as tk s1 Ht. m_bind H. eapply calm_trans; [|by eapply Hm].
  split; try done. intros Hb. split.
  - intros t'. cbn. rewrite lookup_insert_is_Some. intros [<-|[_ H']]; apply Hb; [by rewrite Ht|done].
  - intros t' tk' H'. cbn. destruct (decide (t' = t)) as [->|].
    + rewrite lookup_insert_eq. assert (tk' = tk) as -> by congruence. eexists. split; [done|apply Hf].
    + rewrite lookup_insert_ne by done. by exists tk'.
  - intros t' tk'. cbn. destruct (decide (t' = t)) as [->|].
    + rewrite lookup_insert_eq. intros [= <-]. left. exists tk. split; [done|apply Hf].
    + rewrite lookup_insert_ne by done. intros H'. left. by exists tk'.
Qed.

Lemma calm_update_last P W t (f : hclib_task_t → hclib_task_t) :
  (∀ tk, t_fp (f tk) = t_fp tk) → calm_op P W (tk ← get_task t; put_task t (f tk)).
Proof.
  intros Hf s a s' H. eapply (calm_update P W t f (mret tt)); [done|apply calm_ret|].
  instantiate (1 := tt). m_bind H as tk s1 Ht. m_action H. unfold get_task, get, mbind, M_bind. rewrite Ht. done.
Qed.
End moves.

Create HintDb calm.
#[export] Hint Resolve calm_ret calm_get calm_gets calm_assert calm_lift calm_fail calm_malloc
  calm_with_pool calm_when : calm.

(** Split a call into its operations. *)
Ltac calm_steps :=
  repeat lazymatch goal with
  | |- calm_op _ _ (get_task _ ≫= (λ tk, put_task _ _ ≫= _)) =>
      eapply calm_update; [intros ?; cbn; repeat case_match; reflexivity|]
  | |- calm_op _ _ (get_task _ ≫= (λ tk, put_task _ _)) =>
      eapply calm_update_last; intros ?; cbn; repeat case_match; reflexivity
  | |- calm_op _ _ (_ ≫= _) => apply calm_bind; [|intros ?]
  | |- calm_op _ _ (if ?b then _ else _) => destruct b
  | |- calm_op _ _ (match ?x with _ => _ end) => destruct x
  | |- calm_op _ _ (when _ _) => apply calm_when
  | |- calm_op _ _ (modify _) => apply calm_modify; by intros ?
  | |- calm_op _ _ (get_ws _) => apply calm_get
  | |- calm_op _ _ (get_task _) => apply calm_get
  | |- calm_op _ _ (get_promise _) => apply calm_get
  | |- calm_op _ _ (get_finish _) => apply calm_get
  | |- calm_op _ _ (put_promise _ _) => apply calm_modify; by intros ?
  | |- calm_op _ _ (put_finish _ _) => apply calm_modify; by intros ?
  | |- calm_op _ _ _ => progress eauto 2 with calm
  end.

Section calls.
Context {S : Type} `{!TaskPool S} {EX : Externs}.
#[local] Set Default Proof Using "Type*".
Implicit Types (P : Z → fn → Prop) (W : bool).

(** ** The runtime's calls are calm *)

Lemma calm_current_ws P W : calm_op P W (current_ws (S:=S)).
Proof. unfold current_ws. calm_steps. Qed.

Lemma calm_register_if P W t p : calm_op P W (_register_if_promise_not_ready (S:=S) t p).
Proof. unfold _register_if_promise_not_ready. calm_steps. Qed.

Lemma calm_set_index P W t i : calm_op P W (set_waiting_on_index (S:=S) t i).
Proof. unfold set_waiting_on_index. calm_steps. Qed.

#[local] Hint Resolve calm_current_ws calm_register_if calm_set_index : calm.

Lemma calm_register_inline P W fuel t : calm_op P W (register_inline (S:=S) fuel t).
Proof. induction fuel; cbn [register_inline]; calm_steps. Qed.

Lemma calm_register_extra P W fuel t extra : calm_op P W (register_extra (S:=S) fuel t extra).
Proof. induction fuel; cbn [register_extra]; calm_steps. Qed.

#[local] Hint Resolve calm_register_inline calm_register_extra : calm.

Lemma calm_register P W t : calm_op P W (register_on_all_promise_dependencies (S:=S) t).
Proof. unfold register_on_all_promise_dependencies. calm_steps. Qed.

Lemma calm_rt_schedule P W t ws : calm_op P W (rt_schedule_async t ws).
Proof. unfold rt_schedule_async. calm_steps. Qed.

#[local] Hint Resolve calm_register calm_rt_schedule : calm.

Lemma calm_try_schedule P W t ws : calm_op P W (try_schedule_async t ws).
Proof. unfold try_schedule_async, is_eligible_to_schedule. calm_steps. Qed.

#[local] Hint Resolve calm_try_schedule : calm.

Lemma calm_wake_loop P W fuel t ws : calm_op P W (wake_loop fuel t ws).
Proof. revert t. induction fuel; intros t; cbn [wake_loop]; calm_steps. Qed.

#[local] Hint Resolve calm_wake_loop : calm.

Lemma calm_put P W p d : calm_op P W (hclib_promise_put p d).
Proof. unfold hclib_promise_put. calm_steps. Qed.

#[local] Hint Resolve calm_put : calm.

Lemma calm_check_in P W g : calm_op P W (check_in_finish (S:=S) g).
Proof. unfold check_in_finish. calm_steps. Qed.

Lemma calm_check_out P W g : calm_op P W (check_out_finish g).
Proof. unfold check_out_finish. calm_steps. Qed.

#[local] Hint Resolve calm_check_in calm_check_out : calm.

Lemma calm_promise_create P W : calm_op P W (hclib_promise_create (S:=S)).
Proof. unfold hclib_promise_create, hclib_promise_init. calm_steps. Qed.

Lemma calm_reschedule P W ts ws : calm_op P W (reschedule ts ws).
Proof. induction ts; cbn [reschedule]; calm_steps. Qed.

(** *** New tasks *)

Lemma calm_new_task P W (s : rt S) fp :
  P (brk s) fp → calm P W s (set_tasks (<[brk s := fresh_task fp false]> (tasks s)) (set_brk (brk s + 1) s)).
Proof.
  intros HP. split; try done; [cbn; lia|]. intros Hb. split; cbn.
  - intros t. cbn. rewrite lookup_insert_is_Some. intros [<-|[_ H]]; [lia|]. apply Hb in H. lia.
  - intros t tk Ht. exists tk. rewrite lookup_insert_ne; [done|]. intros <-.
    pose proof (Hb (brk s) ltac:(by rewrite Ht)). lia.
  - intros t tk'. destruct (decide (t = brk s)) as [->|].
    + rewrite lookup_insert_eq. intros [= <-]. by right.
    + rewrite lookup_insert_ne by done. intros H. left. by exists tk'.
Qed.

Lemma calm_spawn_handler P W t locale futures escaping : calm_op P W (spawn_handler t locale futures escaping).
Proof. unfold spawn_handler. calm_steps. Qed.

#[local] Hint Resolve calm_promise_create calm_reschedule calm_spawn_handler : calm.

(** A new task and then calm operations on it. *)
Lemma calm_with_new_task {A} P W fp (k : Z → M S A) (s : rt S) a s' :
  (t ← new_task fp; k t) s = Ok (a, s') → P (brk s) fp → (∀ t, calm_op P W (k t)) → calm P W s s'.
Proof.
  intros H HP Hk. m_bind H as t s1 Ht. apply new_task_Ok in Ht as [-> ->].
  eapply calm_trans; [by apply calm_new_task|by eapply Hk].
Qed.

(** No task that resumes a context. *)
Definition no_resume (t : Z) (fp : fn) : Prop := ∀ c, fp ≠ Finish_ctx_resume c.

Lemma calm_async W fp futures l :
  no_resume 0 fp → calm_op no_resume W (hclib_async fp futures l).
Proof.
  intros Hn s u s' H. unfold hclib_async in H.
  eapply (calm_with_new_task no_resume W fp); [exact H|exact Hn|]. intros t.
  unfold spawn_await_at, spawn_at. calm_steps.
Qed.

Lemma calm_await_helper W fp futures l nb :
  no_resume 0 fp → calm_op no_resume W (async_await_at_helper fp futures l nb).
Proof.
  intros Hn s u s' H. unfold async_await_at_helper in H.
  eapply (calm_with_new_task no_resume W fp); [exact H|exact Hn|]. intros t.
  unfold spawn_await_at. calm_steps.
Qed.

Lemma calm_async_nb W fp l : no_resume 0 fp → calm_op no_resume W (hclib_async_nb fp l).
Proof. exact (calm_await_helper W fp [] l true). Qed.

Lemma calm_async_future W fp futures l : calm_op no_resume W (hclib_async_future fp futures l).
Proof. unfold hclib_async_future, hclib_promise_init. calm_steps. by apply calm_async. Qed.

Lemma calm_await_future W fp futures l nb :
  calm_op no_resume W (async_future_await_at_helper fp futures l nb).
Proof. unfold async_future_await_at_helper, hclib_promise_init. calm_steps. by apply calm_await_helper. Qed.

(** *** Scopes *)

Lemma calm_set_scope P g t : calm_op P true (set_scope (S:=S) g t).
Proof.
  intros s u s' (ws & Hws & ->)%set_scope_Ok. split; try done; cbn.
  - rewrite fmap_insert. apply insert_id. by rewrite lookup_fmap, Hws.
  - intros w Hw. by rewrite lookup_insert_ne.
  - intros Hb. destruct (functions_refl P s Hb). by split.
Qed.

#[local] Hint Resolve calm_set_scope : calm.

Lemma calm_start_finish P : calm_op P true (hclib_start_finish (S:=S)).
Proof. unfold hclib_start_finish. calm_steps. Qed.

Lemma calm_end_finish_exit P g t : calm_op P true (end_finish_exit g t).
Proof. unfold end_finish_exit, free_finish. calm_steps. Qed.

Lemma calm_end_nonblocking P : calm_op P true hclib_end_finish_nonblocking.
Proof. unfold hclib_end_finish_nonblocking, hclib_end_finish_nonblocking_helper. calm_steps. Qed.

Lemma calm_cell_new P W : calm_op P W (cell_new (S:=S)).
Proof. unfold cell_new. calm_steps. Qed.

Lemma calm_cell_set P W a v : calm_op P W (cell_set (S:=S) a v).
Proof. unfold cell_set. calm_steps. Qed.

Lemma calm_cell_free P W a : calm_op P W (cell_free (S:=S) a).
Proof. unfold cell_free. calm_steps. Qed.

(** ** The ways of a stack *)

(** A call goes on with the value that it returns. *)
Definition call_value (s : rt S) (c c' : code) : Prop :=
  match c with Call f args k => c' = k (extern (calls s) f args) | _ => True end.

(** How the stack of the context that worker [w] runs goes on. *)
Inductive goes (w : Z) (s : rt S) : control → list frame → control → list frame → Prop :=
  | goes_next c c' fs : next c c' → suspends c = false → call_value s c c' → goes w s (Run c) fs (Run c') fs
  | goes_return v fs : goes w s (Run (Return v)) fs (Ret v) fs
  | goes_end_finish k ws t fs : workers s !! w = Some ws →
      goes w s (Run (End_finish k)) fs (Help_loop w (current_finish ws) t k) fs
  | goes_wait p k g t fs : goes w s (Run (Future_wait p k)) fs (Wait_loop w p g t k) fs
  | goes_yield l k g t fs : goes w s (Run (Yield l k)) fs (Yield_loop g t l k) fs
  | goes_execute t tk c fs : tasks s !! t = Some tk → t_fp tk = User c →
      goes w s (Exec t) fs (Run c) (F_execute t (t_finish tk) :: fs)
  | goes_execute_future t tk e c fs : tasks s !! t = Some tk → t_fp tk = Future_caller e c →
      goes w s (Exec t) fs (Run c) (F_future_caller e :: F_execute t (t_finish tk) :: fs)
  | goes_leave t tk c fs : tasks s !! t = Some tk → t_fp tk = Finish_ctx_resume c →
      goes w s (Exec t) fs Abandoned (F_execute t (t_finish tk) :: fs)
  | goes_exit v t g fs : goes w s (Ret v) (F_execute t g :: fs) (Ret NULL) fs
  | goes_future_put v e fs : goes w s (Ret v) (F_future_caller e :: fs) (Ret NULL) fs
  | goes_found v fs : goes w s (Ret v) (F_find :: fs) (Ret NULL) fs
  | goes_core_start v fs : goes w s (Ret v) (F_core_start :: fs) Core_loop fs
  | goes_core_again v wid fs : goes w s (Ret v) (F_core wid :: fs) Core_loop fs
  | goes_core_end v wid fs : goes w s (Ret v) (F_core wid :: fs) Exited fs
  | goes_help_again v ws g t k fs : goes w s (Ret v) (F_help ws g t k :: fs) (Help_loop ws g t k) fs
  | goes_wait_again v ws p g t k fs :
      goes w s (Ret v) (F_wait ws p g t k :: fs) (Wait_loop ws p g t k) fs
  | goes_wait_swap v ws p g t k fs :
      goes w s (Ret v) (F_wait ws p g t k :: fs) (Wait_resumed p g t k) fs
  | goes_yield_again v g t l k fs : goes w s (Ret v) (F_yield g t l k :: fs) (Yield_loop g t l k) fs
  | goes_finalize v fs : goes w s (Ret v) (F_finalize :: fs) Exited fs
  | goes_search ws fresh flag g b fs :
      goes w s (Find ws fresh flag g b) fs (Find ws fresh flag g true) fs
  | goes_find_run ws fresh flag g b t fs : goes w s (Find ws fresh flag g b) fs (Exec t) (F_find :: fs)
  | goes_find_ret ws fresh flag g b v fs : goes w s (Find ws fresh flag g b) fs (Ret v) fs
  | goes_core fs :
      goes w s Core_loop fs (Find w true (Flag_done w) NULL false) (F_core w :: fs)
  | goes_help_find ws g t k fs :
      goes w s (Help_loop ws g t k) fs (Find ws true (Flag_counter g) g false) (F_help ws g t k :: fs)
  | goes_help_end ws g t k fs : goes w s (Help_loop ws g t k) fs (Run k) fs
  | goes_wait_find ws p g t k fs :
      goes w s (Wait_loop ws p g t k) fs (Find ws false (Flag_satisfied p) NULL false)
        (F_wait ws p g t k :: fs)
  | goes_wait_end ws p g t k v fs : goes w s (Wait_loop ws p g t k) fs (Run (k v)) fs
  | goes_wait_resumed p g t k v fs : goes w s (Wait_resumed p g t k) fs (Run (k v)) fs
  | goes_yield_run g t l k r fs :
      goes w s (Yield_loop g t l k) fs (Exec r) (F_yield g t l k :: fs)
  | goes_yield_swap g t l k fs : goes w s (Yield_loop g t l k) fs (Yield_resumed g t k) fs
  | goes_yield_end g t l k fs : goes w s (Yield_loop g t l k) fs (Run k) fs
  | goes_yield_resumed g t k fs : goes w s (Yield_resumed g t k) fs (Run k) fs
  | goes_help_wait p t : goes w s (Help_wait p t) [] (Exec t) [F_core_start]
  | goes_yield_helper t l : goes w s (Yield_helper t l) [] (Exec t) [F_core_start].

(** How the contexts change when worker [w] acts on its context [c0], which was
    [x0]. *)
Inductive turned (w : Z) (s : rt S) (c0 : Z) (x0 : LiteCtx) (s' : rt S) : Prop :=
  | turned_on c fs :
      goes w s (ctl x0) (frames x0) c fs → ¬ helper (ctl x0) → ¬ helper c → ¬ resumed c →
      ctxs s' = <[c0 := mkCtx c fs (prev x0)]> (ctxs s) →
      curr_ctx <$> workers s' = curr_ctx <$> workers s →
      (functions_kept no_resume s s' ∨
       ∃ v t g r s2, ctl x0 = Ret v ∧ frames x0 = F_execute t g :: r ∧
         functions_kept no_resume s s2 ∧ brk s' = brk s2 ∧ tasks s' = delete t (tasks s2)) →
      turned w s c0 x0 s'
  | turned_new n cn c fs ws :
      goes w s (ctl x0) (frames x0) c fs → ¬ helper (ctl x0) → resumed c → helper cn → brk s <= n < brk s' →
      ctxs s' = <[n := mkCtx cn [] c0]> (<[c0 := mkCtx c fs (prev x0)]> (ctxs s)) →
      workers s' !! w = Some ws → curr_ctx ws = n → functions_kept no_resume s s' →
      turned w s c0 x0 s'
  | turned_helper c fs t :
      goes w s (ctl x0) (frames x0) c fs → helper (ctl x0) → ¬ helper c → ¬ resumed c →
      ctxs s' = <[c0 := mkCtx c fs (prev x0)]> (ctxs s) →
      curr_ctx <$> workers s' = curr_ctx <$> workers s → brk s <= t →
      functions_kept (λ t' fp, t' = t ∧ fp = Finish_ctx_resume (prev x0)) s s' →
      turned w s c0 x0 s'
  | turned_resume t tk c y ws fs :
      ctl x0 = Exec t → tasks s !! t = Some tk → t_fp tk = Finish_ctx_resume c →
      fs = F_execute t (t_finish tk) :: frames x0 →
      <[c0 := mkCtx Abandoned fs (prev x0)]> (ctxs s) !! c = Some y →
      ctxs s' = <[c := mkCtx (ctl y) (frames y) c0]> (<[c0 := mkCtx Abandoned fs (prev x0)]> (ctxs s)) →
      workers s' !! w = Some ws → curr_ctx ws = c → functions_kept no_resume s s' →
      turned w s c0 x0 s'
  | turned_back c fs :
      goes w s (ctl x0) (frames x0) c fs → resumed (ctl x0) → ¬ helper c → ¬ resumed c →
      is_Some (ctxs s !! prev x0) →
      ctxs s' = <[c0 := mkCtx c fs (prev x0)]> (delete (prev x0) (ctxs s)) → prev x0 ≠ c0 →
      curr_ctx <$> workers s' = curr_ctx <$> workers s → functions_kept no_resume s s' →
      turned w s c0 x0 s'.

(** What every action of [w] gives. *)
Record action (w : Z) (s : rt S) (c0 : Z) (x0 : LiteCtx) (s' : rt S) : Prop := {
  action_turned : turned w s c0 x0 s';
  action_brk : brk s <= brk s';
  action_others : ∀ w', w' ≠ w → workers s' !! w' = workers s !! w';
  action_calls : calls s' = match ctl x0 with
    | Run (Call f args _) => calls s ++ [(f, args)] | _ => calls s end
}.

(** ** Lemmas: building an action *)

(** [s1] is [s] with [w] as the running worker, and maybe a call made. *)
Record based (w : Z) (s s1 : rt S) : Prop := {
  based_ctxs : ctxs s1 = ctxs s;
  based_workers : workers s1 = workers s;
  based_tasks : tasks s1 = tasks s;
  based_brk : brk s1 = brk s;
  based_self : self s1 = w
}.

Lemma based_self_refl w s : based w s (set_self w s).
Proof. by split. Qed.

(** The running context, before and after a calm call. *)
Lemma calm_running P W w s s1 s2 ws x0 :
  based w s s1 → calm P W s1 s2 → workers s !! w = Some ws → ctxs s !! curr_ctx ws = Some x0 →
  self s2 = w ∧ ctxs s2 = ctxs s ∧ curr_ctx <$> workers s2 = curr_ctx <$> workers s ∧
  running s2 (curr_ctx ws) x0 ∧ brk s <= brk s2 ∧
  (∀ w', w' ≠ w → workers s2 !! w' = workers s !! w').
Proof.
  intros [E1 E2 E3 E4 E5] [] Hws Hx. rewrite E1, E2, E4, E5 in *.
  split; [done|]. split; [done|]. split; [done|]. split; [|by split].
  assert (curr_ctx <$> workers s2 !! w = Some (curr_ctx ws)) as E.
  { by rewrite <- lookup_fmap, calm_curr0, lookup_fmap, Hws. }
  apply fmap_Some in E as (ws2 & Hws2 & E). exists ws2. rewrite calm_self0. split; [done|].
  split; [done|]. by rewrite calm_ctxs0.
Qed.

Lemma calm_functions P W w s s1 s2 s' :
  based w s s1 → calm P W s1 s2 → tasks_below s → tasks s' = tasks s2 → brk s2 <= brk s' →
  functions_kept P s s'.
Proof.
  intros [E1 E2 E3 E4 E5] [] Hb Et Hb'. destruct calm_tasks0 as [H1 H2 H3].
  { unfold tasks_below. by rewrite E3, E4. }
  rewrite E3, E4 in *. split; unfold tasks_below; rewrite ?Et; try done.
  intros t Ht. apply H1 in Ht. lia.
Qed.

Definition calls_after (s : rt S) (c : control) : list extern_call :=
  match c with Run (Call f args _) => calls s ++ [(f, args)] | _ => calls s end.

(** The stack goes on after a calm call. *)
Lemma action_on w s s1 s2 ws x0 c fs u s' :
  workers s !! w = Some ws → ctxs s !! curr_ctx ws = Some x0 → tasks_below s →
  based w s s1 → calls s1 = calls_after s (ctl x0) → calm no_resume true s1 s2 →
  set_stack c fs s2 = Ok (u, s') →
  goes w s (ctl x0) (frames x0) c fs → ¬ helper (ctl x0) → ¬ helper c → ¬ resumed c →
  action w s (curr_ctx ws) x0 s'.
Proof.
  intros Hws Hx Htb Hb Hcalls Hc H Hg Hh Hh' Hr.
  destruct (calm_running _ _ _ _ _ _ _ _ Hb Hc Hws Hx) as (_ & Ec & Ew & Hrun & Hbrk & Hoth).
  rewrite (set_stack_running _ _ _ _ _ _ _ H Hrun). split; cbn; [|done|done|].
  - eapply turned_on; try done; [cbn; by rewrite Ec|]. left. by eapply calm_functions.
  - by rewrite (calm_calls _ _ _ _ Hc), Hcalls.
Qed.

(** A new context takes over. *)
Lemma action_new w s s1 s2 ws x0 cn c fs u s' :
  workers s !! w = Some ws → ctxs s !! curr_ctx ws = Some x0 → tasks_below s → curr_ctx ws < brk s →
  based w s s1 → calls s1 = calls_after s (ctl x0) → calm no_resume true s1 s2 →
  (newCtx ← LiteCtx_create cn; ctx_swap c fs newCtx) s2 = Ok (u, s') →
  goes w s (ctl x0) (frames x0) c fs → ¬ helper (ctl x0) → resumed c → helper cn →
  action w s (curr_ctx ws) x0 s'.
Proof.
  intros Hws Hx Htb Hcb Hb Hcalls Hc H Hg Hh Hh' Hn.
  destruct (calm_running _ _ _ _ _ _ _ _ Hb Hc Hws Hx) as (Es & Ec & Ew & Hrun & Hbrk & Hoth).
  unfold LiteCtx_create in H. m_bind H as n s3 Hm. m_bind Hm. m_bind Hm. m_action Hm.
  set (n := brk s2) in *. set (s3 := set_ctxs _ _) in *.
  assert (running s3 (curr_ctx ws) x0) as Hrun3.
  { destruct Hrun as (ws0 & Hws0 & Hcc & Hx2). exists ws0. split; [done|]. split; [done|]. cbn.
    rewrite lookup_insert_ne; [done|]. lia. }
  eapply ctx_swap_Ok in H as (y & w0 & Hy & Hw0 & ->); [|exact Hrun3]. cbn in Hy, Hw0.
  rewrite lookup_insert_ne, lookup_insert_eq in Hy by lia. injection Hy as <-. rewrite Es in *.
  split; cbn; [|lia| |].
  - eapply (turned_new _ _ _ _ _ n cn c fs (mkWs (current_finish w0) (curr_task w0) n)); try done; cbn.
    + split; [exact Hbrk|lia].
    + rewrite Ec. apply map_eq. intros i. rewrite !lookup_insert. by repeat case_decide.
    + by rewrite Es, lookup_insert_eq.
    + eapply calm_functions; try done. cbn. lia.
  - intros w' Hw'. rewrite Es, lookup_insert_ne by done. by apply Hoth.
  - by rewrite (calm_calls _ _ _ _ Hc), Hcalls.
Qed.

(** A task ends. *)
Lemma action_exit w s s1 ws x0 t g v fs u s' :
  workers s !! w = Some ws → ctxs s !! curr_ctx ws = Some x0 → tasks_below s →
  based w s s1 → calls s1 = calls s → execute_task_exit t g fs s1 = Ok (u, s') →
  ctl x0 = Ret v → frames x0 = F_execute t g :: fs → action w s (curr_ctx ws) x0 s'.
Proof.
  intros Hws Hx Htb Hb Hcalls H Hctl Hfs. unfold execute_task_exit in H. m_bind H as a s2 Hco.
  assert (calm no_resume true s1 s2) as Hc by (by eapply calm_check_out).
  destruct (calm_running _ _ _ _ _ _ _ _ Hb Hc Hws Hx) as (_ & Ec & Ew & Hrun & Hbrk & Hoth).
  m_bind H as b s3 Hf. unfold free_task in Hf. m_bind Hf as tk s4 Htk. m_action Hf.
  set (s3 := set_tasks _ s2) in *. assert (running s3 (curr_ctx ws) x0) as Hrun3 by exact Hrun.
  rewrite (set_stack_running _ _ _ _ _ _ _ H Hrun3).
  split; cbn; [|done|done|].
  - apply (turned_on _ _ _ _ _ (Ret NULL) fs); rewrite ?Hctl, ?Hfs; try done; try (by intros []);
      [apply goes_exit|cbn; by rewrite Ec|].
    right. exists v, t, g, fs, s2. split; [done|]. split; [done|]. split; [|done].
    by eapply calm_functions.
  - by rewrite (calm_calls _ _ _ _ Hc), Hcalls, Hctl.
Qed.

(** The context that was left for good is destroyed, and the stack goes on. *)
Lemma action_back w s s1 s2 s3 ws x0 c fs u v s' :
  workers s !! w = Some ws → ctxs s !! curr_ctx ws = Some x0 → tasks_below s →
  based w s s1 → calls s1 = calls s → destroy_prev s1 = Ok (v, s2) → calm no_resume true s2 s3 →
  set_stack c fs s3 = Ok (u, s') →
  goes w s (ctl x0) (frames x0) c fs → resumed (ctl x0) → ¬ helper c → ¬ resumed c →
  action w s (curr_ctx ws) x0 s'.
Proof.
  intros Hws Hx Htb Hb Hcalls Hd Hc H Hg Hr Hh' Hr'. unfold destroy_prev, current_ws, LiteCtx_destroy in Hd.
  m_bind Hd as ws1 s4 Hws1. m_bind Hws1. m_action Hws1. m_bind Hd as x s4 Hx1. m_bind Hd as y s4 Hy. m_action Hd.
  destruct Hb as [E1 E2 E3 E4 E5]. rewrite E2, E5 in Hws1. rewrite E1 in Hx1, Hy.
  assert (ws1 = ws) as -> by congruence. assert (x = x0) as -> by congruence.
  set (s2 := set_ctxs _ s1) in *. destruct Hc as [C1 C2 C3 C4 C5 C6 C7 C8].
  apply set_stack_Ok in H as (ws3 & x3 & Hws3 & Hx3 & ->). rewrite C2 in Hws3. cbn in Hws3.
  rewrite E5 in Hws3.
  assert (curr_ctx ws3 = curr_ctx ws) as Ecur.
  { assert ((curr_ctx <$> workers s3) !! w = Some (curr_ctx ws3)) as E by (by rewrite lookup_fmap, Hws3).
    rewrite C6, lookup_fmap in E. cbn in E. rewrite E2, Hws in E. by injection E. }
  rewrite C1, Ecur in Hx3. cbn in Hx3. apply lookup_delete_Some in Hx3 as [Hne Hx3].
  rewrite E1 in Hx3. assert (x3 = x0) as -> by congruence.
  split; cbn; [|by rewrite <- E4| |].
  - eapply turned_back; try done; cbn; [by rewrite C1, Ecur; cbn; rewrite E1|by rewrite C6; cbn; rewrite E2|].
    destruct C8 as [B F N]; [unfold tasks_below; cbn; by rewrite E3, E4|]. cbn in F, N.
    rewrite E3, E4 in *. by split.
  - intros w' Hw'. rewrite C7 by (cbn; congruence). cbn. by rewrite E2.
  - rewrite C3. cbn. rewrite Hcalls. by destruct (ctl x0) as [[]| | | | | | | | | | | | | | |].
Qed.

(** A task that resumes a context. *)
Lemma action_resume w s s1 s2 ws x0 t tk c fs u s' :
  workers s !! w = Some ws → ctxs s !! curr_ctx ws = Some x0 → tasks_below s →
  based w s s1 → calls s1 = calls s → calm no_resume true s1 s2 →
  ctl x0 = Exec t → tasks s !! t = Some tk → t_fp tk = Finish_ctx_resume c →
  fs = F_execute t (t_finish tk) :: frames x0 → ctx_swap Abandoned fs c s2 = Ok (u, s') →
  action w s (curr_ctx ws) x0 s'.
Proof.
  intros Hws Hx Htb Hb Hcalls Hc Hctl Ht Hfp Hfs H.
  destruct (calm_running _ _ _ _ _ _ _ _ Hb Hc Hws Hx) as (Es & Ec & Ew & Hrun & Hbrk & Hoth).
  eapply ctx_swap_Ok in H as (y & w0 & Hy & Hw0 & ->); [|exact Hrun]. rewrite Es, Ec in *.
  split; cbn; [|done| |].
  - apply (turned_resume _ _ _ _ _ t tk c y (mkWs (current_finish w0) (curr_task w0) c) fs); try done; cbn.
    + by rewrite lookup_insert_eq.
    + by eapply calm_functions.
  - intros w' Hw'. rewrite lookup_insert_ne by done. by apply Hoth.
  - by rewrite (calm_calls _ _ _ _ Hc), Hcalls, Hctl.
Qed.

(** A helper makes the task that resumes the context before it. *)
Lemma action_helper w s s1 s2 ws x0 t fs u s' :
  workers s !! w = Some ws → ctxs s !! curr_ctx ws = Some x0 → tasks_below s →
  based w s s1 → calls s1 = calls s →
  calm (λ t' fp, t' = brk s1 ∧ fp = Finish_ctx_resume (prev x0)) true s1 s2 →
  set_stack (Exec t) fs s2 = Ok (u, s') →
  goes w s (ctl x0) (frames x0) (Exec t) fs → helper (ctl x0) → action w s (curr_ctx ws) x0 s'.
Proof.
  intros Hws Hx Htb Hb Hcalls Hc H Hg Hh.
  destruct (calm_running _ _ _ _ _ _ _ _ Hb Hc Hws Hx) as (_ & Ec & Ew & Hrun & Hbrk & Hoth).
  rewrite (set_stack_running _ _ _ _ _ _ _ H Hrun).
  rewrite (based_brk _ _ _ Hb) in Hc.
  split; cbn; [|done|done|].
  - eapply (turned_helper _ _ _ _ _ (Exec t) fs (brk s)); try done; [by intros []..|cbn; by rewrite Ec|].
    by eapply calm_functions.
  - rewrite (calm_calls _ _ _ _ Hc), Hcalls. by destruct (ctl x0) as [[]| | | | | | | | | | | | | | |].
Qed.

(** ** What every action of a worker changes *)

Lemma inv_tasks_below s f : inv s f → tasks_below s.
Proof. intros Hi t Ht. apply (heap_bounds _ _ (inv_heap _ _ Hi)) in Ht. lia. Qed.

Lemma inv_ctx_below s f c x : inv s f → ctxs s !! c = Some x → c < brk s.
Proof. intros Hi Hx. apply (stacks_bounds _ _ (inv_stacks _ _ Hi)). by exists x. Qed.

Lemma no_resume_user c : no_resume 0 (User c).
Proof. by intros d. Qed.

(** The calls that ended, as calm calls. *)
Lemma run_code_action w s f ws x0 c u s' :
  inv s f → workers s !! w = Some ws → ctxs s !! curr_ctx ws = Some x0 → ctl x0 = Run c →
  run_code c (frames x0) (set_self w s) = Ok (u, s') → action w s (curr_ctx ws) x0 s'.
Proof.
  intros Hi Hws Hx Hctl H. pose proof (inv_tasks_below _ _ Hi) as Htb.
  assert (∀ s1 s2 c' fs, based w s s1 → calls s1 = calls_after s (Run c) →
    calm no_resume true s1 s2 → set_stack c' fs s2 = Ok (u, s') →
    goes w s (Run c) (frames x0) c' fs → ¬ helper c' → ¬ resumed c' → action w s (curr_ctx ws) x0 s') as Hon.
  { intros s1 s2 c' fs Hb Hcl Hc E Hg Hh Hr. eapply action_on; try done; rewrite ?Hctl; try done. by intros []. }
  assert (∀ k s2, calls_after s (Run c) = calls s → suspends c = false → call_value s c k → next c k →
    calm no_resume true (set_self w s) s2 →
    set_stack (Run k) (frames x0) s2 = Ok (u, s') → action w s (curr_ctx ws) x0 s') as Hnext.
  { intros k s2 Hcl Hsu Hv Hn Hc E. eapply Hon; [apply based_self_refl|done|exact Hc|exact E|by constructor|by intros []..]. }
  destruct c; cbn [run_code] in H.
  - eapply Hon; [apply based_self_refl|done|apply calm_refl|exact H|constructor|by intros []..].
  - m_bind H as a s2 H1. eapply Hnext; [done|done|done|constructor| |exact H].
    eapply calm_async, H1. apply no_resume_user.
  - m_bind H as a s2 H1. eapply Hnext; [done|done|done|constructor| |exact H].
    eapply calm_async_nb, H1. apply no_resume_user.
  - m_bind H as a s2 H1. eapply Hnext; [done|done|done|constructor| |exact H]. by eapply calm_async_future.
  - m_bind H as a s2 H1. eapply Hnext; [done|done|done|constructor| |exact H]. by eapply calm_start_finish.
  - unfold hclib_end_finish, current_ws in H. m_bind H as ws1 s2 Hws1. m_bind Hws1. m_action Hws1.
    m_bind H. m_bind H as b s2 Hb. m_bind H as g s2 Hg. m_bind H as b2 s2 Hb2.
    eapply Hon; [apply based_self_refl|done|apply calm_refl|exact H|by constructor|by intros []..].
  - m_bind H as a s2 H1. eapply Hnext; [done|done|done|constructor| |exact H]. by eapply calm_end_nonblocking.
  - m_bind H as a s2 H1. eapply Hnext; [done|done|done|constructor| |exact H]. by eapply calm_promise_create.
  - m_bind H as a s2 H1. eapply Hnext; [done|done|done|constructor| |exact H]. by eapply calm_put.
  - m_bind H as a s2 H1. unfold hclib_future_is_satisfied in H1. m_bind H1 as pr s3 Hp. m_action H1.
    eapply Hnext; [done|done|done|constructor|apply calm_refl|exact H].
  - m_bind H as a s2 H1. unfold hclib_future_get in H1. m_bind H1 as pr s3 Hp. m_bind H1 as b s3 Hb. m_action H1.
    eapply Hnext; [done|done|done|constructor|apply calm_refl|exact H].
  - unfold hclib_future_wait, current_ws in H. m_bind H as pr s2 Hp. destruct (negb _).
    + eapply Hnext; [done|done|done|constructor|apply calm_refl|exact H].
    + m_bind H as ws1 s2 Hws1. m_bind Hws1. m_action Hws1. m_bind H.
      eapply Hon; [apply based_self_refl|done|apply calm_refl|exact H|constructor|by intros []..].
  - unfold hclib_yield, current_ws in H. m_bind H as ws1 s2 Hws1. m_bind Hws1. m_action Hws1.
    eapply Hon; [apply based_self_refl|done|apply calm_refl|exact H|constructor|by intros []..].
  - m_bind H as v s2 H1. injection H1 as Ev <-.
    eapply (Hon (set_calls (calls s ++ [(fptr, args)]) (set_self w s)));
      [by split|done|apply calm_refl|exact H|by constructor; [constructor| |cbn; rewrite Ev]|by intros []..].
  - done.
  - m_bind H as a s2 H1. eapply Hnext; [done|done|done|constructor| |exact H].
    eapply calm_await_helper, H1. apply no_resume_user.
  - m_bind H as a s2 H1. eapply Hnext; [done|done|done|constructor| |exact H]. by eapply calm_await_future.
  - m_bind H as v s2 H1. unfold hclib_get_current_worker in H1. m_bind H1. m_bind H1 as ws1 s3 Hws1.
    m_action H1. eapply Hnext; [done|done|done|constructor|apply calm_refl|exact H].
  - m_bind H as a s2 H1. eapply Hnext; [done|done|done|constructor| |exact H]. by eapply calm_cell_new.
  - m_bind H as a s2 H1. apply cell_get_Ok in H1 as [_ ->].
    eapply Hnext; [done|done|done|constructor|apply calm_refl|exact H].
  - m_bind H as a s2 H1. eapply Hnext; [done|done|done|constructor| |exact H]. by eapply calm_cell_set.
  - m_bind H as a s2 H1. eapply Hnext; [done|done|done|constructor| |exact H]. by eapply calm_cell_free.
Qed.

(** A calm call and then the stack: the common case of the other actions. *)
Lemma action_calm w s f ws x0 s2 c' fs u s' :
  inv s f → workers s !! w = Some ws → ctxs s !! curr_ctx ws = Some x0 →
  (∀ c, ctl x0 ≠ Run c) → calm no_resume true (set_self w s) s2 → set_stack c' fs s2 = Ok (u, s') →
  goes w s (ctl x0) (frames x0) c' fs → ¬ helper (ctl x0) → ¬ helper c' → ¬ resumed c' →
  action w s (curr_ctx ws) x0 s'.
Proof.
  intros Hi Hws Hx Hn Hc H Hg Hh Hh' Hr.
  eapply action_on; try done; [by eapply inv_tasks_below|apply based_self_refl|].
  destruct (ctl x0) eqn:E; try done. by destruct (Hn c).
Qed.

Lemma return_to_action w s f ws x0 v u s' :
  inv s f → workers s !! w = Some ws → ctxs s !! curr_ctx ws = Some x0 → ctl x0 = Ret v →
  return_to v (frames x0) (set_self w s) = Ok (u, s') → action w s (curr_ctx ws) x0 s'.
Proof.
  intros Hi Hws Hx Hctl H. pose proof (inv_tasks_below _ _ Hi) as Htb.
  pose proof (stacks_ctx _ _ (inv_stacks _ _ Hi) _ _ Hx) as [Hsh _ _ _].
  assert (∀ s2 c' fs, calm no_resume true (set_self w s) s2 → set_stack c' fs s2 = Ok (u, s') →
    goes w s (Ret v) (frames x0) c' fs → ¬ helper c' → ¬ resumed c' → action w s (curr_ctx ws) x0 s') as Hon.
  { intros s2 c' fs Hc E Hg Hh Hr. eapply action_calm; try done; rewrite ?Hctl; try done. by intros []. }
  pose proof (inv_ctx_below _ _ _ _ Hi Hx) as Hcb.
  destruct (frames x0) as [|fr fs] eqn:Hfs; cbn [return_to] in H; [m_action H; done|].
  rewrite Hctl in Hsh. destruct fr.
  - eapply (action_exit w s (set_self w s)); try done.
  - m_bind H as a s2 H1. eapply Hon; [by eapply calm_put|exact H|constructor|by intros []..].
  - eapply Hon; [apply calm_refl|exact H|constructor|by intros []..].
  - eapply Hon; [apply calm_refl|exact H|constructor|by intros []..].
  - unfold core_work_loop_end in H. m_bind H as b s2 Hb. m_bind H as fl s2 Hfl.
    destruct (negb _); (eapply Hon; [apply calm_refl|exact H|constructor|by intros []..]).
  - cbn in Hsh. destruct Hsh as [?|[[? _]|[_ Hv]]]; [done..|]. rewrite (Hv eq_refl) in H.
    eapply Hon; [apply calm_refl|exact H|constructor|by intros []..].
  - destruct (v =? NULL).
    + eapply Hon; [apply calm_refl|exact H|constructor|by intros []..].
    + unfold future_wait_swap in H.
      refine (action_new w s (set_self w s) _ ws x0 _ _ _ u s' Hws Hx Htb Hcb (based_self_refl w s) _
        (calm_refl _ _ _) H _ _ _ _); rewrite ?Hctl, ?Hfs; first [done|by intros []|constructor].
  - eapply Hon; [apply calm_refl|exact H|constructor|by intros []..].
  - unfold _hclib_finalize_ctx in H. m_bind H as a s2 H1. unfold hclib_signal_join in H1.
    eapply Hon; [|exact H|constructor|by intros []..]. eapply calm_modify, H1. done.
Qed.

Lemma execute_action w s f ws x0 t u s' :
  inv s f → workers s !! w = Some ws → ctxs s !! curr_ctx ws = Some x0 → ctl x0 = Exec t →
  execute_task t (frames x0) (set_self w s) = Ok (u, s') → action w s (curr_ctx ws) x0 s'.
Proof.
  intros Hi Hws Hx Hctl H. pose proof (inv_tasks_below _ _ Hi) as Htb. unfold execute_task in H.
  m_bind H as tk s2 Htk. m_bind H as a s2 H1.
  assert (calm no_resume true (set_self w s) s2) as Hc by (by eapply calm_set_scope). cbn in Htk.
  destruct (t_fp tk) eqn:Efp.
  - eapply action_calm; try done; rewrite ?Hctl; try done; try (by intros []). by eapply goes_execute.
  - eapply action_calm; try done; rewrite ?Hctl; try done; try (by intros []). by eapply goes_execute_future.
  - by eapply (action_resume w s (set_self w s)).
Qed.

Lemma find_action w s f ws x0 ws' fresh flag g stealing u s' :
  inv s f → workers s !! w = Some ws → ctxs s !! curr_ctx ws = Some x0 →
  ctl x0 = Find ws' fresh flag g stealing →
  find_and_run_task ws' fresh flag g stealing (frames x0) (set_self w s) = Ok (u, s') →
  action w s (curr_ctx ws) x0 s'.
Proof.
  intros Hi Hws Hx Hctl H.
  assert (∀ s2 c' fs, calm no_resume true (set_self w s) s2 → set_stack c' fs s2 = Ok (u, s') →
    goes w s (ctl x0) (frames x0) c' fs → ¬ helper c' → ¬ resumed c' → action w s (curr_ctx ws) x0 s') as Hon.
  { intros s2 c' fs Hc E Hg Hh Hr. eapply action_calm; try done; rewrite ?Hctl; try done. by intros []. }
  rewrite Hctl in Hon.
  assert (∀ t s2, calm no_resume true (set_self w s) s2 →
    run_or_return t fresh g (frames x0) s2 = Ok (u, s') → action w s (curr_ctx ws) x0 s') as Hrun.
  { intros t s2 Hc E. unfold run_or_return in E. m_bind E as tk s3 Htk.
    destruct (_ || _ || _); (eapply Hon; [exact Hc|exact E|constructor|by intros []..]). }
  unfold find_and_run_task in H. destruct stealing.
  - m_bind H as v s1 Hv. assert (s1 = set_self w s) as ->.
    { unfold read_flag in Hv. destruct flag; [by m_action Hv|m_bind Hv; by m_action Hv|
        m_bind Hv; by m_action Hv]. }
    destruct (v =? flag_val flag).
    + eapply Hon; [apply calm_refl|exact H|constructor|by intros []..].
    + m_bind H as ts s2 Hts. apply (calm_with_pool no_resume true) in Hts. destruct ts as [|t rest].
      * eapply Hon; [exact Hts|exact H|constructor|by intros []..].
      * m_bind H as a s3 Hre. eapply Hrun; [|exact H]. eapply calm_trans; [exact Hts|].
        by eapply calm_reschedule.
  - m_bind H as t s2 Ht. apply (calm_with_pool no_resume true) in Ht. destruct (t =? NULL).
    + eapply Hon; [exact Ht|exact H|constructor|by intros []..].
    + eapply Hrun; [exact Ht|exact H].
Qed.

Lemma calm_yield_find P W ws : calm_op P W (yield_find ws).
Proof. unfold yield_find. calm_steps. Qed.

Lemma yield_loop_action w s f ws x0 g t l k u s' :
  inv s f → workers s !! w = Some ws → ctxs s !! curr_ctx ws = Some x0 → ctl x0 = Yield_loop g t l k →
  yield_loop g t l k (frames x0) (set_self w s) = Ok (u, s') → action w s (curr_ctx ws) x0 s'.
Proof.
  intros Hi Hws Hx Hctl H.
  assert (∀ s2 c' fs, calm no_resume true (set_self w s) s2 → set_stack c' fs s2 = Ok (u, s') →
    goes w s (ctl x0) (frames x0) c' fs → ¬ helper c' → ¬ resumed c' → action w s (curr_ctx ws) x0 s') as Hon.
  { intros s2 c' fs Hc E Hg Hh Hr. eapply action_calm; try done; rewrite ?Hctl; try done. by intros []. }
  pose proof (inv_tasks_below _ _ Hi) as Htb. pose proof (inv_ctx_below _ _ _ _ Hi Hx) as Hcb.
  rewrite Hctl in Hon. unfold yield_loop in H. m_bind H. m_bind H as r s2 Hf.
  apply (calm_yield_find no_resume true) in Hf. destruct (r =? NULL).
  - unfold yield_exit in H. m_bind H as a s3 Hs. apply (calm_set_scope no_resume) in Hs.
    eapply Hon; [by eapply calm_trans|exact H|constructor|by intros []..].
  - m_bind H as tk s3 Htk. destruct (non_blocking tk).
    + eapply Hon; [exact Hf|exact H|constructor|by intros []..].
    + refine (action_new w s (set_self w s) _ ws x0 _ _ _ u s' Hws Hx Htb Hcb (based_self_refl w s) _
        Hf H _ _ _ _); rewrite ?Hctl; first [done|by intros []|constructor].
Qed.

(** Every action of a worker. *)
Lemma step_action w s f u s' :
  step w s = Ok (u, s') → inv s f →
  ∃ ws x0, workers s !! w = Some ws ∧ ctxs s !! curr_ctx ws = Some x0 ∧ action w s (curr_ctx ws) x0 s'.
Proof.
  intros H Hi. unfold step, current_ws in H. m_bind H. m_bind H as ws s1 Hws.
  m_bind Hws. m_action Hws. m_bind H as x s1 Hx. cbn in Hx, Hws. exists ws, x. split; [done|]. split; [done|].
  pose proof (inv_tasks_below _ _ Hi) as Htb.
  pose proof (stacks_ctx _ _ (inv_stacks _ _ Hi) _ _ Hx) as [Hsh _ _ _].
  assert (∀ s2 c' fs, calm no_resume true (set_self w s) s2 → set_stack c' fs s2 = Ok (u, s') →
    (∀ c, ctl x ≠ Run c) → ¬ helper (ctl x) →
    goes w s (ctl x) (frames x) c' fs → ¬ helper c' → ¬ resumed c' → action w s (curr_ctx ws) x s') as Hon.
  { intros s2 c' fs Hc E Hn Hh Hg Hh' Hr. by eapply action_calm. }
  destruct (ctl x) eqn:Hctl; cbn [run_stack] in H; cbn [shape] in Hsh.
  - by eapply run_code_action.
  - by eapply return_to_action.
  - by eapply execute_action.
  - by eapply find_action.
  - unfold core_work_loop in H. m_bind H.
    eapply Hon; [apply calm_refl|exact H|done|by intros []|constructor|by intros []..].
  - unfold help_finish in H. m_bind H as g s2 Hg. destruct (_ >? 1).
    + eapply Hon; [apply calm_refl|exact H|done|by intros []|constructor|by intros []..].
    + m_bind H as b s2 Hb. m_bind H as v s2 H1. apply (calm_end_finish_exit no_resume) in H1.
      eapply Hon; [exact H1|exact H|done|by intros []|constructor|by intros []..].
  - done.
  - unfold future_wait_loop in H. m_bind H as p s2 Hp. destruct (_ =? _).
    + eapply Hon; [apply calm_refl|exact H|done|by intros []|constructor|by intros []..].
    + unfold future_wait_exit in H. m_bind H as a1 s2 Hs. apply (calm_set_scope no_resume) in Hs.
      m_bind H as pr s3 Hp'. m_bind H as b s3 Hb.
      eapply Hon; [exact Hs|exact H|done|by intros []|constructor|by intros []..].
  - m_bind H as v s2 H1. unfold future_wait_exit in H. m_bind H as a1 s3 Hs.
    apply (calm_set_scope no_resume) in Hs. m_bind H as pr s4 Hp'. m_bind H as b s4 Hb.
    refine (action_back w s (set_self w s) _ _ ws x _ _ _ _ _ Hws Hx Htb (based_self_refl w s) eq_refl
      H1 Hs H _ _ _ _); rewrite ?Hctl; first [done|by intros []|constructor].
  - by eapply yield_loop_action.
  - m_bind H as v s2 H1. unfold yield_exit in H. m_bind H as a1 s3 Hs.
    apply (calm_set_scope no_resume) in Hs.
    refine (action_back w s (set_self w s) _ _ ws x _ _ _ _ _ Hws Hx Htb (based_self_refl w s) eq_refl
      H1 Hs H _ _ _ _); rewrite ?Hctl; first [done|by intros []|constructor].
  - done.
  - unfold _help_wait, current_ws in H. m_bind H as ws1 s2 Hws1. m_bind Hws1. m_action Hws1. m_bind H as x1 s2 Hx1.
    cbn in Hws1, Hx1. assert (ws1 = ws) as -> by congruence. assert (x1 = x) as -> by congruence.
    m_bind H as tk s2 Ht. apply new_task_Ok in Ht as (-> & ->). m_bind H as a1 s3 Hs.
    refine (action_helper w s (set_self w s) _ ws x _ _ _ _ Hws Hx Htb (based_self_refl w s) eq_refl _ H _ _);
      rewrite ?Hctl, ?Hsh; [|constructor|done].
    eapply calm_trans; [by apply calm_new_task|]. by eapply calm_spawn_handler.
  - unfold yield_helper, current_ws in H. m_bind H as b s2 Hb. m_bind H as ws1 s2 Hws1. m_bind Hws1. m_action Hws1.
    m_bind H as x1 s2 Hx1. cbn in Hws1, Hx1.
    assert (ws1 = ws) as -> by congruence. assert (x1 = x) as -> by congruence.
    m_bind H as tk s2 Ht. apply new_task_Ok in Ht as (-> & ->). m_bind H as a1 s3 Hs.
    refine (action_helper w s (set_self w s) _ ws x _ _ _ _ Hws Hx Htb (based_self_refl w s) eq_refl _ H _ _);
      rewrite ?Hctl, ?Hsh; [|constructor|done].
    eapply calm_trans; [by apply calm_new_task|]. by eapply calm_spawn_handler.
  - m_action H. done.
  - done.
Qed.
End calls.
