(* ===== verification/RuntimeSafe.v ===== *)
(** * What every run of the runtime keeps

    The invariant of [RuntimeStack] holds in every state that [launch] reaches,
    under any schedule of the workers.  From it: tasks wait for their futures,
    no task runs twice, and a promise keeps the value it is given. *)

From S2P Require Import Prelude Deque Locality LocalityRun Pool Runtime RuntimeHeap RuntimeStack RuntimeStep.
From stdpp Require Import options.

Section safe.
Context {S : Type} `{!TaskPool S} {EX : Externs}.
#[local] Set Default Proof Using "Type*".

(** The states of a program on [n] workers. *)
Definition reachable (p : S) (n : nat) (main : code) (locale : option Z) (s : rt S) : Prop :=
  ∃ schedule, run schedule (launch p n main locale) = Ok (tt, s).

(** The tasks that a schedule starts, in order. *)
Fixpoint started (schedule : list Z) (s : rt S) : list Z :=
  match schedule with
  | [] => []
  | w :: schedule =>
      match step w s with
      | Ok (_, s') =>
          match starts w s with Some t => t :: started schedule s' | None => started schedule s' end
      | Err _ => []
      end
  end.

(** ** Lemmas: the launched state *)

Lemma worker_ids_elem n w : w ∈ worker_ids n ↔ 0 <= w < Z.of_nat n.
Proof. unfold worker_ids. rewrite elem_of_seqZ. lia. Qed.

Lemma launch_ctx (p : S) n main locale c x :
  ctxs (launch p n main locale) !! c = Some x →
  0 < c < Z.of_nat n + 1 ∧ shape (ctl x) (frames x) ∧ ready_of (ctl x) (frames x) = [] ∧
  running_of (ctl x) (frames x) = [].
Proof.
  cbn. intros H%elem_of_list_to_map_2. apply list_elem_of_fmap in H as (w & [= -> ->] & Hw).
  apply worker_ids_elem in Hw. split; [lia|]. by destruct (w =? 0).
Qed.

Lemma launch_inv (p : S) n main locale :
  pool_ok p → pool_tasks p = [] → inv (launch p n main locale) (λ _, Absent).
Proof.
  intros Hp Ht. split; [| |done|cbn; lia].
  - split; cbn; rewrite ?Ht; try done; try by constructor.
    + intros t. split; [by intros ?%elem_of_nil|done].
    + intros t. rewrite lookup_empty. split; [done|by intros []].
    + intros t. by intros [].
    + intros t. by intros [].
  - split.
    + intros c x Hc. destruct (launch_ctx _ _ _ _ _ _ Hc) as (_ & Hs & Hr & Hu).
      split; rewrite ?Hr, ?Hu; [done| | |constructor]; intros t; (split; [by intros ?%elem_of_nil|done]).
    + by intros t c [?|?].
    + intros c [x Hc]. apply launch_ctx in Hc as [? _]. cbn. lia.
Qed.

(** ** Lemmas: runs *)

Lemma run_cons w schedule (s : rt S) u s' :
  run (w :: schedule) s = Ok (u, s') → ∃ v s1, step w s = Ok (v, s1) ∧ run schedule s1 = Ok (u, s').
Proof. intros H. cbn [run] in H. m_bind H as v s1 H1. by exists v, s1. Qed.

Lemma run_app l1 l2 (s : rt S) u s' :
  run l1 s = Ok (tt, u) → run l2 u = Ok (tt, s') → run (l1 ++ l2) s = Ok (tt, s').
Proof.
  revert s. induction l1 as [|w l1 IH]; intros s H1 H2; [by injection H1 as ->|].
  apply run_cons in H1 as ([] & s1 & Hs & H1). cbn [app run].
  unfold mbind, M_bind. rewrite Hs. by apply IH.
Qed.

Lemma run_inv schedule s f u s' :
  run schedule s = Ok (u, s') → inv s f → ∃ f', inv s' f' ∧ later s f s' f'.
Proof.
  revert s f. induction schedule as [|w schedule IH]; intros s f H Hi.
  - injection H as _ <-. exists f. split; [done|apply later_refl].
  - apply run_cons in H as (v & s1 & H1 & H).
    destruct (step_acted _ _ _ _ _ H1 Hi) as (f1 & Hi1 & Hl1 & _).
    destruct (IH s1 f1 H Hi1) as (f2 & Hi2 & Hl2). exists f2. split; [done|].
    by eapply later_trans.
Qed.

Lemma launched_inv (p : S) n main locale s :
  pool_ok p → pool_tasks p = [] → reachable p n main locale s → ∃ f, inv s f.
Proof.
  intros Hp Ht [schedule H]. destruct (run_inv _ _ _ _ _ H (launch_inv p n main locale Hp Ht)) as (f & Hi & _).
  by exists f.
Qed.

Lemma current_ctl_Some w (s : rt S) c :
  current_ctl w s = Some c →
  ∃ ws x, workers s !! w = Some ws ∧ ctxs s !! curr_ctx ws = Some x ∧ ctl x = c.
Proof.
  unfold current_ctl. intros (ws & Hws & H)%bind_Some. apply fmap_Some in H as (x & Hx & ->).
  by exists ws, x.
Qed.

(** The task a worker is about to start is ready. *)
Lemma starts_ready w (s : rt S) f t :
  inv s f → starts w s = Some t →
  unstarted (f t) = true ∧ 0 < t < brk s ∧ ∃ tk, tasks s !! t = Some tk ∧ ready s tk.
Proof.
  intros Hi H. unfold starts in H. destruct (current_ctl w s) as [c|] eqn:Hcc; [|done].
  destruct (current_ctl_Some _ _ _ Hcc) as (ws & x & _ & Hx & Hc). destruct c; try done.
  injection H as ->. destruct (ready_in s f (curr_ctx ws) x t Hi Hx) as (E & tk & Htk & Hr);
    [by rewrite Hc|]. rewrite E. split; [done|]. split; [|by exists tk].
  apply (heap_bounds _ _ (inv_heap _ _ Hi)). by rewrite Htk.
Qed.

Lemma started_unstarted schedule (s : rt S) f t :
  inv s f → t ∈ started schedule s → unstarted (f t) = true ∨ brk s <= t.
Proof.
  revert s f. induction schedule as [|w schedule IH]; intros s f Hi Ht; [by apply elem_of_nil in Ht|].
  cbn [started] in Ht. destruct (step w s) as [[u s1]|] eqn:E; [|by apply elem_of_nil in Ht].
  destruct (step_acted _ _ _ _ _ E Hi) as (f1 & Hi1 & Hl1 & _).
  assert (t ∈ started schedule s1 → unstarted (f t) = true ∨ brk s <= t) as Hlater.
  { intros Ht'. destruct (IH s1 f1 Hi1 Ht') as [Hu|Hb]; [by apply (later_unstarted _ _ _ _ Hl1)|].
    pose proof (later_brk _ _ _ _ Hl1). right. lia. }
  destruct (starts w s) as [t0|] eqn:Es; [|by apply Hlater].
  apply elem_of_cons in Ht as [->|Ht]; [|by apply Hlater].
  left. by eapply starts_ready.
Qed.

Lemma started_nodup schedule (s : rt S) f : inv s f → NoDup (started schedule s).
Proof.
  revert s f. induction schedule as [|w schedule IH]; intros s f Hi; cbn [started]; [constructor|].
  destruct (step w s) as [[u s1]|] eqn:E; [|constructor].
  destruct (step_acted _ _ _ _ _ E Hi) as (f1 & Hi1 & Hl1 & Hst).
  destruct (starts w s) as [t|] eqn:Es; [|by eapply IH].
  constructor; [|by eapply IH]. intros Ht.
  destruct (started_unstarted _ _ _ _ Hi1 Ht) as [Hu|Hb]; [rewrite (Hst t eq_refl) in Hu; done|].
  destruct (starts_ready _ _ _ _ Hi Es) as (_ & Hb' & _). pose proof (later_brk _ _ _ _ Hl1). lia.
Qed.

(** ** Properties *)

(** C4: exactly once.  Whatever the program and however the workers interleave,
    no task starts twice: the tasks started along a run of
    [find_and_run_task]/[execute_task], whether popped, stolen, woken by a put or
    handed to a fresh context, are pairwise different. *)
Theorem tasks_start_once (p : S) n main locale schedule :
  pool_ok p → pool_tasks p = [] → NoDup (started schedule (launch p n main locale)).
Proof. intros Hp Ht. eapply started_nodup, (launch_inv p n main locale Hp Ht). Qed.

(** The worker's next action is an [hclib_async] or its C++ counterpart. *)
Definition about_to_async (w : Z) (s : rt S) (fp : code) (futures : list Z) (locale : option Z)
    : Prop :=
  ∃ c, current_ctl w s = Some (Run c) ∧
    ((∃ k, c = Async fp futures locale k) ∨ (∃ nb k, c = Cpp_async fp futures locale nb k)).

(** The action of a worker whose task goes on with [c]. *)
Lemma step_run_code w s c u s' :
  current_ctl w s = Some (Run c) → step w s = Ok (u, s') →
  ∃ fs, run_code c fs (set_self w s) = Ok (u, s').
Proof.
  intros (ws & x & Hws & Hx & Hc)%current_ctl_Some H. unfold step, current_ws in H.
  m_bind H. m_bind H as ws' s2 Hws'. m_bind Hws'. m_action Hws'. m_bind H as x' s2 Hx'.
  cbn in Hws', Hx'. assert (ws' = ws) as -> by congruence. assert (x' = x) as -> by congruence.
  rewrite Hc in H. by exists (frames x).
Qed.

Lemma set_stack_ctl c fs (s : rt S) u s' : set_stack c fs s = Ok (u, s') → current_ctl (self s) s' = Some c.
Proof.
  intros (ws & x & Hws & Hx & ->)%set_stack_Ok. unfold current_ctl. cbn. rewrite Hws. cbn.
  by rewrite lookup_insert_eq.
Qed.

Lemma async_step w s f fp futures locale u s1 :
  inv s f → about_to_async w s fp futures locale → step w s = Ok (u, s1) →
  brk s < brk s1 ∧ ∀ tk, tasks s1 !! brk s = Some tk → ∃ nb g l,
    task_static tk = task_static (spawned_task (fresh_task (User fp) nb) g l futures).
Proof.
  intros Hi (c & Hc & Hcase) H. destruct (step_run_code _ _ _ _ _ Hc H) as [fs H1].
  destruct (inv_self s f w Hi) as [Hi' _].
  destruct Hcase as [(k & ->)|(nb & k & ->)]; cbn [run_code] in H1; m_bind H1 as v s2 Ha.
  - eapply async_ok in Ha as (_ & Hb & Hst); [|apply Hi'|apply (inv_brk _ _ Hi')].
    apply set_stack_Ok in H1 as (ws2 & x2 & _ & _ & ->). split; [done|].
    intros tk Htk. destruct (Hst tk Htk) as (g & l & E). by exists false, g, l.
  - eapply await_helper_ok in Ha as (_ & Hb & Hst); [|apply Hi'|apply (inv_brk _ _ Hi')].
    apply set_stack_Ok in H1 as (ws2 & x2 & _ & _ & ->). split; [done|].
    intros tk Htk. destruct (Hst tk Htk) as (g & E). by exists nb, g, locale.
Qed.

(** A task spawned by [hclib_async] starts with its function, when its futures
    are satisfied. *)
Lemma async_starts_ready w s0 f fp futures l u s1 schedule s2 w2 :
  inv s0 f → about_to_async w s0 fp futures l → (∀ q, q ∈ futures → q ≠ NULL) →
  step w s0 = Ok (u, s1) → run schedule s1 = Ok (tt, s2) → starts w2 s2 = Some (brk s0) →
  (∃ tk, tasks s2 !! brk s0 = Some tk ∧ t_fp tk = User fp) ∧ ∀ q, q ∈ futures → is_satisfied s2 q.
Proof.
  intros Hi Ha Hn H1 H2 Hst.
  destruct (async_step _ _ _ _ _ _ _ _ Hi Ha H1) as [Hb Hs].
  destruct (step_acted _ _ _ _ _ H1 Hi) as (f1 & Hi1 & _ & _).
  destruct (run_inv _ _ _ _ _ H2 Hi1) as (f2 & Hi2 & Hl2).
  destruct (starts_ready _ _ _ _ Hi2 Hst) as (_ & _ & tk & Htk & Hready).
  destruct (later_static _ _ _ _ Hl2 (brk s0) tk Hb Htk) as (tk1 & Htk1 & E).
  destruct (Hs tk1 Htk1) as (nb & g & l' & E1). rewrite E1 in E. injection E as Efp _ Ed. split.
  - exists tk. split; [done|]. rewrite Efp. unfold spawned_task. by destruct (_ >? 0).
  - intros q Hq. apply Hready. rewrite Ed. by apply spawned_deps.
Qed.

(** C5: dependencies.  A task spawned by [hclib_async] or [hclib::async_await] with futures (none of
    them [NULL]; up to four are kept in the task, the rest in [waiting_on_extra])
    starts only when every one of them has been put, however many workers run and
    however their puts, registrations and steals interleave. *)
Theorem async_waits_for_futures (p : S) n main locale s0 w fp futures l u s1 schedule s2 w2 :
  pool_ok p → pool_tasks p = [] → reachable p n main locale s0 →
  about_to_async w s0 fp futures l → (∀ q, q ∈ futures → q ≠ NULL) →
  step w s0 = Ok (u, s1) → run schedule s1 = Ok (tt, s2) → starts w2 s2 = Some (brk s0) →
  ∀ q, q ∈ futures → is_satisfied s2 q.
Proof.
  intros Hp Ht Hr Ha Hn H1 H2 Hst. destruct (launched_inv _ _ _ _ _ Hp Ht Hr) as [f Hi].
  by eapply async_starts_ready.
Qed.

Lemma satisfied_ok s f q pr : inv s f → promises s !! q = Some pr → satisfied pr ≠ 0 → satisfied pr = 1.
Proof.
  intros Hi Hq Hs. destruct (heap_promises _ _ (inv_heap _ _ Hi) q pr Hq) as [(? & _)|(? & _)]; done.
Qed.

(** C13: single assignment.  Once a promise is satisfied, its value is fixed for
    the rest of the run: a second [hclib_promise_put] fails its assertion,
    and [hclib_future_get], [hclib_future_is_satisfied] and [hclib_future_wait]
    return that value at once in every later state. *)
Theorem promise_value_final (p : S) n main locale s q pr schedule s' :
  pool_ok p → pool_tasks p = [] → reachable p n main locale s →
  promises s !! q = Some pr → satisfied pr ≠ 0 → run schedule s = Ok (tt, s') →
  hclib_future_get q s' = Ok (datum pr, s') ∧
  hclib_future_is_satisfied q s' = Ok (1, s') ∧
  (∀ d, hclib_promise_put q d s' = Err AssertFail) ∧
  (∀ k fs, hclib_future_wait q k fs s' = set_stack (Run (k (datum pr))) fs s').
Proof.
  intros Hp Ht Hr Hq Hs H. destruct (launched_inv _ _ _ _ _ Hp Ht Hr) as [f Hi].
  pose proof (satisfied_ok _ _ _ _ Hi Hq Hs) as Hs1.
  destruct (run_inv _ _ _ _ _ H Hi) as (f' & Hi' & Hl).
  destruct (later_datum _ _ _ _ Hl q pr Hq Hs) as ([sa d0 wl] & Hq' & E & Ed). cbn in E, Ed.
  rewrite Hs1 in E. subst sa d0.
  assert (get_promise q s' = Ok (mkPromise 1 (datum pr) wl, s')) as Hg
    by (unfold get_promise, get; by rewrite Hq').
  assert (q ≠ NULL) as Hn.
  { pose proof (heap_promise_bounds _ _ (inv_heap _ _ Hi') q ltac:(by rewrite Hq')). unfold NULL. lia. }
  unfold hclib_future_get, hclib_future_is_satisfied, hclib_promise_put, hclib_future_wait.
  unfold mbind, M_bind. rewrite Hg. split; [done|]. split; [done|]. split; [|done].
  intros d. rewrite (proj2 (Z.eqb_neq _ _) Hn). change (negb false) with true.
  change (assert true s') with (@Ok (() * rt S) (tt, s')).
  cbv beta iota. by rewrite Hg.
Qed.
End safe.

(** ** Concrete runs *)

(** The state after a schedule, or the first one when it cannot be run. *)
Definition state_after (schedule : list Z) (s : rt locality) : rt locality :=
  match run schedule s with Ok (_, s') => s' | Err _ => s end.

Definition runs (schedule : list Z) (s : rt locality) : bool :=
  match run schedule s with Ok _ => true | Err _ => false end.

Lemma run_state_after schedule s : runs schedule s = true → run schedule s = Ok (tt, state_after schedule s).
Proof. unfold runs, state_after. by destruct (run schedule s) as [[[] s']|]. Qed.


(** *** Dependencies

    Two futures; the waiting task is spawned before either is put. *)
Definition two_futures : code :=
  Promise_create (λ p, Promise_create (λ q,
    Async (Return NULL) [p; q] None
      (Promise_put q 7 (Promise_put p 8 (Return NULL))))).

Definition two_futures_launch : rt locality := launch (small_pool 2) 2 two_futures None.

(** Worker 0 runs the main task up to the spawn and then puts both futures;
    worker 1 steals the waiting task. *)
Definition spawn_state : rt locality := state_after (replicate 8 0) two_futures_launch.
Definition spawned_state : rt locality := state_after [0] spawn_state.
Definition stolen_state : rt locality := state_after [0; 0; 1; 1; 1] spawned_state.

Lemma step_state_after w s :
  runs [w] s = true → step w s = Ok (tt, state_after [w] s).
Proof.
  unfold runs, state_after. cbn [run]. unfold mbind, M_bind.
  by destruct (step w s) as [[[] s']|].
Qed.

Lemma tasks_start_once_witness :
  pool_ok (small_pool 2) ∧ pool_tasks (small_pool 2) = [] ∧
  started (replicate 8 0 ++ [0; 0; 0; 1; 1; 1; 1]) two_futures_launch = [4; 7] ∧
  NoDup (started (replicate 8 0 ++ [0; 0; 0; 1; 1; 1; 1]) two_futures_launch).
Proof.
  split; [apply small_pool_ok|]. split; [apply small_pool_empty|].
  split; [by vm_compute|]. apply tasks_start_once; [apply small_pool_ok|apply small_pool_empty].
Defined.

Lemma async_waits_for_futures_witness :
  starts 1 stolen_state = Some (brk spawn_state) ∧ is_satisfied stolen_state 5 ∧ is_satisfied stolen_state 6.
Proof.
  assert (∀ q, q ∈ [5; 6] → is_satisfied stolen_state q) as H.
  { apply (async_waits_for_futures (small_pool 2) 2 two_futures None spawn_state 0 (Return NULL) [5; 6]
      None tt spawned_state [0; 0; 1; 1; 1] stolen_state 1).
    - apply small_pool_ok.
    - apply small_pool_empty.
    - exists (replicate 8 0). apply run_state_after. by vm_compute.
    - eexists. split; [|left; by exists (Promise_put 6 7 (Promise_put 5 8 (Return NULL)))]. by vm_compute.
    - intros q Hq. assert (q = 5 ∨ q = 6) as [->| ->] by set_solver; done.
    - apply step_state_after. by vm_compute.
    - apply run_state_after. by vm_compute.
    - by vm_compute. }
  split; [by vm_compute|]. split; apply H; set_solver.
Defined.

Lemma promise_value_final_witness :
  ∃ pr, promises (state_after [0] spawned_state) !! 6 = Some pr ∧ satisfied pr ≠ 0 ∧
    hclib_future_get 6 stolen_state = Ok (7, stolen_state) ∧
    ∀ d, hclib_promise_put 6 d stolen_state = Err AssertFail.
Proof.
  exists (mkPromise 1 7 NULL). split; [by vm_compute|]. split; [done|].
  destruct (promise_value_final (small_pool 2) 2 two_futures None (state_after [0] spawned_state) 6
    (mkPromise 1 7 NULL) [0; 1; 1; 1] stolen_state) as (H1 & _ & H2 & _); [..|by split].
  - apply small_pool_ok.
  - apply small_pool_empty.
  - exists (replicate 10 0). transitivity (run (replicate 10 0) two_futures_launch); [done|].
    rewrite (run_state_after _ two_futures_launch); [|by vm_compute].
    by vm_compute.
  - by vm_compute.
  - done.
  - rewrite (run_state_after _ (state_after [0] spawned_state)); by vm_compute.
Defined.
