(* ===== verification/RuntimeStart.v ===== *)
(** * The runtime on an initialised locality graph

    The theorems about [Runtime] are for any pool of tasks that is well formed.
    Here the pool is the one that [hclib_global_init] leaves ([Init]): a second
    instance of [TaskPool] with the same operations, whose invariant is [ready],
    carries what is known of the locality graph through every run of the runtime. *)

From S2P Require Import Prelude Deque Jsmn LocalityText Locality LocalityRun Pool Runtime RuntimeHeap RuntimeStack RuntimeStep RuntimeSafe Affinity Init.
From stdpp Require Import options.

(** ** The pool, with a stronger invariant *)

Section ready.
Context (n : Z) (paths : list (hclib_locality_path * hclib_locality_path)).

Definition ready_with_workers (s : locality) : Prop := ready n paths s ∧ Z.of_nat (length (lc_workers s)) = n.

Lemma locality_pop_inv s w t s' :
  ready_with_workers s → locality_pop s w = Ok (t, s') → ready_with_workers s'.
Proof.
  intros [Hs Hl] H. pose proof H as H1. apply bind_Ok in H1 as (ws & [Hw Hws]%array_get_Ok & H1).
  apply lift_context_Ok in H1 as (cx & _ & ->). apply lookup_lt_Some in Hws.
  destruct (ready_pop n paths s w Hs ltac:(lia)) as (t1 & s1 & E & Hs1). rewrite H in E. injection E as <- <-. done.
Qed.

Lemma locality_steal_inv s w ts s' :
  ready_with_workers s → locality_steal s w = Ok (ts, s') → ready_with_workers s'.
Proof.
  intros [Hs Hl] H. pose proof H as H1. apply bind_Ok in H1 as (ws & [Hw Hws]%array_get_Ok & H1).
  apply bind_Ok in H1 as ([[ts1 v] cx] & _ & [= <- <-]). apply lookup_lt_Some in Hws.
  destruct (ready_steal n paths s w Hs ltac:(lia)) as (t1 & s1 & E & Hs1 & _). rewrite H in E. injection E as <- <-. done.
Qed.

Definition ready_pool : TaskPool locality.
Proof using n paths.
  refine {| pool_push_locale := locality_push_locale; pool_push_default := locality_push_default;
    pool_pop := locality_pop; pool_steal := locality_steal; pool_ok := ready_with_workers;
    pool_tasks := @pool_tasks locality locality_pool |}.
  - intros s w l t r s' [Hs Hl] Ht H Hr. split; [split; [by apply (ready_push_locale n paths s w l t r)|]|].
    + apply bind_Ok in H as (ws & _ & H). by apply lift_context_Ok in H as (cx & _ & ->).
    + by eapply (@pool_push_locale_law locality locality_pool); [by eapply ready_pool_ok|..].
  - intros s w t r s' [Hs Hl] Ht H Hr. split; [split; [by apply (ready_push_default n paths s w t r)|]|].
    + apply bind_Ok in H as (l & _ & H). apply bind_Ok in H as (re & _ & H). apply bind_Ok in H as (u & _ & H).
      by apply lift_context_Ok in H as (cx & _ & ->).
    + by eapply (@pool_push_default_law locality locality_pool); [by eapply ready_pool_ok|..].
  - intros s w t s' Hs H. split; [by eapply locality_pop_inv|].
    eapply (@pool_pop_law locality locality_pool); [eapply ready_pool_ok; apply Hs|done].
  - intros s w ts s' Hs H. split; [by eapply locality_steal_inv|].
    eapply (@pool_steal_law locality locality_pool); [eapply ready_pool_ok; apply Hs|done].
  - apply (@pool_push_locale_ends locality locality_pool).
  - apply (@pool_push_default_ends locality locality_pool).
  - apply (@pool_pop_ends locality locality_pool).
  - apply (@pool_steal_ends locality locality_pool).
Defined.

(** Both instances run the same code. *)
Lemma reachable_ready {EX : Externs} p k main locale (s : rt locality) :
  @reachable locality locality_pool EX p k main locale s →
  @reachable locality ready_pool EX p k main locale s.
Proof. exact (λ H, H). Qed.

(** The pool of every state that the runtime reaches. *)
Lemma reached_pool {EX : Externs} p k main locale (s : rt locality) :
  ready_with_workers p → @pool_tasks locality locality_pool p = [] →
  @reachable locality locality_pool EX p k main locale s → ready_with_workers (pool s).
Proof.
  intros Hp Ht H%reachable_ready.
  destruct (@launched_inv locality ready_pool EX p k main locale s Hp Ht H) as [f Hi].
  exact (@heap_pool_ok locality ready_pool _ _ (inv_heap _ _ Hi)).
Qed.
End ready.

(** ** Properties *)

(** C37: From the start of the process to any moment of the run.  Let the locality graph be
    loaded or generated, checked, and the workers created and pinned; let the runtime
    then launch any program on these workers and interleave their actions in any
    order.  In every state that is reached no search for work faults, for no worker,
    neither along its pop path nor along its steal path; and if every locale on a pop
    path is also on a steal path, then while any task is queued anywhere there is a
    worker whose search finds one. *)
Theorem runtime_finds_queued_work {EX : Externs} run_populate ls file junk workers nprocessors hwloc s0 s1 n
    main locale (s : rt locality) :
  (∀ f l l', run_populate f l = Ok l' →
     loc_id l' = loc_id l ∧ loc_lbl l' = loc_lbl l ∧ loc_deques l' = loc_deques l) →
  (∀ contents, file = Some (Some contents) → Z.of_nat (length contents) < INT_MAX) →
  hclib_global_init run_populate ls file junk workers nprocessors = Ok s0 →
  Z.of_nat (length (lc_workers s0)) = n → 2 * n <= INT_MAX →
  Forall (λ p, 2 * Z.of_nat (length (steal_path p)) <= INT_MAX) (hc_worker_paths (lc_context s0)) →
  pin_locality hwloc s0 = Ok s1 →
  reachable s1 (Z.to_nat n) main locale s →
  (∀ w, 0 <= w < n → (∃ t p, locality_pop (pool s) w = Ok (t, p)) ∧ ∃ ts p, locality_steal (pool s) w = Ok (ts, p)) ∧
  (stealable (hc_worker_paths (lc_context s0)) → pool_tasks (pool s) ≠ [] →
   ∃ w ts p, 0 <= w < n ∧ locality_steal (pool s) w = Ok (ts, p) ∧ ts ≠ []).
Proof.
  intros Hpop Hfile H Hn Hmax Hst Hpin Hrun.
  destruct (started_ready _ _ _ _ _ _ _ _ Hpop Hfile H Hn Hmax Hst) as (Hr & Ht & Hl).
  destruct (ready_pinned _ _ _ _ _ Hn Hr Hpin) as [Hr1 Ht1]. rewrite Ht in Ht1.
  assert (length (lc_workers s1) = length (lc_workers s0)) as Hl1 by by eapply pinned_workers.
  destruct (reached_pool n (paths_of (hc_worker_paths (lc_context s0))) s1 (Z.to_nat n) main locale s) as [Hs _]; [split; [exact Hr1|lia]|done|done|].
  split; [|by apply ready_found]. intros w Hw.
  destruct (ready_pop _ _ _ _ Hs Hw) as (t & s2 & E & _). destruct (ready_steal _ _ _ _ Hs Hw) as (ts & s3 & E' & _).
  split; [by exists t, s2|by exists ts, s3].
Qed.

(** Two pinned workers; worker 0 opens the root scope and queues the main function. *)
Definition main_queued : option (rt locality) :=
  match two_workers_pinned with
  | Ok p => match run [0; 0] (launch p 2 (Return NULL) (Some 0)) with Ok (_, s) => Some s | Err _ => None end
  | Err _ => None
  end.

Lemma runtime_finds_queued_work_witness :
  ∃ s, main_queued = Some s ∧ pool_tasks (pool s) ≠ [] ∧
    ∃ w ts p, 0 <= w < 2 ∧ locality_steal (pool s) w = Ok (ts, p) ∧ ts ≠ [].
Proof.
  destruct main_queued as [s|] eqn:Es; [|by vm_compute in Es].
  destruct two_workers as [s0|] eqn:E0; [|by vm_compute in E0].
  destruct two_workers_pinned as [s1|] eqn:E1; [|by vm_compute in E1].
  assert (pool_tasks (pool s) ≠ []) as Ht.
  { clear -Es. vm_compute in Es. injection Es as <-. by vm_compute. }
  exists s. split; [done|]. split; [done|].
  pose proof (runtime_finds_queued_work (λ _ l, Ok l) two_core_types None no_token (Some (chars "2")) 8
    (Some (two_nodes, None, {[0; 3]})) s0 s1 2 (Return NULL) (Some 0) s) as H.
  destruct H as (_ & H).
  - by intros f l l' [= <-].
  - done.
  - exact E0.
  - clear -E0. vm_compute in E0. by injection E0 as <-.
  - unfold INT_MAX. lia.
  - clear -E0. vm_compute in E0. injection E0 as <-. repeat constructor; vm_compute; discriminate.
  - clear -E0 E1. unfold two_workers_pinned in E1. by rewrite E0 in E1.
  - exists [0; 0]. unfold main_queued in Es. rewrite E1 in Es. change (Z.to_nat 2) with 2%nat.
    destruct (run [0; 0] (launch s1 2 (Return NULL) (Some 0))) as [[[] s2]|]; [by injection Es as <-|done].
  - apply H; [|done]. apply same_paths_stealable. clear -E0. vm_compute in E0. injection E0 as <-.
    by repeat constructor.
Defined.
