(* ===== verification/MainCtx.v ===== *)
(** * Running a function on the main context

    [hclib_finalize] and [hclib_run_on_main_ctx] of [src/src/hclib-runtime.c].  The
    thread that starts the runtime is worker 0: [hclib_finalize] leaves its own stack,
    the main context, for one that ends the root scope, and worker 0 runs the program
    on lightweight contexts until one of them comes back for good.  A context can hand
    a function to the main context and wait until it has run there.  The contexts of
    worker 0 take turns on one thread; which of them runs when no call is in progress
    is up to the scheduler ([Runtime]) and any choice here. *)

From S2P Require Import Prelude.
From stdpp Require Import options.

(** ** The machine *)

(** Where [hclib_finalize] stands.

    src/src/hclib-runtime.c:1418-1427 (hclib_finalize) *)
Inductive main_pc :=
  | MTest                                  (** [while (save_fp)] *)
  | MRun                                   (** [save_fp(save_data)] *)
  | MSwap
  | MDone.

(** Where another context of the thread stands: in the program, in
    [hclib_run_on_main_ctx] after the swap, or gone. *)
Inductive client_pc := CProgram | CSwapped | CLeft.

Inductive main_event :=
  | EvCalled (ctx fp data : Z)
  | EvRan (fp data : Z)
  | EvReturned (ctx : Z)
  | EvLeft (ctx : Z)
  | EvEnded (destroyed joined : list Z).

(** The statics of the file, the fields of worker 0, [prev] of each context, and
    whose stack the thread is on.

    src/src/hclib-runtime.c:1338-1340 (save_fp) *)
Record main_state := mkMain {
  save_fp : Z;
  save_data : Z;
  save_context : Z;
  curr_ctx : Z;
  root_ctx : Z;
  prevs : gmap Z Z;
  at_main : main_pc;
  clients : gmap Z client_pc;
  running : Z;
  main_trace : list main_event
}.

Definition set_at_main (x : main_pc) (s : main_state) : main_state :=
  mkMain (save_fp s) (save_data s) (save_context s) (curr_ctx s) (root_ctx s) (prevs s) x (clients s) (running s) (main_trace s).
Definition set_client (c : Z) (x : client_pc) (s : main_state) : main_state :=
  mkMain (save_fp s) (save_data s) (save_context s) (curr_ctx s) (root_ctx s) (prevs s) (at_main s)
    (<[c := x]> (clients s)) (running s) (main_trace s).
Definition set_saved (fp data ctx : Z) (s : main_state) : main_state :=
  mkMain fp data ctx (curr_ctx s) (root_ctx s) (prevs s) (at_main s) (clients s) (running s) (main_trace s).
Definition log_main (e : main_event) (s : main_state) : main_state :=
  mkMain (save_fp s) (save_data s) (save_context s) (curr_ctx s) (root_ctx s) (prevs s) (at_main s) (clients s)
    (running s) (main_trace s ++ [e]).

(** The worker's current context and the [prev] of the next one are set, and the
    thread goes on where the next one stands.

    src/src/hclib-runtime.c:213-222 (ctx_swap)

    src/src/inc/litectx.h:200-219 (LiteCtx_swap) *)
Definition ctx_swap (current next : Z) (s : main_state) : main_state :=
  mkMain (save_fp s) (save_data s) (save_context s) next (root_ctx s) (<[next := current]> (prevs s)) (at_main s)
    (clients s) next (main_trace s).

(** Up to the swap.

    src/src/hclib-runtime.c:1341-1354 (hclib_run_on_main_ctx) *)
Definition run_on_main_ctx (wid fp data : Z) (s : main_state) : res main_state :=
  _ ← hassert (wid =? 0);
  _ ← hassert (save_fp s =? NULL);
  _ ← hassert (negb (fp =? NULL));
  let s := set_saved fp data (curr_ctx s) s in
  Ok (ctx_swap (save_context s) (root_ctx s)
        (set_client (save_context s) CSwapped (log_main (EvCalled (save_context s) fp data) s))).

(** When the context is swapped in again.

    src/src/hclib-runtime.c:1356-1359 (hclib_run_on_main_ctx) *)
Definition run_on_main_return (s : main_state) : main_state :=
  log_main (EvReturned (running s)) (set_client (running s) CProgram (set_saved NULL NULL NULL s)).

(** The threads that are joined.

    src/src/hclib-runtime.c:410-422 (hclib_join) *)
Definition hclib_join (nb_workers : Z) : list Z := seqZ 1 (nb_workers - 1).

Section finalize.
(** The main context, and the number of workers. *)
Context (finalize_ctx nworkers : Z).

(** After the loop: the context that came back and the main one are destroyed and
    the other workers joined.

    src/src/hclib-runtime.c:1420-1437 (hclib_finalize) *)
Definition finalize_step (s : main_state) : res main_state :=
  match at_main s with
  | MTest =>
      if save_fp s =? NULL then
        prev ← deref (prevs s !! finalize_ctx);
        Ok (set_at_main MDone (log_main (EvEnded [prev; finalize_ctx] (hclib_join nworkers)) s))
      else Ok (set_at_main MRun s)
  | MRun => Ok (set_at_main MSwap (log_main (EvRan (save_fp s) (save_data s)) s))
  | MSwap => Ok (set_at_main MTest (ctx_swap finalize_ctx (save_context s) s))
  | MDone => Err Disabled
  end.

(** The thread's next action: the function on the main context, too, may call
    [hclib_run_on_main_ctx]. *)
Inductive main_label :=
  | CallMain (wid fp data : Z)
  | SwitchTo (ctx : Z)
  | Leave
  | Next.

(** [SwitchTo] is a swap by the scheduler, which swaps to a context that is new or
    stands in the program; [Leave] is the last action of a context that ends the
    worker's loop, on worker 0.

    src/src/hclib-runtime.c:696-703 (_hclib_finalize_ctx) *)
Definition main_step (x : main_label) (s : main_state) : res main_state :=
  if running s =? finalize_ctx then
    match x, at_main s with
    | Next, _ => finalize_step s
    | CallMain wid fp data, MRun => run_on_main_ctx wid fp data s
    | _, _ => Err Disabled
    end
  else
    match x, clients s !! running s with
    | CallMain wid fp data, Some CProgram => run_on_main_ctx wid fp data s
    | SwitchTo ctx, Some CProgram =>
        if ctx =? finalize_ctx then Err Disabled else
        match clients s !! ctx with
        | None | Some CProgram => Ok (ctx_swap (running s) ctx (set_client ctx CProgram s))
        | _ => Err Disabled
        end
    | Leave, Some CProgram =>
        Ok (ctx_swap (running s) (root_ctx s) (log_main (EvLeft (running s)) (set_client (running s) CLeft s)))
    | Next, Some CSwapped => Ok (run_on_main_return s)
    | _, _ => Err Disabled
    end.

Fixpoint main_run (xs : list main_label) (s : main_state) : res main_state :=
  match xs with
  | [] => Ok s
  | x :: xs => s ← main_step x s; main_run xs s
  end.

(** src/src/hclib-runtime.c:1412-1419 (hclib_finalize) *)
Definition hclib_finalize (finish_ctx : Z) : main_state :=
  ctx_swap finalize_ctx finish_ctx
    (mkMain NULL NULL NULL finalize_ctx finalize_ctx ∅ MTest {[finish_ctx := CProgram]} finalize_ctx []).

Definition main_reachable (finish_ctx : Z) (s : main_state) : Prop :=
  ∃ xs, main_run xs (hclib_finalize finish_ctx) = Ok s.

(** ** What is promised

    Calls are one at a time: a context calls, its function runs with its argument,
    and the call returns to the same context; then another context may run.  The
    runtime ends once, after a context has left, with that context destroyed and
    every other worker joined. *)
Inductive main_phase :=
  | PProgram
  | PCalled (ctx fp data : Z)
  | PRan (ctx : Z)
  | PLeft (ctx : Z)
  | PEnded.

Definition phase_step (x : main_phase) (e : main_event) : option main_phase :=
  match x, e with
  | PProgram, EvCalled ctx fp data => Some (PCalled ctx fp data)
  | PCalled ctx fp data, EvRan fp' data' => if decide (fp' = fp ∧ data' = data) then Some (PRan ctx) else None
  | PRan ctx, EvReturned ctx' => if decide (ctx' = ctx) then Some PProgram else None
  | PProgram, EvLeft ctx => Some (PLeft ctx)
  | PLeft ctx, EvEnded destroyed joined =>
      if decide (destroyed = [ctx; finalize_ctx] ∧ joined = hclib_join nworkers) then Some PEnded else None
  | _, _ => None
  end.

Definition main_phase_of (s : main_state) : option main_phase :=
  foldl (λ x e, x ≫= λ x, phase_step x e) (Some PProgram) (main_trace s).
#[local] Arguments main_phase_of : simpl never.

(** ** Invariant *)

(** The call in progress, if there is one, or how far the end is. *)
Inductive main_stage :=
  | TProgram (ctx : Z)
  | TAsked (ctx fp data : Z)
  | TRunning (ctx fp data : Z)
  | TRan (ctx fp data : Z)
  | TBack (ctx fp data : Z)
  | TLeft (ctx : Z)
  | TEnded (ctx : Z).

Definition stage_phase (x : main_stage) : main_phase :=
  match x with
  | TProgram _ => PProgram
  | TAsked c fp d | TRunning c fp d => PCalled c fp d
  | TRan c _ _ | TBack c _ _ => PRan c
  | TLeft c => PLeft c
  | TEnded _ => PEnded
  end.

Definition stage_ctx (x : main_stage) : Z :=
  match x with
  | TProgram c | TAsked c _ _ | TRunning c _ _ | TRan c _ _ | TBack c _ _ | TLeft c | TEnded c => c
  end.

Definition stage_fp (x : main_stage) : option (Z * Z) :=
  match x with TAsked _ fp d | TRunning _ fp d | TRan _ fp d | TBack _ fp d => Some (fp, d) | _ => None end.

Definition stage_running (x : main_stage) : Z :=
  match x with TProgram c | TBack c _ _ => c | _ => finalize_ctx end.

Definition stage_client (x : main_stage) : client_pc :=
  match x with TProgram _ => CProgram | TLeft _ | TEnded _ => CLeft | _ => CSwapped end.

Definition stage_main (x : main_stage) : main_pc :=
  match x with TRunning _ _ _ => MRun | TRan _ _ _ => MSwap | TEnded _ => MDone | _ => MTest end.

Record main_inv (s : main_state) (x : main_stage) : Prop := {
  mi_phase : main_phase_of s = Some (stage_phase x);
  mi_saved : match stage_fp x with
             | Some (fp, d) => save_fp s = fp ∧ fp ≠ NULL ∧ save_data s = d ∧ save_context s = stage_ctx x
             | None => save_fp s = NULL
             end;
  mi_curr : curr_ctx s = running s;
  mi_root : root_ctx s = finalize_ctx;
  mi_running : running s = stage_running x;
  mi_main : at_main s = stage_main x;
  mi_ctx : stage_ctx x ≠ finalize_ctx;
  mi_client : clients s !! stage_ctx x = Some (stage_client x);
  mi_others : ∀ c pc, clients s !! c = Some pc → c ≠ finalize_ctx ∧ (c ≠ stage_ctx x → pc = CProgram);
  mi_prev : match x with TLeft c => prevs s !! finalize_ctx = Some c | _ => True end
}.

(** ** Lemmas *)

Lemma main_phase_log s s' e :
  main_trace s' = main_trace s ++ [e] → main_phase_of s' = main_phase_of s ≫= λ x, phase_step x e.
Proof. intros H. unfold main_phase_of. by rewrite H, foldl_app. Qed.

Lemma main_init finish_ctx : finish_ctx ≠ finalize_ctx → main_inv (hclib_finalize finish_ctx) (TProgram finish_ctx).
Proof.
  intros H. split; try done; cbn.
  - by rewrite lookup_singleton_eq.
  - intros c pc [<- <-]%lookup_singleton_Some. done.
Qed.

(** A call of [hclib_run_on_main_ctx] by the context that runs. *)
Lemma call_main_ok s c fp data :
  main_inv s (TProgram c) → fp ≠ NULL →
  ∃ s', run_on_main_ctx 0 fp data s = Ok s' ∧ main_inv s' (TAsked c fp data) ∧
    main_trace s' = main_trace s ++ [EvCalled c fp data].
Proof.
  intros [Hph Hs Hc Hr Hru Hm Hne Hcl Hot _] Hfp. cbn in *. unfold run_on_main_ctx.
  rewrite Hs, (proj2 (Z.eqb_neq fp NULL)) by done. cbn. eexists. split; [done|].
  assert (curr_ctx s = c) as Ec by congruence. split; [|cbn; by rewrite Ec].
  split; cbn; rewrite ?Ec; try done.
  - rewrite (main_phase_log s _ (EvCalled c fp data)) by done. by rewrite Hph.
  - apply lookup_insert_eq.
  - intros k pc [(<- & _)|[Hk H]]%lookup_insert_Some; [done|]. destruct (Hot k pc H). done.
Qed.

Lemma finalize_step_ok s x :
  main_inv s x → running s = finalize_ctx →
  match x with
  | TAsked c fp d => ∃ s', finalize_step s = Ok s' ∧ main_inv s' (TRunning c fp d) ∧ main_trace s' = main_trace s
  | TRunning c fp d =>
      ∃ s', finalize_step s = Ok s' ∧ main_inv s' (TRan c fp d) ∧ main_trace s' = main_trace s ++ [EvRan fp d]
  | TRan c fp d => ∃ s', finalize_step s = Ok s' ∧ main_inv s' (TBack c fp d) ∧ main_trace s' = main_trace s
  | TLeft c => ∃ s', finalize_step s = Ok s' ∧ main_inv s' (TEnded c)
  | TEnded c => finalize_step s = Err Disabled
  | TProgram _ | TBack _ _ _ => False
  end.
Proof.
  intros [Hph Hs Hc Hr Hru Hm Hne Hcl Hot Hpr] Hrun. unfold finalize_step.
  destruct x as [c|c fp d|c fp d|c fp d|c fp d|c|c]; cbn in *; try congruence; rewrite Hm.
  - destruct Hs as (Hfp & Hnz & Hd & Hx). rewrite (proj2 (Z.eqb_neq _ NULL)) by congruence.
    eexists. split; [done|]. by split.
  - destruct Hs as (Hfp & Hnz & Hd & Hx). eexists. split; [done|]. split; [|cbn; by rewrite Hfp, Hd].
    split; try done. rewrite (main_phase_log s _ (EvRan (save_fp s) (save_data s))) by done.
    rewrite Hph, Hfp, Hd. cbn. by rewrite decide_True.
  - destruct Hs as (Hfp & Hnz & Hd & Hx). eexists. split; [done|]. split; [|done]. by split.
  - rewrite Hs. cbn [Z.eqb NULL]. rewrite Hpr. eexists. split; [done|]. split; try done.
    rewrite (main_phase_log s _ (EvEnded [c; finalize_ctx] (hclib_join nworkers))) by done.
    rewrite Hph. cbn. by rewrite decide_True.
  - done.
Qed.

Lemma return_ok s c fp d :
  main_inv s (TBack c fp d) →
  main_inv (run_on_main_return s) (TProgram c) ∧ main_trace (run_on_main_return s) = main_trace s ++ [EvReturned c].
Proof.
  intros [Hph Hs Hc Hr Hru Hm Hne Hcl Hot _]. cbn in *. split; [|cbn; by rewrite Hru].
  split; cbn; rewrite ?Hru; try done; try congruence.
  - rewrite (main_phase_log s _ (EvReturned c)) by (cbn; by rewrite Hru). rewrite Hph. cbn. by rewrite decide_True.
  - apply lookup_insert_eq.
  - intros k pc [(<- & <-)|[Hk H]]%lookup_insert_Some; [done|]. by apply Hot in H.
Qed.

Lemma switch_ok s c ctx :
  main_inv s (TProgram c) → ctx ≠ finalize_ctx →
  main_inv (ctx_swap (running s) ctx (set_client ctx CProgram s)) (TProgram ctx).
Proof.
  intros [Hph Hs Hc Hr Hru Hm Hne Hcl Hot _] Hctx. cbn in *. split; try done; cbn.
  - apply lookup_insert_eq.
  - intros k pc [(<- & <-)|[Hk H]]%lookup_insert_Some; [done|]. destruct (Hot k pc H) as [H1 H2]. split; [done|].
    intros _. destruct (decide (k = c)) as [->|]; [congruence|by apply H2].
Qed.

Lemma leave_ok s c :
  main_inv s (TProgram c) →
  main_inv (ctx_swap (running s) (root_ctx s) (log_main (EvLeft (running s)) (set_client (running s) CLeft s))) (TLeft c).
Proof.
  intros [Hph Hs Hc Hr Hru Hm Hne Hcl Hot _]. cbn in *. rewrite Hru, Hr. split; try done; cbn.
  - rewrite (main_phase_log s _ (EvLeft c)) by done. by rewrite Hph.
  - apply lookup_insert_eq.
  - intros k pc [(<- & <-)|[Hk H]]%lookup_insert_Some; [done|]. by apply Hot in H.
  - apply lookup_insert_eq.
Qed.

(** A step keeps the invariant, or fails an assertion on a call that breaks the
    rules. *)
Definition misuse (x : main_label) (s : main_state) : Prop :=
  ∃ wid fp data, x = CallMain wid fp data ∧ (wid ≠ 0 ∨ fp = NULL ∨ running s = finalize_ctx).

Definition main_fine (x : main_label) (s : main_state) (r : res main_state) : Prop :=
  match r with
  | Ok s' => ∃ st, main_inv s' st
  | Err e => e = Disabled ∨ (e = AssertFail ∧ misuse x s)
  end.

Lemma call_fine s st wid fp data :
  main_inv s st → (∃ c, st = TProgram c) ∨ at_main s = MRun ∧ running s = finalize_ctx →
  main_fine (CallMain wid fp data) s (run_on_main_ctx wid fp data s).
Proof.
  intros Hi Hst. assert (misuse (CallMain wid fp data) s → run_on_main_ctx wid fp data s = Err AssertFail →
    main_fine (CallMain wid fp data) s (run_on_main_ctx wid fp data s)) as Hbad by (intros Hm ->; by right).
  unfold misuse in Hbad.
  destruct (Z.eqb_spec wid 0) as [->|Hw].
  2: { apply Hbad; [exists wid, fp, data; auto|]. unfold run_on_main_ctx. by rewrite (proj2 (Z.eqb_neq _ _) Hw). }
  destruct Hst as [[c ->]|[Hm Hr]].
  - destruct (Z.eqb_spec fp NULL) as [->|Hf].
    + apply Hbad; [exists 0, NULL, data; auto|]. unfold run_on_main_ctx. cbn. pose proof (mi_saved _ _ Hi) as Hs.
      cbn in Hs. by rewrite Hs.
    + destruct (call_main_ok s c fp data Hi Hf) as (s' & -> & H & _). by exists (TAsked c fp data).
  - apply Hbad; [exists 0, fp, data; auto|]. unfold run_on_main_ctx. cbn.
    pose proof (mi_main _ _ Hi) as Hm'. pose proof (mi_saved _ _ Hi) as Hs. rewrite Hm in Hm'.
    destruct st; cbn in *; try done. destruct Hs as (Hfp & Hnz & _). by rewrite (proj2 (Z.eqb_neq (save_fp s) NULL)) by congruence.
Qed.

Lemma main_step_ok s st x : main_inv s st → main_fine x s (main_step x s).
Proof.
  intros Hi. unfold main_step. destruct (Z.eqb_spec (running s) finalize_ctx) as [Hr|Hr].
  - destruct x as [wid fp data|ctx| |]; try (by left).
    + destruct (at_main s) eqn:E; try (by left). apply (call_fine s st); [done|by right].
    + pose proof (finalize_step_ok s st Hi Hr) as H. destruct st; try done; try (rewrite H; by left).
      all: destruct H as (s' & -> & H); cbn; eexists; by first [apply H|exact (proj1 H)].
  - assert (clients s !! running s = Some (stage_client st) ∧ running s = stage_ctx st) as [Hcl Hctx].
    { pose proof (mi_running _ _ Hi) as Hru. pose proof (mi_client _ _ Hi) as Hc. destruct st; cbn in *; try done;
        by rewrite Hru. }
    rewrite Hcl. pose proof (mi_running _ _ Hi) as Hru.
    destruct st as [c|c fp d|c fp d|c fp d|c fp d|c|c]; cbn [stage_running stage_client stage_ctx] in *; try done.
    + destruct x as [wid fp data|ctx| |]; try (by left).
      * apply (call_fine s (TProgram c)); [done|left; by exists c].
      * destruct (Z.eqb_spec ctx finalize_ctx) as [->|Hx]; [by left|].
        destruct (clients s !! ctx) as [[]|]; try (by left); exists (TProgram ctx); by apply switch_ok with c.
      * exists (TLeft c). by apply leave_ok.
    + destruct x; try (by left). exists (TProgram c). by apply (return_ok s c fp d).
Qed.

Lemma main_run_inv xs s st s' : main_inv s st → main_run xs s = Ok s' → ∃ st', main_inv s' st'.
Proof.
  revert s st. induction xs as [|x xs IH]; intros s st Hi H; cbn in H; [injection H as <-; by exists st|].
  apply bind_Ok in H as (s1 & H1 & H). pose proof (main_step_ok s st x Hi) as Hf. rewrite H1 in Hf.
  destruct Hf as [st1 Hi1]. by eapply IH.
Qed.

Lemma main_reached finish_ctx s : finish_ctx ≠ finalize_ctx → main_reachable finish_ctx s → ∃ st, main_inv s st.
Proof. intros Hne [xs H]. eapply main_run_inv; [by apply main_init|exact H]. Qed.

(** A call is served and returns. *)
Lemma call_served s c fp data :
  main_inv s (TProgram c) → fp ≠ NULL →
  ∃ s', main_run [CallMain 0 fp data; Next; Next; Next; Next] s = Ok s' ∧ main_inv s' (TProgram c) ∧
    main_trace s' = main_trace s ++ [EvCalled c fp data; EvRan fp data; EvReturned c].
Proof.
  intros Hi Hfp. destruct (call_main_ok s c fp data Hi Hfp) as (s1 & E1 & H1 & T1).
  destruct (finalize_step_ok s1 _ H1 (mi_running _ _ H1)) as (s2 & E2 & H2 & T2).
  destruct (finalize_step_ok s2 _ H2 (mi_running _ _ H2)) as (s3 & E3 & H3 & T3).
  destruct (finalize_step_ok s3 _ H3 (mi_running _ _ H3)) as (s4 & E4 & H4 & T4).
  destruct (return_ok s4 c fp data H4) as [H5 T5].
  exists (run_on_main_return s4). split; [|split; [done|rewrite T5, T4, T3, T2, T1; by rewrite <-!app_assoc]].
  assert (∀ s st, main_inv s st → running s = finalize_ctx → main_step Next s = finalize_step s) as Hmain.
  { intros s0 st0 _ Hr. unfold main_step. by rewrite Hr, Z.eqb_refl. }
  cbn [main_run]. replace (main_step (CallMain 0 fp data) s) with (Ok s1).
  2: { unfold main_step. rewrite (mi_running _ _ Hi). cbn [stage_running].
       rewrite (proj2 (Z.eqb_neq c _) (mi_ctx _ _ Hi)). pose proof (mi_client _ _ Hi) as Hc. cbn in Hc. by rewrite Hc, E1. }
  cbn [mbind res_bind]. rewrite (Hmain s1 _ H1 (mi_running _ _ H1)), E2. cbn [mbind res_bind].
  rewrite (Hmain s2 _ H2 (mi_running _ _ H2)), E3. cbn [mbind res_bind].
  rewrite (Hmain s3 _ H3 (mi_running _ _ H3)), E4. cbn [mbind res_bind].
  unfold main_step. rewrite (mi_running _ _ H4). cbn [stage_running].
  rewrite (proj2 (Z.eqb_neq c _) (mi_ctx _ _ H4)). pose proof (mi_client _ _ H4) as Hc. cbn in Hc. by rewrite Hc.
Qed.
End finalize.

(** ** Properties *)

(** C24: Functions for the main context are run.  In every state that worker 0 reaches
    between the start of [hclib_finalize] and its end, what has happened is a run of
    [phase_step]: calls are one at a time, each function runs on the main context with
    its argument, and only then does its call return, to the context that made it;
    the runtime is finalized once, after a context has left with no call in progress,
    and then that context and the main one are destroyed and all other workers are
    joined.  A step fails only on a call by another worker, with no function, or from a
    function that itself runs on the main context: the assertions.  And a call by
    a context of the program is served and returns in four further steps. *)
Theorem main_ctx_calls_served finalize_ctx nworkers finish_ctx s :
  finish_ctx ≠ finalize_ctx → main_reachable finalize_ctx nworkers finish_ctx s →
  is_Some (main_phase_of finalize_ctx nworkers s) ∧
  (∀ x e, main_step finalize_ctx nworkers x s = Err e →
     e = Disabled ∨ (e = AssertFail ∧ misuse finalize_ctx x s)) ∧
  (∀ c fp data, running s = c → c ≠ finalize_ctx → clients s !! c = Some CProgram → fp ≠ NULL →
     ∃ s', main_run finalize_ctx nworkers [CallMain 0 fp data; Next; Next; Next; Next] s = Ok s' ∧
       running s' = c ∧ clients s' !! c = Some CProgram ∧
       main_trace s' = main_trace s ++ [EvCalled c fp data; EvRan fp data; EvReturned c]).
Proof.
  intros Hne Hr. destruct (main_reached _ _ _ _ Hne Hr) as [st Hi].
  split; [rewrite (mi_phase _ _ _ _ Hi); by eexists|]. split.
  - intros x e E. pose proof (main_step_ok _ _ s st x Hi) as Hf. by rewrite E in Hf.
  - intros c fp data Hc Hcf Hcl Hfp. pose proof (mi_running _ _ _ _ Hi) as Hru. pose proof (mi_client _ _ _ _ Hi) as Hcl'.
    assert (st = TProgram c) as ->.
    { destruct st; cbn in Hru, Hcl'; congruence. }
    destruct (call_served _ _ s c fp data Hi Hfp) as (s' & E & H' & T). exists s'. split; [done|].
    split; [apply (mi_running _ _ _ _ H')|]. split; [apply (mi_client _ _ _ _ H')|done].
Qed.

(** Context 7 calls function 50, another context runs and leaves. *)
Lemma main_ctx_calls_served_witness :
  ∃ s s', main_run 1 4 [CallMain 0 50 9; Next; Next; Next; Next; SwitchTo 8] (hclib_finalize 1 7) = Ok s ∧
    main_run 1 4 [CallMain 0 60 3; Next; Next; Next; Next] s = Ok s' ∧
    main_trace s' = [EvCalled 7 50 9; EvRan 50 9; EvReturned 7; EvCalled 8 60 3; EvRan 60 3; EvReturned 8] ∧
    ∃ s2, main_run 1 4 [Leave; Next] s' = Ok s2 ∧
      main_trace s2 = main_trace s' ++ [EvLeft 8; EvEnded [8; 1] [1; 2; 3]].
Proof.
  set (xs := [CallMain 0 50 9; Next; Next; Next; Next; SwitchTo 8]).
  destruct (main_run 1 4 xs (hclib_finalize 1 7)) as [s|] eqn:E; [|by vm_compute in E].
  assert (main_reachable 1 4 7 s) as Hr by (by exists xs).
  destruct (main_ctx_calls_served 1 4 7 s ltac:(done) Hr) as (_ & _ & H).
  destruct (H 8 60 3) as (s' & E' & _ & _ & T); [clear Hr H; vm_compute in E; by injection E as <-|done|
    clear Hr H; vm_compute in E; by injection E as <-|done|].
  exists s, s'. split; [done|]. split; [done|]. clear Hr H. vm_compute in E. injection E as <-.
  split; [rewrite T; by vm_compute|]. vm_compute in E'. injection E' as <-. eexists. split; by vm_compute.
Defined.
