(* ===== verification/CppAsync.v ===== *)
(** * The C++ interface to tasks

    [src/inc/hclib-async.h]: the templates that spawn lambdas, as code of a task
    of [Runtime].  Each copies its lambda to the heap, makes a task of the copy
    and spawns it; they differ in the locale, in the non-blocking flag, in how
    the futures are given and in whether there is a future for the result.  A
    lambda that a template calls at once, like that of [finish], is code with what
    follows it as an argument. *)

From S2P Require Import Prelude Deque Locality LocalityRun Pool Runtime RuntimeHeap RuntimeStack RuntimeStep RuntimeSafe.
From stdpp Require Import options.

(** ** Futures given as arguments *)

(** [future ? &future : NULL, future ? 1 : 0] *)
Definition one_future (future : Z) : list Z := if future =? NULL then [] else [future].

(** Each future that is not [NULL] is the next element of the array. *)
Fixpoint given_futures (fs : list Z) : list Z :=
  match fs with
  | [] => []
  | f :: fs => one_future f ++ given_futures fs
  end.

(** A vector given by its address. *)
Definition vector_futures (fs : option (list Z)) : list Z :=
  match fs with Some fs => fs | None => [] end.

(** ** Spawning *)

(** src/inc/hclib-async.h:161-166 (async) *)
Definition async (lambda : code) (k : code) : code := Cpp_async lambda [] None false k.

(** src/inc/hclib-async.h:168-173 (async_at) *)
Definition async_at (lambda : code) (locale : option Z) (k : code) : code :=
  Cpp_async lambda [] locale false k.

(** src/inc/hclib-async.h:175-182 (async_nb) *)
Definition async_nb (lambda : code) (k : code) : code := Cpp_async lambda [] None true k.

(** src/inc/hclib-async.h:184-191 (async_nb_at) *)
Definition async_nb_at (lambda : code) (locale : option Z) (k : code) : code :=
  Cpp_async lambda [] locale true k.

(** src/inc/hclib-async.h:193-200 (async_nb_await) *)
Definition async_nb_await (lambda : code) (future : Z) (k : code) : code :=
  Cpp_async lambda (one_future future) None true k.

(** The two overloads for a vector.

    src/inc/hclib-async.h:202-210 (async_nb_await) *)
Definition async_nb_await_all (lambda : code) (futures : list Z) (k : code) : code :=
  Cpp_async lambda futures None true k.

(** src/inc/hclib-async.h:241-245 (async_nb_await) *)
Definition async_nb_await_ptr (lambda : code) (futures : option (list Z)) (k : code) : code :=
  Cpp_async lambda (vector_futures futures) None true k.

(** src/inc/hclib-async.h:212-220 (async_nb_await_at) *)
Definition async_nb_await_at (lambda : code) (fut : Z) (locale : option Z) (k : code) : code :=
  Cpp_async lambda (one_future fut) locale true k.

(** src/inc/hclib-async.h:222-232 (async_nb_await_at) *)
Definition async_nb_await_all_at (lambda : code) (futures : list Z) (locale : option Z)
    (k : code) : code :=
  Cpp_async lambda futures locale true k.

(** src/inc/hclib-async.h:234-239 (async_nb_await_at) *)
Definition async_nb_await_ptr_at (lambda : code) (futures : option (list Z)) (locale : option Z)
    (k : code) : code :=
  Cpp_async lambda (vector_futures futures) locale true k.

(** src/inc/hclib-async.h:247-253 (async_await) *)
Definition async_await (lambda : code) (future : Z) (k : code) : code :=
  Cpp_async lambda (one_future future) None false k.

(** src/inc/hclib-async.h:255-272 (async_await) *)
Definition async_await2 (lambda : code) (future1 future2 : Z) (k : code) : code :=
  Cpp_async lambda (given_futures [future1; future2]) None false k.

(** src/inc/hclib-async.h:274-290 (async_await) *)
Definition async_await4 (lambda : code) (future1 future2 future3 future4 : Z) (k : code) : code :=
  Cpp_async lambda (given_futures [future1; future2; future3; future4]) None false k.

(** src/inc/hclib-async.h:292-300 (async_await) *)
Definition async_await_all (lambda : code) (futures : list Z) (k : code) : code :=
  Cpp_async lambda futures None false k.

(** src/inc/hclib-async.h:302-306 (async_await) *)
Definition async_await_ptr (lambda : code) (futures : option (list Z)) (k : code) : code :=
  Cpp_async lambda (vector_futures futures) None false k.

(** src/inc/hclib-async.h:308-316 (async_await_at) *)
Definition async_await_at (lambda : code) (future : Z) (locale : option Z) (k : code) : code :=
  Cpp_async lambda (one_future future) locale false k.

(** src/inc/hclib-async.h:318-335 (async_await_at) *)
Definition async_await2_at (lambda : code) (future1 future2 : Z) (locale : option Z) (k : code)
    : code :=
  Cpp_async lambda (given_futures [future1; future2]) locale false k.

(** src/inc/hclib-async.h:337-347 (async_await_at) *)
Definition async_await_all_at (lambda : code) (futures : list Z) (locale : option Z) (k : code)
    : code :=
  Cpp_async lambda futures locale false k.

(** ** Spawning with a future for the result *)

(** src/inc/hclib-async.h:380-398 (async_future) *)
Definition async_future (lambda : code) (k : Z → code) : code :=
  Cpp_async_future lambda [] None false k.

(** src/inc/hclib-async.h:400-419 (async_nb_future) *)
Definition async_nb_future (lambda : code) (k : Z → code) : code :=
  Cpp_async_future lambda [] None true k.

(** src/inc/hclib-async.h:422-441 (async_future_await) *)
Definition async_future_await (lambda : code) (future : Z) (k : Z → code) : code :=
  Cpp_async_future lambda (one_future future) None false k.

(** src/inc/hclib-async.h:444-456 (async_future_await) *)
Definition async_future_await_all (lambda : code) (futures : list Z) (k : Z → code) : code :=
  Cpp_async_future lambda futures None false k.

(** This one does not look whether the future is [NULL].

    src/inc/hclib-async.h:458-462 (async_nb_future_await) *)
Definition async_nb_future_await (lambda : code) (future : Z) (k : Z → code) : code :=
  Cpp_async_future lambda [future] None true k.

(** src/inc/hclib-async.h:464-477 (async_nb_future_await) *)
Definition async_nb_future_await_all (lambda : code) (futures : list Z) (k : Z → code) : code :=
  Cpp_async_future lambda futures None true k.

(** src/inc/hclib-async.h:481-501 (async_future_at_helper) *)
Definition async_future_at_helper (lambda : code) (locale : option Z) (nb : bool) (k : Z → code)
    : code :=
  Cpp_async_future lambda [] locale nb k.

(** src/inc/hclib-async.h:503-507 (async_future_at) *)
Definition async_future_at (lambda : code) (locale : option Z) (k : Z → code) : code :=
  async_future_at_helper lambda locale false k.

(** src/inc/hclib-async.h:509-513 (async_nb_future_at) *)
Definition async_nb_future_at (lambda : code) (locale : option Z) (k : Z → code) : code :=
  async_future_at_helper lambda locale true k.

(** src/inc/hclib-async.h:515-535 (async_future_await_at) *)
Definition async_future_await_at (lambda : code) (future : Z) (locale : option Z) (k : Z → code)
    : code :=
  Cpp_async_future lambda (one_future future) locale false k.

(** src/inc/hclib-async.h:537-547 (async_future_await_at) *)
Definition async_future_await_all_at (lambda : code) (futures : list Z) (locale : option Z)
    (k : Z → code) : code :=
  Cpp_async_future lambda futures locale false k.

(** ** Scopes and yields *)

(** src/inc/hclib-async.h:550-554 (finish) *)
Definition finish (lambda : code → code) (k : code) : code := Start_finish (lambda (End_finish k)).

(** src/inc/hclib-async.h:556-563 (nonblocking_finish) *)
Definition nonblocking_finish (lambda : code → code) (k : Z → code) : code :=
  Start_finish (lambda (End_finish_nonblocking k)).

(** src/inc/hclib-async.h:565-567 (yield) *)
Definition yield (k : code) : code := Yield None k.

(** src/inc/hclib-async.h:569-571 (yield_at) *)
Definition yield_at (locale : option Z) (k : code) : code := Yield locale k.

(** ** Lemmas *)

Lemma one_future_nonnull f q : q ∈ one_future f ↔ q = f ∧ q ≠ NULL.
Proof.
  unfold one_future. destruct (Z.eqb_spec f NULL) as [->|Hn].
  - split; [by intros ?%elem_of_nil|by intros [-> ?]].
  - rewrite list_elem_of_singleton. split; [intros ->; done|by intros [-> _]].
Qed.

Lemma given_futures_elem fs q : q ∈ given_futures fs ↔ q ∈ fs ∧ q ≠ NULL.
Proof.
  induction fs as [|f fs IH]; cbn.
  - split; [by intros ?%elem_of_nil|by intros [?%elem_of_nil _]].
  - rewrite elem_of_app, elem_of_cons, one_future_nonnull, IH. tauto.
Qed.

(** ** Properties *)

Section safe.
Context {S : Type} `{!TaskPool S} {EX : Externs}.
#[local] Set Default Proof Using "Type*".

(** A spawn of [fp] by one of the templates that take futures one by one. *)
Definition awaits (c : code) (fp : code) (futures : list Z) : Prop :=
  (∃ f k, futures = [f] ∧
     (c = async_await fp f k ∨ c = async_nb_await fp f k ∨
      ∃ l, c = async_await_at fp f l k ∨ c = async_nb_await_at fp f l k)) ∨
  (∃ f1 f2 k, futures = [f1; f2] ∧ (c = async_await2 fp f1 f2 k ∨ ∃ l, c = async_await2_at fp f1 f2 l k)) ∨
  (∃ f1 f2 f3 f4 k, futures = [f1; f2; f3; f4] ∧ c = async_await4 fp f1 f2 f3 f4 k).

Lemma awaits_given c fp futures :
  awaits c fp futures → ∃ l nb k, c = Cpp_async fp (given_futures futures) l nb k.
Proof.
  intros [(f & k & -> & H)|[(f1 & f2 & k & -> & H)|(f1 & f2 & f3 & f4 & k & -> & ->)]].
  - assert (given_futures [f] = one_future f) as -> by apply app_nil_r.
    destruct H as [->|[->|(l & [->| ->])]]; do 3 eexists; reflexivity.
  - destruct H as [->|(l & ->)]; do 3 eexists; reflexivity.
  - do 3 eexists; reflexivity.
Qed.

(** The task the worker has just spawned, [NULL] among the futures left out. *)
Lemma awaits_waits (p : S) n main locale s0 w c fp futures u s1 schedule s2 w2 q :
  pool_ok p → pool_tasks p = [] → reachable p n main locale s0 →
  current_ctl w s0 = Some (Run c) → awaits c fp futures →
  step w s0 = Ok (u, s1) → run schedule s1 = Ok (tt, s2) → starts w2 s2 = Some (brk s0) →
  q ∈ futures → q ≠ NULL → is_satisfied s2 q.
Proof.
  intros Hp Ht Hr Hc (l & nb & k & ->)%awaits_given H1 H2 Hst Hq Hn.
  destruct (launched_inv _ _ _ _ _ Hp Ht Hr) as [f Hi].
  destruct (async_starts_ready w s0 f fp (given_futures futures) l u s1 schedule s2 w2) as [_ H];
    [done| | |done..|].
  - eexists. split; [exact Hc|right; by exists nb, k].
  - intros r Hr'. by apply given_futures_elem in Hr' as [_ ?].
  - apply H, given_futures_elem. done.
Qed.
End safe.

(** A vector whose first future is [NULL]. *)
Definition null_first : code :=
  Promise_create (λ p, async_await_all (Return NULL) [NULL; p] (Return NULL)).

Definition null_first_launch : rt locality := launch (small_pool 1) 1 null_first None.

Definition about_to_spawn : rt locality := state_after (replicate 7 0) null_first_launch.

(** What the C++ tasks wait for.  The templates that take one, two or four
    futures leave out those that are [NULL]: the task starts only when all the
    others are satisfied.  A vector is passed on as it is, and a [NULL] at its
    front makes the task wait for nothing: in the example it starts although the
    second future was never put. *)
Theorem cpp_await_null :
  (∀ (S : Type) (TP : TaskPool S) (EX : Externs) (p : S) n main locale s0 w c fp futures u s1 schedule
     s2 w2 q,
     pool_ok p → pool_tasks p = [] → reachable p n main locale s0 →
     current_ctl w s0 = Some (Run c) → awaits c fp futures →
     step w s0 = Ok (u, s1) → run schedule s1 = Ok (tt, s2) → starts w2 s2 = Some (brk s0) →
     q ∈ futures → q ≠ NULL → is_satisfied s2 q) ∧
  (∃ schedule s0 s1 s2 q,
     reachable (small_pool 1) 1 null_first None s0 ∧
     current_ctl 0 s0 = Some (Run (async_await_all (Return NULL) [NULL; q] (Return NULL))) ∧
     step 0 s0 = Ok (tt, s1) ∧ run schedule s1 = Ok (tt, s2) ∧ starts 0 s2 = Some (brk s0) ∧
     satisfied <$> promises s2 !! q = Some 0).
Proof.
  split; [intros S TP EX p n main locale s0 w c fp futures u s1 schedule s2 w2 q; apply awaits_waits|].
  exists (replicate 6 0), about_to_spawn, (state_after [0] about_to_spawn),
    (state_after (replicate 7 0) about_to_spawn), 4.
  split; [exists (replicate 7 0); apply run_state_after; by vm_compute|].
  split; [by vm_compute|]. split; [apply step_state_after; by vm_compute|].
  split; [vm_compute; reflexivity|]. by vm_compute.
Qed.

(** The general part at a task that waits for the second of two futures, the
    first being [NULL]. *)
Definition null_left_out : code :=
  Promise_create (λ p, async_await2 (Return NULL) NULL p (Promise_put p 7 (Return NULL))).

Definition left_out_launch : rt locality := launch (small_pool 1) 1 null_left_out None.
Definition left_out_spawn : rt locality := state_after (replicate 7 0) left_out_launch.
Definition left_out_start : rt locality := state_after (replicate 15 0) left_out_launch.

Lemma cpp_await_null_witness :
  starts 0 left_out_start = Some (brk left_out_spawn) ∧ is_satisfied left_out_start 4.
Proof.
  split; [by vm_compute|].
  apply (proj1 cpp_await_null locality locality_pool no_externs (small_pool 1) 1%nat null_left_out None
    left_out_spawn 0 (async_await2 (Return NULL) NULL 4 (Promise_put 4 7 (Return NULL))) (Return NULL)
    [NULL; 4] tt (state_after [0] left_out_spawn) (replicate 7 0) left_out_start 0 4).
  - apply small_pool_ok.
  - apply small_pool_empty.
  - exists (replicate 7 0). apply run_state_after. by vm_compute.
  - by vm_compute.
  - right. left. exists NULL, 4, (Promise_put 4 7 (Return NULL)). split; [done|by left].
  - apply step_state_after. by vm_compute.
  - vm_compute. reflexivity.
  - by vm_compute.
  - right. left.
  - done.
Defined.
