(* ===== verification/RuntimeEnds.v ===== *)
(** * Every action of a worker ends

    The loops inside the calls of the runtime: the two loops of
    [register_on_all_promise_dependencies], the walk over a wait list in
    [hclib_promise_put] and the searches of the pool.  The fuel that [Runtime]
    gives them is enough in every state that a program reaches. *)

From S2P Require Import Prelude Deque Locality LocalityRun Pool Runtime RuntimeHeap RuntimeStack RuntimeStep RuntimeSafe.
From stdpp Require Import options.

(** ** Lemmas: single actions *)

Section monad.
Context {S : Type}.

Lemma M_terminates_bind {A B} (m : M S A) (k : A → M S B) s :
  terminates (m s) → (∀ a s1, m s = Ok (a, s1) → terminates (k a s1)) → terminates ((m ≫= k) s).
Proof.
  intros Hm Hk. unfold mbind, M_bind. destruct (m s) as [[a s1]|f]; [by apply Hk|].
  intros [= ->]. by apply Hm.
Qed.

Lemma get_ends {A} (m : rt S → gmap Z A) a s : terminates (get m a s).
Proof. unfold get. by destruct (m s !! a). Qed.

Lemma lift_ends {A} (r : res A) (s : rt S) : terminates r → terminates (lift r s).
Proof. intros H. destruct r as [a|f]; [done|]. intros [= ->]. by apply H. Qed.

Lemma assert_ends b (s : rt S) : terminates (assert b s).
Proof. apply lift_ends, terminates_hassert. Qed.

Lemma with_pool_ends {A} (op : S → res (A * S)) s :
  terminates (op (pool s)) → terminates (with_pool op s).
Proof.
  intros H. unfold with_pool. destruct (op (pool s)) as [[a p]|f]; [done|].
  intros [= ->]. by apply H.
Qed.

Lemma when_ends b (m : M S unit) s : terminates (m s) → terminates (when b m s).
Proof. by destruct b. Qed.
End monad.

(** Run a call through its actions; the calls that remain are left. *)
Ltac m_ends_action :=
  lazymatch goal with
  | |- terminates (Ok _) => done
  | |- terminates (get_task _ _) => apply get_ends
  | |- terminates (get_promise _ _) => apply get_ends
  | |- terminates (get_finish _ _) => apply get_ends
  | |- terminates (get_ctx _ _) => apply get_ends
  | |- terminates (get_ws _ _) => apply get_ends
  | |- terminates (get _ _ _) => apply get_ends
  | |- terminates (assert _ _) => apply assert_ends
  | |- terminates (with_pool _ _) => apply with_pool_ends
  | |- terminates (lift (array_get _ _) _) => apply lift_ends, terminates_array_get
  | |- terminates (gets _ _) => done
  | |- terminates (modify _ _) => done
  | |- terminates (mret _ _) => done
  | |- terminates (malloc _) => done
  | |- terminates (put_task _ _ _) => done
  | |- terminates (put_promise _ _ _) => done
  | |- terminates (put_finish _ _ _) => done
  | |- terminates (put_ctx _ _ _) => done
  | |- terminates (put_ws _ _ _) => done
  | |- terminates (when _ _ _) => apply when_ends
  | |- terminates ((_ ≫= _) _) =>
      let a := fresh "a" in let s := fresh "s" in let H := fresh "E" in
      apply M_terminates_bind; [|intros a s H; cbn beta; m_action H]
  | |- terminates ((if ?b then _ else _) _) => destruct b
  end.
Ltac m_ends := repeat m_ends_action; eauto with hclib.

Section ends.
Context {S : Type} `{!TaskPool S} {EX : Externs}.
#[local] Set Default Proof Using "Type*".

(** ** Lemmas: registering and scheduling *)

Lemma register_if_ends t p (s : rt S) : terminates (_register_if_promise_not_ready t p s).
Proof. unfold _register_if_promise_not_ready. m_ends. Qed.

(** Neither registering nor moving the index on changes anything else of the task. *)
Lemma register_if_false t p (s : rt S) s' :
  _register_if_promise_not_ready t p s = Ok (false, s') → s' = s.
Proof. intros (pr & _ & [(_ & -> & _)|(? & _)])%register_if_Ok; done. Qed.

Lemma set_index_step t i (s : rt S) u s' :
  set_waiting_on_index t i s = Ok (u, s') →
  ∃ tk, tasks s !! t = Some tk ∧ s' = set_tasks (<[t := set_index tk i]> (tasks s)) s.
Proof. intros H. unfold set_waiting_on_index in H. m_bind H as tk s1 Ht. m_action H. by exists tk. Qed.

Lemma set_index_ends t i (s : rt S) : terminates (set_waiting_on_index t i s).
Proof. unfold set_waiting_on_index. m_ends. Qed.
#[local] Hint Resolve register_if_ends set_index_ends : hclib.

Lemma register_inline_ends fuel t (s : rt S) :
  (∀ tk, tasks s !! t = Some tk → -1 <= waiting_on_index tk →
    MAX_NUM_WAITS - 1 - waiting_on_index tk < Z.of_nat fuel) → (0 < fuel)%nat →
  terminates (register_inline fuel t s).
Proof.
  revert s. induction fuel as [|fuel IH]; intros s Hi Hf; [lia|]. cbn [register_inline].
  apply M_terminates_bind; [m_ends|]. intros tk s1 Ht. m_action Ht. specialize (Hi tk Ht).
  destruct (Z.ltb_spec (waiting_on_index tk) (MAX_NUM_WAITS - 1)); [|done].
  apply M_terminates_bind; [m_ends|]. intros u s2 (tk0 & Ht0 & ->)%set_index_step.
  assert (tk0 = tk) as -> by congruence.
  apply M_terminates_bind; [m_ends|]. intros curr s2 Hc. m_action Hc.
  apply array_get_Ok in Hc as [Hc _].
  assert (terminates (register_inline fuel t
    (set_tasks (<[t := set_index tk (waiting_on_index tk + 1)]> (tasks s)) s))) as Hrec.
  { apply IH; [|lia]. intros tk' Ht'. cbn in Ht'. rewrite lookup_insert_eq in Ht'.
    injection Ht' as <-. cbn. lia. }
  destruct (negb _); [|done]. apply M_terminates_bind; [m_ends|].
  intros [] s2 Hr; [done|]. by apply register_if_false in Hr as ->.
Qed.

Lemma register_extra_ends fuel t extra (s : rt S) :
  (∀ tk, tasks s !! t = Some tk → MAX_NUM_WAITS - 1 <= waiting_on_index tk →
    Z.of_nat (length extra) - (waiting_on_index tk - MAX_NUM_WAITS + 1) < Z.of_nat fuel) →
  (0 < fuel)%nat → terminates (register_extra fuel t extra s).
Proof.
  revert s. induction fuel as [|fuel IH]; intros s Hi Hf; [lia|]. cbn [register_extra].
  apply M_terminates_bind; [m_ends|]. intros tk s1 Ht. m_action Ht. specialize (Hi tk Ht).
  apply M_terminates_bind; [m_ends|]. intros next s1 Hn. m_action Hn.
  apply array_get_Ok in Hn as [Hn Hlen%lookup_lt_Some]. destruct (negb _); [|done].
  apply M_terminates_bind; [m_ends|]. intros u s2 (tk0 & Ht0 & ->)%set_index_step.
  assert (tk0 = tk) as -> by congruence.
  apply M_terminates_bind; [m_ends|]. intros curr s2 Hc. m_action Hc.
  apply M_terminates_bind; [m_ends|]. intros [] s2 Hr; [done|].
  apply register_if_false in Hr as ->. apply IH; [|lia].
  intros tk' Ht'. cbn in Ht'. rewrite lookup_insert_eq in Ht'. injection Ht' as <-. cbn. lia.
Qed.

Lemma register_deps_ends t (s : rt S) : terminates (register_on_all_promise_dependencies t s).
Proof.
  unfold register_on_all_promise_dependencies.
  apply M_terminates_bind; [|intros [] s1 _; [|done]].
  { apply register_inline_ends; [|lia]. intros tk _. unfold MAX_NUM_WAITS. lia. }
  apply M_terminates_bind; [m_ends|]. intros tk s2 Ht. destruct (waiting_on_extra tk); [|done].
  apply register_extra_ends; [|lia]. intros tk' _. unfold MAX_NUM_WAITS. lia.
Qed.

Lemma rt_schedule_ends t ws (s : rt S) : terminates (rt_schedule_async t ws s).
Proof.
  unfold rt_schedule_async. apply M_terminates_bind; [m_ends|]. intros tk s1 _.
  destruct (t_locale tk); m_ends.
Qed.
#[local] Hint Resolve register_deps_ends rt_schedule_ends : hclib.

Lemma try_schedule_ends t ws (s : rt S) : terminates (try_schedule_async t ws s).
Proof. unfold try_schedule_async, is_eligible_to_schedule. m_ends. Qed.
#[local] Hint Resolve try_schedule_ends : hclib.

Lemma reschedule_ends ts ws (s : rt S) : terminates (reschedule ts ws s).
Proof. revert s. induction ts as [|t ts IH]; intros s; cbn [reschedule]; m_ends. Qed.
#[local] Hint Resolve reschedule_ends : hclib.

(** ** Lemmas: putting a promise *)

(** The walk takes one step for each task of the list. *)
Lemma wake_loop_ends fuel head ws l (s : rt S) f :
  chain (tasks s) head l → NoDup l → (∀ t, t ∈ l → f t = Woken) → heap_ok s f →
  (length l < fuel)%nat → terminates (wake_loop fuel head ws s).
Proof.
  revert head l s f. induction fuel as [|fuel IH]; intros head l s f Hc Hnd Hl Hok Hlen; [lia|].
  cbn [wake_loop]. destruct l as [|t l].
  { cbn in Hc. rewrite Hc. done. }
  destruct Hc as (-> & tk & Ht & Hc). destruct (negb _); [|done].
  apply M_terminates_bind; [m_ends|]. intros tk0 s1 Ht0. m_action Ht0.
  assert (tk0 = tk) as -> by congruence.
  apply M_terminates_bind; [m_ends|]. intros r s1 Hr.
  apply M_terminates_bind; [m_ends|]. intros u s2 Hw.
  apply NoDup_cons in Hnd as [Hn Hnd].
  destruct (wake_one_ok t ws s f tk r s1 u s2) as (Hsr & Ho & x & Hok2 & Hx);
    [done|done|done|apply Hl; by left|done|].
  apply (IH _ l s2 (<[t := x]> f)); [|done| |done|cbn in Hlen; lia].
  - eapply chain_same_next; [|done]. intros t' Ht'. rewrite Ho; [done|congruence].
  - intros t' Ht'. rewrite fn_lookup_insert_ne by congruence. apply Hl. by right.
Qed.

Lemma chain_length (ts : gmap Z hclib_task_t) head l :
  chain ts head l → NoDup l → (length l <= size ts)%nat.
Proof.
  intros Hc Hnd. rewrite <- size_dom, <- (size_list_to_set (C:=gset Z)) by done.
  apply subseteq_size. intros t. rewrite elem_of_list_to_set, elem_of_dom. clear Hnd.
  revert head Hc. induction l as [|x l IH]; intros head Hc; [by intros ?%elem_of_nil|].
  destruct Hc as (-> & tk & Ht & Hc). intros [->|Hin]%elem_of_cons; [by exists tk|by eapply IH].
Qed.

Lemma put_ends p d (s : rt S) f : heap_ok s f → terminates (hclib_promise_put p d s).
Proof.
  intros Hok. unfold hclib_promise_put. apply M_terminates_bind; [m_ends|]. intros u0 s0 H0. m_action H0.
  apply M_terminates_bind; [m_ends|]. intros pr s0 Hp. m_action Hp.
  apply M_terminates_bind; [m_ends|]. intros u1 s0 Hs. m_action Hs. apply Z.eqb_eq in Hs.
  m_ends.
  destruct (heap_promises _ _ Hok p pr Hp) as [[? _]|(_ & l & Hc & Hnd & Hl)]; [congruence|].
  apply (wake_loop_ends _ _ _ l _ (wake f p)); [exact Hc|done| |by apply (heap_ok_satisfy s f p pr)|].
  - intros t Ht. unfold wake. rewrite decide_True; [done|]. by apply Hl.
  - apply chain_length in Hc; [|done]. cbn. lia.
Qed.

Lemma check_in_ends g (s : rt S) : terminates (check_in_finish g s).
Proof. unfold check_in_finish. m_ends. Qed.

Lemma check_out_ends g (s : rt S) f : heap_ok s f → terminates (check_out_finish g s).
Proof.
  intros Hok. unfold check_out_finish. apply when_ends.
  apply M_terminates_bind; [m_ends|]. intros x s1 Hx. m_action Hx.
  destruct (hc_atomic_dec (counter x)) as [old c]. m_ends.
  by eapply put_ends, heap_ok_finishes.
Qed.
#[local] Hint Resolve check_in_ends put_ends check_out_ends : hclib.

(** ** Lemmas: spawning, scopes and stacks *)

Lemma current_ws_ends (s : rt S) : terminates (current_ws s).
Proof. unfold current_ws. m_ends. Qed.
#[local] Hint Resolve current_ws_ends : hclib.

Lemma set_scope_ends g t (s : rt S) : terminates (set_scope g t s).
Proof. unfold set_scope. m_ends. Qed.

Lemma set_stack_ends c fs (s : rt S) : terminates (set_stack c fs s).
Proof. unfold set_stack. m_ends. Qed.

Lemma new_task_ends fp (s : rt S) : terminates (new_task fp s).
Proof. unfold new_task. m_ends. Qed.

Lemma promise_init_ends p (s : rt S) : terminates (hclib_promise_init p s).
Proof. unfold hclib_promise_init. m_ends. Qed.
#[local] Hint Resolve set_scope_ends set_stack_ends new_task_ends promise_init_ends : hclib.

Lemma promise_create_ends (s : rt S) : terminates (hclib_promise_create s).
Proof. unfold hclib_promise_create. m_ends. Qed.

Lemma promise_free_ends p (s : rt S) : terminates (hclib_promise_free p s).
Proof. unfold hclib_promise_free. m_ends. Qed.

Lemma spawn_handler_ends t locale futures escaping (s : rt S) :
  terminates (spawn_handler t locale futures escaping s).
Proof. unfold spawn_handler. m_ends. Qed.
#[local] Hint Resolve promise_create_ends promise_free_ends spawn_handler_ends : hclib.

Lemma async_ends fp futures locale (s : rt S) : terminates (hclib_async fp futures locale s).
Proof. unfold hclib_async, spawn_await_at, spawn_at. m_ends. Qed.
#[local] Hint Resolve async_ends : hclib.

Lemma async_nb_ends fp locale (s : rt S) : terminates (hclib_async_nb fp locale s).
Proof. unfold hclib_async_nb, spawn_at. m_ends. Qed.

Lemma async_future_ends fp futures locale (s : rt S) :
  terminates (hclib_async_future fp futures locale s).
Proof. unfold hclib_async_future. m_ends. Qed.

Lemma await_helper_ends fp futures locale nb (s : rt S) :
  terminates (async_await_at_helper fp futures locale nb s).
Proof. unfold async_await_at_helper, spawn_await_at. m_ends. Qed.
#[local] Hint Resolve await_helper_ends : hclib.

Lemma await_future_ends fp futures locale nb (s : rt S) :
  terminates (async_future_await_at_helper fp futures locale nb s).
Proof. unfold async_future_await_at_helper. m_ends. Qed.

Lemma cell_get_ends a (s : rt S) : terminates (cell_get a s).
Proof. unfold cell_get. apply M_terminates_bind; [m_ends|]. by intros [v|] s1 _. Qed.

Lemma start_finish_ends (s : rt S) : terminates (hclib_start_finish s).
Proof. unfold hclib_start_finish. m_ends. Qed.

Lemma destroy_prev_ends (s : rt S) : terminates (destroy_prev s).
Proof. unfold destroy_prev, LiteCtx_destroy. m_ends. Qed.

Lemma ctx_swap_ends c fs next (s : rt S) : terminates (ctx_swap c fs next s).
Proof. unfold ctx_swap. m_ends. Qed.

Lemma new_ctx_ends c (s : rt S) : terminates (LiteCtx_create c s).
Proof. unfold LiteCtx_create. m_ends. Qed.
#[local] Hint Resolve async_nb_ends async_future_ends await_future_ends cell_get_ends start_finish_ends destroy_prev_ends
  ctx_swap_ends new_ctx_ends : hclib.

Lemma end_finish_exit_ends g t (s : rt S) f : heap_ok s f → terminates (end_finish_exit g t s).
Proof. intros Hok. unfold end_finish_exit, free_finish. m_ends. Qed.
#[local] Hint Resolve end_finish_exit_ends : hclib.

Lemma end_finish_nonblocking_ends (s : rt S) f :
  heap_ok s f → 0 < brk s → terminates (hclib_end_finish_nonblocking s).
Proof.
  intros Hok Hb. unfold hclib_end_finish_nonblocking, hclib_end_finish_nonblocking_helper.
  apply M_terminates_bind; [m_ends|]. intros p s1 Hp.
  apply (promise_create_kept _ f) in Hp as ((f1 & Hok1 & _) & _); [|done|done].
  apply M_terminates_bind; [|m_ends]. unfold current_ws.
  apply M_terminates_bind; [m_ends|]. intros ws s2 Hws. m_bind Hws. m_action Hws.
  apply M_terminates_bind; [m_ends|]. intros g s2 Hg. m_action Hg.
  apply M_terminates_bind; [m_ends|]. intros u s2 Hu. m_action Hu.
  apply M_terminates_bind; [m_ends|]. intros v s2 Hv. m_action Hv.
  pose proof (heap_ok_finishes _ _ (<[current_finish ws := mkFinish (parent g) (counter g) p]>
    (finishes s1)) Hok1) as Hok2.
  apply M_terminates_bind; [by eapply check_out_ends|]. intros w s2 Hc.
  apply (check_out_kept _ _ f1) in Hc as (f3 & Hok3 & _); [|done].
  apply M_terminates_bind; [by eapply check_out_ends|]. intros x s3 _. m_ends.
Qed.
#[local] Hint Resolve end_finish_nonblocking_ends : hclib.

(** ** Lemmas: blocking and finding work *)

Lemma execute_ends t fs (s : rt S) : terminates (execute_task t fs s).
Proof.
  unfold execute_task. do 2 (apply M_terminates_bind; [m_ends|intros ? ? _]).
  destruct (t_fp _); m_ends.
Qed.

Lemma read_flag_ends flag (s : rt S) : terminates (read_flag flag s).
Proof. destruct flag; cbn [read_flag]; m_ends. Qed.

Lemma run_or_return_ends t fresh g fs (s : rt S) : terminates (run_or_return t fresh g fs s).
Proof. unfold run_or_return. m_ends. Qed.
#[local] Hint Resolve execute_ends read_flag_ends run_or_return_ends : hclib.

Lemma find_ends ws fresh flag g stealing fs (s : rt S) :
  terminates (find_and_run_task ws fresh flag g stealing fs s).
Proof.
  unfold find_and_run_task. destruct stealing; [|m_ends].
  apply M_terminates_bind; [m_ends|intros v s1 _]. destruct (v =? _); [m_ends|].
  apply M_terminates_bind; [m_ends|intros [|t ts] s2 _]; m_ends.
Qed.

Lemma yield_loop_ends g t locale k fs (s : rt S) : terminates (yield_loop g t locale k fs s).
Proof.
  unfold yield_loop, yield_find, yield_exit. apply M_terminates_bind; [m_ends|intros ws s1 _].
  apply M_terminates_bind; [|intros; m_ends].
  apply M_terminates_bind; [m_ends|intros r s2 _]. destruct (r =? NULL); [|m_ends].
  apply M_terminates_bind; [m_ends|intros [|x xs] s3 _]; m_ends.
Qed.
#[local] Hint Resolve find_ends yield_loop_ends : hclib.

Lemma help_finish_ends ws g t k fs (s : rt S) f :
  heap_ok s f → terminates (help_finish ws g t k fs s).
Proof. intros Hok. unfold help_finish. m_ends. Qed.

Lemma help_finish_ctx_ends g t (s : rt S) f :
  heap_ok s f → 0 < brk s → terminates (_help_finish_ctx g t s).
Proof.
  intros Hok Hb. unfold _help_finish_ctx, spawn_escaping.
  apply M_terminates_bind; [m_ends|]. intros u s1 H1. m_action H1. unfold current_ws.
  apply M_terminates_bind; [m_ends|]. intros ws s1 Hws. m_bind Hws. m_action Hws.
  apply M_terminates_bind; [m_ends|]. intros x s1 Hx. m_action Hx.
  apply M_terminates_bind; [m_ends|]. intros tk s1 (-> & ->)%new_task_Ok.
  apply M_terminates_bind; [m_ends|]. intros y s1 Hy. m_action Hy.
  apply M_terminates_bind; [m_ends|]. intros v s1 Hs.
  eapply (new_spawn_kept _ false _ _ _ s f) in Hs as ((f1 & Hok1 & _) & _); [|done|done]. m_ends.
Qed.
#[local] Hint Resolve help_finish_ends help_finish_ctx_ends : hclib.

Lemma run_code_ends c fs (s : rt S) f :
  heap_ok s f → 0 < brk s → c ≠ Abort OutOfFuel → terminates (run_code c fs s).
Proof.
  intros Hok Hb Hc. destruct c; cbn [run_code]; unfold hclib_end_finish,
    cell_new, cell_set, cell_free, hclib_get_current_worker, hclib_future_is_satisfied, hclib_future_get, hclib_future_wait, hclib_yield; try (m_ends; fail).
  intros [= ->]. by apply Hc.
Qed.

Lemma return_to_ends v fs (s : rt S) f : heap_ok s f → terminates (return_to v fs s).
Proof.
  intros Hok. destruct fs as [|[] fs]; cbn [return_to]; unfold execute_task_exit, free_task,
    core_work_loop_end, help_finish_swap, future_wait_swap, _hclib_finalize_ctx, hclib_signal_join;
    m_ends.
Qed.

Lemma step_ends w (s : rt S) f :
  inv s f → current_ctl w s ≠ Some (Run (Abort OutOfFuel)) → terminates (step w s).
Proof.
  intros Hi0 Hne. destruct (inv_self s f w Hi0) as [Hi _].
  pose proof (inv_heap _ _ Hi) as Hok. pose proof (inv_brk _ _ Hi) as Hb.
  unfold step. apply M_terminates_bind; [done|]. intros u s1 H. m_action H. unfold current_ws.
  set (s1 := set_self w s) in *.
  apply M_terminates_bind; [m_ends|]. intros ws s2 H. m_bind H. m_action H.
  apply M_terminates_bind; [m_ends|]. intros x s2 Hx. m_action Hx.
  assert (ctl x ≠ Run (Abort OutOfFuel)) as Hc.
  { intros E. apply Hne. unfold current_ctl. cbn in H, Hx. rewrite H. cbn. by rewrite Hx, <- E. }
  pose proof (stacks_ctx _ _ (inv_stacks _ _ Hi) _ _ Hx) as [Hs _ _ _].
  destruct (ctl x); cbn [run_stack shape] in *; unfold core_work_loop, future_wait_loop,
    future_wait_exit, yield_exit, _help_wait, yield_helper, spawn_escaping, spawn_escaping_at;
    m_ends; try done.
  - apply run_code_ends with (f := f); [done|done|congruence].
  - by eapply return_to_ends.
Qed.

(** ** Every action ends *)

(** C15: the calls of the runtime end. In every state that a program reaches,
    whatever the program and the interleaving, the next action of any worker
    ends: registering a task on its futures, walking the wait list of a promise
    that is put (no list is cyclic or longer than the tasks in memory) and
    searching the queues all come to their end, with the next state or with a
    fault of the C code. *)
Theorem actions_end (p : S) n main locale s w :
  pool_ok p → pool_tasks p = [] → reachable p n main locale s →
  current_ctl w s ≠ Some (Run (Abort OutOfFuel)) →
  (∃ s', step w s = Ok (tt, s')) ∨ (∃ f, step w s = Err f ∧ f ≠ OutOfFuel).
Proof.
  intros Hp Ht Hs Hc. destruct (launched_inv _ _ _ _ _ Hp Ht Hs) as [f Hi].
  pose proof (step_ends w s f Hi Hc) as He. destruct (step w s) as [[[] s']|e]; [left; by exists s'|].
  right. exists e. split; [done|]. intros ->. by apply He.
Qed.
End ends.

(** The task waits for the first of its two futures, and worker 0 is about to put
    it. *)
Definition woken_state : rt locality := state_after [0] spawned_state.

Lemma actions_end_witness :
  current_ctl 0 woken_state = Some (Run (Promise_put 5 8 (Return NULL))) ∧
  ((∃ s', step 0 woken_state = Ok (tt, s')) ∨ (∃ f, step 0 woken_state = Err f ∧ f ≠ OutOfFuel)).
Proof.
  split; [by vm_compute|].
  apply (actions_end (small_pool 2) 2 two_futures None);
    [apply small_pool_ok|apply small_pool_empty| |by vm_compute].
  exists (replicate 10 0). vm_compute. reflexivity.
Defined.
