(* ===== verification/RuntimeOwner.v ===== *)
(** * Who owns a stack

    A blocked context is left for another and resumed by a task, possibly on
    another worker, and the context that resumes it is destroyed.  Every context
    has one owner at a time: the worker that runs it, the context that was swapped
    in for it, the task that will resume it, or the context that will destroy it.
    So no stack is ever run by two workers or resumed twice, and no stack is
    destroyed while it can still run. *)

From S2P Require Import Prelude Deque Locality LocalityRun Pool Runtime RuntimeHeap RuntimeStack RuntimeStep RuntimeSafe RuntimeMoves.
From stdpp Require Import options.

Inductive owner :=
  | Worker (w : Z)
  | Helper (ctx : Z)
  | Task (t : Z)
  | Dead (ctx : Z)
  | Gone.

#[export] Instance owner_eq_dec : EqDecision owner.
Proof. solve_decision. Defined.

Section owner.
Context {S : Type} `{!TaskPool S} {EX : Externs}.
#[local] Set Default Proof Using "Type*".

Record owned (s : rt S) (f : Z → place) (own : Z → owner) : Prop := {
  own_curr : ∀ w ws, workers s !! w = Some ws → own (curr_ctx ws) = Worker w;
  own_helper : ∀ h x, ctxs s !! h = Some x → helper (ctl x) →
    own (prev x) = Helper h ∧ ∃ w, own h = Worker w;
  own_task : ∀ t tk c, tasks s !! t = Some tk → t_fp tk = Finish_ctx_resume c →
    unstarted (f t) = true → own c = Task t;
  own_back : ∀ w ws x, workers s !! w = Some ws → ctxs s !! curr_ctx ws = Some x →
    resumed (ctl x) → own (prev x) = Dead (curr_ctx ws);
  own_live : ∀ c, own c ≠ Gone → is_Some (ctxs s !! c)
}.

(** ** Lemmas: what stays *)

Lemma curr_same (s s' : rt S) w ws' :
  curr_ctx <$> workers s' = curr_ctx <$> workers s → workers s' !! w = Some ws' →
  ∃ ws, workers s !! w = Some ws ∧ curr_ctx ws' = curr_ctx ws.
Proof.
  intros E H. assert ((curr_ctx <$> workers s') !! w = Some (curr_ctx ws')) as E2 by (by rewrite lookup_fmap, H).
  rewrite E, lookup_fmap_Some in E2. destruct E2 as (ws & <- & Hws). by exists ws.
Qed.

(** A task of [s'] that resumes a context and has not started was one of [s]. *)
Lemma resume_task_old P s f s' f' t tk c :
  functions_kept P s s' → (∀ t c, ¬ P t (Finish_ctx_resume c)) → inv s f →
  (∀ t, unstarted (f' t) = true → unstarted (f t) = true ∨ brk s <= t) →
  tasks s' !! t = Some tk → t_fp tk = Finish_ctx_resume c → unstarted (f' t) = true →
  ∃ tk0, tasks s !! t = Some tk0 ∧ t_fp tk0 = Finish_ctx_resume c ∧ unstarted (f t) = true.
Proof.
  intros [_ _ N] HP Hi Hl Ht Hfp Hu. destruct (N t tk Ht) as [(tk0 & H0 & E)|[_ Hn]].
  2: { rewrite Hfp in Hn. by destruct (HP t c). }
  exists tk0. split; [done|]. split; [congruence|].
  destruct (Hl t Hu) as [|Hb]; [done|].
  pose proof (heap_bounds _ _ (inv_heap _ _ Hi) t ltac:(by rewrite H0)). lia.
Qed.

Lemma no_resume_not t c : ¬ no_resume t (Finish_ctx_resume c).
Proof. intros H. by apply (H c). Qed.

(** A stack goes on, and no other context changes. *)
Lemma owned_on s f c0 x0 c fs s' f' own :
  owned s f own → ctxs s !! c0 = Some x0 → ¬ helper c → ¬ resumed c →
  ctxs s' = <[c0 := mkCtx c fs (prev x0)]> (ctxs s) →
  curr_ctx <$> workers s' = curr_ctx <$> workers s →
  (∀ t tk c, tasks s' !! t = Some tk → t_fp tk = Finish_ctx_resume c → unstarted (f' t) = true → own c = Task t) →
  owned s' f' own.
Proof.
  intros Ho Hx Hh Hr Ec Ew Ht. split; [| |done| |].
  - intros w' ws' H. destruct (curr_same _ _ _ _ Ew H) as (ws & Hws & ->). by apply Ho.
  - intros h x. rewrite Ec. destruct (decide (h = c0)) as [->|].
    + rewrite lookup_insert_eq. by intros [= <-].
    + rewrite lookup_insert_ne by done. apply Ho.
  - intros w' ws' x H. destruct (curr_same _ _ _ _ Ew H) as (ws & Hws & ->). rewrite Ec.
    destruct (decide (curr_ctx ws = c0)) as [->|].
    + rewrite lookup_insert_eq. by intros [= <-].
    + rewrite lookup_insert_ne by done. by apply (own_back _ _ _ Ho w').
  - intros c1 H. rewrite Ec, lookup_insert_is_Some. destruct (decide (c0 = c1)); [by left|right].
    split; [done|]. by apply Ho.
Qed.

(** The owner of one context changes. *)
Lemma owner_insert (own : Z → owner) c o c1 o1 :
  own c1 = o1 → own c ≠ o1 → (<[c := o]> own) c1 = o1.
Proof. intros H Hn. rewrite fn_lookup_insert_ne; [done|]. by intros ->. Qed.

(** A helper makes the task that resumes the context before it. *)
Lemma owned_helper s f c0 x0 c fs s' f' own t :
  inv s f → later s f s' f' → owned s f own → ctxs s !! c0 = Some x0 → helper (ctl x0) →
  ¬ helper c → ¬ resumed c →
  ctxs s' = <[c0 := mkCtx c fs (prev x0)]> (ctxs s) →
  curr_ctx <$> workers s' = curr_ctx <$> workers s → brk s <= t →
  functions_kept (λ t' fp, t' = t ∧ fp = Finish_ctx_resume (prev x0)) s s' →
  owned s' f' (<[prev x0 := Task t]> own).
Proof.
  intros Hi Hl Ho Hx Hh Hh' Hr Ec Ew Hb HF. destruct (own_helper _ _ _ Ho c0 x0 Hx Hh) as [Ep [w0 E0]].
  assert (∀ c1 o, own c1 = o → o ≠ Helper c0 → (<[prev x0 := Task t]> own) c1 = o) as Hup.
  { intros c1 o H Hn. apply owner_insert; congruence. }
  split.
  - intros w' ws' H. destruct (curr_same _ _ _ _ Ew H) as (ws & Hws & ->).
    apply Hup; [by apply Ho|done].
  - intros h x. rewrite Ec. destruct (decide (h = c0)) as [->|Hne].
    + rewrite lookup_insert_eq. by intros [= <-].
    + rewrite lookup_insert_ne by done. intros H1 H2. destruct (own_helper _ _ _ Ho h x H1 H2) as [E1 [w E2]].
      split; [apply Hup; [done|congruence]|]. exists w. by apply Hup.
  - intros t' tk c1 Ht' Hfp Hu. destruct HF as [_ _ N]. destruct (N t' tk Ht') as [(tk0 & H0 & E)|[Hn [-> E]]].
    + apply Hup; [|done]. apply (own_task _ _ _ Ho t' tk0); [done|congruence|].
      destruct (later_unstarted _ _ _ _ Hl t' Hu) as [|Hb']; [done|].
      pose proof (heap_bounds _ _ (inv_heap _ _ Hi) t' ltac:(by rewrite H0)). lia.
    + assert (c1 = prev x0) as -> by congruence. by rewrite fn_lookup_insert.
  - intros w' ws' x H. destruct (curr_same _ _ _ _ Ew H) as (ws & Hws & ->). rewrite Ec.
    destruct (decide (curr_ctx ws = c0)) as [->|].
    + rewrite lookup_insert_eq. by intros [= <-].
    + rewrite lookup_insert_ne by done. intros H1 H2. apply Hup; [by apply (own_back _ _ _ Ho w')|done].
  - intros c1 H. rewrite Ec, lookup_insert_is_Some. destruct (decide (c0 = c1)); [by left|right].
    split; [done|]. apply (own_live _ _ _ Ho). destruct (decide (c1 = prev x0)) as [->|]; [by rewrite Ep|].
    by rewrite fn_lookup_insert_ne in H.
Qed.

(** The context left for good is destroyed. *)
Lemma owned_back s f w ws x0 c fs s' f' own :
  owned s f own → workers s !! w = Some ws → ctxs s !! curr_ctx ws = Some x0 → resumed (ctl x0) →
  ¬ helper c → ¬ resumed c →
  ctxs s' = <[curr_ctx ws := mkCtx c fs (prev x0)]> (delete (prev x0) (ctxs s)) →
  curr_ctx <$> workers s' = curr_ctx <$> workers s →
  (∀ t tk c, tasks s' !! t = Some tk → t_fp tk = Finish_ctx_resume c → unstarted (f' t) = true → own c = Task t) →
  owned s' f' (<[prev x0 := Gone]> own).
Proof.
  intros Ho Hws Hx Hr Hh' Hr' Ec Ew Ht. pose proof (own_back _ _ _ Ho w ws x0 Hws Hx Hr) as Ep.
  assert (∀ c1 o, own c1 = o → o ≠ Dead (curr_ctx ws) → (<[prev x0 := Gone]> own) c1 = o) as Hup.
  { intros c1 o H Hn. apply owner_insert; congruence. }
  split.
  - intros w' ws' H. destruct (curr_same _ _ _ _ Ew H) as (ws1 & Hws1 & ->).
    apply Hup; [by apply Ho|done].
  - intros h x. rewrite Ec. destruct (decide (h = curr_ctx ws)) as [->|Hne].
    + rewrite lookup_insert_eq. by intros [= <-].
    + rewrite lookup_insert_ne by done. intros [_ H1]%lookup_delete_Some H2.
      destruct (own_helper _ _ _ Ho h x H1 H2) as [E1 [w1 E2]].
      split; [by apply Hup|]. exists w1. by apply Hup.
  - intros t tk c1 H1 H2 H3. apply Hup; [by eapply Ht|done].
  - intros w' ws' x H. destruct (curr_same _ _ _ _ Ew H) as (ws1 & Hws1 & ->). rewrite Ec.
    destruct (decide (curr_ctx ws1 = curr_ctx ws)) as [->|Hne].
    + rewrite lookup_insert_eq. by intros [= <-].
    + rewrite lookup_insert_ne by done. intros [_ H1]%lookup_delete_Some H2.
      apply Hup; [by apply (own_back _ _ _ Ho w')|congruence].
  - intros c1 H. rewrite Ec, lookup_insert_is_Some. destruct (decide (curr_ctx ws = c1)); [by left|right].
    split; [done|]. destruct (decide (c1 = prev x0)) as [->|Hne].
    + by rewrite fn_lookup_insert in H.
    + rewrite fn_lookup_insert_ne in H by done. rewrite lookup_delete_ne by done. by apply Ho.
Qed.

(** The worker leaves its context [c0] for [c2], whose owner it was not: [c0] gets
    the owner [o]. *)
Lemma owned_swap s f w ws x0 c1 fs1 c2 c3 fs3 s' f' own o :
  owned s f own → workers s !! w = Some ws → ctxs s !! curr_ctx ws = Some x0 → c2 ≠ curr_ctx ws →
  (∀ w', own c2 ≠ Worker w') → (∀ h, own c2 ≠ Helper h) → (∀ r, own c2 ≠ Dead r) →
  ¬ helper c1 →
  ctxs s' = <[c2 := mkCtx c3 fs3 (curr_ctx ws)]> (<[curr_ctx ws := mkCtx c1 fs1 (prev x0)]> (ctxs s)) →
  (∀ w', w' ≠ w → workers s' !! w' = workers s !! w') → curr_ctx <$> workers s' !! w = Some c2 →
  (helper c3 → o = Helper c2) → (resumed c3 → o = Dead c2) → o ≠ Gone →
  (∀ t tk c, tasks s' !! t = Some tk → t_fp tk = Finish_ctx_resume c → unstarted (f' t) = true →
     own c = Task t ∧ c ≠ c2) →
  owned s' f' (<[c2 := Worker w]> (<[curr_ctx ws := o]> own)).
Proof.
  intros Ho Hws Hx Hne Hn1 Hn2 Hn3 Hh1 Ec Eo Ew Hh3 Hr3 Hgone Ht.
  pose proof (own_curr _ _ _ Ho w ws Hws) as E0. set (c0 := curr_ctx ws) in *.
  assert (∀ c o1, own c = o1 → o1 ≠ own c2 → o1 ≠ Worker w → (<[c2 := Worker w]> (<[c0 := o]> own)) c = o1) as Hup.
  { intros c o1 <- Hc2 Hc0. rewrite !fn_lookup_insert_ne; [done|congruence|congruence]. }
  split.
  - intros w' ws' H. destruct (decide (w' = w)) as [->|Hw].
    + rewrite H in Ew. injection Ew as ->. by rewrite fn_lookup_insert.
    + rewrite Eo in H by done. apply Hup; [by apply Ho|intros E; by apply (Hn1 w')|congruence].
  - intros h x. rewrite Ec. destruct (decide (h = c2)) as [->|Hh2].
    { rewrite lookup_insert_eq. intros [= <-] H. cbn in H. cbn.
      split; [|exists w; by rewrite fn_lookup_insert].
      rewrite fn_lookup_insert_ne, fn_lookup_insert by done. by apply Hh3. }
    rewrite lookup_insert_ne by done. destruct (decide (h = c0)) as [->|Hh0].
    { rewrite lookup_insert_eq. by intros [= <-]. }
    rewrite lookup_insert_ne by done. intros H1 H2. destruct (own_helper _ _ _ Ho h x H1 H2) as [E1 [w1 E2]].
    split; [apply Hup; [done|intros E; by apply (Hn2 h)|done]|]. exists w1.
    by rewrite !fn_lookup_insert_ne.
  - intros t tk c H1 H2 H3. destruct (Ht t tk c H1 H2 H3) as [E Hc]. rewrite !fn_lookup_insert_ne; [done|congruence..].
  - intros w' ws' x H. destruct (decide (w' = w)) as [->|Hw].
    + rewrite H in Ew. injection Ew as ->. rewrite Ec, lookup_insert_eq. intros [= <-] Hr. cbn in Hr. cbn.
      rewrite fn_lookup_insert_ne, fn_lookup_insert by done. by apply Hr3.
    + rewrite Eo in H by done. pose proof (own_curr _ _ _ Ho w' ws' H) as E1.
      assert (curr_ctx ws' ≠ c2 ∧ curr_ctx ws' ≠ c0) as [H2 H3].
      { split; intros E; rewrite E in E1; [by apply (Hn1 w')|congruence]. }
      rewrite Ec, !lookup_insert_ne by done. intros H4 H5.
      apply Hup; [by apply (own_back _ _ _ Ho w')|intros E; by apply (Hn3 (curr_ctx ws'))|done].
  - intros c H. rewrite Ec, !lookup_insert_is_Some. destruct (decide (c2 = c)); [by left|right; split; [done|]].
    destruct (decide (c0 = c)); [by left|right; split; [done|]].
    rewrite !fn_lookup_insert_ne in H by done. by apply Ho.
Qed.

(** ** Every action keeps it *)

Lemma helper_not_resumed c : helper c → ¬ resumed c.
Proof. intros Hh Hr. by destruct c. Qed.

Lemma owned_action w s f ws x0 s' f' own :
  inv s f → later s f s' f' → (∀ t, ctl x0 = Exec t → unstarted (f' t) = false) →
  workers s !! w = Some ws → ctxs s !! curr_ctx ws = Some x0 →
  action w s (curr_ctx ws) x0 s' → owned s f own → ∃ own', owned s' f' own'.
Proof.
  intros Hi Hl Hst Hws Hx [Hturn _ Hoth _] Ho.
  assert (∀ s2, functions_kept no_resume s s2 → ∀ t tk c, tasks s2 !! t = Some tk →
    t_fp tk = Finish_ctx_resume c → unstarted (f' t) = true → own c = Task t) as Hold.
  { intros s2 HF t tk c H1 H2 H3.
    destruct (resume_task_old _ _ _ _ _ _ _ _ HF no_resume_not Hi (later_unstarted _ _ _ _ Hl) H1 H2 H3)
      as (tk0 & H4 & H5 & H6). by eapply Ho. }
  destruct Hturn as [c fs _ _ Hh Hr Ec Ew HF|n cn c fs ws' Hg Hh Hh' Hcn Hn Ec Hws' Hcur HF
    |c fs t _ Hh Hh' Hr Ec Ew Ht HF|t tk c y ws' fs Hctl Ht Hfp Hfs Hy Ec Hws' Hcur HF
    |c fs _ Hr Hh Hr' Hp Ec Hne Ew HF].
  - exists own. eapply owned_on; [done..|]. destruct HF as [HF|(v & t & g & r & s2 & _ & _ & HF & Eb & Et)].
    + by apply Hold.
    + intros t' tk c' H1. rewrite Et in H1. apply lookup_delete_Some in H1 as [_ H1]. by apply (Hold s2 HF t' tk).
  - assert (own n = Gone) as En.
    { destruct (decide (own n = Gone)) as [|Hnn]; [done|]. apply Ho in Hnn.
      apply (stacks_bounds _ _ (inv_stacks _ _ Hi)) in Hnn. lia. }
    assert (n ≠ curr_ctx ws) as Hne.
    { intros ->. by rewrite (own_curr _ _ _ Ho w ws Hws) in En. }
    exists (<[n := Worker w]> (<[curr_ctx ws := Helper n]> own)).
    eapply (owned_swap s f w ws x0 c fs n cn []); rewrite ?En; try done.
    + intros H. by destruct (helper_not_resumed c).
    + by rewrite Hws', <- Hcur.
    + intros H. by apply helper_not_resumed in Hcn.
    + intros t tk c1 H1 H2 H3. pose proof (Hold s' HF t tk c1 H1 H2 H3) as E. split; [done|]. congruence.
  - eexists. by eapply owned_helper.
  - assert (own c = Task t) as En.
    { eapply (own_task _ _ _ Ho); [done..|].
      destruct (ready_in s f (curr_ctx ws) x0 t Hi Hx) as (E & _); [by rewrite Hctl|by rewrite E]. }
    assert (c ≠ curr_ctx ws) as Hne.
    { intros ->. by rewrite (own_curr _ _ _ Ho w ws Hws) in En. }
    rewrite lookup_insert_ne in Hy by done.
    exists (<[c := Worker w]> (<[curr_ctx ws := Dead c]> own)).
    eapply (owned_swap s f w ws x0 Abandoned fs c (ctl y) (frames y)); rewrite ?En; try done.
    + by intros [].
    + by rewrite Hws', <- Hcur.
    + intros H. destruct (own_helper _ _ _ Ho c y Hy H) as [_ [w' E]]. congruence.
    + intros t' tk' c1 H1 H2 H3. pose proof (Hold s' HF t' tk' c1 H1 H2 H3) as E. split; [done|].
      intros ->. rewrite En in E. injection E as <-. by rewrite (Hst t Hctl) in H3.
  - eexists. eapply owned_back; try done. by apply Hold.
Qed.

Lemma step_owned w s f u s' own :
  step w s = Ok (u, s') → inv s f → owned s f own →
  ∃ f' own', inv s' f' ∧ later s f s' f' ∧ owned s' f' own'.
Proof.
  intros H Hi Ho. destruct (step_action _ _ _ _ _ H Hi) as (ws & x0 & Hws & Hx & Ha).
  destruct (step_acted _ _ _ _ _ H Hi) as (f' & Hi' & Hl & Hst).
  destruct (owned_action w s f ws x0 s' f' own) as [own' Ho']; try done; [|by exists f', own'].
  intros t Ht. apply Hst. unfold starts, current_ctl. rewrite Hws. cbn. by rewrite Hx; cbn; rewrite Ht.
Qed.

(** ** Runs *)

Lemma launch_owned (p : S) n main locale :
  owned (launch p n main locale) (λ _, Absent)
    (λ c, if decide (0 < c <= Z.of_nat n) then Worker (c - 1) else Gone).
Proof.
  assert (∀ c x, ctxs (launch p n main locale) !! c = Some x → ¬ helper (ctl x) ∧ ¬ resumed (ctl x)) as Hc.
  { cbn. intros c x H%elem_of_list_to_map_2. apply list_elem_of_fmap in H as (w & [= -> ->] & _).
    destruct (w =? 0); split; by intros []. }
  split.
  - cbn. intros w ws H%elem_of_list_to_map_2. apply list_elem_of_fmap in H as (w' & [= -> ->] & H).
    apply worker_ids_elem in H. cbn. rewrite decide_True by lia. f_equal. lia.
  - intros h x H1 H2. by destruct (Hc h x H1).
  - intros t tk c H. cbn in H. by rewrite lookup_empty in H.
  - intros w ws x _ H1 H2. by destruct (Hc _ x H1).
  - intros c. case_decide as Hd; [|done]. intros _. cbn.
    assert ((c, if c - 1 =? 0 then mkCtx (Run (launch_code main locale)) [F_finalize] NULL
      else mkCtx Core_loop [] NULL) ∈ (λ w, (w + 1, if w =? 0 then mkCtx (Run (launch_code main locale)) [F_finalize] NULL
      else mkCtx Core_loop [] NULL)) <$> worker_ids n) as H.
    { apply list_elem_of_fmap. exists (c - 1). split; [f_equal; lia|]. apply worker_ids_elem. lia. }
    eexists. apply elem_of_list_to_map_1; [|exact H]. rewrite <- list_fmap_compose.
    assert (Inj (=) (=) (λ w, w + 1)) by (intros x y E; lia).
    apply (NoDup_fmap_2 (λ w, w + 1)), NoDup_seqZ.
Qed.

Lemma run_owned schedule s f u s' own :
  run schedule s = Ok (u, s') → inv s f → owned s f own → ∃ f' own', inv s' f' ∧ owned s' f' own'.
Proof.
  revert s f own. induction schedule as [|w schedule IH]; intros s f own H Hi Ho.
  - injection H as _ <-. by exists f, own.
  - apply run_cons in H as (v & s1 & H1 & H).
    destruct (step_owned _ _ _ _ _ _ H1 Hi Ho) as (f1 & own1 & Hi1 & _ & Ho1). by eapply IH.
Qed.

Lemma launched_owned (p : S) n main locale s :
  pool_ok p → pool_tasks p = [] → reachable p n main locale s → ∃ f own, inv s f ∧ owned s f own.
Proof.
  intros Hp Ht [schedule H]. eapply run_owned; [exact H|by apply launch_inv|apply launch_owned].
Qed.

(** ** The property *)

(** Worker [w] is about to resume context [c]. *)
Definition about_to_resume (w : Z) (s : rt S) (c : Z) : Prop :=
  ∃ t tk, starts w s = Some t ∧ tasks s !! t = Some tk ∧ t_fp tk = Finish_ctx_resume c.

(** Worker [w] is about to destroy context [c]. *)
Definition about_to_destroy (w : Z) (s : rt S) (c : Z) : Prop :=
  ∃ ws x, workers s !! w = Some ws ∧ ctxs s !! curr_ctx ws = Some x ∧ resumed (ctl x) ∧ prev x = c.

Lemma resume_owner w s f own c :
  inv s f → owned s f own → about_to_resume w s c → ∃ t, starts w s = Some t ∧ own c = Task t.
Proof.
  intros Hi Ho (t & tk & Hst & Ht & Hfp). exists t. split; [done|]. eapply Ho; [done..|].
  by eapply starts_ready.
Qed.

Lemma destroy_owner w s f own c :
  owned s f own → about_to_destroy w s c →
  ∃ ws, workers s !! w = Some ws ∧ own c = Dead (curr_ctx ws).
Proof. intros Ho (ws & x & Hws & Hx & Hr & <-). exists ws. split; [done|]. by eapply Ho. Qed.

Lemma starts_worker w s f t :
  inv s f → starts w s = Some t → ∃ ws, workers s !! w = Some ws ∧ f t = Ready (curr_ctx ws).
Proof.
  intros Hi H. unfold starts in H. destruct (current_ctl w s) as [c|] eqn:Hcc; [|done].
  destruct (current_ctl_Some _ _ _ Hcc) as (ws & x & Hws & Hx & Hc). destruct c; try done.
  injection H as ->. exists ws. split; [done|]. apply (ready_in s f (curr_ctx ws) x t Hi Hx). by rewrite Hc.
Qed.

(** C10: no stack is shared.  Whatever the program and however the workers
    interleave, every worker runs a context that is in memory and that no other
    worker runs; a context that a task is about to resume is in memory and run by
    no worker, and no two workers are about to resume the same one; a context that
    is about to be destroyed is in memory, and no worker runs it, resumes it or
    destroys it as well. *)
Theorem contexts_exclusive (p : S) n main locale s :
  pool_ok p → pool_tasks p = [] → reachable p n main locale s →
  (∀ w ws, workers s !! w = Some ws → is_Some (ctxs s !! curr_ctx ws)) ∧
  (∀ w1 w2 ws1 ws2, workers s !! w1 = Some ws1 → workers s !! w2 = Some ws2 →
     curr_ctx ws1 = curr_ctx ws2 → w1 = w2) ∧
  (∀ w c, about_to_resume w s c ∨ about_to_destroy w s c →
     is_Some (ctxs s !! c) ∧ ∀ w' ws, workers s !! w' = Some ws → curr_ctx ws ≠ c) ∧
  (∀ w1 w2 c, about_to_resume w1 s c → about_to_resume w2 s c → w1 = w2) ∧
  (∀ w1 w2 c, about_to_destroy w1 s c → about_to_destroy w2 s c → w1 = w2) ∧
  (∀ w1 w2 c, about_to_destroy w1 s c → ¬ about_to_resume w2 s c).
Proof.
  intros Hp Ht Hr. destruct (launched_owned _ _ _ _ _ Hp Ht Hr) as (f & own & Hi & Ho).
  assert (∀ w1 w2 ws1 ws2, workers s !! w1 = Some ws1 → workers s !! w2 = Some ws2 →
    curr_ctx ws1 = curr_ctx ws2 → w1 = w2) as Hinj.
  { intros w1 w2 ws1 ws2 H1 H2 E. apply (own_curr _ _ _ Ho) in H1, H2. congruence. }
  split; [|split; [exact Hinj|split; [|split; [|split]]]].
  - intros w ws H. apply (own_live _ _ _ Ho). by rewrite (own_curr _ _ _ Ho w ws H).
  - intros w c [H|H].
    + destruct (resume_owner _ _ _ _ _ Hi Ho H) as (t & _ & E). split; [apply (own_live _ _ _ Ho); congruence|].
      intros w' ws Hws <-. apply (own_curr _ _ _ Ho) in Hws. congruence.
    + destruct (destroy_owner _ _ _ _ _ Ho H) as (ws0 & _ & E). split; [apply (own_live _ _ _ Ho); congruence|].
      intros w' ws Hws <-. apply (own_curr _ _ _ Ho) in Hws. congruence.
  - intros w1 w2 c (t1 & S1 & E1)%(resume_owner _ _ _ _ _ Hi Ho) (t2 & S2 & E2)%(resume_owner _ _ _ _ _ Hi Ho).
    assert (t2 = t1) as -> by congruence.
    destruct (starts_worker _ _ _ _ Hi S1) as (ws1 & H1 & F1), (starts_worker _ _ _ _ Hi S2) as (ws2 & H2 & F2).
    eapply Hinj; [done..|]. congruence.
  - intros w1 w2 c (ws1 & H1 & E1)%(destroy_owner _ _ _ _ _ Ho) (ws2 & H2 & E2)%(destroy_owner _ _ _ _ _ Ho).
    eapply Hinj; [done..|]. congruence.
  - intros w1 w2 c (ws1 & H1 & E1)%(destroy_owner _ _ _ _ _ Ho) (t & _ & E2)%(resume_owner _ _ _ _ _ Hi Ho).
    congruence.
Qed.
End owner.

(** ** A concrete run

    The main task waits for a future that another task puts: its context is left
    and resumed by a task. *)
Definition blocked_wait : code :=
  Promise_create (λ p, Async (Promise_put p 7 (Return NULL)) [] None (Future_wait p (λ _, Return NULL))).

Definition before_resume : rt locality := state_after (replicate 20 0) (launch (small_pool 1) 1 blocked_wait None).

Lemma contexts_exclusive_witness :
  about_to_resume 0 before_resume 1 ∧ is_Some (ctxs before_resume !! 1) ∧
  ∀ w ws, workers before_resume !! w = Some ws → curr_ctx ws ≠ 1.
Proof.
  assert (about_to_resume 0 before_resume 1) as H.
  { exists 7, (mkTask (Finish_ctx_resume 1) NULL [4; 0; 0; 0] None 3 None false (-1)). by vm_compute. }
  destruct (contexts_exclusive (small_pool 1) 1 blocked_wait None before_resume) as (_ & _ & Hx & _).
  - apply small_pool_ok.
  - apply small_pool_empty.
  - exists (replicate 20 0). apply run_state_after. by vm_compute.
  - split; [exact H|]. apply (Hx 0 1). by left.
Defined.
