(* ===== verification/RuntimeScopes.v ===== *)
(** * Finish scopes: what the counters count

    The counter of a scope is one for the scope itself, plus its tasks in memory,
    plus the scopes opened in it.  So when [hclib_end_finish] sees one and frees
    the scope, every task spawned in it has run to its end.  The counter is an
    [int] that wraps; the count is exact as long as fewer than 2^31 tasks and
    scopes are allocated. *)

From S2P Require Import Prelude Deque Locality LocalityRun Pool Runtime RuntimeHeap RuntimeStack RuntimeStep RuntimeSafe.
From stdpp Require Import options.

(** ** Counting *)

Definition count (m : gmap Z Z) (g : Z) : Z := Z.of_nat (size (filter (λ p, p.2 = g) m)).

Definition one_if (b : bool) : Z := if b then 1 else 0.

Lemma count_insert_new m k v g :
  m !! k = None → count (<[k := v]> m) g = count m g + one_if (v =? g).
Proof.
  intros Hk. unfold count, one_if. destruct (Z.eqb_spec v g) as [->|Hne].
  - rewrite map_filter_insert_True by done. rewrite map_size_insert_None; [lia|].
    apply map_lookup_filter_None. by left.
  - rewrite map_filter_insert_False by done. rewrite delete_id by done. lia.
Qed.

Lemma count_delete m k v g :
  m !! k = Some v → count (delete k m) g = count m g - one_if (v =? g).
Proof.
  intros Hk. assert (m = <[k := v]> (delete k m)) as E by (by rewrite insert_delete_id).
  rewrite E at 2. rewrite count_insert_new by apply lookup_delete_eq. lia.
Qed.

Lemma count_insert m k v v' g :
  m !! k = Some v → count (<[k := v']> m) g = count m g - one_if (v =? g) + one_if (v' =? g).
Proof.
  intros Hk. rewrite <- insert_delete_eq. rewrite count_insert_new by apply lookup_delete_eq.
  by rewrite (count_delete m k v).
Qed.

Lemma count_zero m g : (∀ k v, m !! k = Some v → v ≠ g) → count m g = 0.
Proof.
  intros H. unfold count. replace (filter _ m) with (∅ : gmap Z Z); [by rewrite map_size_empty|].
  symmetry. apply map_empty. intros k. apply map_lookup_filter_None. right. intros v Hk. by eapply H.
Qed.

Lemma count_zero_inv m g k : count m g = 0 → m !! k ≠ Some g.
Proof.
  unfold count. intros H Hk. assert (size (filter (λ p, p.2 = g) m) = 0%nat) as E by lia.
  apply map_size_empty_iff in E. assert (filter (λ p, p.2 = g) m !! k = Some g) as E2.
  { by apply map_lookup_filter_Some. }
  by rewrite E in E2.
Qed.

Lemma count_range m g n :
  (∀ k, is_Some (m !! k) → 0 < k < n) → 0 < n → 0 <= count m g < n.
Proof.
  intros Hk Hn. unfold count. split; [lia|].
  assert (dom (filter (λ p, p.2 = g) m) ⊆ list_to_set (seqZ 1 (n - 1))) as Hs.
  { intros k Hd. apply elem_of_dom in Hd as [v Hv]. apply map_lookup_filter_Some in Hv as [Hv _].
    apply elem_of_list_to_set, elem_of_seqZ. specialize (Hk k (mk_is_Some _ _ Hv)). lia. }
  apply subseteq_size in Hs. rewrite size_dom in Hs.
  rewrite size_list_to_set, length_seqZ in Hs by apply NoDup_seqZ. lia.
Qed.

(** Reduction to the range of [int], as the atomic operations do. *)
Definition wrap (z : Z) : Z := (z - INT_MIN) mod UINT_MOD + INT_MIN.

Lemma wrap_inc a : (hc_atomic_inc (wrap a)).2 = wrap (a + 1).
Proof.
  unfold hc_atomic_inc, wrap. cbn [snd]. f_equal.
  replace ((a - INT_MIN) mod UINT_MOD + INT_MIN + 1 - INT_MIN)
    with ((a - INT_MIN) mod UINT_MOD + 1) by lia.
  rewrite Zplus_mod_idemp_l. f_equal. lia.
Qed.

Lemma wrap_dec a : (hc_atomic_dec (wrap a)).2 = wrap (a - 1).
Proof.
  unfold hc_atomic_dec, wrap. cbn [snd]. f_equal.
  replace ((a - INT_MIN) mod UINT_MOD + INT_MIN - 1 - INT_MIN)
    with ((a - INT_MIN) mod UINT_MOD - 1) by lia.
  rewrite Zminus_mod_idemp_l. f_equal. lia.
Qed.

Lemma wrap_one : wrap 1 = 1.
Proof. reflexivity. Qed.

Lemma wrap_small n : 0 <= n < 2 ^ 31 - 1 → wrap (1 + n) = 1 + n.
Proof.
  intros Hn. unfold wrap.
  assert (UINT_MOD = 2 * 2 ^ 31) as EM by reflexivity.
  assert (INT_MIN = - 2 ^ 31) as Em by reflexivity.
  generalize dependent UINT_MOD. generalize dependent INT_MIN. intros m Em M EM. subst M m.
  rewrite Z.mod_small; lia.
Qed.

#[local] Opaque wrap.

Section scopes.
Context {S : Type} `{!TaskPool S} {EX : Externs}.
#[local] Set Default Proof Using "Type*".

Definition scope_of (s : rt S) : gmap Z Z := t_finish <$> tasks s.
Definition parent_of (s : rt S) : gmap Z Z := parent <$> finishes s.

(** What is in scope [g]: its tasks in memory and the scopes opened in it. *)
Definition members (s : rt S) (g : Z) : Z := count (scope_of s) g + count (parent_of s) g.

(** The counters, in the middle of a call too: [debt g] is how far the counter
    of [g] is ahead. *)
Record tally (debt : Z → Z) (s : rt S) : Prop := {
  tally_counter : ∀ g x, finishes s !! g = Some x →
    counter x = wrap (1 + members s g + debt g) ∧ finish_dep x = NULL ∧ 0 < g ∧ g < brk s ∧
    parent x < brk s;
  tally_scope : ∀ t g, scope_of s !! t = Some g → g < brk s
}.

Definition no_debt : Z → Z := λ _, 0.

(** One more on the counter of [g]. *)
Definition owe (debt : Z → Z) (g n : Z) : Z → Z := λ h, debt h + (if h =? g then n else 0).

Lemma tally_ext d d' s : (∀ g, g ≠ NULL → d' g = d g) → tally d s → tally d' s.
Proof.
  intros E []. split; [|done]. intros g x Hx. destruct (tally_counter0 g x Hx) as (-> & ? & ? & ? & ?).
  rewrite E by (unfold NULL; lia). done.
Qed.

Lemma tally_same d (s s' : rt S) :
  finishes s' = finishes s → scope_of s' = scope_of s → brk s <= brk s' → tally d s → tally d s'.
Proof.
  intros Ef Et Hb []. split.
  - intros g x. rewrite Ef. intros Hx. destruct (tally_counter0 g x Hx) as (-> & ? & ? & ? & ?).
    unfold members, parent_of. rewrite Ef, Et. repeat (split; [done || lia|]). lia.
  - intros t g. rewrite Et. intros H. apply tally_scope0 in H. lia.
Qed.

Lemma same_rest_scope (s s' : rt S) : same_rest s s' → scope_of s' = scope_of s.
Proof.
  intros [_ _ _ _ _ _ E _ _ _].
  assert (∀ m : gmap Z hclib_task_t, t_finish <$> m = (λ x, x.1.2) <$> (task_static <$> m)) as H.
  { intros m. rewrite <- map_fmap_compose. by apply map_fmap_ext. }
  unfold scope_of. by rewrite !H, E.
Qed.

Lemma tally_rest d (s s' : rt S) : same_rest s s' → tally d s → tally d s'.
Proof.
  intros H. apply tally_same; [apply H|by apply same_rest_scope|]. destruct H. lia.
Qed.

(** Changing one counter. *)
Lemma tally_bump d (s : rt S) g x n :
  finishes s !! g = Some x → counter x = wrap (1 + members s g + d g) → tally d s →
  tally (owe d g n)
    (set_finishes (<[g := mkFinish (parent x) (wrap (1 + members s g + d g + n)) (finish_dep x)]>
       (finishes s)) s).
Proof.
  intros Hg Hc [H1 H2]. set (s1 := set_finishes _ s).
  assert (parent_of s1 = parent_of s) as Ep.
  { unfold parent_of. cbn. rewrite fmap_insert. apply insert_id. by rewrite lookup_fmap, Hg. }
  assert (∀ h, members s1 h = members s h) as Em by (intros h; unfold members; by rewrite Ep).
  split; [|exact H2]. intros h y Hy. rewrite Em. cbn in Hy. destruct (decide (h = g)) as [->|Hne].
  - rewrite lookup_insert_eq in Hy. injection Hy as <-. cbn.
    destruct (H1 g x Hg) as (_ & ? & ? & ? & ?). split; [|done].
    unfold owe. rewrite Z.eqb_refl. apply (f_equal wrap). lia.
  - rewrite lookup_insert_ne in Hy by done. destruct (H1 h y Hy) as (-> & ? & ? & ? & ?).
    split; [|done]. unfold owe. rewrite (proj2 (Z.eqb_neq _ _) Hne). apply (f_equal wrap). lia.
Qed.

Lemma check_in_tally d g (s : rt S) u s' :
  check_in_finish g s = Ok (u, s') → tally d s →
  tally (owe d g 1) s' ∧ (g = NULL ∨ g < brk s).
Proof.
  intros H Ht. unfold check_in_finish, when in H. destruct (Z.eqb_spec g NULL) as [->|Hn]; cbn [negb] in H.
  - m_action H. split; [|by left]. eapply tally_ext; [|exact Ht]. intros h Hh. unfold owe.
    rewrite (proj2 (Z.eqb_neq _ _) Hh). lia.
  - m_bind H as x s1 Hx. m_action H. pose proof (tally_counter _ _ Ht g x Hx) as (E & _ & _ & Hb & _).
    split; [|by right]. rewrite E, wrap_inc. by apply tally_bump.
Qed.

Lemma check_out_tally d g (s : rt S) u s' :
  check_out_finish g s = Ok (u, s') → tally d s →
  tally (owe d g (-1)) s' ∧ ∃ m, s' = set_finishes m s ∧ parent <$> m = parent <$> finishes s.
Proof.
  intros H Ht. unfold check_out_finish, when in H. destruct (Z.eqb_spec g NULL) as [->|Hn]; cbn [negb] in H.
  - m_action H. split; [|by exists (finishes s); destruct s]. eapply tally_ext; [|exact Ht].
    intros h Hh. unfold owe. rewrite (proj2 (Z.eqb_neq _ _) Hh). lia.
  - m_bind H as x s1 Hx. pose proof (tally_counter _ _ Ht g x Hx) as (E & Ed & _).
    destruct (hc_atomic_dec (counter x)) as [old c'] eqn:Edec. m_bind H.
    assert (c' = wrap (1 + members s g + d g - 1)) as ->.
    { rewrite E in Edec. pose proof (wrap_dec (1 + members s g + d g)) as Hw.
      by rewrite Edec in Hw. }
    destruct (old =? 1).
    + rewrite Ed in H. unfold hclib_promise_put in H. m_bind H as b s1 Hb. done.
    + m_action H. split; [by apply tally_bump|]. eexists. split; [done|].
      rewrite fmap_insert. apply insert_id. by rewrite lookup_fmap, Hx.
Qed.

(** A task of no scope joins [g]. *)
Lemma tally_join d (s : rt S) t tk tk' :
  tasks s !! t = Some tk → t_finish tk = NULL → t_finish tk' < brk s → tally d s →
  tally (owe d (t_finish tk') (-1)) (set_tasks (<[t := tk']> (tasks s)) s).
Proof.
  intros Ht Hf Hb [H1 H2]. set (s' := set_tasks _ s).
  assert (scope_of s' = <[t := t_finish tk']> (scope_of s)) as Es by (unfold scope_of; cbn; by rewrite fmap_insert).
  assert (scope_of s !! t = Some NULL) as Et by (unfold scope_of; by rewrite lookup_fmap, Ht, <- Hf).
  split.
  - intros g x Hx. destruct (H1 g x Hx) as (-> & ? & ? & ? & ?). split; [|done].
    unfold members. rewrite Es, (count_insert _ _ _ _ _ Et). unfold owe, one_if.
    rewrite (proj2 (Z.eqb_neq NULL g)) by (unfold NULL; lia). rewrite (Z.eqb_sym g).
    change (parent_of s') with (parent_of s). apply (f_equal wrap). destruct (t_finish tk' =? g); lia.
  - intros x g. rewrite Es. destruct (decide (x = t)) as [->|].
    + rewrite lookup_insert_eq. by intros [= <-].
    + rewrite lookup_insert_ne by done. apply H2.
Qed.

(** A new task is in no scope. *)
Lemma tally_new_task d (s : rt S) f fp nb :
  heap_ok s f → 0 < brk s → tally d s →
  tally d (set_tasks (<[brk s := fresh_task fp nb]> (tasks s)) (set_brk (brk s + 1) s)).
Proof.
  intros Hok Hb [H1 H2]. set (s' := set_tasks _ _). destruct (fresh_absent s f Hok) as [_ Hn].
  assert (scope_of s' = <[brk s := NULL]> (scope_of s)) as Es by (unfold scope_of; cbn; by rewrite fmap_insert).
  split.
  - intros g x Hx. destruct (H1 g x Hx) as (-> & ? & ? & ? & ?). split; [|split; [done|split; [done|cbn; lia]]].
    unfold members. rewrite Es, count_insert_new by (unfold scope_of; by rewrite lookup_fmap, Hn).
    unfold one_if. rewrite (proj2 (Z.eqb_neq NULL g)) by (unfold NULL; lia).
    change (parent_of s') with (parent_of s). apply (f_equal wrap). lia.
  - intros t g. rewrite Es. destruct (decide (t = brk s)) as [->|].
    + rewrite lookup_insert_eq. intros [= <-]. unfold NULL. cbn. lia.
    + rewrite lookup_insert_ne by done. intros H. apply H2 in H. cbn. lia.
Qed.

(** A task leaves memory. *)
Lemma tally_free d (s : rt S) t tk :
  tasks s !! t = Some tk → tally d s →
  tally (owe d (t_finish tk) 1) (set_tasks (delete t (tasks s)) s).
Proof.
  intros Ht [H1 H2]. set (s' := set_tasks _ s).
  assert (scope_of s' = delete t (scope_of s)) as Es by (unfold scope_of; cbn; by rewrite fmap_delete).
  split.
  - intros g x Hx. destruct (H1 g x Hx) as (-> & ? & ? & ? & ?). split; [|done].
    unfold members. rewrite Es, (count_delete _ _ (t_finish tk)) by (unfold scope_of; by rewrite lookup_fmap, Ht).
    unfold owe, one_if. rewrite (Z.eqb_sym g). change (parent_of s') with (parent_of s).
    apply (f_equal wrap). destruct (t_finish tk =? g); lia.
  - intros x g. rewrite Es. destruct (decide (x = t)) as [->|]; [by rewrite lookup_delete_eq|].
    rewrite lookup_delete_ne by done. apply H2.
Qed.

(** A scope is opened in [p]. *)
Lemma tally_open d (s : rt S) p :
  p < brk s → 0 < brk s → d (brk s) = 0 → tally d s →
  tally (owe d p (-1)) (set_finishes (<[brk s := mkFinish p 1 NULL]> (finishes s)) (set_brk (brk s + 1) s)).
Proof.
  intros Hp Hb Hd [H1 H2]. set (s' := set_finishes _ _).
  assert (finishes s !! brk s = None) as Hn.
  { destruct (finishes s !! brk s) as [x|] eqn:E; [|done]. destruct (H1 _ _ E) as (_ & _ & _ & ? & _). lia. }
  assert (parent_of s' = <[brk s := p]> (parent_of s)) as Ep by (unfold parent_of; cbn; by rewrite fmap_insert).
  assert (∀ g, members s' g = members s g + one_if (p =? g)) as Em.
  { intros g. unfold members. rewrite Ep, count_insert_new by (unfold parent_of; by rewrite lookup_fmap, Hn).
    change (scope_of s') with (scope_of s). lia. }
  split.
  - intros g x. cbn [finishes set_finishes s']. rewrite Em. destruct (decide (g = brk s)) as [->|Hne].
    + rewrite lookup_insert_eq. intros [= <-]. cbn. split; [|split; [done|split; [lia|split; lia]]].
      unfold members. rewrite !count_zero.
      * unfold owe, one_if. rewrite Hd, (Z.eqb_sym (brk s)), (proj2 (Z.eqb_neq p (brk s))) by lia.
        etransitivity; [symmetry; apply wrap_one|]. apply (f_equal wrap). lia.
      * intros k v. unfold parent_of. rewrite lookup_fmap_Some. intros (y & <- & Hy).
        destruct (H1 k y Hy) as (_ & _ & _ & _ & ?). lia.
      * intros k v Hk. apply H2 in Hk. lia.
    + rewrite lookup_insert_ne by done. intros Hx. destruct (H1 g x Hx) as (-> & ? & ? & ? & ?).
      split; [|split; [done|split; [done|cbn; lia]]]. apply (f_equal wrap). unfold owe, one_if.
      rewrite (Z.eqb_sym g). destruct (p =? g); lia.
  - intros t g Hg. apply H2 in Hg. cbn. lia.
Qed.

(** A scope is freed. *)
Lemma tally_close d (s : rt S) g x :
  finishes s !! g = Some x → tally d s →
  tally (owe d (parent x) 1) (set_finishes (delete g (finishes s)) s).
Proof.
  intros Hg [H1 H2]. set (s' := set_finishes _ _).
  assert (parent_of s' = delete g (parent_of s)) as Ep by (unfold parent_of; cbn; by rewrite fmap_delete).
  split; [|exact H2]. intros h y Hy. cbn in Hy. apply lookup_delete_Some in Hy as [Hne Hy].
  destruct (H1 h y Hy) as (-> & ? & ? & ? & ?). split; [|done].
  unfold members. rewrite Ep, (count_delete _ _ (parent x)) by (unfold parent_of; by rewrite lookup_fmap, Hg).
  unfold owe, one_if. rewrite (Z.eqb_sym h). change (scope_of s') with (scope_of s).
  apply (f_equal wrap). destruct (parent x =? h); lia.
Qed.

(** ** The stacks and the workers *)

(** A call of [execute_task] checks out of the scope of its task; the scope a
    blocking call goes back to exists or is [NULL]. *)
Definition frame_ok (s : rt S) (fr : frame) : Prop :=
  match fr with
  | F_execute t g => scope_of s !! t = Some g
  | F_wait _ _ g _ _ | F_yield g _ _ _ => g < brk s
  | _ => True
  end.

Definition ctl_ok (s : rt S) (c : control) : Prop :=
  match c with
  | Wait_loop _ _ g _ _ | Wait_resumed _ g _ _ | Yield_loop g _ _ _ | Yield_resumed g _ _ => g < brk s
  | _ => True
  end.

Definition stack_ok (s : rt S) (c : control) (fs : list frame) : Prop :=
  ctl_ok s c ∧ (c ≠ Abandoned → Forall (frame_ok s) fs).

Definition workers_ok (s : rt S) : Prop :=
  ∀ w ws, workers s !! w = Some ws → current_finish ws < brk s.

Record scoped (s : rt S) : Prop := {
  scoped_tally : tally no_debt s;
  scoped_stacks : ∀ c x, ctxs s !! c = Some x → stack_ok s (ctl x) (frames x);
  scoped_workers : workers_ok s
}.

(** What a call leaves to the stacks. *)
Record grown (s s' : rt S) : Prop := {
  grown_ctxs : ctxs s' = ctxs s;
  grown_brk : brk s <= brk s';
  grown_scope : ∀ t g, scope_of s !! t = Some g → scope_of s' !! t = Some g;
  grown_workers : workers_ok s → workers_ok s'
}.

Lemma grown_trans s1 s2 s3 : grown s1 s2 → grown s2 s3 → grown s1 s3.
Proof. intros [] []. split; [congruence|lia|auto|auto]. Qed.

Lemma grown_same (s s' : rt S) :
  ctxs s' = ctxs s → brk s <= brk s' → scope_of s' = scope_of s → workers s' = workers s → grown s s'.
Proof.
  intros Ec Hb Es Ew. split; [done|done|by rewrite Es|].
  intros H w ws. rewrite Ew. intros Hws. apply H in Hws. lia.
Qed.

Lemma grown_refl s : grown s s.
Proof. by apply grown_same. Qed.

Lemma grown_rest (s s' : rt S) : same_rest s s' → grown s s'.
Proof. intros H. apply grown_same; [apply H|destruct H; lia|by apply same_rest_scope|apply H]. Qed.

Lemma stack_grown s s' c fs : grown s s' → stack_ok s c fs → stack_ok s' c fs.
Proof.
  intros Hg [Hc Hf]. pose proof (grown_brk _ _ Hg). split.
  - destruct c; cbn in *; (done || lia).
  - intros Ha. eapply Forall_impl; [by apply Hf|]. intros fr. destruct fr; cbn; try done; try lia.
    apply Hg.
Qed.

Lemma stack_same_scope s s' c fs :
  brk s' = brk s → scope_of s' = scope_of s → stack_ok s c fs → stack_ok s' c fs.
Proof.
  intros Hb Es [Hc Hf]. split.
  - destruct c; cbn in *; (done || lia).
  - intros Ha. eapply Forall_impl; [by apply Hf|]. intros fr. destruct fr; cbn; rewrite ?Es; (done || lia).
Qed.

(** A call that keeps the counters right. *)
Definition counted (s s' : rt S) : Prop := tally no_debt s' ∧ grown s s'.

Lemma counted_trans s1 s2 s3 :
  counted s1 s2 → (tally no_debt s2 → counted s2 s3) → counted s1 s3.
Proof. intros [H1 G1] H. destruct (H H1) as [H2 G2]. split; [done|by eapply grown_trans]. Qed.

Lemma counted_scoped s s' : counted s s' → scoped s → scoped s'.
Proof.
  intros [Ht Hg] [_ Hs Hw]. split; [done| |by apply Hg].
  intros c x. rewrite (grown_ctxs _ _ Hg). intros Hx. by eapply stack_grown, Hs.
Qed.

Lemma counted_rest s s' : same_rest s s' → tally no_debt s → counted s s'.
Proof. intros H Ht. split; [by eapply tally_rest|by apply grown_rest]. Qed.

(** An action ends by moving the running stack on. *)
Lemma scoped_set s c fs u s' :
  scoped s → set_stack c fs s = Ok (u, s') → stack_ok s c fs → scoped s'.
Proof.
  intros [Ht Hs Hw] (ws & x & _ & Hx & ->)%set_stack_Ok Hok. split.
  - by apply (tally_same _ s).
  - cbn. intros c0 y. destruct (decide (c0 = curr_ctx ws)) as [->|].
    + rewrite lookup_insert_eq. by intros [= <-].
    + rewrite lookup_insert_ne by done. apply Hs.
  - exact Hw.
Qed.

Lemma scoped_move s s2 c fs c0 x0 u s' :
  counted s s2 → scoped s → ctxs s !! c0 = Some x0 → set_stack c fs s2 = Ok (u, s') →
  (stack_ok s (ctl x0) (frames x0) → stack_ok s c fs) → scoped s'.
Proof.
  intros Hc Hs Hx H Hok. eapply scoped_set; [by eapply counted_scoped|exact H|].
  eapply stack_grown; [apply Hc|]. apply Hok. by apply (scoped_stacks _ Hs c0).
Qed.

(** ** The calls *)

Lemma put_counted p d s f u s' :
  hclib_promise_put p d s = Ok (u, s') → heap_ok s f → tally no_debt s → counted s s'.
Proof. intros H Hok. apply (put_ok _ _ _ f) in H as (Hsr & _); [|done]. by apply counted_rest. Qed.

Lemma set_scope_counted g t s u s' :
  set_scope g t s = Ok (u, s') → g < brk s → tally no_debt s → counted s s'.
Proof.
  intros (ws & Hws & ->)%set_scope_Ok Hg Ht. split; [by apply (tally_same _ s)|].
  split; [done|done|done|]. intros Hw w ws'. cbn. destruct (decide (w = self s)) as [->|].
  - rewrite lookup_insert_eq. by intros [= <-].
  - rewrite lookup_insert_ne by done. apply Hw.
Qed.

Lemma promise_create_counted s p s' :
  hclib_promise_create s = Ok (p, s') → tally no_debt s → counted s s'.
Proof.
  intros H Ht. unfold hclib_promise_create, hclib_promise_init in H. m_bind H. m_bind H. m_action H.
  split; [apply (tally_same _ s); [done|done|cbn; lia|done]|apply grown_same; (done || (cbn; lia))].
Qed.

(** A call of [spawn_handler] on a new task: it checks in, then fills the task
    in, then queues it or makes it wait. *)
Lemma new_spawn_counted fp nb locale futures escaping s f u s' :
  spawn_handler (brk s) locale futures escaping
    (set_tasks (<[brk s := fresh_task fp nb]> (tasks s)) (set_brk (brk s + 1) s)) = Ok (u, s') →
  heap_ok s f → 0 < brk s → tally no_debt s → counted s s'.
Proof.
  intros H Hok Hb Ht. destruct (fresh_absent s f Hok) as [Hf Hn].
  pose proof (tally_new_task _ _ f fp nb Hok Hb Ht) as Ht1.
  assert (task_ok s (fresh_task fp nb) Woken) as Htk.
  { split; [split; cbn; [done|lia]|]. intros j p Hj He Hnn. cbn in Hj.
    assert (j = 0) as -> by lia. by injection He as <-. }
  pose proof (heap_ok_new s f _ Hok Hb Htk) as Hok1.
  set (s1 := set_tasks _ _) in *. set (f1 := <[brk s := Woken]> f) in *.
  apply spawn_handler_Ok in H as (ws & m & tk & Hws & (v & Hc) & Htk1 & H). cbn zeta in *.
  cbn [tasks set_tasks s1] in Htk1. rewrite lookup_insert_eq in Htk1. injection Htk1 as <-.
  set (g := if escaping then NULL else current_finish ws) in *.
  destruct (check_in_tally _ _ _ _ _ Hc Ht1) as [Ht2 Hg].
  set (tk1 := spawned_task (fresh_task fp nb) g locale futures) in *.
  assert (t_finish tk1 = g) as Eg by (unfold tk1, spawned_task; by destruct (_ >? 0)).
  set (s2 := set_finishes m s1) in *. set (s3 := set_tasks (<[brk s := tk1]> (tasks s1)) s2) in *.
  assert (tally no_debt s3) as Ht3.
  { eapply tally_ext; [|apply (tally_join (owe no_debt g 1) s2 (brk s) (fresh_task fp nb) tk1); [cbn; by rewrite lookup_insert_eq|done| |exact Ht2]].
    - intros h _. rewrite Eg. unfold owe, no_debt. destruct (h =? g); lia.
    - rewrite Eg. destruct Hg as [->|Hg]; [unfold NULL; cbn; lia|exact Hg]. }
  assert (heap_ok s3 f1) as Hok3.
  { apply (heap_ok_task s2 f1 (brk s) (fresh_task fp nb) tk1); [by apply heap_ok_finishes| | |].
    - cbn. by rewrite lookup_insert_eq.
    - unfold f1. by rewrite fn_lookup_insert.
    - unfold f1. rewrite fn_lookup_insert. apply spawned_task_ok. }
  assert (scope_of s3 = <[brk s := g]> (scope_of s)) as Es.
  { unfold scope_of. cbn. by rewrite insert_insert_eq, fmap_insert, Eg. }
  eapply (try_schedule_ok (brk s) _ s3 f1 tk1) in H as (Hsr & _); [|exact Hok3| |].
  2: { unfold f1. by rewrite fn_lookup_insert. }
  2: { cbn. by rewrite lookup_insert_eq. }
  destruct (counted_rest s3 s' Hsr Ht3) as [Ht4 Hg4]. split; [done|]. eapply grown_trans; [|exact Hg4].
  split; [done|cbn; lia| |].
  - intros t h E. rewrite Es, lookup_insert_ne; [done|]. intros <-. unfold scope_of in E.
    by rewrite lookup_fmap, Hn in E.
  - intros Hw w ws' Hw'. apply Hw in Hw'. cbn. lia.
Qed.

Lemma async_counted fp futures locale s f u s' :
  hclib_async fp futures locale s = Ok (u, s') → heap_ok s f → 0 < brk s → tally no_debt s → counted s s'.
Proof.
  intros H Hok Hb. unfold hclib_async in H. m_bind H as t s1 Ht. apply new_task_Ok in Ht as [-> ->].
  destruct (_ >? 0); by eapply new_spawn_counted.
Qed.

Lemma await_helper_counted fp futures locale nb s f u s' :
  async_await_at_helper fp futures locale nb s = Ok (u, s') → heap_ok s f → 0 < brk s → tally no_debt s →
  counted s s'.
Proof.
  intros H Hok Hb. unfold async_await_at_helper in H. m_bind H as t s1 Ht. apply new_task_Ok in Ht as [-> ->].
  m_bind H as tk s1 Htk. m_bind H. cbn in Htk. rewrite lookup_insert_eq in Htk. injection Htk as <-.
  unfold spawn_await_at in H. eapply (new_spawn_counted fp nb); [|done|done].
  match type of H with spawn_handler _ _ _ _ ?s1 = _ =>
    replace s1 with (set_tasks (<[brk s := fresh_task fp nb]> (tasks s)) (set_brk (brk s + 1) s)) in H end;
    [exact H|]. unfold set_tasks. cbn. by rewrite insert_insert_eq.
Qed.

Lemma async_nb_counted fp locale s f u s' :
  hclib_async_nb fp locale s = Ok (u, s') → heap_ok s f → 0 < brk s → tally no_debt s → counted s s'.
Proof. intros H. by apply (await_helper_counted fp [] locale true s f u s'). Qed.

(** A call that makes the promise of its task first. *)
Lemma future_counted p (m : M S unit) u s1 s f s' :
  hclib_promise_create s = Ok (p, s1) → m s1 = Ok (u, s') →
  (∀ f, heap_ok s1 f → 0 < brk s1 → tally no_debt s1 → counted s1 s') →
  heap_ok s f → 0 < brk s → tally no_debt s → counted s s'.
Proof.
  intros Hp Hm Hc Hok Hb Ht. pose proof (promise_create_counted _ _ _ Hp Ht) as Hc1.
  apply (promise_create_kept _ f) in Hp as ((f1 & Hok1 & _) & _ & _ & Hb1); [|done|done].
  eapply counted_trans; [exact Hc1|]. intros Ht1. apply (Hc f1); [done|lia|done].
Qed.

Lemma async_future_counted fp futures locale s f v s' :
  hclib_async_future fp futures locale s = Ok (v, s') → heap_ok s f → 0 < brk s → tally no_debt s →
  counted s s'.
Proof.
  intros (s1 & Hp & u & Ha)%async_future_split. eapply future_counted; [exact Hp|exact Ha|].
  intros f1. by apply async_counted with (1 := Ha).
Qed.

Lemma await_future_counted fp futures locale nb s f v s' :
  async_future_await_at_helper fp futures locale nb s = Ok (v, s') → heap_ok s f → 0 < brk s →
  tally no_debt s → counted s s'.
Proof.
  intros (s1 & Hp & u & Ha)%await_future_split. eapply future_counted; [exact Hp|exact Ha|].
  intros f1. by apply await_helper_counted with (1 := Ha).
Qed.

Lemma start_finish_counted s u s' :
  hclib_start_finish s = Ok (u, s') → 0 < brk s → workers_ok s → tally no_debt s → counted s s'.
Proof.
  intros H Hb Hw Ht. unfold hclib_start_finish, current_ws in H. m_bind H as ws s1 Hws.
  m_bind Hws. m_action Hws. m_bind H. m_bind H. m_bind H as v s2 Hc.
  assert (current_finish ws < brk s) as Hp by (by eapply Hw).
  pose proof (tally_open no_debt s (current_finish ws) Hp Hb eq_refl Ht) as Ht1.
  set (s1 := set_finishes _ _) in *.
  pose proof (check_in_tally _ _ _ _ _ Hc Ht1) as [Ht2 _].
  apply check_in_Ok in Hc as (m & -> & _). set (s2 := set_finishes m s1) in *.
  assert (tally no_debt s2) as Ht3.
  { eapply tally_ext; [|exact Ht2]. intros h _. unfold owe, no_debt. destruct (h =? _); lia. }
  apply (counted_trans _ s2).
  - split; [done|]. apply grown_same; (done || (cbn; lia)).
  - intros _. eapply set_scope_counted; [exact H|cbn; lia|done].
Qed.

(** The end of a scope: nothing of it may be left. *)
Lemma end_finish_exit_counted g t s u s' :
  end_finish_exit g t s = Ok (u, s') → tally no_debt s →
  counted s s' ∧ tasks s' = tasks s ∧ self s' = self s ∧
  ∃ m, finishes s' = delete g m ∧ parent <$> m = parent <$> finishes s.
Proof.
  intros H Ht. unfold end_finish_exit in H. m_bind H as x s1 Hx. m_bind H as v s1 Hc.
  destruct (check_out_tally _ _ _ _ _ Hc Ht) as [Ht1 (m & -> & Em)]. m_bind H as w s2 Hs.
  apply set_scope_Ok in Hs as (ws & Hws & ->). unfold free_finish in H. m_bind H as y s2 Hy. m_action H.
  cbn in Hy. set (s1 := set_finishes m s) in *.
  set (s2 := set_workers _ s1) in *.
  assert (tally (owe no_debt (parent x) (-1)) s2) as Ht2 by (by apply (tally_same _ s1)).
  assert (parent y = parent x) as Ep.
  { assert ((parent <$> m) !! g = (parent <$> finishes s) !! g) as E by (by rewrite Em).
    rewrite !lookup_fmap, Hx, Hy in E. by injection E. }
  pose proof (tally_close _ s2 g y Hy Ht2) as Ht3. 
  assert (parent x < brk s) as Hp by (by eapply (tally_counter _ _ Ht)).
  split; [|split; [done|split; [done|by exists m]]]. split.
  - eapply tally_ext; [|exact Ht3]. intros h _. rewrite Ep. unfold owe, no_debt. destruct (h =? _); lia.
  - split; [done|done|done|]. intros Hw w' ws'. cbn. destruct (decide (w' = self s)) as [->|].
    + rewrite lookup_insert_eq. by intros [= <-].
    + rewrite lookup_insert_ne by done. apply Hw.
Qed.

(** ** The actions *)

Lemma scoped_self s w : scoped s → scoped (set_self w s).
Proof. intros []. split; [by apply (tally_same _ s)|done|done]. Qed.

Lemma scoped_swap c fs next s c0 x0 u s' :
  ctx_swap c fs next s = Ok (u, s') → running s c0 x0 → scoped s → stack_ok s c fs → scoped s'.
Proof.
  intros H Hrun [Ht Hs Hw] Hok. eapply ctx_swap_Ok in H as (y & w0 & Hy & Hw0 & ->); [|exact Hrun].
  assert (∀ c1 x, <[c0 := mkCtx c fs (prev x0)]> (ctxs s) !! c1 = Some x → stack_ok s (ctl x) (frames x))
    as Hall.
  { intros c1 x. destruct (decide (c1 = c0)) as [->|].
    - rewrite lookup_insert_eq. by intros [= <-].
    - rewrite lookup_insert_ne by done. apply Hs. }
  split; [by apply (tally_same _ s)| |].
  - cbn. intros c1 x. destruct (decide (c1 = next)) as [->|].
    + rewrite lookup_insert_eq. intros [= <-]. by apply (Hall next y).
    + rewrite lookup_insert_ne by done. apply Hall.
  - intros w ws. cbn. destruct (decide (w = self s)) as [->|].
    + rewrite lookup_insert_eq. intros [= <-]. by apply (Hw (self s) w0).
    + rewrite lookup_insert_ne by done. apply Hw.
Qed.

Lemma scoped_new_ctx cn c fs s c0 x0 u s' :
  (newCtx ← LiteCtx_create cn; ctx_swap c fs newCtx) s = Ok (u, s') →
  running s c0 x0 → c0 < brk s → scoped s → stack_ok s c fs → ctl_ok s cn → scoped s'.
Proof.
  intros H Hrun Hc0 [Ht Hs Hw] Hok Hcn. unfold LiteCtx_create in H.
  m_bind H as n s1 Hn. m_bind Hn. m_bind Hn. m_action Hn. set (s1 := set_ctxs _ _) in *.
  assert (grown s (set_brk (brk s + 1) s)) as Hg by (apply grown_same; (done || (cbn; lia))).
  assert (∀ c1 fs1, stack_ok s c1 fs1 → stack_ok s1 c1 fs1) as Hup by (intros c1 fs1; apply (stack_grown _ _ _ _ Hg)).
  eapply (scoped_swap _ _ _ s1 c0 x0); [exact H| | |by apply Hup].
  - destruct Hrun as (ws & Hws & Hc & Hx). exists ws. split; [done|]. split; [done|]. cbn.
    rewrite lookup_insert_ne; [done|lia].
  - split; [by apply (tally_same _ s); (done || (cbn; lia))| |by apply (grown_workers _ _ Hg)].
    cbn. intros c1 x. destruct (decide (c1 = brk s)) as [->|].
    + rewrite lookup_insert_eq. intros [= <-]. apply Hup. by split.
    + rewrite lookup_insert_ne by done. intros Hx. apply Hup. by apply (Hs c1).
Qed.

Lemma scoped_destroy s u s1 :
  destroy_prev s = Ok (u, s1) → scoped s → scoped s1 ∧ brk s1 = brk s ∧ scope_of s1 = scope_of s.
Proof.
  intros H [Ht Hs Hw]. unfold destroy_prev, current_ws, LiteCtx_destroy in H.
  m_bind H as ws s2 Hws. m_bind Hws. m_action Hws. m_bind H as x s2 Hx. m_bind H as y s2 Hy.
  m_action H. split; [|done]. split; [by apply (tally_same _ s)| |exact Hw].
  cbn. intros c z [_ Hz]%lookup_delete_Some. by apply (Hs c).
Qed.

Lemma stack_free s t c fs :
  t ∉ running_of c fs → stack_ok s c fs → stack_ok (set_tasks (delete t (tasks s)) s) c fs.
Proof.
  intros Hn [Hc Hf]. split; [done|]. intros Ha. specialize (Hf Ha).
  assert (t ∉ executing fs) as Hn' by (by destruct c). clear Hn.
  assert (scope_of (set_tasks (delete t (tasks s)) s) = delete t (scope_of s)) as Es
    by (unfold scope_of; cbn; by rewrite fmap_delete).
  induction fs as [|fr fs IH]; [constructor|]. apply Forall_cons in Hf as [Hfr Hf].
  constructor; [|apply IH; [done|]; destruct fr; cbn in Hn'; try done; set_solver].
  destruct fr; try done. cbn in *. rewrite Es, lookup_delete_ne; [done|set_solver].
Qed.

Lemma exit_scoped t g fs s f c0 x0 u s' :
  execute_task_exit t g fs s = Ok (u, s') → inv s f → scoped s → running s c0 x0 →
  frames x0 = F_execute t g :: fs → ctl x0 ≠ Abandoned → scoped s'.
Proof.
  intros H Hi [Ht Hs Hw] Hrun Hfs Hctl. unfold execute_task_exit in H.
  m_bind H as v s1 Hc. destruct (check_out_tally _ _ _ _ _ Hc Ht) as [Ht1 (m & -> & _)].
  m_bind H as w s2 Hfree. unfold free_task in Hfree. m_bind Hfree as tk s3 Htk. m_action Hfree.
  cbn in Htk. destruct Hrun as (ws0 & Hws0 & Hc0 & Hx).
  destruct (stacks_ctx _ _ (inv_stacks _ _ Hi) c0 x0 Hx) as [_ _ Hu Hnd].
  assert (running_of (ctl x0) (frames x0) = t :: executing fs) as Eu by (rewrite Hfs; by destruct (ctl x0)).
  rewrite Eu in Hu, Hnd. apply NoDup_cons in Hnd as [Hn _].
  assert (f t = Running c0) as Ef by (apply Hu; by left).
  destruct (Hs c0 x0 Hx) as [Hcc Hff]. specialize (Hff Hctl). rewrite Hfs in Hff.
  apply Forall_cons in Hff as [Hfr Hff]. cbn in Hfr.
  assert (t_finish tk = g) as Eg.
  { unfold scope_of in Hfr. rewrite lookup_fmap, Htk in Hfr. by injection Hfr. }
  set (s1 := set_finishes m s) in *. pose proof (tally_free _ s1 t tk Htk Ht1) as Ht2.
  set (s2 := set_tasks _ s1) in *.
  assert (∀ c fs, t ∉ running_of c fs → stack_ok s c fs → stack_ok s2 c fs) as Hfree
    by (intros c fs1; apply (stack_free s)).
  assert (scoped_but : ∀ c x, c ≠ c0 → ctxs s !! c = Some x → stack_ok s2 (ctl x) (frames x)).
  { intros c x Hne Hcx. apply Hfree; [|by apply (Hs c)].
    destruct (stacks_ctx _ _ (inv_stacks _ _ Hi) c x Hcx) as [_ _ Hu1 _]. rewrite Hu1. congruence. }
  apply set_stack_Ok in H as (ws & x & Hws & Hx2 & ->). cbn in Hws, Hx2.
  assert (ws = ws0) as -> by congruence. rewrite Hc0 in *. split.
  - apply (tally_same _ s2); [done..|]. eapply tally_ext; [|exact Ht2].
    intros h _. rewrite Eg. unfold owe, no_debt. destruct (h =? g); lia.
  - cbn. intros c y. destruct (decide (c = c0)) as [->|Hne].
    + rewrite lookup_insert_eq. intros [= <-]. apply Hfree; [exact Hn|]. by split.
    + rewrite lookup_insert_ne by done. by apply scoped_but.
  - exact Hw.
Qed.

(** The whole stack of a user function is that of its next call. *)
Lemma scoped_on s s2 c fs x0 c0 u s' :
  counted s s2 → scoped s → ctxs s !! c0 = Some x0 → frames x0 = fs → ctl x0 ≠ Abandoned →
  set_stack c fs s2 = Ok (u, s') → ctl_ok s2 c → scoped s'.
Proof.
  intros Hc Hs Hx <- Ha H Hok. eapply scoped_set; [by eapply counted_scoped|exact H|].
  split; [done|]. intros _. destruct (scoped_stacks _ Hs c0 x0 Hx) as [Hc0 Hf].
  by apply (stack_grown s s2 (ctl x0)); [apply Hc| |].
Qed.

Lemma counted_refl s : scoped s → counted s s.
Proof. intros H. split; [apply H|apply grown_refl]. Qed.

Lemma cells_counted s b m : brk s <= b → tally no_debt s → counted s (set_cells m (set_brk b s)).
Proof. intros Hb Ht. split; [by apply (tally_same _ s)|by apply grown_same]. Qed.

Lemma run_code_scoped c fs s f c0 x0 u s' :
  run_code c fs s = Ok (u, s') → inv s f → scoped s → running s c0 x0 →
  ctl x0 = Run c → frames x0 = fs → (∀ k, c ≠ End_finish_nonblocking k) → scoped s'.
Proof.
  intros H Hi Hs Hrun Hctl Hfs Hnb. assert (ctxs s !! c0 = Some x0) as Hx by (by destruct Hrun as (? & _ & _ & ?)).
  pose proof (inv_heap _ _ Hi) as Hh. pose proof (inv_brk _ _ Hi) as Hbrk.
  pose proof (scoped_tally _ Hs) as Ht. pose proof (counted_refl _ Hs) as Hc0.
  assert (ctl x0 ≠ Abandoned) as Ha by (by rewrite Hctl).
  destruct c; cbn [run_code] in H.
  - eapply scoped_on; [exact Hc0|done..|exact H|done].
  - m_bind H as v s1 H1. eapply async_counted in H1 as Hc; [|done..].
    eapply scoped_on; [exact Hc|done..|exact H|done].
  - m_bind H as v s1 H1. eapply async_nb_counted in H1 as Hc; [|done..].
    eapply scoped_on; [exact Hc|done..|exact H|done].
  - m_bind H as v s1 H1. eapply async_future_counted in H1 as Hc; [|done..].
    eapply scoped_on; [exact Hc|done..|exact H|done].
  - m_bind H as v s1 H1. eapply start_finish_counted in H1 as Hc; [|done|apply Hs|done].
    eapply scoped_on; [exact Hc|done..|exact H|done].
  - unfold hclib_end_finish, current_ws in H. m_bind H as ws s1 Hws. m_bind Hws. m_action Hws.
    m_bind H. m_bind H as b s1 Hb1. m_bind H as g s1 Hg. m_bind H as b2 s1 Hb2.
    eapply scoped_on; [exact Hc0|done..|exact H|done].
  - by destruct (Hnb k).
  - m_bind H as v s1 H1. eapply promise_create_counted in H1 as Hc; [|done..].
    eapply scoped_on; [exact Hc|done..|exact H|done].
  - m_bind H as v s1 H1. eapply put_counted in H1 as Hc; [|done..].
    eapply scoped_on; [exact Hc|done..|exact H|done].
  - m_bind H as v s1 H1. unfold hclib_future_is_satisfied in H1. m_bind H1 as pr s2 Hp. m_action H1.
    eapply scoped_on; [exact Hc0|done..|exact H|done].
  - m_bind H as v s1 H1. unfold hclib_future_get in H1. m_bind H1 as pr s2 Hp.
    m_bind H1 as b s2 Hb1. m_action H1. eapply scoped_on; [exact Hc0|done..|exact H|done].
  - unfold hclib_future_wait, current_ws in H. m_bind H as pr s1 Hp. destruct (negb _).
    + eapply scoped_on; [exact Hc0|done..|exact H|done].
    + m_bind H as ws s1 Hws. m_bind Hws. m_action Hws. m_bind H.
      eapply scoped_on; [exact Hc0|done..|exact H|]. by eapply (scoped_workers _ Hs).
  - unfold hclib_yield, current_ws in H. m_bind H as ws s1 Hws. m_bind Hws. m_action Hws.
    eapply scoped_on; [exact Hc0|done..|exact H|]. by eapply (scoped_workers _ Hs).
  - m_bind H as v s1 H1. injection H1 as _ <-.
    assert (counted s (set_calls (calls s ++ [(fptr, args)]) s)) as Hc.
    { split; [by apply (tally_same _ s)|by apply grown_same]. }
    eapply scoped_on; [exact Hc|done..|exact H|done].
  - done.
  - m_bind H as v s1 H1. eapply await_helper_counted in H1 as Hc; [|done..].
    eapply scoped_on; [exact Hc|done..|exact H|done].
  - m_bind H as v s1 H1. eapply await_future_counted in H1 as Hc; [|done..].
    eapply scoped_on; [exact Hc|done..|exact H|done].
  - m_bind H as v s1 H1. unfold hclib_get_current_worker in H1. m_bind H1. m_bind H1 as ws s2 Hws.
    m_action H1. eapply scoped_on; [exact Hc0|done..|exact H|done].
  - m_bind H as v s1 H1. apply cell_new_Ok in H1 as (-> & ->).
    eapply scoped_on; [by apply (cells_counted s (brk s + 1)); [lia|]|done..|exact H|done].
  - m_bind H as v s1 H1. apply cell_get_Ok in H1 as (_ & ->).
    eapply scoped_on; [exact Hc0|done..|exact H|done].
  - m_bind H as u1 s1 H1. apply cell_set_Ok in H1 as (_ & ->).
    eapply scoped_on; [by apply (cells_counted s (brk s)); [lia|]|done..|exact H|done].
  - m_bind H as u1 s1 H1. apply cell_free_Ok in H1 as (_ & ->).
    eapply scoped_on; [by apply (cells_counted s (brk s)); [lia|]|done..|exact H|done].
Qed.

Lemma scoped_to s s2 c fs u s' :
  counted s s2 → scoped s → set_stack c fs s2 = Ok (u, s') → stack_ok s c fs → scoped s'.
Proof.
  intros Hc Hs H Hok. eapply scoped_set; [by eapply counted_scoped|exact H|].
  by eapply stack_grown, Hok; apply Hc.
Qed.

Lemma kept_brk s f s' : kept s f s' → brk s <= brk s'.
Proof. intros (f' & _ & Hq & _). apply (quiet_brk _ _ _ _ Hq). Qed.

Lemma future_wait_exit_scoped p g t k fs s u s' :
  future_wait_exit p g t k fs s = Ok (u, s') → scoped s → stack_ok s (Wait_resumed p g t k) fs →
  scoped s'.
Proof.
  intros H Hs [Hg Hf]. unfold future_wait_exit in H. m_bind H as v s1 H1.
  m_bind H as pr s2 Hp. m_bind H as b s2 Hb.
  eapply scoped_to; [eapply set_scope_counted; [exact H1|exact Hg|apply Hs]|done|exact H|].
  split; [done|]. intros _. by apply Hf.
Qed.

Lemma yield_exit_scoped g t k fs s u s' :
  yield_exit g t k fs s = Ok (u, s') → scoped s → stack_ok s (Yield_resumed g t k) fs → scoped s'.
Proof.
  intros H Hs [Hg Hf]. unfold yield_exit in H. m_bind H as v s1 H1.
  eapply scoped_to; [eapply set_scope_counted; [exact H1|exact Hg|apply Hs]|done|exact H|].
  split; [done|]. intros _. by apply Hf.
Qed.

Lemma return_to_scoped v fs s f c0 x0 u s' :
  return_to v fs s = Ok (u, s') → inv s f → scoped s → running s c0 x0 →
  shape (Ret v) fs → ctl x0 = Ret v → frames x0 = fs → scoped s'.
Proof.
  intros H Hi Hs Hrun Hsh Hctl Hfs. pose proof Hrun as (_ & _ & _ & Hx).
  pose proof (inv_heap _ _ Hi) as Hh. pose proof (counted_refl _ Hs) as Hc0.
  pose proof (scoped_tally _ Hs) as Ht.
  destruct (scoped_stacks _ Hs c0 x0 Hx) as [_ Hf]. rewrite Hctl in Hf. specialize (Hf ltac:(done)).
  rewrite Hfs in Hf.
  destruct fs as [|fr fs]; cbn [return_to] in H; [m_action H; done|].
  apply Forall_cons in Hf as [Hfr Hf].
  destruct fr; cbn [frame_ok] in Hfr.
  - eapply exit_scoped; [exact H|exact Hi|done|exact Hrun|exact Hfs|by rewrite Hctl].
  - m_bind H as w s1 H1. eapply put_counted in H1 as Hc; [|done..].
    eapply scoped_to; [exact Hc|done|exact H|by split].
  - eapply scoped_to; [exact Hc0|done|exact H|by split].
  - eapply scoped_to; [exact Hc0|done|exact H|by split].
  - unfold core_work_loop_end in H. m_bind H as b s1 Hb. m_bind H as flag s1 Hfl.
    destruct (negb _); (eapply scoped_to; [exact Hc0|done|exact H|by split]).
  - cbn in Hsh. destruct Hsh as [?|[[? _]|[_ Hv]]]; [done..|]. rewrite (Hv eq_refl) in H.
    eapply scoped_to; [exact Hc0|done|exact H|by split].
  - destruct (v =? NULL).
    + eapply scoped_to; [exact Hc0|done|exact H|by split].
    + eapply scoped_new_ctx; [exact H|exact Hrun| |done|by split|done].
      apply (stacks_bounds _ _ (inv_stacks _ _ Hi)). by exists x0.
  - eapply scoped_to; [exact Hc0|done|exact H|by split].
  - unfold _hclib_finalize_ctx in H. m_bind H as w s1 H1. unfold hclib_signal_join in H1. m_action H1.
    eapply (scoped_set (set_flags ((λ _, 0) <$> done_flags s) s)); [|exact H|by split].
    destruct Hs as [? ? ?]. split; [by apply (tally_same _ s)|done|done].
Qed.

Lemma execute_scoped t fs s c0 x0 u s' :
  execute_task t fs s = Ok (u, s') → scoped s → running s c0 x0 →
  ctl x0 = Exec t → frames x0 = fs → scoped s'.
Proof.
  intros H Hs Hrun Hctl Hfs. unfold execute_task in H. m_bind H as tk s1 Htk. m_bind H as v s1 H1.
  assert (scope_of s !! t = Some (t_finish tk)) as Et by (unfold scope_of; by rewrite lookup_fmap, Htk).
  eapply set_scope_counted in H1 as Hc; [|by apply (tally_scope _ _ (scoped_tally _ Hs) t)|apply Hs].
  pose proof Hrun as (_ & _ & _ & Hx). destruct (scoped_stacks _ Hs c0 x0 Hx) as [_ Hf].
  rewrite Hctl, Hfs in Hf. specialize (Hf ltac:(done)).
  assert (Forall (frame_ok s) (F_execute t (t_finish tk) :: fs)) as Hf1 by (by constructor).
  destruct (t_fp tk).
  - eapply scoped_to; [exact Hc|done|exact H|by split].
  - eapply scoped_to; [exact Hc|done|exact H|]. split; [done|]. intros _. by constructor.
  - apply set_scope_Ok in H1 as (ws & Hws & ->).
    eapply (scoped_swap _ _ _ _ c0 x0); [exact H| |by eapply counted_scoped|by split].
    destruct Hrun as (ws0 & Hws0 & Hc0 & _). exists (mkWs (t_finish tk) t (curr_ctx ws)).
    split; [cbn; by rewrite lookup_insert_eq|]. split; [|done]. cbn. congruence.
Qed.

Lemma run_or_return_scoped t fresh g fs s u s' :
  run_or_return t fresh g fs s = Ok (u, s') → scoped s → Forall (frame_ok s) fs → scoped s'.
Proof.
  intros H Hs Hf. unfold run_or_return in H. m_bind H as tk s1 Htk. pose proof (counted_refl _ Hs) as Hc.
  destruct (_ || _ || _).
  - eapply scoped_to; [exact Hc|done|exact H|]. split; [done|]. intros _. by constructor.
  - eapply scoped_to; [exact Hc|done|exact H|by split].
Qed.

Lemma find_scoped ws fresh flag g stealing fs s f c0 x0 u s' :
  find_and_run_task ws fresh flag g stealing fs s = Ok (u, s') → inv s f → scoped s → running s c0 x0 →
  ctl x0 = Find ws fresh flag g stealing → frames x0 = fs → scoped s'.
Proof.
  intros H Hi Hs Hrun Hctl Hfs. pose proof Hrun as (_ & _ & _ & Hx).
  destruct (scoped_stacks _ Hs c0 x0 Hx) as [_ Hf]. rewrite Hctl, Hfs in Hf. specialize (Hf ltac:(done)).
  pose proof (scoped_tally _ Hs) as Ht. unfold find_and_run_task in H.
  pose proof (heap_pool_ok _ _ (inv_heap _ _ Hi)) as Hpl. destruct stealing.
  - m_bind H as v s1 Hv. assert (s1 = s) as ->.
    { unfold read_flag in Hv. destruct flag; [by m_action Hv|m_bind Hv; by m_action Hv|
        m_bind Hv; by m_action Hv]. }
    destruct (v =? flag_val flag).
    + eapply scoped_to; [by apply counted_refl|done|exact H|by split].
    + m_bind H as ts s1 Hts. apply with_pool_Ok in Hts as (pl & Hts & ->).
      destruct (pool_steal_law _ _ _ _ Hpl Hts) as [Hpl' Hperm]. destruct ts as [|t rest].
      * eapply scoped_to; [apply counted_rest; [apply same_rest_pool|done]|done|exact H|by split].
      * m_bind H as v1 s1 Hre. pose proof (grab _ _ _ _ _ _ _ _ Hi Hpl' Hperm Hre) as Hg.
        pose proof (counted_rest _ _ (grabbed_rest _ _ _ _ Hg) Ht) as Hc.
        eapply run_or_return_scoped; [exact H|by eapply counted_scoped|].
        by apply (stack_grown s s1 (Find ws fresh flag g true) fs); [apply Hc|split|].
  - m_bind H as t s1 Ht1. apply with_pool_Ok in Ht1 as (pl & Ht1 & ->).
    pose proof (counted_rest _ _ (same_rest_pool s pl) Ht) as Hc. destruct (t =? NULL).
    + eapply scoped_to; [exact Hc|done|exact H|by split].
    + eapply run_or_return_scoped; [exact H|by eapply counted_scoped|].
      by apply (stack_grown s _ (Find ws fresh flag g true) fs); [apply Hc|split|].
Qed.

Lemma help_wait_scoped p t s f u s' :
  _help_wait p t s = Ok (u, s') → inv s f → scoped s → scoped s'.
Proof.
  intros H Hi Hs. unfold _help_wait, current_ws in H.
  m_bind H as ws s1 Hws. m_bind Hws. m_action Hws. m_bind H as x s1 Hx. m_bind H as tk s1 Ht.
  apply new_task_Ok in Ht as (-> & ->). m_bind H as v s2 H1. unfold spawn_escaping in H1.
  pose proof (new_spawn_counted _ false _ _ _ s f _ _ H1 (inv_heap _ _ Hi) (inv_brk _ _ Hi)
    (scoped_tally _ Hs)) as Hc.
  eapply scoped_to; [exact Hc|done|exact H|]. split; [done|]. intros _. by repeat constructor.
Qed.

Lemma yield_helper_scoped t locale s f u s' :
  yield_helper t locale s = Ok (u, s') → inv s f → scoped s → scoped s'.
Proof.
  intros H Hi Hs. unfold yield_helper, current_ws in H. m_bind H as b s1 Hb.
  m_bind H as ws s1 Hws. m_bind Hws. m_action Hws. m_bind H as x s1 Hx. m_bind H as tk s1 Ht.
  apply new_task_Ok in Ht as (-> & ->). m_bind H as v s2 H1. unfold spawn_escaping_at in H1.
  pose proof (new_spawn_counted _ false _ _ _ s f _ _ H1 (inv_heap _ _ Hi) (inv_brk _ _ Hi)
    (scoped_tally _ Hs)) as Hc.
  eapply scoped_to; [exact Hc|done|exact H|]. split; [done|]. intros _. by repeat constructor.
Qed.

Lemma yield_loop_scoped g t locale k fs s f c0 x0 u s' :
  yield_loop g t locale k fs s = Ok (u, s') → inv s f → scoped s → running s c0 x0 →
  ctl x0 = Yield_loop g t locale k → frames x0 = fs → scoped s'.
Proof.
  intros H Hi Hs Hrun Hctl Hfs. pose proof Hrun as (_ & _ & _ & Hx).
  pose proof (scoped_stacks _ Hs c0 x0 Hx) as Hst. rewrite Hctl, Hfs in Hst.
  unfold yield_loop in H. m_bind H. m_bind H as r s1 Hf.
  pose proof (yield_find_ok _ _ f _ _ Hf Hi) as [Hsr _].
  pose proof (counted_rest _ _ Hsr (scoped_tally _ Hs)) as Hc.
  pose proof (counted_scoped _ _ Hc Hs) as Hs1.
  pose proof (stack_grown _ _ _ _ (proj2 Hc) Hst) as [Hg1 Hf1]. cbn in Hg1. specialize (Hf1 ltac:(done)).
  destruct (r =? NULL).
  - eapply yield_exit_scoped; [exact H|done|by split].
  - m_bind H as tk s2 Htk. destruct (non_blocking tk).
    + eapply scoped_to; [by apply counted_refl|done|exact H|]. split; [done|]. intros _. by constructor.
    + eapply scoped_new_ctx; [exact H|by eapply running_rest| |done|by split|done].
      assert (is_Some (ctxs s !! c0)) as Hsome by (by exists x0).
      apply (stacks_bounds _ _ (inv_stacks _ _ Hi)) in Hsome. destruct Hsr. lia.
Qed.

(** Every action keeps the counts, as long as no scope is ended by
    [hclib_end_finish_nonblocking]. *)
Lemma step_scoped w s f u s' :
  step w s = Ok (u, s') → inv s f → scoped s →
  (∀ k, current_ctl w s ≠ Some (Run (End_finish_nonblocking k))) → scoped s'.
Proof.
  intros H Hi0 Hs0 Hnb. unfold step, current_ws in H. m_bind H. m_bind H as ws s1 Hws.
  m_bind Hws. m_action Hws. m_bind H as x s1 Hx. cbn in Hx, Hws.
  destruct (inv_self s f w Hi0) as [Hi _]. pose proof (scoped_self s w Hs0) as Hs.
  assert (current_ctl w s = Some (ctl x)) as Hcur by (unfold current_ctl; rewrite Hws; cbn; by rewrite Hx).
  set (s1 := set_self w s) in *.
  assert (running s1 (curr_ctx ws) x) as Hrun by (by exists ws).
  pose proof (stacks_ctx _ _ (inv_stacks _ _ Hi) _ _ Hx) as [Hsh _ _ _].
  pose proof (scoped_stacks _ Hs _ x Hx) as Hst. pose proof (scoped_tally _ Hs) as Ht.
  pose proof (counted_refl _ Hs) as Hc0. pose proof (eq_refl (frames x)) as Hfs.
  destruct (ctl x) eqn:Hctl; cbn [run_stack] in H; cbn [shape] in Hsh.
  - eapply run_code_scoped; [exact H|done..|]. intros k ->. by eapply Hnb.
  - by eapply return_to_scoped.
  - by eapply execute_scoped.
  - by eapply find_scoped.
  - unfold core_work_loop in H. m_bind H. rewrite Hsh in H.
    eapply scoped_to; [exact Hc0|done|exact H|]. split; [done|]. intros _. by repeat constructor.
  - unfold help_finish in H. m_bind H as g s2 Hg. destruct Hst as [_ Hf]. specialize (Hf ltac:(done)).
    destruct (_ >? 1).
    + eapply scoped_to; [exact Hc0|done|exact H|]. split; [done|]. intros _. by constructor.
    + m_bind H as b s2 Hb. m_bind H as v s2 H1.
      destruct (end_finish_exit_counted _ _ _ _ _ H1 Ht) as (Hc & _).
      eapply scoped_to; [exact Hc|done|exact H|by split].
  - done.
  - destruct Hst as [Hg Hf]. cbn in Hg. specialize (Hf ltac:(done)).
    unfold future_wait_loop in H. m_bind H as p s2 Hp. destruct (_ =? _).
    + eapply scoped_to; [exact Hc0|done|exact H|]. split; [done|]. intros _. by constructor.
    + eapply future_wait_exit_scoped; [exact H|done|by split].
  - m_bind H as v s2 H1. destruct (scoped_destroy _ _ _ H1 Hs) as (Hs2 & Hb & Es).
    eapply future_wait_exit_scoped; [exact H|done|].
    eapply stack_same_scope; [exact Hb|exact Es|exact Hst].
  - by eapply yield_loop_scoped.
  - m_bind H as v s2 H1. destruct (scoped_destroy _ _ _ H1 Hs) as (Hs2 & Hb & Es).
    eapply yield_exit_scoped; [exact H|done|].
    eapply stack_same_scope; [exact Hb|exact Es|exact Hst].
  - done.
  - by eapply help_wait_scoped.
  - by eapply yield_helper_scoped.
  - m_action H. done.
  - done.
Qed.

(** ** Runs *)

(** No scope is ended by [hclib_end_finish_nonblocking] along the schedule. *)
Fixpoint only_blocking (schedule : list Z) (s : rt S) : bool :=
  match schedule with
  | [] => true
  | w :: schedule =>
      match current_ctl w s with
      | Some (Run (End_finish_nonblocking _)) => false
      | _ => match step w s with Ok (_, s') => only_blocking schedule s' | Err _ => true end
      end
  end.

Lemma only_blocking_cons w schedule s u s1 :
  only_blocking (w :: schedule) s = true → step w s = Ok (u, s1) →
  (∀ k, current_ctl w s ≠ Some (Run (End_finish_nonblocking k))) ∧ only_blocking schedule s1 = true.
Proof.
  cbn [only_blocking]. intros Hb H. rewrite H in Hb.
  split; [intros k E; by rewrite E in Hb|]. destruct (current_ctl w s) as [[]|]; try done. by destruct c.
Qed.

Lemma only_blocking_app l1 l2 s u s1 :
  only_blocking (l1 ++ l2) s = true → run l1 s = Ok (u, s1) →
  only_blocking l1 s = true ∧ only_blocking l2 s1 = true.
Proof.
  revert s. induction l1 as [|w l1 IH]; intros s Hb H.
  - by injection H as _ <-.
  - apply run_cons in H as (v & s2 & H2 & H). destruct (only_blocking_cons _ _ _ _ _ Hb H2) as [Hn Hb2].
    destruct (IH s2 Hb2 H) as [H3 H4]. split; [|done]. cbn [only_blocking]. rewrite H2.
    destruct (current_ctl w s) as [[]|] eqn:E; try done. destruct c; try done. by destruct (Hn k).
Qed.

Lemma launch_scoped p n main locale : scoped (launch p n main locale).
Proof.
  split.
  - split; [intros g x Hx; cbn in Hx; by rewrite lookup_empty in Hx|]. intros t g. unfold scope_of. cbn.
    by rewrite fmap_empty, lookup_empty.
  - intros c x Hx. cbn in Hx. apply elem_of_list_to_map_2, list_elem_of_fmap in Hx as (w & [= -> ->] & _).
    destruct (w =? 0); (split; [done|]); intros _; by repeat constructor.
  - intros w ws Hw. cbn in Hw. apply elem_of_list_to_map_2, list_elem_of_fmap in Hw as (w' & [= -> ->] & _).
    unfold NULL. cbn. lia.
Qed.

Lemma run_scoped schedule s f u s' :
  run schedule s = Ok (u, s') → inv s f → scoped s → only_blocking schedule s = true →
  (∃ f', inv s' f') ∧ scoped s'.
Proof.
  revert s f. induction schedule as [|w schedule IH]; intros s f H Hi Hs Hb.
  - injection H as _ <-. split; [by exists f|done].
  - apply run_cons in H as (v & s1 & H1 & H).
    destruct (only_blocking_cons _ _ _ _ _ Hb H1) as [Hnb Hb1].
    destruct (step_acted _ _ _ _ _ H1 Hi) as (f1 & Hi1 & _).
    eapply IH; [exact H|exact Hi1|by eapply step_scoped|done].
Qed.

Lemma launched_scoped p n main locale schedule s :
  pool_ok p → pool_tasks p = [] → run schedule (launch p n main locale) = Ok (tt, s) →
  only_blocking schedule (launch p n main locale) = true → (∃ f, inv s f) ∧ scoped s.
Proof.
  intros Hp Ht H Hb. eapply run_scoped; [exact H|by apply launch_inv|apply launch_scoped|done].
Qed.

Lemma members_range s f g : inv s f → scoped s → 0 <= members s g < 2 * brk s.
Proof.
  intros Hi Hs. pose proof (inv_brk _ _ Hi) as Hb. unfold members.
  assert (0 <= count (scope_of s) g < brk s).
  { apply count_range; [|done]. intros t. unfold scope_of. rewrite lookup_fmap, fmap_is_Some.
    apply (heap_bounds _ _ (inv_heap _ _ Hi)). }
  assert (0 <= count (parent_of s) g < brk s); [|lia].
  apply count_range; [|done]. intros h. unfold parent_of. rewrite lookup_fmap, fmap_is_Some.
  intros [x Hx]. by apply (tally_counter _ _ (scoped_tally _ Hs)) in Hx as (_ & _ & ? & ? & _).
Qed.

Lemma counter_exact s f g x :
  inv s f → scoped s → brk s < 2 ^ 30 → finishes s !! g = Some x → counter x = 1 + members s g.
Proof.
  intros Hi Hs Hb Hx. destruct (tally_counter _ _ (scoped_tally _ Hs) g x Hx) as (-> & _).
  pose proof (members_range s f g Hi Hs). unfold no_debt. rewrite Z.add_0_r. apply wrap_small. lia.
Qed.

(** Nothing of scope [g] is left: no task, queued, waiting or running, and no
    scope opened in it. *)
Definition scope_done (s : rt S) (g : Z) : Prop :=
  (∀ t tk, tasks s !! t = Some tk → t_finish tk ≠ g) ∧
  (∀ h x, finishes s !! h = Some x → parent x ≠ g).

Lemma scope_done_members s g : scope_done s g ↔ members s g = 0.
Proof.
  unfold members. split.
  - intros [H1 H2]. rewrite !count_zero; [done| |].
    + intros h v. unfold parent_of. rewrite lookup_fmap_Some. intros (x & <- & Hx). by eapply H2.
    + intros t v. unfold scope_of. rewrite lookup_fmap_Some. intros (tk & <- & Ht). by eapply H1.
  - intros H. assert (0 <= count (scope_of s) g) by (unfold count; lia).
    assert (0 <= count (parent_of s) g) by (unfold count; lia). split.
    + intros t tk Ht E. apply (count_zero_inv (scope_of s) g t); [lia|].
      unfold scope_of. by rewrite lookup_fmap, Ht, <- E.
    + intros h x Hx E. apply (count_zero_inv (parent_of s) g h); [lia|].
      unfold parent_of. by rewrite lookup_fmap, Hx, <- E.
Qed.

(** One round of [help_finish]. *)
Lemma help_step w s ws g t k u s' :
  current_ctl w s = Some (Help_loop ws g t k) → step w s = Ok (u, s') → scoped s →
  ∃ x, finishes s !! g = Some x ∧
    ((1 < counter x ∧ current_ctl w s' ≠ Some (Run k)) ∨
     (counter x = 1 ∧ current_ctl w s' = Some (Run k) ∧ tasks s' = tasks s ∧
      ∃ m, finishes s' = delete g m ∧ parent <$> m = parent <$> finishes s)).
Proof.
  intros (ws0 & x0 & Hws0 & Hx0 & Hc)%current_ctl_Some H Hs. unfold step, current_ws in H.
  m_bind H. m_bind H as ws1 s1 Hws. m_bind Hws. m_action Hws. m_bind H as x1 s1 Hx. cbn in Hx, Hws.
  assert (ws1 = ws0) as -> by congruence. assert (x1 = x0) as -> by congruence.
  rewrite Hc in H. cbn [run_stack] in H. unfold help_finish in H. m_bind H as y s1 Hy.
  exists y. split; [done|]. destruct (Z.gtb_spec (counter y) 1) as [Hgt|Hle].
  - left. split; [lia|]. apply set_stack_ctl in H. cbn in H. by rewrite H.
  - right. m_bind H as b s1 Hb. apply Z.eqb_eq in Hb. split; [done|]. m_bind H as v s1 H1.
    destruct (end_finish_exit_counted _ _ _ _ _ H1 (scoped_tally _ (scoped_self s w Hs)))
      as (_ & Ht & Hself & m & Ef & Em).
    pose proof H as Hctl. apply set_stack_ctl in Hctl. rewrite Hself in Hctl.
    split; [exact Hctl|]. apply set_stack_Ok in H as (? & ? & _ & _ & ->). split; [exact Ht|].
    by exists m.
Qed.

(** ** Properties *)

(** C6: finish counters.  Along any run that ends its scopes with
    [hclib_end_finish], the counter of a live scope is exactly one more than its
    tasks in memory (spawned and not yet run to their end, wherever they wait)
    plus the scopes opened in it; the [int] does not overflow while fewer than
    2^30 objects are allocated. *)
Theorem finish_counter_exact (p : S) n main locale schedule s g x :
  pool_ok p → pool_tasks p = [] → run schedule (launch p n main locale) = Ok (tt, s) →
  only_blocking schedule (launch p n main locale) = true → brk s < 2 ^ 30 →
  finishes s !! g = Some x →
  counter x = 1 + count (t_finish <$> tasks s) g + count (parent <$> finishes s) g.
Proof.
  intros Hp Ht H Hb Hbrk Hx. destruct (launched_scoped _ _ _ _ _ _ Hp Ht H Hb) as [[f Hi] Hs].
  rewrite (counter_exact s f g x Hi Hs Hbrk Hx). apply Z.add_assoc.
Qed.

(** C1: [hclib_end_finish] waits.  A worker that is about to test the counter
    of scope [g] for the last time leaves [hclib_end_finish] if and only if
    nothing of the scope is left: every task spawned in it, directly or by
    tasks of it, has run to its end, and every scope opened in it has ended.
    The scope is then freed, once.  The run ends no scope with [hclib_end_finish_nonblocking]
    ([only_blocking]) and allocates fewer than 2^30 objects. *)
Theorem end_finish_waits (p : S) n main locale schedule s w ws g t k u s' :
  pool_ok p → pool_tasks p = [] → run schedule (launch p n main locale) = Ok (tt, s) →
  only_blocking schedule (launch p n main locale) = true → brk s < 2 ^ 30 →
  current_ctl w s = Some (Help_loop ws g t k) → step w s = Ok (u, s') →
  (current_ctl w s' = Some (Run k) ↔ scope_done s g) ∧
  (current_ctl w s' = Some (Run k) → scope_done s' g ∧ finishes s' !! g = None).
Proof.
  intros Hp Ht H Hb Hbrk Hc H1. destruct (launched_scoped _ _ _ _ _ _ Hp Ht H Hb) as [[f Hi] Hs].
  destruct (help_step _ _ _ _ _ _ _ _ Hc H1 Hs) as (x & Hx & Hcase).
  pose proof (counter_exact s f g x Hi Hs Hbrk Hx) as Hcount.
  rewrite scope_done_members. destruct Hcase as [[Hgt Hne]|(E1 & Hrun & Ets & m & Ef & Em)].
  - split; [|done]. split; [done|lia].
  - assert (members s g = 0) as Hz by lia. split; [done|]. intros _.
    split; [|rewrite Ef; by rewrite lookup_delete_eq]. apply scope_done_members in Hz as [H2 H3]. split.
    + by rewrite Ets.
    + intros h y. rewrite Ef. intros [_ Hy]%lookup_delete_Some.
      assert ((parent <$> m) !! h = Some (parent y)) as E by (by rewrite lookup_fmap, Hy).
      rewrite Em, lookup_fmap_Some in E. destruct E as (z & <- & Hz). by eapply H3.
Qed.
End scopes.

(** ** Concrete runs *)

Definition two_futures_alone : rt locality := launch (small_pool 1) 1 two_futures None.

Definition last_test : rt locality := state_after (replicate 22 0) two_futures_alone.

Lemma finish_counter_exact_witness :
  let s := state_after (replicate 9 0) two_futures_alone in
  ∃ x, finishes s !! 2 = Some x ∧ counter x = 3 ∧
    counter x = 1 + count (t_finish <$> tasks s) 2 + count (parent <$> finishes s) 2.
Proof.
  intros s. exists (mkFinish 0 3 0). split; [by vm_compute|]. split; [done|].
  apply (finish_counter_exact (small_pool 1) 1 two_futures None (replicate 9 0)).
  - apply small_pool_ok.
  - apply small_pool_empty.
  - apply run_state_after. by vm_compute.
  - by vm_compute.
  - by vm_compute.
  - by vm_compute.
Defined.

Lemma end_finish_waits_witness :
  current_ctl 0 (state_after [0] last_test) = Some (Run (Return NULL)) ∧
  scope_done (state_after [0] last_test) 2 ∧ finishes (state_after [0] last_test) !! 2 = None.
Proof.
  destruct (end_finish_waits (small_pool 1) 1 two_futures None (replicate 22 0) last_test 0 0 2 0
    (Return NULL) tt (state_after [0] last_test)) as [H1 H2].
  - apply small_pool_ok.
  - apply small_pool_empty.
  - apply run_state_after. by vm_compute.
  - by vm_compute.
  - by vm_compute.
  - by vm_compute.
  - apply step_state_after. by vm_compute.
  - assert (current_ctl 0 (state_after [0] last_test) = Some (Run (Return NULL))) as E by (by vm_compute).
    split; [exact E|]. by apply H2.
Defined.
