(* ===== verification/RuntimeCalls.v ===== *)
(** * What a finish scope has done when it ends

    A task may call code of other libraries.  If it makes a call on each of its
    paths, the call has been made when the task has run to its end, whatever
    stacks it was blocked on in between; so when [hclib_end_finish] returns, every
    call of the tasks spawned in the scope has been made.  The modules for
    communication rest on that: each of their operations opens a scope, spawns the
    call of the library at the locale of the network interface and ends the
    scope. *)

From S2P Require Import Prelude Deque Locality LocalityRun Pool Runtime RuntimeHeap RuntimeStack RuntimeStep RuntimeSafe RuntimeScopes RuntimeMoves RuntimeOwner.
From stdpp Require Import options.

(** ** Calls that code is bound to make *)

(** What is asked of a call: which it is and what it returns. *)
Notation call_spec := (extern_call → Z → Prop).

(** It is this call, whatever it returns. *)
Definition call_is (e : extern_call) : call_spec := λ e' _, e' = e.

(** Every path of the code makes calls as specified, in this order. *)
Inductive makes : list call_spec → code → Prop :=
  | makes_none c : makes [] c
  | makes_call P Ps f args k :
      (∀ v, (P (f, args) v ∧ makes Ps (k v)) ∨ makes (P :: Ps) (k v)) → makes (P :: Ps) (Call f args k)
  | makes_later P Ps c :
      (∀ v, c ≠ Return v) → (∀ f args k, c ≠ Call f args k) →
      (∀ c', next c c' → makes (P :: Ps) c') → makes (P :: Ps) c.

Lemma makes_return P Ps v : ¬ makes (P :: Ps) (Return v).
Proof. intros H. inversion H as [| |? ? ? Hc]; subst. by apply (Hc v). Qed.

(** Code without calls leaves it to what follows. *)
Lemma makes_next_same P Ps c c' :
  makes (P :: Ps) c → next c c' → (∀ f args k, c ≠ Call f args k) → makes (P :: Ps) c'.
Proof. intros H Hn Hc. inversion H; subst; [by edestruct Hc|auto]. Qed.

(** What the user function at the top of a stack is bound to call. *)
Definition will (Ps : list call_spec) (c : control) : Prop :=
  match c with
  | Run c => makes Ps c
  | Help_loop _ _ _ k | Help_resumed _ _ _ k | Yield_loop _ _ _ k | Yield_resumed _ _ k => makes Ps k
  | Wait_loop _ _ _ _ k | Wait_resumed _ _ _ k => ∀ v, makes Ps (k v)
  | _ => False
  end.

Definition will_frame (Ps : list call_spec) (fr : frame) : Prop :=
  match fr with
  | F_help _ _ _ k | F_yield _ _ _ k => makes Ps k
  | F_wait _ _ _ _ k => ∀ v, makes Ps (k v)
  | _ => False
  end.

(** Wherever task [t] is on a stack, what is above it is bound to make the
    calls. *)
Fixpoint due (Ps : list call_spec) (t : Z) (above : Prop) (fs : list frame) : Prop :=
  match fs with
  | [] => True
  | F_execute t' _ :: fs => (t' = t → above) ∧ due Ps t False fs
  | F_future_caller _ :: fs => due Ps t above fs
  | fr :: fs => due Ps t (will_frame Ps fr) fs
  end.

(** The task whose function is at the top of the stack. *)
Fixpoint owner_of (fs : list frame) : option Z :=
  match fs with
  | F_execute t _ :: _ => Some t
  | F_future_caller _ :: fs => owner_of fs
  | _ => None
  end.

Lemma due_mono Ps t (P Q : Prop) fs : (P → Q) → due Ps t P fs → due Ps t Q fs.
Proof.
  intros H. induction fs as [|[] fs IH]; cbn; try done.
  intros [H1 H2]. split; [by intros E; apply H, H1|done].
Qed.

Lemma due_owner Ps t P fs : owner_of fs = Some t → due Ps t P fs → P.
Proof. induction fs as [|[] fs IH]; cbn; try done. intros [= ->] [H _]. by apply H. Qed.

Lemma due_not_owner Ps t P Q fs : owner_of fs ≠ Some t → due Ps t P fs → due Ps t Q fs.
Proof.
  induction fs as [|[] fs IH]; cbn; try done. intros Hn [_ H]. split; [by intros ->|done].
Qed.

Lemma due_absent Ps t P fs : t ∉ executing fs → due Ps t P fs.
Proof.
  revert P. induction fs as [|[] fs IH]; intros P Ht; cbn in *; try done; try by apply IH.
  apply not_elem_of_cons in Ht as [Hn Ht]. split; [by intros ->|by apply IH].
Qed.

Lemma due_owner_only Ps t (P : Prop) fs :
  owner_of fs = Some t → NoDup (executing fs) → P → due Ps t P fs.
Proof.
  intros Ho Hn HP. induction fs as [|[] fs IH]; cbn in *; try done; [|by apply IH].
  injection Ho as ->. apply NoDup_cons in Hn as [Hn _]. split; [done|by apply due_absent].
Qed.

Lemma owner_executing fs t : owner_of fs = Some t → t ∈ executing fs.
Proof.
  induction fs as [|[] fs IH]; cbn; try done. intros [= ->]. by left.
Qed.

(** The function of a task. *)
Definition task_body (fp : fn) : option code :=
  match fp with User c | Future_caller _ c => Some c | Finish_ctx_resume _ => None end.

Section calls.
Context {S : Type} `{!TaskPool S} {EX : Externs}.
#[local] Set Default Proof Using "Type*".

(** ** Calls in the log *)

(** The log, after the calls [before], has calls as specified in this order. *)
Inductive in_order : list extern_call → list extern_call → list call_spec → Prop :=
  | order_none before log : in_order before log []
  | order_skip before e log Ps : in_order (before ++ [e]) log Ps → in_order before (e :: log) Ps
  | order_call before e log P Ps : P e (extern before e.1 e.2) → in_order (before ++ [e]) log Ps →
      in_order before (e :: log) (P :: Ps).

Lemma in_order_more before log more Ps : in_order before log Ps → in_order before (log ++ more) Ps.
Proof. induction 1; cbn; by constructor. Qed.

Lemma in_order_snoc before log Ps P e :
  in_order before log Ps → P e (extern (before ++ log) e.1 e.2) → in_order before (log ++ [e]) (Ps ++ [P]).
Proof.
  induction 1 as [before log|before e' log Ps _ IH|before e' log Q Ps HQ _ IH]; intros HP.
  - revert before HP. induction log as [|e' log IH]; intros before HP; cbn.
    + rewrite app_nil_r in HP. apply order_call; [done|constructor].
    + apply order_skip, IH. by rewrite <- app_assoc.
  - apply order_skip, IH. by rewrite <- app_assoc.
  - apply order_call; [done|]. apply IH. by rewrite <- app_assoc.
Qed.

(** The calls made since there were [n]. *)
Definition called_since (n : nat) (Ps : list call_spec) (s : rt S) : Prop :=
  in_order (firstn n (calls s)) (skipn n (calls s)) Ps.

(** The call that the action makes. *)
Definition call_of (c : control) : option extern_call :=
  match c with Run (Call f args _) => Some (f, args) | _ => None end.

Lemma action_log w (s : rt S) c0 x0 s' :
  action w s c0 x0 s' →
  calls s' = calls s ++ match call_of (ctl x0) with Some e => [e] | None => [] end.
Proof. intros [_ _ _ ->]. by destruct (ctl x0) as [[]| | | | | | | | | | | | | | |]; cbn; rewrite ?app_nil_r. Qed.

Lemma called_later n Ps w (s : rt S) c0 x0 s' :
  action w s c0 x0 s' → (n <= length (calls s))%nat →
  (n <= length (calls s'))%nat ∧ (called_since n Ps s → called_since n Ps s') ∧
  (∀ P e, call_of (ctl x0) = Some e → P e (extern (calls s) e.1 e.2) → called_since n Ps s →
    called_since n (Ps ++ [P]) s').
Proof.
  intros E%action_log Hn. unfold called_since. rewrite E, length_app, skipn_app, firstn_app.
  replace (n - length (calls s))%nat with O by lia. rewrite firstn_O, skipn_O, app_nil_r.
  split; [lia|]. split; [by apply in_order_more|]. intros P e -> HP Hc. apply in_order_snoc; [done|].
  by rewrite firstn_skipn.
Qed.

(** ** Tasks that are to make calls *)

(** Task [t] is in memory and has the calls still to make. *)
Record tracked (Ps : list call_spec) (t : Z) (s : rt S) (f : Z → place) : Prop := {
  tracked_task : ∃ tk c, tasks s !! t = Some tk ∧ task_body (t_fp tk) = Some c ∧
    (unstarted (f t) = true → makes Ps c);
  tracked_stacks : ∀ c x, ctxs s !! c = Some x → ctl x ≠ Abandoned →
    due Ps t (will Ps (ctl x)) (frames x)
}.

(** The action makes the first of the calls for task [t]. *)
Definition progress (P : call_spec) (Ps : list call_spec) (t : Z) (s : rt S) (x0 : LiteCtx)
    (c : control) (fs : list frame) : Prop :=
  owner_of (frames x0) = Some t ∧ fs = frames x0 ∧
  ∃ f args k d, ctl x0 = Run (Call f args k) ∧ c = Run d ∧ P (f, args) (extern (calls s) f args) ∧ makes Ps d.

Lemma goes_due P Ps t w s f c0 x0 c' fs' :
  tracked (P :: Ps) t s f → inv s f → ctxs s !! c0 = Some x0 → goes w s (ctl x0) (frames x0) c' fs' →
  due (P :: Ps) t (will (P :: Ps) (ctl x0)) (frames x0) →
  due (P :: Ps) t (will (P :: Ps) c') fs' ∨ progress P Ps t s x0 c' fs'.
Proof.
  intros [(tk0 & body & Ht & Hb & Hm) _] Hi Hx Hg Hd.
  assert (∀ t' tk d fs, ctl x0 = Exec t' → tasks s !! t' = Some tk → task_body (t_fp tk) = Some d →
    due (P :: Ps) t False fs → (t' = t → makes (P :: Ps) d) ∧ due (P :: Ps) t False fs) as Hexec.
  { intros t' tk d r Hc H1 H2 Hr. split; [|done]. intros ->. assert (d = body) as -> by congruence.
    apply Hm. destruct (ready_in s f c0 x0 t Hi Hx) as (E & _); [by rewrite Hc|by rewrite E]. }
  destruct x0 as [ctl0 fs0 pr0]. unfold progress. cbn [ctl frames] in *.
  assert (∀ k, (∀ f args k', ctl0 ≠ Run (Call f args k')) → (∀ c, ctl0 = Run c → next c k) →
    (∃ c, ctl0 = Run c) → due (P :: Ps) t (makes (P :: Ps) k) fs0) as Hsame.
  { intros k Hno Hn [c E]. eapply due_mono; [|exact Hd]. rewrite E in Hno |- *. cbn. intros H.
    eapply makes_next_same; [exact H|by apply Hn|]. intros ? ? ? ->. by eapply Hno. }
  destruct Hg as [c c' fs Hn _ Hv|v fs|k ws g fs _|p k g t' fs|l k g t' fs|t' tk c fs H1 H2|t' tk ev c fs H1 H2
    |t' tk c fs H1 H2| | | | | | | | | | | | | | | | | | | | | | | | | |];
    try (left; exact Hd); try (left; by destruct Hd); cbn [will] in Hd.
  - destruct (decide (owner_of fs = Some t)) as [Ho|Ho]; [|left; by eapply due_not_owner].
    pose proof (due_owner _ _ _ _ Ho Hd) as H.
    inversion H as [|P' Ps' g args k Hcall|P' Ps' c1 Hr Hc Hnext]; subst; [|left; eapply due_mono; [|exact Hd]; cbn; auto].
    cbn in Hv. destruct (Hcall (extern (calls s) g args)) as [[HP Hk]|Hk].
    + right. split; [done|]. split; [done|]. exists g, args, k, c'. by rewrite Hv.
    + left. eapply due_mono; [|exact Hd]. intros _. cbn. by rewrite Hv.
  - left. eapply due_mono; [|exact Hd]. apply makes_return.
  - left. apply Hsame; [done|intros c [= <-]; constructor|by eexists].
  - left. eapply due_mono; [|exact Hd]. intros H v. by eapply makes_next_same; [exact H|constructor|].
  - left. apply Hsame; [done|intros c [= <-]; constructor|by eexists].
  - left. cbn. eapply Hexec; [done|exact H1|by rewrite H2|exact Hd].
  - left. cbn. eapply Hexec; [done|exact H1|by rewrite H2|exact Hd].
  - left. cbn. split; [|exact Hd]. intros ->. assert (tk = tk0) as -> by congruence. by rewrite H2 in Hb.
  - left. eapply due_mono; [|exact Hd]. intros H. apply H.
  - left. eapply due_mono; [|exact Hd]. intros H. apply H.
Qed.

Lemma tracked_tasks Ps t s f s' f' Q :
  tracked Ps t s f → inv s f → later s f s' f' → functions_kept Q s s' →
  ∃ tk c, tasks s' !! t = Some tk ∧ task_body (t_fp tk) = Some c ∧ (unstarted (f' t) = true → makes Ps c).
Proof.
  intros [(tk & c & Ht & Hb & Hm) _] Hi Hl [_ F _]. destruct (F t tk Ht) as (tk' & Ht' & E).
  exists tk', c. rewrite E. split; [done|]. split; [done|]. intros Hu. apply Hm.
  destruct (later_unstarted _ _ _ _ Hl t Hu) as [?|Hn]; [done|].
  pose proof (heap_bounds _ _ (inv_heap _ _ Hi) t ltac:(by rewrite Ht)). lia.
Qed.

Lemma turned_live w (s : rt S) c0 x0 s' : turned w s c0 x0 s' → ctl x0 ≠ Abandoned.
Proof.
  assert (∀ c fs, goes w s (ctl x0) (frames x0) c fs → ctl x0 ≠ Abandoned) as H.
  { intros c fs Hg E. rewrite E in Hg. inversion Hg. }
  intros [? ? Hg|? ? ? ? ? Hg|? ? ? Hg|? ? ? ? ? ? Hc|? ? Hg]; [by eapply H..|congruence|by eapply H].
Qed.

(** After a call for [t] the rest of the calls is to be made. *)
Lemma tracked_progress P Ps t s f c0 x0 s' f' c fs :
  tracked (P :: Ps) t s f → inv s f → later s f s' f' → ctxs s !! c0 = Some x0 →
  progress P Ps t s x0 c fs → functions_kept no_resume s s' →
  ctxs s' = <[c0 := mkCtx c fs (prev x0)]> (ctxs s) → tracked Ps t s' f'.
Proof.
  intros Htr Hi Hl Hx (Ho & -> & g & args & k & d & Hctl & -> & _ & Hd) HF Ec.
  pose proof (stacks_ctx _ _ (inv_stacks _ _ Hi) _ _ Hx) as [_ _ Hrun Hnd].
  assert (running_of (ctl x0) (frames x0) = executing (frames x0)) as Er by (by rewrite Hctl).
  rewrite Er in Hrun, Hnd. assert (f t = Running c0) as Eft by (apply Hrun; by apply owner_executing).
  split.
  - destruct Htr as [(tk & b & Ht & Hb & _) _]. destruct HF as [_ F _]. destruct (F t tk Ht) as (tk' & Ht' & E).
    exists tk', b. rewrite E. split; [done|]. split; [done|]. intros Hu.
    destruct (later_unstarted _ _ _ _ Hl t Hu) as [Hu'|Hn]; [by rewrite Eft in Hu'|].
    pose proof (heap_bounds _ _ (inv_heap _ _ Hi) t ltac:(by rewrite Ht)). lia.
  - intros c1 x. rewrite Ec. destruct (decide (c1 = c0)) as [->|Hne].
    + rewrite lookup_insert_eq. intros [= <-] _. by apply due_owner_only.
    + rewrite lookup_insert_ne by done. intros Hx1 Ha. apply due_absent. intros Hin.
      destruct (stacks_ctx _ _ (inv_stacks _ _ Hi) _ _ Hx1) as [_ _ Hrun1 _].
      assert (f t = Running c1) as E by (apply Hrun1; by destruct (ctl x)). congruence.
Qed.

(** The task makes the first call, and the rest remains. *)
Definition called_first (P : call_spec) (Ps : list call_spec) (t : Z) (s : rt S) (x0 : LiteCtx)
    (s' : rt S) (f' : Z → place) : Prop :=
  (∃ e, call_of (ctl x0) = Some e ∧ P e (extern (calls s) e.1 e.2)) ∧ tracked Ps t s' f'.

Lemma tracked_action P Ps t w s f c0 x0 s' f' :
  tracked (P :: Ps) t s f → inv s f → later s f s' f' → ctxs s !! c0 = Some x0 → action w s c0 x0 s' →
  tracked (P :: Ps) t s' f' ∨ called_first P Ps t s x0 s' f'.
Proof.
  intros Htr Hi Hl Hx [Hturn _ _ _]. pose proof (tracked_stacks _ _ _ _ Htr) as Hst.
  pose proof (Hst c0 x0 Hx (turned_live _ _ _ _ _ Hturn)) as Hd.
  pose proof (λ c fs, goes_due P Ps t w s f c0 x0 c fs Htr Hi Hx) as Hgo.
  pose proof (λ Q, tracked_tasks _ _ _ _ _ _ Q Htr Hi Hl) as Htask.
  assert (∀ c d fs p (m : gmap Z LiteCtx) x, due (P :: Ps) t (will (P :: Ps) d) fs →
    (∀ y, m !! c = Some y → ctl y ≠ Abandoned → due (P :: Ps) t (will (P :: Ps) (ctl y)) (frames y)) →
    <[c0 := mkCtx d fs p]> m !! c = Some x → ctl x ≠ Abandoned →
    due (P :: Ps) t (will (P :: Ps) (ctl x)) (frames x)) as Hins.
  { intros c d fs p m x Hd' Hm. destruct (decide (c = c0)) as [->|].
    - rewrite lookup_insert_eq. by intros [= <-].
    - rewrite lookup_insert_ne by done. apply Hm. }
  destruct Hturn as [c fs Hg _ _ _ Ec Ew HF|n cn c fs ws' Hg Hh Hh' Hcn Hn Ec Hws' Hcur HF
    |c fs t' Hg Hh Hh' Hr Ec Ew Ht HF|t' tk c y ws' fs Hctl Ht Hfp Hfs Hy Ec Hws' Hcur HF
    |c fs Hg Hr Hh Hr' Hp Ec Hne Ew HF].
  - destruct (Hgo _ _ Hg Hd) as [Hd'|Hpr].
    + left. split; [|intros c1 x; rewrite Ec; apply Hins; [done|apply Hst]].
      destruct HF as [HF|(v & t' & g & r & s2 & E1 & E2 & HF & Eb & Et)]; [by eapply Htask|].
      rewrite E1, E2 in Hd. destruct Hd as [Hd _]. destruct Htr as [(tk & b & Htk & Hb & Hm) _].
      destruct HF as [_ F _]. destruct (F t tk Htk) as (tk' & Htk' & E).
      exists tk', b. rewrite Et, lookup_delete_ne by (intros E'; by apply Hd). rewrite E.
      split; [done|]. split; [done|]. intros Hu. apply Hm.
      destruct (later_unstarted _ _ _ _ Hl t Hu) as [?|Hn]; [done|].
      pose proof (heap_bounds _ _ (inv_heap _ _ Hi) t ltac:(by rewrite Htk)). lia.
    + right. pose proof Hpr as (_ & _ & g & args & k & d & Hctl & _ & HP & _).
      split; [exists (g, args); by rewrite Hctl|].
      destruct HF as [HF|(v & t' & ? & r & s2 & E1 & _)]; [|congruence]. by eapply tracked_progress.
  - destruct (Hgo _ _ Hg Hd) as [Hd'|(_ & _ & ? & ? & ? & ? & _ & -> & _)]; [left|by destruct Hh'].
    split; [by eapply Htask|]. intros c1 x. rewrite Ec. destruct (decide (c1 = n)) as [->|].
    + rewrite lookup_insert_eq. by intros [= <-].
    + rewrite lookup_insert_ne by done. apply Hins; [done|apply Hst].
  - destruct (Hgo _ _ Hg Hd) as [Hd'|(_ & _ & ? & ? & ? & ? & E & _)]; [left|by rewrite E in Hh].
    split; [by eapply Htask|]. intros c1 x. rewrite Ec. apply Hins; [done|apply Hst].
  - left. assert (due (P :: Ps) t False fs) as Hd'.
    { rewrite Hfs. cbn. rewrite Hctl in Hd. split; [|exact Hd]. intros ->.
      destruct (tracked_task _ _ _ _ Htr) as (tk0 & d & H1 & H2 & _). assert (tk = tk0) as -> by congruence.
      by rewrite Hfp in H2. }
    split; [by eapply Htask|]. intros c1 x. rewrite Ec.
    assert (∀ c2 z, <[c0:=mkCtx Abandoned fs (prev x0)]> (ctxs s) !! c2 = Some z →
      ctl z ≠ Abandoned → due (P :: Ps) t (will (P :: Ps) (ctl z)) (frames z)) as Hall.
    { intros c2 z. apply Hins; [done|apply Hst]. }
    destruct (decide (c1 = c)) as [->|].
    + rewrite lookup_insert_eq. intros [= <-]. exact (Hall c y Hy).
    + rewrite lookup_insert_ne by done. apply Hall.
  - destruct (Hgo _ _ Hg Hd) as [Hd'|(_ & _ & ? & ? & ? & ? & E & _)]; [left|by rewrite E in Hr].
    split; [by eapply Htask|]. intros c1 x. rewrite Ec. eapply Hins; [exact Hd'|].
    intros z [_ H]%lookup_delete_Some. by apply (Hst c1).
Qed.

(** Of the calls [Ps], some have been made since then, and [t], in scope [g], is
    to make the rest. *)
Definition pending_calls (n : nat) (Ps : list call_spec) (t g : Z) (s : rt S) (f : Z → place) : Prop :=
  ∃ Ds Rs, Ps = Ds ++ Rs ∧ called_since n Ds s ∧
    (Rs = [] ∨ (tracked Rs t s f ∧ ∀ tk, tasks s !! t = Some tk → t_finish tk = g)).

Lemma pending_action n Ps t g w s f c0 x0 s' f' :
  inv s f → later s f s' f' → ctxs s !! c0 = Some x0 → action w s c0 x0 s' →
  (n <= length (calls s))%nat → pending_calls n Ps t g s f → pending_calls n Ps t g s' f'.
Proof.
  intros Hi Hl Hx Ha Hn (Ds & Rs & -> & Hdone & Hrest).
  destruct (called_later n Ds _ _ _ _ _ Ha Hn) as (_ & Hkeep & Hnow).
  destruct Rs as [|P Rs]; [exists Ds, []; split; [done|split; [by apply Hkeep|by left]]|].
  destruct Hrest as [|[Htr Hg]]; [done|].
  assert (∀ tk, tasks s' !! t = Some tk → t_finish tk = g) as Hg'.
  { intros tk' Ht'. destruct (tracked_task _ _ _ _ Htr) as (tk0 & _ & Ht0 & _).
    pose proof (heap_bounds _ _ (inv_heap _ _ Hi) t ltac:(by rewrite Ht0)) as Hb.
    destruct (later_static _ _ _ _ Hl t tk' ltac:(lia) Ht') as (tk & Htk & E). injection E as _ E _.
    rewrite E. by apply Hg. }
  destruct (tracked_action _ _ _ _ _ _ _ _ _ _ Htr Hi Hl Hx Ha) as [Htr'|[(e & He & HP) Htr']].
  - exists Ds, (P :: Rs). split; [done|]. split; [by apply Hkeep|]. by right.
  - exists (Ds ++ [P]), Rs. split; [by rewrite <- app_assoc|]. split; [by eapply Hnow|]. by right.
Qed.

(** When nothing of the scope is left, the calls have been made. *)
Lemma pending_done n Ps t g s f : pending_calls n Ps t g s f → scope_done s g → called_since n Ps s.
Proof.
  intros (Ds & Rs & -> & Hdone & [->|[Htr Hg]]) [Hd _]; [by rewrite app_nil_r|].
  destruct (tracked_task _ _ _ _ Htr) as (tk & _ & Ht & _). destruct (Hd t tk Ht). by apply Hg.
Qed.

(** ** Spawning *)

(** The task that a spawn makes, in the worker's scope. *)
Lemma new_spawn_task fp nb locale futures s f u s' :
  spawn_handler (brk s) locale futures false
    (set_tasks (<[brk s := fresh_task fp nb]> (tasks s)) (set_brk (brk s + 1) s)) = Ok (u, s') →
  heap_ok s f → 0 < brk s →
  ∃ ws tk, workers s !! self s = Some ws ∧ tasks s' !! brk s = Some tk ∧ t_fp tk = fp ∧
    t_finish tk = current_finish ws ∧ ctxs s' = ctxs s ∧ workers s' = workers s.
Proof.
  intros H Hok Hb.
  assert (task_ok s (fresh_task fp nb) Woken) as Htk.
  { split; [split; cbn; [done|lia]|]. intros j p Hj He Hnn. cbn in Hj.
    assert (j = 0) as -> by lia. by injection He as <-. }
  pose proof (heap_ok_new s f _ Hok Hb Htk) as Hok1.
  set (s1 := set_tasks _ _) in *. set (f1 := <[brk s := Woken]> f) in *.
  apply spawn_handler_Ok in H as (ws & m & tk & Hws & (v & Hc) & Htk1 & H). cbn zeta in *.
  cbn [tasks set_tasks s1] in Htk1. rewrite lookup_insert_eq in Htk1. injection Htk1 as <-.
  set (tk1 := spawned_task (fresh_task fp nb) (current_finish ws) locale futures) in *.
  set (s3 := set_tasks (<[brk s := tk1]> (tasks s1)) (set_finishes m s1)) in *.
  assert (f1 (brk s) = Woken) as Ef by (unfold f1; by rewrite fn_lookup_insert).
  assert (heap_ok s3 f1) as Hok3.
  { apply (heap_ok_task (set_finishes m s1) f1 (brk s) (fresh_task fp nb) tk1);
      [by apply heap_ok_finishes|cbn; by rewrite lookup_insert_eq|by rewrite Ef|].
    rewrite Ef. apply spawned_task_ok. }
  eapply (try_schedule_ok (brk s) _ s3 f1 tk1) in H as (Hsr & _); [|done|done|cbn; by rewrite lookup_insert_eq].
  destruct Hsr. assert (task_static <$> tasks s' !! brk s = Some (task_static tk1)) as E.
  { rewrite <- lookup_fmap, same_static, lookup_fmap. unfold s3. cbn. by rewrite lookup_insert_eq. }
  apply fmap_Some in E as (tk' & Ht' & E). exists ws, tk'. split; [done|]. split; [done|].
  assert (t_fp tk1 = fp ∧ t_finish tk1 = current_finish ws) as [E1 E2]
    by (unfold tk1, spawned_task; by destruct (_ >? 0)).
  injection E as E3 E4 _. split; [congruence|]. split; [congruence|]. by split.
Qed.

Lemma async_task fp futures locale s f u s' :
  hclib_async fp futures locale s = Ok (u, s') → heap_ok s f → 0 < brk s →
  ∃ ws tk, workers s !! self s = Some ws ∧ tasks s' !! brk s = Some tk ∧ t_fp tk = fp ∧
    t_finish tk = current_finish ws ∧ ctxs s' = ctxs s ∧ workers s' = workers s.
Proof.
  intros H Hok Hb. unfold hclib_async in H. m_bind H as t s1 Ht. apply new_task_Ok in Ht as [-> ->].
  destruct (_ >? 0); by eapply new_spawn_task.
Qed.

Lemma await_helper_task fp futures locale nb s f u s' :
  async_await_at_helper fp futures locale nb s = Ok (u, s') → heap_ok s f → 0 < brk s →
  ∃ ws tk, workers s !! self s = Some ws ∧ tasks s' !! brk s = Some tk ∧ t_fp tk = fp ∧
    t_finish tk = current_finish ws ∧ ctxs s' = ctxs s ∧ workers s' = workers s.
Proof.
  intros H Hok Hb. unfold async_await_at_helper in H. m_bind H as t s1 Ht. apply new_task_Ok in Ht as [-> ->].
  m_bind H as tk s1 Htk. m_bind H. cbn in Htk. rewrite lookup_insert_eq in Htk. injection Htk as <-.
  unfold spawn_await_at in H. eapply (new_spawn_task fp nb); [|done|done].
  match type of H with spawn_handler _ _ _ _ ?s1 = _ =>
    replace s1 with (set_tasks (<[brk s := fresh_task fp nb]> (tasks s)) (set_brk (brk s + 1) s)) in H end;
    [exact H|]. unfold set_tasks. cbn. by rewrite insert_insert_eq.
Qed.

(** The code spawns [fp] in the scope of its worker. *)
Definition spawns (c fp : code) : Prop :=
  (∃ futures l k, c = Async fp futures l k) ∨ (∃ l k, c = Async_nb fp l k) ∨
  (∃ futures l nb k, c = Cpp_async fp futures l nb k).

Lemma spawn_step w s f c fp ws u s1 :
  inv s f → workers s !! w = Some ws → current_ctl w s = Some (Run c) → spawns c fp →
  step w s = Ok (u, s1) →
  workers s1 = workers s ∧
  ∃ tk, tasks s1 !! brk s = Some tk ∧ t_fp tk = User fp ∧ t_finish tk = current_finish ws.
Proof.
  intros Hi Hws Hc Hsp H. destruct (step_run_code _ _ _ _ _ Hc H) as [fs H1].
  destruct (inv_self s f w Hi) as [[Hh _ _ Hb] _].
  assert (∀ m : M S unit, (∀ v s2, m (set_self w s) = Ok (v, s2) →
      ∃ ws tk, workers s !! w = Some ws ∧ tasks s2 !! brk s = Some tk ∧ t_fp tk = User fp ∧
        t_finish tk = current_finish ws ∧ ctxs s2 = ctxs s ∧ workers s2 = workers s) →
    ∀ k, (_ ← m; set_stack (Run k) fs) (set_self w s) = Ok (u, s1) →
    workers s1 = workers s ∧
    ∃ tk, tasks s1 !! brk s = Some tk ∧ t_fp tk = User fp ∧ t_finish tk = current_finish ws) as Hrun.
  { intros m Hm k E. m_bind E as v s2 E2. destruct (Hm v s2 E2) as (ws' & tk & H2 & H3 & H4 & H5 & _ & H6).
    assert (ws' = ws) as -> by congruence. apply set_stack_Ok in E as (? & ? & _ & _ & ->).
    split; [done|]. by exists tk. }
  destruct Hsp as [(futures & l & k & ->)|[(l & k & ->)|(futures & l & nb & k & ->)]]; cbn [run_code] in H1;
    (eapply Hrun; [|exact H1]); intros v s2 E.
  - by apply (async_task _ _ _ _ f) in E.
  - by apply (await_helper_task _ [] _ true _ f) in E.
  - by apply (await_helper_task _ _ _ _ _ f) in E.
Qed.

(** User code does not change the frames below it. *)
Lemma run_frames w (s : rt S) c0 x0 s' c c1 x :
  action w s c0 x0 s' → ctxs s !! c0 = Some x0 → ctl x0 = Run c → ctxs s' !! c1 = Some x →
  ctl x ≠ Abandoned →
  frames x = [] ∨ ∃ x', ctxs s !! c1 = Some x' ∧ ctl x' ≠ Abandoned ∧ frames x = frames x'.
Proof.
  intros [Hturn _ _ _] Hx Hctl Hx1 Ha.
  assert (∀ d fs, goes w s (ctl x0) (frames x0) d fs → fs = frames x0) as Hsame.
  { intros d fs Hg. rewrite Hctl in Hg. inversion Hg; congruence. }
  assert (ctl x0 ≠ Abandoned) as Ha0 by (by rewrite Hctl).
  destruct Hturn as [d fs Hg _ _ _ Ec|n cn d fs ws' Hg _ _ _ _ Ec|d fs t Hg Hh|t tk d y ws' fs E
    |d fs Hg Hr]; [| |by rewrite Hctl in Hh|congruence|by rewrite Hctl in Hr].
  - right. rewrite Ec in Hx1. destruct (decide (c1 = c0)) as [->|].
    + rewrite lookup_insert_eq in Hx1. injection Hx1 as <-. exists x0. by rewrite (Hsame _ _ Hg).
    + rewrite lookup_insert_ne in Hx1 by done. by exists x.
  - rewrite Ec in Hx1. destruct (decide (c1 = n)) as [->|].
    { rewrite lookup_insert_eq in Hx1. injection Hx1 as <-. by left. }
    right. rewrite lookup_insert_ne in Hx1 by done. destruct (decide (c1 = c0)) as [->|].
    + rewrite lookup_insert_eq in Hx1. injection Hx1 as <-. exists x0. by rewrite (Hsame _ _ Hg).
    + rewrite lookup_insert_ne in Hx1 by done. by exists x.
Qed.

(** The new task is on no stack. *)
Lemma spawn_absent w s f c u s1 c1 x :
  inv s f → current_ctl w s = Some (Run c) → step w s = Ok (u, s1) →
  ctxs s1 !! c1 = Some x → ctl x ≠ Abandoned → brk s ∉ executing (frames x).
Proof.
  intros Hi Hc H Hx Hn Hin. destruct (step_action _ _ _ _ _ H Hi) as (ws' & x0 & Hws' & Hx0 & Ha).
  assert (ctl x0 = Run c) as Ec.
  { unfold current_ctl in Hc. rewrite Hws' in Hc. cbn in Hc. rewrite Hx0 in Hc. by injection Hc. }
  destruct (run_frames _ _ _ _ _ _ _ _ Ha Hx0 Ec Hx Hn) as [E|(x' & Hx' & Hn' & E)]; rewrite E in Hin.
  - by apply elem_of_nil in Hin.
  - destruct (stacks_ctx _ _ (inv_stacks _ _ Hi) c1 x' Hx') as [_ _ Hu _].
    assert (f (brk s) = Running c1) as Ef by (apply Hu; by destruct (ctl x')).
    assert (is_Some (tasks s !! brk s)) as Hs by (apply (heap_present _ _ (inv_heap _ _ Hi)); congruence).
    apply (heap_bounds _ _ (inv_heap _ _ Hi)) in Hs. lia.
Qed.

(** The new task is tracked from its spawn on. *)
Lemma spawn_tracked w s f c fp ws u s1 f1 Ps :
  inv s f → workers s !! w = Some ws → current_ctl w s = Some (Run c) → spawns c fp → makes Ps fp →
  step w s = Ok (u, s1) →
  workers s1 = workers s ∧ tracked Ps (brk s) s1 f1 ∧
  ∀ tk, tasks s1 !! brk s = Some tk → t_finish tk = current_finish ws.
Proof.
  intros Hi Hws Hc Hsp Hm H. destruct (spawn_step _ _ _ _ _ _ _ _ Hi Hws Hc Hsp H) as (Ew & tk & Ht & Hfp & Hg).
  split; [done|]. split; [|intros tk' Ht'; congruence]. split; [exists tk, fp; by rewrite Hfp|].
  intros c1 x Hx Hn. by eapply due_absent, spawn_absent.
Qed.

(** ** Runs *)

Lemma run_pending schedule s f u s' n Ps t g :
  run schedule s = Ok (u, s') → inv s f → (n <= length (calls s))%nat → pending_calls n Ps t g s f →
  ∃ f', pending_calls n Ps t g s' f'.
Proof.
  revert s f. induction schedule as [|w schedule IH]; intros s f H Hi Hn Hp.
  - injection H as _ <-. by exists f.
  - apply run_cons in H as (v & s1 & H1 & H).
    destruct (step_action _ _ _ _ _ H1 Hi) as (ws & x0 & _ & Hx & Ha).
    destruct (step_acted _ _ _ _ _ H1 Hi) as (f1 & Hi1 & Hl & _).
    eapply IH; [exact H|exact Hi1| |exact (pending_action _ _ _ _ _ _ _ _ _ _ _ Hi Hl Hx Ha Hn Hp)].
    by destruct (called_later n Ps _ _ _ _ _ Ha Hn).
Qed.

Lemma run_split l1 l2 (s : rt S) u s' :
  run (l1 ++ l2) s = Ok (u, s') → ∃ s1, run l1 s = Ok (tt, s1) ∧ run l2 s1 = Ok (u, s').
Proof.
  revert s. induction l1 as [|w l1 IH]; intros s H; [by exists s|].
  apply run_cons in H as ([] & s1 & H1 & H). destruct (IH s1 H) as (s2 & H2 & H3).
  exists s2. split; [|done]. cbn [run]. unfold mbind, M_bind. by rewrite H1.
Qed.

(** A worker that leaves a scope has seen that nothing of it is left. *)
Lemma leave_scope w s f ws g t k u s' :
  inv s f → scoped s → brk s < 2 ^ 30 → current_ctl w s = Some (Help_loop ws g t k) →
  step w s = Ok (u, s') → current_ctl w s' = Some (Run k) → scope_done s g.
Proof.
  intros Hi Hs Hb Hc H Hc'. destruct (help_step _ _ _ _ _ _ _ _ Hc H Hs) as (x & Hx & [[_ Hn]|[E _]]); [done|].
  pose proof (counter_exact s f g x Hi Hs Hb Hx). apply scope_done_members. lia.
Qed.

(** C11: a scope collects the calls of its tasks.  A worker spawns in scope [g] a
    function that makes calls of another library as specified, in that order, on
    each of its paths.  When a worker later leaves [hclib_end_finish] of [g], these
    calls have been made in that order, and what each returned is as specified,
    wherever the task ran, blocked or was resumed.  The run ends no scope with [hclib_end_finish_nonblocking]
    ([only_blocking]) and allocates fewer than 2^30 objects. *)
Theorem finish_collects_calls (p : S) n main locale schedule0 s0 w ws c fp Ps schedule s2 w2 ws2 t k u s3 :
  pool_ok p → pool_tasks p = [] →
  run schedule0 (launch p n main locale) = Ok (tt, s0) →
  workers s0 !! w = Some ws → current_ctl w s0 = Some (Run c) → spawns c fp → makes Ps fp →
  run (w :: schedule) s0 = Ok (tt, s2) →
  only_blocking (schedule0 ++ w :: schedule) (launch p n main locale) = true → brk s2 < 2 ^ 30 →
  current_ctl w2 s2 = Some (Help_loop ws2 (current_finish ws) t k) → step w2 s2 = Ok (u, s3) →
  current_ctl w2 s3 = Some (Run k) →
  called_since (length (calls s0)) Ps s2.
Proof.
  intros Hp Ht H0 Hws Hc Hsp Hm H Hb Hbrk Hc2 H3 Hc3.
  destruct (run_inv _ _ _ _ _ H0 (launch_inv p n main locale Hp Ht)) as (f & Hi & _).
  destruct (launched_scoped _ _ _ _ _ _ Hp Ht (run_app _ _ _ _ _ H0 H) Hb) as [[f2 Hi2] Hs2].
  apply run_cons in H as (v & s1 & H1 & H).
  destruct (step_action _ _ _ _ _ H1 Hi) as (ws' & x0 & _ & Hx & Ha).
  destruct (step_acted _ _ _ _ _ H1 Hi) as (f1 & Hi1 & _).
  destruct (spawn_tracked _ _ _ _ _ _ _ _ f1 Ps Hi Hws Hc Hsp Hm H1) as (_ & Htr & Hg).
  destruct (called_later (length (calls s0)) [] _ _ _ _ _ Ha ltac:(lia)) as (Hn & _).
  destruct (run_pending _ _ _ _ _ _ Ps (brk s0) (current_finish ws) H Hi1 Hn) as [f3 Hp2].
  { exists [], Ps. split; [done|]. split; [constructor|by right]. }
  eapply pending_done; [exact Hp2|]. by eapply leave_scope.
Qed.
End calls.

(** ** A concrete run

    The main task calls function 9 on 5; worker 0 waits for it. *)
Definition caller_main : code := Call 9 [5] (λ _, Return NULL).

Definition caller_launch : rt locality := launch (small_pool 1) 1 caller_main None.
Definition caller_spawn : rt locality := state_after [0] caller_launch.
Definition caller_end : rt locality := state_after (replicate 10 0) caller_spawn.

Lemma finish_collects_calls_witness :
  calls caller_spawn = [] ∧ called_since 0 [call_is (9, [5])] caller_end.
Proof.
  split; [by vm_compute|].
  apply (finish_collects_calls (small_pool 1) 1 caller_main None [0] caller_spawn 0 (mkWs 2 0 1)
    (Async caller_main [] None (End_finish (Return NULL))) caller_main [call_is (9, [5])] (replicate 9 0) caller_end
    0 0 0 (Return NULL) tt (state_after [0] caller_end)).
  - apply small_pool_ok.
  - apply small_pool_empty.
  - apply (run_state_after [0]). by vm_compute.
  - by vm_compute.
  - by vm_compute.
  - left. by exists [], None, (End_finish (Return NULL)).
  - apply makes_call. intros v. left. split; [done|constructor].
  - apply (run_state_after (replicate 10 0)). by vm_compute.
  - by vm_compute.
  - by vm_compute.
  - by vm_compute.
  - apply step_state_after. by vm_compute.
  - by vm_compute.
Defined.
