(* ===== verification/RuntimeBlocking.v ===== *)
(** * Blocking calls made of a scope and a task

    The operations of the communication modules open a scope, spawn one task at
    the locale of the network interface and end the scope.  When such an operation
    returns to its caller, the task has made its calls; this holds although the
    worker runs other tasks meanwhile and other workers may run the task. *)

From S2P Require Import Prelude Deque Locality LocalityRun Pool Runtime RuntimeHeap RuntimeStack RuntimeStep RuntimeSafe RuntimeScopes RuntimeMoves RuntimeOwner RuntimeCalls.
From stdpp Require Import options.

(** A scope around one spawned function, and then [k]. *)
Definition one_task (body : code) (futures : list Z) (locale : option Z) (nb : bool) (k : code) : code :=
  Start_finish (Cpp_async body futures locale nb (End_finish k)).

(** ** Code does not come round to itself *)

Lemma next_into c : Acc (flip next) c.
Proof.
  induction c; constructor; intros c' Hn; inversion Hn; subst; auto.
Qed.

Lemma next_path_into c : Acc (flip (tc next)) c.
Proof.
  induction (next_into c) as [c _ IH]. constructor. intros d Hd. unfold flip in Hd.
  inversion Hd as [? ? H1|? y ? H1 H2]; subst; [by apply IH|]. destruct (IH y H1) as [Hy]. by apply Hy.
Qed.

Lemma next_acyclic c c' : tc next c c' → c ≠ c'.
Proof.
  intros H <-. induction (next_path_into c) as [c _ IH]. by apply (IH c).
Qed.

Section blocking.
Context {S : Type} `{!TaskPool S} {EX : Externs}.
#[local] Set Default Proof Using "Type*".

(** ** The stack inside [hclib_end_finish] *)

(** The stack is in [hclib_end_finish] of scope [g], which goes on with [k] on the
    frames [fs]. *)
Definition in_help (g : Z) (k : code) (fs : list frame) (c : control) (fr : list frame) : Prop :=
  (∃ ws t, c = Help_loop ws g t k ∧ fr = fs) ∨ (∃ ab ws t, fr = ab ++ F_help ws g t k :: fs).

Lemma help_cons g k fs F fr :
  (∃ ab ws t, fr = ab ++ F_help ws g t k :: fs) → ∃ ab ws t, F :: fr = ab ++ F_help ws g t k :: fs.
Proof. intros (ab & ws & t & ->). by exists (F :: ab), ws, t. Qed.

Lemma in_help_pop g k fs F fr (c' : control) :
  (∃ ab ws t, F :: fr = ab ++ F_help ws g t k :: fs) → (∀ ws t, F ≠ F_help ws g t k) → in_help g k fs c' fr.
Proof.
  intros (ab & ws & t & E) Hn. destruct ab as [|F' ab]; injection E as -> ->; [by destruct (Hn ws t)|].
  right. by exists ab, ws, t.
Qed.

(** The stack stays in it until the loop ends. *)
Lemma goes_in_help w (s : rt S) g k fs c fr c' fr' :
  goes w s c fr c' fr' → in_help g k fs c fr →
  in_help g k fs c' fr' ∨ ((∃ ws t, c = Help_loop ws g t k) ∧ fr = fs ∧ c' = Run k).
Proof.
  intros Hg [(ws & t & -> & ->)|Hin].
  - inversion Hg; subst; [left; right|by right; split; [by do 2 eexists|]]. by exists [], ws, t.
  - left. destruct Hg; try (right; exact Hin); try (right; by repeat apply help_cons);
      try (eapply in_help_pop; [exact Hin|done]).
    destruct Hin as (ab & ws' & t' & E). destruct ab as [|F' ab]; injection E.
    + intros -> -> -> -> ->. left. by exists ws', t'.
    + intros -> _. right. by exists ab, ws', t'.
Qed.

(** ** The context of another worker *)

Lemma other_action w w' s f own ws ws' x x' s' :
  inv s f → owned s f own → w' ≠ w → workers s !! w = Some ws → ctxs s !! curr_ctx ws = Some x →
  workers s !! w' = Some ws' → ctxs s !! curr_ctx ws' = Some x' → action w' s (curr_ctx ws') x' s' →
  workers s' !! w = Some ws ∧
  ∃ y, ctxs s' !! curr_ctx ws = Some y ∧ ctl y = ctl x ∧ frames y = frames x.
Proof.
  intros Hi Ho Hne Hws Hx Hws' Hx' [Hturn _ Hoth _].
  pose proof (own_curr _ _ _ Ho w ws Hws) as E1. pose proof (own_curr _ _ _ Ho w' ws' Hws') as E2.
  assert (curr_ctx ws' ≠ curr_ctx ws) as Hc by (intros E; congruence).
  split; [by rewrite Hoth by congruence|].
  destruct Hturn as [d fs _ _ _ _ Ec|n cn d fs ws1 _ _ _ _ Hn Ec|d fs t _ _ _ _ Ec
    |t tk d y ws1 fs Hctl Ht Hfp _ Hy Ec|d fs _ Hr _ _ _ Ec].
  - exists x. by rewrite Ec, lookup_insert_ne.
  - exists x. rewrite Ec, !lookup_insert_ne; try done.
    pose proof (inv_ctx_below _ _ _ _ Hi Hx). lia.
  - exists x. by rewrite Ec, lookup_insert_ne.
  - assert (own d = Task t) as E.
    { eapply (own_task _ _ _ Ho); [done..|].
      destruct (ready_in s f (curr_ctx ws') x' t Hi Hx') as (E & _); [by rewrite Hctl|by rewrite E]. }
    exists x. rewrite Ec, !lookup_insert_ne; [done|done|congruence].
  - pose proof (own_back _ _ _ Ho w' ws' x' Hws' Hx' Hr) as E.
    exists x. rewrite Ec, lookup_insert_ne, lookup_delete_ne; [done|congruence|done].
Qed.

(** A context after an action: as it was, or moved on by its worker. *)
Lemma ctx_after w (s : rt S) c1 x0 s' c x :
  action w s c1 x0 s' → ctxs s !! c1 = Some x0 → ctxs s' !! c = Some x → c < brk s →
  (c ≠ c1 ∧ ∃ y, ctxs s !! c = Some y ∧ ctl y = ctl x ∧ frames y = frames x) ∨
  (c = c1 ∧ goes w s (ctl x0) (frames x0) (ctl x) (frames x)).
Proof.
  intros [Hturn _ _ _] Hx0 Hx Hb.
  assert (∀ d fs p (m : gmap Z LiteCtx) z, goes w s (ctl x0) (frames x0) d fs → <[c1 := mkCtx d fs p]> m !! c = Some z →
    (∀ y, m !! c = Some y → ctxs s !! c = Some y) →
    (c ≠ c1 ∧ ∃ y, ctxs s !! c = Some y ∧ ctl y = ctl z ∧ frames y = frames z) ∨
    (c = c1 ∧ goes w s (ctl x0) (frames x0) (ctl z) (frames z))) as Hins.
  { intros d fs p m z Hg Hz Hm. destruct (decide (c = c1)) as [->|].
    - rewrite lookup_insert_eq in Hz. injection Hz as <-. by right.
    - rewrite lookup_insert_ne in Hz by done. left. split; [done|]. exists z. split; [by apply Hm|done]. }
  destruct Hturn as [d fs Hg _ _ _ Ec|n cn d fs ws1 Hg _ _ _ Hn Ec|d fs t Hg _ _ _ Ec
    |t tk d y ws1 fs Hctl Ht Hfp Hfs Hy Ec|d fs Hg _ _ _ _ Ec]; rewrite Ec in Hx.
  - by eapply Hins.
  - rewrite lookup_insert_ne in Hx by lia. by eapply Hins.
  - by eapply Hins.
  - assert (goes w s (ctl x0) (frames x0) Abandoned fs) as Hg by (rewrite Hctl, Hfs; by eapply goes_leave).
    destruct (decide (c = d)) as [->|].
    + rewrite lookup_insert_eq in Hx. injection Hx as <-. cbn. by eapply Hins.
    + rewrite lookup_insert_ne in Hx by done. by eapply Hins.
  - eapply Hins; [exact Hg|exact Hx|]. by intros y [_ ?]%lookup_delete_Some.
Qed.

(** In [hclib_end_finish] the worker stays on its context. *)
Lemma help_turned w (s : rt S) ws x0 s' ws0 g t k :
  workers s !! w = Some ws → action w s (curr_ctx ws) x0 s' → ctl x0 = Help_loop ws0 g t k →
  ∃ x, ctxs s' !! curr_ctx ws = Some x ∧ current_ctl w s' = Some (ctl x).
Proof.
  intros Hws [Hturn _ _ _] Hctl.
  destruct Hturn as [d fs _ _ _ _ Ec Ew|n cn d fs ws1 Hg _ Hr|d fs t1 _ Hh|t1 tk d y ws1 fs E|d fs _ Hh];
    [|rewrite Hctl in Hg; by inversion Hg; subst|by rewrite Hctl in Hh|congruence|by rewrite Hctl in Hh].
  exists (mkCtx d fs (prev x0)). rewrite Ec, lookup_insert_eq. split; [done|].
  assert (curr_ctx <$> workers s' !! w = Some (curr_ctx ws)) as E
    by (by rewrite <- lookup_fmap, Ew, lookup_fmap, Hws).
  apply fmap_Some in E as (ws2 & Hws2 & E). unfold current_ctl. rewrite Hws2. cbn.
  by rewrite <- E, Ec, lookup_insert_eq.
Qed.

(** ** The stages of the calls *)

(** The code makes the calls, in order, before it comes to code in [stop]: by
    itself, and the last ones in a task of a scope that it waits for. *)
Inductive bound : list call_spec → (code → Prop) → code → Prop :=
  | bound_none stop c : bound [] stop c
  | bound_call P Ps stop f args k : ¬ stop (Call f args k) →
      (∀ v, (P (f, args) v ∧ bound Ps stop (k v)) ∨ bound (P :: Ps) stop (k v)) →
      bound (P :: Ps) stop (Call f args k)
  | bound_task Ps stop body futures l nb k : makes Ps body → ¬ stop (one_task body futures l nb k) →
      ¬ stop (Cpp_async body futures l nb (End_finish k)) → ¬ stop (End_finish k) →
      bound Ps stop (one_task body futures l nb k)
  | bound_later Ps stop c : ¬ stop c → (∀ v, c ≠ Return v) → (∀ f args k, c ≠ Call f args k) →
      (∀ p k, c ≠ Future_wait p k) → suspends c = false →
      (∀ c', next c c' → bound Ps stop c') → bound Ps stop c.

Lemma bound_not_stop P Ps stop c : bound (P :: Ps) stop c → ¬ stop c.
Proof. intros H. inversion H; subst; done. Qed.

Section stages.
Context (w c0 : Z) (fs : list frame) (stop : code → Prop) (n : nat) (Ps : list call_spec).

(** The worker is still on the context, with [c] to do. *)
Definition running_code (s : rt S) (c : code) : Prop :=
  ∃ ws x, workers s !! w = Some ws ∧ curr_ctx ws = c0 ∧ ctxs s !! c0 = Some x ∧ ctl x = Run c ∧ frames x = fs.

(** Some of the calls have been made, and [Rs] are left. *)
Definition left_over (Rs : list call_spec) (s : rt S) : Prop :=
  ∃ Ds, Ps = Ds ++ Rs ∧ called_since n Ds s.

Inductive stage (s : rt S) (f : Z → place) : Prop :=
  | stage_before P Rs c : running_code s c → left_over (P :: Rs) s → bound (P :: Rs) stop c → stage s f
  | stage_spawn Rs body futures l nb k : running_code s (Cpp_async body futures l nb (End_finish k)) →
      left_over Rs s → makes Rs body →
      ¬ stop (Cpp_async body futures l nb (End_finish k)) → ¬ stop (End_finish k) → stage s f
  | stage_end k ws t : running_code s (End_finish k) → ¬ stop (End_finish k) → workers s !! w = Some ws →
      pending_calls n Ps t (current_finish ws) s f → stage s f
  | stage_help k g t : pending_calls n Ps t g s f →
      (∀ x, ctxs s !! c0 = Some x → in_help g k fs (ctl x) (frames x)) → stage s f.

Lemma running_code_other w' s f own ws' x' s' c :
  inv s f → owned s f own → w' ≠ w → workers s !! w' = Some ws' → ctxs s !! curr_ctx ws' = Some x' →
  action w' s (curr_ctx ws') x' s' → running_code s c →
  running_code s' c ∧ workers s' !! w = workers s !! w.
Proof.
  intros Hi Ho Hne Hws' Hx' Ha (ws & x & Hws & E & Hx & Hc & Hf). rewrite <- E in Hx.
  destruct (other_action _ _ _ _ _ _ _ _ _ _ Hi Ho Hne Hws Hx Hws' Hx' Ha) as (Hws2 & y & Hy & Ec & Ef).
  split; [|congruence]. exists ws, y. rewrite <- E. split; [done|]. split; [done|]. split; [done|].
  split; congruence.
Qed.

(** The next action of the worker itself. *)
Lemma running_code_next s ws x s' c :
  workers s !! w = Some ws → ctxs s !! curr_ctx ws = Some x → action w s (curr_ctx ws) x s' →
  running_code s c → (∀ v, c ≠ Return v) → (∀ p k, c ≠ Future_wait p k) → suspends c = false →
  ∃ c', next c c' ∧ call_value s c c' ∧ running_code s' c'.
Proof.
  intros Hws Hx [Hturn _ _ _] (ws' & x' & Hws' & Ecur & Hx' & Hc & Hf) Hr Hw Hsu.
  assert (ws' = ws) as -> by congruence. rewrite <- Ecur in Hx'. assert (x' = x) as -> by congruence.
  assert (∀ d fs', goes w s (ctl x) (frames x) d fs' →
    fs' = frames x ∧ ∃ c', d = Run c' ∧ next c c' ∧ call_value s c c') as Hg.
  { intros d fs' Hg. rewrite Hc in Hg. inversion Hg; subst; try done; try (by destruct (Hr v)); try (by destruct (Hw p k)).
    split; [done|]. by eexists. }
  destruct Hturn as [d fs' H _ _ _ Ec Ew|n1 cn d fs' ws1 H _ Hr'|d fs' t _ Hh|t tk d y ws1 fs' E|d fs' _ Hh].
  - destruct (Hg _ _ H) as (-> & c' & -> & Hn & Hv). exists c'. split; [done|]. split; [done|].
    assert (curr_ctx <$> workers s' !! w = Some (curr_ctx ws)) as E
      by (by rewrite <- lookup_fmap, Ew, lookup_fmap, Hws).
    apply fmap_Some in E as (ws2 & Hws2 & E). exists ws2. eexists. split; [done|]. split; [congruence|].
    rewrite Ec, Ecur, lookup_insert_eq. split; [done|]. by split.
  - by destruct (Hg _ _ H) as (_ & c' & -> & _).
  - by rewrite Hc in Hh.
  - congruence.
  - by rewrite Hc in Hh.
Qed.

Lemma running_code_ctl (s : rt S) ws x c :
  workers s !! w = Some ws → ctxs s !! curr_ctx ws = Some x → running_code s c →
  ctl x = Run c ∧ current_ctl w s = Some (Run c).
Proof.
  intros Hws Hx (ws' & x' & Hws' & Ecur & Hx' & Hc & _).
  assert (ws' = ws) as -> by congruence. rewrite <- Ecur in Hx'. assert (x' = x) as -> by congruence.
  split; [done|]. unfold current_ctl. rewrite Hws. cbn. rewrite Hx. cbn. by rewrite Hc.
Qed.

(** The calls that are left when an action makes none of them. *)
Lemma left_over_later w' (s : rt S) ws x s' Rs :
  action w' s (curr_ctx ws) x s' → (n <= length (calls s))%nat → left_over Rs s → left_over Rs s'.
Proof.
  intros Ha Hn (Ds & E & Hd). exists Ds. split; [done|]. by destruct (called_later n Ds _ _ _ _ _ Ha Hn) as (_ & ? & _); auto.
Qed.

(** The code before the scope. *)
Lemma stage_own (s : rt S) f' ws x s' P Rs c :
  workers s !! w = Some ws → ctxs s !! curr_ctx ws = Some x → action w s (curr_ctx ws) x s' →
  (n <= length (calls s))%nat → running_code s c → left_over (P :: Rs) s → bound (P :: Rs) stop c →
  called_since n Ps s' ∨ stage s' f'.
Proof.
  intros Hws Hx Ha Hn Hrun Hleft Hbd. pose proof (left_over_later _ _ _ _ _ _ Ha Hn Hleft) as Hleft'.
  inversion Hbd as [|P' Rs' st g args k Hns Hk|Rs' st body futures l nb k Hm Hn1 Hn2 Hn3
    |Rs' st c1 Hns Hr Hc Hw Hsu Hnext]; subst.
  - destruct (running_code_next _ _ _ _ _ Hws Hx Ha Hrun) as (c' & _ & Hv & Hrun'); [done..|]. cbn in Hv.
    destruct (Hk (extern (calls s) g args)) as [[HP Hk']|Hk'];
      [|right; eapply stage_before; [exact Hrun'|exact Hleft'|by rewrite Hv]].
    destruct (running_code_ctl _ _ _ _ Hws Hx Hrun) as [Ec _]. destruct Hleft as (Ds & E & Hd).
    destruct (called_later n Ds _ _ _ _ _ Ha Hn) as (_ & _ & Hnow).
    specialize (Hnow P (g, args) ltac:(by rewrite Ec) HP Hd). destruct Rs as [|Q Rs]; [left; by rewrite E|right].
    eapply stage_before; [exact Hrun'| |by rewrite Hv]. exists (Ds ++ [P]). by rewrite <- app_assoc.
  - right. destruct (running_code_next _ _ _ _ _ Hws Hx Ha Hrun) as (c' & Hc' & _ & Hrun'); [done..|].
    inversion Hc'; subst. by eapply stage_spawn.
  - right. destruct (running_code_next _ _ _ _ _ Hws Hx Ha Hrun Hr Hw Hsu) as (c' & Hc' & _ & Hrun').
    eapply stage_before; [exact Hrun'|exact Hleft'|]. by apply Hnext.
Qed.

(** The spawn. *)
Lemma stage_spawned f f' s ws x s' u Rs body futures l nb k :
  inv s f → workers s !! w = Some ws → ctxs s !! curr_ctx ws = Some x → action w s (curr_ctx ws) x s' →
  step w s = Ok (u, s') → left_over Rs s' → makes Rs body →
  running_code s (Cpp_async body futures l nb (End_finish k)) → ¬ stop (End_finish k) → stage s' f'.
Proof.
  intros Hi Hws Hx Ha H (Ds & E & Hd) Hm Hrun Hns.
  destruct (running_code_next _ _ _ _ _ Hws Hx Ha Hrun) as (c' & Hn & _ & Hrun'); [done..|].
  inversion Hn; subst c'. destruct (running_code_ctl _ _ _ _ Hws Hx Hrun) as [_ Hcc].
  destruct (spawn_tracked w s f _ body ws u s' f' Rs Hi Hws Hcc) as (Ew & Htr & Hg);
    [right; right; by do 4 eexists|done..|].
  eapply (stage_end _ _ _ ws (brk s)); [done|done|by rewrite Ew|]. exists Ds, Rs. by auto.
Qed.

(** The worker enters [hclib_end_finish]. *)
Lemma enter_help s ws x s' k :
  workers s !! w = Some ws → ctxs s !! curr_ctx ws = Some x → action w s (curr_ctx ws) x s' →
  c0 < brk s → running_code s (End_finish k) →
  ∀ y, ctxs s' !! c0 = Some y → in_help (current_finish ws) k fs (ctl y) (frames y).
Proof.
  intros Hws Hx Ha Hb (ws' & x' & Hws' & Ecur & Hx' & Hc & Hf).
  assert (ws' = ws) as -> by congruence. rewrite <- Ecur in Hx'. assert (x' = x) as -> by congruence.
  intros y Hy. destruct (ctx_after _ _ _ _ _ _ _ Ha Hx Hy Hb) as [[Hne _]|[_ Hg]]; [congruence|].
  rewrite Hc, Hf in Hg. left. inversion Hg as [c1 c' fs1 Hn Hsu Hv|v|k1 ws1 t1 fs1 Hws1| | | | | | | | | | | | | | | | | | | | | | | | | | | | | | |];
    subst; [done|]. assert (ws1 = ws) as -> by congruence. by exists w, t1.
Qed.

Lemma stage_enter s f' ws x s' k t :
  workers s !! w = Some ws → ctxs s !! curr_ctx ws = Some x → action w s (curr_ctx ws) x s' →
  c0 < brk s → running_code s (End_finish k) → pending_calls n Ps t (current_finish ws) s' f' → stage s' f'.
Proof.
  intros Hws Hx Ha Hb Hr Hp. apply (stage_help _ _ k (current_finish ws) t Hp). by eapply enter_help.
Qed.

(** Inside [hclib_end_finish], until the scope is done. *)
Lemma help_inside w' f s ws x s' k g u :
  inv s f → scoped s → brk s < 2 ^ 30 → workers s !! w' = Some ws → ctxs s !! curr_ctx ws = Some x →
  action w' s (curr_ctx ws) x s' → step w' s = Ok (u, s') → c0 < brk s →
  (∀ y, ctxs s !! c0 = Some y → in_help g k fs (ctl y) (frames y)) →
  scope_done s g ∨ ∀ y, ctxs s' !! c0 = Some y → in_help g k fs (ctl y) (frames y).
Proof.
  intros Hi Hs Hbrk Hws Hx Ha H Hb Hin. destruct (decide (curr_ctx ws = c0)) as [Ecur|Hne].
  - pose proof Hx as Hx0. rewrite Ecur in Hx0. pose proof (Hin x Hx0) as Hinx.
    destruct (ctxs s' !! c0) as [y|] eqn:Hy; [|right; by intros y].
    destruct (ctx_after _ _ _ _ _ _ _ Ha Hx Hy Hb) as [[Hne _]|[_ Hg]]; [congruence|].
    destruct (goes_in_help _ _ _ _ _ _ _ _ _ Hg Hinx) as [?|((ws0 & t0 & E) & _ & Erun)];
      [right; by intros ? [= <-]|left].
    destruct (help_turned _ _ _ _ _ _ _ _ _ Hws Ha E) as (y' & Hy' & Hcc).
    rewrite Ecur, Hy in Hy'. injection Hy' as <-. rewrite Erun in Hcc.
    eapply (leave_scope w'); [exact Hi|exact Hs|exact Hbrk| |exact H|exact Hcc].
    unfold current_ctl. rewrite Hws. cbn. by rewrite Hx, <- E.
  - right. intros y Hy. destruct (ctx_after _ _ _ _ _ _ _ Ha Hx Hy Hb) as [(_ & z & Hz & <- & <-)|[E _]];
      [by apply Hin|congruence].
Qed.

Lemma stage_inside w' f f' s ws x s' k g t u :
  inv s f → scoped s → brk s < 2 ^ 30 → workers s !! w' = Some ws → ctxs s !! curr_ctx ws = Some x →
  action w' s (curr_ctx ws) x s' → step w' s = Ok (u, s') → c0 < brk s →
  (∀ y, ctxs s !! c0 = Some y → in_help g k fs (ctl y) (frames y)) →
  pending_calls n Ps t g s f → pending_calls n Ps t g s' f' → (called_since n Ps s → called_since n Ps s') →
  called_since n Ps s' ∨ stage s' f'.
Proof.
  intros Hi Hs Hbrk Hws Hx Ha H Hb Hin Hp Hp' Hkeep.
  destruct (help_inside _ _ _ _ _ _ _ _ _ Hi Hs Hbrk Hws Hx Ha H Hb Hin) as [Hd|Hin'].
  - left. apply Hkeep. by eapply pending_done.
  - right. by eapply stage_help.
Qed.

(** Another worker acts. *)
Lemma stage_other w' f f' own s ws x s' :
  inv s f → owned s f own → w' ≠ w → workers s !! w' = Some ws → ctxs s !! curr_ctx ws = Some x →
  action w' s (curr_ctx ws) x s' → (n <= length (calls s))%nat →
  (∀ t g, pending_calls n Ps t g s f → pending_calls n Ps t g s' f') →
  stage s f → stage s' f' ∨ ∃ k g t, pending_calls n Ps t g s f ∧
    ∀ y, ctxs s !! c0 = Some y → in_help g k fs (ctl y) (frames y).
Proof.
  intros Hi Ho Hne Hws Hx Ha Hn Hpend.
  assert (∀ c, running_code s c → running_code s' c ∧ workers s' !! w = workers s !! w) as Hr.
  { intros c. exact (running_code_other _ _ _ _ _ _ _ _ Hi Ho Hne Hws Hx Ha). }
  pose proof (λ Rs, left_over_later _ _ _ _ _ Rs Ha Hn) as Hleft.
  intros [P Rs c Hrun Hl Hb|Rs body futures l nb k Hrun Hl Hm Hn1 Hn2|k ws0 t Hrun Hn1 Hws0 Hp|k g t Hp Hin];
    [left..|right].
  - eapply stage_before; [by apply Hr|by apply Hleft|done].
  - eapply stage_spawn; [by apply Hr|by apply Hleft|done..].
  - destruct (Hr _ Hrun) as [Hrun' E]. eapply (stage_end _ _ _ ws0); [done|done|by rewrite E|by apply Hpend].
  - by exists k, g, t.
Qed.

Lemma stage_step w' f f' own s s' u :
  inv s f → later s f s' f' → scoped s → owned s f own → brk s < 2 ^ 30 → (n <= length (calls s))%nat →
  c0 < brk s → step w' s = Ok (u, s') → stage s f → called_since n Ps s' ∨ stage s' f'.
Proof.
  intros Hi Hl Hs Ho Hbrk Hn Hb H Hst.
  destruct (step_action _ _ _ _ _ H Hi) as (ws & x & Hws & Hx & Ha).
  destruct (called_later n Ps _ _ _ _ _ Ha Hn) as (_ & Hkeep & _).
  pose proof (λ t g, pending_action n Ps t g _ _ _ _ _ _ _ Hi Hl Hx Ha Hn) as Hpend.
  destruct (decide (w' = w)) as [->|Hne].
  - destruct Hst as [P Rs c Hrun Hlo Hbd|Rs body futures l nb k Hrun Hlo Hm Hn1 Hn2
      |k ws0 t Hrun Hn1 Hws0 Hp|k g t Hp Hin].
    + exact (stage_own _ _ _ _ _ _ _ _ Hws Hx Ha Hn Hrun Hlo Hbd).
    + right. exact (stage_spawned _ _ _ _ _ _ _ _ _ _ _ _ _ Hi Hws Hx Ha H
        (left_over_later _ _ _ _ _ _ Ha Hn Hlo) Hm Hrun Hn2).
    + right. assert (ws0 = ws) as -> by congruence.
      exact (stage_enter _ _ _ _ _ k t Hws Hx Ha Hb Hrun (Hpend _ _ Hp)).
    + exact (stage_inside _ _ _ _ _ _ _ _ _ _ _ Hi Hs Hbrk Hws Hx Ha H Hb Hin Hp (Hpend _ _ Hp) Hkeep).
  - destruct (stage_other _ _ _ _ _ _ _ _ Hi Ho Hne Hws Hx Ha Hn Hpend Hst) as [|(k & g & t & Hp & Hin)]; [by right|].
    exact (stage_inside _ _ _ _ _ _ _ _ _ _ _ Hi Hs Hbrk Hws Hx Ha H Hb Hin Hp (Hpend _ _ Hp) Hkeep).
Qed.

(** Along a run, until the calls are made. *)
Lemma run_stage schedule s f own u s' :
  run schedule s = Ok (u, s') → inv s f → scoped s → owned s f own →
  only_blocking schedule s = true → brk s' < 2 ^ 30 → (n <= length (calls s))%nat →
  c0 < brk s → called_since n Ps s ∨ stage s f → called_since n Ps s' ∨ ∃ f', stage s' f'.
Proof.
  revert s f own. induction schedule as [|w' schedule IH]; intros s f own H Hi Hs Ho Hob Hbrk Hn Hb Hst.
  - injection H as _ <-. destruct Hst; eauto.
  - apply run_cons in H as (v & s1 & H1 & H).
    destruct (step_owned _ _ _ _ _ _ H1 Hi Ho) as (f1 & own1 & Hi1 & Hl & Ho1).
    destruct (step_action _ _ _ _ _ H1 Hi) as (ws & x & _ & Hx & Ha).
    destruct (called_later n Ps _ _ _ _ _ Ha Hn) as (Hn1 & Hkeep & _).
    destruct (run_inv _ _ _ _ _ H Hi1) as (f2 & _ & Hl2).
    pose proof (later_brk _ _ _ _ Hl). pose proof (later_brk _ _ _ _ Hl2).
    destruct (only_blocking_cons _ _ _ _ _ Hob H1) as [Hnb Hob1].
    eapply IH; [exact H|exact Hi1| |exact Ho1|exact Hob1|exact Hbrk|exact Hn1|lia|].
    + by eapply step_scoped.
    + destruct Hst as [Hc|Hst]; [left; by apply Hkeep|].
      eapply (stage_step w'); [exact Hi|exact Hl|exact Hs|exact Ho|lia|exact Hn|exact Hb|exact H1|exact Hst].
Qed.

(** No stage leaves the stack at code in [stop]. *)
Lemma stage_not_left (s : rt S) f x c :
  stage s f → ctxs s !! c0 = Some x → ctl x = Run c → stop c → frames x ≠ fs.
Proof.
  assert (∀ d, running_code s d → ¬ stop d → ctxs s !! c0 = Some x → ctl x = Run c → stop c → frames x ≠ fs) as Hr.
  { intros d (ws & y & _ & _ & Hy & Hd & _) Hne Hx E Hc _. assert (y = x) as -> by congruence.
    rewrite Hd in E. injection E as ->. done. }
  intros [P Rs d Hrun _ Hb|Rs body futures l nb k Hrun _ _ Hn _|k ws t Hrun Hn _ _|k g t _ Hin] Hx E Hc.
  - eapply Hr; [exact Hrun|by eapply bound_not_stop|done..].
  - by eapply Hr.
  - by eapply Hr.
  - destruct (Hin x Hx) as [(ws & t' & E' & _)|(ab & ws & t' & Ef)]; [congruence|].
    rewrite Ef. intros E'. apply (f_equal length) in E'. rewrite length_app in E'. cbn in E'. lia.
Qed.
End stages.

(** A stack that was to run code bound to make calls, and is now to run code in
    [stop], on the same frames: the calls have been made. *)
Lemma bound_calls (p : S) n main locale schedule0 s0 w ws x c fs Ps stop schedule s2 y d :
  pool_ok p → pool_tasks p = [] →
  run schedule0 (launch p n main locale) = Ok (tt, s0) →
  workers s0 !! w = Some ws → ctxs s0 !! curr_ctx ws = Some x →
  ctl x = Run c → frames x = fs → bound Ps stop c →
  run schedule s0 = Ok (tt, s2) →
  only_blocking (schedule0 ++ schedule) (launch p n main locale) = true → brk s2 < 2 ^ 30 →
  ctxs s2 !! curr_ctx ws = Some y → ctl y = Run d → frames y = fs → stop d →
  called_since (length (calls s0)) Ps s2.
Proof.
  intros Hp Ht H0 Hws Hx Hc Hfs Hbd H Hob Hbrk Hy Hcy Hfy Hd.
  destruct (only_blocking_app _ _ _ _ _ Hob H0) as [Hob0 Hob1].
  destruct (launched_owned p n main locale s0 Hp Ht ltac:(by exists schedule0)) as (f & own & Hi & Ho).
  destruct (launched_scoped _ _ _ _ _ _ Hp Ht H0 Hob0) as [_ Hs].
  pose proof (inv_ctx_below _ _ _ _ Hi Hx) as Hb.
  destruct Ps as [|P Ps]; [constructor|].
  destruct (run_stage w (curr_ctx ws) fs stop (length (calls s0)) (P :: Ps) schedule s0 f own tt s2)
    as [|[f2 Hst]]; try done.
  - right. eapply stage_before; [by exists ws, x| |exact Hbd]. exists []. split; [done|constructor].
  - by destruct (stage_not_left _ _ _ _ _ _ _ _ _ _ Hst Hy Hcy Hd).
Qed.
End blocking.
