(* ===== verification/RuntimeSpawns.v ===== *)
(** * Calls that are left to spawned tasks

    A parallel loop hands its work on: code spawns tasks that spawn tasks, and each
    makes some of the calls.  Here a call is owed by code when each of its paths makes
    the call or spawns code that owes it.  As the tasks are spawned in the scope of the
    task that spawns them, the call is made before the scope ends, wherever the tasks
    run. *)

From S2P Require Import Prelude Deque Locality LocalityRun Pool Runtime RuntimeHeap RuntimeStack RuntimeStep RuntimeSafe RuntimeScopes RuntimeMoves RuntimeOwner RuntimeCalls RuntimeBlocking.
From stdpp Require Import options.

(** ** Code that spawns and calls *)

(** The code makes the call, or spawns code that does, whatever its other calls
    return. *)
Inductive owes (e : extern_call) : code → Prop :=
  | owes_call k : owes e (Call e.1 e.2 k)
  | owes_later f args k : (∀ v, owes e (k v)) → owes e (Call f args k)
  | owes_task c fp : spawns c fp → owes e fp → owes e c
  | owes_rest c fp k : spawns c fp → next c k → owes e k → owes e c.

(** The code spawns and calls, and then goes on with [k]. *)
Inductive leads (k : code) : code → Prop :=
  | leads_end : leads k k
  | leads_call f args d : (∀ v, leads k (d v)) → leads k (Call f args d)
  | leads_spawn c fp d : spawns c fp → next c d → leads k d → leads k c.

Lemma spawns_not c fp : spawns c fp →
  (∀ v, c ≠ Return v) ∧ (∀ p k, c ≠ Future_wait p k) ∧ suspends c = false ∧ (∀ f args k, c ≠ Call f args k) ∧
  (∀ k, c ≠ End_finish k).
Proof. intros [(? & ? & ? & ->)|[(? & ? & ->)|(? & ? & ? & ? & ->)]]; done. Qed.

Lemma spawns_next c fp k k' : spawns c fp → next c k → next c k' → k = k'.
Proof.
  intros [(? & ? & ? & ->)|[(? & ? & ->)|(? & ? & ? & ? & ->)]] H H'; inversion H; inversion H'; congruence.
Qed.

Lemma owes_not_end e k : ¬ owes e (End_finish k).
Proof. intros H. inversion H as [| |c fp Hs|c fp d Hs]; subst; by destruct (spawns_not _ _ Hs) as (_ & _ & _ & _ & Hn); destruct (Hn k). Qed.

Lemma leads_path k c : leads (End_finish k) c → tc next c k.
Proof.
  induction 1 as [|f args d _ IH|c fp d _ Hn _ IH]; [apply tc_once; constructor| |by eapply tc_l].
  eapply tc_l; [exact (next_call f args d NULL)|apply IH].
Qed.

Section spawns.
Context {S : Type} `{!TaskPool S} {EX : Externs}.
#[local] Set Default Proof Using "Type*".

(** ** Tasks on no stack *)

Definition on_no_stack (t : Z) (s : rt S) : Prop :=
  ∀ c x, ctxs s !! c = Some x → ctl x ≠ Abandoned → t ∉ executing (frames x).

Lemma goes_executing w (s : rt S) c fs c' fs' t :
  goes w s c fs c' fs' → c ≠ Exec t → t ∉ executing fs → t ∉ executing fs'.
Proof.
  intros Hg Hc Ht. destruct Hg; cbn [executing] in *; try done; rewrite ?not_elem_of_cons in *; try naive_solver.
Qed.

Lemma no_stack_action t w (s : rt S) c0 x0 s' :
  action w s c0 x0 s' → ctxs s !! c0 = Some x0 → ctl x0 ≠ Exec t → on_no_stack t s → on_no_stack t s'.
Proof.
  intros [Hturn _ _ _] Hx Hne Hst. pose proof (Hst c0 x0 Hx (turned_live _ _ _ _ _ Hturn)) as Hd.
  assert (∀ d fs, goes w s (ctl x0) (frames x0) d fs → t ∉ executing fs) as Hgo.
  { intros d fs Hg. by eapply goes_executing. }
  assert (∀ c d fs p (m : gmap Z LiteCtx) x, t ∉ executing fs →
    (∀ y, m !! c = Some y → ctl y ≠ Abandoned → t ∉ executing (frames y)) →
    <[c0 := mkCtx d fs p]> m !! c = Some x → ctl x ≠ Abandoned → t ∉ executing (frames x)) as Hins.
  { intros c d fs p m x Hd' Hm. destruct (decide (c = c0)) as [->|].
    - rewrite lookup_insert_eq. by intros [= <-].
    - rewrite lookup_insert_ne by done. apply Hm. }
  destruct Hturn as [c fs Hg _ _ _ Ec|n cn c fs ws' Hg _ _ _ _ Ec|c fs t' Hg _ _ _ Ec
    |t' tk c y ws' fs Hctl Ht Hfp Hfs Hy Ec|c fs Hg _ _ _ _ Ec]; intros c1 x; rewrite Ec.
  - eapply Hins; [by eapply Hgo|apply Hst].
  - destruct (decide (c1 = n)) as [->|].
    + rewrite lookup_insert_eq. intros [= <-] _. apply not_elem_of_nil.
    + rewrite lookup_insert_ne by done. eapply Hins; [by eapply Hgo|apply Hst].
  - eapply Hins; [by eapply Hgo|apply Hst].
  - assert (t ∉ executing fs) as Hfs'.
    { rewrite Hfs. cbn. rewrite not_elem_of_cons. split; [|done]. intros ->. by rewrite Hctl in Hne. }
    assert (∀ c2 z, <[c0:=mkCtx Abandoned fs (prev x0)]> (ctxs s) !! c2 = Some z →
      ctl z ≠ Abandoned → t ∉ executing (frames z)) as Hall.
    { intros c2 z. apply Hins; [done|apply Hst]. }
    destruct (decide (c1 = c)) as [->|].
    + rewrite lookup_insert_eq. intros [= <-]. exact (Hall c y Hy).
    + rewrite lookup_insert_ne by done. apply Hall.
  - eapply Hins; [by eapply Hgo|]. intros z [_ Hz]%lookup_delete_Some. by apply (Hst c1).
Qed.

(** A task stays in memory until the stack that runs it comes back to it. *)
Lemma task_stays t tk w s f c0 x0 s' f' :
  inv s f → later s f s' f' → action w s c0 x0 s' → tasks s !! t = Some tk →
  (∀ v g r, ctl x0 = Ret v → frames x0 ≠ F_execute t g :: r) →
  ∃ tk', tasks s' !! t = Some tk' ∧ t_fp tk' = t_fp tk ∧ t_finish tk' = t_finish tk.
Proof.
  intros Hi Hl [Hturn _ _ _] Ht Hne.
  assert (is_Some (tasks s' !! t)) as [tk' Ht'].
  { assert (∀ Q, functions_kept Q s s' → is_Some (tasks s' !! t)) as Hk.
    { intros Q [_ F _]. by destruct (F t tk Ht) as (tk' & -> & _). }
    destruct Hturn as [c fs _ _ _ _ _ _ [HF|(v & t' & g & r & s2 & E1 & E2 & [_ F _] & _ & Et)]| | | |]; eauto.
    destruct (F t tk Ht) as (tk' & Ht' & _). rewrite Et, lookup_delete_ne; [by rewrite Ht'|].
    intros ->. by eapply Hne. }
  exists tk'. split; [done|].
  pose proof (heap_bounds _ _ (inv_heap _ _ Hi) t ltac:(by rewrite Ht)) as Hb.
  destruct (later_static _ _ _ _ Hl t tk' ltac:(lia) Ht') as (tk0 & Htk & E).
  assert (tk0 = tk) as -> by congruence. by injection E as -> -> _.
Qed.

(** ** Single actions *)

(** A worker calls other code in its scope. *)
Lemma call_workers w s ws x f args k u s' :
  workers s !! w = Some ws → ctxs s !! curr_ctx ws = Some x → ctl x = Run (Call f args k) →
  step w s = Ok (u, s') → workers s' = workers s.
Proof.
  intros Hws Hx Hc H. unfold step, current_ws in H. m_bind H. m_bind H as ws' s1 Hws'. m_bind Hws'. m_action Hws'.
  m_bind H as x' s1 Hx'. cbn in Hws', Hx'. assert (ws' = ws) as -> by congruence.
  assert (x' = x) as -> by congruence. rewrite Hc in H. cbn [run_stack run_code] in H. m_bind H as v s2 Hv.
  injection Hv as _ <-. by apply set_stack_Ok in H as (? & ? & _ & _ & ->).
Qed.

(** A worker starts a task: it is in the scope of the task. *)
Lemma execute_starts w s ws x t tk c u s' :
  workers s !! w = Some ws → ctxs s !! curr_ctx ws = Some x → ctl x = Exec t →
  tasks s !! t = Some tk → t_fp tk = User c → step w s = Ok (u, s') →
  tasks s' = tasks s ∧
  ∃ ws', workers s' !! w = Some ws' ∧ current_finish ws' = t_finish tk ∧
    running_code w (curr_ctx ws) (F_execute t (t_finish tk) :: frames x) s' c.
Proof.
  intros Hws Hx Hc Ht Hfp H. unfold step, current_ws in H. m_bind H. m_bind H as ws' s1 Hws'. m_bind Hws'.
  m_action Hws'. m_bind H as x' s1 Hx'. cbn in Hws', Hx'. assert (ws' = ws) as -> by congruence.
  assert (x' = x) as -> by congruence. rewrite Hc in H. cbn [run_stack] in H. unfold execute_task in H.
  m_bind H as tk' s1 Htk. cbn in Htk. assert (tk' = tk) as -> by congruence. rewrite Hfp in H.
  m_bind H as v s2 Hs. unfold set_scope in Hs. m_bind Hs. m_bind Hs as ws0 s1 Hw0. cbn in Hw0.
  assert (ws0 = ws) as -> by congruence. m_action Hs.
  apply set_stack_Ok in H as (ws1 & y & Hw1 & Hy & ->). cbn in Hw1, Hy |- *. rewrite lookup_insert_eq in Hw1.
  injection Hw1 as <-. cbn in Hy |- *. split; [done|]. rewrite lookup_insert_eq. eexists. split; [done|].
  split; [done|]. eexists _, _. cbn. rewrite lookup_insert_eq. split; [done|]. split; [done|].
  rewrite lookup_insert_eq. done.
Qed.

(** ** Where an owed call is *)

Section owed.
Context (e : extern_call) (n : nat).

(** The call was made, or a task of scope [g] owes it: one that has not started, or
    one that runs, in its scope. *)
Inductive outstanding (g : Z) (s : rt S) : Prop :=
  | out_called : called_since n [call_is e] s → outstanding g s
  | out_waiting t tk fp : tasks s !! t = Some tk → t_fp tk = User fp → t_finish tk = g → owes e fp →
      on_no_stack t s → outstanding g s
  | out_running w ws c0 g' fs t tk c : workers s !! w = Some ws → current_finish ws = g →
      running_code w c0 (F_execute t g' :: fs) s c → owes e c →
      tasks s !! t = Some tk → t_finish tk = g → outstanding g s.

Lemma outstanding_done g s : outstanding g s → scope_done s g → called_since n [call_is e] s.
Proof.
  intros [Hc|t tk fp Ht _ Hg _ _|w ws c0 g' fs t tk c _ _ _ _ Ht Hg] [Hd _]; [done|by destruct (Hd t tk Ht)..].
Qed.

(** What a worker does that runs code which owes the call. *)
Lemma owes_step w s f ws x u s' c0 fs c :
  inv s f → workers s !! w = Some ws → ctxs s !! curr_ctx ws = Some x → action w s (curr_ctx ws) x s' →
  step w s = Ok (u, s') → (n <= length (calls s))%nat → running_code w c0 fs s c → owes e c →
  outstanding (current_finish ws) s' ∨
  (∃ c', running_code w c0 fs s' c' ∧ owes e c' ∧ workers s' = workers s).
Proof.
  intros Hi Hws Hx Ha H Hn Hrun Ho.
  destruct (running_code_ctl _ _ _ _ _ _ _ Hws Hx Hrun) as [Hc Hcc].
  destruct Ho as [k|g args k Hk|c fp Hs Hfp|c fp k Hs Hnext Hk].
  - left. apply out_called. destruct (called_later n [] _ _ _ _ _ Ha Hn) as (_ & _ & Hnow).
    apply (Hnow _ e); [by rewrite Hc; destruct e|done|constructor].
  - right. destruct (running_code_next _ _ _ _ _ _ _ _ Hws Hx Ha Hrun) as (c' & Hc' & _ & Hrun'); [done..|].
    inversion Hc'; subst. eexists. split; [exact Hrun'|]. split; [done|]. by eapply call_workers.
  - left. destruct (spawn_step _ _ _ _ _ _ _ _ Hi Hws Hcc Hs H) as (_ & tk & Ht & Hf & Hg).
    apply (out_waiting _ _ (brk s) tk fp); try done. intros c1 y Hy Hy'. by eapply spawn_absent.
  - right. destruct (spawns_not _ _ Hs) as (H1 & H2 & H3 & _).
    destruct (running_code_next _ _ _ _ _ _ _ _ Hws Hx Ha Hrun H1 H2 H3) as (c' & Hc' & _ & Hrun').
    rewrite (spawns_next _ _ _ _ Hs Hnext Hc') in Hk. exists c'. split; [done|]. split; [done|].
    by destruct (spawn_step _ _ _ _ _ _ _ _ Hi Hws Hcc Hs H).
Qed.

Lemma waiting_step g w s f ws x u s' f' t tk fp :
  inv s f → later s f s' f' → workers s !! w = Some ws → ctxs s !! curr_ctx ws = Some x →
  action w s (curr_ctx ws) x s' → step w s = Ok (u, s') →
  tasks s !! t = Some tk → t_fp tk = User fp → t_finish tk = g → owes e fp → on_no_stack t s →
  outstanding g s'.
Proof.
  intros Hi Hl Hws Hx Ha H Ht Hf Hg Ho Hst.
  assert (ctl x = Exec t ∨ ctl x ≠ Exec t) as [Hc|Hc].
  { destruct (ctl x) as [| |t'| | | | | | | | | | | | |]; try (by right).
    destruct (decide (t' = t)) as [->|]; [by left|right; congruence]. }
  - destruct (execute_starts _ _ _ _ _ _ _ _ _ Hws Hx Hc Ht Hf H) as (Et & ws' & Hws' & Hg' & Hrun).
    eapply (out_running g s' w ws'); [done|congruence|exact Hrun|done|by rewrite Et|done].
  - destruct (task_stays t tk _ _ _ _ _ _ _ Hi Hl Ha Ht) as (tk' & Ht' & Ef & Eg).
    { intros v g' r Hv Hr. apply (Hst _ _ Hx); [by rewrite Hv|]. rewrite Hr. by left. }
    eapply (out_waiting _ _ t tk' fp); [done|congruence|congruence|done|by eapply no_stack_action].
Qed.

Lemma running_step g w s f own ws x u s' f' w1 ws1 c0 g' fs t tk c :
  inv s f → owned s f own → later s f s' f' → workers s !! w = Some ws → ctxs s !! curr_ctx ws = Some x →
  action w s (curr_ctx ws) x s' → step w s = Ok (u, s') → (n <= length (calls s))%nat →
  workers s !! w1 = Some ws1 → current_finish ws1 = g →
  running_code w1 c0 (F_execute t g' :: fs) s c → owes e c → tasks s !! t = Some tk → t_finish tk = g →
  outstanding g s'.
Proof.
  intros Hi Ho Hl Hws Hx Ha H Hn Hws1 Hg Hrun Hc Ht Htg. destruct (decide (w = w1)) as [->|Hne].
  - assert (ws1 = ws) as -> by congruence.
    destruct (owes_step _ _ _ _ _ _ _ _ _ _ Hi Hws Hx Ha H Hn Hrun Hc) as [?|(c' & Hrun' & Hc' & Ew)]; [by subst g|].
    destruct (running_code_ctl _ _ _ _ _ _ _ Hws Hx Hrun) as [Ec _].
    destruct (task_stays t tk _ _ _ _ _ _ _ Hi Hl Ha Ht) as (tk' & Ht' & _ & Eg); [by rewrite Ec|].
    eapply (out_running g s' w1 ws); [by rewrite Ew|done|exact Hrun'|done|exact Ht'|congruence].
  - destruct (running_code_other _ _ _ _ _ _ _ _ _ _ _ Hi Ho Hne Hws Hx Ha Hrun) as [Hrun' Ew].
    destruct (task_stays t tk _ _ _ _ _ _ _ Hi Hl Ha Ht) as (tk' & Ht' & _ & Eg).
    { intros v g1 r Hv Hr. destruct Hrun as (ws2 & y & Hws2 & Ecur & Hy & Hyc & Hyf).
      assert (ws2 = ws1) as -> by congruence.
      pose proof (own_curr _ _ _ Ho w1 ws1 Hws1) as E1. pose proof (own_curr _ _ _ Ho w ws Hws) as E2.
      destruct (stacks_ctx _ _ (inv_stacks _ _ Hi) _ _ Hx) as [_ _ Hu _].
      destruct (stacks_ctx _ _ (inv_stacks _ _ Hi) _ _ Hy) as [_ _ Hu' _].
      assert (f t = Running (curr_ctx ws)) as F1 by (apply Hu; rewrite Hv, Hr; by left).
      assert (f t = Running c0) as F2 by (apply Hu'; rewrite Hyc, Hyf; by left). congruence. }
    eapply (out_running g s' w1 ws1); [by rewrite Ew|done|exact Hrun'|done|exact Ht'|congruence].
Qed.

Lemma outstanding_step g w s f own ws x u s' f' :
  inv s f → owned s f own → later s f s' f' → workers s !! w = Some ws → ctxs s !! curr_ctx ws = Some x →
  action w s (curr_ctx ws) x s' → step w s = Ok (u, s') → (n <= length (calls s))%nat →
  outstanding g s → outstanding g s'.
Proof.
  intros Hi Ho Hl Hws Hx Ha H Hn [Hc|t tk fp Ht Hf Hg Hfp Hst|w1 ws1 c0 g' fs t tk c Hws1 Hg Hrun Hc Ht Htg].
  - apply out_called. by destruct (called_later n [call_is e] _ _ _ _ _ Ha Hn) as (_ & Hk & _); auto.
  - by eapply (waiting_step g w s f ws x u s' f' t tk fp).
  - by eapply (running_step g w s f own ws x u s' f' w1 ws1 c0 g' fs t tk c).
Qed.

(** ** A scope around code that owes the call *)

Section scope.
Context (w c0 : Z) (fs : list frame) (k : code).

(** The worker is about to open the scope, runs its body or is in
    [hclib_end_finish]. *)
Inductive scope_stage (s : rt S) : Prop :=
  | scope_opens c : running_code w c0 fs s (Start_finish c) → leads (End_finish k) c → owes e c → scope_stage s
  | scope_body c ws : running_code w c0 fs s c → leads (End_finish k) c → workers s !! w = Some ws →
      owes e c ∨ outstanding (current_finish ws) s → scope_stage s
  | scope_ends g : outstanding g s → (∀ y, ctxs s !! c0 = Some y → in_help g k fs (ctl y) (frames y)) →
      scope_stage s.

Lemma running_code_one (s : rt S) c c' : running_code w c0 fs s c → running_code w c0 fs s c' → c = c'.
Proof. intros (ws & x & _ & _ & Hx & Hc & _) (ws' & x' & _ & _ & Hx' & Hc' & _). congruence. Qed.

(** The worker spawns or calls in the body. *)
Lemma body_next s f ws x u s' c :
  inv s f → workers s !! w = Some ws → ctxs s !! curr_ctx ws = Some x → action w s (curr_ctx ws) x s' →
  step w s = Ok (u, s') → running_code w c0 fs s c → leads (End_finish k) c →
  c = End_finish k ∨ ∃ c', running_code w c0 fs s' c' ∧ leads (End_finish k) c' ∧ workers s' = workers s.
Proof.
  intros Hi Hws Hx Ha H Hrun Hl. destruct (running_code_ctl _ _ _ _ _ _ _ Hws Hx Hrun) as [Hc Hcc].
  destruct Hl as [|g args d Hd|c fp d Hs Hnext Hd]; [by left|right..].
  - destruct (running_code_next _ _ _ _ _ _ _ _ Hws Hx Ha Hrun) as (c' & Hc' & _ & Hrun'); [done..|].
    inversion Hc'; subst. eexists. split; [exact Hrun'|]. split; [done|]. by eapply call_workers.
  - destruct (spawns_not _ _ Hs) as (H1 & H2 & H3 & _).
    destruct (running_code_next _ _ _ _ _ _ _ _ Hws Hx Ha Hrun H1 H2 H3) as (c' & Hc' & _ & Hrun').
    rewrite (spawns_next _ _ _ _ Hs Hnext Hc') in Hd. exists c'. split; [done|]. split; [done|].
    by destruct (spawn_step _ _ _ _ _ _ _ _ Hi Hws Hcc Hs H).
Qed.

Lemma body_own s f own ws x u s' f' c :
  inv s f → owned s f own → later s f s' f' → workers s !! w = Some ws → ctxs s !! curr_ctx ws = Some x →
  action w s (curr_ctx ws) x s' → step w s = Ok (u, s') → (n <= length (calls s))%nat → c0 < brk s →
  running_code w c0 fs s c → leads (End_finish k) c → owes e c ∨ outstanding (current_finish ws) s →
  scope_stage s'.
Proof.
  intros Hi Ho Hl Hws Hx Ha H Hn Hb Hrun Hld Hor.
  assert (outstanding (current_finish ws) s → outstanding (current_finish ws) s') as Hout.
  { by eapply outstanding_step. }
  destruct (body_next _ _ _ _ _ _ _ Hi Hws Hx Ha H Hrun Hld) as [->|(c' & Hrun' & Hld' & Ew)].
  - destruct Hor as [Hc|Hc]; [by destruct (owes_not_end e k)|].
    apply (scope_ends _ (current_finish ws)); [by apply Hout|by eapply enter_help].
  - apply (scope_body _ c' ws); [done..|by rewrite Ew|].
    destruct Hor as [Hc|Hc]; [|right; by apply Hout].
    destruct (owes_step _ _ _ _ _ _ _ _ _ _ Hi Hws Hx Ha H Hn Hrun Hc) as [?|(c2 & Hrun2 & Hc2 & _)]; [by right|left].
    by rewrite (running_code_one _ _ _ Hrun' Hrun2).
Qed.

Lemma scope_step w' f f' own s s' u :
  inv s f → later s f s' f' → scoped s → owned s f own → brk s < 2 ^ 30 → (n <= length (calls s))%nat →
  c0 < brk s → step w' s = Ok (u, s') → scope_stage s → called_since n [call_is e] s' ∨ scope_stage s'.
Proof.
  intros Hi Hl Hs Ho Hbrk Hn Hb H Hst.
  destruct (step_action _ _ _ _ _ H Hi) as (ws & x & Hws & Hx & Ha).
  assert (∀ g, outstanding g s → outstanding g s') as Hout by (intros g; by eapply outstanding_step).
  destruct Hst as [c Hrun Hld Hc|c ws0 Hrun Hld Hws0 Hor|g Hg Hin].
  - right. destruct (decide (w' = w)) as [->|Hne].
    + destruct (running_code_next _ _ _ _ _ _ _ _ Hws Hx Ha Hrun) as (c' & Hc' & _ & Hrun'); [done..|].
      inversion Hc'; subst c'. pose proof Hrun' as (ws' & _ & Hws' & _).
      eapply scope_body; [exact Hrun'|done|exact Hws'|by left].
    + destruct (running_code_other _ _ _ _ _ _ _ _ _ _ _ Hi Ho Hne Hws Hx Ha Hrun) as [Hrun' _].
      by eapply scope_opens.
  - right. destruct (decide (w' = w)) as [->|Hne].
    + assert (ws0 = ws) as -> by congruence. by eapply body_own.
    + destruct (running_code_other _ _ _ _ _ _ _ _ _ _ _ Hi Ho Hne Hws Hx Ha Hrun) as [Hrun' Ew].
      apply (scope_body _ c ws0); [done..|by rewrite Ew|]. destruct Hor as [?|?]; [by left|right; by apply Hout].
  - destruct (help_inside _ _ _ _ _ _ _ _ _ _ _ Hi Hs Hbrk Hws Hx Ha H Hb Hin) as [Hd|Hin'].
    + left. destruct (called_later n [call_is e] _ _ _ _ _ Ha Hn) as (_ & Hk & _). apply Hk.
      by eapply outstanding_done.
    + right. by apply (scope_ends _ g); [apply Hout|].
Qed.

Lemma run_scope schedule s f own u s' :
  run schedule s = Ok (u, s') → inv s f → scoped s → owned s f own →
  only_blocking schedule s = true → brk s' < 2 ^ 30 → (n <= length (calls s))%nat →
  c0 < brk s → called_since n [call_is e] s ∨ scope_stage s →
  called_since n [call_is e] s' ∨ scope_stage s'.
Proof.
  revert s f own. induction schedule as [|w' schedule IH]; intros s f own H Hi Hs Ho Hob Hbrk Hn Hb Hst.
  - by injection H as _ <-.
  - apply run_cons in H as (v & s1 & H1 & H).
    destruct (step_owned _ _ _ _ _ _ H1 Hi Ho) as (f1 & own1 & Hi1 & Hl & Ho1).
    destruct (step_action _ _ _ _ _ H1 Hi) as (ws & x & _ & Hx & Ha).
    destruct (called_later n [call_is e] _ _ _ _ _ Ha Hn) as (Hn1 & Hkeep & _).
    destruct (run_inv _ _ _ _ _ H Hi1) as (f2 & _ & Hl2).
    pose proof (later_brk _ _ _ _ Hl). pose proof (later_brk _ _ _ _ Hl2).
    destruct (only_blocking_cons _ _ _ _ _ Hob H1) as [Hnb Hob1].
    eapply IH; [exact H|exact Hi1| |exact Ho1|exact Hob1|exact Hbrk|exact Hn1|lia|].
    + by eapply step_scoped.
    + destruct Hst as [Hc|Hst]; [left; by apply Hkeep|].
      eapply (scope_step w'); [exact Hi|exact Hl|exact Hs|exact Ho|lia|exact Hn|exact Hb|exact H1|exact Hst].
Qed.

(** In no stage is the stack behind the scope. *)
Lemma scope_not_left (s : rt S) x : scope_stage s → ctxs s !! c0 = Some x → ctl x = Run k → frames x ≠ fs.
Proof.
  intros Hst Hx Hc Hf.
  assert (∀ d, running_code w c0 fs s d → ¬ tc next d k) as Hno.
  { intros d (ws & y & _ & _ & Hy & Hd & _) Hp. apply (next_acyclic _ _ Hp). congruence. }
  destruct Hst as [c Hrun Hl _|c ws Hrun Hl _ _|g _ Hin].
  - eapply Hno; [exact Hrun|]. eapply tc_l; [constructor|by apply leads_path].
  - eapply Hno; [exact Hrun|by apply leads_path].
  - destruct (Hin x Hx) as [(ws & t' & E' & _)|(ab & ws & t' & Ef)]; [congruence|].
    rewrite Hf in Ef. apply (f_equal length) in Ef. rewrite length_app in Ef. cbn in Ef. lia.
Qed.
End scope.
End owed.

(** A stack that was to open the scope, and is now behind it, on the same frames: the
    call has been made. *)
Lemma scope_calls (p : S) pool_size main locale schedule0 s0 w ws x c k schedule s2 y e :
  pool_ok p → pool_tasks p = [] →
  run schedule0 (launch p pool_size main locale) = Ok (tt, s0) →
  workers s0 !! w = Some ws → ctxs s0 !! curr_ctx ws = Some x → ctl x = Run (Start_finish c) →
  leads (End_finish k) c → owes e c → run schedule s0 = Ok (tt, s2) →
  only_blocking (schedule0 ++ schedule) (launch p pool_size main locale) = true → brk s2 < 2 ^ 30 →
  ctxs s2 !! curr_ctx ws = Some y → ctl y = Run k → frames y = frames x →
  called_since (length (calls s0)) [call_is e] s2.
Proof.
  intros Hp Ht H0 Hws Hx Hc Hl Ho H Hob Hbrk Hy Hcy Hfy.
  destruct (only_blocking_app _ _ _ _ _ Hob H0) as [Hob0 Hob1].
  destruct (launched_owned p pool_size main locale s0 Hp Ht ltac:(by exists schedule0)) as (f & own & Hi & Hown).
  destruct (launched_scoped _ _ _ _ _ _ Hp Ht H0 Hob0) as [_ Hs].
  pose proof (inv_ctx_below _ _ _ _ Hi Hx) as Hb.
  destruct (run_scope e (length (calls s0)) w (curr_ctx ws) (frames x) k schedule s0 f own tt s2)
    as [|Hst]; try done.
  - right. apply (scope_opens _ _ _ _ _ _ _ c); [by exists ws, x|done..].
  - by destruct (scope_not_left _ _ _ _ _ _ _ _ Hst Hy Hcy Hfy).
Qed.

Lemma in_order_elem before log e : in_order before log [call_is e] → e ∈ log.
Proof.
  intros H. remember [call_is e] as Ps eqn:E. induction H as [|before e' log Ps _ IH|before e' log P Ps HP _ _];
    [done|right; by apply IH|]. injection E as -> _. unfold call_is in HP. subst. by left.
Qed.
End spawns.
