(* ===== verification/RuntimeFaults.v ===== *)
(** * Where the blocking calls go wrong

    [help_finish] runs whatever task it finds on its own stack
    ([on_fresh_ctx] is 1) and keeps the worker it started on in a local
    variable.  Two programs show what that leads to. *)

From S2P Require Import Prelude Deque Locality LocalityRun Pool Runtime RuntimeHeap RuntimeStack RuntimeStep RuntimeSafe RuntimeScopes.
From stdpp Require Import options.

(** The states of a run stay what they are once one action changes nothing. *)
Lemma run_stuck {S : Type} `{!TaskPool S} {EX : Externs} w (s : rt S) n :
  step w s = Ok (tt, s) → run (replicate n w) s = Ok (tt, s).
Proof.
  intros H. induction n as [|n IH]; [done|]. cbn [replicate run]. unfold mbind, M_bind. by rewrite H.
Qed.

(** ** A task lost with its context *)

(** The producer puts [p], waits for a scope of its own and then puts [q]. *)
Definition producer (p q : Z) : code :=
  Start_finish (Async (Return NULL) [] None (Promise_put p 1 (End_finish
    (Promise_put q 1 (Return NULL))))).

Definition relay : code :=
  Promise_create (λ p, Promise_create (λ q,
    Async (producer p q) [] None
      (Async (Future_wait p (λ _, Return NULL)) [] None (Return NULL)))).

Definition relay_launch (n : nat) : rt locality := launch (small_pool n) n relay None.

(** One worker, and two where the second one steals the producer. *)
Definition relay_stuck : rt locality := state_after (replicate 45 0) (relay_launch 1).
Definition relay_end : rt locality :=
  state_after (replicate 10 0 ++ replicate 30 1 ++ replicate 7 0) (relay_launch 2).

(** C23: [help_finish] loses a task.  On one worker, the producer's
    [hclib_end_finish] picks up the task that resumes the consumer and executes it
    on the producer's own stack; [_finish_ctx_resume] swaps that stack out for
    good and the consumer then destroys it.  The producer (task 6, its inner
    scope 10 already empty) is on no stack any more, [q] is never put, and the
    worker goes on looking for work for ever.  The same program ends, with both
    promises put, when a second worker steals the producer. *)
Theorem help_finish_loses_task :
  (run (replicate 45 0) (relay_launch 1) = Ok (tt, relay_stuck) ∧
   t_fp <$> tasks relay_stuck !! 6 = Some (User (producer 4 5)) ∧
   started (replicate 45 0) (relay_launch 1) = [3; 7; 6; 9; 11] ∧
   finishes relay_stuck !! 10 = Some (mkFinish 2 1 NULL) ∧ members relay_stuck 10 = 0 ∧
   map_Forall (λ _ x, executing (frames x) = []) (ctxs relay_stuck) ∧
   satisfied <$> promises relay_stuck !! 5 = Some 0 ∧
   ∀ n, run (replicate n 0) relay_stuck = Ok (tt, relay_stuck)) ∧
  (run (replicate 10 0 ++ replicate 30 1 ++ replicate 7 0) (relay_launch 2) = Ok (tt, relay_end) ∧
   current_ctl 0 relay_end = Some Exited ∧
   satisfied <$> promises relay_end !! 5 = Some 1 ∧ satisfied <$> promises relay_end !! 6 = Some 1).
Proof.
  split.
  - split; [apply run_state_after; by vm_compute|].
    split; [by vm_compute|].
    split; [by vm_compute|]. split; [by vm_compute|]. split; [by vm_compute|].
    split; [apply (bool_decide_unpack _); by vm_compute|]. split; [by vm_compute|].
    intros n. apply run_stuck. by vm_compute.
  - split; [apply run_state_after; by vm_compute|]. split; [by vm_compute|].
    split; by vm_compute.
Qed.

(** ** A worker on another worker's deque *)

(** The consumer waits for [p] in the middle of the root scope's
    [hclib_end_finish]. *)
Definition migrating : code :=
  Promise_create (λ p,
    Async (Promise_put p 1 (Return NULL)) [] None
      (Async (Return NULL) [] None (Async (Return NULL) [] None
        (Async (Future_wait p (λ _, Return NULL)) [] None (Return NULL))))).

Definition migrating_schedule : list Z := replicate 28 0 ++ replicate 18 1.
Definition migrated : rt locality :=
  state_after migrating_schedule (launch (small_pool 2) 2 migrating None).

(** [help_finish] uses another worker's deque.  Worker 0 suspends the stack of
    its [hclib_end_finish] under a [hclib_future_wait]; worker 1 resumes it, and
    the loop of [help_finish] goes on there with the [ws] it read on worker 0.
    Worker 1 is then about to pop from worker 0's deque while worker 0 is about
    to do the same, with one task in it: the deque has two owners. *)
Theorem help_finish_pops_foreign_deque :
  run migrating_schedule (launch (small_pool 2) 2 migrating None) = Ok (tt, migrated) ∧
  current_ctl 0 migrated = Some (Find 0 true (Flag_done 0) NULL false) ∧
  current_ctl 1 migrated = Some (Find 0 true (Flag_counter 3) 3 false) ∧
  pool_tasks (pool migrated) = [7] ∧
  fst <$> pool_pop (pool migrated) 0 = Ok 7.
Proof.
  split; [apply run_state_after; by vm_compute|]. repeat (split; [by vm_compute|]).
  by vm_compute.
Qed.
