(* ===== verification/Comm.v ===== *)
(** * Operations of the communication modules

    What the operations of [src/modules/openshmem], [src/modules/sos],
    [src/modules/mpi] and [src/modules/upcxx] have in common.  The libraries that
    they call are not part of the program: a call of theirs is a [Call] of
    [Runtime] on the function's address, which the [Linker] gives, and what it
    returns is a parameter ([Externs]).  An operation is code with what follows it
    as an argument, which gets the value that the operation returns.

    An operation stands for calls when it is bound to make them, in order, before
    the code goes on behind the operation ([bound] of [RuntimeBlocking]). *)

From S2P Require Import Prelude Deque Locality LocalityRun Pool Runtime RuntimeHeap RuntimeStack RuntimeStep RuntimeSafe RuntimeScopes RuntimeMoves RuntimeOwner RuntimeCalls RuntimeBlocking CppAsync.
From stdpp Require Import strings options.

#[local] Open Scope Z_scope.

(** The address of a function of a library. *)
Class Linker := symbol : string → Z.

(** A call of a function of a library. *)
Definition library `{!Linker} (f : string) (args : list Z) : extern_call := (symbol f, args).

(** Where code goes on behind an operation: with [k], or with [k] of the value
    that the operation returns. *)
Definition behind (k c : code) : Prop := c = k.

Definition returned (k : Z → code) (c : code) : Prop := ∃ v, c = k v.

(** ** Lemmas *)

Lemma not_behind k c : tc next c k → ¬ behind k c.
Proof. intros H ->. by apply (next_acyclic k k). Qed.

Lemma not_returned k c : (∀ v, tc next c (k v)) → ¬ returned k c.
Proof. intros H [v E]. by apply (next_acyclic c (k v)). Qed.

(** Paths through a few statements. *)
Ltac leads_on :=
  first [ apply tc_once; first [exact (next_call _ _ _ NULL) | by constructor]
        | eapply tc_l; [first [apply (next_cell_new _ NULL) | by constructor]|]; leads_on ].

Ltac not_yet := first [ apply not_behind | apply not_returned; intros ? ]; leads_on.

#[export] Hint Extern 3 (¬ behind _ _) => not_yet : comm.
#[export] Hint Extern 3 (¬ returned _ _) => not_yet : comm.

(** A call that is made whatever the calls before it returned. *)
Lemma makes_call_is e es f args k :
  e = (f, args) → (∀ v, makes (call_is <$> es) (k v)) → makes (call_is <$> e :: es) (Call f args k).
Proof. intros -> H. apply makes_call. intros v. by left. Qed.

Lemma bound_call_is e es stop f args k :
  ¬ stop (Call f args k) → e = (f, args) → (∀ v, bound (call_is <$> es) stop (k v)) →
  bound (call_is <$> e :: es) stop (Call f args k).
Proof. intros Hn -> H. apply bound_call; [done|]. intros v. by left. Qed.

(** A scope around one task that makes the calls. *)
Lemma bound_finish Ps stop body locale k :
  makes Ps body → ¬ stop (finish (async_nb_at body locale) k) →
  ¬ stop (async_nb_at body locale (End_finish k)) → ¬ stop (End_finish k) →
  bound Ps stop (finish (async_nb_at body locale) k).
Proof. apply bound_task. Qed.

(** The same with a cell that the task fills. *)
Lemma bound_cell Ps stop (op : Z → code) :
  ¬ stop (Cell_new op) → (∀ a, bound Ps stop (op a)) → bound Ps stop (Cell_new op).
Proof. intros Hn H. apply bound_later; [done..|]. intros c' Hc. by inversion Hc; subst. Qed.

Lemma makes_none_of c : makes (call_is <$> []) c.
Proof. constructor. Qed.

(** Code that makes the calls of a list and no others. *)
Ltac makes_all := repeat first [ apply makes_none_of | apply makes_call_is; [reflexivity|intros ?] ].

(** ** Runs *)

Section runs.
Context {S : Type} `{!TaskPool S} {EX : Externs}.
#[local] Set Default Proof Using "Type*".

(** In a run, worker [w] is about to run [c] with frames [fs] in state [s0]; in
    [s2] the stack is about to run [d] on the same frames. *)
Record run_between (p : S) (n : nat) main locale (s0 s2 : rt S) (c d : code) : Prop := {
  between_pool : pool_ok p;
  between_empty : pool_tasks p = [];
  between_run : ∃ schedule0 schedule w ws x y,
    run schedule0 (launch p n main locale) = Ok (tt, s0) ∧ run schedule s0 = Ok (tt, s2) ∧
    only_blocking (schedule0 ++ schedule) (launch p n main locale) = true ∧
    workers s0 !! w = Some ws ∧ ctxs s0 !! curr_ctx ws = Some x ∧ ctl x = Run c ∧
    ctxs s2 !! curr_ctx ws = Some y ∧ ctl y = Run d ∧ frames y = frames x;
  between_bound : brk s2 < 2 ^ 30
}.

Lemma bound_called p n main locale s0 s2 c d Ps stop :
  run_between p n main locale s0 s2 c d → bound Ps stop c → stop d →
  called_since (length (calls s0)) Ps s2.
Proof.
  intros [Hp Ht (sch0 & sch & w & ws & x & y & H0 & H & Hb & Hws & Hx & Hc & Hy & Hd & Hf) Hbrk] Hbd Hs.
  by eapply (bound_calls p n main locale sch0 s0 w ws x c (frames x)).
Qed.
End runs.

(** ** Single actions *)

Section actions.
Context {S : Type} `{!TaskPool S} {EX : Externs}.
#[local] Set Default Proof Using "Type*".

Lemma step_running_code w (s : rt S) ws x c :
  workers s !! w = Some ws → ctxs s !! curr_ctx ws = Some x → ctl x = Run c →
  step w s = run_code c (frames x) (set_self w s).
Proof.
  intros Hws Hx Hc. unfold step, current_ws, gets, get_ws, get_ctx, get, modify, mbind, M_bind. cbn.
  rewrite Hws. cbn. rewrite Hx. cbn. by rewrite Hc.
Qed.

(** The next code of the worker's stack. *)
Lemma set_stack_run w (s : rt S) ws x c fs :
  self s = w → workers s !! w = Some ws → ctxs s !! curr_ctx ws = Some x →
  set_stack (Run c) fs s = Ok (tt, set_ctxs (<[curr_ctx ws := mkCtx (Run c) fs (prev x)]> (ctxs s)) s).
Proof.
  intros Hself Hws Hx.
  unfold set_stack, current_ws, put_ctx, gets, get_ws, get_ctx, get, modify, mbind, M_bind. cbn.
  rewrite Hself, Hws. cbn. by rewrite Hx.
Qed.

Lemma current_ctl_after w (s : rt S) ws x :
  workers s !! w = Some ws → current_ctl w (set_ctxs (<[curr_ctx ws := x]> (ctxs s)) s) = Some (ctl x).
Proof. intros Hws. unfold current_ctl. cbn. rewrite Hws. cbn. by rewrite lookup_insert_eq. Qed.

Lemma step_current_worker w (s : rt S) f :
  current_ctl w s = Some (Run (Current_worker f)) →
  ∃ s', step w s = Ok (tt, s') ∧ current_ctl w s' = Some (Run (f w)) ∧ calls s' = calls s.
Proof.
  intros (ws & x & Hws & Hx & Hc)%current_ctl_Some. rewrite (step_running_code _ _ _ _ _ Hws Hx Hc).
  cbn [run_code]. unfold hclib_get_current_worker, gets, get_ws, get, mbind, M_bind. cbn. rewrite Hws. cbn.
  erewrite (set_stack_run w) by done. eexists. split; [done|].
  split; [by apply (current_ctl_after w (set_self w s) ws)|done].
Qed.

Lemma step_call w (s : rt S) f args k :
  current_ctl w s = Some (Run (Call f args k)) →
  ∃ s', step w s = Ok (tt, s') ∧ current_ctl w s' = Some (Run (k (extern (calls s) f args))) ∧
    calls s' = calls s ++ [(f, args)].
Proof.
  intros (ws & x & Hws & Hx & Hc)%current_ctl_Some. rewrite (step_running_code _ _ _ _ _ Hws Hx Hc).
  cbn [run_code]. unfold call_extern, mbind, M_bind. cbn.
  erewrite (set_stack_run w) by done. eexists. split; [done|].
  split; [by apply (current_ctl_after w (set_calls _ (set_self w s)) ws)|done].
Qed.
End actions.

(** ** Concrete runs *)

(** Addresses by the length of the name, for examples. *)
Definition by_length : Linker := λ f, 1000 + Z.of_nat (String.length f).

(** A run of two workers in two parts. *)
Definition first_part (main : code) (schedule0 : list Z) : rt locality :=
  state_after schedule0 (launch (small_pool 2) 2 main None).

Definition second_part (main : code) (schedule0 schedule : list Z) : rt locality :=
  state_after schedule (first_part main schedule0).

Lemma run_between_parts main schedule0 schedule w ws x y c d :
  let s0 := first_part main schedule0 in
  let s2 := second_part main schedule0 schedule in
  runs schedule0 (launch (small_pool 2) 2 main None) = true → runs schedule s0 = true →
  only_blocking (schedule0 ++ schedule) (launch (small_pool 2) 2 main None) = true → brk s2 < 2 ^ 30 →
  workers s0 !! w = Some ws → ctxs s0 !! curr_ctx ws = Some x → ctl x = Run c →
  ctxs s2 !! curr_ctx ws = Some y → ctl y = Run d → frames y = frames x →
  run_between (small_pool 2) 2 main None s0 s2 c d.
Proof.
  intros s0 s2 H0 H Hb Hbrk Hws Hx Hc Hy Hd Hf. split; [apply small_pool_ok|apply small_pool_empty| |done].
  exists schedule0, schedule, w, ws, x, y.
  split; [by apply run_state_after|]. split; [by apply run_state_after|]. done.
Qed.
