(* ===== verification/ForasyncRun.v ===== *)
(** * Parallel loops as tasks of the runtime

    What [Forasync] and [ForasyncCpp] say a loop spawns and calls, as code of
    [Runtime]: [hclib_forasync] of [src/src/hclib.c] and the templates of
    [src/inc/hclib-forasync.h] on the workers, deques and stacks of the machine.  The
    user's function is code of the program's own that the runtime calls, a [Call] on its
    address with the argument and the index.  In all the functions of the two files the
    spawns come before the calls. *)

From S2P Require Import Prelude Deque Locality LocalityRun Pool Runtime RuntimeHeap RuntimeStack RuntimeStep RuntimeSafe RuntimeScopes RuntimeMoves RuntimeOwner RuntimeCalls RuntimeBlocking RuntimeSpawns CppAsync Comm Forasync ForasyncCpp.
From stdpp Require Import options.

(** ** Loops as code *)

Section loops.
Context {T : Type} (run : T → res (effect_of T)) (spawn_one : T → code → code → code) (fct arg : Z).

(** The loops of the runners.

    src/src/hclib.c:117-119 (forasync1D_runner) *)
Fixpoint calls_code (idxs : list (list Z)) (k : code) : code :=
  match idxs with
  | [] => k
  | idx :: idxs => Call fct (arg :: idx) (λ _, calls_code idxs k)
  end.

Fixpoint spawns_code (body : T → code) (ts : list T) (k : code) : code :=
  match ts with
  | [] => k
  | t :: ts => spawn_one t (body t) (spawns_code body ts k)
  end.

Definition effect_code (body : T → code) (e : effect_of T) (k : code) : code :=
  spawns_code body e.1 (calls_code e.2 k).

(** The function of a task; a task that is split is at most [fuel] levels above those
    that are not. *)
Fixpoint task_code (fuel : nat) (t : T) : code :=
  match fuel with
  | O => Abort OutOfFuel
  | S fuel =>
      match run t with Ok e => effect_code (task_code fuel) e (Return NULL) | Err f => Abort f end
  end.
End loops.

(** A C task.

    src/src/hclib.c:186-186 (forasync1D_recursive) *)
Definition spawn_forasync (t : forasync_task) (body k : code) : code := Async body [] None k.

(** The tasks of a loop weigh less than it, and each at least 1 ([Forasync]), so the
    weight bounds how deep they go.

    src/src/hclib.c:452-464 (hclib_forasync) *)
Definition forasync_code (nworkers : Z) (forasync_fct argv dim : Z) (domain : list hclib_loop_domain_t)
    (mode : Z) (k : code) : code :=
  match hclib_forasync nworkers dim domain mode with
  | Ok e =>
      effect_code spawn_forasync forasync_fct argv
        (task_code run_task spawn_forasync forasync_fct argv (Z.to_nat (total_weight e.1))) e k
  | Err f => Abort f
  end.

(** src/src/hclib.c:466-474 (hclib_forasync_future) *)
Definition hclib_forasync_future (nworkers : Z) (forasync_fct argv dim : Z)
    (domain : list hclib_loop_domain_t) (mode : Z) (k : Z → code) : code :=
  Start_finish (forasync_code nworkers forasync_fct argv dim domain mode (End_finish_nonblocking k)).

(** A chunk of the C++ templates, spawned with its attributes.

    src/inc/hclib-async.h:151-159 (async_await_at_helper) *)
Definition spawn_lambda (a : async_call) (body k : code) : code :=
  Cpp_async body (a_futures a) (a_locale a) (a_nb a) k.

(** The call operator of the lambda, on the lambda.

    src/inc/hclib-forasync.h:519-530 (forasync1D) *)
Definition cpp_forasync_code (dists : list loop_dist_func) (lambda this : Z)
    (domain : list hclib_loop_domain_t) (mode future dist_func_id : Z) (nb : bool) (k : code) : code :=
  match forasync_cpp dists domain mode future dist_func_id nb with
  | Ok e =>
      effect_code spawn_lambda lambda this
        (task_code (run_async future nb) spawn_lambda lambda this
           (Z.to_nat (total_weight (a_task <$> e.1)))) e k
  | Err f => Abort f
  end.

(** With [force_seq] the caller runs the loop.

    src/inc/hclib-forasync.h:511-517 (forasync1D_seq) *)
Definition forasync1D_seq_code (lambda this : Z) (loop0 : hclib_loop_domain_t) (k : code) : code :=
  match forasync1D_seq loop0 with Ok e => calls_code lambda this e.2 k | Err f => Abort f end.

(** [End_finish_nonblocking] allocates the promise when the loop has been spawned.

    src/inc/hclib-forasync.h:597-615 (forasync1D_future) *)
Definition forasync1D_future (dists : list loop_dist_func) (lambda this : Z) (loop0 : hclib_loop_domain_t)
    (force_seq : bool) (mode future dist_func_id : Z) (k : Z → code) : code :=
  if force_seq then
    Promise_create (λ event, forasync1D_seq_code lambda this loop0 (Promise_put event NULL (k event)))
  else
    Start_finish (cpp_forasync_code dists lambda this [loop0] mode future dist_func_id false
      (End_finish_nonblocking k)).

(** src/inc/hclib-forasync.h:617-635 (forasync1D_nb_future) *)
Definition forasync1D_nb_future (dists : list loop_dist_func) (lambda this : Z) (loop0 : hclib_loop_domain_t)
    (force_seq : bool) (mode future dist_func_id : Z) (k : Z → code) : code :=
  if force_seq then
    Promise_create (λ event, forasync1D_seq_code lambda this loop0 (Promise_put event NULL (k event)))
  else
    Start_finish (cpp_forasync_code dists lambda this [loop0] mode future dist_func_id true
      (End_finish_nonblocking k)).

(** ** Lemmas: each index is owed *)

Section owed.
Context {T : Type} (run : T → res (effect_of T)) (spawn_one : T → code → code → code) (fct arg : Z).
#[local] Set Default Proof Using "All".
Hypothesis spawn_spawns : ∀ t c k, spawns (spawn_one t c k) c ∧ next (spawn_one t c k) k.

(** The index is among the calls of the effect or of a task that it spawns, and so
    on. *)
Inductive reaches (idx : list Z) : nat → effect_of T → Prop :=
  | reaches_call fuel e : idx ∈ e.2 → reaches idx fuel e
  | reaches_task fuel e t e' : t ∈ e.1 → run t = Ok e' → reaches idx fuel e' → reaches idx (S fuel) e.

Lemma owes_calls idx idxs k : idx ∈ idxs → owes (fct, arg :: idx) (calls_code fct arg idxs k).
Proof.
  induction idxs as [|idx' idxs IH]; [by intros ?%elem_of_nil|]. rewrite elem_of_cons. cbn.
  intros [->|H]; [apply (owes_call (fct, arg :: idx'))|by apply owes_later; auto].
Qed.

Lemma owes_spawned e body ts t k : t ∈ ts → owes e (body t) → owes e (spawns_code spawn_one body ts k).
Proof.
  intros Ht Ho. induction ts as [|t' ts IH]; [by apply elem_of_nil in Ht|].
  apply elem_of_cons in Ht as [<-|Ht]; cbn.
  - eapply owes_task; [apply spawn_spawns|done].
  - eapply owes_rest; [apply spawn_spawns..|by apply IH].
Qed.

Lemma owes_behind e body ts k : owes e k → owes e (spawns_code spawn_one body ts k).
Proof.
  intros Ho. induction ts as [|t ts IH]; cbn; [done|]. eapply owes_rest; [apply spawn_spawns..|done].
Qed.

Lemma reaches_owes idx fuel e k :
  reaches idx fuel e →
  owes (fct, arg :: idx) (effect_code spawn_one fct arg (task_code run spawn_one fct arg fuel) e k).
Proof.
  intros H. revert k. induction H as [fuel e H|fuel e t e' Ht Hr _ IH]; intros k; unfold effect_code.
  - by apply owes_behind, owes_calls.
  - eapply owes_spawned; [done|]. cbn. rewrite Hr. apply IH.
Qed.

Lemma effect_leads body e k : leads k (effect_code spawn_one fct arg body e k).
Proof.
  unfold effect_code. induction (e.1) as [|t ts IH]; cbn.
  - induction (e.2) as [|idx idxs IH]; cbn; [apply leads_end|by apply leads_call].
  - eapply leads_spawn; [apply spawn_spawns..|done].
Qed.
End owed.

Lemma spawn_forasync_spawns t c k : spawns (spawn_forasync t c k) c ∧ next (spawn_forasync t c k) k.
Proof. split; [left; by do 3 eexists|constructor]. Qed.

Lemma spawn_lambda_spawns a c k : spawns (spawn_lambda a c k) c ∧ next (spawn_lambda a c k) k.
Proof. split; [right; right; by do 4 eexists|constructor]. Qed.

Lemma weight_of t ts : t ∈ ts → task_weight t <= total_weight ts.
Proof.
  induction ts as [|t' ts IH]; [by intros ?%elem_of_nil|]. cbn. fold (total_weight ts).
  intros [<-|Ht]%elem_of_cons.
  - pose proof (total_weight_nonneg ts). lia.
  - pose proof (weight_pos t'). specialize (IH Ht). lia.
Qed.

Lemma sched_reaches fuel e sp idx :
  sched_inv e sp → idx ∈ sp → total_weight e.1 <= Z.of_nat fuel → reaches run_task idx fuel e.
Proof.
  revert e sp. induction fuel as [|fuel IH]; intros e sp [Hok Hsp] Hin Hw; rewrite <- Hsp in Hin;
    apply elem_of_app in Hin as [Hin|(t & Hin & Ht)%list_elem_of_bind]; try by apply reaches_call.
  - pose proof (weight_of _ _ Ht). pose proof (weight_pos t). lia.
  - rewrite Forall_forall in Hok. destruct (run_task_ok t (Hok t Ht)) as (e' & Hr & Hok' & Hw' & Hsp').
    eapply reaches_task; [done|exact Hr|]. apply (IH e' (task_space t)); [by split|done|].
    pose proof (weight_of _ _ Ht). lia.
Qed.

(** The chunks of the C++ loop reach what the C tasks reach. *)
Lemma sim_reaches future nb fuel e idx :
  Forall (like future nb) e.1 → reaches run_task idx fuel (erase e) → reaches (run_async future nb) idx fuel e.
Proof.
  revert e. induction fuel as [|fuel IH]; intros e He H; inversion H as [? ? Hin|? ? t e' Ht Hr H']; subst;
    try by apply reaches_call.
  cbn in Ht. apply list_elem_of_fmap in Ht as (a & -> & Ha). rewrite Forall_forall in He.
  pose proof (sim_run future nb a (He a Ha)) as Hs. rewrite Hr in Hs. unfold sim in Hs.
  destruct (run_async future nb a) as [e2|] eqn:E; [|done]. destruct Hs as [-> He2].
  eapply reaches_task; [exact Ha|exact E|]. by apply IH.
Qed.

(** ** Properties *)

(** A loop over [domain], of C or C++, called as the loop needs it. *)
Inductive loop_call (nworkers fct arg : Z) (domain : list hclib_loop_domain_t) : (code → code) → Prop :=
  | c_loop mode : workers_ok nworkers → Forall (loop_arg nworkers) domain → mode_arg nworkers domain mode →
      loop_call nworkers fct arg domain
        (forasync_code nworkers fct arg (Z.of_nat (length domain)) domain mode)
  | cpp_loop dists mode future dist_func_id nb :
      Forall loop_ok domain → cpp_arg dists domain mode dist_func_id nb →
      loop_call nworkers fct arg domain (cpp_forasync_code dists fct arg domain mode future dist_func_id nb).

Lemma loop_owes nworkers fct arg domain loop idx k :
  dim_ok domain → loop_call nworkers fct arg domain loop → idx ∈ domain_space domain →
  owes (fct, arg :: idx) (loop k) ∧ leads k (loop k).
Proof.
  intros Hdim [mode Hw Hd Hm|dists mode future dist_func_id nb Hok Harg] Hidx.
  - destruct (forasync_inv _ _ _ Hw Hdim Hd Hm) as (e & E & Hi). unfold forasync_code. rewrite E.
    split; [|apply (effect_leads run_task); apply spawn_forasync_spawns].
    apply reaches_owes; [apply spawn_forasync_spawns|]. eapply sched_reaches; [done..|].
    pose proof (total_weight_nonneg e.1). lia.
  - destruct (cpp_inv _ _ _ _ _ Hdim Hok Harg) as (e' & E & Hi).
    pose proof (sim_cpp _ _ _ future _ _ Hdim Harg) as Hs. rewrite E in Hs. unfold cpp_forasync_code, sim in *.
    destruct (forasync_cpp _ _ _ _ _ _) as [e|]; [|done]. destruct Hs as [-> Hl].
    split; [|apply (effect_leads (run_async future nb)); apply spawn_lambda_spawns].
    apply reaches_owes; [apply spawn_lambda_spawns|]. apply sim_reaches; [done|].
    eapply sched_reaches; [done..|]. change (erase e).1 with (a_task <$> e.1).
    pose proof (total_weight_nonneg (a_task <$> e.1)). lia.
Qed.

Section runs.
Context {S : Type} `{!TaskPool S} {EX : Externs}.
#[local] Set Default Proof Using "Type*".

(** C12: a finish scope around a parallel loop.  When a worker that called a loop of C
    or C++ in a finish scope is behind the scope, the user's function has been called
    on every index of the loop nest since, whichever workers ran the chunks, in
    whatever order, and whatever else they did meanwhile.  The loop is called as
    [loop_call] says, with one to three dimensions.  In recursive mode the strides
    are 1.  In flat mode each tile is a multiple of its stride and, in one dimension,
    the lower bound is a multiple of the tile and the upper bound is not negative.
    In C there are fewer than 2^30 workers, the bounds are within 2^29 of 0, and a
    tile is at least 1 or the default (-1) on a range that is not empty; in C++ the
    bounds are within 2^30 of 0, the tiles are given and at least 1, a recursive loop
    is blocking and has the default distribution function, and a flat one has a
    distribution function that is registered.  Strides and tiles are at most 2^30.
    The run ends no scope with [hclib_end_finish_nonblocking] ([only_blocking]) and
    allocates fewer than 2^30 objects. *)
Theorem forasync_finish_waits (p : S) n main locale s0 s2 fct arg domain loop k idx :
  dim_ok domain → loop_call (Z.of_nat n) fct arg domain loop →
  run_between p n main locale s0 s2 (finish loop k) k → idx ∈ domain_space domain →
  (fct, arg :: idx) ∈ skipn (length (calls s0)) (calls s2).
Proof.
  intros Hdim Hloop [Hp Ht (sch0 & sch & w & ws & x & y & H0 & H & Hb & Hws & Hx & Hc & Hy & Hd & Hf) Hbrk] Hidx.
  destruct (loop_owes _ _ _ _ _ idx (End_finish k) Hdim Hloop Hidx) as [Ho Hl].
  eapply in_order_elem. by eapply (scope_calls p n main locale sch0 s0 w ws x (loop (End_finish k)) k sch s2 y).
Qed.
End runs.

(** *** Concrete loops *)

(** Three chunks on two workers; worker 1 steals. *)
Definition triple : list hclib_loop_domain_t := [mkLoop 0 3 1 1].
Definition triple_loop : code → code := forasync_code 2 70 5 1 triple FORASYNC_MODE_RECURSIVE.
Definition triple_main : code := finish triple_loop (Return NULL).
Definition triple_steps : list Z := replicate 2 0 ++ replicate 5 1 ++ replicate 6 0 ++ replicate 12 1 ++ replicate 6 0.
Definition triple_frames : list frame := [F_execute 4 3; F_find; F_help 0 3 0 (Return NULL); F_finalize].

Lemma forasync_finish_waits_witness :
  calls (first_part triple_main (replicate 6 0)) = [] ∧
  (70, [5; 1]) ∈ skipn 0 (calls (second_part triple_main (replicate 6 0) triple_steps)).
Proof.
  split; [by vm_compute|].
  apply (forasync_finish_waits (small_pool 2) 2 triple_main None (first_part triple_main (replicate 6 0))
    (second_part triple_main (replicate 6 0) triple_steps) 70 5 triple triple_loop (Return NULL) [1]).
  - split; cbn; lia.
  - apply (c_loop 2 70 5 triple FORASYNC_MODE_RECURSIVE).
    + split; lia.
    + apply Forall_singleton. unfold loop_arg. cbn. lia.
    + left. split; [done|by repeat constructor].
  - apply (run_between_parts triple_main (replicate 6 0) triple_steps 0 (mkWs 3 4 1)
      (mkCtx (Run triple_main) triple_frames 0) (mkCtx (Run (Return NULL)) triple_frames 0)); by vm_compute.
  - right. by left.
Defined.

(** The versions with a future, on a program that waits for it: when it has ended,
    every index has been visited. *)
Definition future_main : code :=
  hclib_forasync_future 2 70 5 1 triple FORASYNC_MODE_RECURSIVE (λ future, Future_wait future Return).
Definition chunks_main : code :=
  forasync1D_nb_future [one_place] 70 5 (mkLoop 0 4 1 2) false FORASYNC_MODE_FLAT NULL 0
    (λ future, Future_wait future Return).
Definition in_turn_main : code :=
  forasync1D_future [one_place] 70 5 (mkLoop 0 3 1 2) true FORASYNC_MODE_FLAT NULL 0 (λ future, Future_get future Return).

Definition when_ended (steps : nat) (main : code) : list extern_call * option control :=
  let s := state_after (replicate steps 0) (launch (small_pool 2) 2 main None) in (calls s, current_ctl 0 s).

Example loop_futures_waited :
  when_ended 40 future_main = ([(70, [5; 0]); (70, [5; 1]); (70, [5; 2])], Some Exited) ∧
  when_ended 37 chunks_main = ([(70, [5; 2]); (70, [5; 3]); (70, [5; 0]); (70, [5; 1])], Some Exited) ∧
  when_ended 19 in_turn_main = ([(70, [5; 0]); (70, [5; 1]); (70, [5; 2])], Some Exited).
Proof. by vm_compute. Qed.
