(* ===== verification/CppPromise.v ===== *)
(** * Typed promises and futures of the C++ interface

    [src/inc/hclib_promise.h] and [src/inc/hclib_future.h]: a value of a type that is no
    wider than a pointer is put as the first bytes of a [void *] and taken out of them
    again.  A value is its bytes here, least significant first; a pointer or a reference
    is the address, and [void] is nothing. *)

From S2P Require Import Prelude Deque Locality LocalityRun Pool Runtime RuntimeHeap RuntimeStack RuntimeStep RuntimeSafe RuntimeScopes RuntimeMoves RuntimeOwner RuntimeCalls RuntimeBlocking CppAsync Comm.
From stdpp Require Import options.

Definition sizeof_pointer : nat := 8.

(** ** Values of a small type *)

(** [tmp], whose other bytes are what the stack had there.

    src/inc/hclib_promise.h:54-55 (put) *)
Definition to_pointer (stack datum : list Z) : Z :=
  of_le (datum ++ skipn (length datum) (take sizeof_pointer stack)).

(** src/inc/hclib_future.h:19-19 (_ValUnion) *)
Definition from_pointer (sizeof_T : nat) (vp : Z) : list Z := take sizeof_T (to_le sizeof_pointer vp).

(** src/inc/hclib_promise.h:53-57 (put) *)
Definition promise_put (stack : list Z) (promise : Z) (datum : list Z) (k : code) : code :=
  Promise_put promise (to_pointer stack datum) k.

(** src/inc/hclib_future.h:21-25 (get) *)
Definition future_get (sizeof_T : nat) (future : Z) (k : list Z → code) : code :=
  Future_get future (λ vp, k (from_pointer sizeof_T vp)).

(** src/inc/hclib_future.h:27-31 (wait) *)
Definition future_wait (sizeof_T : nat) (future : Z) (k : list Z → code) : code :=
  Future_wait future (λ vp, k (from_pointer sizeof_T vp)).

(** src/inc/hclib_future.h:33-33 (test) *)
Definition future_test (future : Z) (k : bool → code) : code :=
  Future_is_satisfied future (λ v, k (negb (v =? 0))).

(** ** Pointers, references and nothing *)

(** src/inc/hclib_promise.h:76-78 (put) *)
Definition promise_put_pointer (promise datum : Z) (k : code) : code := Promise_put promise datum k.

(** src/inc/hclib_future.h:39-41 (get) *)
Definition future_get_pointer (future : Z) (k : Z → code) : code := Future_get future k.

(** src/inc/hclib_future.h:43-45 (wait) *)
Definition future_wait_pointer (future : Z) (k : Z → code) : code := Future_wait future k.

(** src/inc/hclib_promise.h:110-112 (put) *)
Definition promise_put_void (promise : Z) (k : code) : code := Promise_put promise NULL k.

(** The get of [void] does not look at the promise.

    src/inc/hclib_future.h:65-65 (get) *)
Definition future_get_void (future : Z) (k : code) : code := k.

(** src/inc/hclib_future.h:66-66 (wait) *)
Definition future_wait_void (future : Z) (k : code) : code := Future_wait future (λ _, k).

(** ** Lemmas *)

Definition is_byte (b : Z) : Prop := 0 <= b < 256.

Lemma to_le_of_le l n : Forall is_byte l → (length l <= n)%nat → take (length l) (to_le n (of_le l)) = l.
Proof.
  intros Hl. revert n. induction Hl as [|b l Hb _ IH]; intros [|n] Hn; cbn in *; try done; [lia|].
  unfold is_byte in Hb. rewrite (Z.mul_comm 256), Z.mod_add, Z.mod_small, Z.div_add by lia.
  rewrite Z.div_small by lia. cbn. f_equal. apply IH. lia.
Qed.

Lemma pointer_roundtrip stack datum :
  Forall is_byte datum → Forall is_byte stack → (length datum <= sizeof_pointer)%nat →
  from_pointer (length datum) (to_pointer stack datum) = datum.
Proof.
  intros Hd Hs Hn. unfold from_pointer, to_pointer.
  set (rest := skipn (length datum) (take sizeof_pointer stack)).
  assert (length (datum ++ rest) <= sizeof_pointer)%nat as Hl.
  { unfold rest. rewrite length_app, length_drop, length_take. lia. }
  rewrite <- (take_app_length datum rest) at 3.
  rewrite <- (to_le_of_le (datum ++ rest) sizeof_pointer) at 2; [|apply Forall_app; split; [done|]|done].
  - rewrite take_take. f_equal. rewrite length_app. lia.
  - unfold rest. by apply Forall_drop, Forall_take.
Qed.

Section typed.
Context {S : Type} `{!TaskPool S} {EX : Externs}.
#[local] Set Default Proof Using "Type*".

Lemma step_put w (s : rt S) f q d k u s' :
  inv s f → current_ctl w s = Some (Run (Promise_put q d k)) → step w s = Ok (u, s') →
  ∃ pr, promises s' !! q = Some pr ∧ satisfied pr = 1 ∧ datum pr = d.
Proof.
  intros Hi Hc H. destruct (step_run_code _ _ _ _ _ Hc H) as [fs H1]. cbn [run_code] in H1. m_bind H1 as v s1 Hp.
  destruct (inv_self s f w Hi) as [Hi' _].
  apply (put_ok _ _ _ f) in Hp as (_ & _ & Hq & _); [|apply Hi'].
  by apply set_stack_Ok in H1 as (? & ? & _ & _ & ->).
Qed.

(** A satisfied promise gives its value at once. *)
Lemma step_get w (s : rt S) q pr (k : Z → code) c :
  promises s !! q = Some pr → satisfied pr = 1 → c = Future_get q k ∨ c = Future_wait q k →
  current_ctl w s = Some (Run c) →
  ∃ s', step w s = Ok (tt, s') ∧ current_ctl w s' = Some (Run (k (datum pr))).
Proof.
  intros Hq Hs Hc (ws & x & Hws & Hx & Hr)%current_ctl_Some. rewrite (step_running_code _ _ _ _ _ Hws Hx Hr).
  eexists. split; [|apply (current_ctl_after w (set_self w s) ws (mkCtx (Run (k (datum pr))) (frames x) (prev x)) Hws)].
  destruct Hc as [->| ->]; cbn [run_code]; unfold hclib_future_get, hclib_future_wait, get_promise, get, assert, lift, hassert, mbind, M_bind;
    cbn -[set_stack]; rewrite Hq; cbn -[set_stack]; rewrite Hs; cbn -[set_stack]; by rewrite (set_stack_run w (set_self w s) ws x).
Qed.

(** C40: typed promises.  A value that is put in a promise of a type no wider than a pointer comes out of
    its future: whenever after the put, and on whichever worker, [get] or [wait] is
    called, it goes on at once with the value that was put. *)
Theorem typed_future_roundtrip (p : S) n main locale s w q stack datum k u s1 schedule s2 w2 k2 c :
  pool_ok p → pool_tasks p = [] → reachable p n main locale s →
  Forall is_byte datum → Forall is_byte stack → (length datum <= sizeof_pointer)%nat →
  current_ctl w s = Some (Run (promise_put stack q datum k)) → step w s = Ok (u, s1) →
  run schedule s1 = Ok (tt, s2) →
  c = future_get (length datum) q k2 ∨ c = future_wait (length datum) q k2 →
  current_ctl w2 s2 = Some (Run c) →
  ∃ s3, step w2 s2 = Ok (tt, s3) ∧ current_ctl w2 s3 = Some (Run (k2 datum)).
Proof.
  intros Hp Ht Hr Hd Hst Hn Hc H1 H2 Hg Hc2. destruct (launched_inv _ _ _ _ _ Hp Ht Hr) as [f Hi].
  destruct (step_put _ _ _ _ _ _ _ _ Hi Hc H1) as (pr & Hq & Hs & Hv).
  destruct (step_acted _ _ _ _ _ H1 Hi) as (f1 & Hi1 & _).
  destruct (run_inv _ _ _ _ _ H2 Hi1) as (f2 & _ & Hl).
  destruct (later_datum _ _ _ _ Hl q pr Hq ltac:(by rewrite Hs)) as (pr2 & Hq2 & Es & Ed).
  destruct (step_get w2 s2 q pr2 (λ vp, k2 (from_pointer (length datum) vp)) c) as (s3 & H3 & Hc3);
    [done|congruence|done|done|]. exists s3. split; [done|].
  by rewrite Ed, Hv, pointer_roundtrip in Hc3.
Qed.
End typed.

(** *** A four-byte value *)

Definition four_bytes : code :=
  Promise_create (λ p, promise_put (replicate 8 255) p [1; 2; 3; 4]
    (future_get 4 p (λ v, Call 70 v (λ _, Return NULL)))).
Definition four_launch : rt locality := launch (small_pool 1) 1 four_bytes None.
Definition four_put : rt locality := state_after (replicate 7 0) four_launch.

Definition four_get : code := future_get 4 4 (λ v, Call 70 v (λ _, Return NULL)).

Lemma typed_future_roundtrip_witness :
  current_ctl 0 four_put = Some (Run (promise_put (replicate 8 255) 4 [1; 2; 3; 4] four_get)) ∧
  ∃ s3, step 0 (state_after [0] four_put) = Ok (tt, s3) ∧
    current_ctl 0 s3 = Some (Run (Call 70 [1; 2; 3; 4] (λ _, Return NULL))).
Proof.
  assert (current_ctl 0 four_put = Some (Run (promise_put (replicate 8 255) 4 [1; 2; 3; 4] four_get))) as Hc
    by (by vm_compute).
  split; [exact Hc|].
  apply (typed_future_roundtrip (small_pool 1) 1 four_bytes None four_put 0 4 (replicate 8 255) [1; 2; 3; 4]
    four_get tt (state_after [0] four_put) [] (state_after [0] four_put) 0
    (λ v, Call 70 v (λ _, Return NULL)) four_get).
  - apply small_pool_ok.
  - apply small_pool_empty.
  - exists (replicate 7 0). apply run_state_after. by vm_compute.
  - repeat (apply Forall_cons; split; [unfold is_byte; lia|]). by apply Forall_nil.
  - apply Forall_replicate. unfold is_byte. lia.
  - unfold sizeof_pointer. cbn. lia.
  - exact Hc.
  - apply step_state_after. by vm_compute.
  - done.
  - by left.
  - by vm_compute.
Defined.

(** A value of a type wider than a pointer would be cut: the static assertions of both
    templates keep such a type out. *)
Example wide_value_cut :
  from_pointer 9 (to_pointer [] [1; 2; 3; 4; 5; 6; 7; 8; 9]) = [1; 2; 3; 4; 5; 6; 7; 8].
Proof. by vm_compute. Qed.
