(* ===== verification/OpenShmem.v ===== *)
(** * The OpenSHMEM module

    [src/modules/openshmem/src/hclib_openshmem.cpp]: the operations that wait for
    the library, as code of a task.  Each opens a scope, spawns one non-blocking
    task at the locale of the network interface that makes the calls of the
    library, and ends the scope; those that return a value pass it through a cell
    on the heap.  The macros for tracing and profiling are off. *)

From S2P Require Import Prelude Deque Locality LocalityRun Pool Runtime RuntimeHeap RuntimeStack RuntimeStep RuntimeSafe RuntimeScopes RuntimeCalls RuntimeBlocking CppAsync Comm.
From stdpp Require Import strings options.

#[local] Open Scope Z_scope.

(** ** Locales of processing elements

    The identifier of a locale that stands for a processing element is negative. *)

(** src/modules/openshmem/src/hclib_openshmem.cpp:136-139 (pe_to_locale_id) *)
Definition pe_to_locale_id (pe : Z) : res Z := _ ← hassert (pe >=? 0); to_int (-1 * pe - 1).

(** src/modules/openshmem/src/hclib_openshmem.cpp:141-144 (locale_id_to_pe) *)
Definition locale_id_to_pe (locale_id : Z) : res Z :=
  _ ← hassert (locale_id <? 0); to_int ((locale_id + 1) * -1).

Section openshmem.
Context `{!Linker} (nic : Z).

(** ** Operations *)

(** src/modules/openshmem/src/hclib_openshmem.cpp:233-235 (shmem_my_pe) *)
Definition shmem_my_pe (k : Z → code) : code := Call (symbol "shmem_my_pe") [] k.

(** src/modules/openshmem/src/hclib_openshmem.cpp:237-239 (shmem_n_pes) *)
Definition shmem_n_pes (k : Z → code) : code := Call (symbol "shmem_n_pes") [] k.

(** src/modules/openshmem/src/hclib_openshmem.cpp:241-259 (shmem_malloc) *)
Definition shmem_malloc (size : Z) (k : Z → code) : code :=
  Cell_new (λ out_alloc,
    finish (async_nb_at
        (Call (symbol "shmem_malloc") [size] (λ v, Cell_set out_alloc v (Return NULL))) (Some nic))
      (Cell_get out_alloc (λ allocated, Cell_free out_alloc (k allocated)))).

(** src/modules/openshmem/src/hclib_openshmem.cpp:261-273 (shmem_free) *)
Definition shmem_free (ptr : Z) (k : code) : code :=
  finish (async_nb_at (Call (symbol "shmem_free") [ptr] (λ _, Return NULL)) (Some nic)) k.

(** src/modules/openshmem/src/hclib_openshmem.cpp:275-286 (shmem_barrier_all) *)
Definition shmem_barrier_all (k : code) : code :=
  finish (async_nb_at (Call (symbol "shmem_barrier_all") [] (λ _, Return NULL)) (Some nic)) k.

(** src/modules/openshmem/src/hclib_openshmem.cpp:288-296 (shmem_fence) *)
Definition shmem_fence (k : code) : code :=
  finish (async_nb_at (Call (symbol "shmem_fence") [] (λ _, Return NULL)) (Some nic)) k.

(** src/modules/openshmem/src/hclib_openshmem.cpp:298-306 (shmem_quiet) *)
Definition shmem_quiet (k : code) : code :=
  finish (async_nb_at (Call (symbol "shmem_quiet") [] (λ _, Return NULL)) (Some nic)) k.

(** src/modules/openshmem/src/hclib_openshmem.cpp:308-321 (shmem_put64) *)
Definition shmem_put64 (dest source nelems pe : Z) (k : code) : code :=
  finish (async_nb_at (
    Call (symbol "shmem_put64") [dest; source; nelems; pe] (λ _, Return NULL)) (Some nic)) k.

(** src/modules/openshmem/src/hclib_openshmem.cpp:323-340 (shmem_broadcast64) *)
Definition shmem_broadcast64 (dest source nelems PE_root PE_start logPE_stride PE_size pSync : Z)
    (k : code) : code :=
  finish (async_nb_at (
    Call (symbol "shmem_broadcast64")
      [dest; source; nelems; PE_root; PE_start; logPE_stride; PE_size; pSync]
      (λ _, Return NULL)) (Some nic)) k.

(** src/modules/openshmem/src/hclib_openshmem.cpp:342-359 (shmem_broadcast32) *)
Definition shmem_broadcast32 (dest source nelems PE_root PE_start logPE_stride PE_size pSync : Z)
    (k : code) : code :=
  finish (async_nb_at (
    Call (symbol "shmem_broadcast32")
      [dest; source; nelems; PE_root; PE_start; logPE_stride; PE_size; pSync]
      (λ _, Return NULL)) (Some nic)) k.

(** src/modules/openshmem/src/hclib_openshmem.cpp:440-453 (shmem_int_get) *)
Definition shmem_int_get (dest source nelems pe : Z) (k : code) : code :=
  finish (async_nb_at (
    Call (symbol "shmem_int_get") [dest; source; nelems; pe] (λ _, Return NULL)) (Some nic)) k.

(** src/modules/openshmem/src/hclib_openshmem.cpp:455-468 (shmem_getmem) *)
Definition shmem_getmem (dest source nelems pe : Z) (k : code) : code :=
  finish (async_nb_at (
    Call (symbol "shmem_getmem") [dest; source; nelems; pe] (λ _, Return NULL)) (Some nic)) k.

(** src/modules/openshmem/src/hclib_openshmem.cpp:470-478 (shmem_putmem) *)
Definition shmem_putmem (dest source nelems pe : Z) (k : code) : code :=
  finish (async_nb_at (
    Call (symbol "shmem_putmem") [dest; source; nelems; pe] (λ _, Return NULL)) (Some nic)) k.

(** src/modules/openshmem/src/hclib_openshmem.cpp:480-493 (shmem_int_put) *)
Definition shmem_int_put (dest source nelems pe : Z) (k : code) : code :=
  finish (async_nb_at (
    Call (symbol "shmem_int_put") [dest; source; nelems; pe] (λ _, Return NULL)) (Some nic)) k.

(** src/modules/openshmem/src/hclib_openshmem.cpp:495-507 (shmem_int_p) *)
Definition shmem_int_p (dest value pe : Z) (k : code) : code :=
  finish (async_nb_at (
    Call (symbol "shmem_int_p") [dest; value; pe] (λ _, Return NULL)) (Some nic)) k.

(** src/modules/openshmem/src/hclib_openshmem.cpp:510-519 (shmem_char_put_nbi) *)
Definition shmem_char_put_nbi (dest source nelems pe : Z) (k : code) : code :=
  finish (async_nb_at (
    Call (symbol "shmem_char_put_nbi") [dest; source; nelems; pe] (λ _, Return NULL)) (Some nic)) k.

(** src/modules/openshmem/src/hclib_openshmem.cpp:521-533 (shmem_char_put_signal_nbi) *)
Definition shmem_char_put_signal_nbi (dest source nelems signal_dest signal_source signal_nelems pe : Z)
    (k : code) : code :=
  finish (async_nb_at
      (Call (symbol "shmem_char_put_nbi") [dest; source; nelems; pe] (λ _,
         Call (symbol "shmem_fence") [] (λ _,
           Call (symbol "shmem_char_put_nbi") [signal_dest; signal_source; signal_nelems; pe] (λ _,
             Return NULL)))) (Some nic)) k.

(** src/modules/openshmem/src/hclib_openshmem.cpp:536-548 (shmem_int_add) *)
Definition shmem_int_add (dest value pe : Z) (k : code) : code :=
  finish (async_nb_at (
    Call (symbol "shmem_int_add") [dest; value; pe] (λ _, Return NULL)) (Some nic)) k.

(** src/modules/openshmem/src/hclib_openshmem.cpp:550-570 (shmem_longlong_fadd) *)
Definition shmem_longlong_fadd (target value pe : Z) (k : Z → code) : code :=
  Cell_new (λ val_ptr,
    finish (async_nb_at
        (Call (symbol "shmem_longlong_fadd") [target; value; pe] (λ v, Cell_set val_ptr v (Return NULL))) (Some nic))
      (Cell_get val_ptr (λ result, Cell_free val_ptr (k result)))).

(** src/modules/openshmem/src/hclib_openshmem.cpp:572-591 (shmem_int_fadd) *)
Definition shmem_int_fadd (dest value pe : Z) (k : Z → code) : code :=
  Cell_new (λ heap_fetched,
    finish (async_nb_at
        (Call (symbol "shmem_int_fadd") [dest; value; pe] (λ v, Cell_set heap_fetched v (Return NULL))) (Some nic))
      (Cell_get heap_fetched (λ fetched, Cell_free heap_fetched (k fetched)))).

(** src/modules/openshmem/src/hclib_openshmem.cpp:593-609 (shmem_int_finc) *)
Definition shmem_int_finc (dest pe : Z) (k : Z → code) : code :=
  Cell_new (λ heap_fetched,
    finish (async_nb_at
        (Call (symbol "shmem_int_finc") [dest; pe] (λ v, Cell_set heap_fetched v (Return NULL))) (Some nic))
      (Cell_get heap_fetched (λ fetched, Cell_free heap_fetched (k fetched)))).

(** src/modules/openshmem/src/hclib_openshmem.cpp:611-627 (shmem_int_swap) *)
Definition shmem_int_swap (dest value pe : Z) (k : Z → code) : code :=
  Cell_new (λ heap_fetched,
    finish (async_nb_at
        (Call (symbol "shmem_int_swap") [dest; value; pe] (λ v, Cell_set heap_fetched v (Return NULL))) (Some nic))
      (Cell_get heap_fetched (λ fetched, Cell_free heap_fetched (k fetched)))).

(** src/modules/openshmem/src/hclib_openshmem.cpp:629-648 (shmem_int_sum_to_all) *)
Definition shmem_int_sum_to_all (target source nreduce PE_start logPE_stride PE_size pWrk pSync : Z)
    (k : code) : code :=
  finish (async_nb_at (
    Call (symbol "shmem_int_sum_to_all")
      [target; source; nreduce; PE_start; logPE_stride; PE_size; pWrk; pSync]
      (λ _, Return NULL)) (Some nic)) k.

(** src/modules/openshmem/src/hclib_openshmem.cpp:650-670 (shmem_longlong_sum_to_all) *)
Definition shmem_longlong_sum_to_all (target source nreduce PE_start logPE_stride PE_size pWrk pSync : Z)
    (k : code) : code :=
  finish (async_nb_at (
    Call (symbol "shmem_longlong_sum_to_all")
      [target; source; nreduce; PE_start; logPE_stride; PE_size; pWrk; pSync]
      (λ _, Return NULL)) (Some nic)) k.

(** src/modules/openshmem/src/hclib_openshmem.cpp:672-684 (shmem_longlong_max_to_all) *)
Definition shmem_longlong_max_to_all (target source nreduce PE_start logPE_stride PE_size pWrk pSync : Z)
    (k : code) : code :=
  finish (async_nb_at (
    Call (symbol "shmem_longlong_max_to_all")
      [target; source; nreduce; PE_start; logPE_stride; PE_size; pWrk; pSync]
      (λ _, Return NULL)) (Some nic)) k.

(** src/modules/openshmem/src/hclib_openshmem.cpp:686-698 (shmem_longlong_p) *)
Definition shmem_longlong_p (addr value pe : Z) (k : code) : code :=
  finish (async_nb_at (
    Call (symbol "shmem_longlong_p") [addr; value; pe] (λ _, Return NULL)) (Some nic)) k.

(** src/modules/openshmem/src/hclib_openshmem.cpp:700-714 (shmem_longlong_put) *)
Definition shmem_longlong_put (dest src nelems pe : Z) (k : code) : code :=
  finish (async_nb_at (
    Call (symbol "shmem_longlong_put") [dest; src; nelems; pe] (λ _, Return NULL)) (Some nic)) k.

(** src/modules/openshmem/src/hclib_openshmem.cpp:716-729 (shmem_collect32) *)
Definition shmem_collect32 (dest source nelems PE_start logPE_stride PE_size pSync : Z)
    (k : code) : code :=
  finish (async_nb_at (
    Call (symbol "shmem_collect32")
      [dest; source; nelems; PE_start; logPE_stride; PE_size; pSync]
      (λ _, Return NULL)) (Some nic)) k.

(** src/modules/openshmem/src/hclib_openshmem.cpp:731-745 (shmem_fcollect64) *)
Definition shmem_fcollect64 (dest source nelems PE_start logPE_stride PE_size pSync : Z)
    (k : code) : code :=
  finish (async_nb_at (
    Call (symbol "shmem_fcollect64")
      [dest; source; nelems; PE_start; logPE_stride; PE_size; pSync]
      (λ _, Return NULL)) (Some nic)) k.

(** The operations with the calls of the library that they stand for. *)
Inductive operation : code → (code → Prop) → list extern_call → Prop :=
  | op_my_pe k : operation (shmem_my_pe k) (returned k) [library "shmem_my_pe" []]
  | op_n_pes k : operation (shmem_n_pes k) (returned k) [library "shmem_n_pes" []]
  | op_malloc size k : operation (shmem_malloc size k) (returned k) [library "shmem_malloc" [size]]
  | op_free ptr k : operation (shmem_free ptr k) (behind k) [library "shmem_free" [ptr]]
  | op_barrier_all k : operation (shmem_barrier_all k) (behind k) [library "shmem_barrier_all" []]
  | op_fence k : operation (shmem_fence k) (behind k) [library "shmem_fence" []]
  | op_quiet k : operation (shmem_quiet k) (behind k) [library "shmem_quiet" []]
  | op_put64 dest source nelems pe k :
      operation (shmem_put64 dest source nelems pe k) (behind k)
        [library "shmem_put64" [dest; source; nelems; pe]]
  | op_broadcast64 dest source nelems PE_root PE_start logPE_stride PE_size pSync k :
      operation (shmem_broadcast64 dest source nelems PE_root PE_start logPE_stride PE_size pSync k) (behind k)
        [library "shmem_broadcast64" [dest; source; nelems; PE_root; PE_start; logPE_stride; PE_size; pSync]]
  | op_broadcast32 dest source nelems PE_root PE_start logPE_stride PE_size pSync k :
      operation (shmem_broadcast32 dest source nelems PE_root PE_start logPE_stride PE_size pSync k) (behind k)
        [library "shmem_broadcast32" [dest; source; nelems; PE_root; PE_start; logPE_stride; PE_size; pSync]]
  | op_int_get dest source nelems pe k :
      operation (shmem_int_get dest source nelems pe k) (behind k)
        [library "shmem_int_get" [dest; source; nelems; pe]]
  | op_getmem dest source nelems pe k :
      operation (shmem_getmem dest source nelems pe k) (behind k)
        [library "shmem_getmem" [dest; source; nelems; pe]]
  | op_putmem dest source nelems pe k :
      operation (shmem_putmem dest source nelems pe k) (behind k)
        [library "shmem_putmem" [dest; source; nelems; pe]]
  | op_int_put dest source nelems pe k :
      operation (shmem_int_put dest source nelems pe k) (behind k)
        [library "shmem_int_put" [dest; source; nelems; pe]]
  | op_int_p dest value pe k :
      operation (shmem_int_p dest value pe k) (behind k)
        [library "shmem_int_p" [dest; value; pe]]
  | op_char_put_nbi dest source nelems pe k :
      operation (shmem_char_put_nbi dest source nelems pe k) (behind k)
        [library "shmem_char_put_nbi" [dest; source; nelems; pe]]
  | op_char_put_signal_nbi dest source nelems signal_dest signal_source signal_nelems pe k :
      operation (shmem_char_put_signal_nbi dest source nelems signal_dest signal_source signal_nelems pe k) (behind k)
        [library "shmem_char_put_nbi" [dest; source; nelems; pe]
         ; library "shmem_fence" []
         ; library "shmem_char_put_nbi" [signal_dest; signal_source; signal_nelems; pe]]
  | op_int_add dest value pe k :
      operation (shmem_int_add dest value pe k) (behind k)
        [library "shmem_int_add" [dest; value; pe]]
  | op_longlong_fadd target value pe k :
      operation (shmem_longlong_fadd target value pe k) (returned k)
        [library "shmem_longlong_fadd" [target; value; pe]]
  | op_int_fadd dest value pe k :
      operation (shmem_int_fadd dest value pe k) (returned k)
        [library "shmem_int_fadd" [dest; value; pe]]
  | op_int_finc dest pe k :
      operation (shmem_int_finc dest pe k) (returned k)
        [library "shmem_int_finc" [dest; pe]]
  | op_int_swap dest value pe k :
      operation (shmem_int_swap dest value pe k) (returned k)
        [library "shmem_int_swap" [dest; value; pe]]
  | op_int_sum_to_all target source nreduce PE_start logPE_stride PE_size pWrk pSync k :
      operation (shmem_int_sum_to_all target source nreduce PE_start logPE_stride PE_size pWrk pSync k) (behind k)
        [library "shmem_int_sum_to_all" [target; source; nreduce; PE_start; logPE_stride; PE_size; pWrk; pSync]]
  | op_longlong_sum_to_all target source nreduce PE_start logPE_stride PE_size pWrk pSync k :
      operation (shmem_longlong_sum_to_all target source nreduce PE_start logPE_stride PE_size pWrk pSync k) (behind k)
        [library "shmem_longlong_sum_to_all" [target; source; nreduce; PE_start; logPE_stride; PE_size; pWrk; pSync]]
  | op_longlong_max_to_all target source nreduce PE_start logPE_stride PE_size pWrk pSync k :
      operation (shmem_longlong_max_to_all target source nreduce PE_start logPE_stride PE_size pWrk pSync k) (behind k)
        [library "shmem_longlong_max_to_all" [target; source; nreduce; PE_start; logPE_stride; PE_size; pWrk; pSync]]
  | op_longlong_p addr value pe k :
      operation (shmem_longlong_p addr value pe k) (behind k)
        [library "shmem_longlong_p" [addr; value; pe]]
  | op_longlong_put dest src nelems pe k :
      operation (shmem_longlong_put dest src nelems pe k) (behind k)
        [library "shmem_longlong_put" [dest; src; nelems; pe]]
  | op_collect32 dest source nelems PE_start logPE_stride PE_size pSync k :
      operation (shmem_collect32 dest source nelems PE_start logPE_stride PE_size pSync k) (behind k)
        [library "shmem_collect32" [dest; source; nelems; PE_start; logPE_stride; PE_size; pSync]]
  | op_fcollect64 dest source nelems PE_start logPE_stride PE_size pSync k :
      operation (shmem_fcollect64 dest source nelems PE_start logPE_stride PE_size pSync k) (behind k)
        [library "shmem_fcollect64" [dest; source; nelems; PE_start; logPE_stride; PE_size; pSync]].

Lemma openshmem_operation_bound c stop es : operation c stop es → bound (call_is <$> es) stop c.
Proof.
  intros []; first
    [ by apply bound_finish; [makes_all|auto with comm..]
    | by apply bound_call_is; [auto with comm|reflexivity|intros ?; constructor]
    | apply bound_cell; [auto with comm|intros a; apply bound_finish; [makes_all|auto with comm..]] ].
Qed.
End openshmem.

(** ** Properties *)

Section complete.
Context {S : Type} `{!TaskPool S} {EX : Externs} `{!Linker}.
#[local] Set Default Proof Using "Type*".

(** C30: the operations of the module wait.  When the stack that called an
    operation goes on behind it, on whatever worker, the calls of the library that
    the operation stands for have all been made since the call of the operation,
    in their order (the data of [shmem_char_put_signal_nbi] is put before the
    signal), though the worker may have run other tasks and blocked meanwhile.  The run ends no scope with [hclib_end_finish_nonblocking]
    ([only_blocking]) and allocates fewer than 2^30 objects. *)
Theorem openshmem_operations_wait (p : S) n main locale s0 s2 nic c d stop es :
  run_between p n main locale s0 s2 c d → operation nic c stop es → stop d →
  called_since (length (calls s0)) (call_is <$> es) s2.
Proof. intros Hr Ho Hd. eapply bound_called; [exact Hr|by eapply openshmem_operation_bound|exact Hd]. Qed.
End complete.

(** The two conversions of processing elements and identifiers of locales are
    inverse to each other on all of [int], without overflow; the identifiers are
    the negative ones, so none is that of a locale of the machine. *)
Theorem pe_locale_roundtrip pe id :
  INT_MIN <= pe <= INT_MAX → INT_MIN <= id <= INT_MAX →
  (pe_to_locale_id pe = Ok id ↔ locale_id_to_pe id = Ok pe) ∧
  (is_ok (pe_to_locale_id pe) ↔ 0 <= pe) ∧ (is_ok (locale_id_to_pe id) ↔ id < 0).
Proof.
  intros Hp Hi. unfold pe_to_locale_id, locale_id_to_pe, hassert.
  destruct (Z.geb_spec pe 0), (Z.ltb_spec id 0); cbn;
    rewrite ?(to_int_id (-1 * pe - 1)), ?(to_int_id ((id + 1) * -1)) by (unfold INT_MIN, INT_MAX in *; lia);
    cbn; repeat split; intros; simplify_eq; try done; try lia; f_equal; lia.
Qed.

Lemma pe_locale_roundtrip_witness : pe_to_locale_id 3 = Ok (-4) ∧ locale_id_to_pe (-4) = Ok 3.
Proof.
  assert (pe_to_locale_id 3 = Ok (-4)) as E by reflexivity. split; [exact E|].
  destruct (pe_locale_roundtrip 3 (-4)) as [H _]; [unfold INT_MIN, INT_MAX; lia..|].
  exact (proj1 H E).
Defined.

(** ** A concrete run

    Worker 0 calls [shmem_put64] and waits; worker 1 steals the task and makes the
    call of the library. *)
#[local] Existing Instance by_length.

Definition putter : code := shmem_put64 0 1 2 3 4 (Return NULL).
Definition put_steps : list Z := replicate 3 0 ++ replicate 8 1 ++ [0].

Definition put_frames : list frame := [F_execute 4 3; F_find; F_help 0 3 0 (Return NULL); F_finalize].

Lemma openshmem_operations_wait_witness :
  calls (first_part putter (replicate 6 0)) = [] ∧
  called_since 0 (call_is <$> [library "shmem_put64" [1; 2; 3; 4]])
    (second_part putter (replicate 6 0) put_steps).
Proof.
  split; [by vm_compute|].
  apply (openshmem_operations_wait (small_pool 2) 2 putter None (first_part putter (replicate 6 0))
    (second_part putter (replicate 6 0) put_steps) 0 putter (Return NULL) (behind (Return NULL))
    [library "shmem_put64" [1; 2; 3; 4]]).
  - apply (run_between_parts putter (replicate 6 0) put_steps 0 (mkWs 3 4 1)
      (mkCtx (Run putter) put_frames 0) (mkCtx (Run (Return NULL)) put_frames 0)); by vm_compute.
  - apply op_put64.
  - done.
Defined.
