(* ===== verification/Locks.v ===== *)
(** * Locks of the OpenSHMEM module

    [shmem_set_lock] and [shmem_clear_lock] of
    [src/modules/openshmem/src/hclib_openshmem.cpp].  A lock of the library belongs
    to the processing element, so the tasks of the element queue up for it: each
    call of [shmem_set_lock] spawns a task that sets the lock once the promise of
    the call before is put, and [shmem_clear_lock] puts the promise of the call
    that it ends.  A thread is a task of the user that calls the two; its accesses
    to shared memory and those of the others interleave in any order.  What the
    runtime does is one step here: a task starts when the future it waits for is
    put, and a wait returns when the task it waits for has.  The calls of the
    library are events, with the return of each at any later time. *)

From S2P Require Import Prelude.
From stdpp Require Import options.

(** ** The machine *)

(** src/modules/openshmem/src/hclib_openshmem.cpp:125-128 (lock_context_t) *)
Record lock_context_t := mkLock { last_lock : Z; live : Z }.

(** The two functions of the tasks; each calls the function of the library.

    src/modules/openshmem/src/hclib_openshmem.cpp:361-381 (shmem_set_lock_impl) *)
Inductive lock_fp := shmem_set_lock_impl | shmem_clear_lock_impl.

Inductive status := Spawned | Calling | Returned.

(** A task at the network interface, with the future it waits for.  Its own
    future is put when it has returned. *)
Record lock_task := mkTask { fp : lock_fp; lock_of : Z; waits_for : Z; state : status }.

(** The point before the next access to shared memory.

    src/modules/openshmem/src/hclib_openshmem.cpp:383-415 (shmem_set_lock)

    src/modules/openshmem/src/hclib_openshmem.cpp:417-438 (shmem_clear_lock) *)
Inductive lpc :=
  | LIdle
  | SetEnter (lock : Z)                    (** [pthread_mutex_lock] *)
  | SetLocked (lock : Z)
  | SetUnlock (lock promise await : Z)
  | SetWait (lock promise await : Z)       (** [hclib_future_wait] *)
  | SetCheck (lock promise : Z)            (** the assertion on [live] *)
  | SetLive (lock promise : Z)
  | ClrEnter (lock : Z)
  | ClrLocked (lock : Z)
  | ClrUnlock (lock await : Z)
  | ClrWait (lock await : Z)
  | ClrLive (lock : Z)                     (** read [live] *)
  | ClrNull (lock live : Z)
  | ClrPut (lock live : Z).

(** What a thread asks of a lock and gets, and the calls of the library. *)
Inductive lock_event :=
  | Ask (i : nat)
  | Grant (i : nat)
  | Release
  | LibSet | LibSetReturn
  | LibClear | LibClearReturn.

(** [promises] says which are put. *)
Record lock_state := mkLocks {
  lock_info : gmap Z lock_context_t;
  lock_info_mutex : option nat;
  promises : gmap Z bool;
  tasks : gmap Z lock_task;
  brk : Z;
  threads : nat → lpc;
  trace : list (Z * lock_event)
}.

Definition goto (i : nat) (x : lpc) (s : lock_state) : lock_state :=
  mkLocks (lock_info s) (lock_info_mutex s) (promises s) (tasks s) (brk s) (<[i := x]> (threads s)) (trace s).
Definition set_mutex (m : option nat) (s : lock_state) : lock_state :=
  mkLocks (lock_info s) m (promises s) (tasks s) (brk s) (threads s) (trace s).
Definition set_context (l : Z) (x : lock_context_t) (s : lock_state) : lock_state :=
  mkLocks (<[l := x]> (lock_info s)) (lock_info_mutex s) (promises s) (tasks s) (brk s) (threads s) (trace s).
Definition set_task (a : Z) (t : lock_task) (s : lock_state) : lock_state :=
  mkLocks (lock_info s) (lock_info_mutex s) (promises s) (<[a := t]> (tasks s)) (brk s) (threads s) (trace s).
Definition set_promise (p : Z) (b : bool) (s : lock_state) : lock_state :=
  mkLocks (lock_info s) (lock_info_mutex s) (<[p := b]> (promises s)) (tasks s) (brk s) (threads s) (trace s).
Definition logged (l : Z) (e : lock_event) (s : lock_state) : lock_state :=
  mkLocks (lock_info s) (lock_info_mutex s) (promises s) (tasks s) (brk s) (threads s) (trace s ++ [(l, e)]).
Definition set_brk (b : Z) (s : lock_state) : lock_state :=
  mkLocks (lock_info s) (lock_info_mutex s) (promises s) (tasks s) b (threads s) (trace s).

(** [hclib_promise_create] *)
Definition new_promise (s : lock_state) : Z * lock_state :=
  (brk s, set_brk (brk s + 1) (set_promise (brk s) false s)).

(** [hclib_async_future] at the network interface, with a future or none. *)
Definition spawn (f : lock_fp) (lock future : Z) (s : lock_state) : Z * lock_state :=
  (brk s, set_brk (brk s + 1) (set_task (brk s) (mkTask f lock future Spawned) s)).

(** [hclib_promise_put] *)
Definition put (p : Z) (s : lock_state) : res lock_state :=
  satisfied ← deref (promises s !! p);
  _ ← hassert (negb satisfied);
  Ok (set_promise p true s).

(** A lock that the program has not asked for has no context: it gets one that is
    zero.  Between locking and unlocking the mutex no other thread reads or
    writes what is accessed, except for the task, which is there for others once
    it is spawned: the accesses are one step.

    src/modules/openshmem/src/hclib_openshmem.cpp:387-408 (shmem_set_lock) *)
Definition set_locked (i : nat) (lock : Z) (s : lock_state) : lock_state :=
  let '(promise, s) := new_promise s in
  let ctx := default (mkLock NULL NULL) (lock_info s !! lock) in
  let '(await, s) := spawn shmem_set_lock_impl lock (last_lock ctx) s in
  goto i (SetUnlock lock promise await)
    (logged lock (Ask i) (set_context lock (mkLock promise (live ctx)) s)).

(** A step of thread [i] that sets a lock.

    src/modules/openshmem/src/hclib_openshmem.cpp:383-415 (shmem_set_lock) *)
Definition set_step (i : nat) (s : lock_state) : res lock_state :=
  match threads s i with
  | SetEnter lock =>
      match lock_info_mutex s with
      | None => Ok (goto i (SetLocked lock) (set_mutex (Some i) s))
      | Some _ => Err Disabled
      end
  | SetLocked lock => Ok (set_locked i lock s)
  | SetUnlock lock promise await => Ok (goto i (SetWait lock promise await) (set_mutex None s))
  | SetWait lock promise await =>
      t ← deref (tasks s !! await);
      match state t with
      | Returned => Ok (goto i (SetCheck lock promise) s)
      | _ => Err Disabled
      end
  | SetCheck lock promise =>
      ctx ← deref (lock_info s !! lock);
      _ ← hassert (live ctx =? NULL);
      Ok (goto i (SetLive lock promise) s)
  | SetLive lock promise =>
      ctx ← deref (lock_info s !! lock);
      Ok (goto i LIdle (logged lock (Grant i) (set_context lock (mkLock (last_lock ctx) promise) s)))
  | _ => Err Disabled
  end.

(** A step of thread [i] that clears a lock.

    src/modules/openshmem/src/hclib_openshmem.cpp:417-438 (shmem_clear_lock) *)
Definition clear_step (i : nat) (s : lock_state) : res lock_state :=
  match threads s i with
  | ClrEnter lock =>
      match lock_info_mutex s with
      | None => Ok (goto i (ClrLocked lock) (set_mutex (Some i) s))
      | Some _ => Err Disabled
      end
  | ClrLocked lock =>
      _ ← hassert (bool_decide (is_Some (lock_info s !! lock)));
      let '(await, s) := spawn shmem_clear_lock_impl lock NULL s in
      Ok (goto i (ClrUnlock lock await) s)
  | ClrUnlock lock await => Ok (goto i (ClrWait lock await) (set_mutex None s))
  | ClrWait lock await =>
      t ← deref (tasks s !! await);
      match state t with
      | Returned => Ok (goto i (ClrLive lock) s)
      | _ => Err Disabled
      end
  | ClrLive lock =>
      ctx ← deref (lock_info s !! lock);
      _ ← hassert (negb (live ctx =? NULL));
      Ok (goto i (ClrNull lock (live ctx)) s)
  | ClrNull lock p =>
      ctx ← deref (lock_info s !! lock);
      Ok (goto i (ClrPut lock p) (set_context lock (mkLock (last_lock ctx) NULL) s))
  | ClrPut lock p =>
      s ← put p s;
      Ok (goto i LIdle s)
  | _ => Err Disabled
  end.

(** The calls of the library, and what follows their return. *)
Definition call_event (f : lock_fp) : lock_event :=
  match f with shmem_set_lock_impl => LibSet | shmem_clear_lock_impl => LibClear end.
Definition return_event (f : lock_fp) : lock_event :=
  match f with shmem_set_lock_impl => LibSetReturn | shmem_clear_lock_impl => LibClearReturn end.

(** A task starts when the future it waits for is put.

    src/modules/openshmem/src/hclib_openshmem.cpp:361-381 (shmem_set_lock_impl) *)
Definition task_step (a : Z) (s : lock_state) : res lock_state :=
  match tasks s !! a with
  | Some (mkTask f lock future Spawned) =>
      if (future =? NULL) || default false (promises s !! future)
      then Ok (logged lock (call_event f) (set_task a (mkTask f lock future Calling) s))
      else Err Disabled
  | Some (mkTask f lock future Calling) =>
      Ok (logged lock (return_event f) (set_task a (mkTask f lock future Returned) s))
  | _ => Err Disabled
  end.

(** A thread that does nothing sets a lock or clears one, or a call in progress or
    a task goes on. *)
Inductive lock_label :=
  | CallSet (i : nat) (lock : Z)
  | CallClear (i : nat) (lock : Z)
  | Thread (i : nat)
  | Task (a : Z).

Definition lock_step (x : lock_label) (s : lock_state) : res lock_state :=
  match x with
  | CallSet i lock =>
      match threads s i with LIdle => Ok (goto i (SetEnter lock) s) | _ => Err Disabled end
  | CallClear i lock =>
      match threads s i with
      | LIdle => Ok (goto i (ClrEnter lock) (logged lock Release s))
      | _ => Err Disabled
      end
  | Thread i =>
      match threads s i with
      | SetEnter _ | SetLocked _ | SetUnlock _ _ _ | SetWait _ _ _ | SetCheck _ _ | SetLive _ _ => set_step i s
      | _ => clear_step i s
      end
  | Task a => task_step a s
  end.

(** src/modules/openshmem/src/hclib_openshmem.cpp:131-132 (lock_info) *)
Definition no_locks : lock_state := mkLocks ∅ None ∅ ∅ 1 (λ _, LIdle) [].

(** ** What a lock promises

    A lock takes requests in a queue.  When it is free and there are any, the
    library is asked to set it; when the library has, the first request is
    granted; the holder releases it, and the library is asked to clear it. *)
Inductive phase :=
  | Free
  | Setting
  | Got
  | Held (i : nat)
  | Released
  | Clearing.

Definition fifo_step (x : phase * list nat) (e : lock_event) : option (phase * list nat) :=
  let '(ph, waiting) := x in
  match e, ph, waiting with
  | Ask i, _, _ => Some (ph, waiting ++ [i])
  | LibSet, Free, _ :: _ => Some (Setting, waiting)
  | LibSetReturn, Setting, _ => Some (Got, waiting)
  | Grant i, Got, j :: rest => if decide (i = j) then Some (Held i, rest) else None
  | Release, Held _, _ => Some (Released, waiting)
  | LibClear, Released, _ => Some (Clearing, waiting)
  | LibClearReturn, Clearing, _ => Some (Free, waiting)
  | _, _, _ => None
  end.

Definition fifo_run (x : phase * list nat) (es : list lock_event) : option (phase * list nat) :=
  foldl (λ x e, x ≫= λ x, fifo_step x e) (Some x) es.

(** What has happened at a lock, and where that leaves it. *)
Definition events_of (l : Z) (es : list (Z * lock_event)) : list lock_event :=
  (filter (λ e, e.1 = l) es).*2.

Definition lock_at (l : Z) (s : lock_state) : option (phase * list nat) :=
  fifo_run (Free, []) (events_of l (trace s)).

(** The program clears only locks that it holds; the task that clears a lock need
    not be the one that has set it. *)
Definition is_held (l : Z) (s : lock_state) : bool :=
  match lock_at l s with Some (Held _, _) => true | _ => false end.

Definition allowed (x : lock_label) (s : lock_state) : bool :=
  match x with CallClear _ lock => is_held lock s | _ => true end.

Inductive lock_reachable : lock_state → Prop :=
  | reach_init : lock_reachable no_locks
  | reach_step x s s' :
      lock_reachable s → allowed x s = true → lock_step x s = Ok s' → lock_reachable s'.

(** ** Invariant *)

(** A call of [shmem_set_lock] that has not got the lock. *)
Record request := mkReq { promise_of : Z; task_of : Z; thread_of : nat }.

(** How far the lock is: with the library, or with the request of promise [p],
    which thread [i] has or gives up, by a task [a] that clears it. *)
Inductive stage :=
  | GIdle
  | GSetting
  | GGot
  | GOwned (p : Z) (i : nat)
  | GAsked (p : Z) (i : nat)
  | GClear (p : Z) (i : nat) (a : Z)
  | GClearing (p : Z) (i : nat) (a : Z)
  | GCleared (p : Z) (i : nat) (a : Z)
  | GNull (p : Z) (i : nat)
  | GPut (p : Z) (i : nat).

Definition phase_of (x : stage) : phase :=
  match x with
  | GIdle | GCleared _ _ _ | GNull _ _ | GPut _ _ => Free
  | GSetting => Setting
  | GGot => Got
  | GOwned _ i => Held i
  | GAsked _ _ | GClear _ _ _ => Released
  | GClearing _ _ _ => Clearing
  end.

(** The promise that is put when the lock has been cleared. *)
Definition current (x : stage) : option Z :=
  match x with
  | GIdle | GSetting | GGot => None
  | GOwned p _ | GAsked p _ | GClear p _ _ | GClearing p _ _ | GCleared p _ _ | GNull p _ | GPut p _ => Some p
  end.

Definition live_of (x : stage) : Z :=
  match x with
  | GIdle | GSetting | GGot | GPut _ _ => NULL
  | GOwned p _ | GAsked p _ | GClear p _ _ | GClearing p _ _ | GCleared p _ _ | GNull p _ => p
  end.

(** The task of the first request. *)
Definition first_state (x : stage) : status :=
  match x with GSetting => Calling | GGot => Returned | _ => Spawned end.

(** Each request's task waits for the promise of the one before; [own] says which
    lock a promise belongs to. *)
Fixpoint chained (s : lock_state) (own : Z → Z) (l prev : Z) (x : status) (q : list request) : Prop :=
  match q with
  | [] => True
  | r :: q =>
      tasks s !! task_of r = Some (mkTask shmem_set_lock_impl l prev x) ∧
      promises s !! promise_of r = Some false ∧ own (promise_of r) = l ∧
      chained s own l (promise_of r) Spawned q
  end.

Definition chain_end (prev : Z) (q : list request) : Z := default prev (last (promise_of <$> q)).

Definition context (l : Z) (s : lock_state) : lock_context_t := default (mkLock NULL NULL) (lock_info s !! l).

(** What the first request waits for. *)
Definition before (s : lock_state) (own : Z → Z) (l : Z) (x : stage) (prev : Z) : Prop :=
  match current x with
  | Some p => prev = p ∧ promises s !! p = Some false ∧ own p = l
  | None => prev = NULL ∨ (promises s !! prev = Some true ∧ own prev = l)
  end.

(** Where the thread that gives the lock up is. *)
Definition giver_ok (s : lock_state) (l : Z) (x : stage) : Prop :=
  match x with
  | GAsked _ i => threads s i = ClrEnter l ∨ threads s i = ClrLocked l
  | GClear _ i a =>
      tasks s !! a = Some (mkTask shmem_clear_lock_impl l NULL Spawned) ∧
      (threads s i = ClrUnlock l a ∨ threads s i = ClrWait l a)
  | GClearing _ i a =>
      tasks s !! a = Some (mkTask shmem_clear_lock_impl l NULL Calling) ∧
      (threads s i = ClrUnlock l a ∨ threads s i = ClrWait l a)
  | GCleared _ i a =>
      tasks s !! a = Some (mkTask shmem_clear_lock_impl l NULL Returned) ∧
      (threads s i = ClrUnlock l a ∨ threads s i = ClrWait l a ∨ threads s i = ClrLive l)
  | GNull p i => threads s i = ClrNull l p
  | GPut p i => threads s i = ClrPut l p
  | _ => True
  end.

(** Where the thread of a request is. *)
Definition waits_at (l : Z) (x : stage) (first : bool) (r : request) (pc : lpc) : Prop :=
  pc = SetUnlock l (promise_of r) (task_of r) ∨ pc = SetWait l (promise_of r) (task_of r) ∨
  (first = true ∧ x = GGot ∧ (pc = SetCheck l (promise_of r) ∨ pc = SetLive l (promise_of r))).

(** What a task that has not returned is for. *)
Definition in_progress (q : list request) (x : stage) (a : Z) (t : lock_task) : Prop :=
  match fp t with
  | shmem_set_lock_impl => ∃ r, r ∈ q ∧ task_of r = a
  | shmem_clear_lock_impl => ∃ p i, x = GClear p i a ∨ x = GClearing p i a
  end.

Record lock_ok (s : lock_state) (own : Z → Z) (l : Z) (q : list request) (x : stage) : Prop := {
  lk_at : lock_at l s = Some (phase_of x, thread_of <$> q);
  lk_chain : ∃ prev, last_lock (context l s) = chain_end prev q ∧ before s own l x prev ∧
    NoDup (prev :: (promise_of <$> q)) ∧ chained s own l prev (first_state x) q;
  lk_live : live (context l s) = live_of x;
  lk_known : lock_info s !! l = None → q = [] ∧ x = GIdle;
  lk_giver : giver_ok s l x;
  lk_waits : ∀ k r, q !! k = Some r → waits_at l x (bool_decide (k = O)) r (threads s (thread_of r));
  lk_first : x = GSetting ∨ x = GGot → q ≠ [];
  lk_tasks : ∀ a t, tasks s !! a = Some t → lock_of t = l → state t ≠ Returned → in_progress q x a t
}.

(** The lock that a thread is busy with. *)
Definition lock_at_pc (x : lpc) : option Z :=
  match x with
  | LIdle | SetEnter _ | SetLocked _ => None
  | SetUnlock l _ _ | SetWait l _ _ | SetCheck l _ | SetLive l _
  | ClrEnter l | ClrLocked l | ClrUnlock l _ | ClrWait l _ | ClrLive l | ClrNull l _ | ClrPut l _ => Some l
  end.

(** What a thread knows of its lock. *)
Definition thread_ok (q : list request) (x : stage) (i : nat) (pc : lpc) : Prop :=
  match pc with
  | LIdle | SetEnter _ | SetLocked _ => True
  | SetUnlock _ p a | SetWait _ p a => mkReq p a i ∈ q
  | SetCheck _ p | SetLive _ p => x = GGot ∧ ∃ a rest, q = mkReq p a i :: rest
  | ClrEnter _ | ClrLocked _ => ∃ p, x = GAsked p i
  | ClrUnlock _ a | ClrWait _ a => ∃ p, x = GClear p i a ∨ x = GClearing p i a ∨ x = GCleared p i a
  | ClrLive _ => ∃ p a, x = GCleared p i a
  | ClrNull _ p => x = GNull p i
  | ClrPut _ p => x = GPut p i
  end.

(** The thread is between locking and unlocking the mutex. *)
Definition has_mutex (x : lpc) : bool :=
  match x with SetLocked _ | SetUnlock _ _ _ | ClrLocked _ | ClrUnlock _ _ => true | _ => false end.

Record locks_inv (s : lock_state) (own : Z → Z) (q : Z → list request) (x : Z → stage) : Prop := {
  li_locks : ∀ l, lock_ok s own l (q l) (x l);
  li_threads : ∀ i l, lock_at_pc (threads s i) = Some l → thread_ok (q l) (x l) i (threads s i);
  li_mutex : ∀ i, has_mutex (threads s i) = true ↔ lock_info_mutex s = Some i;
  li_promises : ∀ p b, promises s !! p = Some b → 0 < p < brk s;
  li_tasks : ∀ a t, tasks s !! a = Some t → 0 < a < brk s;
  li_brk : 0 < brk s
}.

(** ** Lemmas *)

Lemma fifo_app x es e : fifo_run x (es ++ [e]) = fifo_run x es ≫= λ x, fifo_step x e.
Proof. unfold fifo_run. by rewrite foldl_app. Qed.

Lemma lock_at_logged l e s : lock_at l (logged l e s) = lock_at l s ≫= λ x, fifo_step x e.
Proof.
  unfold lock_at, events_of. cbn. rewrite filter_app, fmap_app, filter_cons_True by done.
  apply fifo_app.
Qed.

Lemma lock_at_other l l' e s : l' ≠ l → lock_at l' (logged l e s) = lock_at l' s.
Proof.
  intros H. unfold lock_at, events_of. cbn.
  by rewrite filter_app, filter_cons_False, app_nil_r by (cbn; congruence).
Qed.

(** *** What happens at one lock only *)

Record elsewhere (l : Z) (own own' : Z → Z) (s s' : lock_state) : Prop := {
  el_info : ∀ l', l' ≠ l → lock_info s' !! l' = lock_info s !! l';
  el_at : ∀ l', l' ≠ l → lock_at l' s' = lock_at l' s;
  el_promises : ∀ p b, promises s !! p = Some b → own p ≠ l → promises s' !! p = Some b ∧ own' p = own p;
  el_tasks : ∀ a t, lock_of t ≠ l → tasks s' !! a = Some t ↔ tasks s !! a = Some t;
  el_threads : ∀ i l', l' ≠ l → lock_at_pc (threads s i) = Some l' ∨ lock_at_pc (threads s' i) = Some l' →
    threads s' i = threads s i
}.

Lemma chained_elem s own l prev x q r :
  chained s own l prev x q → r ∈ q →
  promises s !! promise_of r = Some false ∧ own (promise_of r) = l ∧
  ∃ d y, tasks s !! task_of r = Some (mkTask shmem_set_lock_impl l d y) ∧
    ((∃ rest, q = r :: rest ∧ d = prev ∧ y = x) ∨ (d ∈ promise_of <$> q ∧ y = Spawned)).
Proof.
  revert prev x. induction q as [|r0 q IH]; intros prev x; cbn; [by intros _ ?%not_elem_of_nil|].
  intros (Ht & Hp & Ho & Hc) [->|Hr]%elem_of_cons.
  - split; [done|split; [done|]]. exists prev, x. split; [done|]. left. by exists q.
  - destruct (IH _ _ Hc Hr) as (H1 & H2 & d & y & Hd & H). split; [done|split; [done|]].
    exists d, y. split; [done|]. right.
    destruct H as [(rest & -> & -> & ->)|[Hi ->]]; (split; [|done]); apply elem_of_cons; auto.
Qed.

Lemma chained_mono s s' own own' l prev x q :
  chained s own l prev x q →
  (∀ r, r ∈ q → tasks s' !! task_of r = tasks s !! task_of r ∧
    promises s' !! promise_of r = promises s !! promise_of r ∧ own' (promise_of r) = own (promise_of r)) →
  chained s' own' l prev x q.
Proof.
  revert prev x. induction q as [|r q IH]; intros prev x; cbn; [done|].
  intros (Ht & Hp & Ho & Hc) H. destruct (H r) as (-> & -> & ->); [left|].
  do 3 (split; [done|]). apply IH; [done|]. intros r' Hr. apply H. by right.
Qed.

Lemma chain_end_cons prev r q : chain_end prev (r :: q) = chain_end (promise_of r) q.
Proof. unfold chain_end. rewrite fmap_cons, last_cons. by destruct (last _). Qed.

Lemma chained_snoc s own l prev x q r :
  chained s own l prev x q →
  tasks s !! task_of r =
    Some (mkTask shmem_set_lock_impl l (chain_end prev q) (match q with [] => x | _ => Spawned end)) →
  promises s !! promise_of r = Some false → own (promise_of r) = l →
  chained s own l prev x (q ++ [r]).
Proof.
  revert prev x. induction q as [|r0 q IH]; intros prev x; cbn; [done|].
  intros (Ht & Hp & Ho & Hc) H1 H2 H3. do 3 (split; [done|]). apply IH; [done| |done..].
  rewrite H1, chain_end_cons. by destruct q.
Qed.

Lemma chain_end_snoc prev q r : chain_end prev (q ++ [r]) = promise_of r.
Proof. unfold chain_end. by rewrite fmap_app; cbn [fmap list_fmap]; rewrite last_snoc. Qed.

Lemma before_elsewhere l own own' s s' l' x prev :
  elsewhere l own own' s s' → l' ≠ l → before s own l' x prev → before s' own' l' x prev.
Proof.
  intros He Hl. unfold before. destruct (current x) as [p|].
  - intros (-> & Hp & Ho). destruct (el_promises _ _ _ _ _ He p false) as [-> ->]; by subst.
  - intros [->|[Hp Ho]]; [by left|]. right.
    destruct (el_promises _ _ _ _ _ He prev true) as [-> ->]; by subst.
Qed.

Lemma lock_ok_elsewhere l own own' s s' l' q x :
  elsewhere l own own' s s' → l' ≠ l → lock_ok s own l' q x → lock_ok s' own' l' q x.
Proof.
  intros He Hl [Hat (prev & Hlast & Hb & Hn & Hc) Hlive Hk Hg Hw Hf Ht].
  pose proof (el_info _ _ _ _ _ He l' Hl) as Hi.
  assert (∀ i, lock_at_pc (threads s i) = Some l' → threads s' i = threads s i) as Hth.
  { intros i H. apply (el_threads _ _ _ _ _ He i l' Hl). by left. }
  split.
  - by rewrite (el_at _ _ _ _ _ He).
  - exists prev. unfold context. rewrite Hi. split; [done|]. split; [by eapply before_elsewhere|].
    split; [done|]. eapply chained_mono; [done|]. intros r Hr.
    destruct (chained_elem _ _ _ _ _ _ _ Hc Hr) as (Hp & Ho & d & y & Hd & _).
    destruct (el_promises _ _ _ _ _ He _ _ Hp) as [-> ->]; [congruence|].
    rewrite Hd, Hp. split; [|done]. by apply (el_tasks _ _ _ _ _ He).
  - unfold context. by rewrite Hi.
  - by rewrite Hi.
  - assert (∀ a y, tasks s !! a = Some (mkTask shmem_clear_lock_impl l' NULL y) →
      tasks s' !! a = Some (mkTask shmem_clear_lock_impl l' NULL y)) as Hta.
    { intros a y. by apply (el_tasks _ _ _ _ _ He). }
    destruct x; cbn in Hg |- *; try done.
    all: destruct_and?; destruct_or?; rewrite Hth by (first [rewrite Hg|rewrite H|rewrite H0]; done); auto.
  - intros k r Hr. specialize (Hw k r Hr). rewrite Hth; [done|].
    by destruct Hw as [->|[->|(_ & _ & [->| ->])]].
  - done.
  - intros a t Ha Hlo. apply Ht; [|done]. apply (el_tasks _ _ _ _ _ He); [congruence|done].
Qed.

Lemma locks_change s s' own own' q x l q' x' :
  locks_inv s own q x → elsewhere l own own' s s' → lock_ok s' own' l q' x' →
  (∀ i, lock_at_pc (threads s' i) = Some l → thread_ok q' x' i (threads s' i)) →
  (∀ i, has_mutex (threads s' i) = true ↔ lock_info_mutex s' = Some i) →
  (∀ p b, promises s' !! p = Some b → 0 < p < brk s') →
  (∀ a t, tasks s' !! a = Some t → 0 < a < brk s') → 0 < brk s' →
  locks_inv s' own' (<[l := q']> q) (<[l := x']> x).
Proof.
  intros Hi He Hl Ht Hm Hp Ha Hb. split; [|..]; try done.
  - intros l'. destruct (decide (l' = l)) as [->|Hne]; [by rewrite !fn_lookup_insert|].
    rewrite !fn_lookup_insert_ne by done. eapply lock_ok_elsewhere; [done..|apply Hi].
  - intros i l' H. destruct (decide (l' = l)) as [->|Hne]; [rewrite !fn_lookup_insert; auto|].
    rewrite !fn_lookup_insert_ne by done.
    rewrite (el_threads _ _ _ _ _ He i l' Hne) in H |- * by auto. by apply Hi.
Qed.

(** *** What a step of a thread changes *)

(** Only thread [i], the mutex, the context of lock [l] and what has happened there. *)
Record moved (i : nat) (l : Z) (pc : lpc) (s s' : lock_state) : Prop := {
  mv_threads : threads s' = <[i := pc]> (threads s);
  mv_promises : promises s' = promises s;
  mv_tasks : tasks s' = tasks s;
  mv_brk : brk s' = brk s;
  mv_info : ∀ l', l' ≠ l → lock_info s' !! l' = lock_info s !! l';
  mv_at : ∀ l', l' ≠ l → lock_at l' s' = lock_at l' s;
  mv_from : ∀ l', lock_at_pc (threads s i) = Some l' → l' = l;
  mv_to : ∀ l', lock_at_pc pc = Some l' → l' = l
}.

Definition mutex_ok (s : lock_state) : Prop := ∀ i, has_mutex (threads s i) = true ↔ lock_info_mutex s = Some i.

Lemma moved_elsewhere i l pc s s' own : moved i l pc s s' → elsewhere l own own s s'.
Proof.
  intros H. split; [apply H|apply H| | |].
  - intros p b. by rewrite (mv_promises _ _ _ _ _ H).
  - intros a t _. by rewrite (mv_tasks _ _ _ _ _ H).
  - intros j l' Hl. rewrite (mv_threads _ _ _ _ _ H).
    destruct (decide (j = i)) as [->|]; [|by rewrite fn_lookup_insert_ne].
    rewrite fn_lookup_insert. intros [E|E]; [apply (mv_from _ _ _ _ _ H) in E|apply (mv_to _ _ _ _ _ H) in E]; done.
Qed.

Lemma moved_inv i l pc s s' own q x q' x' :
  locks_inv s own q x → moved i l pc s s' → mutex_ok s' → lock_ok s' own l q' x' →
  (lock_at_pc pc = Some l → thread_ok q' x' i pc) →
  (∀ j, j ≠ i → lock_at_pc (threads s j) = Some l → thread_ok (q l) (x l) j (threads s j) →
     thread_ok q' x' j (threads s j)) →
  locks_inv s' own (<[l := q']> q) (<[l := x']> x).
Proof.
  intros Hi Hm Hmu Hl Hpc Hj. eapply locks_change; [exact Hi|by eapply moved_elsewhere|exact Hl| |exact Hmu|..].
  - intros j. rewrite (mv_threads _ _ _ _ _ Hm). destruct (decide (j = i)) as [->|]; [by rewrite fn_lookup_insert|].
    rewrite fn_lookup_insert_ne by done. intros H. apply Hj; [done..|]. by apply Hi.
  - rewrite (mv_promises _ _ _ _ _ Hm), (mv_brk _ _ _ _ _ Hm). apply Hi.
  - rewrite (mv_tasks _ _ _ _ _ Hm), (mv_brk _ _ _ _ _ Hm). apply Hi.
  - rewrite (mv_brk _ _ _ _ _ Hm). apply Hi.
Qed.

(** The queue's tasks and promises when only the stage changes. *)
Definition chain_ok (s : lock_state) (own : Z → Z) (l : Z) (q : list request) (x : stage) : Prop :=
  ∃ prev, last_lock (context l s) = chain_end prev q ∧ before s own l x prev ∧
    NoDup (prev :: (promise_of <$> q)) ∧ chained s own l prev (first_state x) q.

Lemma chain_stage s s' own l q x x' :
  chain_ok s own l q x → last_lock (context l s') = last_lock (context l s) →
  promises s' = promises s → tasks s' = tasks s →
  current x' = current x → (q = [] ∨ first_state x' = first_state x) → chain_ok s' own l q x'.
Proof.
  intros (prev & Hl & Hb & Hn & Hc) Hl' Hp Ht Hx Hf. exists prev. rewrite Hl'. split; [done|].
  split; [|split; [done|]].
  - unfold before in *. by rewrite Hx, Hp.
  - destruct Hf as [->| ->]; [done|]. eapply chained_mono; [exact Hc|]. intros r _. by rewrite Hp, Ht.
Qed.

Lemma mutex_move i pc s s' :
  mutex_ok s → threads s' = <[i := pc]> (threads s) → lock_info_mutex s' = lock_info_mutex s →
  has_mutex pc = has_mutex (threads s i) → mutex_ok s'.
Proof.
  intros Hm Ht Hl Hp j. rewrite Ht, Hl. destruct (decide (j = i)) as [->|].
  - rewrite fn_lookup_insert, Hp. apply Hm.
  - rewrite fn_lookup_insert_ne by done. apply Hm.
Qed.

Lemma mutex_take i pc s :
  mutex_ok s → lock_info_mutex s = None → has_mutex pc = true → mutex_ok (goto i pc (set_mutex (Some i) s)).
Proof.
  intros Hm Hn Hp j. cbn. destruct (decide (j = i)) as [->|Hne]; [by rewrite fn_lookup_insert, Hp|].
  rewrite fn_lookup_insert_ne by done. split; [intros H%Hm; congruence|congruence].
Qed.

Lemma mutex_give i pc s :
  mutex_ok s → has_mutex (threads s i) = true → has_mutex pc = false → mutex_ok (goto i pc (set_mutex None s)).
Proof.
  intros Hm Hn Hp j. cbn. destruct (decide (j = i)) as [->|Hne]; [by rewrite fn_lookup_insert, Hp|].
  rewrite fn_lookup_insert_ne by done. apply Hm in Hn. split; [|done]. intros H%Hm. congruence.
Qed.

(** A thread goes on, and nothing changes at the lock. *)
Lemma moved_same i l pc s m own q x :
  locks_inv s own q x → moved i l pc s (goto i pc (set_mutex m s)) → mutex_ok (goto i pc (set_mutex m s)) →
  (lock_at_pc pc = Some l → thread_ok (q l) (x l) i pc) →
  giver_ok (goto i pc s) l (x l) →
  (∀ k r, q l !! k = Some r → thread_of r = i → waits_at l (x l) (bool_decide (k = O)) r pc) →
  ∃ own q x, locks_inv (goto i pc (set_mutex m s)) own q x.
Proof.
  intros Hi Hm Hmu Hpc Hg Hw. pose proof (li_locks _ _ _ _ Hi l) as Hl.
  exists own, (<[l := q l]> q), (<[l := x l]> x). eapply moved_inv; [done..| |done|auto].
  split; try apply Hl.
  - eapply (chain_stage s); try done; [apply Hl|by right].
  - done.
  - intros k r Hk. cbn. destruct (decide (thread_of r = i)) as [<-|Hne].
    + rewrite fn_lookup_insert. by apply Hw.
    + rewrite fn_lookup_insert_ne by done. by apply Hl.
Qed.

(** *** The threads of a lock *)

Definition giver (x : stage) : option nat :=
  match x with
  | GIdle | GSetting | GGot | GOwned _ _ => None
  | GAsked _ i | GClear _ i _ | GClearing _ i _ | GCleared _ i _ | GNull _ i | GPut _ i => Some i
  end.

Definition clears (x : lpc) : bool :=
  match x with
  | ClrEnter _ | ClrLocked _ | ClrUnlock _ _ | ClrWait _ _ | ClrLive _ | ClrNull _ _ | ClrPut _ _ => true
  | _ => false
  end.

Definition queued (x : lpc) : bool :=
  match x with SetUnlock _ _ _ | SetWait _ _ _ | SetCheck _ _ | SetLive _ _ => true | _ => false end.

Lemma giver_clears s l x i : giver_ok s l x → giver x = Some i → clears (threads s i) = true.
Proof. destruct x; cbn; try done; intros H [= ->]; destruct_and?; destruct_or?; by match goal with H : threads _ _ = _ |- _ => rewrite H end. Qed.

Lemma giver_other s l x i pc : giver_ok s l x → giver x ≠ Some i → giver_ok (goto i pc s) l x.
Proof.
  destruct x; cbn; try done; intros H Hne.
  all: rewrite fn_lookup_insert_ne by congruence; done.
Qed.

Lemma not_giver s l x i : giver_ok s l x → clears (threads s i) = false → giver x ≠ Some i.
Proof. intros Hg Hc Hx. rewrite (giver_clears _ _ _ _ Hg Hx) in Hc. done. Qed.

Lemma waiter_queued s own l q x k r : lock_ok s own l q x → q !! k = Some r → queued (threads s (thread_of r)) = true.
Proof. intros Hl Hk. by destruct (lk_waits _ _ _ _ _ Hl k r Hk) as [->|[->|(_ & _ & [->| ->])]]. Qed.

Lemma not_queued s own l q x i :
  lock_ok s own l q x → queued (threads s i) = false → ∀ k r, q !! k = Some r → thread_of r ≠ i.
Proof. intros Hl Hq k r Hk <-. rewrite (waiter_queued _ _ _ _ _ _ _ Hl Hk) in Hq. done. Qed.

Lemma goto_mutex i pc s : goto i pc s = goto i pc (set_mutex (lock_info_mutex s) s).
Proof. by destruct s. Qed.

Lemma chain_nodup s own l q x : lock_ok s own l q x → NoDup (promise_of <$> q).
Proof. intros Hl. destruct (lk_chain _ _ _ _ _ Hl) as (prev & _ & _ & Hn & _). by apply NoDup_cons_1_2 in Hn. Qed.

Lemma same_request s own l q x k r k' r' :
  lock_ok s own l q x → q !! k = Some r → q !! k' = Some r' → promise_of r = promise_of r' → k = k'.
Proof.
  intros Hl Hk Hk' E. eapply NoDup_lookup; [by eapply chain_nodup|rewrite list_lookup_fmap, Hk; done|].
  rewrite list_lookup_fmap, Hk'. cbn. by f_equal.
Qed.

(** A request whose task has returned is the first, and its lock is set. *)
Lemma returned_first s own l q x r t :
  lock_ok s own l q x → r ∈ q → tasks s !! task_of r = Some t → state t = Returned →
  x = GGot ∧ ∃ rest, q = r :: rest.
Proof.
  intros Hl Hr Ht Hs. destruct (lk_chain _ _ _ _ _ Hl) as (prev & _ & _ & _ & Hc).
  destruct (chained_elem _ _ _ _ _ _ _ Hc Hr) as (_ & _ & d & y & Hd & H).
  rewrite Ht in Hd. injection Hd as ->. cbn in Hs. subst y.
  destruct H as [(rest & -> & _ & Hx)|[_ ?]]; [|done]. split; [by destruct x|by exists rest].
Qed.

(** *** Steps that only move a thread *)

Section steps.
Context (s : lock_state) (own : Z → Z) (q : Z → list request) (x : Z → stage).
Hypothesis Hi : locks_inv s own q x.
Set Default Proof Using "Type*".

Definition inv_holds (s : lock_state) : Prop := ∃ own q x, locks_inv s own q x.

Lemma moves_between i l pc m :
  (∀ l', lock_at_pc (threads s i) = Some l' → l' = l) → (∀ l', lock_at_pc pc = Some l' → l' = l) →
  moved i l pc s (goto i pc (set_mutex m s)).
Proof. by split. Qed.

Lemma mutex_inv : mutex_ok s.
Proof. intros i. apply Hi. Qed.

Lemma call_set_ok i l : threads s i = LIdle → inv_holds (goto i (SetEnter l) s).
Proof.
  intros E. rewrite goto_mutex. apply (moved_same i l _ _ _ own q x Hi).
  - apply moves_between; [by rewrite E|done].
  - eapply mutex_move; [exact mutex_inv|done..|by rewrite E].
  - done.
  - apply giver_other; [apply Hi|]. eapply not_giver; [apply Hi|by rewrite E].
  - intros k r Hk Hr. by destruct (not_queued _ _ _ _ _ i (li_locks _ _ _ _ Hi l) ltac:(by rewrite E) k r Hk).
Qed.

Lemma set_enter_ok i l :
  threads s i = SetEnter l → lock_info_mutex s = None →
  inv_holds (goto i (SetLocked l) (set_mutex (Some i) s)).
Proof.
  intros E Hm. apply (moved_same i l _ _ _ own q x Hi).
  - apply moves_between; [by rewrite E|done].
  - by apply mutex_take; [exact mutex_inv|..].
  - done.
  - apply giver_other; [apply Hi|]. eapply not_giver; [apply Hi|by rewrite E].
  - intros k r Hk Hr. by destruct (not_queued _ _ _ _ _ i (li_locks _ _ _ _ Hi l) ltac:(by rewrite E) k r Hk).
Qed.

Lemma set_unlock_ok i l p a :
  threads s i = SetUnlock l p a → inv_holds (goto i (SetWait l p a) (set_mutex None s)).
Proof.
  intros E. apply (moved_same i l _ _ _ own q x Hi).
  - apply moves_between; [rewrite E; cbn; congruence|cbn; congruence].
  - apply mutex_give; [exact mutex_inv|by rewrite E|done].
  - intros _. pose proof (li_threads _ _ _ _ Hi i l) as H. rewrite E in H. by apply H.
  - apply giver_other; [apply Hi|]. eapply not_giver; [apply Hi|by rewrite E].
  - intros k r Hk <-. pose proof (lk_waits _ _ _ _ _ (li_locks _ _ _ _ Hi l) k r Hk) as H. rewrite E in H.
    destruct H as [[= -> ->]|[?|(_ & _ & [?|?])]]; try done. right. by left.
Qed.

Lemma set_wait_ok i l p a t :
  threads s i = SetWait l p a → tasks s !! a = Some t → state t = Returned →
  inv_holds (goto i (SetCheck l p) s).
Proof.
  intros E Ht Hs. pose proof (li_threads _ _ _ _ Hi i l) as H. rewrite E in H. specialize (H eq_refl).
  pose proof (li_locks _ _ _ _ Hi l) as Hl.
  destruct (returned_first _ _ _ _ _ _ _ Hl H Ht Hs) as (Hx & rest & Hq).
  rewrite goto_mutex. apply (moved_same i l _ _ _ own q x Hi).
  - apply moves_between; [rewrite E; cbn; congruence|cbn; congruence].
  - eapply mutex_move; [exact mutex_inv|done..|by rewrite E].
  - intros _. split; [done|]. by exists a, rest.
  - apply giver_other; [apply Hi|]. by rewrite Hx.
  - intros k r Hk <-. pose proof (lk_waits _ _ _ _ _ Hl k r Hk) as Hw. rewrite E in Hw.
    destruct Hw as [?|[[= Hp Ha]|(_ & _ & [?|?])]]; try done. right; right.
    assert (k = 0%nat) as ->.
    { eapply (same_request _ _ _ _ _ k r 0%nat); [done|done|by rewrite Hq|done]. }
    split; [done|]. split; [done|]. left. congruence.
Qed.

Lemma set_check_ok i l p :
  threads s i = SetCheck l p → inv_holds (goto i (SetLive l p) s).
Proof.
  intros E. pose proof (li_threads _ _ _ _ Hi i l) as H. rewrite E in H. destruct (H eq_refl) as (Hx & a & rest & Hq).
  pose proof (li_locks _ _ _ _ Hi l) as Hl.
  rewrite goto_mutex. apply (moved_same i l _ _ _ own q x Hi).
  - apply moves_between; [rewrite E; cbn; congruence|cbn; congruence].
  - eapply mutex_move; [exact mutex_inv|done..|by rewrite E].
  - intros _. split; [done|]. by exists a, rest.
  - apply giver_other; [apply Hi|]. by rewrite Hx.
  - intros k r Hk <-. pose proof (lk_waits _ _ _ _ _ Hl k r Hk) as Hw. rewrite E in Hw.
    destruct Hw as [?|[?|(Hb & _ & [[= Hp]|?])]]; try done. right; right. split; [done|]. split; [done|]. right. congruence.
Qed.

Lemma clr_enter_ok i l :
  threads s i = ClrEnter l → lock_info_mutex s = None →
  inv_holds (goto i (ClrLocked l) (set_mutex (Some i) s)).
Proof.
  intros E Hm. pose proof (li_threads _ _ _ _ Hi i l) as H. rewrite E in H. destruct (H eq_refl) as (p & Hx).
  apply (moved_same i l _ _ _ own q x Hi).
  - apply moves_between; [rewrite E; cbn; congruence|cbn; congruence].
  - by apply mutex_take; [exact mutex_inv|..].
  - intros _. by exists p.
  - rewrite Hx. right. apply fn_lookup_insert.
  - intros k r Hk Hr. by destruct (not_queued _ _ _ _ _ i (li_locks _ _ _ _ Hi l) ltac:(by rewrite E) k r Hk).
Qed.

Lemma clr_unlock_ok i l a :
  threads s i = ClrUnlock l a → inv_holds (goto i (ClrWait l a) (set_mutex None s)).
Proof.
  intros E. pose proof (li_threads _ _ _ _ Hi i l) as H. rewrite E in H. destruct (H eq_refl) as (p & Hx).
  pose proof (lk_giver _ _ _ _ _ (li_locks _ _ _ _ Hi l)) as Hg.
  apply (moved_same i l _ _ _ own q x Hi).
  - apply moves_between; [rewrite E; cbn; congruence|cbn; congruence].
  - apply mutex_give; [exact mutex_inv|by rewrite E|done].
  - intros _. by exists p.
  - destruct Hx as [Hx|[Hx|Hx]]; rewrite Hx in Hg |- *; cbn in Hg |- *; (split; [apply Hg|]).
    + right. apply fn_lookup_insert.
    + right. apply fn_lookup_insert.
    + right; left. apply fn_lookup_insert.
  - intros k r Hk Hr. by destruct (not_queued _ _ _ _ _ i (li_locks _ _ _ _ Hi l) ltac:(by rewrite E) k r Hk).
Qed.

Lemma clr_wait_ok i l a t :
  threads s i = ClrWait l a → tasks s !! a = Some t → state t = Returned → inv_holds (goto i (ClrLive l) s).
Proof.
  intros E Ht Hs. pose proof (li_threads _ _ _ _ Hi i l) as H. rewrite E in H. destruct (H eq_refl) as (p & Hx).
  pose proof (lk_giver _ _ _ _ _ (li_locks _ _ _ _ Hi l)) as Hg.
  assert (x l = GCleared p i a) as Hc.
  { destruct Hx as [Hx|[Hx|Hx]]; [| |done]; rewrite Hx in Hg; destruct Hg as [Hg _]; rewrite Ht in Hg;
      injection Hg as ->; done. }
  rewrite goto_mutex. apply (moved_same i l _ _ _ own q x Hi).
  - apply moves_between; [rewrite E; cbn; congruence|cbn; congruence].
  - eapply mutex_move; [exact mutex_inv|done..|by rewrite E].
  - intros _. by exists p, a.
  - rewrite Hc in Hg |- *. split; [apply Hg|]. right; right. apply fn_lookup_insert.
  - intros k r Hk Hr. by destruct (not_queued _ _ _ _ _ i (li_locks _ _ _ _ Hi l) ltac:(by rewrite E) k r Hk).
Qed.

(** *** Steps that give the lock on *)

Lemma known_context l : q l ≠ [] ∨ x l ≠ GIdle → lock_info s !! l = Some (context l s).
Proof.
  intros H. unfold context. destruct (lock_info s !! l) eqn:E; [done|].
  destruct (lk_known _ _ _ _ _ (li_locks _ _ _ _ Hi l) E) as [? ?]. by destruct H.
Qed.

Lemma thread_other q0 x0 x' i j pc :
  thread_ok q0 x0 j pc → j ≠ i → giver x0 = None ∨ giver x0 = Some i → first_state x0 = Spawned →
  thread_ok q0 x' j pc.
Proof.
  intros Ht Hj Hg Hf. destruct pc; cbn in *; try done.
  - destruct Ht as [-> _]. done.
  - destruct Ht as [-> _]. done.
  - destruct Ht as [p ->]. destruct Hg; cbn in *; congruence.
  - destruct Ht as [p ->]. destruct Hg; cbn in *; congruence.
  - destruct Ht as [p [->|[->| ->]]]; destruct Hg; cbn in *; congruence.
  - destruct Ht as [p [->|[->| ->]]]; destruct Hg; cbn in *; congruence.
  - destruct Ht as (p & a & ->). destruct Hg; cbn in *; congruence.
  - subst x0. destruct Hg; cbn in *; congruence.
  - subst x0. destruct Hg; cbn in *; congruence.
Qed.

(** A thread that goes on with another stage of its lock: the queue stays as it is. *)
Lemma moved_stage i l pc s' x' :
  moved i l pc s s' → lock_info_mutex s' = lock_info_mutex s → has_mutex pc = has_mutex (threads s i) →
  queued (threads s i) = false →
  last_lock (context l s') = last_lock (context l s) → live (context l s') = live_of x' →
  is_Some (lock_info s' !! l) →
  lock_at l s' = Some (phase_of x', thread_of <$> q l) →
  current x' = current (x l) → first_state (x l) = Spawned → first_state x' = Spawned →
  giver_ok s' l x' →
  (lock_at_pc pc = Some l → thread_ok (q l) x' i pc) →
  (giver (x l) = None ∨ giver (x l) = Some i) →
  (∀ a t, tasks s !! a = Some t → state t ≠ Returned → fp t = shmem_clear_lock_impl → lock_of t = l →
     ∃ p j, x' = GClear p j a ∨ x' = GClearing p j a) →
  inv_holds s'.
Proof.
  intros Hm Hmu Hpc Hq Hlast Hlive [y Hy] Hat Hcur Hf Hf' Hg Ht Hgi Hta.
  pose proof (li_locks _ _ _ _ Hi l) as Hl.
  exists own, (<[l := q l]> q), (<[l := x']> x). eapply moved_inv; [exact Hi|exact Hm|..].
  - eapply mutex_move; [exact mutex_inv|apply Hm|done|done].
  - split; try done.
    + eapply (chain_stage s); [apply Hl|done|apply Hm|apply Hm|done|right; congruence].
    + by rewrite Hy.
    + intros k r Hk. rewrite (mv_threads _ _ _ _ _ Hm).
      rewrite fn_lookup_insert_ne by (intros E; by apply (not_queued _ _ _ _ _ i Hl Hq k r Hk)).
      destruct (lk_waits _ _ _ _ _ Hl k r Hk) as [H|[H|(_ & E & _)]]; [by left|by right; left|].
      rewrite E in Hf. done.
    + intros [->| ->]; done.
    + intros a t Ha Hlo Hs. rewrite (mv_tasks _ _ _ _ _ Hm) in Ha.
      pose proof (lk_tasks _ _ _ _ _ Hl a t Ha Hlo Hs) as H. unfold in_progress in *.
      destruct (fp t) eqn:E; [done|]. by eapply Hta.
  - done.
  - intros j Hj _ Hjt. by eapply thread_other.
Qed.

Lemma clear_task_of a t :
  tasks s !! a = Some t → state t ≠ Returned → fp t = shmem_clear_lock_impl →
  ∃ p i, x (lock_of t) = GClear p i a ∨ x (lock_of t) = GClearing p i a.
Proof.
  intros Ha Hs Hf. pose proof (lk_tasks _ _ _ _ _ (li_locks _ _ _ _ Hi (lock_of t)) a t Ha eq_refl Hs) as H.
  unfold in_progress in H. by rewrite Hf in H.
Qed.

Lemma call_clear_ok i l :
  threads s i = LIdle → is_held l s = true → inv_holds (goto i (ClrEnter l) (logged l Release s)).
Proof.
  intros E Hh. pose proof (li_locks _ _ _ _ Hi l) as Hl. unfold is_held in Hh. rewrite (lk_at _ _ _ _ _ Hl) in Hh.
  assert (∃ p j, x l = GOwned p j) as (p & j & Hx) by (destruct (x l) as [| | |p j| | | | | |]; try done; eauto).
  apply (moved_stage i l (ClrEnter l) _ (GAsked p i)); rewrite ?Hx; try done.
  - split; try done; [|by rewrite E|cbn; congruence]. intros l' Hne. by apply (lock_at_other l l' Release s).
  - by rewrite E.
  - by rewrite E.
  - pose proof (lk_live _ _ _ _ _ Hl) as H. by rewrite Hx in H.
  - exists (context l s). apply (known_context l). right. by rewrite Hx.
  - change (lock_at l (logged l Release s) = Some (Released, thread_of <$> q l)).
    rewrite lock_at_logged, (lk_at _ _ _ _ _ Hl), Hx. done.
  - left. apply fn_lookup_insert.
  - by exists p.
  - by left.
  - intros a t Ha Hs Hf Hlo. destruct (clear_task_of a t Ha Hs Hf) as (p' & j' & [H|H]); rewrite Hlo in H; congruence.
Qed.

Lemma clr_live_ok i l :
  threads s i = ClrLive l →
  ∃ ctx, lock_info s !! l = Some ctx ∧ live ctx ≠ NULL ∧ inv_holds (goto i (ClrNull l (live ctx)) s).
Proof.
  intros E. pose proof (li_threads _ _ _ _ Hi i l) as H. rewrite E in H. destruct (H eq_refl) as (p & a & Hx).
  pose proof (li_locks _ _ _ _ Hi l) as Hl. exists (context l s).
  assert (live (context l s) = p) as Hp by (rewrite (lk_live _ _ _ _ _ Hl), Hx; done).
  split; [apply known_context; right; by rewrite Hx|]. rewrite Hp. split.
  - destruct (lk_chain _ _ _ _ _ Hl) as (prev & _ & Hb & _). rewrite Hx in Hb.
    destruct Hb as (_ & Hb & _). apply (li_promises _ _ _ _ Hi) in Hb. unfold NULL. lia.
  - apply (moved_stage i l (ClrNull l p) _ (GNull p i)); rewrite ?Hx; try done.
    + split; try done; [rewrite E|]; cbn; congruence.
    + by rewrite E.
    + by rewrite E.
    + exists (context l s). apply known_context. right. by rewrite Hx.
    + change (lock_at l s = Some (Free, thread_of <$> q l)). by rewrite (lk_at _ _ _ _ _ Hl), Hx.
    + apply fn_lookup_insert.
    + by right.
    + intros b t Ha Hs Hf Hlo. destruct (clear_task_of b t Ha Hs Hf) as (p' & j' & [H'|H']); rewrite Hlo in H'; congruence.
Qed.

Lemma clr_null_ok i l p :
  threads s i = ClrNull l p →
  ∃ ctx, lock_info s !! l = Some ctx ∧
    inv_holds (goto i (ClrPut l p) (set_context l (mkLock (last_lock ctx) NULL) s)).
Proof.
  intros E. pose proof (li_threads _ _ _ _ Hi i l) as H. rewrite E in H. pose proof (H eq_refl) as Hx. cbn in Hx.
  pose proof (li_locks _ _ _ _ Hi l) as Hl. exists (context l s).
  split; [apply known_context; right; by rewrite Hx|].
  apply (moved_stage i l (ClrPut l p) _ (GPut p i)); rewrite ?Hx; try done.
  - split; try done; [|rewrite E|]; [|cbn; congruence..]. intros l' Hne. cbn. by rewrite lookup_insert_ne.
  - by rewrite E.
  - by rewrite E.
  - unfold context at 1. cbn. by rewrite lookup_insert_eq.
  - unfold context at 1. cbn. by rewrite lookup_insert_eq.
  - cbn. rewrite lookup_insert_eq. done.
  - change (lock_at l s = Some (Free, thread_of <$> q l)). by rewrite (lk_at _ _ _ _ _ Hl), Hx.
  - apply fn_lookup_insert.
  - by right.
  - intros b t Ha Hs Hf Hlo. destruct (clear_task_of b t Ha Hs Hf) as (p' & j' & [H'|H']); rewrite Hlo in H'; congruence.
Qed.

Lemma clr_put_ok i l p :
  threads s i = ClrPut l p → promises s !! p = Some false ∧ inv_holds (goto i LIdle (set_promise p true s)).
Proof.
  intros E. pose proof (li_threads _ _ _ _ Hi i l) as H. rewrite E in H. pose proof (H eq_refl) as Hx. cbn in Hx.
  pose proof (li_locks _ _ _ _ Hi l) as Hl. destruct (lk_chain _ _ _ _ _ Hl) as (prev & Hlast & Hb & Hn & Hc).
  rewrite Hx in Hb, Hc. destruct Hb as (-> & Hp & Ho). split; [done|].
  exists own, (<[l := q l]> q), (<[l := GIdle]> x). eapply locks_change; [exact Hi|..].
  - split; try done.
    + intros p' b Hp' Hne. cbn. by rewrite lookup_insert_ne by congruence.
    + intros j l' Hne. cbn. destruct (decide (j = i)) as [->|]; [|by rewrite fn_lookup_insert_ne].
      rewrite fn_lookup_insert, E. cbn. intros [?|?]; congruence.
  - split; try done.
    + change (lock_at l s = Some (Free, thread_of <$> q l)). by rewrite (lk_at _ _ _ _ _ Hl), Hx.
    + exists p. split; [done|]. split; [right; split; [apply lookup_insert_eq|done]|]. split; [done|].
      eapply chained_mono; [exact Hc|]. intros r Hr. split; [done|]. split; [|done].
      apply lookup_insert_ne. intros Heq. apply NoDup_cons_1_1 in Hn. apply Hn. rewrite Heq. by apply list_elem_of_fmap_2.
    + change (live (context l s) = NULL). by rewrite (lk_live _ _ _ _ _ Hl), Hx.
    + intros Hk. by apply (lk_known _ _ _ _ _ Hl) in Hk as [-> _].
    + intros k r Hk. cbn. rewrite fn_lookup_insert_ne.
      * destruct (lk_waits _ _ _ _ _ Hl k r Hk) as [Hw|[Hw|(_ & Hw & _)]]; [by left|by right; left|congruence].
      * intros ->. by destruct (not_queued _ _ _ _ _ (thread_of r) Hl ltac:(by rewrite E) k r Hk).
    + by intros [?|?].
    + intros a t Ha Hlo Hs. pose proof (lk_tasks _ _ _ _ _ Hl a t Ha Hlo Hs) as Hin. unfold in_progress in *.
      destruct (fp t); [done|]. destruct Hin as (? & ? & [?|?]); congruence.
  - intros j. cbn. destruct (decide (j = i)) as [->|Hne]; [by rewrite fn_lookup_insert|].
    rewrite fn_lookup_insert_ne by done. intros Hj. eapply thread_other; [by apply Hi|exact Hne|rewrite Hx; by right|by rewrite Hx].
  - eapply mutex_move; [exact mutex_inv|done..|by rewrite E].
  - intros p' b. cbn. intros [[<- <-]|[Hne Hp']]%lookup_insert_Some; by eapply (li_promises _ _ _ _ Hi).
  - apply Hi.
  - apply Hi.
Qed.

Lemma set_live_ok i l p :
  threads s i = SetLive l p →
  ∃ ctx, lock_info s !! l = Some ctx ∧
    inv_holds (goto i LIdle (logged l (Grant i) (set_context l (mkLock (last_lock ctx) p) s))).
Proof.
  intros E. pose proof (li_threads _ _ _ _ Hi i l) as H. rewrite E in H. destruct (H eq_refl) as (Hx & a & rest & Hq).
  pose proof (li_locks _ _ _ _ Hi l) as Hl. exists (context l s).
  split; [apply known_context; left; by rewrite Hq|].
  destruct (lk_chain _ _ _ _ _ Hl) as (prev & Hlast & Hb & Hn & Hc). rewrite Hq in Hlast, Hn, Hc.
  cbn in Hc. destruct Hc as (Ht & Hp & Ho & Hc).
  exists own, (<[l := rest]> q), (<[l := GOwned p i]> x).
  assert (∀ k r, rest !! k = Some r → thread_of r ≠ i) as Hne.
  { intros k r Hk <-. assert (q l !! S k = Some r) as Hk' by by rewrite Hq.
    pose proof (lk_waits _ _ _ _ _ Hl _ r Hk') as Hw. rewrite E in Hw. by destruct Hw as [?|[?|(? & _)]]. }
  eapply moved_inv; [exact Hi|..].
  - split; try done; [| |rewrite E; cbn; congruence].
    + intros l' Hl'. cbn. by rewrite lookup_insert_ne.
    + intros l' Hl'. by apply (lock_at_other l l' (Grant i) s).
  - eapply mutex_move; [exact mutex_inv|done..|by rewrite E].
  - split.
    + change (lock_at l (logged l (Grant i) s) = Some (Held i, thread_of <$> rest)).
      rewrite lock_at_logged, (lk_at _ _ _ _ _ Hl), Hx, Hq. cbn. by rewrite decide_True.
    + exists p. unfold context at 1. cbn. rewrite lookup_insert_eq. cbn. rewrite Hlast, chain_end_cons.
      split; [done|]. split; [done|]. split; [by apply NoDup_cons_1_2 in Hn|by eapply chained_mono].
    + unfold context. cbn. by rewrite lookup_insert_eq.
    + cbn. by rewrite lookup_insert_eq.
    + done.
    + intros k r Hk. cbn. rewrite fn_lookup_insert_ne by (intros Heq; by eapply Hne).
      assert (q l !! S k = Some r) as Hk' by by rewrite Hq.
      destruct (lk_waits _ _ _ _ _ Hl _ r Hk') as [Hw|[Hw|(? & _)]]; [by left|by right; left|done].
    + by intros [?|?].
    + intros b t Hb' Hlo Hs. pose proof (lk_tasks _ _ _ _ _ Hl b t Hb' Hlo Hs) as Hin. unfold in_progress in *.
      destruct (fp t); [|destruct Hin as (? & ? & [?|?]); congruence].
      destruct Hin as (r & Hr & <-). exists r. split; [|done]. rewrite Hq in Hr. apply elem_of_cons in Hr as [->|]; [|done].
      cbn in Hb'. rewrite Hx in Ht. cbn in Ht. rewrite Ht in Hb'. injection Hb' as <-. done.
  - done.
  - intros j Hj Hjl Hjt. rewrite Hx, Hq in Hjt. destruct (threads s j); cbn in *; try done.
    1,2: apply elem_of_cons in Hjt as [[= _ _ ?]|]; done.
    1,2: destruct Hjt as (_ & a' & r' & [= _ _ ? _]); congruence.
    all: naive_solver.
Qed.

(** *** Steps that spawn a task *)

Lemma fresh_task a t : tasks s !! a = Some t → a ≠ brk s ∧ a ≠ brk s + 1.
Proof. intros H%(li_tasks _ _ _ _ Hi). lia. Qed.

Lemma fresh_promise p b : promises s !! p = Some b → p ≠ brk s.
Proof. intros H%(li_promises _ _ _ _ Hi). lia. Qed.

Lemma clr_locked_ok i l :
  threads s i = ClrLocked l →
  is_Some (lock_info s !! l) ∧
  inv_holds (goto i (ClrUnlock l (brk s)) (spawn shmem_clear_lock_impl l NULL s).2).
Proof.
  intros E. pose proof (li_threads _ _ _ _ Hi i l) as H. rewrite E in H. destruct (H eq_refl) as (p & Hx).
  pose proof (li_locks _ _ _ _ Hi l) as Hl.
  assert (lock_info s !! l = Some (context l s)) as Hk by (apply known_context; right; by rewrite Hx).
  split; [by rewrite Hk|]. destruct (lk_chain _ _ _ _ _ Hl) as (prev & Hlast & Hb & Hn & Hc).
  pose proof (li_brk _ _ _ _ Hi) as Hbrk.
  exists own, (<[l := q l]> q), (<[l := GClear p i (brk s)]> x). eapply locks_change; [exact Hi|..].
  - split; try done.
    + intros a t Hlo. cbn. rewrite lookup_insert_Some. split; [intros [[<- <-]|[_ ?]]; done|].
      intros Ha. right. split; [|done]. apply fresh_task in Ha. lia.
    + intros j l' Hne. cbn. destruct (decide (j = i)) as [->|]; [|by rewrite fn_lookup_insert_ne].
      rewrite fn_lookup_insert, E. cbn. intros [?|?]; congruence.
  - rewrite Hx in Hb, Hc. split; cbn; rewrite ?lookup_insert_eq.
    + change (lock_at l s = Some (Released, thread_of <$> q l)). by rewrite (lk_at _ _ _ _ _ Hl), Hx.
    + exists prev. split; [done|]. split; [done|]. split; [done|].
      eapply chained_mono; [exact Hc|]. intros r Hr. split; [|done].
      destruct (chained_elem _ _ _ _ _ _ _ Hc Hr) as (_ & _ & d & y & Hd & _).
      apply lookup_insert_ne. apply fresh_task in Hd. lia.
    + change (live (context l s) = p). by rewrite (lk_live _ _ _ _ _ Hl), Hx.
    + by rewrite Hk.
    + split; [done|]. left. apply fn_lookup_insert.
    + intros k r Hr. rewrite fn_lookup_insert_ne.
      * destruct (lk_waits _ _ _ _ _ Hl k r Hr) as [Hw|[Hw|(_ & Hw & _)]]; [by left|by right; left|congruence].
      * intros ->. by destruct (not_queued _ _ _ _ _ (thread_of r) Hl ltac:(by rewrite E) k r Hr).
    + by intros [?|?].
    + intros a t [[<- <-]|[Hne Ha]]%lookup_insert_Some Hlo Hs; [by exists p, i; left|].
      pose proof (lk_tasks _ _ _ _ _ Hl a t Ha Hlo Hs) as Hin. unfold in_progress in *.
      destruct (fp t); [done|]. destruct Hin as (? & ? & [?|?]); congruence.
  - intros j. cbn. destruct (decide (j = i)) as [->|Hne]; [rewrite fn_lookup_insert; by exists p; left|].
    rewrite fn_lookup_insert_ne by done. intros Hj. eapply thread_other; [by apply Hi|exact Hne|rewrite Hx; by right|by rewrite Hx].
  - eapply mutex_move; [exact mutex_inv|done..|by rewrite E].
  - cbn. intros p' b Hp'%(li_promises _ _ _ _ Hi). lia.
  - cbn. intros a t [[<- _]|[_ Ha%(li_tasks _ _ _ _ Hi)]]%lookup_insert_Some; lia.
  - cbn. lia.
Qed.

Lemma set_locked_ok i l : threads s i = SetLocked l → inv_holds (set_locked i l s).
Proof.
  intros E. pose proof (li_locks _ _ _ _ Hi l) as Hl. pose proof (li_brk _ _ _ _ Hi) as Hbrk.
  destruct (lk_chain _ _ _ _ _ Hl) as (prev & Hlast & Hb & Hn & Hc).
  assert (Hprev : prev ≠ brk s).
  { unfold before in Hb. destruct (current (x l)); [by destruct Hb as (-> & ?%fresh_promise & _)|].
    destruct Hb as [->|[?%fresh_promise _]]; [unfold NULL; lia|done]. }
  assert (∀ r, r ∈ q l → promise_of r ≠ brk s ∧ task_of r ≠ brk s + 1) as Hold.
  { intros r Hr. destruct (chained_elem _ _ _ _ _ _ _ Hc Hr) as (Hp & _ & d & y & Hd & _).
    split; [by eapply fresh_promise|by apply (fresh_task _ _ Hd)]. }
  exists (<[brk s := l]> own), (<[l := q l ++ [mkReq (brk s) (brk s + 1) i]]> q), (<[l := x l]> x).
  unfold set_locked. cbn. fold (context l s).
  eapply locks_change; [exact Hi|..].
  - split; cbn.
    + intros l' Hne. by rewrite lookup_insert_ne.
    + intros l' Hne. by apply (lock_at_other l l' (Ask i) s).
    + intros p b Hp _. apply fresh_promise in Hp as Hf. by rewrite lookup_insert_ne, fn_lookup_insert_ne by done.
    + intros a t Hlo. rewrite lookup_insert_Some. split; [intros [[<- <-]|[_ ?]]; done|].
      intros Ha. right. split; [|done]. apply fresh_task in Ha. lia.
    + intros j l' Hne. destruct (decide (j = i)) as [->|]; [|by rewrite fn_lookup_insert_ne].
      rewrite fn_lookup_insert, E. cbn. intros [?|?]; congruence.
  - split; cbn.
    + change (lock_at l (logged l (Ask i) s) = Some (phase_of (x l), thread_of <$> q l ++ [mkReq (brk s) (brk s + 1) i])).
      rewrite lock_at_logged, (lk_at _ _ _ _ _ Hl), fmap_app. by destruct (phase_of (x l)).
    + exists prev. unfold context. cbn. rewrite lookup_insert_eq, chain_end_snoc. split; [done|]. split; [|split].
      * unfold before in Hb |- *. cbn. destruct (current (x l)).
        -- destruct Hb as (-> & Hp & Ho). by rewrite lookup_insert_ne, fn_lookup_insert_ne by done.
        -- rewrite lookup_insert_ne, fn_lookup_insert_ne by done. done.
      * rewrite fmap_app. cbn. apply (NoDup_app (prev :: (promise_of <$> q l)) [brk s]).
        split; [done|]. split; [|apply NoDup_singleton].
        intros p [->|(r & -> & Hr)%list_elem_of_fmap]%elem_of_cons Hp%list_elem_of_singleton; [done|].
        by apply Hold in Hr as [? _].
      * apply chained_snoc; cbn.
        -- eapply chained_mono; [exact Hc|]. intros r Hr. apply Hold in Hr as [Hp Ht].
           cbn. by rewrite !lookup_insert_ne, fn_lookup_insert_ne by done.
        -- rewrite lookup_insert_eq. fold (context l s). rewrite Hlast. destruct (q l) eqn:Eq; [|done].
           destruct (x l) eqn:Ex; try done; by destruct (lk_first _ _ _ _ _ Hl); rewrite ?Ex; auto.
        -- apply lookup_insert_eq.
        -- apply fn_lookup_insert.
    + unfold context at 1. cbn. rewrite lookup_insert_eq. apply (lk_live _ _ _ _ _ Hl).
    + by rewrite lookup_insert_eq.
    + pose proof (lk_giver _ _ _ _ _ Hl) as Hg. pose proof (not_giver _ _ _ i Hg ltac:(by rewrite E)) as Hne.
      assert (∀ a t, tasks s !! a = Some t →
        <[brk s + 1 := mkTask shmem_set_lock_impl l (last_lock (context l s)) Spawned]> (tasks s) !! a = Some t) as Hta.
      { intros a t Ha. rewrite lookup_insert_ne; [done|]. apply fresh_task in Ha. lia. }
      destruct (x l); cbn in *; try done; rewrite fn_lookup_insert_ne by congruence; try done.
      all: destruct Hg as [? ?]; auto.
    + intros k r [Hk|[Hk Hr]]%lookup_app_Some.
      * rewrite fn_lookup_insert_ne; [by apply Hl|].
        intros ->. by destruct (not_queued _ _ _ _ _ (thread_of r) Hl ltac:(by rewrite E) k r Hk).
      * apply list_lookup_singleton_Some in Hr as [_ <-]. cbn. rewrite fn_lookup_insert. by left.
    + intros _ [? ?]%app_nil. done.
    + intros a t [[<- <-]|[Hne Ha]]%lookup_insert_Some Hlo Hs.
      * eexists. split; [apply elem_of_app; right; by apply list_elem_of_singleton|done].
      * pose proof (lk_tasks _ _ _ _ _ Hl a t Ha Hlo Hs) as Hin. unfold in_progress in *.
        destruct (fp t); [|done]. destruct Hin as (r & Hr & Hra). exists r. split; [|done]. apply elem_of_app. by left.
  - intros j. cbn. destruct (decide (j = i)) as [->|Hne].
    { rewrite fn_lookup_insert. intros _. apply elem_of_app. right. by apply list_elem_of_singleton. }
    rewrite fn_lookup_insert_ne by done. intros Hj%(li_threads _ _ _ _ Hi).
    destruct (threads s j); cbn in *; try done.
    1,2: apply elem_of_app; by left.
    1,2: destruct Hj as (? & a & rest & ->); split; [done|]; by eexists _, _.
  - eapply mutex_move; [exact mutex_inv|done..|by rewrite E].
  - cbn. intros p' b [[<- _]|[_ Hp'%(li_promises _ _ _ _ Hi)]]%lookup_insert_Some; lia.
  - cbn. intros a t [[<- _]|[_ Ha%(li_tasks _ _ _ _ Hi)]]%lookup_insert_Some; lia.
  - cbn. lia.
Qed.

(** *** Steps of a task *)

(** The stage of a lock changes as its task goes on. *)
Lemma task_stage a l f d y y' e x' :
  tasks s !! a = Some (mkTask f l d y) → x l ≠ GGot →
  fifo_step (phase_of (x l), thread_of <$> q l) e = Some (phase_of x', thread_of <$> q l) →
  current x' = current (x l) → live_of x' = live_of (x l) → x l ≠ GIdle ∨ q l ≠ [] →
  (∀ prev, NoDup (prev :: (promise_of <$> q l)) → chained s own l prev (first_state (x l)) (q l) →
     chained (set_task a (mkTask f l d y') s) own l prev (first_state x') (q l)) →
  giver_ok (set_task a (mkTask f l d y') s) l x' →
  (∀ i pc, thread_ok (q l) (x l) i pc → thread_ok (q l) x' i pc) →
  (x' = GSetting ∨ x' = GGot → q l ≠ []) →
  (∀ b t, tasks (set_task a (mkTask f l d y') s) !! b = Some t → lock_of t = l → state t ≠ Returned →
     in_progress (q l) x' b t) →
  inv_holds (logged l e (set_task a (mkTask f l d y') s)).
Proof.
  intros Ha Hgot He Hcur Hlive Hknown Hc Hg Ht Hf Hta. pose proof (li_locks _ _ _ _ Hi l) as Hl.
  exists own, (<[l := q l]> q), (<[l := x']> x). eapply locks_change; [exact Hi|..].
  - split; try done.
    + intros l' Hne. by apply (lock_at_other l l' e s).
    + intros b t Hlo. cbn. rewrite lookup_insert_Some. split; [intros [[<- <-]|[_ ?]]; done|].
      intros Hb. right. split; [|done]. intros <-. rewrite Ha in Hb. by injection Hb as <-.
  - split; try done.
    + change (lock_at l (logged l e s) = Some (phase_of x', thread_of <$> q l)).
      by rewrite lock_at_logged, (lk_at _ _ _ _ _ Hl).
    + destruct (lk_chain _ _ _ _ _ Hl) as (prev & Hlast & Hb & Hn & Hch). exists prev. split; [done|].
      split; [unfold before in *; by rewrite Hcur|]. split; [done|].
      eapply (chained_mono (set_task a (mkTask f l d y') s)); [by apply Hc|done].
    + change (live (context l s) = live_of x'). by rewrite Hlive, (lk_live _ _ _ _ _ Hl).
    + intros [E1 E2]%(lk_known _ _ _ _ _ Hl). by destruct Hknown.
    + intros k r Hk. destruct (lk_waits _ _ _ _ _ Hl k r Hk) as [H|[H|(_ & H & _)]]; [by left|by right; left|done].
  - intros j Hj. apply Ht. by apply Hi.
  - exact mutex_inv.
  - apply Hi.
  - cbn. intros b t [[<- _]|[_ Hb]]%lookup_insert_Some; by eapply (li_tasks _ _ _ _ Hi).
  - apply Hi.
Qed.

(** The first request of a queue is the one whose task can start, or has. *)
Lemma set_task_first a l d y :
  tasks s !! a = Some (mkTask shmem_set_lock_impl l d y) → y ≠ Returned →
  (y = Spawned → d = NULL ∨ promises s !! d = Some true) →
  ∃ r rest, q l = r :: rest ∧ task_of r = a ∧
    (y = Spawned ∧ x l = GIdle ∨ y = Calling ∧ x l = GSetting).
Proof.
  intros Ha Hy Hd. pose proof (li_locks _ _ _ _ Hi l) as Hl.
  destruct (lk_tasks _ _ _ _ _ Hl a _ Ha eq_refl Hy) as (r & Hr & Hra).
  destruct (lk_chain _ _ _ _ _ Hl) as (prev & _ & Hb & Hn & Hc).
  destruct (chained_elem _ _ _ _ _ _ _ Hc Hr) as (_ & _ & d' & y' & Ht & H).
  rewrite Hra, Ha in Ht. injection Ht as <- <-.
  destruct H as [(rest & Hq & -> & ->)|[(r' & -> & Hr')%list_elem_of_fmap ->]].
  - exists r, rest. split; [done|]. split; [done|]. destruct (x l) eqn:Ex; cbn in *; try tauto.
    all: destruct Hb as (-> & Hp & _); destruct Hd as [Hd|Hd]; [done| |congruence].
    all: apply (li_promises _ _ _ _ Hi) in Hp; unfold NULL in Hd; lia.
  - destruct (chained_elem _ _ _ _ _ _ _ Hc Hr') as (Hp & _).
    destruct Hd as [Hd|Hd]; [done| |congruence]. apply (li_promises _ _ _ _ Hi) in Hp. unfold NULL in Hd. lia.
Qed.

Lemma chained_first l r rest prev d y y' z :
  NoDup (prev :: (promise_of <$> r :: rest)) → chained s own l prev z (r :: rest) →
  tasks s !! task_of r = Some (mkTask shmem_set_lock_impl l d y) →
  chained (set_task (task_of r) (mkTask shmem_set_lock_impl l d y') s) own l prev y' (r :: rest).
Proof.
  intros Hn (Ht & Hp & Ho & Hc) Ha. rewrite Ht in Ha. injection Ha as <- <-.
  split; [apply lookup_insert_eq|]. split; [done|]. split; [done|].
  eapply chained_mono; [exact Hc|]. intros r' Hr'. split; [|done]. apply lookup_insert_ne. intros E.
  destruct (chained_elem _ _ _ _ _ _ _ Hc Hr') as (_ & _ & d' & y0 & Hd & H). rewrite <-E, Ht in Hd.
  injection Hd as <- <-. apply NoDup_cons_1_1 in Hn. apply Hn. cbn.
  destruct H as [(? & _ & -> & _)|[? _]]; [left|by right].
Qed.

Lemma chained_clear l a prev z d y y' q0 :
  chained s own l prev z q0 → tasks s !! a = Some (mkTask shmem_clear_lock_impl l d y) →
  chained (set_task a (mkTask shmem_clear_lock_impl l d y') s) own l prev z q0.
Proof.
  intros Hc Ha. eapply chained_mono; [exact Hc|]. intros r Hr. split; [|done]. apply lookup_insert_ne. intros ->.
  destruct (chained_elem _ _ _ _ _ _ _ Hc Hr) as (_ & _ & d' & y0 & Hd & _). congruence.
Qed.

(** The other tasks of the lock. *)
Lemma others_in_progress l a f d y y' x' :
  tasks s !! a = Some (mkTask f l d y) →
  (state (mkTask f l d y') ≠ Returned → in_progress (q l) x' a (mkTask f l d y')) →
  (∀ b p i, a ≠ b → x l = GClear p i b ∨ x l = GClearing p i b → ∃ p i, x' = GClear p i b ∨ x' = GClearing p i b) →
  ∀ b t, tasks (set_task a (mkTask f l d y') s) !! b = Some t → lock_of t = l → state t ≠ Returned →
    in_progress (q l) x' b t.
Proof.
  intros Ha Hp Hx b t H Hlo Hs. cbn in H. apply lookup_insert_Some in H as [[<- <-]|[Hne Hb]]; [by apply Hp|].
  pose proof (lk_tasks _ _ _ _ _ (li_locks _ _ _ _ Hi l) b t Hb Hlo Hs) as H. unfold in_progress in *.
  destruct (fp t); [done|]. destruct H as (p & i & H). by eapply Hx.
Qed.

Lemma set_task_ok a l d y y' e :
  tasks s !! a = Some (mkTask shmem_set_lock_impl l d y) →
  (y = Spawned ∧ y' = Calling ∧ e = LibSet ∧ (d = NULL ∨ promises s !! d = Some true)) ∨
  (y = Calling ∧ y' = Returned ∧ e = LibSetReturn) →
  inv_holds (logged l e (set_task a (mkTask shmem_set_lock_impl l d y') s)).
Proof.
  intros Ha H. destruct (set_task_first a l d y Ha) as (r & rest & Hq & <- & Hx).
  { by destruct H as [(-> & _)|(-> & _)]. }
  { intros ->. by destruct H as [(_ & _ & _ & ?)|(? & _)]. }
  set (x' := match y with Spawned => GSetting | _ => GGot end).
  assert (Hs : (x l = GIdle ∧ x' = GSetting ∧ y = Spawned ∧ y' = Calling ∧ e = LibSet) ∨
    (x l = GSetting ∧ x' = GGot ∧ y = Calling ∧ y' = Returned ∧ e = LibSetReturn)).
  { unfold x'. destruct H as [(-> & -> & -> & _)|(-> & -> & ->)], Hx as [[? ?]|[? ?]]; try done; auto 10. }
  clear H Hx. apply (task_stage _ l _ d y y' e x' Ha).
  - destruct Hs as [(-> & _)|(-> & _)]; done.
  - rewrite Hq. by destruct Hs as [(-> & -> & -> & -> & ->)|(-> & -> & -> & -> & ->)].
  - by destruct Hs as [(-> & -> & _)|(-> & -> & _)].
  - by destruct Hs as [(-> & -> & _)|(-> & -> & _)].
  - right. by rewrite Hq.
  - intros prev Hn Hc. rewrite Hq in Hn, Hc |- *.
    assert (first_state x' = y') as -> by by destruct Hs as [(_ & -> & _ & -> & _)|(_ & -> & _ & -> & _)].
    by eapply chained_first.
  - by destruct Hs as [(_ & -> & _)|(_ & -> & _)].
  - intros i pc Hpc. destruct Hs as [(E & _)|(E & _)]; rewrite E in Hpc; destruct pc; cbn in *; naive_solver.
  - by rewrite Hq.
  - apply (others_in_progress l _ _ d y); [done| |].
    + intros _. exists r. rewrite Hq. split; [left|done].
    + intros b p i _ Hb. destruct Hs as [(E & _)|(E & _)]; rewrite E in Hb; by destruct Hb.
Qed.

Lemma clear_task_ok a l d y y' e :
  tasks s !! a = Some (mkTask shmem_clear_lock_impl l d y) →
  (y = Spawned ∧ y' = Calling ∧ e = LibClear) ∨ (y = Calling ∧ y' = Returned ∧ e = LibClearReturn) →
  inv_holds (logged l e (set_task a (mkTask shmem_clear_lock_impl l d y') s)).
Proof.
  intros Ha H. destruct (clear_task_of a _ Ha) as (p & i & Hx); [by destruct H as [(-> & _)|(-> & _)]|done|].
  cbn in Hx. pose proof (lk_giver _ _ _ _ _ (li_locks _ _ _ _ Hi l)) as Hg.
  set (x' := match y with Spawned => GClearing p i a | _ => GCleared p i a end).
  assert (Hs : (x l = GClear p i a ∧ x' = GClearing p i a ∧ y = Spawned ∧ y' = Calling ∧ e = LibClear ∧ d = NULL) ∨
    (x l = GClearing p i a ∧ x' = GCleared p i a ∧ y = Calling ∧ y' = Returned ∧ e = LibClearReturn ∧ d = NULL)).
  { unfold x'. destruct Hx as [Hx|Hx]; rewrite Hx in Hg; destruct Hg as [Hg _]; rewrite Ha in Hg; injection Hg as -> ->;
      destruct H as [(? & -> & ->)|(? & -> & ->)]; try done; auto 10. }
  clear H Hx. apply (task_stage _ l _ d y y' e x' Ha).
  - destruct Hs as [(-> & _)|(-> & _)]; done.
  - by destruct Hs as [(-> & -> & -> & -> & -> & _)|(-> & -> & -> & -> & -> & _)].
  - by destruct Hs as [(-> & -> & _)|(-> & -> & _)].
  - by destruct Hs as [(-> & -> & _)|(-> & -> & _)].
  - left. by destruct Hs as [(-> & _)|(-> & _)].
  - intros prev _ Hc.
    assert (first_state x' = first_state (x l)) as -> by by destruct Hs as [(-> & -> & _)|(-> & -> & _)].
    by eapply chained_clear.
  - destruct Hs as [(E & -> & -> & -> & -> & ->)|(E & -> & -> & -> & -> & ->)]; rewrite E in Hg; destruct Hg as [_ Hg];
      (split; [apply lookup_insert_eq|]); [done|destruct Hg; auto].
  - intros j pc Hpc. destruct Hs as [(E & -> & _)|(E & -> & _)]; rewrite E in Hpc; destruct pc; cbn in *; naive_solver.
  - by destruct Hs as [(_ & -> & _)|(_ & -> & _)]; intros [?|?].
  - apply (others_in_progress l _ _ d y); [done| |].
    + intros Hr. exists p, i. destruct Hs as [(_ & -> & _)|(_ & -> & _ & -> & _)]; [by right|done].
    + intros b p' j Hne Hb. destruct Hs as [(E & _)|(E & _)]; rewrite E in Hb; naive_solver.
Qed.

End steps.

Lemma locks_init : locks_inv no_locks (λ _, 0) (λ _, []) (λ _, GIdle).
Proof.
  split; try done.
  intros l. split; try done.
  - exists NULL. split; [done|]. split; [by left|]. split; [apply NoDup_singleton|done].
  - by intros [?|?].
Qed.

Definition step_fine (r : res lock_state) : Prop :=
  match r with Ok s => inv_holds s | Err e => e = Disabled end.

(** The task that a request or a clearing thread waits for is there. *)
Lemma request_task s own q x l r :
  locks_inv s own q x → r ∈ q l → ∃ t, tasks s !! task_of r = Some t ∧ lock_of t = l.
Proof.
  intros Hi Hr. destruct (lk_chain _ _ _ _ _ (li_locks _ _ _ _ Hi l)) as (prev & _ & _ & _ & Hc).
  destruct (chained_elem _ _ _ _ _ _ _ Hc Hr) as (_ & _ & d & y & -> & _). by eexists.
Qed.

Lemma clear_task s own q x l i a :
  locks_inv s own q x → (∃ p, x l = GClear p i a ∨ x l = GClearing p i a ∨ x l = GCleared p i a) →
  ∃ t, tasks s !! a = Some t.
Proof.
  intros Hi (p & Hx). pose proof (lk_giver _ _ _ _ _ (li_locks _ _ _ _ Hi l)) as Hg.
  destruct Hx as [Hx|[Hx|Hx]]; rewrite Hx in Hg; destruct Hg as [-> _]; by eexists.
Qed.

Lemma thread_step_ok s own q x i : locks_inv s own q x → step_fine (lock_step (Thread i) s).
Proof.
  intros Hi. unfold lock_step, set_step, clear_step. pose proof (li_threads _ _ _ _ Hi i) as Ht.
  destruct (threads s i) as [|l|l|l p a|l p a|l p|l p|l|l|l a|l a|l|l p|l p] eqn:E; try done.
  - destruct (lock_info_mutex s) eqn:Em; [done|]. by eapply set_enter_ok.
  - by eapply set_locked_ok.
  - by eapply set_unlock_ok.
  - destruct (request_task _ _ _ _ _ _ Hi (Ht l eq_refl)) as (t & Ha & _). cbn in Ha. rewrite Ha. unfold deref; cbn.
    destruct (state t) eqn:Es; cbn; [done..|]. exact (set_wait_ok _ _ _ _ Hi i l p a t E Ha Es).
  - destruct (Ht l eq_refl) as (Hx & a & rest & Hq).
    rewrite (known_context _ _ _ _ Hi l) by (left; by rewrite Hq). unfold deref; cbn.
    rewrite (lk_live _ _ _ _ _ (li_locks _ _ _ _ Hi l)), Hx. by eapply set_check_ok.
  - destruct (set_live_ok _ _ _ _ Hi i l p E) as (ctx & -> & H). exact H.
  - destruct (lock_info_mutex s) eqn:Em; [done|]. by eapply clr_enter_ok.
  - destruct (clr_locked_ok _ _ _ _ Hi i l E) as [Hk H]. rewrite bool_decide_true by done. exact H.
  - by eapply clr_unlock_ok.
  - destruct (clear_task _ _ _ _ _ _ _ Hi (Ht l eq_refl)) as (t & Ha). rewrite Ha. unfold deref; cbn.
    destruct (state t) eqn:Es; cbn; [done..|]. exact (clr_wait_ok _ _ _ _ Hi i l a t E Ha Es).
  - destruct (clr_live_ok _ _ _ _ Hi i l E) as (ctx & -> & Hl & H). unfold deref; cbn.
    rewrite (proj2 (Z.eqb_neq _ _) Hl). exact H.
  - destruct (clr_null_ok _ _ _ _ Hi i l p E) as (ctx & -> & H). exact H.
  - destruct (clr_put_ok _ _ _ _ Hi i l p E) as [Hp H]. unfold put. rewrite Hp. exact H.
Qed.

Lemma task_step_ok s own q x a : locks_inv s own q x → step_fine (task_step a s).
Proof.
  intros Hi. unfold task_step. destruct (tasks s !! a) as [[f l d y]|] eqn:Ha; [|done].
  destruct y; [| |done].
  - destruct ((d =? NULL) || default false (promises s !! d)) eqn:Ed; [|done]. destruct f; cbn.
    + eapply set_task_ok; [done..|]. left. do 3 (split; [done|]).
      bool_inv. destruct Ed as [Ed|Ed]; [left; bool_inv; done|right]. by destruct (promises s !! d) as [[]|].
    + eapply clear_task_ok; [done..|]. by left.
  - destruct f; cbn; [eapply set_task_ok|eapply clear_task_ok]; try done; by right.
Qed.

Lemma lock_step_ok s own q x lbl :
  locks_inv s own q x → allowed lbl s = true → step_fine (lock_step lbl s).
Proof.
  intros Hi Ha. destruct lbl as [i l|i l|i|a]; cbn [lock_step].
  - destruct (threads s i) eqn:E; try done. by eapply call_set_ok.
  - destruct (threads s i) eqn:E; try done. by eapply call_clear_ok.
  - by eapply thread_step_ok.
  - by eapply task_step_ok.
Qed.

Lemma locks_reached s : lock_reachable s → inv_holds s.
Proof.
  induction 1 as [|lbl s s' _ (own & q & x & IH) Ha Hs]; [do 3 eexists; exact locks_init|].
  pose proof (lock_step_ok _ _ _ _ _ IH Ha) as H. by rewrite Hs in H.
Qed.

(** Nothing goes on unless a thread sets or clears another lock. *)
Definition goes_on (lbl : lock_label) (s : lock_state) : Prop := is_ok (lock_step lbl s) = true.

Definition at_rest (s : lock_state) : Prop := (∀ i, ¬ goes_on (Thread i) s) ∧ ∀ a, ¬ goes_on (Task a) s.

Section rest.
Context (s : lock_state) (own : Z → Z) (q : Z → list request) (x : Z → stage).
Hypotheses (Hi : locks_inv s own q x) (Hr : at_rest s).
Set Default Proof Using "Type*".

Lemma rest_mutex : lock_info_mutex s = None.
Proof.
  destruct (lock_info_mutex s) as [k|] eqn:E; [exfalso|done]. apply (li_mutex _ _ _ _ Hi) in E.
  apply (proj1 Hr k). unfold goes_on, lock_step, set_step, clear_step.
  destruct (threads s k) as [| |l| | | | | |l| | | | |] eqn:Ek; try done.
  destruct (clr_locked_ok _ _ _ _ Hi k l Ek) as [Hk _]. by rewrite bool_decide_true.
Qed.

(** A thread at rest is idle or waits for a task. *)
Definition resting (x : lpc) : bool :=
  match x with LIdle | SetWait _ _ _ | ClrWait _ _ => true | _ => false end.

Lemma rest_thread i : resting (threads s i) = true.
Proof.
  pose proof (proj1 Hr i) as Hn. pose proof (thread_step_ok _ _ _ _ i Hi) as Hf.
  pose proof rest_mutex as Hm. unfold goes_on in Hn. unfold lock_step, set_step, clear_step in *.
  destruct (threads s i) as [| | | | |l p|l p| | | | |l|l p|l p]; try done; destruct Hn; rewrite ?Hm in *; try done.
  all: unfold put, deref, hassert in *.
  - destruct (lock_info s !! l); cbn in *; [|done]. by destruct (_ =? _).
  - by destruct (lock_info s !! l).
  - by destruct (bool_decide _).
  - destruct (lock_info s !! l); cbn in *; [|done]. by destruct (_ =? _).
  - by destruct (lock_info s !! l).
  - destruct (promises s !! p) as [[]|]; done.
Qed.

Lemma rest_task a t : tasks s !! a = Some t → state t ≠ Calling.
Proof.
  intros Ha Hs. apply (proj2 Hr a). unfold goes_on, lock_step, task_step. rewrite Ha.
  destruct t as [f l d y]. cbn in Hs. by subst y.
Qed.

Lemma rest_wait i l p a t : threads s i = SetWait l p a ∨ threads s i = ClrWait l a →
  tasks s !! a = Some t → state t ≠ Returned.
Proof.
  intros E Ha Hs. apply (proj1 Hr i). unfold goes_on, lock_step, set_step, clear_step.
  destruct E as [-> | ->]; rewrite Ha; unfold deref; cbn; by rewrite Hs.
Qed.

(** A lock at rest that anyone waits for is held. *)
Lemma rest_stage l : x l ≠ GIdle ∨ q l ≠ [] → ∃ p i, x l = GOwned p i.
Proof.
  intros Hne. pose proof (li_locks _ _ _ _ Hi l) as Hl. pose proof (lk_giver _ _ _ _ _ Hl) as Hg.
  destruct (lk_chain _ _ _ _ _ Hl) as (prev & _ & Hb & _ & Hc).
  destruct (x l) as [| | |p i|p i|p i a|p i a|p i a|p i|p i] eqn:Ex; cbn in Hg, Hb, Hc.
  - destruct (q l) as [|r rest] eqn:Eq; [by destruct Hne|]. destruct Hc as [Ht _].
    exfalso. apply (proj2 Hr (task_of r)). unfold goes_on, lock_step, task_step. rewrite Ht.
    destruct Hb as [->|[-> _]]; [done|]. by rewrite orb_true_r.
  - destruct (q l) as [|r rest] eqn:Eq; [by destruct (lk_first _ _ _ _ _ Hl); auto|]. destruct Hc as [Ht _].
    by apply rest_task in Ht.
  - destruct (q l) as [|r rest] eqn:Eq; [by destruct (lk_first _ _ _ _ _ Hl); auto|]. destruct Hc as [Ht _].
    pose proof (rest_thread (thread_of r)) as Hth.
    destruct (lk_waits _ _ _ _ _ Hl 0%nat r ltac:(done)) as [E|[E|(_ & _ & [E|E])]]; rewrite E in Hth; try done.
    by destruct (rest_wait _ _ _ _ _ (or_introl E) Ht).
  - by exists p, i.
  - pose proof (rest_thread i) as Hth. by destruct Hg as [E|E]; rewrite E in Hth.
  - exfalso. apply (proj2 Hr a). unfold goes_on, lock_step, task_step. by rewrite (proj1 Hg).
  - destruct Hg as [Ha _]. by apply rest_task in Ha.
  - pose proof (rest_thread i) as Hth. destruct Hg as [Ha [E|[E|E]]]; rewrite E in Hth; try done.
    by destruct (rest_wait i l 0 _ _ (or_intror E) Ha).
  - pose proof (rest_thread i) as Hth. by rewrite Hg in Hth.
  - pose proof (rest_thread i) as Hth. by rewrite Hg in Hth.
Qed.

End rest.

(** ** Properties *)

(** The locks of the OpenSHMEM module are fair queues.  Whatever the tasks of
    the processing element do, as long as they clear only locks that are held, what
    happens at each lock is a run of [fifo_step]: requests get the lock one at a
    time and in the order in which they asked, the library is asked to set the
    lock only when it is free and to clear it only when it has been released, and
    each of its calls returns before the next.  No assertion of the code fails, no
    promise is put twice and no context is missing: a step is at most not enabled. *)
Theorem locks_refine_fifo s :
  lock_reachable s →
  (∀ l, is_Some (lock_at l s)) ∧
  ∀ lbl e, allowed lbl s = true → lock_step lbl s = Err e → e = Disabled.
Proof.
  intros (own & q & x & Hi)%locks_reached. split.
  - intros l. rewrite (lk_at _ _ _ _ _ (li_locks _ _ _ _ Hi l)). by eexists.
  - intros lbl e Ha E. pose proof (lock_step_ok _ _ _ _ _ Hi Ha) as H. by rewrite E in H.
Qed.

(** No request for a lock is lost.  When every call that the library was asked
    for has returned and no thread or task can go on, each thread is idle or waits
    in [shmem_set_lock] for a lock that is held. *)
Theorem locks_never_stuck s i :
  lock_reachable s → at_rest s →
  threads s i = LIdle ∨ ∃ l p a, threads s i = SetWait l p a ∧ is_held l s = true.
Proof.
  intros (own & q & x & Hi)%locks_reached Hr. pose proof (rest_thread _ _ _ _ Hi Hr i) as Hth.
  pose proof (li_threads _ _ _ _ Hi i) as Ht.
  destruct (threads s i) as [| | | |l p a| | | | | |l a| | |] eqn:E; try done; [by left| |]; specialize (Ht l eq_refl).
  - right. exists l, p, a. split; [done|].
    destruct (rest_stage _ _ _ _ Hi Hr l) as (p' & j & Hx).
    { right. intros Hq. cbn in Ht. rewrite Hq in Ht. by apply elem_of_nil in Ht. }
    unfold is_held. by rewrite (lk_at _ _ _ _ _ (li_locks _ _ _ _ Hi l)), Hx.
  - destruct Ht as (p & Ht). destruct (rest_stage _ _ _ _ Hi Hr l) as (p' & j & Hx).
    { left. by destruct Ht as [->|[->| ->]]. }
    rewrite Hx in Ht. by destruct Ht as [?|[?|?]].
Qed.

(** C27: The locks of the OpenSHMEM module are fair queues.  Whatever the tasks of the
    processing element do, as long as they clear only locks that are held, what happens
    at each lock is a run of [fifo_step]: requests get the lock one at a time and in
    the order in which they asked, the library is asked to set the lock only when it is
    free and to clear it only when it has been released, and each of its calls returns
    before the next.  No assertion of the code fails, no promise is put twice and no
    context is missing.  And no request is lost: when no thread or task can go on, each
    thread is idle or waits in [shmem_set_lock] for a lock that is held. *)
Theorem locks_fair s :
  lock_reachable s →
  (∀ l, is_Some (lock_at l s)) ∧
  (∀ lbl e, allowed lbl s = true → lock_step lbl s = Err e → e = Disabled) ∧
  (at_rest s → ∀ i, threads s i = LIdle ∨ ∃ l p a, threads s i = SetWait l p a ∧ is_held l s = true).
Proof.
  intros Hs. destruct (locks_refine_fifo s Hs) as [H1 H2]. split; [done|]. split; [done|].
  intros Hr i. by apply locks_never_stuck.
Qed.

(** ** Witnesses

    Thread 0 sets lock 7 and holds it, thread 1 asks for it. *)
Fixpoint lock_run (ls : list lock_label) (s : lock_state) : res lock_state :=
  match ls with
  | [] => Ok s
  | l :: ls => _ ← hassert (allowed l s); s' ← lock_step l s; lock_run ls s'
  end.

Lemma lock_run_reachable ls s s' : lock_reachable s → lock_run ls s = Ok s' → lock_reachable s'.
Proof.
  revert s. induction ls as [|l ls IH]; intros s Hr H; cbn in H; [by injection H as <-|].
  res_inv. eapply IH; [|exact H]. by eapply reach_step.
Qed.

Lemma lock_run_reached ls : is_ok (lock_run ls no_locks) = true →
  lock_reachable (match lock_run ls no_locks with Ok s => s | Err _ => no_locks end).
Proof.
  destruct (lock_run ls no_locks) as [s|] eqn:E; [|done]. intros _. by eapply lock_run_reachable; [apply reach_init|].
Qed.

Definition two_requests : list lock_label :=
  CallSet 0 7 :: replicate 3 (Thread 0) ++ [Task 2; Task 2] ++ replicate 3 (Thread 0) ++
  CallSet 1 7 :: replicate 3 (Thread 1).

Definition one_waits : lock_state :=
  match lock_run two_requests no_locks with Ok s => s | Err _ => no_locks end.

Lemma one_waits_reachable : lock_reachable one_waits.
Proof. apply lock_run_reached. by vm_compute. Qed.

Lemma one_waits_tasks a t : tasks one_waits !! a = Some t →
  t = mkTask shmem_set_lock_impl 7 NULL Returned ∨ t = mkTask shmem_set_lock_impl 7 1 Spawned.
Proof.
  assert (tasks one_waits =
    <[4 := mkTask shmem_set_lock_impl 7 1 Spawned]> (<[2 := mkTask shmem_set_lock_impl 7 NULL Returned]>
      (<[2 := mkTask shmem_set_lock_impl 7 NULL Calling]> (<[2 := mkTask shmem_set_lock_impl 7 NULL Spawned]>
        (∅ : gmap Z lock_task))))) as -> by by vm_compute.
  intros [[_ <-]|[_ [[_ <-]|[H H']]%lookup_insert_Some]]%lookup_insert_Some; [by right|by left|].
  by rewrite !lookup_insert_ne in H' by done.
Qed.

Lemma task_rests s a :
  (∀ t, tasks s !! a = Some t →
     state t = Returned ∨ state t = Spawned ∧ waits_for t ≠ NULL ∧ promises s !! waits_for t = Some false) →
  ¬ goes_on (Task a) s.
Proof.
  intros H. unfold goes_on, lock_step, task_step. destruct (tasks s !! a) as [[f l d y]|]; [|done].
  destruct (H _ eq_refl) as [Hy|(Hy & Hd & Hp)]; cbn in *; subst y; [done|].
  by rewrite (proj2 (Z.eqb_neq _ _) Hd), Hp.
Qed.

Lemma one_waits_promise : promises one_waits !! 1 = Some false.
Proof. by vm_compute. Qed.

Lemma one_waits_threads i : ¬ goes_on (Thread i) one_waits.
Proof. destruct i as [|[|i]]; vm_compute; discriminate. Qed.

Lemma one_waits_rest : at_rest one_waits.
Proof.
  split; [exact one_waits_threads|]. intros a. apply task_rests. intros t [-> | ->]%one_waits_tasks.
  - by left.
  - right. split; [done|]. split; [done|exact one_waits_promise].
Qed.

Lemma locks_refine_fifo_witness :
  lock_at 7 one_waits = Some (Held 0, [1%nat]) ∧ is_Some (lock_at 7 one_waits) ∧
  ∀ e, lock_step (CallClear 0 7) one_waits = Err e → e = Disabled.
Proof.
  destruct (locks_refine_fifo one_waits one_waits_reachable) as [H1 H2].
  split; [by vm_compute|]. split; [apply H1|]. intros e. apply H2. by vm_compute.
Defined.

Lemma locks_never_stuck_witness :
  threads one_waits 1%nat = LIdle ∨
  ∃ l p a, threads one_waits 1%nat = SetWait l p a ∧ is_held l one_waits = true.
Proof. exact (locks_never_stuck one_waits 1%nat one_waits_reachable one_waits_rest). Defined.

Lemma locks_fair_witness :
  lock_at 7 one_waits = Some (Held 0, [1%nat]) ∧
  (∀ e, lock_step (CallClear 0 7) one_waits = Err e → e = Disabled) ∧
  (threads one_waits 1%nat = LIdle ∨
   ∃ l p a, threads one_waits 1%nat = SetWait l p a ∧ is_held l one_waits = true).
Proof.
  destruct (locks_fair one_waits one_waits_reachable) as (H1 & H2 & H3).
  split; [by vm_compute|]. split; [intros e; apply H2; by vm_compute|exact (H3 one_waits_rest 1%nat)].
Defined.
