(* ===== verification/SosLocks.v ===== *)
(** * Locks of the module for Sandia OpenSHMEM

    [shmem_set_lock] and [shmem_clear_lock] of [src/modules/sos/src/hclib_sos.cpp].
    Unlike the other OpenSHMEM module ([Locks]) this one has a single chain of
    futures: a call of [shmem_set_lock] waits for the call before it, whichever its
    lock.  A thread is a task of the user; its accesses to shared memory and those of
    the others interleave in any order, and the library returns at any later time.
    The specification is that of [Locks], of all locks together. *)

From S2P Require Import Prelude Locks.
From stdpp Require Import options.

(** ** The machine *)

(** The point before the next access to shared memory, or before the call of the
    library by a task that the thread waits for.

    src/modules/sos/src/hclib_sos.cpp:373-396 (shmem_set_lock)

    src/modules/sos/src/hclib_sos.cpp:398-408 (shmem_clear_lock) *)
Inductive spc :=
  | SIdle
  | SSwap (lock : Z)                       (** [pthread_mutex_lock] *)
  | SWait (lock promise old : Z)           (** [old->wait()] *)
  | SCall (lock promise : Z)
  | SCalling (lock promise : Z)
  | SNext (lock promise : Z)               (** write [next_to_put] *)
  | CCheck (lock : Z)                      (** the assertion *)
  | CCall (lock : Z)
  | CCalling (lock : Z)
  | CRead                                  (** read [next_to_put] *)
  | CNull (to_put : Z)
  | CPut (to_put : Z).

(** [sl_promises] says which are put.

    src/modules/sos/src/hclib_sos.cpp:370-371 (lock_future) *)
Record sos_locks := mkSos {
  lock_future : Z;
  next_to_put : Z;
  sl_promises : gmap Z bool;
  sl_brk : Z;
  sl_threads : nat → spc;
  sl_trace : list (Z * lock_event)
}.

Definition sl_goto (i : nat) (x : spc) (s : sos_locks) : sos_locks :=
  mkSos (lock_future s) (next_to_put s) (sl_promises s) (sl_brk s) (<[i := x]> (sl_threads s)) (sl_trace s).
Definition sl_logged (l : Z) (e : lock_event) (s : sos_locks) : sos_locks :=
  mkSos (lock_future s) (next_to_put s) (sl_promises s) (sl_brk s) (sl_threads s) (sl_trace s ++ [(l, e)]).
Definition set_next (p : Z) (s : sos_locks) : sos_locks :=
  mkSos (lock_future s) p (sl_promises s) (sl_brk s) (sl_threads s) (sl_trace s).

(** [put] of a promise *)
Definition sl_put (p : Z) (s : sos_locks) : res sos_locks :=
  satisfied ← deref (sl_promises s !! p);
  _ ← hassert (negb satisfied);
  Ok (mkSos (lock_future s) (next_to_put s) (<[p := true]> (sl_promises s)) (sl_brk s) (sl_threads s) (sl_trace s)).

(** The promise is new, and [lock_future] is accessed only between locking and
    unlocking the mutex: one step.

    src/modules/sos/src/hclib_sos.cpp:374-383 (shmem_set_lock) *)
Definition swap_future (i : nat) (lock : Z) (s : sos_locks) : sos_locks :=
  mkSos (sl_brk s) (next_to_put s) (<[sl_brk s := false]> (sl_promises s)) (sl_brk s + 1)
    (<[i := SWait lock (sl_brk s) (lock_future s)]> (sl_threads s)) (sl_trace s ++ [(lock, Ask i)]).

(** A step of thread [i] that sets a lock.

    src/modules/sos/src/hclib_sos.cpp:373-396 (shmem_set_lock) *)
Definition sos_set_step (i : nat) (s : sos_locks) : res sos_locks :=
  match sl_threads s i with
  | SSwap lock => Ok (swap_future i lock s)
  | SWait lock promise old =>
      if old =? NULL then Ok (sl_goto i (SCall lock promise) s) else
      satisfied ← deref (sl_promises s !! old);
      if satisfied : bool then Ok (sl_goto i (SCall lock promise) s) else Err Disabled
  | SCall lock promise => Ok (sl_goto i (SCalling lock promise) (sl_logged lock LibSet s))
  | SCalling lock promise => Ok (sl_goto i (SNext lock promise) (sl_logged lock LibSetReturn s))
  | SNext lock promise => Ok (sl_goto i SIdle (sl_logged lock (Grant i) (set_next promise s)))
  | _ => Err Disabled
  end.

(** A step of thread [i] that clears a lock.

    src/modules/sos/src/hclib_sos.cpp:398-408 (shmem_clear_lock) *)
Definition sos_clear_step (i : nat) (s : sos_locks) : res sos_locks :=
  match sl_threads s i with
  | CCheck lock => _ ← hassert (negb (next_to_put s =? NULL)); Ok (sl_goto i (CCall lock) s)
  | CCall lock => Ok (sl_goto i (CCalling lock) (sl_logged lock LibClear s))
  | CCalling lock => Ok (sl_goto i CRead (sl_logged lock LibClearReturn s))
  | CRead => Ok (sl_goto i (CNull (next_to_put s)) s)
  | CNull to_put => Ok (sl_goto i (CPut to_put) (set_next NULL s))
  | CPut to_put => s ← sl_put to_put s; Ok (sl_goto i SIdle s)
  | _ => Err Disabled
  end.

Inductive sos_label :=
  | SetLock (i : nat) (lock : Z)
  | ClearLock (i : nat) (lock : Z)
  | Step (i : nat).

Definition sos_step (x : sos_label) (s : sos_locks) : res sos_locks :=
  match x with
  | SetLock i lock => match sl_threads s i with SIdle => Ok (sl_goto i (SSwap lock) s) | _ => Err Disabled end
  | ClearLock i lock =>
      match sl_threads s i with
      | SIdle => Ok (sl_goto i (CCheck lock) (sl_logged lock Release s))
      | _ => Err Disabled
      end
  | Step i =>
      match sl_threads s i with
      | SSwap _ | SWait _ _ _ | SCall _ _ | SCalling _ _ | SNext _ _ => sos_set_step i s
      | _ => sos_clear_step i s
      end
  end.

Fixpoint sos_run (xs : list sos_label) (s : sos_locks) : res sos_locks :=
  match xs with
  | [] => Ok s
  | x :: xs => s ← sos_step x s; sos_run xs s
  end.

(** src/modules/sos/src/hclib_sos.cpp:370-371 (next_to_put) *)
Definition no_sos_locks : sos_locks := mkSos NULL NULL ∅ 1 (λ _, SIdle) [].

(** Where what has happened leaves the module, as one lock. *)
Definition sos_at (s : sos_locks) : option (phase * list nat) := fifo_run (Free, []) (sl_trace s).*2.

(** The program clears a lock only when one is held. *)
Definition sos_held (s : sos_locks) : bool := match sos_at s with Some (Held _, _) => true | _ => false end.

Definition sos_allowed (x : sos_label) (s : sos_locks) : bool :=
  match x with ClearLock _ _ => sos_held s | _ => true end.

Inductive sos_reachable : sos_locks → Prop :=
  | sos_init : sos_reachable no_sos_locks
  | sos_reach x s s' : sos_reachable s → sos_allowed x s = true → sos_step x s = Ok s' → sos_reachable s'.

(** ** Invariant *)

(** How far the module is: between locks, with the library, or with promise [p]
    that thread [i] has or gives up. *)
Inductive sos_stage :=
  | TIdle | TSetting | TGot
  | TOwned (p : Z) (i : nat)
  | TAsked (p : Z) (i : nat)
  | TClearing (p : Z) (i : nat)
  | TCleared (p : Z) (i : nat)
  | TNull (p : Z) (i : nat)
  | TPut (p : Z) (i : nat).

Definition sos_phase (x : sos_stage) : phase :=
  match x with
  | TIdle | TCleared _ _ | TNull _ _ | TPut _ _ => Free
  | TSetting => Setting
  | TGot => Got
  | TOwned _ i => Held i
  | TAsked _ _ => Released
  | TClearing _ _ => Clearing
  end.

(** The promise that is put when the lock has been cleared. *)
Definition sos_current (x : sos_stage) : option Z :=
  match x with
  | TIdle | TSetting | TGot => None
  | TOwned p _ | TAsked p _ | TClearing p _ | TCleared p _ | TNull p _ | TPut p _ => Some p
  end.

Definition sos_next (x : sos_stage) : Z :=
  match x with
  | TIdle | TSetting | TGot | TPut _ _ => NULL
  | TOwned p _ | TAsked p _ | TClearing p _ | TCleared p _ | TNull p _ => p
  end.

(** Where the first request is. *)
Definition first_at (x : sos_stage) (l p prev : Z) (pc : spc) : Prop :=
  match x with
  | TIdle => pc = SWait l p prev ∨ pc = SCall l p
  | TSetting => pc = SCalling l p
  | TGot => pc = SNext l p
  | _ => pc = SWait l p prev
  end.

(** Where the thread that gives the lock up is. *)
Definition sos_giver (x : sos_stage) (threads : nat → spc) : Prop :=
  match x with
  | TAsked _ i => ∃ l, threads i = CCheck l ∨ threads i = CCall l
  | TClearing _ i => ∃ l, threads i = CCalling l
  | TCleared _ i => threads i = CRead
  | TNull p i => threads i = CNull p
  | TPut p i => threads i = CPut p
  | _ => True
  end.

(** The requests after the first, each with its promise. *)
Fixpoint sos_queue (s : sos_locks) (prev : Z) (q : list (Z * nat)) : Prop :=
  match q with
  | [] => True
  | (p, i) :: q =>
      sl_promises s !! p = Some false ∧ (∃ l, sl_threads s i = SWait l p prev) ∧ sos_queue s p q
  end.

Definition sos_requests (s : sos_locks) (x : sos_stage) (prev : Z) (q : list (Z * nat)) : Prop :=
  match q with
  | [] => x ≠ TSetting ∧ x ≠ TGot
  | (p, i) :: q =>
      sl_promises s !! p = Some false ∧ (∃ l, first_at x l p prev (sl_threads s i)) ∧ sos_queue s p q
  end.

Definition sos_end (prev : Z) (q : list (Z * nat)) : Z := default prev (last q.*1).

Definition sos_thread (q : list (Z * nat)) (x : sos_stage) (i : nat) (pc : spc) : Prop :=
  match pc with
  | SIdle | SSwap _ => True
  | SWait _ p _ | SCall _ p | SCalling _ p | SNext _ p => (p, i) ∈ q
  | CCheck _ | CCall _ => ∃ p, x = TAsked p i
  | CCalling _ => ∃ p, x = TClearing p i
  | CRead => ∃ p, x = TCleared p i
  | CNull p => x = TNull p i
  | CPut p => x = TPut p i
  end.

Record sos_inv (s : sos_locks) (q : list (Z * nat)) (x : sos_stage) (prev : Z) : Prop := {
  si_at : sos_at s = Some (sos_phase x, q.*2);
  si_last : lock_future s = sos_end prev q;
  si_before : match sos_current x with
              | Some p => prev = p ∧ sl_promises s !! p = Some false
              | None => prev = NULL ∨ sl_promises s !! prev = Some true
              end;
  si_nodup : NoDup (prev :: q.*1);
  si_requests : sos_requests s x prev q;
  si_next : next_to_put s = sos_next x;
  si_giver : sos_giver x (sl_threads s);
  si_threads : ∀ i, sos_thread q x i (sl_threads s i);
  si_promises : ∀ p b, sl_promises s !! p = Some b → 0 < p < sl_brk s;
  si_brk : 0 < sl_brk s
}.

(** ** Lemmas *)

Definition pc_promise (x : spc) : option Z :=
  match x with SWait _ p _ | SCall _ p | SCalling _ p | SNext _ p => Some p | _ => None end.

Lemma sos_at_app s s' l e : sl_trace s' = sl_trace s ++ [(l, e)] → sos_at s' = sos_at s ≫= λ x, fifo_step x e.
Proof. intros H. unfold sos_at. rewrite H, fmap_app. apply fifo_app. Qed.

Lemma sos_queue_pc s prev q p i : sos_queue s prev q → (p, i) ∈ q →
  sl_promises s !! p = Some false ∧ ∃ l pr, sl_threads s i = SWait l p pr ∧ (pr = prev ∨ pr ∈ q.*1).
Proof.
  revert prev. induction q as [|[p0 j] q IH]; intros prev; [by intros _ ?%elem_of_nil|].
  intros (Hp & (l & Hl) & Hq) [[= -> ->]|Hin]%elem_of_cons; [split; [done|]; exists l, prev; auto|].
  destruct (IH p0 Hq Hin) as (H1 & l' & pr & H2 & H3). split; [done|]. exists l', pr. split; [done|]. right. cbn.
  destruct H3 as [->|H3]; [left|by right].
Qed.

Lemma first_at_promise x l p prev pc : first_at x l p prev pc → pc_promise pc = Some p.
Proof. destruct x; cbn; intros; destruct_or?; by subst. Qed.

Lemma entry_pc s x prev q p i : sos_requests s x prev q → (p, i) ∈ q →
  sl_promises s !! p = Some false ∧ pc_promise (sl_threads s i) = Some p.
Proof.
  destruct q as [|[p0 j] q]; [by intros _ ?%elem_of_nil|].
  intros (Hp & (l & Hl) & Hq) [[= -> ->]|Hin]%elem_of_cons; [split; [done|by eapply first_at_promise]|].
  destruct (sos_queue_pc _ _ _ _ _ Hq Hin) as (H1 & l' & pr & -> & _). done.
Qed.

Lemma sos_queue_mono s s' prev q :
  (∀ p j, (p, j) ∈ q → sl_promises s' !! p = sl_promises s !! p ∧ sl_threads s' j = sl_threads s j) →
  sos_queue s prev q → sos_queue s' prev q.
Proof.
  revert prev. induction q as [|[p j] q IH]; intros prev H; [done|]. intros (Hp & Hl & Hq).
  destruct (H p j) as [E1 E2]; [left|]. cbn. rewrite E1, E2. split; [done|]. split; [done|].
  apply IH; [|done]. intros p' j' Hin. apply H. by right.
Qed.

Lemma sos_end_cons prev p i q : sos_end prev ((p, i) :: q) = sos_end p q.
Proof. unfold sos_end. rewrite fmap_cons, last_cons. cbn. by destruct (last _). Qed.

Lemma sos_queue_snoc s prev q p i l :
  sos_queue s prev q → sl_promises s !! p = Some false → sl_threads s i = SWait l p (sos_end prev q) →
  sos_queue s prev (q ++ [(p, i)]).
Proof.
  revert prev. induction q as [|[p0 j] q IH]; intros prev; cbn.
  - intros _ Hp Hl. split; [done|]. split; [by exists l|done].
  - intros (Hp0 & Hl0 & Hq) Hp Hl. split; [done|]. split; [done|]. apply IH; [done..|]. by rewrite sos_end_cons in Hl.
Qed.

(** The thread that gives the lock up. *)
Definition giver_of (x : sos_stage) : option nat :=
  match x with TAsked _ i | TClearing _ i | TCleared _ i | TNull _ i | TPut _ i => Some i | _ => None end.

Lemma sos_giver_keeps x threads i pc : giver_of x ≠ Some i → sos_giver x threads → sos_giver x (<[i := pc]> threads).
Proof.
  intros Hne H. destruct x as [| | |p j|p j|p j|p j|p j|p j]; cbn in *; try done;
    rewrite fn_lookup_insert_ne by congruence; done.
Qed.

Definition clearing_pc (x : spc) : bool :=
  match x with CCheck _ | CCall _ | CCalling _ | CRead | CNull _ | CPut _ => true | _ => false end.

Lemma giver_clearing x threads i : sos_giver x threads → giver_of x = Some i → clearing_pc (threads i) = true.
Proof.
  intros H Hi. destruct x as [| | |p j|p j|p j|p j|p j|p j]; cbn in *; try done; injection Hi as ->.
  - by destruct H as (l & [-> | ->]).
  - by destruct H as (l & ->).
  - by rewrite H.
  - by rewrite H.
  - by rewrite H.
Qed.

(** A thread that changes and is in no request, at the same stage or another. *)
Lemma other_threads q x x' i pc threads :
  (∀ j, j ≠ i → sos_thread q x j (threads j)) →
  (∀ j, j ≠ i → clearing_pc (threads j) = false ∨ x = x') → sos_thread q x' i pc →
  ∀ j, sos_thread q x' j (<[i := pc]> threads j).
Proof.
  intros H Hc Hi j. destruct (decide (j = i)) as [->|Hne]; [by rewrite fn_lookup_insert|].
  rewrite fn_lookup_insert_ne by done. specialize (H j Hne).
  destruct (Hc j Hne) as [Hj|<-]; [|done]. by destruct (threads j).
Qed.

Lemma requests_keep s s' x x' prev q :
  (∀ p j, (p, j) ∈ q → sl_promises s' !! p = sl_promises s !! p ∧ sl_threads s' j = sl_threads s j) →
  (∀ l p pc, first_at x l p prev pc → first_at x' l p prev pc) → (x' = TSetting ∨ x' = TGot → x' = x) →
  sos_requests s x prev q → sos_requests s' x' prev q.
Proof.
  intros Hk Hf H1. destruct q as [|[p j] q]; [cbn; intros [? ?]; split; intros E; rewrite H1 in E by tauto; done|]. intros (Hp & (l & Hl) & Hq).
  destruct (Hk p j) as [E1 E2]; [left|]. cbn. rewrite E1, E2. split; [done|]. split; [exists l; auto|].
  eapply sos_queue_mono; [|done]. intros p' j' Hin. apply Hk. by right.
Qed.

Section steps.
Context (s : sos_locks) (q : list (Z * nat)) (x : sos_stage) (prev : Z) (Hi : sos_inv s q x prev).
#[local] Set Default Proof Using "Type*".

(** What is left to show when only the point of thread [i], [next_to_put] and the
    trace change. *)
Lemma sos_moved i pc x' s' :
  sl_threads s' = <[i := pc]> (sl_threads s) → sl_promises s' = sl_promises s →
  sl_brk s' = sl_brk s → lock_future s' = lock_future s →
  sos_at s' = Some (sos_phase x', q.*2) → next_to_put s' = sos_next x' → sos_current x' = sos_current x →
  sos_requests s' x' prev q → sos_giver x' (sl_threads s') → (∀ j, sos_thread q x' j (sl_threads s' j)) →
  sos_inv s' q x' prev.
Proof.
  intros Et Ep Eb El Ha Hn Hc Hr Hg Hth. destruct Hi as [H1 H2 H3 H4 H5 H6 H7 H8 H9 H10].
  split; try done; rewrite ?Ep, ?Eb, ?El, ?Hc; done.
Qed.

Lemma not_in_queue i : pc_promise (sl_threads s i) = None → ∀ p, (p, i) ∉ q.
Proof. intros H p Hin. destruct (entry_pc _ _ _ _ _ _ (si_requests _ _ _ _ Hi) Hin) as [_ E]. congruence. Qed.

Lemma one_entry p p' i : (p, i) ∈ q → (p', i) ∈ q → p = p'.
Proof.
  intros H H'. destruct (entry_pc _ _ _ _ _ _ (si_requests _ _ _ _ Hi) H) as [_ E].
  destruct (entry_pc _ _ _ _ _ _ (si_requests _ _ _ _ Hi) H') as [_ E']. congruence.
Qed.

(** A thread that waits for nothing, or gives the lock up, goes on. *)
Lemma outside_step i pc x' s' :
  pc_promise (sl_threads s i) = None →
  sl_threads s' = <[i := pc]> (sl_threads s) → sl_promises s' = sl_promises s →
  sl_brk s' = sl_brk s → lock_future s' = lock_future s →
  sos_at s' = Some (sos_phase x', q.*2) → next_to_put s' = sos_next x' → sos_current x' = sos_current x →
  (∀ l p pc, first_at x l p prev pc → first_at x' l p prev pc) → (x' = TSetting ∨ x' = TGot → x' = x) →
  (x' = x ∨ giver_of x = Some i ∨ ∃ p j, x = TOwned p j) →
  sos_giver x' (<[i := pc]> (sl_threads s)) → sos_thread q x' i pc →
  sos_inv s' q x' prev.
Proof.
  intros Hno Et Ep Eb El Ha Hn Hc Hf H1 Hgx Hg Hpc. apply (sos_moved i pc); try done; rewrite ?Et; try done.
  - apply (requests_keep s s' x); [|done..|apply Hi]. intros p j Hin. rewrite Et, Ep. split; [done|].
    rewrite fn_lookup_insert_ne; [done|]. intros ->. by eapply not_in_queue.
  - apply (other_threads q x); [intros j _; by apply (si_threads _ _ _ _ Hi)| |done].
    intros j Hne. destruct Hgx as [<-|Hgx]; [by right|]. left.
    pose proof (si_threads _ _ _ _ Hi j) as Hj. destruct (sl_threads s j); try done; cbn in Hj.
    all: first [rewrite Hj in Hgx|destruct Hj as [p' Hj]; rewrite Hj in Hgx]; cbn in Hgx; naive_solver.
Qed.

Lemma sos_call_set_ok i l : sl_threads s i = SIdle → sos_inv (sl_goto i (SSwap l) s) q x prev.
Proof.
  intros E. apply (outside_step i (SSwap l)); try done; try apply Hi; auto; [by rewrite E|].
  apply sos_giver_keeps; [|apply Hi]. intros Hg%(giver_clearing _ _ _ (si_giver _ _ _ _ Hi)). by rewrite E in Hg.
Qed.

Lemma sos_call_clear_ok i l :
  sl_threads s i = SIdle → sos_held s = true →
  ∃ p, sos_inv (sl_goto i (CCheck l) (sl_logged l Release s)) q (TAsked p i) prev.
Proof.
  intros E Hh. unfold sos_held in Hh. rewrite (si_at _ _ _ _ Hi) in Hh.
  assert (∃ p j, x = TOwned p j) as (p & j & Ex) by (destruct x; try done; by eexists _, _).
  exists p. apply (outside_step i (CCheck l)); try done; [by rewrite E|..].
  - rewrite (sos_at_app s _ l Release) by done. by rewrite (si_at _ _ _ _ Hi), Ex.
  - cbn. by rewrite (si_next _ _ _ _ Hi), Ex.
  - by rewrite Ex.
  - by rewrite Ex.
  - by intros [?|?].
  - right; right. by exists p, j.
  - cbn. exists l. left. by rewrite fn_lookup_insert.
  - by exists p.
Qed.

(** The thread that gives the lock up goes from one stage to the next. *)
Lemma clear_check_ok i l : sl_threads s i = CCheck l →
  next_to_put s ≠ NULL ∧ sos_inv (sl_goto i (CCall l) s) q x prev.
Proof.
  intros E. pose proof (si_threads _ _ _ _ Hi i) as Ht. rewrite E in Ht. destruct Ht as [p Ex]. split.
  - rewrite (si_next _ _ _ _ Hi). pose proof (si_before _ _ _ _ Hi) as Hb. rewrite Ex in Hb |- *. cbn in Hb |- *.
    destruct Hb as [_ Hb]. apply (si_promises _ _ _ _ Hi) in Hb. unfold NULL. lia.
  - apply (outside_step i (CCall l)); try done; try apply Hi; auto; [by rewrite E| |by exists p].
    rewrite Ex. cbn. exists l. right. by rewrite fn_lookup_insert.
Qed.

Lemma clear_call_ok i l : sl_threads s i = CCall l →
  ∃ p, sos_inv (sl_goto i (CCalling l) (sl_logged l LibClear s)) q (TClearing p i) prev.
Proof.
  intros E. pose proof (si_threads _ _ _ _ Hi i) as Ht. rewrite E in Ht. destruct Ht as [p Ex].
  exists p. apply (outside_step i (CCalling l)); try done; [by rewrite E|..].
  - rewrite (sos_at_app s _ l LibClear) by done. by rewrite (si_at _ _ _ _ Hi), Ex.
  - cbn. by rewrite (si_next _ _ _ _ Hi), Ex.
  - by rewrite Ex.
  - by rewrite Ex.
  - by intros [?|?].
  - rewrite Ex. by right; left.
  - cbn. exists l. by rewrite fn_lookup_insert.
  - by exists p.
Qed.

Lemma clear_return_ok i l : sl_threads s i = CCalling l →
  ∃ p, sos_inv (sl_goto i CRead (sl_logged l LibClearReturn s)) q (TCleared p i) prev.
Proof.
  intros E. pose proof (si_threads _ _ _ _ Hi i) as Ht. rewrite E in Ht. destruct Ht as [p Ex].
  exists p. apply (outside_step i CRead); try done; [by rewrite E|..].
  - rewrite (sos_at_app s _ l LibClearReturn) by done. by rewrite (si_at _ _ _ _ Hi), Ex.
  - cbn. by rewrite (si_next _ _ _ _ Hi), Ex.
  - by rewrite Ex.
  - by rewrite Ex.
  - by intros [?|?].
  - rewrite Ex. by right; left.
  - cbn. by rewrite fn_lookup_insert.
  - by exists p.
Qed.

Lemma clear_read_ok i : sl_threads s i = CRead →
  ∃ p, sos_inv (sl_goto i (CNull (next_to_put s)) s) q (TNull p i) prev.
Proof.
  intros E. pose proof (si_threads _ _ _ _ Hi i) as Ht. rewrite E in Ht. destruct Ht as [p Ex].
  assert (next_to_put s = p) as Ep by by rewrite (si_next _ _ _ _ Hi), Ex.
  exists p. rewrite Ep. apply (outside_step i (CNull p)); try done; [by rewrite E|..].
  - change (sos_at s = Some (sos_phase (TNull p i), q.*2)). by rewrite (si_at _ _ _ _ Hi), Ex.
  - by rewrite Ex.
  - by rewrite Ex.
  - by intros [?|?].
  - rewrite Ex. by right; left.
  - cbn. by rewrite fn_lookup_insert.
Qed.

Lemma clear_null_ok i p : sl_threads s i = CNull p → sos_inv (sl_goto i (CPut p) (set_next NULL s)) q (TPut p i) prev.
Proof.
  intros E. pose proof (si_threads _ _ _ _ Hi i) as Ex. rewrite E in Ex. cbn in Ex.
  apply (outside_step i (CPut p)); try done; [by rewrite E|..].
  - change (sos_at s = Some (sos_phase (TPut p i), q.*2)). by rewrite (si_at _ _ _ _ Hi), Ex.
  - by rewrite Ex.
  - by rewrite Ex.
  - by intros [?|?].
  - rewrite Ex. by right; left.
  - cbn. by rewrite fn_lookup_insert.
Qed.

Lemma requested_promise p : p ∈ q.*1 → sl_promises s !! p = Some false.
Proof.
  intros ([p' i] & -> & Hin)%list_elem_of_fmap. by destruct (entry_pc _ _ _ _ _ _ (si_requests _ _ _ _ Hi) Hin).
Qed.

(** A request that waits for nothing is the first. *)
Lemma head_entry i p :
  (p, i) ∈ q → (∀ l pr, sl_threads s i = SWait l p pr → pr = NULL ∨ sl_promises s !! pr = Some true) →
  ∃ rest l, q = (p, i) :: rest ∧ first_at x l p prev (sl_threads s i).
Proof.
  intros Hin Hw. pose proof (si_requests _ _ _ _ Hi) as Hr. pose proof requested_promise as Hpr.
  destruct q as [|[p0 j] rest] eqn:Eq; [by apply elem_of_nil in Hin|].
  destruct Hr as (Hp & (l & Hl) & Hq). apply elem_of_cons in Hin as [[= -> ->]|Hin]; [by exists rest, l|exfalso].
  destruct (sos_queue_pc _ _ _ _ _ Hq Hin) as (_ & l' & pr & E & Hpr').
  assert (pr ∈ ((p0, j) :: rest).*1) as Hin' by (cbn; apply elem_of_cons; destruct Hpr'; auto).
  specialize (Hpr pr Hin'). destruct (Hw _ _ E) as [->|]; [|congruence].
  apply (si_promises _ _ _ _ Hi) in Hpr. unfold NULL in Hpr. lia.
Qed.

(** The first request goes on. *)
Lemma head_step i p rest pc x' s' :
  q = (p, i) :: rest →
  sl_threads s' = <[i := pc]> (sl_threads s) → sl_promises s' = sl_promises s →
  sl_brk s' = sl_brk s → lock_future s' = lock_future s →
  sos_at s' = Some (sos_phase x', q.*2) → next_to_put s' = next_to_put s →
  sos_current x = None → sos_current x' = None → (∃ l, first_at x' l p prev pc) → sos_thread q x' i pc →
  sos_inv s' q x' prev.
Proof.
  intros Eq Et Ep Eb El Ha Hn Hc Hc' Hf Hpc. pose proof (si_requests _ _ _ _ Hi) as Hr.
  assert (sos_giver x' (sl_threads s')) as Hg by by destruct x'.
  apply (sos_moved i pc); try done; rewrite ?Et.
  - rewrite Hn, (si_next _ _ _ _ Hi). by destruct x, x'.
  - by rewrite Hc.
  - assert (∀ p', (p', i) ∈ q → p = p') as Hone.
    { intros p' H. apply (one_entry p p' i); [|done]. rewrite Eq. left. }
    pose proof (si_nodup _ _ _ _ Hi) as Hnd. rewrite Eq in Hr, Hone, Hnd |- *. destruct Hr as (Hp & _ & Hq). cbn.
    rewrite Et, Ep, fn_lookup_insert. split; [done|]. split; [done|].
    eapply sos_queue_mono; [|exact Hq]. intros p' j Hin. rewrite Ep, Et. split; [done|].
    rewrite fn_lookup_insert_ne; [done|]. intros <-. assert (p = p') as <- by (apply Hone; by right).
    cbn in Hnd. apply NoDup_cons in Hnd as [_ [Hnd _]%NoDup_cons]. apply Hnd.
    apply list_elem_of_fmap. by exists (p, i).
  - apply (other_threads q x); [intros j _; by apply (si_threads _ _ _ _ Hi)| |done].
    intros j _. left. pose proof (si_threads _ _ _ _ Hi j) as Hj. destruct (sl_threads s j); try done; cbn in Hj.
    all: first [rewrite Hj in Hc|destruct Hj as [p' Hj]; rewrite Hj in Hc]; done.
Qed.

(** A wait is over only when the module is between locks. *)
Lemma wait_over i l p old : sl_threads s i = SWait l p old → old = NULL ∨ sl_promises s !! old = Some true →
  x = TIdle ∧ ∃ rest, q = (p, i) :: rest.
Proof.
  intros E Ho. pose proof (si_threads _ _ _ _ Hi i) as Ht. rewrite E in Ht. cbn in Ht.
  destruct (head_entry i p Ht) as (rest & l' & Eq & Hf); [intros ? ?; rewrite E; by intros [= -> ->]|].
  rewrite E in Hf. assert (old = prev) as -> by (destruct x; cbn in Hf; destruct_or?; congruence).
  split; [|by exists rest].
  pose proof (si_before _ _ _ _ Hi) as Hb. destruct x; try done; cbn in Hb; destruct Hb as [<- Hb].
  all: apply (si_promises _ _ _ _ Hi) in Hb as Hb'; destruct Ho as [->|Ho]; [unfold NULL in *; lia|congruence].
Qed.

Lemma sos_wait_ok i l p old : sl_threads s i = SWait l p old → old = NULL ∨ sl_promises s !! old = Some true →
  sos_inv (sl_goto i (SCall l p) s) q x prev.
Proof.
  intros E Ho. destruct (wait_over i l p old E Ho) as (Ex & rest & Eq).
  rewrite Ex. apply (head_step i p rest (SCall l p)); try done.
  - change (sos_at s = Some (Free, q.*2)). by rewrite (si_at _ _ _ _ Hi), Ex.
  - by rewrite Ex.
  - exists l. by right.
  - cbn. rewrite Eq. left.
Qed.

Lemma set_call_ok i l p : sl_threads s i = SCall l p →
  sos_inv (sl_goto i (SCalling l p) (sl_logged l LibSet s)) q TSetting prev.
Proof.
  intros E. pose proof (si_threads _ _ _ _ Hi i) as Ht. rewrite E in Ht. cbn in Ht.
  destruct (head_entry i p Ht) as (rest & l' & Eq & Hf); [intros ? ?; by rewrite E|].
  rewrite E in Hf. assert (x = TIdle) as Ex by (destruct x; cbn in Hf; destruct_or?; done).
  apply (head_step i p rest (SCalling l p)); try done; [|by rewrite Ex|by exists l].
  rewrite (sos_at_app s _ l LibSet) by done. by rewrite (si_at _ _ _ _ Hi), Ex, Eq.
Qed.

Lemma set_return_ok i l p : sl_threads s i = SCalling l p →
  sos_inv (sl_goto i (SNext l p) (sl_logged l LibSetReturn s)) q TGot prev.
Proof.
  intros E. pose proof (si_threads _ _ _ _ Hi i) as Ht. rewrite E in Ht. cbn in Ht.
  destruct (head_entry i p Ht) as (rest & l' & Eq & Hf); [intros ? ?; by rewrite E|].
  rewrite E in Hf. assert (x = TSetting) as Ex by (destruct x; cbn in Hf; destruct_or?; done).
  apply (head_step i p rest (SNext l p)); try done; [|by rewrite Ex|by exists l].
  rewrite (sos_at_app s _ l LibSetReturn) by done. by rewrite (si_at _ _ _ _ Hi), Ex.
Qed.

(** The first request gets the lock. *)
Lemma set_next_ok i l p : sl_threads s i = SNext l p →
  ∃ rest, sos_inv (sl_goto i SIdle (sl_logged l (Grant i) (set_next p s))) rest (TOwned p i) p.
Proof.
  intros E. pose proof (si_threads _ _ _ _ Hi i) as Ht. rewrite E in Ht. cbn in Ht.
  destruct (head_entry i p Ht) as (rest & l' & Eq & Hf); [intros ? ?; by rewrite E|].
  rewrite E in Hf. assert (x = TGot) as Ex by (destruct x; cbn in Hf; destruct_or?; done).
  exists rest. pose proof (si_requests _ _ _ _ Hi) as Hr. pose proof (si_nodup _ _ _ _ Hi) as Hnd.
  assert (∀ p' j, (p', j) ∈ rest → j ≠ i) as Hne.
  { intros p' j Hin ->. assert (p = p') as <- by (apply (one_entry p p' i); rewrite Eq; [left|by right]).
    rewrite Eq in Hnd. cbn in Hnd. apply NoDup_cons in Hnd as [_ [Hnd _]%NoDup_cons]. apply Hnd.
    apply list_elem_of_fmap. by exists (p, i). }
  rewrite Eq in Hr. destruct Hr as (Hp & _ & Hq). split.
  - rewrite (sos_at_app s _ l (Grant i)) by done. rewrite (si_at _ _ _ _ Hi), Ex, Eq. cbn. by rewrite decide_True.
  - cbn. rewrite (si_last _ _ _ _ Hi), Eq. apply sos_end_cons.
  - done.
  - rewrite Eq in Hnd. cbn in Hnd. by apply NoDup_cons in Hnd as [_ Hnd].
  - assert (sos_queue (sl_goto i SIdle (sl_logged l (Grant i) (set_next p s))) p rest) as Hq'.
    { eapply sos_queue_mono; [|exact Hq]. intros p' j Hin. cbn. rewrite fn_lookup_insert_ne; [done|].
      intros Ej. by apply (Hne _ _ Hin). }
    destruct rest as [|[p' j] rest]; [done|]. exact Hq'.
  - done.
  - done.
  - intros j. cbn. destruct (decide (j = i)) as [->|Hji]; [by rewrite fn_lookup_insert|].
    rewrite fn_lookup_insert_ne by done. pose proof (si_threads _ _ _ _ Hi j) as Hj.
    destruct (sl_threads s j) eqn:Ej; cbn in Hj |- *; try done.
    all: try (rewrite Eq in Hj; apply elem_of_cons in Hj as [[= _ ?]|?]; congruence || done).
    all: rewrite Ex in Hj; naive_solver.
  - apply Hi.
  - apply Hi.
Qed.

(** A new request is the last. *)
Lemma swap_ok i l : sl_threads s i = SSwap l → sos_inv (swap_future i l s) (q ++ [(sl_brk s, i)]) x prev.
Proof.
  intros E. assert (∀ p b, sl_promises s !! p = Some b → p ≠ sl_brk s) as Hfresh.
  { intros p b Hp%(si_promises _ _ _ _ Hi). lia. }
  assert (∀ p j, (p, j) ∈ q → sl_promises (swap_future i l s) !! p = sl_promises s !! p ∧
    sl_threads (swap_future i l s) j = sl_threads s j) as Hk.
  { intros p j Hin. destruct (entry_pc _ _ _ _ _ _ (si_requests _ _ _ _ Hi) Hin) as [Hp Hj]. cbn.
    rewrite lookup_insert_ne by (apply not_eq_sym; by eapply Hfresh). split; [done|].
    rewrite fn_lookup_insert_ne; [done|]. intros <-. by rewrite E in Hj. }
  assert (giver_of x ≠ Some i) as Hng.
  { intros Hg%(giver_clearing _ _ _ (si_giver _ _ _ _ Hi)). by rewrite E in Hg. }
  split.
  - rewrite (sos_at_app s _ l (Ask i)) by done. rewrite (si_at _ _ _ _ Hi), fmap_app. by destruct x.
  - cbn. unfold sos_end. rewrite fmap_app. cbn [fmap list_fmap fst]. by rewrite last_snoc.
  - pose proof (si_before _ _ _ _ Hi) as Hb. cbn. destruct (sos_current x) as [p|].
    + destruct Hb as [-> Hp]. split; [done|]. rewrite lookup_insert_ne; [done|]. apply not_eq_sym. by eapply Hfresh.
    + destruct Hb as [->|Hb]; [by left|right]. rewrite lookup_insert_ne; [done|]. apply not_eq_sym. by eapply Hfresh.
  - rewrite fmap_app. change (NoDup ((prev :: q.*1) ++ [sl_brk s])). apply NoDup_app.
    split; [apply Hi|]. split; [|apply NoDup_singleton]. intros p Hp ->%list_elem_of_singleton.
    apply elem_of_cons in Hp as [Hp|Hp%requested_promise]; [|by eapply Hfresh].
    pose proof (si_before _ _ _ _ Hi) as Hb. destruct (sos_current x) as [p|].
    + destruct Hb as [<- Hb]. by eapply Hfresh.
    + pose proof (si_brk _ _ _ _ Hi). destruct Hb as [Hb|Hb]; [unfold NULL in Hb; lia|]. eapply Hfresh; [exact Hb|done].
  - pose proof (requests_keep s (swap_future i l s) x x prev q Hk (λ _ _ _ H, H) (λ _, eq_refl) (si_requests _ _ _ _ Hi)) as Hr.
    pose proof (si_last _ _ _ _ Hi) as Hl. pose proof (si_requests _ _ _ _ Hi) as Hr0.
    destruct q as [|[p j] rest].
    + cbn in Hr0 |- *. rewrite lookup_insert_eq, fn_lookup_insert. split; [done|]. split; [|done].
      exists l. rewrite Hl. cbn. destruct x; cbn; try done; [by left|by destruct Hr0|by destruct Hr0].
    + destruct Hr as (Hp & Hf & Hq). cbn [app sos_requests]. split; [done|]. split; [done|].
      rewrite sos_end_cons in Hl. apply (sos_queue_snoc _ _ _ _ _ l); [done|cbn; apply lookup_insert_eq|].
      cbn. by rewrite fn_lookup_insert, Hl.
  - apply Hi.
  - cbn. apply sos_giver_keeps; [done|apply Hi].
  - intros j. cbn. destruct (decide (j = i)) as [->|Hne].
    + rewrite fn_lookup_insert. cbn. apply elem_of_app. right. left.
    + rewrite fn_lookup_insert_ne by done. pose proof (si_threads _ _ _ _ Hi j) as Hj.
      destruct (sl_threads s j); try done; cbn in Hj |- *; apply elem_of_app; by left.
  - intros p b. cbn. intros [[<- _]|[_ Hp]]%lookup_insert_Some; [pose proof (si_brk _ _ _ _ Hi); lia|].
    apply (si_promises _ _ _ _ Hi) in Hp. lia.
  - cbn. pose proof (si_brk _ _ _ _ Hi). lia.
Qed.

(** The promise is put: the next request may go on. *)
Lemma clear_put_ok i p : sl_threads s i = CPut p →
  sl_promises s !! p = Some false ∧ ∀ s', sl_put p s = Ok s' → sos_inv (sl_goto i SIdle s') q TIdle prev.
Proof.
  intros E. pose proof (si_threads _ _ _ _ Hi i) as Ex. rewrite E in Ex. cbn in Ex.
  pose proof (si_before _ _ _ _ Hi) as Hb. rewrite Ex in Hb. cbn in Hb. destruct Hb as [Hprev Hp].
  split; [done|]. intros s' H. unfold sl_put in H. rewrite Hp in H. injection H as <-.
  assert (p ∉ q.*1) as Hnot by (pose proof (si_nodup _ _ _ _ Hi) as Hnd; rewrite Hprev in Hnd; by apply NoDup_cons in Hnd as [? _]).
  split.
  - change (sos_at s = Some (Free, q.*2)). by rewrite (si_at _ _ _ _ Hi), Ex.
  - apply Hi.
  - right. rewrite Hprev. apply lookup_insert_eq.
  - apply Hi.
  - apply (requests_keep s _ x); [| |by intros [?|?]|apply Hi].
    + intros p' j Hin. cbn. rewrite lookup_insert_ne.
      * split; [done|]. rewrite fn_lookup_insert_ne; [done|]. intros <-.
        refine (not_in_queue i _ p' Hin). by rewrite E.
      * intros <-. apply Hnot. apply list_elem_of_fmap. by exists (p, j).
    + intros l p' pc H. rewrite Ex in H. by left.
  - cbn. by rewrite (si_next _ _ _ _ Hi), Ex.
  - done.
  - apply (other_threads q x); [intros j _; by apply (si_threads _ _ _ _ Hi)| |done].
    intros j Hne. left. pose proof (si_threads _ _ _ _ Hi j) as Hj. rewrite Ex in Hj.
    cbn [sl_threads]; destruct (sl_threads s j); try done; cbn in Hj; (first [congruence|destruct Hj; congruence]).
  - intros p' b. cbn. intros [[<- _]|[_ Hp']]%lookup_insert_Some; by eapply (si_promises _ _ _ _ Hi).
  - apply Hi.
Qed.
End steps.

Definition sos_holds (s : sos_locks) : Prop := ∃ q x prev, sos_inv s q x prev.

Definition sos_fine (r : res sos_locks) : Prop :=
  match r with Ok s => sos_holds s | Err e => e = Disabled end.

Lemma sos_holds_intro s q x prev : sos_inv s q x prev → sos_holds s.
Proof. intros H. by exists q, x, prev. Qed.

Lemma sos_init_ok : sos_inv no_sos_locks [] TIdle NULL.
Proof. split; try done; [by left|apply NoDup_singleton]. Qed.

(** Whatever a thread waits for has been asked for. *)
Lemma waited_promise s q x prev i l p old :
  sos_inv s q x prev → sl_threads s i = SWait l p old → old = NULL ∨ ∃ b, sl_promises s !! old = Some b.
Proof.
  intros Hi E. pose proof (si_threads _ _ _ _ Hi i) as Ht. rewrite E in Ht. cbn in Ht.
  pose proof (si_requests _ _ _ _ Hi) as Hr. pose proof (requested_promise _ _ _ _ Hi) as Hpr.
  destruct q as [|[p0 j] rest]; [by apply elem_of_nil in Ht|]. destruct Hr as (Hp & (l' & Hf) & Hq).
  apply elem_of_cons in Ht as [[= -> ->]|Hin].
  - rewrite E in Hf. assert (old = prev) as -> by (destruct x; cbn in Hf; destruct_or?; congruence).
    pose proof (si_before _ _ _ _ Hi) as Hb. destruct (sos_current x); [destruct Hb as [Ep Hb]; rewrite Ep|destruct Hb as [?|Hb]];
      [right|by left|right]; eexists; first [exact Hb|exact (proj2 Hb)].
  - destruct (sos_queue_pc _ _ _ _ _ Hq Hin) as (_ & l2 & pr & E2 & Hpr'). rewrite E in E2. injection E2 as _ Eo. rewrite Eo.
    right. exists false. apply Hpr. cbn. apply elem_of_cons. destruct Hpr'; auto.
Qed.

Lemma sos_step_ok s q x prev lbl :
  sos_inv s q x prev → sos_allowed lbl s = true → sos_fine (sos_step lbl s).
Proof.
  intros Hi Ha. destruct lbl as [i l|i l|i]; cbn [sos_step].
  - destruct (sl_threads s i) eqn:E; try done. eapply sos_holds_intro. by eapply sos_call_set_ok.
  - destruct (sl_threads s i) eqn:E; try done. destruct (sos_call_clear_ok _ _ _ _ Hi i l E Ha) as [p H].
    by eapply sos_holds_intro.
  - unfold sos_set_step, sos_clear_step.
    destruct (sl_threads s i) as [|l|l p old|l p|l p|l p|l|l|l| |p|p] eqn:E; try done.
    + eapply sos_holds_intro. by eapply swap_ok.
    + destruct (Z.eqb_spec old NULL) as [Ho|Ho].
      * eapply sos_holds_intro. eapply sos_wait_ok; [done..|by left].
      * destruct (waited_promise _ _ _ _ _ _ _ _ Hi E) as [?|[[] Hb]]; [done| |]; rewrite Hb; cbn; [|done].
        eapply sos_holds_intro. eapply sos_wait_ok; [done..|by right].
    + eapply sos_holds_intro. by eapply set_call_ok.
    + eapply sos_holds_intro. by eapply set_return_ok.
    + destruct (set_next_ok _ _ _ _ Hi i l p E) as [rest H]. by eapply sos_holds_intro.
    + destruct (clear_check_ok _ _ _ _ Hi i l E) as [Hn H]. rewrite (proj2 (Z.eqb_neq _ _) Hn). by eapply sos_holds_intro.
    + destruct (clear_call_ok _ _ _ _ Hi i l E) as [p H]. by eapply sos_holds_intro.
    + destruct (clear_return_ok _ _ _ _ Hi i l E) as [p H]. by eapply sos_holds_intro.
    + destruct (clear_read_ok _ _ _ _ Hi i E) as [p H]. by eapply sos_holds_intro.
    + eapply sos_holds_intro. by eapply clear_null_ok.
    + destruct (clear_put_ok _ _ _ _ Hi i p E) as [Hp H]. unfold sl_put in *. rewrite Hp in H |- *.
      eapply sos_holds_intro. by apply H.
Qed.

Lemma sos_reached s : sos_reachable s → sos_holds s.
Proof.
  induction 1 as [|lbl s s' _ (q & x & prev & IH) Ha Hs]; [eapply sos_holds_intro; exact sos_init_ok|].
  pose proof (sos_step_ok _ _ _ _ _ IH Ha) as H. by rewrite Hs in H.
Qed.

(** What the stage says when a lock is held. *)
Lemma held_stage s q x prev i w : sos_inv s q x prev → sos_at s = Some (Held i, w) → ∃ p, x = TOwned p i.
Proof.
  intros Hi H. rewrite (si_at _ _ _ _ Hi) in H. destruct x; try done. injection H as -> _. by eexists.
Qed.

(** While a lock is held and nobody clears one, threads only line up. *)
Lemma sos_held_step s q x prev h w lbl s' :
  sos_inv s q x prev → sos_at s = Some (Held h, w) → (∀ j l, lbl ≠ ClearLock j l) → sos_step lbl s = Ok s' →
  (∃ w', sos_at s' = Some (Held h, w')) ∧
  (∃ new, sl_trace s' = sl_trace s ++ new ∧ ∀ l j, (l, Grant j) ∉ new) ∧
  ∀ i l p old, sl_threads s i = SWait l p old → sl_threads s' i = SWait l p old.
Proof.
  intros Hi Hat Hno H. destruct (held_stage _ _ _ _ _ _ Hi Hat) as [p0 Ex].
  assert (∀ i pc, (∀ l p old, sl_threads s i ≠ SWait l p old) →
    ∀ k l p old, sl_threads s k = SWait l p old → <[i := pc]> (sl_threads s) k = SWait l p old) as Hkeep.
  { intros i pc Hw k l p old Hk. rewrite fn_lookup_insert_ne; [done|]. intros ->. by apply Hw in Hk. }
  destruct lbl as [i l|i l|i]; cbn [sos_step] in H; [|by destruct (Hno i l)|].
  - destruct (sl_threads s i) eqn:E; try done. injection H as <-. split; [by exists w|].
    split; [|apply Hkeep; by rewrite E]. exists []. split; [by rewrite app_nil_r|]. intros ? ?. apply not_elem_of_nil.
  - unfold sos_set_step, sos_clear_step in H. pose proof (si_threads _ _ _ _ Hi i) as Ht.
    destruct (sl_threads s i) as [|l|l p old|l p|l p|l p|l|l|l| |p|p] eqn:E; try done; cbn in Ht.
    + injection H as <-. split; [|split; [|apply Hkeep; by rewrite E]].
      * exists (w ++ [i]). rewrite (sos_at_app s _ l (Ask i)) by done. by rewrite Hat.
      * exists [(l, Ask i)]. split; [done|]. intros l' j. by intros [=]%list_elem_of_singleton.
    + exfalso. destruct (Z.eqb_spec old NULL) as [Ho|Ho].
      * destruct (wait_over _ _ _ _ Hi i l p old E) as [Ex' _]; [by left|]. congruence.
      * destruct (sl_promises s !! old) as [[]|] eqn:Ep; try done.
        destruct (wait_over _ _ _ _ Hi i l p old E) as [Ex' _]; [by right|]. congruence.
    + exfalso. destruct (head_entry _ _ _ _ Hi i p Ht) as (rest & l' & _ & Hf); [intros ? ?; by rewrite E|].
      rewrite E, Ex in Hf. done.
    + exfalso. destruct (head_entry _ _ _ _ Hi i p Ht) as (rest & l' & _ & Hf); [intros ? ?; by rewrite E|].
      rewrite E, Ex in Hf. done.
    + exfalso. destruct (head_entry _ _ _ _ Hi i p Ht) as (rest & l' & _ & Hf); [intros ? ?; by rewrite E|].
      rewrite E, Ex in Hf. done.
    + destruct Ht; congruence.
    + destruct Ht; congruence.
    + destruct Ht; congruence.
    + destruct Ht; congruence.
    + congruence.
    + congruence.
Qed.

Lemma held_run xs s s' h w :
  sos_reachable s → sos_at s = Some (Held h, w) → Forall (λ x, ∀ j l, x ≠ ClearLock j l) xs → sos_run xs s = Ok s' →
  (∃ new, sl_trace s' = sl_trace s ++ new ∧ ∀ l j, (l, Grant j) ∉ new) ∧
  ∀ i l p old, sl_threads s i = SWait l p old → sl_threads s' i = SWait l p old.
Proof.
  intros Hs Hat Hxs. revert s w Hs Hat. induction Hxs as [|x xs Hx _ IH]; intros s w Hs Hat H; cbn in H.
  - injection H as <-. split; [|done]. exists []. split; [by rewrite app_nil_r|]. intros ? ?. apply not_elem_of_nil.
  - apply bind_Ok in H as (s1 & H1 & H). destruct (sos_reached _ Hs) as (q & x0 & prev & Hi).
    destruct (sos_held_step _ _ _ _ _ _ _ _ Hi Hat Hx H1) as ([w' Hat'] & (n1 & En1 & Hn1) & Hw1).
    destruct (IH s1 w') as ((n2 & En2 & Hn2) & Hw2); [|done..|].
    { eapply sos_reach; [exact Hs| |exact H1]. destruct x; try done. by destruct (Hx i lock). }
    split; [|intros i l p old Hp; by apply Hw2, Hw1]. exists (n1 ++ n2). rewrite En2, En1, app_assoc. split; [done|].
    intros l j [?|?]%elem_of_app; [by eapply Hn1|by eapply Hn2].
Qed.

(** ** Lemmas: what stands still *)

Definition sos_at_rest (s : sos_locks) : Prop := ∀ i, is_ok (sos_step (Step i) s) = false.

Lemma rest_pc s q x prev i : sos_inv s q x prev → sos_at_rest s →
  match sl_threads s i with SIdle | SWait _ _ _ => True | _ => False end.
Proof.
  intros Hi Hr. specialize (Hr i). cbn [sos_step] in Hr. unfold sos_set_step, sos_clear_step in Hr.
  destruct (sl_threads s i) as [|l|l p old|l p|l p|l p|l|l|l| |p|p] eqn:E; try done.
  - destruct (clear_check_ok _ _ _ _ Hi i l E) as [Hn _]. by rewrite (proj2 (Z.eqb_neq _ _) Hn) in Hr.
  - destruct (clear_put_ok _ _ _ _ Hi i p E) as [Hp _]. unfold sl_put in Hr. by rewrite Hp in Hr.
Qed.

Lemma rest_held s q x prev : sos_inv s q x prev → sos_at_rest s → q ≠ [] → ∃ p i, x = TOwned p i.
Proof.
  intros Hi Hr Hq. pose proof (λ i, rest_pc _ _ _ _ i Hi Hr) as Hpc.
  pose proof (si_giver _ _ _ _ Hi) as Hg. pose proof (si_requests _ _ _ _ Hi) as Hreq.
  destruct q as [|[p j] rest]; [done|]. destruct Hreq as (_ & (l & Hf) & _). pose proof (Hpc j) as Hj.
  destruct x as [| | |p' i|p' i|p' i|p' i|p' i|p' i]; cbn in Hf, Hg; try (pose proof (Hpc i) as Hpi).
  - exfalso. destruct Hf as [Hf|Hf]; [|by rewrite Hf in Hj]. specialize (Hr j). cbn [sos_step] in Hr.
    rewrite Hf in Hr. unfold sos_set_step in Hr. rewrite Hf in Hr.
    destruct (si_before _ _ _ _ Hi) as [Hb|Hb]; [by rewrite Hb in Hr|]. destruct (prev =? NULL); [done|]. by rewrite Hb in Hr.
  - by rewrite Hf in Hj.
  - by rewrite Hf in Hj.
  - by exists p', i.
  - destruct Hg as (l' & [E|E]); by rewrite E in Hpi.
  - destruct Hg as (l' & E); by rewrite E in Hpi.
  - by rewrite Hg in Hpi.
  - by rewrite Hg in Hpi.
  - by rewrite Hg in Hpi.
Qed.

(** ** Properties *)

(** C28: All locks of this module together are one fair queue.  Whatever the tasks of
    the processing element do, as long as they clear a lock only when one is held,
    what happens at all locks is a run of the [fifo_step] of a single lock: requests
    get their locks one at a time, whichever locks they are for, and in the order in
    which they asked; each call of the library returns before the next; no assertion
    fails and no promise is put twice.  When no thread can go on, each is idle or
    waits for its turn while a lock is held. *)
Theorem sos_locks_refine_fifo s :
  sos_reachable s →
  is_Some (sos_at s) ∧
  (∀ lbl e, sos_allowed lbl s = true → sos_step lbl s = Err e → e = Disabled) ∧
  (sos_at_rest s → ∀ i, sl_threads s i = SIdle ∨ ∃ l p old, sl_threads s i = SWait l p old ∧ sos_held s = true).
Proof.
  intros (q & x & prev & Hi)%sos_reached. split; [rewrite (si_at _ _ _ _ Hi); by eexists|]. split.
  - intros lbl e Ha E. pose proof (sos_step_ok _ _ _ _ _ Hi Ha) as H. by rewrite E in H.
  - intros Hr i. pose proof (rest_pc _ _ _ _ i Hi Hr) as Hpc. pose proof (si_threads _ _ _ _ Hi i) as Ht.
    destruct (sl_threads s i) as [| |l p old| | | | | | | | |]; try done; [by left|right].
    exists l, p, old. split; [done|].
    assert (q ≠ []) as Hq by (intros Eq; rewrite Eq in Ht; by apply elem_of_nil in Ht).
    destruct (rest_held _ _ _ _ Hi Hr Hq) as (p' & j & Ex).
    unfold sos_held. by rewrite (si_at _ _ _ _ Hi), Ex.
Qed.

(** C29: A task that holds one lock and asks for another waits for itself: until some
    other task clears the lock on its behalf, it stays where it is, and no request of
    any thread for any lock is granted. *)
Theorem sos_nested_lock_waits_forever s i waiting l p old xs s' :
  sos_reachable s → sos_at s = Some (Held i, waiting) → sl_threads s i = SWait l p old →
  Forall (λ x, ∀ j l', x ≠ ClearLock j l') xs → sos_run xs s = Ok s' →
  sl_threads s' i = SWait l p old ∧
  ∃ new, sl_trace s' = sl_trace s ++ new ∧ ∀ l' j, (l', Grant j) ∉ new.
Proof.
  intros Hs Hat Hw Hxs H. destruct (held_run _ _ _ _ _ Hs Hat Hxs H) as [Hn Hk]. split; [by apply Hk|done].
Qed.

(** ** Witnesses *)

Lemma sos_run_reachable xs s s' :
  sos_reachable s → forallb (λ x, match x with ClearLock _ _ => false | _ => true end) xs = true →
  sos_run xs s = Ok s' → sos_reachable s'.
Proof.
  revert s. induction xs as [|x xs IH]; intros s Hs Hx H; cbn in H, Hx; [by injection H as <-|].
  apply andb_true_iff in Hx as [Hx1 Hx2]. apply bind_Ok in H as (s1 & H1 & H).
  eapply IH; [|done|exact H]. eapply sos_reach; [exact Hs| |exact H1]. by destruct x.
Qed.

(** Thread 0 sets lock 100 and asks for lock 200. *)
Definition nested_locks : list sos_label :=
  [SetLock 0 100; Step 0; Step 0; Step 0; Step 0; Step 0; SetLock 0 200; Step 0].

Lemma sos_locks_refine_fifo_witness :
  ∃ s, sos_run nested_locks no_sos_locks = Ok s ∧ sos_at s = Some (Held 0%nat, [0%nat]) ∧
    ∀ i, sl_threads s i = SIdle ∨ ∃ l p old, sl_threads s i = SWait l p old ∧ sos_held s = true.
Proof.
  destruct (sos_run nested_locks no_sos_locks) as [s|] eqn:E; [|by vm_compute in E].
  exists s. split; [done|]. assert (sos_reachable s) as Hs.
  { eapply (sos_run_reachable nested_locks); [apply sos_init|done|exact E]. }
  split; [clear Hs; vm_compute in E; injection E as <-; by vm_compute|].
  apply (proj2 (proj2 (sos_locks_refine_fifo s Hs))).
  clear Hs. intros i. vm_compute in E. injection E as <-. by destruct i.
Defined.

Lemma sos_nested_lock_waits_forever_witness :
  ∃ s s', sos_run nested_locks no_sos_locks = Ok s ∧ sos_run [SetLock 1 100; Step 1] s = Ok s' ∧
    sl_threads s' 0%nat = SWait 200 2 1 ∧ ∃ new, sl_trace s' = sl_trace s ++ new ∧ ∀ l' j, (l', Grant j) ∉ new.
Proof.
  destruct (sos_run nested_locks no_sos_locks) as [s|] eqn:E; [|by vm_compute in E].
  destruct (sos_run [SetLock 1 100; Step 1] s) as [s'|] eqn:E'; [|vm_compute in E; injection E as <-; by vm_compute in E'].
  exists s, s'. split; [done|]. split; [done|].
  apply (sos_nested_lock_waits_forever s 0 [0%nat] 200 2 1 [SetLock 1 100; Step 1] s').
  - eapply (sos_run_reachable nested_locks); [apply sos_init|done|exact E].
  - clear E'. vm_compute in E. injection E as <-. by vm_compute.
  - clear E'. vm_compute in E. injection E as <-. by vm_compute.
  - by repeat constructor.
  - exact E'.
Defined.
