(* ===== verification/Sos.v ===== *)
(** * The Sandia OpenSHMEM module

    [src/modules/sos/src/hclib_sos.cpp]: operations that go through the locale of
    the network interface, like those of [OpenShmem], and operations that a
    worker does at once on the context of the library that is its own.  The
    handles of domains and contexts are the library's; each worker keeps its pair
    in its module state.  The macros for tracing are off. *)

From S2P Require Import Prelude Deque Locality LocalityRun Pool Runtime RuntimeHeap RuntimeStack RuntimeStep RuntimeSafe RuntimeScopes RuntimeMoves RuntimeOwner RuntimeCalls RuntimeBlocking CppAsync Comm.
From stdpp Require Import strings options.

#[local] Open Scope Z_scope.

(** ** State of the module *)

(** [worker_states] is what each worker has at [domain_ctx_id] of its module
    state: a domain and a context.

    src/modules/sos/src/hclib_sos.cpp:94-97 (contexts) *)
Record sos_state := mkSos {
  nthreads : Z;
  domains : list Z;
  contexts : list Z;
  worker_states : list (Z * Z)
}.

(** src/modules/sos/src/hclib_sos.cpp:162-169 (init_sos_state) *)
Definition init_sos_state (domains contexts : list Z) (tid : Z) : res (Z * Z) :=
  domain ← array_get domains tid;
  ctx ← array_get contexts tid;
  Ok (domain, ctx).

(** The callback on each worker in turn, as [hclib_add_per_worker_module_state]
    does it. *)
Fixpoint init_workers (domains contexts : list Z) (tid : Z) (rounds : nat) : res (list (Z * Z)) :=
  match rounds with
  | O => Ok []
  | Datatypes.S rounds =>
      x ← init_sos_state domains contexts tid;
      xs ← init_workers domains contexts (tid + 1) rounds;
      Ok (x :: xs)
  end.

Section initialize.
(** What the library returns: error codes and handles. *)
Context (shmemx_domain_create : Z → Z * list Z) (shmemx_ctx_create : Z → Z * Z).

(** src/modules/sos/src/hclib_sos.cpp:202-205 (sos_post_initialize) *)
Fixpoint create_contexts (domains : list Z) (i : Z) (rounds : nat) : res (list Z) :=
  match rounds with
  | O => Ok []
  | Datatypes.S rounds =>
      domain ← array_get domains i;
      let '(err, ctx) := shmemx_ctx_create domain in
      _ ← hassert (err =? 0);
      ctxs ← create_contexts domains (i + 1) rounds;
      Ok (ctx :: ctxs)
  end.

(** The locale of the network interface comes with the state.

    src/modules/sos/src/hclib_sos.cpp:182-249 (sos_post_initialize) *)
Definition sos_post_initialize (cx : hclib_context) (nic_locale_id num_workers : Z)
    (desired_thread_safety provided_thread_safety : Z) : res (Z * sos_state) :=
  _ ← hassert (provided_thread_safety =? desired_thread_safety);
  let '(err, domains) := shmemx_domain_create num_workers in
  _ ← hassert (err =? 0);
  contexts ← create_contexts domains 0 (Z.to_nat num_workers);
  states ← init_workers domains contexts 0 (Z.to_nat num_workers);
  let nics := hclib_get_all_locales_of_type cx nic_locale_id in
  _ ← hassert (Z.of_nat (length nics) =? 1);
  nic ← array_get nics 0;
  Ok (nic, mkSos num_workers domains contexts states).
End initialize.

Section sos.
Context `{!Linker} (st : sos_state) (nic : Z).

(** src/modules/sos/src/hclib_sos.cpp:171-180 (release_sos_state) *)
Definition release_sos_state (x : Z * Z) : list extern_call :=
  let '(domain, ctx) := x in
  [library "shmemx_ctx_quiet" [ctx]; library "shmemx_ctx_destroy" [ctx];
   library "shmemx_domain_destroy" [1; domain]].

(** The calls that end the module, worker by worker.

    src/modules/sos/src/hclib_sos.cpp:251-255 (sos_finalize) *)
Definition sos_finalize : list extern_call :=
  flat_map release_sos_state (worker_states st) ++ [library "shmem_finalize" []].

(** ** Operations *)

(** The context of the worker that asks.

    src/modules/sos/src/hclib_sos.cpp:426-429 (shmem_getmem) *)
Definition with_ctx (f : Z → code) : code :=
  Current_worker (λ wid,
    match array_get (worker_states st) wid with
    | Ok (_, ctx) => f ctx
    | Err e => Abort e
    end).

(** src/modules/sos/src/hclib_sos.cpp:257-259 (shmem_my_pe) *)
Definition shmem_my_pe (k : Z → code) : code := Call (symbol "shmem_my_pe") [] k.

(** src/modules/sos/src/hclib_sos.cpp:261-263 (shmem_n_pes) *)
Definition shmem_n_pes (k : Z → code) : code := Call (symbol "shmem_n_pes") [] k.

(** src/modules/sos/src/hclib_sos.cpp:265-283 (shmem_malloc) *)
Definition shmem_malloc (size : Z) (k : Z → code) : code :=
  Cell_new (λ out_alloc,
    finish (async_nb_at
        (Call (symbol "shmem_malloc") [size] (λ v, Cell_set out_alloc v (Return NULL))) (Some nic))
      (Cell_get out_alloc (λ allocated, Cell_free out_alloc (k allocated)))).

(** src/modules/sos/src/hclib_sos.cpp:285-297 (shmem_free) *)
Definition shmem_free (ptr : Z) (k : code) : code :=
  finish (async_nb_at (Call (symbol "shmem_free") [ptr] (λ _, Return NULL)) (Some nic)) k.

(** src/modules/sos/src/hclib_sos.cpp:300-302 (shmem_barrier_all) *)
Fixpoint quiet_loop (i : Z) (rounds : nat) (k : code) : code :=
  match rounds with
  | O => k
  | Datatypes.S rounds =>
      match array_get (contexts st) i with
      | Ok ctx => Call (symbol "shmemx_ctx_quiet") [ctx] (λ _, quiet_loop (i + 1) rounds k)
      | Err e => Abort e
      end
  end.

(** src/modules/sos/src/hclib_sos.cpp:299-314 (shmem_barrier_all) *)
Definition shmem_barrier_all (k : code) : code :=
  quiet_loop 0 (Z.to_nat (nthreads st))
    (finish (async_nb_at (Call (symbol "shmem_barrier_all") [] (λ _, Return NULL)) (Some nic)) k).

(** src/modules/sos/src/hclib_sos.cpp:316-324 (shmem_fence) *)
Definition shmem_fence (k : code) : code :=
  finish (async_nb_at (Call (symbol "shmem_fence") [] (λ _, Return NULL)) (Some nic)) k.

(** src/modules/sos/src/hclib_sos.cpp:326-334 (shmem_quiet) *)
Definition shmem_quiet (k : code) : code :=
  finish (async_nb_at (Call (symbol "shmem_quiet") [] (λ _, Return NULL)) (Some nic)) k.

(** src/modules/sos/src/hclib_sos.cpp:336-349 (shmem_put64) *)
Definition shmem_put64 (dest source nelems pe : Z) (k : code) : code :=
  finish (async_nb_at (
    Call (symbol "shmem_put64") [dest; source; nelems; pe] (λ _, Return NULL)) (Some nic)) k.

(** src/modules/sos/src/hclib_sos.cpp:351-368 (shmem_broadcast64) *)
Definition shmem_broadcast64 (dest source nelems PE_root PE_start logPE_stride PE_size pSync : Z)
    (k : code) : code :=
  finish (async_nb_at (
    Call (symbol "shmem_broadcast64")
      [dest; source; nelems; PE_root; PE_start; logPE_stride; PE_size; pSync]
      (λ _, Return NULL)) (Some nic)) k.

(** src/modules/sos/src/hclib_sos.cpp:410-423 (shmem_int_get) *)
Definition shmem_int_get (dest source nelems pe : Z) (k : code) : code :=
  finish (async_nb_at (
    Call (symbol "shmem_int_get") [dest; source; nelems; pe] (λ _, Return NULL)) (Some nic)) k.

(** src/modules/sos/src/hclib_sos.cpp:425-432 (shmem_getmem) *)
Definition shmem_getmem (dest source nelems pe : Z) (k : code) : code :=
  with_ctx (λ ctx, Call (symbol "shmemx_ctx_getmem") [dest; source; nelems; pe; ctx] (λ _, k)).

(** src/modules/sos/src/hclib_sos.cpp:434-441 (shmem_putmem) *)
Definition shmem_putmem (dest source nelems pe : Z) (k : code) : code :=
  with_ctx (λ ctx, Call (symbol "shmemx_ctx_putmem") [dest; source; nelems; pe; ctx] (λ _, k)).

(** src/modules/sos/src/hclib_sos.cpp:443-450 (shmem_int_put) *)
Definition shmem_int_put (dest source nelems pe : Z) (k : code) : code :=
  with_ctx (λ ctx, Call (symbol "shmemx_ctx_int_put") [dest; source; nelems; pe; ctx] (λ _, k)).

(** src/modules/sos/src/hclib_sos.cpp:452-461 (shmem_char_put_nbi) *)
Definition shmem_char_put_nbi (dest source nelems pe : Z) (k : code) : code :=
  finish (async_nb_at (
    Call (symbol "shmem_char_put_nbi") [dest; source; nelems; pe] (λ _, Return NULL)) (Some nic)) k.

(** src/modules/sos/src/hclib_sos.cpp:463-475 (shmem_char_put_signal_nbi) *)
Definition shmem_char_put_signal_nbi (dest source nelems signal_dest signal_source signal_nelems pe : Z)
    (k : code) : code :=
  finish (async_nb_at
      (Call (symbol "shmem_char_put_nbi") [dest; source; nelems; pe] (λ _,
         Call (symbol "shmem_fence") [] (λ _,
           Call (symbol "shmem_char_put_nbi") [signal_dest; signal_source; signal_nelems; pe] (λ _,
             Return NULL)))) (Some nic)) k.

(** src/modules/sos/src/hclib_sos.cpp:477-489 (shmem_int_add) *)
Definition shmem_int_add (dest value pe : Z) (k : code) : code :=
  finish (async_nb_at (
    Call (symbol "shmem_int_add") [dest; value; pe] (λ _, Return NULL)) (Some nic)) k.

(** src/modules/sos/src/hclib_sos.cpp:491-499 (shmem_longlong_fadd) *)
Definition shmem_longlong_fadd (target value pe : Z) (k : Z → code) : code :=
  with_ctx (λ ctx, Call (symbol "shmemx_ctx_longlong_fadd") [target; value; pe; ctx] k).

(** src/modules/sos/src/hclib_sos.cpp:501-520 (shmem_int_fadd) *)
Definition shmem_int_fadd (dest value pe : Z) (k : Z → code) : code :=
  Cell_new (λ heap_fetched,
    finish (async_nb_at
        (Call (symbol "shmem_int_fadd") [dest; value; pe] (λ v, Cell_set heap_fetched v (Return NULL))) (Some nic))
      (Cell_get heap_fetched (λ fetched, Cell_free heap_fetched (k fetched)))).

(** src/modules/sos/src/hclib_sos.cpp:522-529 (shmem_int_swap) *)
Definition shmem_int_swap (dest value pe : Z) (k : Z → code) : code :=
  with_ctx (λ ctx, Call (symbol "shmemx_ctx_int_swap") [dest; value; pe; ctx] k).

(** src/modules/sos/src/hclib_sos.cpp:531-538 (shmem_int_cswap) *)
Definition shmem_int_cswap (dest cond value pe : Z) (k : Z → code) : code :=
  with_ctx (λ ctx, Call (symbol "shmemx_ctx_int_cswap") [dest; cond; value; pe; ctx] k).

(** src/modules/sos/src/hclib_sos.cpp:540-547 (shmem_long_finc) *)
Definition shmem_long_finc (dest pe : Z) (k : Z → code) : code :=
  with_ctx (λ ctx, Call (symbol "shmemx_ctx_long_finc") [dest; pe; ctx] k).

(** src/modules/sos/src/hclib_sos.cpp:549-556 (shmem_int_finc) *)
Definition shmem_int_finc (dest pe : Z) (k : Z → code) : code :=
  with_ctx (λ ctx, Call (symbol "shmemx_ctx_int_finc") [dest; pe; ctx] k).

(** src/modules/sos/src/hclib_sos.cpp:558-577 (shmem_int_sum_to_all) *)
Definition shmem_int_sum_to_all (target source nreduce PE_start logPE_stride PE_size pWrk pSync : Z)
    (k : code) : code :=
  finish (async_nb_at (
    Call (symbol "shmem_int_sum_to_all")
      [target; source; nreduce; PE_start; logPE_stride; PE_size; pWrk; pSync]
      (λ _, Return NULL)) (Some nic)) k.

(** src/modules/sos/src/hclib_sos.cpp:579-599 (shmem_longlong_sum_to_all) *)
Definition shmem_longlong_sum_to_all (target source nreduce PE_start logPE_stride PE_size pWrk pSync : Z)
    (k : code) : code :=
  finish (async_nb_at (
    Call (symbol "shmem_longlong_sum_to_all")
      [target; source; nreduce; PE_start; logPE_stride; PE_size; pWrk; pSync]
      (λ _, Return NULL)) (Some nic)) k.

(** src/modules/sos/src/hclib_sos.cpp:601-613 (shmem_longlong_max_to_all) *)
Definition shmem_longlong_max_to_all (target source nreduce PE_start logPE_stride PE_size pWrk pSync : Z)
    (k : code) : code :=
  finish (async_nb_at (
    Call (symbol "shmem_longlong_max_to_all")
      [target; source; nreduce; PE_start; logPE_stride; PE_size; pWrk; pSync]
      (λ _, Return NULL)) (Some nic)) k.

(** src/modules/sos/src/hclib_sos.cpp:615-627 (shmem_longlong_p) *)
Definition shmem_longlong_p (addr value pe : Z) (k : code) : code :=
  finish (async_nb_at (
    Call (symbol "shmem_longlong_p") [addr; value; pe] (λ _, Return NULL)) (Some nic)) k.

(** src/modules/sos/src/hclib_sos.cpp:629-643 (shmem_longlong_put) *)
Definition shmem_longlong_put (dest src nelems pe : Z) (k : code) : code :=
  finish (async_nb_at (
    Call (symbol "shmem_longlong_put") [dest; src; nelems; pe] (λ _, Return NULL)) (Some nic)) k.

(** src/modules/sos/src/hclib_sos.cpp:645-658 (shmem_collect32) *)
Definition shmem_collect32 (dest source nelems PE_start logPE_stride PE_size pSync : Z)
    (k : code) : code :=
  finish (async_nb_at (
    Call (symbol "shmem_collect32")
      [dest; source; nelems; PE_start; logPE_stride; PE_size; pSync]
      (λ _, Return NULL)) (Some nic)) k.

(** src/modules/sos/src/hclib_sos.cpp:660-674 (shmem_fcollect64) *)
Definition shmem_fcollect64 (dest source nelems PE_start logPE_stride PE_size pSync : Z)
    (k : code) : code :=
  finish (async_nb_at (
    Call (symbol "shmem_fcollect64")
      [dest; source; nelems; PE_start; logPE_stride; PE_size; pSync]
      (λ _, Return NULL)) (Some nic)) k.

(** The operations that wait for the library, with the calls that they stand for. *)
Inductive operation : code → (code → Prop) → list extern_call → Prop :=
  | op_my_pe k : operation (shmem_my_pe k) (returned k) [library "shmem_my_pe" []]
  | op_n_pes k : operation (shmem_n_pes k) (returned k) [library "shmem_n_pes" []]
  | op_malloc size k : operation (shmem_malloc size k) (returned k) [library "shmem_malloc" [size]]
  | op_free ptr k : operation (shmem_free ptr k) (behind k) [library "shmem_free" [ptr]]
  | op_fence k : operation (shmem_fence k) (behind k) [library "shmem_fence" []]
  | op_quiet k : operation (shmem_quiet k) (behind k) [library "shmem_quiet" []]
  | op_put64 dest source nelems pe k :
      operation (shmem_put64 dest source nelems pe k) (behind k)
        [library "shmem_put64" [dest; source; nelems; pe]]
  | op_broadcast64 dest source nelems PE_root PE_start logPE_stride PE_size pSync k :
      operation (shmem_broadcast64 dest source nelems PE_root PE_start logPE_stride PE_size pSync k) (behind k)
        [library "shmem_broadcast64" [dest; source; nelems; PE_root; PE_start; logPE_stride; PE_size; pSync]]
  | op_int_get dest source nelems pe k :
      operation (shmem_int_get dest source nelems pe k) (behind k)
        [library "shmem_int_get" [dest; source; nelems; pe]]
  | op_char_put_nbi dest source nelems pe k :
      operation (shmem_char_put_nbi dest source nelems pe k) (behind k)
        [library "shmem_char_put_nbi" [dest; source; nelems; pe]]
  | op_char_put_signal_nbi dest source nelems signal_dest signal_source signal_nelems pe k :
      operation (shmem_char_put_signal_nbi dest source nelems signal_dest signal_source signal_nelems pe k) (behind k)
        [library "shmem_char_put_nbi" [dest; source; nelems; pe]
         ; library "shmem_fence" []
         ; library "shmem_char_put_nbi" [signal_dest; signal_source; signal_nelems; pe]]
  | op_int_add dest value pe k :
      operation (shmem_int_add dest value pe k) (behind k)
        [library "shmem_int_add" [dest; value; pe]]
  | op_int_fadd dest value pe k :
      operation (shmem_int_fadd dest value pe k) (returned k)
        [library "shmem_int_fadd" [dest; value; pe]]
  | op_int_sum_to_all target source nreduce PE_start logPE_stride PE_size pWrk pSync k :
      operation (shmem_int_sum_to_all target source nreduce PE_start logPE_stride PE_size pWrk pSync k) (behind k)
        [library "shmem_int_sum_to_all" [target; source; nreduce; PE_start; logPE_stride; PE_size; pWrk; pSync]]
  | op_longlong_sum_to_all target source nreduce PE_start logPE_stride PE_size pWrk pSync k :
      operation (shmem_longlong_sum_to_all target source nreduce PE_start logPE_stride PE_size pWrk pSync k) (behind k)
        [library "shmem_longlong_sum_to_all" [target; source; nreduce; PE_start; logPE_stride; PE_size; pWrk; pSync]]
  | op_longlong_max_to_all target source nreduce PE_start logPE_stride PE_size pWrk pSync k :
      operation (shmem_longlong_max_to_all target source nreduce PE_start logPE_stride PE_size pWrk pSync k) (behind k)
        [library "shmem_longlong_max_to_all" [target; source; nreduce; PE_start; logPE_stride; PE_size; pWrk; pSync]]
  | op_longlong_p addr value pe k :
      operation (shmem_longlong_p addr value pe k) (behind k)
        [library "shmem_longlong_p" [addr; value; pe]]
  | op_longlong_put dest src nelems pe k :
      operation (shmem_longlong_put dest src nelems pe k) (behind k)
        [library "shmem_longlong_put" [dest; src; nelems; pe]]
  | op_collect32 dest source nelems PE_start logPE_stride PE_size pSync k :
      operation (shmem_collect32 dest source nelems PE_start logPE_stride PE_size pSync k) (behind k)
        [library "shmem_collect32" [dest; source; nelems; PE_start; logPE_stride; PE_size; pSync]]
  | op_fcollect64 dest source nelems PE_start logPE_stride PE_size pSync k :
      operation (shmem_fcollect64 dest source nelems PE_start logPE_stride PE_size pSync k) (behind k)
        [library "shmem_fcollect64" [dest; source; nelems; PE_start; logPE_stride; PE_size; pSync]]
  | op_barrier_all k :
      operation (shmem_barrier_all k) (behind k)
        (((λ ctx, library "shmemx_ctx_quiet" [ctx]) <$> contexts st) ++ [library "shmem_barrier_all" []]).

(** The operations on a worker's own context, with the call on the context. *)
Inductive direct : code → (Z → extern_call) → (Z → code) → Prop :=
  | op_getmem dest source nelems pe k :
      direct (shmem_getmem dest source nelems pe k) (λ ctx, library "shmemx_ctx_getmem" [dest; source; nelems; pe; ctx]) (λ _, k)
  | op_putmem dest source nelems pe k :
      direct (shmem_putmem dest source nelems pe k) (λ ctx, library "shmemx_ctx_putmem" [dest; source; nelems; pe; ctx]) (λ _, k)
  | op_int_put dest source nelems pe k :
      direct (shmem_int_put dest source nelems pe k) (λ ctx, library "shmemx_ctx_int_put" [dest; source; nelems; pe; ctx]) (λ _, k)
  | op_longlong_fadd target value pe k :
      direct (shmem_longlong_fadd target value pe k) (λ ctx, library "shmemx_ctx_longlong_fadd" [target; value; pe; ctx]) k
  | op_int_swap dest value pe k :
      direct (shmem_int_swap dest value pe k) (λ ctx, library "shmemx_ctx_int_swap" [dest; value; pe; ctx]) k
  | op_int_cswap dest cond value pe k :
      direct (shmem_int_cswap dest cond value pe k) (λ ctx, library "shmemx_ctx_int_cswap" [dest; cond; value; pe; ctx]) k
  | op_long_finc dest pe k :
      direct (shmem_long_finc dest pe k) (λ ctx, library "shmemx_ctx_long_finc" [dest; pe; ctx]) k
  | op_int_finc dest pe k :
      direct (shmem_int_finc dest pe k) (λ ctx, library "shmemx_ctx_int_finc" [dest; pe; ctx]) k.

(** ** Lemmas *)

(** What initialisation gives. *)
Record sos_ok : Prop := {
  ok_threads : nthreads st = Z.of_nat (length (contexts st));
  ok_workers : ∀ w x, 0 <= w → worker_states st !! Z.to_nat w = Some x →
    contexts st !! Z.to_nat w = Some x.2
}.

Lemma quiet_loop_leads i rounds c k :
  0 <= i → i + Z.of_nat rounds <= Z.of_nat (length (contexts st)) → tc next c k →
  tc next (quiet_loop i rounds c) k.
Proof.
  revert i. induction rounds as [|rounds IH]; intros i Hi Hle Hc; [done|]. cbn [quiet_loop].
  destruct (contexts st !! Z.to_nat i) as [x|] eqn:E; [|apply lookup_ge_None in E; lia].
  rewrite (array_get_in _ _ x) by done. eapply tc_l; [apply (next_call _ _ _ NULL)|]. apply IH; [lia..|done].
Qed.

Lemma quiet_loop_bound es i rounds k c :
  0 <= i → i + Z.of_nat rounds <= Z.of_nat (length (contexts st)) → tc next c k →
  bound (call_is <$> es) (behind k) c →
  bound (call_is <$> ((λ ctx, library "shmemx_ctx_quiet" [ctx]) <$> take rounds (skipn (Z.to_nat i) (contexts st))) ++ es)
    (behind k) (quiet_loop i rounds c).
Proof.
  revert i. induction rounds as [|rounds IH]; intros i Hi Hle Hc Hes; [done|].
  pose proof (not_behind _ _ (quiet_loop_leads i (Datatypes.S rounds) c k Hi Hle Hc)) as Hnot.
  cbn [quiet_loop] in *.
  destruct (contexts st !! Z.to_nat i) as [x|] eqn:E; [|apply lookup_ge_None in E; lia].
  rewrite (array_get_in _ _ x) in * by done. rewrite (drop_S _ _ _ E).
  apply bound_call_is; [done|reflexivity|]. intros _.
  replace (Datatypes.S (Z.to_nat i)) with (Z.to_nat (i + 1)) by lia. apply IH; [lia..|done|done].
Qed.

Lemma sos_operation_bound c stop es : sos_ok → operation c stop es → bound (call_is <$> es) stop c.
Proof.
  intros Hok []; try (by apply bound_finish; [makes_all|auto with comm..]);
    try (by apply bound_call_is; [auto with comm|reflexivity|intros ?; constructor]);
    try (by apply bound_cell; [auto with comm|intros a; apply bound_finish; [makes_all|auto with comm..]]).
  unfold shmem_barrier_all. rewrite (ok_threads Hok), Nat2Z.id.
  epose proof (quiet_loop_bound _ 0 (length (contexts st)) k _) as Hq.
  change (skipn (Z.to_nat 0) (contexts st)) with (contexts st) in Hq. rewrite firstn_all in Hq.
  apply Hq; [lia..|leads_on|]. apply bound_finish; [makes_all|auto with comm..].
Qed.
End sos.

(** Every worker gets its domain and its context. *)
Lemma init_workers_lookup doms ctxs i rounds xs :
  init_workers doms ctxs i rounds = Ok xs → 0 <= i →
  length xs = rounds ∧ ∀ j x, xs !! j = Some x → ctxs !! (Z.to_nat i + j)%nat = Some x.2.
Proof.
  revert i xs. induction rounds as [|rounds IH]; intros i xs H Hi; cbn [init_workers] in H.
  - injection H as <-. split; [done|]. intros j x. by rewrite lookup_nil.
  - unfold init_sos_state in H. res_inv. edestruct IH as [Hl Hx]; [eassumption|lia|].
    split; [cbn; congruence|]. intros [|j] y; cbn.
    + intros [= <-]. cbn. by rewrite Nat.add_0_r.
    + intros Hj. replace (Z.to_nat i + Datatypes.S j)%nat with (Z.to_nat (i + 1) + j)%nat by lia. by apply Hx.
Qed.

Lemma create_contexts_length shmemx_ctx_create doms i rounds ctxs :
  create_contexts shmemx_ctx_create doms i rounds = Ok ctxs → length ctxs = rounds.
Proof.
  revert i ctxs. induction rounds as [|rounds IH]; intros i ctxs H; cbn [create_contexts] in H; [by injection H as <-|].
  apply bind_Ok in H as (d & _ & H). destruct (shmemx_ctx_create d) as [err ctx]. res_inv.
  cbn. f_equal. by eapply IH.
Qed.

Lemma sos_post_initialize_ok shmemx_domain_create shmemx_ctx_create cx id n t1 t2 nic st :
  sos_post_initialize shmemx_domain_create shmemx_ctx_create cx id n t1 t2 = Ok (nic, st) → 0 <= n →
  sos_ok st ∧ length (worker_states st) = Z.to_nat n.
Proof.
  intros H Hn. unfold sos_post_initialize in H. apply bind_Ok in H as (_ & _ & H).
  destruct (shmemx_domain_create n) as [err doms]. res_inv. cbn.
  edestruct init_workers_lookup as [Hl Hx]; [eassumption|lia|]. split; [|done]. split; cbn.
  - erewrite create_contexts_length by eassumption. lia.
  - intros w y _ Hw. exact (Hx _ _ Hw).
Qed.

(** ** Properties *)

Section properties.
Context {S : Type} `{!TaskPool S} {EX : Externs} `{!Linker}.
Context (shmemx_domain_create : Z → Z * list Z) (shmemx_ctx_create : Z → Z * Z).
#[local] Set Default Proof Using "Type*".

(** The operations of the module that go through the network interface wait:
    when the stack that called one goes on behind it, the calls of the library
    that it stands for have all been made, in their order.  For
    [shmem_barrier_all] these are a [shmemx_ctx_quiet] of the context of every
    worker, so also of those on which other workers have put, and then the
    barrier. *)
Theorem sos_operations_wait (p : S) n main locale s0 s2 cx id num t1 t2 nic st c d stop es :
  sos_post_initialize shmemx_domain_create shmemx_ctx_create cx id num t1 t2 = Ok (nic, st) → 0 <= num →
  run_between p n main locale s0 s2 c d → operation st nic c stop es → stop d →
  called_since (length (calls s0)) (call_is <$> es) s2.
Proof.
  intros Hinit Hnum Hr Ho Hd. destruct (sos_post_initialize_ok _ _ _ _ _ _ _ _ _ Hinit Hnum) as [Hok _].
  eapply bound_called; [exact Hr|by eapply sos_operation_bound|exact Hd].
Qed.

(** Operations on a worker's own context.  The worker makes one call of the
    library at once, on the context made for it, and the operation returns the
    library's value; the context is one of those that [shmem_barrier_all]
    quiets. *)
Theorem sos_direct_own_context cx id num t1 t2 nic st c call k w (s : rt S) :
  sos_post_initialize shmemx_domain_create shmemx_ctx_create cx id num t1 t2 = Ok (nic, st) →
  direct st c call k → current_ctl w s = Some (Run c) → 0 <= w < num →
  ∃ ctx s', contexts st !! Z.to_nat w = Some ctx ∧ run [w; w] s = Ok (tt, s') ∧
    calls s' = calls s ++ [call ctx] ∧
    current_ctl w s' = Some (Run (k (extern (calls s) (call ctx).1 (call ctx).2))).
Proof.
  intros Hinit Hd Hc Hw. destruct (sos_post_initialize_ok _ _ _ _ _ _ _ _ _ Hinit ltac:(lia)) as [Hok Hl].
  destruct (lookup_lt_is_Some_2 (worker_states st) (Z.to_nat w)) as [[dom ctx] Hx]; [lia|].
  pose proof (ok_workers _ Hok w _ (proj1 Hw) Hx) as Hctx. cbn in Hctx. exists ctx.
  assert (∀ f, current_ctl w s = Some (Run (with_ctx st f)) → ∃ s1, step w s = Ok (tt, s1) ∧
    current_ctl w s1 = Some (Run (f ctx)) ∧ calls s1 = calls s) as Hctl.
  { intros f (s1 & H1 & Hc1 & E)%step_current_worker. exists s1. split; [done|]. split; [|done].
    by rewrite Hc1, (array_get_in _ _ _ (proj1 Hw) Hx). }
  assert (∀ f args k', current_ctl w s = Some (Run (with_ctx st (λ ctx, Call f (args ctx) k'))) →
    ∃ s', run [w; w] s = Ok (tt, s') ∧ calls s' = calls s ++ [(f, args ctx)] ∧
      current_ctl w s' = Some (Run (k' (extern (calls s) f (args ctx))))) as Hrun.
  { intros f args k' (s1 & H1 & Hc1 & E1)%Hctl. apply step_call in Hc1 as (s2 & H2 & Hc2 & E2).
    exists s2. rewrite E1 in Hc2, E2. split; [|done]. cbn [run]. unfold mbind, M_bind. by rewrite H1, H2. }
  destruct Hd; (apply Hrun in Hc as (s' & H1 & H2 & H3); by exists s').
Qed.
End properties.

(** ** Concrete runs

    Two workers, and a graph whose only locale is a network interface. *)
#[local] Existing Instance by_length.

Definition nic_context : hclib_context :=
  mkContext (mkGraph [mkLocale 0 5 [] None NULL [] None []] []) [].

Definition two_domains (n : Z) : Z * list Z := (0, (λ i, 100 + Z.of_nat i) <$> seq 0 (Z.to_nat n)).
Definition context_of_domain (domain : Z) : Z * Z := (0, domain + 100).

Definition two_contexts : sos_state := mkSos 2 [100; 101] [200; 201] [(100, 200); (101, 201)].

Lemma two_contexts_init :
  sos_post_initialize two_domains context_of_domain nic_context 5 2 3 3 = Ok (0, two_contexts).
Proof. reflexivity. Qed.

Definition barrier : code := shmem_barrier_all two_contexts 0 (Return NULL).
Definition barrier_steps : list Z := replicate 5 0 ++ replicate 8 1 ++ [0].
Definition barrier_frames : list frame := [F_execute 4 3; F_find; F_help 0 3 0 (Return NULL); F_finalize].

Lemma sos_operations_wait_witness :
  calls (first_part barrier (replicate 6 0)) = [] ∧
  called_since 0 (call_is <$> [library "shmemx_ctx_quiet" [200]; library "shmemx_ctx_quiet" [201];
    library "shmem_barrier_all" []]) (second_part barrier (replicate 6 0) barrier_steps).
Proof.
  split; [by vm_compute|].
  apply (sos_operations_wait two_domains context_of_domain (small_pool 2) 2 barrier None
    (first_part barrier (replicate 6 0)) (second_part barrier (replicate 6 0) barrier_steps)
    nic_context 5 2 3 3 0 two_contexts barrier (Return NULL) (behind (Return NULL))
    [library "shmemx_ctx_quiet" [200]; library "shmemx_ctx_quiet" [201]; library "shmem_barrier_all" []]).
  - apply two_contexts_init.
  - done.
  - apply (run_between_parts barrier (replicate 6 0) barrier_steps 0 (mkWs 3 4 1)
      (mkCtx (Run barrier) barrier_frames 0) (mkCtx (Run (Return NULL)) barrier_frames 0)); by vm_compute.
  - exact (op_barrier_all two_contexts 0 (Return NULL)).
  - done.
Defined.

Definition swapper : code := shmem_int_swap two_contexts 7 8 9 Return.

Lemma sos_direct_own_context_witness :
  ∃ s', run [0; 0] (first_part swapper (replicate 6 0)) = Ok (tt, s') ∧
    calls s' = [library "shmemx_ctx_int_swap" [7; 8; 9; 200]].
Proof.
  destruct (sos_direct_own_context two_domains context_of_domain nic_context 5 2 3 3 0 two_contexts swapper
    (λ ctx, library "shmemx_ctx_int_swap" [7; 8; 9; ctx]) Return 0 (first_part swapper (replicate 6 0)))
    as (ctx & s' & Hctx & H & E & _).
  - apply two_contexts_init.
  - apply op_int_swap.
  - by vm_compute.
  - done.
  - exists s'. split; [exact H|]. injection Hctx as <-. exact E.
Defined.
