(* ===== verification/Mpi.v ===== *)
(** * The MPI module

    [src/modules/mpi/src/hclib_mpi.cpp]: the operations that wait for MPI go
    through the locale of the network interface, like those of [OpenShmem]; those
    that only ask for something call MPI at once.  Every call is checked: an error
    ends the process.  [MPI_Isend] and [MPI_Irecv] complete through the list of
    [Pending]. *)

From S2P Require Import Prelude Deque Locality LocalityRun Pool Runtime RuntimeHeap RuntimeStack RuntimeStep RuntimeSafe RuntimeScopes RuntimeMoves RuntimeOwner RuntimeCalls RuntimeBlocking CppAsync Comm.
From stdpp Require Import strings options.

#[local] Open Scope Z_scope.

Section mpi.
(** The code that MPI's functions return when nothing is wrong. *)
Context `{!Linker} (MPI_SUCCESS nic : Z).

(** src/modules/mpi/inc/hclib_mpi-internal.h:13-19 (CHECK_MPI) *)
Definition CHECK_MPI (err : Z) (k : code) : code :=
  if negb (err =? MPI_SUCCESS) then Abort (ExitCode 1) else k.

(** The locale of the network interface comes with the context.

    src/modules/mpi/src/hclib_mpi.cpp:79-93 (mpi_post_initialize) *)
Definition mpi_post_initialize (cx : hclib_context) (nic_locale_id : Z) (err provided funneled : Z)
    : res (Z * hclib_context) :=
  _ ← (if negb (err =? MPI_SUCCESS) then Err (ExitCode 1) else Ok tt);
  _ ← hassert (provided =? funneled);
  let nics := hclib_get_all_locales_of_type cx nic_locale_id in
  _ ← hassert (Z.of_nat (length nics) =? 1);
  nic ← array_get nics 0;
  cx ← hclib_locale_mark_special cx nic (chars "COMM");
  Ok (nic, cx).

(** ** Operations *)

(** src/modules/mpi/src/hclib_mpi.cpp:99-101 (MPI_Comm_rank) *)
Definition MPI_Comm_rank (comm rank : Z) (k : code) : code :=
  Call (symbol "MPI_Comm_rank") [comm; rank] (λ err, CHECK_MPI err k).

(** src/modules/mpi/src/hclib_mpi.cpp:103-105 (MPI_Comm_size) *)
Definition MPI_Comm_size (comm size : Z) (k : code) : code :=
  Call (symbol "MPI_Comm_size") [comm; size] (λ err, CHECK_MPI err k).

(** src/modules/mpi/src/hclib_mpi.cpp:107-116 (MPI_Send) *)
Definition MPI_Send (buf count datatype dest tag comm : Z) (k : code) : code :=
  finish (async_nb_at
    (Call (symbol "MPI_Send") [buf; count; datatype; dest; tag; comm] (λ err, CHECK_MPI err (Return NULL)))
    (Some nic)) k.

(** src/modules/mpi/src/hclib_mpi.cpp:118-128 (MPI_Recv) *)
Definition MPI_Recv (buf count datatype source tag comm status : Z) (k : code) : code :=
  finish (async_nb_at
    (Call (symbol "MPI_Recv") [buf; count; datatype; source; tag; comm; status] (λ err, CHECK_MPI err (Return NULL)))
    (Some nic)) k.

(** src/modules/mpi/src/hclib_mpi.cpp:143-149 (MPI_Waitall) *)
Fixpoint waitall_loop (array_of_requests : list Z) (i : Z) (rounds : nat) (k : code) : code :=
  match rounds with
  | O => k
  | Datatypes.S rounds =>
      match array_get array_of_requests i with
      | Ok future => Future_wait future (λ _, waitall_loop array_of_requests (i + 1) rounds k)
      | Err e => Abort e
      end
  end.

(** src/modules/mpi/src/hclib_mpi.cpp:143-149 (MPI_Waitall) *)
Definition MPI_Waitall (count : Z) (array_of_requests : list Z) (k : code) : code :=
  waitall_loop array_of_requests 0 (Z.to_nat count) k.

(** What a non-blocking operation spawns: the call of MPI, which writes the request, and
    then [append_to_pending] on the request and the promise, which is a parameter here
    ([Pending] and [WaitSets] have what it does with them).

    src/modules/mpi/src/hclib_mpi.cpp:156-172 (MPI_Isend_await) *)
Definition start_request (append : Z → Z → code → code) (f : string) (args : list Z) (prom : Z) : code :=
  Cell_new (λ req, Call (symbol f) (args ++ [req]) (λ err, CHECK_MPI err (append req prom (Return NULL)))).

(** src/modules/mpi/src/hclib_mpi.cpp:151-175 (MPI_Isend_await) *)
Definition MPI_Isend_await (append : Z → Z → code → code) (buf count datatype dest tag comm fut : Z)
    (k : Z → code) : code :=
  Promise_create (λ prom,
    async_nb_await_at (start_request append "MPI_Isend" [buf; count; datatype; dest; tag; comm] prom)
      fut (Some nic) (k prom)).

(** src/modules/mpi/src/hclib_mpi.cpp:177-180 (MPI_Isend) *)
Definition MPI_Isend (append : Z → Z → code → code) (buf count datatype dest tag comm : Z) (k : Z → code) : code :=
  MPI_Isend_await append buf count datatype dest tag comm NULL k.

(** src/modules/mpi/src/hclib_mpi.cpp:182-205 (MPI_Irecv_await) *)
Definition MPI_Irecv_await (append : Z → Z → code → code) (buf count datatype source tag comm fut : Z)
    (k : Z → code) : code :=
  Promise_create (λ prom,
    async_nb_await_at (start_request append "MPI_Irecv" [buf; count; datatype; source; tag; comm] prom)
      fut (Some nic) (k prom)).

(** src/modules/mpi/src/hclib_mpi.cpp:207-210 (MPI_Irecv) *)
Definition MPI_Irecv (append : Z → Z → code → code) (buf count datatype source tag comm : Z) (k : Z → code) : code :=
  MPI_Irecv_await append buf count datatype source tag comm NULL k.

(** src/modules/mpi/src/hclib_mpi.cpp:212-214 (MPI_Comm_dup) *)
Definition MPI_Comm_dup (comm newcomm : Z) (k : code) : code :=
  Call (symbol "MPI_Comm_dup") [comm; newcomm] (λ err, CHECK_MPI err k).

(** src/modules/mpi/src/hclib_mpi.cpp:216-218 (MPI_Comm_split) *)
Definition MPI_Comm_split (comm color key newcomm : Z) (k : code) : code :=
  Call (symbol "MPI_Comm_split") [comm; color; key; newcomm] (λ err, CHECK_MPI err k).

(** src/modules/mpi/src/hclib_mpi.cpp:220-230 (MPI_Allreduce) *)
Definition MPI_Allreduce (sendbuf recvbuf count datatype op comm : Z) (k : code) : code :=
  finish (async_nb_at
    (Call (symbol "MPI_Allreduce") [sendbuf; recvbuf; count; datatype; op; comm] (λ err, CHECK_MPI err (Return NULL)))
    (Some nic)) k.

(** src/modules/mpi/src/hclib_mpi.cpp:232-240 (MPI_Allreduce_future) *)
Definition MPI_Allreduce_future (sendbuf recvbuf count datatype op comm : Z) (k : Z → code) : code :=
  async_nb_future_at
    (Call (symbol "MPI_Allreduce") [sendbuf; recvbuf; count; datatype; op; comm] (λ err,
       CHECK_MPI err (Return NULL))) (Some nic) k.

(** src/modules/mpi/src/hclib_mpi.cpp:242-253 (MPI_Allgather) *)
Definition MPI_Allgather (sendbuf sendcount sendtype recvbuf recvcount recvtype comm : Z)
    (k : code) : code :=
  finish (async_nb_at
    (Call (symbol "MPI_Allgather") [sendbuf; sendcount; sendtype; recvbuf; recvcount; recvtype; comm] (λ err, CHECK_MPI err (Return NULL)))
    (Some nic)) k.

(** src/modules/mpi/src/hclib_mpi.cpp:255-264 (MPI_Bcast) *)
Definition MPI_Bcast (buffer count datatype root comm : Z) (k : code) : code :=
  finish (async_nb_at
    (Call (symbol "MPI_Bcast") [buffer; count; datatype; root; comm] (λ err, CHECK_MPI err (Return NULL)))
    (Some nic)) k.

(** src/modules/mpi/src/hclib_mpi.cpp:266-274 (MPI_Barrier) *)
Definition MPI_Barrier (comm : Z) (k : code) : code :=
  finish (async_nb_at
    (Call (symbol "MPI_Barrier") [comm] (λ err, CHECK_MPI err (Return NULL)))
    (Some nic)) k.

(** src/modules/mpi/src/hclib_mpi.cpp:276-286 (MPI_Reduce) *)
Definition MPI_Reduce (sendbuf recvbuf count datatype op root comm : Z) (k : code) : code :=
  finish (async_nb_at
    (Call (symbol "MPI_Reduce") [sendbuf; recvbuf; count; datatype; op; root; comm] (λ err, CHECK_MPI err (Return NULL)))
    (Some nic)) k.

(** The process goes on with [k]. *)
Definition alive (k c : code) : Prop := behind k c ∧ ∀ e, c ≠ Abort e.

(** The operations with the call of MPI that they stand for. *)
Inductive operation : code → (code → Prop) → extern_call → Prop :=
  | op_Comm_rank comm rank k :
      operation (MPI_Comm_rank comm rank k) (alive k) (library "MPI_Comm_rank" [comm; rank])
  | op_Comm_size comm size k :
      operation (MPI_Comm_size comm size k) (alive k) (library "MPI_Comm_size" [comm; size])
  | op_Send buf count datatype dest tag comm k :
      operation (MPI_Send buf count datatype dest tag comm k) (alive k) (library "MPI_Send" [buf; count; datatype; dest; tag; comm])
  | op_Recv buf count datatype source tag comm status k :
      operation (MPI_Recv buf count datatype source tag comm status k) (alive k) (library "MPI_Recv" [buf; count; datatype; source; tag; comm; status])
  | op_Comm_dup comm newcomm k :
      operation (MPI_Comm_dup comm newcomm k) (alive k) (library "MPI_Comm_dup" [comm; newcomm])
  | op_Comm_split comm color key newcomm k :
      operation (MPI_Comm_split comm color key newcomm k) (alive k) (library "MPI_Comm_split" [comm; color; key; newcomm])
  | op_Allreduce sendbuf recvbuf count datatype op comm k :
      operation (MPI_Allreduce sendbuf recvbuf count datatype op comm k) (alive k) (library "MPI_Allreduce" [sendbuf; recvbuf; count; datatype; op; comm])
  | op_Allgather sendbuf sendcount sendtype recvbuf recvcount recvtype comm k :
      operation (MPI_Allgather sendbuf sendcount sendtype recvbuf recvcount recvtype comm k) (alive k) (library "MPI_Allgather" [sendbuf; sendcount; sendtype; recvbuf; recvcount; recvtype; comm])
  | op_Bcast buffer count datatype root comm k :
      operation (MPI_Bcast buffer count datatype root comm k) (alive k) (library "MPI_Bcast" [buffer; count; datatype; root; comm])
  | op_Barrier comm k :
      operation (MPI_Barrier comm k) (alive k) (library "MPI_Barrier" [comm])
  | op_Reduce sendbuf recvbuf count datatype op root comm k :
      operation (MPI_Reduce sendbuf recvbuf count datatype op root comm k) (alive k) (library "MPI_Reduce" [sendbuf; recvbuf; count; datatype; op; root; comm]).

(** ** Lemmas *)

(** The call is made and returns [MPI_SUCCESS]. *)
Definition succeeds (e : extern_call) : call_spec := λ e' err, e' = e ∧ err = MPI_SUCCESS.

Lemma CHECK_MPI_success k : CHECK_MPI MPI_SUCCESS k = k.
Proof. unfold CHECK_MPI. by rewrite Z.eqb_refl. Qed.

Lemma checked_leads f args k : tc next (Call f args (λ err, CHECK_MPI err k)) k.
Proof.
  pose proof (next_call f args (λ err, CHECK_MPI err k) MPI_SUCCESS) as Hn.
  cbv beta in Hn. rewrite CHECK_MPI_success in Hn. by apply tc_once.
Qed.

(** An error ends the process, so that nothing is left to make. *)
Lemma makes_checked f args k : makes [succeeds (library f args)] (Call (symbol f) args (λ err, CHECK_MPI err k)).
Proof.
  apply makes_call. intros err. unfold CHECK_MPI. destruct (Z.eqb_spec err MPI_SUCCESS) as [E|]; cbn.
  - left. split; [done|constructor].
  - right. apply makes_later; [done..|]. intros c' Hn. inversion Hn.
Qed.

Lemma not_alive k c : tc next c k → ¬ alive k c.
Proof. intros Hn [Hb _]. by eapply not_behind. Qed.

Lemma bound_checked f args k :
  bound [succeeds (library f args)] (alive k) (Call (symbol f) args (λ err, CHECK_MPI err k)).
Proof.
  apply bound_call; [apply not_alive, checked_leads|]. intros err. unfold CHECK_MPI.
  destruct (Z.eqb_spec err MPI_SUCCESS) as [E|]; cbn; [left; split; [done|constructor]|right].
  apply bound_later; try done; [by intros [_ Ha]; destruct (Ha (ExitCode 1))|]. intros c' Hn. inversion Hn.
Qed.

Lemma mpi_operation_bound c stop e : operation c stop e → bound [succeeds e] stop c.
Proof.
  intros []; first [apply bound_checked|apply bound_finish; [apply makes_checked|apply not_alive; leads_on..]].
Qed.
End mpi.

(** ** Properties *)

Section properties.
Context {S : Type} `{!TaskPool S} {EX : Externs} `{!Linker} (MPI_SUCCESS : Z).
#[local] Set Default Proof Using "Type*".

(** C31: the operations of the module wait, and they only return when MPI reports
    no error.  When the stack that called one goes on behind it, the call of MPI
    that it stands for has been made and has returned [MPI_SUCCESS]; after an
    error the process has exited.  The run ends no scope with [hclib_end_finish_nonblocking]
    ([only_blocking]) and allocates fewer than 2^30 objects. *)
Theorem mpi_operations_wait (p : S) n main locale s0 s2 nic c d stop e :
  run_between p n main locale s0 s2 c d → operation MPI_SUCCESS nic c stop e → stop d →
  called_since (length (calls s0)) [succeeds MPI_SUCCESS e] s2.
Proof. intros Hr Ho Hd. eapply bound_called; [exact Hr|by eapply mpi_operation_bound|exact Hd]. Qed.

(** A non-blocking operation does not start before its future is put. *)
Lemma requests_wait_for_future (p : S) n main locale s0 w nic append f args prom fut k u s1 schedule s2 w2 :
  pool_ok p → pool_tasks p = [] → reachable p n main locale s0 →
  current_ctl w s0 = Some (Run (async_nb_await_at (start_request MPI_SUCCESS append f args prom) fut (Some nic) k)) →
  step w s0 = Ok (u, s1) → run schedule s1 = Ok (tt, s2) → starts w2 s2 = Some (brk s0) →
  fut ≠ NULL → is_satisfied s2 fut.
Proof.
  intros Hp Ht Hr Hc H1 H2 Hst Hn. eapply awaits_waits; [done..| |exact H1|exact H2|exact Hst|by left|done].
  left. exists fut, k. split; [done|]. right. right. exists (Some nic). by right.
Qed.
End properties.

(** ** A concrete run

    Worker 0 calls [MPI_Barrier] and waits; worker 1 steals the task and makes the
    call of MPI, which returns 0. *)
#[local] Existing Instance by_length.

Definition meeting : code := MPI_Barrier 0 0 9 (Return NULL).
Definition meeting_steps : list Z := replicate 3 0 ++ replicate 8 1 ++ [0].
Definition meeting_frames : list frame := [F_execute 4 3; F_find; F_help 0 3 0 (Return NULL); F_finalize].

Lemma mpi_operations_wait_witness :
  calls (first_part meeting (replicate 6 0)) = [] ∧
  called_since 0 [succeeds 0 (library "MPI_Barrier" [9])] (second_part meeting (replicate 6 0) meeting_steps).
Proof.
  split; [by vm_compute|].
  apply (mpi_operations_wait 0 (small_pool 2) 2 meeting None (first_part meeting (replicate 6 0))
    (second_part meeting (replicate 6 0) meeting_steps) 0 meeting (Return NULL) (alive (Return NULL))
    (library "MPI_Barrier" [9])).
  - apply (run_between_parts meeting (replicate 6 0) meeting_steps 0 (mkWs 3 4 1)
      (mkCtx (Run meeting) meeting_frames 0) (mkCtx (Run (Return NULL)) meeting_frames 0)); by vm_compute.
  - apply op_Barrier.
  - by split.
Defined.
