(* ===== verification/Upcxx.v ===== *)
(** * The UPC++ module

    [src/modules/upcxx]: operations that go through the locale of the network
    interface.  A lambda that is sent to another rank is a number here; what runs
    on the other rank is not modelled.  The classes that wrap those of UPC++
    ([team], [event], [global_ptr] and others) pass everything on and are not
    modelled.  The macros for profiling are off. *)

From S2P Require Import Prelude Deque Locality LocalityRun Pool Runtime RuntimeHeap RuntimeStack RuntimeStep RuntimeSafe RuntimeScopes RuntimeMoves RuntimeOwner RuntimeCalls RuntimeBlocking CppAsync Comm.
From stdpp Require Import strings options.

#[local] Open Scope Z_scope.

Section upcxx.
Context `{!Linker} (nic : Z).

(** src/modules/upcxx/src/hclib_upcxx.cpp:126-126 (nic_place) *)
Definition nic_place : option Z := Some nic.

(** src/modules/upcxx/src/hclib_upcxx.cpp:75-77 (ranks) *)
Definition ranks (k : Z → code) : code := Call (symbol "upcxx::ranks") [] k.

(** src/modules/upcxx/src/hclib_upcxx.cpp:79-81 (myrank) *)
Definition myrank (k : Z → code) : code := Call (symbol "upcxx::myrank") [] k.

(** src/modules/upcxx/src/hclib_upcxx.cpp:83-94 (barrier) *)
Definition barrier (k : code) : code :=
  finish (async_nb_at (Call (symbol "upcxx::barrier") [] (λ _, Return NULL)) (Some nic)) k.

(** src/modules/upcxx/src/hclib_upcxx.cpp:96-107 (async_wait) *)
Definition async_wait (k : code) : code :=
  finish (async_nb_at (Call (symbol "upcxx::async_wait") [] (λ _, Return NULL)) (Some nic)) k.

(** The function has a result type and no [return]: what follows the scope is
    undefined.

    src/modules/upcxx/src/hclib_upcxx.cpp:109-120 (advance) *)
Definition advance : code :=
  finish (async_nb_at (Call (symbol "upcxx::advance") [] (λ _, Return NULL)) (Some nic))
    (Abort UninitRead).

(** src/modules/upcxx/src/hclib_upcxx.cpp:122-124 (is_memory_shared_with) *)
Definition is_memory_shared_with (r : Z) (k : Z → code) : code :=
  Call (symbol "upcxx::is_memory_shared_with") [r] k.

(** src/modules/upcxx/src/hclib_upcxx.cpp:152-154 (n_pending_tasks) *)
Definition n_pending_tasks (cx : hclib_context) : res Z := locale_num_tasks cx nic.

(** src/modules/upcxx/inc/hclib_upcxx.h:151-157 (init) *)
Definition shared_array_init (internal sz blk_sz : Z) (k : code) : code :=
  finish (async_nb_at
    (Call (symbol "upcxx::shared_array::init") [internal; sz; blk_sz] (λ _, Return NULL))
    nic_place) k.

(** src/modules/upcxx/inc/hclib_upcxx.h:207-213 (remote_finish) *)
Definition remote_finish (lambda : code → code) (k : code) : code := finish lambda (async_wait k).

(** src/modules/upcxx/inc/hclib_upcxx.h:217-223 (async_after) *)
Definition async_after (rank after lambda : Z) (k : code) : code :=
  async_nb_await_at (Call (symbol "upcxx::async") [rank; lambda] (λ _, Return NULL)) after nic_place k.

(** src/modules/upcxx/inc/hclib_upcxx.h:225-230 (async) *)
Definition async (rank lambda : Z) (k : code) : code :=
  async_nb_at (Call (symbol "upcxx::async") [rank; lambda] (λ _, Return NULL)) nic_place k.

(** src/modules/upcxx/inc/hclib_upcxx.h:232-243 (async_copy) *)
Definition async_copy (src dst count : Z) (k : Z → code) : code :=
  async_nb_future_at (Call (symbol "upcxx::copy") [src; dst; count] (λ _, Return NULL)) nic_place k.

(** src/modules/upcxx/inc/hclib_upcxx.h:248-251 (allocate) *)
Definition allocate (rank count : Z) (k : Z → code) : code :=
  Call (symbol "upcxx::allocate") [rank; count] k.

(** src/modules/upcxx/inc/hclib_upcxx.h:253-256 (deallocate) *)
Definition deallocate (ptr : Z) (k : code) : code := Call (symbol "upcxx::deallocate") [ptr] (λ _, k).

(** The operations with the calls of UPC++ that they stand for. *)
Inductive operation : code → (code → Prop) → list extern_call → Prop :=
  | op_ranks k : operation (ranks k) (returned k) [library "upcxx::ranks" []]
  | op_myrank k : operation (myrank k) (returned k) [library "upcxx::myrank" []]
  | op_barrier k : operation (barrier k) (behind k) [library "upcxx::barrier" []]
  | op_async_wait k : operation (async_wait k) (behind k) [library "upcxx::async_wait" []]
  | op_advance : operation advance (behind (Abort UninitRead)) [library "upcxx::advance" []]
  | op_is_memory_shared_with r k :
      operation (is_memory_shared_with r k) (returned k) [library "upcxx::is_memory_shared_with" [r]]
  | op_shared_array_init internal sz blk_sz k :
      operation (shared_array_init internal sz blk_sz k) (behind k)
        [library "upcxx::shared_array::init" [internal; sz; blk_sz]]
  | op_allocate rank count k :
      operation (allocate rank count k) (returned k) [library "upcxx::allocate" [rank; count]]
  | op_deallocate ptr k : operation (deallocate ptr k) (behind k) [library "upcxx::deallocate" [ptr]].

Lemma upcxx_operation_bound c stop es : operation c stop es → bound (call_is <$> es) stop c.
Proof.
  intros []; try (by apply bound_call_is; [auto with comm|reflexivity|intros ?; constructor]);
    (apply bound_finish; [makes_all|auto with comm..]).
Qed.
End upcxx.

(** ** Properties *)

Section complete.
Context {S : Type} `{!TaskPool S} {EX : Externs} `{!Linker}.
#[local] Set Default Proof Using "Type*".

(** The operations of the module wait for UPC++. *)
Theorem upcxx_operations_wait (p : S) n main locale s0 s2 nic c d stop es :
  run_between p n main locale s0 s2 c d → operation nic c stop es → stop d →
  called_since (length (calls s0)) (call_is <$> es) s2.
Proof. intros Hr Ho Hd. eapply bound_called; [exact Hr|by eapply upcxx_operation_bound|exact Hd]. Qed.
End complete.
