(* ===== verification/Mem.v ===== *)
(** * Memory operations on locales

    [src/src/hclib-mem.c]: modules register the routines that allocate,
    reallocate, free, set and copy memory at their types of locale, and the
    operations spawn a task that calls the routine and then puts a promise.  The
    operations are code of a task ([Runtime.code]) that goes on with the future
    they return; the routines are outside the runtime ([Call]). *)

From S2P Require Import Prelude Deque Locality LocalityRun CppAsync FptrList Pool Runtime RuntimeHeap RuntimeStack RuntimeStep RuntimeSafe.
From stdpp Require Import options.

(** ** The registered routines *)

(** src/src/hclib-mem.c:16-20 (alloc_registrations) *)
Record mem_registrations := mkRegistrations {
  alloc_registrations : option hclib_fptr_list_t;
  realloc_registrations : option hclib_fptr_list_t;
  free_registrations : option hclib_fptr_list_t;
  memset_registrations : option hclib_fptr_list_t;
  copy_registrations : option hclib_fptr_list_t
}.

(** src/src/hclib-mem.c:23-26 (hclib_register_alloc_func) *)
Definition hclib_register_alloc_func (r : mem_registrations) (locale_id func : Z)
    : res mem_registrations :=
  l ← hclib_register_func (alloc_registrations r) locale_id func MAY_USE;
  Ok (mkRegistrations (Some l) (realloc_registrations r) (free_registrations r)
    (memset_registrations r) (copy_registrations r)).

(** src/src/hclib-mem.c:29-32 (hclib_register_realloc_func) *)
Definition hclib_register_realloc_func (r : mem_registrations) (locale_id func : Z)
    : res mem_registrations :=
  l ← hclib_register_func (realloc_registrations r) locale_id func MAY_USE;
  Ok (mkRegistrations (alloc_registrations r) (Some l) (free_registrations r)
    (memset_registrations r) (copy_registrations r)).

(** src/src/hclib-mem.c:35-38 (hclib_register_free_func) *)
Definition hclib_register_free_func (r : mem_registrations) (locale_id func : Z)
    : res mem_registrations :=
  l ← hclib_register_func (free_registrations r) locale_id func MAY_USE;
  Ok (mkRegistrations (alloc_registrations r) (realloc_registrations r) (Some l)
    (memset_registrations r) (copy_registrations r)).

(** src/src/hclib-mem.c:41-44 (hclib_register_memset_func) *)
Definition hclib_register_memset_func (r : mem_registrations) (locale_id func : Z)
    : res mem_registrations :=
  l ← hclib_register_func (memset_registrations r) locale_id func MAY_USE;
  Ok (mkRegistrations (alloc_registrations r) (realloc_registrations r) (free_registrations r)
    (Some l) (copy_registrations r)).

(** src/src/hclib-mem.c:47-50 (hclib_register_copy_func) *)
Definition hclib_register_copy_func (r : mem_registrations) (locale_id func priority : Z)
    : res mem_registrations :=
  l ← hclib_register_func (copy_registrations r) locale_id func priority;
  Ok (mkRegistrations (alloc_registrations r) (realloc_registrations r) (free_registrations r)
    (memset_registrations r) (Some l)).

(** ** The tasks *)

(** The task goes on when the C code that computes [r] does. *)
Definition try {A} (r : res A) (k : A → code) : code :=
  match r with Ok a => k a | Err f => Abort f end.

(** src/src/hclib-mem.c:52-57 (malloc_struct) *)
Record malloc_struct := mkMalloc {
  ms_nbytes : Z; ms_locale : Z; ms_promise : Z; ms_cb : Z
}.

(** src/src/hclib-mem.c:59-64 (allocate_kernel) *)
Definition allocate_kernel (ms : malloc_struct) : code :=
  Call (ms_cb ms) [ms_nbytes ms; ms_locale ms] (λ allocated,
    Promise_put (ms_promise ms) allocated (Return NULL)).

(** src/src/hclib-mem.c:82-88 (realloc_struct) *)
Record realloc_struct := mkRealloc {
  rs_ptr : Z; rs_nbytes : Z; rs_locale : Z; rs_promise : Z; rs_cb : Z
}.

(** src/src/hclib-mem.c:90-95 (reallocate_kernel) *)
Definition reallocate_kernel (rs : realloc_struct) : code :=
  Call (rs_cb rs) [rs_ptr rs; rs_nbytes rs; rs_locale rs] (λ reallocated,
    Promise_put (rs_promise rs) reallocated (Return NULL)).

(** src/src/hclib-mem.c:114-121 (memset_struct) *)
Record memset_struct := mkMemset {
  mss_ptr : Z; mss_nbytes : Z; mss_pattern : Z; mss_locale : Z; mss_promise : Z; mss_cb : Z
}.

(** src/src/hclib-mem.c:123-128 (memset_kernel) *)
Definition memset_kernel (ms : memset_struct) : code :=
  Call (mss_cb ms) [mss_ptr ms; mss_pattern ms; mss_nbytes ms; mss_locale ms] (λ _,
    Promise_put (mss_promise ms) NULL (Return NULL)).

(** src/src/hclib-mem.c:158-174 (copy_struct) *)
Record copy_struct := mkCopy {
  cs_dst_locale : Z; cs_dst : Z; cs_src_locale : Z; cs_src : Z; cs_src_fut : Z;
  cs_nbytes : Z; cs_promise : Z; cs_cb : Z
}.

(** src/src/hclib-mem.c:176-192 (copy_kernel) *)
Definition copy_kernel (cs : copy_struct) : code :=
  let finish (src : Z) :=
    Call (cs_cb cs) [cs_dst_locale cs; cs_dst cs; cs_src_locale cs; src; cs_nbytes cs] (λ _,
      Promise_put (cs_promise cs) NULL (Return NULL)) in
  try (hassert (negb (cs_src cs =? NULL) || negb (cs_src_fut cs =? NULL))) (λ _,
  try (hassert (negb (negb (cs_src cs =? NULL) && negb (cs_src_fut cs =? NULL)))) (λ _,
    if negb (cs_src cs =? NULL) then finish (cs_src cs)
    else Future_get (cs_src_fut cs) finish)).

(** ** The operations *)

Section operations.
Context (r : mem_registrations) (locales : list hclib_locale_t).

(** [locale->type], as the [int] that indexes the tables. *)
Definition locale_type (locale : Z) : res Z :=
  l ← array_get locales locale;
  Ok (if loc_type l <=? INT_MAX then loc_type l else loc_type l - UINT_MOD).

(** The routine registered for the type of a locale, which must exist. *)
Definition routine_for (list : option hclib_fptr_list_t) (locale : Z) : res Z :=
  type ← locale_type locale;
  has ← hclib_has_func_for list type;
  _ ← hassert has;
  hclib_get_func_for list type.

(** src/src/hclib-mem.c:66-80 (hclib_allocate_at) *)
Definition hclib_allocate_at (nbytes locale : Z) (k : Z → code) : code :=
  try (routine_for (alloc_registrations r) locale) (λ cb,
    Promise_create (λ promise,
      Async (allocate_kernel (mkMalloc nbytes locale promise cb)) [] (Some locale) (k promise))).

(** src/src/hclib-mem.c:97-112 (hclib_reallocate_at) *)
Definition hclib_reallocate_at (ptr new_nbytes locale : Z) (k : Z → code) : code :=
  try (routine_for (realloc_registrations r) locale) (λ cb,
    Promise_create (λ promise,
      Async (reallocate_kernel (mkRealloc ptr new_nbytes locale promise cb)) [] (Some locale)
        (k promise))).

(** src/src/hclib-mem.c:130-147 (hclib_memset_at) *)
Definition hclib_memset_at (ptr pattern nbytes locale : Z) (k : Z → code) : code :=
  try (routine_for (memset_registrations r) locale) (λ cb,
    Promise_create (λ promise,
      Async (memset_kernel (mkMemset ptr nbytes pattern locale promise cb)) [] (Some locale)
        (k promise))).

(** src/src/hclib-mem.c:150-156 (hclib_free_at) *)
Definition hclib_free_at (ptr locale : Z) (k : code) : code :=
  try (routine_for (free_registrations r) locale) (λ func, Call func [ptr; locale] (λ _, k)).

(** src/inc/hclib.h:146-146 (HCLIB_ASYNC_COPY_USE_FUTURE_AS_SRC) *)
Definition HCLIB_ASYNC_COPY_USE_FUTURE_AS_SRC : Z := 1.

(** The routine of a copy.

    src/src/hclib-mem.c:199-222 (hclib_async_copy) *)
Definition copy_callback (dst_locale src_locale : Z) : res Z :=
  dst_type ← locale_type dst_locale;
  src_type ← locale_type src_locale;
  dst_cb ← hclib_get_func_for (copy_registrations r) dst_type;
  src_cb ← hclib_get_func_for (copy_registrations r) src_type;
  dst_priority ← hclib_get_priority_for (copy_registrations r) dst_type;
  src_priority ← hclib_get_priority_for (copy_registrations r) src_type;
  _ ← hassert (negb (dst_cb =? NULL) || negb (src_cb =? NULL));
  if dst_cb =? NULL then Ok src_cb
  else if src_cb =? NULL then Ok dst_cb
  else if dst_cb =? src_cb then Ok dst_cb
  else
    _ ← hassert (negb ((dst_priority =? MUST_USE) && (src_priority =? MUST_USE)));
    Ok (if src_priority =? MUST_USE then src_cb else dst_cb).

(** [src] and [futures] as the task gets them.

    src/src/hclib-mem.c:228-235 (hclib_async_copy) *)
Definition copy_source (src : Z) (futures : list Z) : res (Z * Z) :=
  if src =? HCLIB_ASYNC_COPY_USE_FUTURE_AS_SRC then
    _ ← hassert (Z.of_nat (length futures) =? 1);
    fut ← array_get futures 0;
    Ok (NULL, fut)
  else Ok (src, NULL).

(** src/src/hclib-mem.c:194-241 (hclib_async_copy) *)
Definition hclib_async_copy (dst_locale dst src_locale src nbytes : Z) (futures : list Z)
    (k : Z → code) : code :=
  Promise_create (λ promise,
    try (copy_callback dst_locale src_locale) (λ copy_cb,
    try (copy_source src futures) (λ '(src, src_fut),
      Async (copy_kernel (mkCopy dst_locale dst src_locale src src_fut nbytes promise copy_cb))
        futures (Some dst_locale) (k promise)))).

(** The C++ calls; a [NULL] future is none.

    src/inc/hclib_cpp.h:67-72 (async_copy) *)
Definition async_copy (dst_locale dst src_locale src nbytes : Z) (k : Z → code) : code :=
  hclib_async_copy dst_locale dst src_locale src nbytes [] k.

(** src/inc/hclib_cpp.h:74-80 (async_copy_await) *)
Definition async_copy_await (dst_locale dst src_locale src nbytes future : Z) (k : Z → code) : code :=
  hclib_async_copy dst_locale dst src_locale src nbytes (one_future future) k.

(** src/inc/hclib_cpp.h:82-89 (async_copy_await_fut_src) *)
Definition async_copy_await_fut_src (dst_locale dst src_locale src nbytes : Z) (k : Z → code) : code :=
  if src =? NULL then Abort AssertFail
  else hclib_async_copy dst_locale dst src_locale HCLIB_ASYNC_COPY_USE_FUTURE_AS_SRC nbytes [src] k.

(** src/inc/hclib_cpp.h:92-98 (async_copy_await_all) *)
Definition async_copy_await_all (dst_locale dst src_locale src nbytes : Z) (futures : list Z)
    (k : Z → code) : code :=
  hclib_async_copy dst_locale dst src_locale src nbytes futures k.
End operations.

(** ** Specification: which routine copies *)

(** A routine that must be used wins; otherwise the destination's comes first.
    Two different routines that must both be used are refused. *)
Definition choose_routine (dst src : option (Z * Z)) : res Z :=
  match dst, src with
  | None, None => Err AssertFail
  | Some (f, _), None | None, Some (f, _) => Ok f
  | Some (f, p), Some (g, q) =>
      if decide (f = g) then Ok f
      else if decide (p = MUST_USE ∧ q = MUST_USE) then Err AssertFail
      else Ok (if decide (q = MUST_USE) then g else f)
  end.

(** ** Lemmas *)

Lemma locale_type_ok locales locale l :
  0 <= locale → locales !! Z.to_nat locale = Some l → loc_type l <= INT_MAX →
  locale_type locales locale = Ok (loc_type l).
Proof.
  intros H0 Hl Ht. unfold locale_type. pose proof (lookup_lt_Some _ _ _ Hl) as Hlt.
  destruct (array_get_lt locales locale) as (l' & -> & Hl'); [lia|].
  assert (l' = l) as -> by congruence. cbn. by rewrite (proj2 (Z.leb_le _ _)).
Qed.

(** The routine and the priority of a type inside the table. *)
Lemma slot_ok l i :
  fptr_list_wf (Some l) → 0 <= i < fl_capacity l →
  ∃ f p, hclib_get_func_for (Some l) i = Ok f ∧ hclib_get_priority_for (Some l) i = Ok p ∧
    FptrList.registered (Some l) i = if f =? NULL then None else Some (f, p).
Proof.
  intros (Hlf & Hlp & _) Hi.
  destruct (array_get_lt (fl_fptrs l) i) as (f & Gf & Hf); [lia|].
  destruct (array_get_lt (fl_priorities l) i) as (p & Gp & Hp); [lia|].
  exists f, p. cbn [hclib_get_func_for hclib_get_priority_for].
  rewrite (proj2 (Z.ltb_lt _ _)), Gf, Gp by lia. split; [done|]. split; [done|].
  cbn. by rewrite (proj2 (Z.ltb_ge _ _)), Hf, Hp by lia.
Qed.

Lemma slot_beyond l i :
  fptr_list_wf (Some l) → fl_capacity l <= i →
  hclib_get_func_for (Some l) i = Ok NULL ∧ hclib_get_priority_for (Some l) i = Err BadDeref.
Proof.
  intros (Hlf & Hlp & _) Hi. cbn. rewrite (proj2 (Z.ltb_ge _ _)) by lia. split; [done|].
  apply array_get_out. lia.
Qed.

(** ** Properties *)

(** Which routine [hclib_async_copy] uses.  For two locales whose types have
    a slot in the table the routine is the one the priorities say, and the
    assertions refuse exactly the two cases in which there is none; but a type
    beyond the table makes the code read a priority past the end of the array,
    even when the other locale's routine could do the copy, and so a copy can
    fail although a routine that accepts it is registered. *)
Theorem copy_callback_chooses r locales dst src ld ls l :
  0 <= dst → locales !! Z.to_nat dst = Some ld → 0 <= loc_type ld <= INT_MAX →
  0 <= src → locales !! Z.to_nat src = Some ls → 0 <= loc_type ls <= INT_MAX →
  copy_registrations r = Some l → fptr_list_wf (Some l) →
  copy_callback r locales dst src =
    if decide (loc_type ld < fl_capacity l ∧ loc_type ls < fl_capacity l)
    then choose_routine (FptrList.registered (Some l) (loc_type ld)) (FptrList.registered (Some l) (loc_type ls))
    else Err BadDeref.
Proof.
  intros Hd Hld Htd Hs Hls Hts El Hwf. unfold copy_callback. rewrite El.
  rewrite (locale_type_ok _ _ _ Hd Hld), (locale_type_ok _ _ _ Hs Hls) by lia. cbn [mbind res_bind].
  destruct (Z.ltb_spec (loc_type ld) (fl_capacity l)) as [Hcd|Hcd];
    destruct (Z.ltb_spec (loc_type ls) (fl_capacity l)) as [Hcs|Hcs].
  - rewrite decide_True by done.
    destruct (slot_ok l (loc_type ld) Hwf ltac:(lia)) as (f & p & -> & -> & ->).
    destruct (slot_ok l (loc_type ls) Hwf ltac:(lia)) as (g & q & -> & -> & ->). cbn [mbind res_bind].
    destruct (Z.eqb_spec f NULL) as [->|Hf], (Z.eqb_spec g NULL) as [->|Hg]; cbn; try done.
    destruct (Z.eqb_spec f g) as [->|Hfg]; [by rewrite decide_True|]. rewrite (decide_False (P := f = g)) by done.
    destruct (Z.eqb_spec p MUST_USE) as [->|Hp], (Z.eqb_spec q MUST_USE) as [->|Hq]; cbn;
      repeat (destruct (decide _) as [?|?]; try tauto).
  - rewrite decide_False by lia. destruct (slot_ok l (loc_type ld) Hwf ltac:(lia)) as (f & p & -> & -> & _).
    by destruct (slot_beyond l (loc_type ls) Hwf ltac:(lia)) as (-> & ->).
  - rewrite decide_False by lia. destruct (slot_ok l (loc_type ls) Hwf ltac:(lia)) as (f & p & -> & _).
    by destruct (slot_beyond l (loc_type ld) Hwf ltac:(lia)) as (-> & ->).
  - rewrite decide_False by lia. destruct (slot_beyond l (loc_type ls) Hwf ltac:(lia)) as (-> & _).
    by destruct (slot_beyond l (loc_type ld) Hwf ltac:(lia)) as (-> & ->).
Qed.

Section copies.
Context {S : Type} `{!TaskPool S} {EX : Externs}.
#[local] Set Default Proof Using "Type*".

(** C34: the source of a copy is ready.  A copy that takes its source from a
    future ([HCLIB_ASYNC_COPY_USE_FUTURE_AS_SRC]) starts only when the future is
    satisfied: [copy_kernel] then passes the future's value to the routine
    chosen for the two locales and never fails the assertion of
    [hclib_future_get].  The promise that the kernel puts is a new one ([brk s0],
    made by the call), and it is the one that the caller gets: when the copy is
    spawned the caller goes on with [k] of this promise. *)
Theorem copy_source_ready (p : S) n main locale s0 w r locales dl dst sl nbytes fut k u s1 v s2
    schedule s3 w3 :
  pool_ok p → pool_tasks p = [] → reachable p n main locale s0 → fut ≠ NULL →
  current_ctl w s0 = Some (Run (hclib_async_copy r locales dl dst sl
    HCLIB_ASYNC_COPY_USE_FUTURE_AS_SRC nbytes [fut] k)) →
  step w s0 = Ok (u, s1) → step w s1 = Ok (v, s2) → run schedule s2 = Ok (tt, s3) →
  starts w3 s3 = Some (brk s1) →
  promises s0 !! brk s0 = None ∧ is_Some (promises s1 !! brk s0) ∧
  current_ctl w s2 = Some (Run (k (brk s0))) ∧
  ∃ cb src tk, copy_callback r locales dl sl = Ok cb ∧
    tasks s3 !! brk s1 = Some tk ∧
    t_fp tk = User (Future_get fut (λ src, Call cb [dl; dst; sl; src; nbytes]
      (λ _, Promise_put (brk s0) NULL (Return NULL)))) ∧
    hclib_future_get fut s3 = Ok (src, s3).
Proof.
  intros Hp Ht Hr Hf Hc H1 H2 H3 Hst. destruct (launched_inv _ _ _ _ _ Hp Ht Hr) as [f Hi].
  destruct (step_acted _ _ _ _ _ H1 Hi) as (f1 & Hi1 & _).
  destruct (step_run_code _ _ _ _ _ Hc H1) as [fs H]. cbn [run_code hclib_async_copy] in H.
  m_bind H as q sa Hq. pose proof (inv_self s0 f w Hi) as [Hi0 _].
  pose proof Hq as Hself. apply (promise_create_kept _ f) in Hq as ((fa & _ & Hqa & _) & -> & Hnew & _);
    [|apply Hi0|apply (inv_brk _ _ Hi0)]. pose proof (set_stack_Ok _ _ _ _ _ H) as (ws & x & _ & _ & Es1).
  apply set_stack_ctl in H as Hc1.
  rewrite (quiet_self _ _ _ _ Hqa) in Hc1. cbn [self set_self] in Hc1.
  destruct (step_run_code _ _ _ _ _ Hc1 H2) as [fs1 H4].
  destruct (copy_callback r locales dl sl) as [cb|] eqn:Ecb; [|done]. cbn [try] in Hc1.
  assert (promises s0 !! brk s0 = None) as Hfresh.
  { apply eq_None_not_Some. intros Hs. pose proof (heap_promise_bounds _ _ (inv_heap _ _ Hi) _ Hs). lia. }
  assert (is_Some (promises s1 !! brk s0)) as Hmade by (rewrite Es1; exact Hnew).
  assert (current_ctl w s2 = Some (Run (k (brk s0)))) as Hgot.
  { destruct (inv_self s1 f1 w Hi1) as [Hi1' _]. cbn [run_code] in H4. m_bind H4 as b sb Hb.
    apply (async_ok _ _ _ _ f1) in Hb as ((fb & _ & Hqb & _) & _);
      [|apply Hi1'|apply (inv_brk _ _ Hi1')].
    apply set_stack_ctl in H4. by rewrite (quiet_self _ _ _ _ Hqb) in H4. }
  split; [done|]. split; [done|]. split; [done|].
  destruct (async_starts_ready w s1 f1
    (copy_kernel (mkCopy dl dst sl NULL fut nbytes (brk s0) cb)) [fut] (Some dl) v s2 schedule s3 w3)
    as [(tk & Htk & Efp) Hsat];
    [done|eexists; split; [exact Hc1|left; by eexists]|by intros q ->%list_elem_of_singleton|done..|].
  destruct (Hsat fut ltac:(by left)) as (pr & Hpr & Hs).
  exists cb, (datum pr), tk. split; [done|]. split; [done|]. split.
  - rewrite Efp. unfold copy_kernel. cbn -[Z.eqb]. by rewrite (proj2 (Z.eqb_neq fut NULL)).
  - unfold hclib_future_get, get_promise, get, mbind, M_bind. by rewrite Hpr, Hs.
Qed.
End copies.

(** ** Concrete runs *)

(** Routine 100 copies for type 0; routine 200 must be used for type 1. *)
Definition two_routines : option hclib_fptr_list_t := Some (mkFptrList [100; 200] [MAY_USE; MUST_USE] 2).

Definition example_registrations : mem_registrations :=
  mkRegistrations None None None None two_routines.

Definition example_locale (type : Z) : hclib_locale_t := mkLocale type type [] None 0 [] (Some true) [].

Lemma copy_callback_chooses_witness :
  fptr_list_wf two_routines ∧
  copy_callback example_registrations [example_locale 0; example_locale 1] 0 1 = Ok 200.
Proof.
  split; [done|].
  rewrite (copy_callback_chooses example_registrations [example_locale 0; example_locale 1] 0 1
    (example_locale 0) (example_locale 1) (mkFptrList [100; 200] [MAY_USE; MUST_USE] 2));
    (done || (cbn; unfold INT_MAX; lia)).
Defined.

Definition copying : code :=
  Promise_create (λ fut,
    hclib_async_copy example_registrations [example_locale 0] 0 11 0
      HCLIB_ASYNC_COPY_USE_FUTURE_AS_SRC 8 [fut] (λ promise, Promise_put fut promise (Return NULL))).

Definition copy_called : rt locality := state_after (replicate 7 0) (launch (small_pool 1) 1 copying None).
Definition copy_spawned : rt locality := state_after [0; 0] copy_called.
Definition copy_starts : rt locality := state_after (replicate 7 0) copy_spawned.

Lemma copy_source_ready_witness :
  current_ctl 0 copy_spawned = Some (Run (Promise_put 4 5 (Return NULL))) ∧
  ∃ tk, tasks copy_starts !! 6 = Some tk ∧
    t_fp tk = User (Future_get 4 (λ src, Call 100 [0; 11; 0; src; 8] (λ _, Promise_put 5 NULL (Return NULL)))) ∧
    hclib_future_get 4 copy_starts = Ok (5, copy_starts).
Proof.
  destruct (copy_source_ready (small_pool 1) 1 copying None copy_called 0 example_registrations
    [example_locale 0] 0 11 0 8 4 (λ promise, Promise_put 4 promise (Return NULL)) tt (state_after [0] copy_called) tt
    copy_spawned (replicate 7 0) copy_starts 0) as (Hnone & Hsome & Hgot & cb & src & tk & Hcb & Htk & Hfp & Hg).
  - apply small_pool_ok.
  - apply small_pool_empty.
  - exists (replicate 7 0). apply run_state_after. by vm_compute.
  - done.
  - by vm_compute.
  - apply step_state_after. by vm_compute.
  - unfold copy_spawned. rewrite (step_state_after 0 (state_after [0] copy_called)); by vm_compute.
  - apply run_state_after. by vm_compute.
  - by vm_compute.
  - assert (copy_callback example_registrations [example_locale 0] 0 0 = Ok 100) as E by (by vm_compute).
    rewrite E in Hcb. injection Hcb as <-. clear E.
    assert (hclib_future_get 4 copy_starts = Ok (5, copy_starts)) as E by (by vm_compute).
    assert (brk copy_called = 5) as Eb by (by vm_compute). rewrite Eb in Hgot.
    split; [exact Hgot|]. exists tk. split; [exact Htk|]. split; [exact Hfp|exact E].
Defined.
