(* ===== verification/Devices.v ===== *)
(** * The modules for system memory and for CUDA devices

    [src/modules/system/src/hclib_system.cpp] and
    [src/modules/cuda/src/hclib_cuda.cpp]: the types of locale they add, the memory
    routines they register in the tables of [Mem], and the streams of a device.
    The C library and CUDA are not part of the program: what they return is a
    parameter, and a routine stands in the tables by its address. *)

From S2P Require Import Prelude Deque FptrList Locality Runtime Mem.
From stdpp Require Import strings options.

#[local] Open Scope Z_scope.

(** ** Types of locale *)

(** src/modules/system/src/hclib_system.cpp:6-6 (l1_locale_id) *)
Record system_ids := mkIds { l1_locale_id : Z; l2_locale_id : Z; l3_locale_id : Z; sysmem_locale_id : Z }.

(** src/modules/system/src/hclib_system.cpp:50-55 (system_pre_initialize) *)
Definition system_pre_initialize (s : locality_state) : system_ids * locality_state :=
  let '(l1, s) := hclib_add_known_locale_type s (chars "L1") in
  let '(l2, s) := hclib_add_known_locale_type s (chars "L2") in
  let '(l3, s) := hclib_add_known_locale_type s (chars "L3") in
  let '(sysmem, s) := hclib_add_known_locale_type s (chars "sysmem") in
  (mkIds l1 l2 l3 sysmem, s).

(** src/modules/cuda/src/hclib_cuda.cpp:156-167 (cuda_pre_initialize) *)
Definition cuda_pre_initialize (metadata_size metadata_populate : Z) (s : locality_state)
    : res (Z * locality_state) :=
  let '(gpu, s) := hclib_add_known_locale_type s (chars "GPU") in
  s ← hclib_add_locale_metadata_functions s gpu metadata_size metadata_populate;
  Ok (gpu, s).

(** ** Routines *)

(** The addresses of the routines of a module. *)
Record routines := mkRoutines {
  allocation_func : Z; reallocation_func : Z; free_func : Z; memset_func : Z; copy_func : Z
}.

(** src/modules/system/src/hclib_system.cpp:57-82 (system_post_initialize) *)
Definition system_post_initialize (f : routines) (ids : system_ids) (r : mem_registrations)
    : res mem_registrations :=
  r ← hclib_register_alloc_func r (l1_locale_id ids) (allocation_func f);
  r ← hclib_register_alloc_func r (l2_locale_id ids) (allocation_func f);
  r ← hclib_register_alloc_func r (l3_locale_id ids) (allocation_func f);
  r ← hclib_register_alloc_func r (sysmem_locale_id ids) (allocation_func f);
  r ← hclib_register_realloc_func r (l1_locale_id ids) (reallocation_func f);
  r ← hclib_register_realloc_func r (l2_locale_id ids) (reallocation_func f);
  r ← hclib_register_realloc_func r (l3_locale_id ids) (reallocation_func f);
  r ← hclib_register_realloc_func r (sysmem_locale_id ids) (reallocation_func f);
  r ← hclib_register_free_func r (l1_locale_id ids) (free_func f);
  r ← hclib_register_free_func r (l2_locale_id ids) (free_func f);
  r ← hclib_register_free_func r (l3_locale_id ids) (free_func f);
  r ← hclib_register_free_func r (sysmem_locale_id ids) (free_func f);
  r ← hclib_register_memset_func r (l1_locale_id ids) (memset_func f);
  r ← hclib_register_memset_func r (l2_locale_id ids) (memset_func f);
  r ← hclib_register_memset_func r (l3_locale_id ids) (memset_func f);
  r ← hclib_register_memset_func r (sysmem_locale_id ids) (memset_func f);
  r ← hclib_register_copy_func r (l1_locale_id ids) (copy_func f) MAY_USE;
  r ← hclib_register_copy_func r (l2_locale_id ids) (copy_func f) MAY_USE;
  r ← hclib_register_copy_func r (l3_locale_id ids) (copy_func f) MAY_USE;
  hclib_register_copy_func r (sysmem_locale_id ids) (copy_func f) MAY_USE.

(** CUDA has no routine to reallocate.

    src/modules/cuda/src/hclib_cuda.cpp:169-174 (cuda_post_initialize) *)
Definition cuda_post_initialize (f : routines) (gpu_locale_id : Z) (r : mem_registrations)
    : res mem_registrations :=
  r ← hclib_register_alloc_func r gpu_locale_id (allocation_func f);
  r ← hclib_register_free_func r gpu_locale_id (free_func f);
  r ← hclib_register_memset_func r gpu_locale_id (memset_func f);
  hclib_register_copy_func r gpu_locale_id (copy_func f) MUST_USE.

(** The kinds of copies that CUDA is asked for. *)
Inductive cudaMemcpyKind := cudaMemcpyDeviceToDevice | cudaMemcpyHostToDevice | cudaMemcpyDeviceToHost.

(** src/modules/cuda/src/hclib_cuda.cpp:103-118 (copy_func) *)
Definition copy_kind (gpu_locale_id dst_type src_type : Z) : res cudaMemcpyKind :=
  if (dst_type =? gpu_locale_id) && (src_type =? gpu_locale_id) then Ok cudaMemcpyDeviceToDevice
  else if dst_type =? gpu_locale_id then Ok cudaMemcpyHostToDevice
  else if src_type =? gpu_locale_id then Ok cudaMemcpyDeviceToHost
  else Err AssertFail.

(** ** Closest locales *)

(** src/modules/system/src/hclib_system.cpp:87-92 (get_closest_cpu_locale) *)
Definition get_closest_cpu_locale (ids : system_ids) (cx : hclib_context) (wid : Z) : res (option Z) :=
  let type_arr := [l1_locale_id ids; l2_locale_id ids; l3_locale_id ids; sysmem_locale_id ids] in
  closest ← hclib_get_closest_locale cx wid;
  hclib_get_closest_locale_of_types cx closest type_arr.

(** src/modules/cuda/src/hclib_cuda.cpp:181-184 (get_closest_gpu_locale) *)
Definition get_closest_gpu_locale (gpu_locale_id : Z) (cx : hclib_context) (wid : Z) : res (option Z) :=
  closest ← hclib_get_closest_locale cx wid;
  hclib_get_closest_locale_of_type cx closest gpu_locale_id.

(** src/modules/cuda/src/hclib_cuda.cpp:186-188 (get_gpu_locales) *)
Definition get_gpu_locales (gpu_locale_id : Z) (cx : hclib_context) : list Z :=
  hclib_get_all_locales_of_type cx gpu_locale_id.

(** src/modules/cuda/src/hclib_cuda.cpp:197-199 (get_num_gpu_locales) *)
Definition get_num_gpu_locales (gpu_locale_id : Z) (cx : hclib_context) : res Z :=
  hclib_get_num_locales_of_type cx gpu_locale_id.

(** ** Streams of a device *)

(** src/modules/cuda/src/hclib_cuda.cpp:44-44 (NUM_STREAMS_PER_LOCALE) *)
Definition NUM_STREAMS_PER_LOCALE : Z := 64.

(** src/modules/cuda/src/hclib_cuda.cpp:45-49 (gpu_locale_metadata) *)
Record gpu_locale_metadata := mkGpu { gpu_id : Z; stream_iter : Z; streams : list Z }.

(** The atomic increment wraps and gives the new value; the remainder is C's.

    src/modules/cuda/src/hclib_cuda.cpp:53-62 (get_stream) *)
Definition get_stream (gpu_locale_id type : Z) (metadata : gpu_locale_metadata)
    : res (Z * gpu_locale_metadata) :=
  _ ← hassert (type =? gpu_locale_id);
  let '(stream_index, iter) := hc_atomic_inc (stream_iter metadata) in
  let metadata := mkGpu (gpu_id metadata) iter (streams metadata) in
  i ← int_rem stream_index NUM_STREAMS_PER_LOCALE;
  stream ← array_get (streams metadata) i;
  Ok (stream, metadata).

(** src/modules/cuda/src/hclib_cuda.cpp:64-67 (get_cuda_device_id) *)
Definition get_cuda_device_id (metadata : gpu_locale_metadata) : Z := gpu_id metadata.

Section create.
(** The error codes of CUDA, and what the creation of the i-th stream gives. *)
Context (cudaSuccess cudaErrorNotReady : Z) (cudaStreamCreateWithFlags : Z → Z * Z).

(** src/modules/cuda/src/hclib_cuda.cpp:150-153 (metadata_populate) *)
Fixpoint create_streams (i : Z) (rounds : nat) : res (list Z) :=
  match rounds with
  | O => Ok []
  | Datatypes.S rounds =>
      let '(err, stream) := cudaStreamCreateWithFlags i in
      if negb (err =? cudaSuccess) then Err (ExitCode 1)
      else rest ← create_streams (i + 1) rounds; Ok (stream :: rest)
  end.

(** [gpus_so_far] is returned.

    src/modules/cuda/src/hclib_cuda.cpp:145-154 (metadata_populate) *)
Definition metadata_populate (gpus_so_far : Z) : res (gpu_locale_metadata * Z) :=
  next ← int_add gpus_so_far 1;
  streams ← create_streams 0 (Z.to_nat NUM_STREAMS_PER_LOCALE);
  Ok (mkGpu gpus_so_far 0 streams, next).

(** [err] is what [cudaEventQuery] says; other errors abort.

    src/modules/cuda/src/hclib_cuda.cpp:201-210 (test_cuda_completion) *)
Definition test_cuda_completion (err : Z) : res bool :=
  if negb (err =? cudaSuccess) && negb (err =? cudaErrorNotReady) then Err AssertFail
  else Ok (err =? cudaSuccess).
End create.

(** ** Lemmas: registering *)

(** A table of routines after the registration of [f] for type [i]. *)
Definition adds (i f prio : Z) (t t' : Z → option (Z * Z)) : Prop :=
  ∀ j, t' j = if decide (j = i) then Some (f, prio) else t j.

Lemma register_new list i f prio :
  fptr_list_wf list → 0 <= i < INT_MAX → FptrList.registered list i = None → f ≠ NULL →
  prio = MUST_USE ∨ prio = MAY_USE →
  ∃ l, hclib_register_func list i f prio = Ok l ∧ fptr_list_wf (Some l) ∧
    adds i f prio (FptrList.registered list) (FptrList.registered (Some l)).
Proof.
  intros Hwf Hi Hn Hf Hp. pose proof (register_func_spec list i f prio Hwf Hi Hf) as H.
  destruct (hclib_register_func list i f prio) as [l|e].
  - exists l. destruct H as (_ & _ & Hwf' & Hr). by split.
  - destruct H as [_ [H|H]]; by destruct H.
Qed.

Ltac not_registered :=
  repeat match goal with
  | A : adds _ _ _ _ (FptrList.registered (Some ?l)) |- FptrList.registered (Some ?l) _ = None =>
      rewrite (A _), decide_False by congruence
  end; reflexivity.

(** The next registration of the goal. *)
Ltac register_next :=
  match goal with |- context [hclib_register_func ?list ?i ?f ?p] =>
    let l := fresh "l" in let E := fresh "E" in let W := fresh "W" in let A := fresh "A" in
    destruct (register_new list i f p) as (l & E & W & A);
      [first [assumption | exact I] | assumption | not_registered | assumption | first [by left | by right]
      | rewrite E; clear E; cbn [mbind res_bind alloc_registrations realloc_registrations
          free_registrations memset_registrations copy_registrations]]
  end.

(** ** Lemmas: identifiers *)

Lemma add_known_ok s lbl i s' :
  hclib_add_known_locale_type s lbl = (i, s') →
  0 <= i ∧ known_locale_types s' !! Z.to_nat i = Some lbl ∧
  known_locale_types s `prefix_of` known_locale_types s' ∧
  (length (known_locale_types s') <= length (known_locale_types s) + 1)%nat.
Proof.
  unfold hclib_add_known_locale_type. destruct (index_of _ _ 0) as [k|] eqn:E; intros [= <- <-].
  - apply index_of_Some in E as (Hk & x & Hx & Hl & _). rewrite Z.sub_0_r in Hx.
    unfold same_str in Hl. apply bool_decide_eq_true in Hl as <-. split; [lia|]. split; [done|].
    split; [done|lia].
  - cbn. rewrite length_app, Nat2Z.id. split; [lia|]. rewrite lookup_app_r by lia.
    rewrite Nat.sub_diag. split; [done|]. split; [by eexists|cbn; lia].
Qed.

(** The identifiers are different and small. *)
Definition ids_ok (ids : system_ids) (gpu : Z) : Prop :=
  NoDup [l1_locale_id ids; l2_locale_id ids; l3_locale_id ids; sysmem_locale_id ids; gpu] ∧
  ∀ i, i ∈ [l1_locale_id ids; l2_locale_id ids; l3_locale_id ids; sysmem_locale_id ids; gpu] → 0 <= i < INT_MAX.

(** Types with different names have different identifiers. *)
Lemma different_types (K : list (list Z)) (ids : list Z) xs :
  Forall2 (λ i x, 0 <= i ∧ K !! Z.to_nat i = Some x) ids xs → NoDup xs → NoDup ids.
Proof.
  induction 1 as [|i x ids xs [Hi Hx] HF IH]; intros Hn; [constructor|]. apply NoDup_cons in Hn as [Hnx Hn].
  apply NoDup_cons. split; [|by apply IH]. intros Hin. apply Hnx.
  apply list_elem_of_lookup in Hin as (k & Hk).
  destruct (Forall2_lookup_l _ _ _ _ _ HF Hk) as (y & Hy & _ & Hy').
  assert (x = y) as -> by congruence. by eapply list_elem_of_lookup_2.
Qed.

Lemma pre_initialize_ids s ids s1 size pop gpu s2 :
  system_pre_initialize s = (ids, s1) → cuda_pre_initialize size pop s1 = Ok (gpu, s2) →
  Z.of_nat (length (known_locale_types s)) + 5 < INT_MAX → ids_ok ids gpu.
Proof.
  unfold system_pre_initialize, cuda_pre_initialize. intros H1 H2 Hlen.
  destruct (hclib_add_known_locale_type s (chars "L1")) as [i1 t1] eqn:E1.
  destruct (hclib_add_known_locale_type t1 (chars "L2")) as [i2 t2] eqn:E2.
  destruct (hclib_add_known_locale_type t2 (chars "L3")) as [i3 t3] eqn:E3.
  destruct (hclib_add_known_locale_type t3 (chars "sysmem")) as [i4 t4] eqn:E4.
  injection H1 as <- <-. destruct (hclib_add_known_locale_type t4 (chars "GPU")) as [i5 t5] eqn:E5.
  apply bind_Ok in H2 as (s3 & _ & H2). injection H2 as <- <-. unfold ids_ok. cbn.
  apply add_known_ok in E1 as (B1 & L1 & M1 & N1), E2 as (B2 & L2 & M2 & N2),
    E3 as (B3 & L3 & M3 & N3), E4 as (B4 & L4 & M4 & N4), E5 as (B5 & L5 & M5 & N5).
  apply (prefix_lookup_Some _ _ _ _ L4) in M5 as L4'.
  assert (known_locale_types t5 !! Z.to_nat i3 = Some (chars "L3")) as L3'
    by (eapply prefix_lookup_Some; [exact L3|by etrans]).
  assert (known_locale_types t5 !! Z.to_nat i2 = Some (chars "L2")) as L2'
    by (eapply prefix_lookup_Some; [exact L2|etrans; [exact M3|by etrans]]).
  assert (known_locale_types t5 !! Z.to_nat i1 = Some (chars "L1")) as L1'
    by (eapply prefix_lookup_Some; [exact L1|etrans; [exact M2|etrans; [exact M3|by etrans]]]).
  split.
  - apply (different_types (known_locale_types t5) _ [chars "L1"; chars "L2"; chars "L3"; chars "sysmem"; chars "GPU"]).
    + repeat constructor; done.
    + apply (bool_decide_unpack _). by vm_compute.
  - assert (∀ i x, 0 <= i → known_locale_types t5 !! Z.to_nat i = Some x → i < INT_MAX) as Hb.
    { intros i x Hi Hx. apply lookup_lt_Some in Hx. lia. }
    intros i Hin. set_unfold in Hin. destruct_or!; subst; eauto.
Qed.

(** ** Lemmas: the tables of both modules *)

(** [f] for the types of the machine, [g] for the device. *)
Definition table_of (ids : system_ids) (gpu : Z) (f : Z * Z) (g : option (Z * Z)) (j : Z) : option (Z * Z) :=
  if decide (j = gpu) then g
  else if decide (j = sysmem_locale_id ids) then Some f
  else if decide (j = l3_locale_id ids) then Some f
  else if decide (j = l2_locale_id ids) then Some f
  else if decide (j = l1_locale_id ids) then Some f
  else None.

Definition no_routines : mem_registrations := mkRegistrations None None None None None.

Definition nonnull (f : routines) : Prop :=
  allocation_func f ≠ NULL ∧ reallocation_func f ≠ NULL ∧ free_func f ≠ NULL ∧ memset_func f ≠ NULL ∧
  copy_func f ≠ NULL.

Record tables_ok (f g : routines) (ids : system_ids) (gpu : Z) (r : mem_registrations) : Prop := {
  tables_alloc : ∀ j, FptrList.registered (alloc_registrations r) j =
    table_of ids gpu (allocation_func f, MAY_USE) (Some (allocation_func g, MAY_USE)) j;
  tables_realloc : ∀ j, FptrList.registered (realloc_registrations r) j =
    table_of ids gpu (reallocation_func f, MAY_USE) None j;
  tables_free : ∀ j, FptrList.registered (free_registrations r) j =
    table_of ids gpu (free_func f, MAY_USE) (Some (free_func g, MAY_USE)) j;
  tables_memset : ∀ j, FptrList.registered (memset_registrations r) j =
    table_of ids gpu (memset_func f, MAY_USE) (Some (memset_func g, MAY_USE)) j;
  tables_copy : ∀ j, FptrList.registered (copy_registrations r) j =
    table_of ids gpu (copy_func f, MAY_USE) (Some (copy_func g, MUST_USE)) j;
  tables_wf : ∃ l, copy_registrations r = Some l ∧ fptr_list_wf (Some l);
  tables_realloc_wf : fptr_list_wf (realloc_registrations r)
}.

Ltac table_lookup gpu :=
  intros j; unfold table_of; cbn [l1_locale_id l2_locale_id l3_locale_id sysmem_locale_id];
  repeat match goal with
  | A : adds _ _ _ _ (FptrList.registered (Some ?l)) |- context [FptrList.registered (Some ?l) j] => rewrite (A j)
  end; try reflexivity;
  destruct (decide (j = gpu)) as [->|]; rewrite ?decide_False by congruence; reflexivity.

Lemma post_initialize_tables f g ids gpu :
  ids_ok ids gpu → nonnull f → nonnull g →
  ∃ r1 r2, system_post_initialize f ids no_routines = Ok r1 ∧ cuda_post_initialize g gpu r1 = Ok r2 ∧
    tables_ok f g ids gpu r2.
Proof.
  destruct ids as [i1 i2 i3 i4]. intros [Hnd Hb] (Fa & Fr & Ff & Fm & Fc) (Ga & _ & Gf & Gm & Gc).
  cbn in Hnd, Hb.
  assert (0 <= i1 < INT_MAX) as B1 by (apply Hb; set_solver). assert (0 <= i2 < INT_MAX) as B2 by (apply Hb; set_solver).
  assert (0 <= i3 < INT_MAX) as B3 by (apply Hb; set_solver). assert (0 <= i4 < INT_MAX) as B4 by (apply Hb; set_solver).
  assert (0 <= gpu < INT_MAX) as B5 by (apply Hb; set_solver). clear Hb.
  rewrite !NoDup_cons in Hnd. set_unfold in Hnd.
  unfold system_post_initialize, cuda_post_initialize, hclib_register_alloc_func, hclib_register_realloc_func,
    hclib_register_free_func, hclib_register_memset_func, hclib_register_copy_func, no_routines.
  cbn [mbind res_bind alloc_registrations realloc_registrations free_registrations memset_registrations
    copy_registrations l1_locale_id l2_locale_id l3_locale_id sysmem_locale_id].
  assert (i1 ≠ i2 ∧ i1 ≠ i3 ∧ i1 ≠ i4 ∧ i1 ≠ gpu ∧ i2 ≠ i3 ∧ i2 ≠ i4 ∧ i2 ≠ gpu ∧ i3 ≠ i4 ∧ i3 ≠ gpu ∧ i4 ≠ gpu)
    as (? & ? & ? & ? & ? & ? & ? & ? & ? & ?) by naive_solver. clear Hnd.
  do 20 register_next. match goal with |- ∃ r1 _, Ok ?r = Ok r1 ∧ _ => exists r end.
  cbn [mbind res_bind alloc_registrations realloc_registrations free_registrations memset_registrations
    copy_registrations].
  do 4 register_next. eexists. split; [reflexivity|]. split; [reflexivity|].
  split; cbn [alloc_registrations realloc_registrations free_registrations memset_registrations copy_registrations].
  1-5: table_lookup gpu.
  - by eexists.
  - assumption.
Qed.

Lemma registered_below l i x :
  fptr_list_wf (Some l) → FptrList.registered (Some l) i = Some x → i < fl_capacity l.
Proof.
  destruct x as [f p]. intros (Hl & _) (Hi & Hf & _)%registered_Some. apply lookup_lt_Some in Hf. lia.
Qed.

(** A type of the machine or of the device. *)
Definition known_type (ids : system_ids) (gpu type : Z) : Prop :=
  type ∈ [l1_locale_id ids; l2_locale_id ids; l3_locale_id ids; sysmem_locale_id ids; gpu].

Lemma table_of_known ids gpu f g type :
  known_type ids gpu type → table_of ids gpu f (Some g) type = if decide (type = gpu) then Some g else Some f.
Proof.
  unfold known_type, table_of. intros H. set_unfold in H. repeat case_decide; try done. naive_solver.
Qed.

Lemma copy_routine f g ids gpu r locales dst src ld ls :
  tables_ok f g ids gpu r → ids_ok ids gpu →
  0 <= dst → locales !! Z.to_nat dst = Some ld → known_type ids gpu (loc_type ld) →
  0 <= src → locales !! Z.to_nat src = Some ls → known_type ids gpu (loc_type ls) →
  copy_callback r locales dst src =
    Ok (if decide (loc_type ld = gpu ∨ loc_type ls = gpu) then copy_func g else copy_func f).
Proof.
  intros Ht [_ Hb] Hd Hld Kd Hs Hls Ks. destruct (tables_wf _ _ _ _ _ Ht) as (l & El & Hwf).
  pose proof (tables_copy _ _ _ _ _ Ht) as Hc. rewrite El in Hc.
  pose proof (Hb _ Kd) as Bd. pose proof (Hb _ Ks) as Bs.
  rewrite (copy_callback_chooses r locales dst src ld ls l) by (done || lia).
  rewrite !Hc, !table_of_known by done.
  rewrite (decide_True (P := _ ∧ _)).
  - destruct (decide (loc_type ld = gpu)) as [Ed|Ed], (decide (loc_type ls = gpu)) as [Es|Es];
      ((rewrite (decide_True (P := _ ∨ _)) by tauto) || (rewrite (decide_False (P := _ ∨ _)) by tauto));
      unfold choose_routine; repeat case_decide; try congruence;
      exfalso; unfold MAY_USE, MUST_USE in *; naive_solver lia.
  - split; [eapply (registered_below l _ (if decide (loc_type ld = gpu) then (copy_func g, MUST_USE) else (copy_func f, MAY_USE)))
           |eapply (registered_below l _ (if decide (loc_type ls = gpu) then (copy_func g, MUST_USE) else (copy_func f, MAY_USE)))];
      try done; rewrite Hc, table_of_known by done; by case_decide.
Qed.

(** ** Properties *)

(** C32: the modules for system memory and for CUDA together.  Whatever types were
    known before, initialising both registers every routine without tripping over
    the other's; after that a copy between two locales uses the routine of CUDA
    exactly when one of them is a device (it must be used), and that routine then
    finds the kind of the copy instead of failing its assertion.  On a device
    memory cannot be reallocated: the assertion of [hclib_reallocate_at] fails. *)
Theorem device_routines_cooperate s ids s1 size pop gpu s2 f g :
  system_pre_initialize s = (ids, s1) → cuda_pre_initialize size pop s1 = Ok (gpu, s2) →
  Z.of_nat (length (known_locale_types s)) + 5 < INT_MAX → nonnull f → nonnull g →
  ∃ r1 r2, system_post_initialize f ids no_routines = Ok r1 ∧ cuda_post_initialize g gpu r1 = Ok r2 ∧
    tables_ok f g ids gpu r2 ∧
    (∀ locales dst src ld ls,
       0 <= dst → locales !! Z.to_nat dst = Some ld → known_type ids gpu (loc_type ld) →
       0 <= src → locales !! Z.to_nat src = Some ls → known_type ids gpu (loc_type ls) →
       (copy_callback r2 locales dst src =
          Ok (if decide (loc_type ld = gpu ∨ loc_type ls = gpu) then copy_func g else copy_func f)) ∧
       ((∃ kind, copy_kind gpu (loc_type ld) (loc_type ls) = Ok kind) ↔ loc_type ld = gpu ∨ loc_type ls = gpu)) ∧
    (∀ locales locale l, 0 <= locale → locales !! Z.to_nat locale = Some l → loc_type l = gpu →
       routine_for locales (realloc_registrations r2) locale = Err AssertFail).
Proof.
  intros H1 H2 Hl Hf Hg. pose proof (pre_initialize_ids _ _ _ _ _ _ _ H1 H2 Hl) as Hids.
  destruct (post_initialize_tables f g ids gpu Hids Hf Hg) as (r1 & r2 & E1 & E2 & Ht).
  exists r1, r2. split; [done|]. split; [done|]. split; [done|]. split.
  - intros locales dst src ld ls ??????. split; [by eapply copy_routine|].
    unfold copy_kind. destruct (Z.eqb_spec (loc_type ld) gpu), (Z.eqb_spec (loc_type ls) gpu); cbn; naive_solver.
  - intros locales locale l H0 Hl' <-. unfold routine_for.
    assert (loc_type l < INT_MAX) by (apply Hids; set_solver).
    rewrite (locale_type_ok locales locale l) by (done || lia). cbn [mbind res_bind].
    assert (0 <= loc_type l) by (apply Hids; set_solver).
    rewrite (proj1 (fptr_list_queries _ _ (tables_realloc_wf _ _ _ _ _ Ht) ltac:(done))).
    rewrite (tables_realloc _ _ _ _ _ Ht). unfold table_of. by rewrite decide_True.
Qed.

(** The streams of a device.  While fewer than 2^31 streams have been asked
    for, [get_stream] hands out the 64 streams in turn; then the counter wraps to
    a negative number, C's remainder is negative, and the next access but one is
    outside the array. *)
Theorem get_stream_bounds gpu m :
  length (streams m) = Z.to_nat NUM_STREAMS_PER_LOCALE →
  (0 <= stream_iter m < INT_MAX → ∃ stream,
     streams m !! Z.to_nat ((stream_iter m + 1) mod NUM_STREAMS_PER_LOCALE) = Some stream ∧
     get_stream gpu gpu m = Ok (stream, mkGpu (gpu_id m) (stream_iter m + 1) (streams m))) ∧
  (stream_iter m = INT_MAX → ∃ stream, get_stream gpu gpu m = Ok (stream, mkGpu (gpu_id m) INT_MIN (streams m))) ∧
  (stream_iter m = INT_MIN → get_stream gpu gpu m = Err BadDeref).
Proof.
  intros Hl. unfold get_stream, hassert. rewrite Z.eqb_refl. cbn [mbind res_bind]. unfold hc_atomic_inc. split; [|split].
  - intros Hi. replace ((stream_iter m + 1 - INT_MIN) mod UINT_MOD + INT_MIN) with (stream_iter m + 1)
      by (rewrite Z.mod_small; unfold INT_MIN, INT_MAX, UINT_MOD in *; lia).
    assert (0 <= (stream_iter m + 1) mod NUM_STREAMS_PER_LOCALE < NUM_STREAMS_PER_LOCALE) as Hr
      by (apply Z.mod_pos_bound; unfold NUM_STREAMS_PER_LOCALE; lia).
    assert (int_rem (stream_iter m + 1) NUM_STREAMS_PER_LOCALE = Ok ((stream_iter m + 1) mod NUM_STREAMS_PER_LOCALE)) as ->.
    { unfold int_rem. cbn [Z.eqb]. rewrite Z.rem_mod_nonneg by (unfold NUM_STREAMS_PER_LOCALE; lia).
      rewrite (proj2 (in_int_spec _)); [done|]. rewrite Z.quot_div_nonneg by (unfold NUM_STREAMS_PER_LOCALE; lia).
      pose proof (Z.div_le_upper_bound (stream_iter m + 1) NUM_STREAMS_PER_LOCALE INT_MAX).
      pose proof (Z.div_pos (stream_iter m + 1) NUM_STREAMS_PER_LOCALE).
      unfold NUM_STREAMS_PER_LOCALE, INT_MIN, INT_MAX in *. lia. }
    cbn [mbind res_bind streams].
    destruct (lookup_lt_is_Some_2 (streams m) (Z.to_nat ((stream_iter m + 1) mod NUM_STREAMS_PER_LOCALE))) as [x Hx]; [lia|].
    exists x. split; [done|]. by rewrite (array_get_in _ _ x (proj1 Hr) Hx).
  - intros ->. change ((INT_MAX + 1 - INT_MIN) mod UINT_MOD + INT_MIN) with INT_MIN.
    change (int_rem INT_MIN NUM_STREAMS_PER_LOCALE) with (Ok 0). cbn [mbind res_bind streams].
    destruct (lookup_lt_is_Some_2 (streams m) 0) as [x Hx]; [rewrite Hl; unfold NUM_STREAMS_PER_LOCALE; lia|].
    exists x. by rewrite (array_get_in _ 0 x (Z.le_refl 0) Hx).
  - intros ->. change ((INT_MIN + 1 - INT_MIN) mod UINT_MOD + INT_MIN) with (INT_MIN + 1).
    change (int_rem (INT_MIN + 1) NUM_STREAMS_PER_LOCALE) with (Ok (-63)). cbn [mbind res_bind streams].
    by rewrite array_get_out by (left; lia).
Qed.

(** ** Concrete values *)

Definition sample_routines : routines := mkRoutines 10 11 12 13 14.
Definition cuda_routines : routines := mkRoutines 20 21 22 23 24.
Definition empty_state : locality_state := mkLS [] None None.

Lemma device_routines_cooperate_witness :
  ∃ r1 r2, system_post_initialize sample_routines (mkIds 0 1 2 3) no_routines = Ok r1 ∧
    cuda_post_initialize cuda_routines 4 r1 = Ok r2 ∧ tables_ok sample_routines cuda_routines (mkIds 0 1 2 3) 4 r2.
Proof.
  assert (nonnull sample_routines ∧ nonnull cuda_routines) as [Hf Hg] by (split; repeat split; done).
  destruct (device_routines_cooperate empty_state (mkIds 0 1 2 3) (system_pre_initialize empty_state).2
    100 101 4 (mkLS [chars "L1"; chars "L2"; chars "L3"; chars "sysmem"; chars "GPU"]
      (Some (mkFptrList [0; 0; 0; 0; 100] [0; 0; 0; 0; MAY_USE] 5))
      (Some (mkFptrList [0; 0; 0; 0; 101] [0; 0; 0; 0; MAY_USE] 5)))
    sample_routines cuda_routines) as (r1 & r2 & H1 & H2 & H3 & _);
    [by vm_compute|by vm_compute|by vm_compute|exact Hf|exact Hg|]. exists r1, r2. exact (conj H1 (conj H2 H3)).
Defined.

Definition sample_gpu (iter : Z) : gpu_locale_metadata :=
  mkGpu 0 iter ((λ i, 500 + Z.of_nat i) <$> seq 0 64).

Lemma get_stream_bounds_witness :
  (∃ stream, get_stream 4 4 (sample_gpu 64) = Ok (stream, sample_gpu 65)) ∧
  get_stream 4 4 (sample_gpu INT_MIN) = Err BadDeref.
Proof.
  split.
  - destruct (get_stream_bounds 4 (sample_gpu 64) eq_refl) as [H _].
    destruct H as (x & _ & H); [unfold INT_MAX; cbn; lia|]. exists x. exact H.
  - destruct (get_stream_bounds 4 (sample_gpu INT_MIN) eq_refl) as (_ & _ & H). by apply H.
Defined.
