(* ===== verification/Startup.v ===== *)
(** * The default start

    Without a locality file and without [HCLIB_WORKERS]: the module for system
    memory ([Devices]) adds the types of locale, and [hclib_global_init] ([Init])
    generates a graph of one node per processor around a central one.  The theorem
    says that this start succeeds, and with what. *)

From S2P Require Import Prelude Deque Jsmn LocalityText Locality LocalityRun Pool Affinity Init Mem Devices.
From stdpp Require Import options.

(** ** Abstract specification: the star *)

(** The state of [hclib-locality-graph.c] before any module is called. *)
Definition no_types : locality_state := mkLS [] None None.

(** The central node is locale 0 and the node of worker [i] is locale [i + 1]. *)
Definition central_locale (n : Z) : hclib_locale_t :=
  mkLocale 0 3 (chars "sysmem") None NULL [] (Some true) (replicate (Z.to_nat n) init_hclib_deque_t).

Definition worker_locale (n i : Z) : hclib_locale_t :=
  mkLocale (i + 1) 0 (chars "L1" ++ dec i) None NULL [] (Some true) (replicate (Z.to_nat n) init_hclib_deque_t).

Definition star_paths (n : Z) : list hclib_worker_paths :=
  (λ i, mkPaths [i + 1; 0] [i + 1; 0] 0) <$> seqZ 0 n.

Definition star_locales (n : Z) : list hclib_locale_t :=
  central_locale n :: (worker_locale n <$> seqZ 0 n).

(** ** Lemmas *)

Section default.
Context (run_populate : Z → hclib_locale_t → res hclib_locale_t).

Notation system_types := (system_pre_initialize no_types).2.

(** Before [check_locality_graph] nothing is said of [reachable]. *)
Definition unmarked (l : hclib_locale_t) : hclib_locale_t :=
  mkLocale (loc_id l) (loc_type l) (loc_lbl l) (loc_special_type l) (loc_metadata l) (loc_idle_funcs l) None (loc_deques l).

Lemma central_initialized n :
  0 <= n → initialize_locale run_populate system_types None 0 (chars "sysmem") n = Ok (unmarked (central_locale n)).
Proof.
  intros Hn. unfold initialize_locale.
  replace (locale_type_of system_types (chars "sysmem")) with (Some 3) by by vm_compute.
  rewrite (proj2 (Z.leb_le _ _)) by done. done.
Qed.

Lemma worker_initialized n i :
  0 <= n → initialize_locale run_populate system_types None (i + 1) (chars "L1" ++ dec i) n =
    Ok (unmarked (worker_locale n i)).
Proof.
  intros Hn. unfold initialize_locale.
  replace (locale_type_of system_types (chars "L1" ++ dec i)) with (Some 0).
  - rewrite (proj2 (Z.leb_le _ _)) by done. done.
  - change (known_locale_types system_types) with [chars "L1"; chars "L2"; chars "L3"; chars "sysmem"].
    unfold locale_type_of. change (known_locale_types system_types) with [chars "L1"; chars "L2"; chars "L3"; chars "sysmem"].
    cbn [index_of]. replace (take (length (chars "L1")) (chars "L1" ++ dec i)) with (chars "L1") by by rewrite take_app_length.
    unfold same_str. rewrite (bool_decide_true (chars "L1" = chars "L1")) by done.
    rewrite (proj2 (Z.leb_le _ _)) by (rewrite length_app; lia). done.
Qed.

Lemma generate_locales_star k i nw ls edges wps :
  0 < i → i + Z.of_nat k = 1 + nw → nw < 65535 →
  Z.of_nat (length edges) = (1 + nw) * (1 + nw) →
  ∃ edges', Z.of_nat (length edges') = (1 + nw) * (1 + nw) ∧
    generate_locales run_populate k i system_types nw ls edges wps =
    Ok (ls ++ ((λ j, unmarked (worker_locale nw (j - 1))) <$> seqZ i (Z.of_nat k)), edges',
        wps ++ ((λ j, mkPaths [j; 0] [j; 0] 0) <$> seqZ i (Z.of_nat k))).
Proof.
  revert i ls edges wps. induction k as [|k IH]; intros i ls edges wps Hi Hk Hmax Hl; cbn [generate_locales].
  { exists edges. split; [done|]. by rewrite !app_nil_r. }
  destruct (dec_ok (i - 1)) as (-> & _); [unfold INT_MAX; lia|]. cbn [mbind res_bind].
  pose proof (worker_initialized nw (i - 1) ltac:(lia)) as E. rewrite Z.sub_add in E.
  unfold create_heap_allocated_str. rewrite E. cbn [mbind res_bind]. unfold edge_at.
  rewrite !to_uint_id by (unfold UINT_MOD; nia). rewrite array_set_in by nia. cbn [mbind res_bind].
  rewrite array_set_in by (rewrite length_insert; nia). cbn [mbind res_bind].
  destruct (IH (i + 1) (ls ++ [unmarked (worker_locale nw (i - 1))])
    (<[Z.to_nat (0 * (1 + nw) + i):=Some 1]> (<[Z.to_nat (i * (1 + nw) + 0):=Some 1]> edges))
    (wps ++ [mkPaths [i; 0] [i; 0] 0])) as (edges' & Hl' & E'); [lia|lia|lia|by rewrite !length_insert|].
  exists edges'. split; [done|]. rewrite E'. f_equal.
  rewrite (seqZ_cons i (Z.of_nat (S k))) by lia. replace (Z.pred (Z.of_nat (S k))) with (Z.of_nat k) by lia.
  cbn [fmap list_fmap]. by rewrite <-!app_assoc.
Qed.

Lemma star_paths_shift n : (λ j, mkPaths [j; 0] [j; 0] 0) <$> seqZ 1 n = star_paths n.
Proof.
  unfold star_paths. change (seqZ 1 n) with (seqZ (1 + 0) n). rewrite <-(fmap_add_seqZ 1 0 n), <-list_fmap_compose. apply list_fmap_ext.
  intros i x _. cbn. by rewrite Z.add_comm.
Qed.

Lemma star_locales_shift n :
  (λ j, unmarked (worker_locale n (j - 1))) <$> seqZ 1 n = unmarked <$> (worker_locale n <$> seqZ 0 n).
Proof.
  change (seqZ 1 n) with (seqZ (1 + 0) n). rewrite <-(fmap_add_seqZ 1 0 n), <-!list_fmap_compose. apply list_fmap_ext. intros i x _.
  unfold compose. by replace (1 + x - 1) with x by lia.
Qed.

Lemma generate_star n :
  0 <= n < 65535 → ∃ edges, generate_locality_info run_populate system_types None n =
    Ok (n, mkGraph (unmarked <$> star_locales n) edges, star_paths n).
Proof.
  intros Hn. unfold generate_locality_info. cbn [mbind res_bind]. rewrite (proj2 (Z.leb_le _ _)) by lia.
  cbn [hassert mbind res_bind]. rewrite int_add_id by (unfold INT_MIN, INT_MAX; lia). cbn [mbind res_bind].
  rewrite to_uint_id by (unfold UINT_MOD; nia). unfold create_heap_allocated_str. rewrite central_initialized by lia. cbn [mbind res_bind].
  destruct (generate_locales_star (Z.to_nat n) 1 n [unmarked (central_locale n)]
    (replicate (Z.to_nat ((1 + n) * (1 + n))) None) []) as (edges & _ & E); [lia|lia|lia|rewrite length_replicate; nia|].
  exists edges. rewrite E. cbn [mbind res_bind app]. rewrite Z2Nat.id by lia.
  by rewrite star_paths_shift, star_locales_shift.
Qed.

Lemma star_reachable n i : 1 <= n → 0 <= i <= n → on_some_path (star_paths n) i.
Proof.
  intros Hn Hi. apply Exists_exists. exists (mkPaths [Z.max i 1; 0] [Z.max i 1; 0] 0). split.
  - apply list_elem_of_fmap. exists (Z.max i 1 - 1). split; [by rewrite Z.sub_add|]. apply elem_of_seqZ. lia.
  - left. cbn. destruct (decide (i = 0)) as [->|]; [right; left|]. replace (Z.max i 1) with i by lia. left.
Qed.
End default.

(** ** Properties *)

(** C25: The default start succeeds.  On a machine with [n] processors the module for
    system memory and [hclib_global_init] leave [n] workers and the star: locale 0
    is the central node, of type [sysmem], and locale [i + 1] is the node [L1i] of
    worker [i]; every locale is reachable and has an empty deque per worker; each
    worker pops and steals at its own node first and then at the central one.  The
    bound is that of [n_locales * n_locales], which is unsigned. *)
Theorem default_startup_succeeds run_populate junk n :
  1 <= n < 65535 →
  let '(ids, s) := system_pre_initialize no_types in
  ∃ edges, hclib_global_init run_populate s None junk None n =
      Ok (mkLocality (mkContext (mkGraph (star_locales n) edges) (star_paths n))
            ((λ i, mkWorker i n 0 0) <$> seqZ 0 n)) ∧
    sysmem_locale_id ids = loc_type (central_locale n) ∧
    (∀ i, l1_locale_id ids = loc_type (worker_locale n i)) ∧
    stealable (star_paths n).
Proof.
  intros Hn. change (system_pre_initialize no_types) with (mkIds 0 1 2 3, (system_pre_initialize no_types).2).
  cbn beta iota. destruct (generate_star run_populate n) as (edges & E); [lia|]. exists edges.
  split; [|split; [done|split; [done|]]].
  - unfold hclib_global_init. rewrite E. cbn [mbind res_bind].
    destruct (check_locality_graph_marks (mkGraph (unmarked <$> star_locales n) edges) (star_paths n))
      as ([ls es] & E2 & He & Hlen & Hm).
    { apply Forall_fmap, Forall_forall. intros i Hi%elem_of_seqZ. cbn. unfold n_locales. cbn [gr_locales].
      cbn [length]. rewrite !length_fmap, length_seqZ.
      repeat constructor; cbn; (discriminate || lia). }
    cbn [gr_edges gr_locales] in *. rewrite E2. cbn [mbind res_bind]. rewrite He.
    assert (ls = star_locales n) as ->; [|done].
    apply list_eq_same_length with (length (star_locales n)); [done|by rewrite Hlen, length_fmap|].
    intros i x y Hi Hx Hy. assert (0 <= Z.of_nat i <= n) as Hir.
    { unfold star_locales in Hi. cbn in Hi. rewrite length_fmap, length_seqZ in Hi. lia. }
    specialize (Hm (Z.of_nat i) (unmarked y) ltac:(lia)). rewrite Nat2Z.id, list_lookup_fmap, Hy in Hm.
    specialize (Hm eq_refl). rewrite Hx in Hm. injection Hm as ->.
    rewrite bool_decide_true by (apply star_reachable; lia).
    apply list_elem_of_lookup_2 in Hy. unfold star_locales in Hy.
    apply elem_of_cons in Hy as [->|(j & -> & _)%list_elem_of_fmap]; done.
  - apply same_paths_stealable, Forall_fmap, Forall_true. done.
Qed.

Lemma default_startup_succeeds_witness :
  1 <= 2 < 65535 ∧
  ∃ edges, hclib_global_init (λ _ l, Ok l) (system_pre_initialize no_types).2 None no_token None 2 =
      Ok (mkLocality (mkContext (mkGraph (star_locales 2) edges) (star_paths 2)) [mkWorker 0 2 0 0; mkWorker 1 2 0 0]) ∧
    loc_lbl <$> star_locales 2 = [chars "sysmem"; chars "L10"; chars "L11"].
Proof.
  split; [lia|]. destruct (default_startup_succeeds (λ _ l, Ok l) no_token 2) as (edges & E & _); [lia|].
  exists edges. split; [exact E|by vm_compute].
Defined.
