(* ===== verification/ActiveMessages.v ===== *)
(** * Active messages over OpenSHMEM

    [src/modules/openshmem-am]: [async_remote] copies a lambda, and data that goes
    with it, into a buffer behind a header, and [handler_func] on the other
    processing element calls the lambda from there.  The library copies the buffer
    ([shmemx_am_request]); every processing element runs the same program, so that
    the address of a function is the same everywhere. *)

From S2P Require Import Prelude.
From stdpp Require Import options.

(** src/modules/openshmem-am/src/hclib_openshmem-am.cpp:65-65 (handler_func_id) *)
Definition handler_func_id : Z := 430.

(** ** The header *)

(** src/modules/openshmem-am/inc/hclib_openshmem-am-internal.h:14-18 (am_packet) *)
Record am_packet := mkPacket { lambda_size : Z; user_data_size : Z; fp : Z }.

Definition sizeof_am_packet : Z := 16.

(** The conversions between a [size_t] and an [int], which wrap. *)
Definition int_of_size (n : Z) : Z := (n + 2147483648) mod UINT_MOD - 2147483648.

Definition packet_bytes (p : am_packet) : bytes :=
  Some <$> to_le 4 (to_uint (lambda_size p)) ++ to_le 4 (to_uint (user_data_size p)) ++ to_le 8 (fp p).

(** Reading bytes of a buffer that were written. *)
Definition read_bytes (buf : bytes) (off n : Z) : res (list Z) :=
  b ← block buf off n;
  match mapM id b with Some l => Ok l | None => Err UninitRead end.

Definition read_packet (buf : bytes) : res am_packet :=
  a ← read_bytes buf 0 4;
  b ← read_bytes buf 4 4;
  c ← read_bytes buf 8 8;
  Ok (mkPacket (int_of_size (of_le a)) (int_of_size (of_le b)) (of_le c)).

(** ** Sending *)

(** The arguments of [shmemx_am_request]. *)
Record am_request := mkRequest { req_pe : Z; req_handler : Z; req_buf : bytes; req_nbytes : Z }.

Definition malloc_buffer (n : Z) : bytes := replicate (Z.to_nat n) None.

(** [address] is that of [caller<T>].

    src/modules/openshmem-am/inc/hclib_openshmem-am.h:22-41 (async_remote) *)
Definition async_remote (lambda : list Z) (address pe : Z) : am_request :=
  let sizeof_lambda := Z.of_nat (length lambda) in
  let buf := malloc_buffer (sizeof_am_packet + sizeof_lambda) in
  let buf := set_block buf 0 (packet_bytes (mkPacket (int_of_size sizeof_lambda) 0 address)) in
  let buf := set_block buf sizeof_am_packet (Some <$> lambda) in
  mkRequest pe handler_func_id buf (sizeof_am_packet + sizeof_lambda).

(** [address] is that of [caller_with_user_data<T>].

    src/modules/openshmem-am/inc/hclib_openshmem-am.h:43-63 (async_remote) *)
Definition async_remote_with_user_data (lambda : list Z) (address pe : Z) (user_data : list Z) : am_request :=
  let sizeof_lambda := Z.of_nat (length lambda) in
  let nbytes := Z.of_nat (length user_data) in
  let buf := malloc_buffer (sizeof_am_packet + sizeof_lambda + nbytes) in
  let buf := set_block buf 0
    (packet_bytes (mkPacket (int_of_size sizeof_lambda) (int_of_size nbytes) address)) in
  let buf := set_block buf sizeof_am_packet (Some <$> lambda) in
  let buf := set_block buf (sizeof_am_packet + sizeof_lambda) (Some <$> user_data) in
  mkRequest pe handler_func_id buf (sizeof_am_packet + sizeof_lambda + nbytes).

(** ** Receiving *)

(** The functions of the program that a message can name: an instance for a type
    of lambda of some size. *)
Inductive remote_fn :=
  | Caller (sizeof_T : Z)
  | CallerWithUserData (sizeof_T : Z).

(** The lambda that is called, and the data that it is given. *)
Record remote_run := mkRun { run_lambda : list Z; run_data : option (list Z) }.

(** src/modules/openshmem-am/inc/hclib_openshmem-am.h:10-14 (caller) *)
Definition caller (sizeof_T : Z) (buf : bytes) (lambda : Z) : res remote_run :=
  unwrapped ← read_bytes buf lambda sizeof_T;
  Ok (mkRun unwrapped None).

(** src/modules/openshmem-am/inc/hclib_openshmem-am.h:16-20 (caller_with_user_data) *)
Definition caller_with_user_data (sizeof_T : Z) (buf : bytes) (lambda user_data nbytes : Z) : res remote_run :=
  unwrapped ← read_bytes buf lambda sizeof_T;
  data ← read_bytes buf user_data nbytes;
  Ok (mkRun unwrapped (Some data)).

Section handler.
(** The function at an address; a call through a pointer of another type has
    undefined behaviour. *)
Context (text : Z → option remote_fn).

(** src/modules/openshmem-am/src/hclib_openshmem-am.cpp:67-82 (handler_func) *)
Definition handler_func (msg_new : bytes) (nbytes : Z) : res remote_run :=
  _ ← hassert (nbytes >=? sizeof_am_packet);
  packet ← read_packet msg_new;
  let lambda := sizeof_am_packet in
  if user_data_size packet >? 0 then
    let user_data := lambda + lambda_size packet in
    match text (fp packet) with
    | Some (CallerWithUserData n) =>
        caller_with_user_data n msg_new lambda user_data (to_size (user_data_size packet))
    | _ => Err BadDeref
    end
  else
    match text (fp packet) with
    | Some (Caller n) => caller n msg_new lambda
    | _ => Err BadDeref
    end.

(** What the library does with a request on the other processing element. *)
Definition delivered (r : am_request) : res remote_run := handler_func (req_buf r) (req_nbytes r).
End handler.

(** ** Lemmas *)

Lemma int_of_size_id n : INT_MIN <= n <= INT_MAX → int_of_size (to_uint n) = n.
Proof.
  unfold int_of_size, to_uint, INT_MIN, INT_MAX, UINT_MOD. intros H.
  rewrite Z.add_mod_idemp_l by lia. rewrite Z.mod_small by lia. lia.
Qed.

Lemma int_of_size_small n : 0 <= n <= INT_MAX → int_of_size n = n.
Proof. unfold int_of_size, INT_MAX, UINT_MOD. intros H. rewrite Z.mod_small by lia. lia. Qed.

Lemma int_of_size_range n : INT_MIN <= int_of_size n <= INT_MAX.
Proof.
  unfold int_of_size, INT_MIN, INT_MAX, UINT_MOD.
  pose proof (Z.mod_pos_bound (n + 2147483648) 4294967296 ltac:(lia)). lia.
Qed.

Lemma int_of_size_neg n : 2147483648 <= n < UINT_MOD → int_of_size n = n - UINT_MOD.
Proof.
  unfold int_of_size, UINT_MOD. intros H.
  replace (n + 2147483648) with (n - 2147483648 + 1 * 4294967296) by lia.
  rewrite Z.mod_add, Z.mod_small by lia. lia.
Qed.

Lemma mapM_id_Some (l : list Z) : mapM id (Some <$> l) = Some l.
Proof. induction l as [|b l IH]; [done|]. cbn. cbn in IH. by rewrite IH. Qed.

Lemma read_written buf off n l :
  block buf off n = Ok (Some <$> l) → read_bytes buf off n = Ok l.
Proof.
  intros H. unfold read_bytes. rewrite H. cbn. by rewrite mapM_id_Some.
Qed.

(** A buffer as the pieces it is made of. *)
Lemma block_piece (l1 l2 l3 : bytes) off n :
  off = Z.of_nat (length l1) → n = Z.of_nat (length l2) → block (l1 ++ l2 ++ l3) off n = Ok l2.
Proof.
  intros -> ->. rewrite block_ok by (rewrite ?length_app; lia). f_equal.
  rewrite !Nat2Z.id, drop_app_length. by rewrite take_app_length.
Qed.

Lemma set_block_fill (l : bytes) (n : nat) (b : bytes) off :
  off = Z.of_nat (length l) → (length b <= n)%nat →
  set_block (l ++ replicate n None) off b = (l ++ b) ++ replicate (n - length b) None.
Proof.
  intros -> H. unfold set_block. rewrite Nat2Z.id, take_app_length, <-app_assoc. f_equal. f_equal.
  rewrite drop_app_ge by lia. rewrite drop_replicate. f_equal. lia.
Qed.

Lemma set_block_fresh (n : nat) (b : bytes) :
  (length b <= n)%nat → set_block (replicate n None) 0 b = b ++ replicate (n - length b) None.
Proof. apply (set_block_fill []). done. Qed.

Lemma length_packet p : length (packet_bytes p) = 16%nat.
Proof. unfold packet_bytes. by rewrite length_fmap, !length_app, !length_le. Qed.

Lemma request_bytes lambda address pe :
  req_buf (async_remote lambda address pe) =
  packet_bytes (mkPacket (int_of_size (Z.of_nat (length lambda))) 0 address) ++ (Some <$> lambda) ++ [].
Proof.
  unfold async_remote, malloc_buffer, sizeof_am_packet. cbn [req_buf].
  rewrite set_block_fresh by (rewrite length_packet; lia). rewrite length_packet.
  rewrite set_block_fill by (rewrite ?length_packet, ?length_fmap; lia). rewrite <-app_assoc, length_fmap.
  by replace (Z.to_nat _ - 16 - _)%nat with 0%nat by lia.
Qed.

Lemma request_with_data_bytes lambda address pe data :
  req_buf (async_remote_with_user_data lambda address pe data) =
  packet_bytes (mkPacket (int_of_size (Z.of_nat (length lambda))) (int_of_size (Z.of_nat (length data))) address) ++
  (Some <$> lambda) ++ (Some <$> data) ++ [].
Proof.
  unfold async_remote_with_user_data, malloc_buffer, sizeof_am_packet. cbn [req_buf].
  rewrite set_block_fresh by (rewrite length_packet; lia). rewrite length_packet.
  rewrite set_block_fill by (rewrite ?length_packet, ?length_fmap; lia). rewrite length_fmap.
  rewrite set_block_fill by (rewrite ?length_app, ?length_packet, ?length_fmap; lia).
  rewrite <-!app_assoc, length_fmap. by replace (Z.to_nat _ - 16 - _ - _)%nat with 0%nat by lia.
Qed.

(** The header is read back as it was written. *)
Lemma read_packet_ok n m address rest :
  INT_MIN <= n <= INT_MAX → INT_MIN <= m <= INT_MAX → 0 <= address < SIZE_MOD →
  read_packet (packet_bytes (mkPacket n m address) ++ rest) = Ok (mkPacket n m address).
Proof.
  intros Hn Hm Ha. unfold read_packet, packet_bytes. cbn [lambda_size user_data_size fp].
  rewrite !fmap_app, <-!app_assoc.
  rewrite (read_written _ 0 4 (to_le 4 (to_uint n))).
  2: { apply (block_piece []); rewrite ?length_fmap, ?length_le; done. }
  rewrite (read_written _ 4 4 (to_le 4 (to_uint m))).
  2: { apply block_piece; rewrite ?length_fmap, ?length_le; done. }
  rewrite (read_written _ 8 8 (to_le 8 address)).
  2: { rewrite app_assoc. apply block_piece; rewrite ?length_app, ?length_fmap, ?length_le; done. }
  cbn [mbind res_bind]. rewrite !of_le_le, !int_of_size_id; [done|done|done|exact Ha|apply Z.mod_pos_bound; done..].
Qed.

Section delivery.
Context (text : Z → option remote_fn) (lambda : list Z) (address pe : Z).
Hypotheses (Hl : Z.of_nat (length lambda) <= INT_MAX) (Ha : 0 <= address < SIZE_MOD).

Lemma read_lambda p rest n :
  n = Z.of_nat (length lambda) →
  read_bytes (packet_bytes p ++ (Some <$> lambda) ++ rest) sizeof_am_packet n = Ok lambda.
Proof.
  intros ->. apply read_written, block_piece; [by rewrite length_packet|by rewrite length_fmap].
Qed.

Lemma read_data p data n m :
  n = sizeof_am_packet + Z.of_nat (length lambda) → m = Z.of_nat (length data) →
  read_bytes (packet_bytes p ++ (Some <$> lambda) ++ (Some <$> data) ++ []) n m = Ok data.
Proof.
  intros -> ->. apply read_written. rewrite app_assoc.
  apply block_piece; [rewrite length_app, length_packet, length_fmap; unfold sizeof_am_packet; lia|by rewrite length_fmap].
Qed.
End delivery.

(** C35: a lambda that is sent runs on the other side as it was.  Without data, the
    handler calls [caller] on the bytes of the lambda.  With data of 1 to [INT_MAX]
    bytes it calls [caller_with_user_data] on the lambda and the data.  With no
    bytes of data, or more than [INT_MAX] and less than 2^32, the size that the
    handler reads is not positive: it calls the function of three arguments as one
    of one. *)
Theorem async_remote_roundtrip text lambda address pe data :
  Z.of_nat (length lambda) <= INT_MAX → 0 <= address < SIZE_MOD → Z.of_nat (length data) < UINT_MOD →
  (text address = Some (Caller (Z.of_nat (length lambda))) →
   delivered text (async_remote lambda address pe) = Ok (mkRun lambda None)) ∧
  (text address = Some (CallerWithUserData (Z.of_nat (length lambda))) →
   delivered text (async_remote_with_user_data lambda address pe data) =
     if (1 <=? Z.of_nat (length data)) && (Z.of_nat (length data) <=? INT_MAX)
     then Ok (mkRun lambda (Some data)) else Err BadDeref).
Proof.
  intros Hl Ha Hd. split; intros Ht; unfold delivered, handler_func.
  - rewrite request_bytes. cbn [req_nbytes async_remote].
    rewrite (proj2 (Z.geb_le _ _)) by (unfold sizeof_am_packet; lia). cbn [mbind res_bind hassert].
    rewrite read_packet_ok by (first [apply int_of_size_range|done|unfold INT_MIN, INT_MAX; lia]).
    cbn [mbind res_bind lambda_size user_data_size fp]. cbn [Z.gtb Z.compare]. rewrite Ht. unfold caller.
    by rewrite read_lambda.
  - rewrite request_with_data_bytes. cbn [req_nbytes async_remote_with_user_data].
    rewrite (proj2 (Z.geb_le _ _)) by (unfold sizeof_am_packet; lia). cbn [mbind res_bind hassert].
    rewrite read_packet_ok by (first [apply int_of_size_range|done]).
    cbn [mbind res_bind lambda_size user_data_size fp]. rewrite Ht, (int_of_size_small (Z.of_nat (length lambda))) by lia.
    destruct (Z.leb_spec 1 (Z.of_nat (length data))), (Z.leb_spec (Z.of_nat (length data)) INT_MAX); cbn [andb].
    + rewrite int_of_size_small, (proj2 (Z.gtb_lt _ _)), to_size_id by lia.
      unfold caller_with_user_data. by rewrite read_lambda, read_data.
    + rewrite int_of_size_neg by (unfold INT_MAX in *; lia).
      destruct (Z.gtb_spec (Z.of_nat (length data) - UINT_MOD) 0); [lia|done].
    + by replace (Z.of_nat (length data)) with 0 by lia.
    + unfold INT_MAX in *. lia.
Qed.

(** ** Witness *)

Lemma async_remote_roundtrip_witness :
  delivered (λ a, if a =? 4096 then Some (CallerWithUserData 2) else None)
    (async_remote_with_user_data [7; 8] 4096 1 [1; 2; 3]) = Ok (mkRun [7; 8] (Some [1; 2; 3])).
Proof.
  destruct (async_remote_roundtrip (λ a, if a =? 4096 then Some (CallerWithUserData 2) else None)
    [7; 8] 4096 1 [1; 2; 3]) as [_ H].
  - unfold INT_MAX. cbn. lia.
  - unfold SIZE_MOD. lia.
  - unfold UINT_MOD. cbn. lia.
  - apply H. reflexivity.
Defined.
