(* ===== verification/Instrument.v ===== *)
(** * Instrumentation: the dump files and their parser

    [src/src/hclib-instrument.c] writes, for each thread, a text header with the
    event types and then the thread's events as an array of structs;
    [src/tools/hclib_instrument_parser.c] reads such a file back.  A file is the
    list of its bytes.  The asynchronous writes of the flushes complete at the
    next wait for them.

    [hclib_register_event] is a stub in the source: no run of the program puts an
    event into a buffer.  The flushes and the parser are modelled and proved for
    buffers with any contents ([buffers_roundtrip]); what the program itself
    does is that the dump files hold the header only ([dump_files_parse]). *)

From S2P Require Import Prelude LocalityText.
From stdpp Require Import options.

(** ** Data *)

(** src/inc/hclib-instrument.h:12-15 (event_transition) *)
Inductive event_transition := START | END.

(** src/inc/hclib-instrument.h:20-32 (hclib_instrument_event) *)
Record hclib_instrument_event := mkEvent {
  timestamp_ns : Z;
  event_type : Z;
  transition : Z;
  event_id : Z
}.

(** src/inc/hclib-instrument.h:37-46 (hclib_event_type_info) *)
Record hclib_event_type_info := mkTypeInfo { info_event_type : Z; info_name : list Z }.

(** src/src/hclib-instrument.c:31-31 (EVENT_BUFFER_LENGTH) *)
Definition EVENT_BUFFER_LENGTH : Z := 2048.

(** A write that [aio_write] has started: the thread's file, the offset and the
    bytes. *)
Record aio := mkAio { aio_tid : Z; aio_offset : Z; aio_bytes : list Z }.

(** [flushing] is [flushing_cb], with [None] for one whose [aio_nbytes] is 0; the
    lists are indexed by thread.

    src/src/hclib-instrument.c:33-48 (event_types) *)
Record instrument := mkInstrument {
  event_types : list hclib_event_type_info;
  active_thread_buffers : list (list hclib_instrument_event);
  flushing : option aio;
  dump_files : list (list Z);
  dump_file_offsets : list Z;
  dump_folder : list Z;
  save_nthreads : Z
}.

(** ** Structs as bytes *)

Definition sizeof_event : Z := 24.

(** The last four bytes are padding. *)
Definition event_bytes (e : hclib_instrument_event) : list Z :=
  to_le 8 (timestamp_ns e) ++ to_le 4 (event_type e) ++ to_le 4 (transition e) ++ to_le 4 (event_id e) ++
  replicate 4 0.

Definition event_of_bytes (l : list Z) : hclib_instrument_event :=
  mkEvent (of_le (take 8 l)) (of_le (take 4 (drop 8 l))) (of_le (take 4 (drop 12 l)))
    (of_le (take 4 (drop 16 l))).

(** Writing at an offset extends the file with zeros where needed. *)
Definition write_at (file : list Z) (offset : Z) (bytes : list Z) : list Z :=
  let n := Z.to_nat offset in
  take n file ++ replicate (n - length file) 0 ++ bytes ++ drop (n + length bytes) file.

(** ** The runtime's side *)

Definition set_file (st : instrument) (tid : Z) (file : list Z) : res instrument :=
  files ← array_set (dump_files st) tid file;
  Ok (mkInstrument (event_types st) (active_thread_buffers st) (flushing st) files
    (dump_file_offsets st) (dump_folder st) (save_nthreads st)).

(** Wait for the pending write.

    src/src/hclib-instrument.c:57-69 (flush_events) *)
Definition wait_pending (st : instrument) : res instrument :=
  match flushing st with
  | None => Ok st
  | Some w =>
      file ← array_get (dump_files st) (aio_tid w);
      files ← array_set (dump_files st) (aio_tid w) (write_at file (aio_offset w) (aio_bytes w));
      Ok (mkInstrument (event_types st) (active_thread_buffers st) None files
        (dump_file_offsets st) (dump_folder st) (save_nthreads st))
  end.

(** src/src/hclib-instrument.c:50-83 (flush_events) *)
Definition flush_events (st : instrument) (tid : Z) : res instrument :=
  buffer ← array_get (active_thread_buffers st) tid;
  st ← wait_pending st;
  let bytes := concat (event_bytes <$> buffer) in
  if Z.of_nat (length bytes) >? 0 then
    offset ← array_get (dump_file_offsets st) tid;
    offsets ← array_set (dump_file_offsets st) tid (offset + Z.of_nat (length bytes));
    buffers ← array_set (active_thread_buffers st) tid [];
    Ok (mkInstrument (event_types st) buffers (Some (mkAio tid offset bytes)) (dump_files st)
      offsets (dump_folder st) (save_nthreads st))
  else Ok st.

(** src/src/hclib-instrument.c:85-99 (register_event_type) *)
Definition register_event_type (types : list hclib_event_type_info) (event_name : list Z)
    : Z * list hclib_event_type_info :=
  let n_event_types := Z.of_nat (length types) in
  (n_event_types, types ++ [mkTypeInfo n_event_types event_name]).

(** [sprintf] of [s] into a buffer of [size] bytes, with the terminating NUL;
    a longer text is written past its end. *)
Definition sprintf (size : Z) (s : list Z) : res (list Z) :=
  if Z.of_nat (length s) <? size then Ok s else Err BadDeref.

(** What [%d] prints for an [unsigned int]. *)
Definition as_int (z : Z) : Z := if z <=? INT_MAX then z else z - UINT_MOD.

(** What [%llu] prints: a 64-bit value has at most 20 digits. *)
Fixpoint ull_digits (fuel : nat) (z : Z) : list Z :=
  match fuel with
  | O => []
  | S fuel => (if z / 10 =? 0 then [] else ull_digits fuel (z / 10)) ++ [48 + z mod 10]
  end.

Definition print_ull (z : Z) : list Z := ull_digits 20 z.

(** src/src/hclib-instrument.c:109-115 (write_dump_file_header) *)
Fixpoint header_lines (types : list hclib_event_type_info) : res (list Z) :=
  match types with
  | [] => Ok []
  | type :: types =>
      buf ← sprintf 1024 (dec (info_event_type type) ++ ch " " :: info_name type ++ [10]);
      rest ← header_lines types;
      Ok (buf ++ rest)
  end.

(** The text written; the offset of the thread grows by its length.

    src/src/hclib-instrument.c:101-116 (write_dump_file_header) *)
Definition write_dump_file_header (types : list hclib_event_type_info) : res (list Z) :=
  buf ← sprintf 1024 (dec (Z.of_nat (length types)) ++ [10]);
  rest ← header_lines types;
  Ok (buf ++ rest).

Section with_file_system.
(** The results of [mkdir] and whether [fopen] succeeds, for a path. *)
Context (mkdir : list Z → Z) (fopen : list Z → bool).

(** The file of a thread; the path goes through a buffer of 1024 bytes.

    src/src/hclib-instrument.c:163-164 (initialize_instrumentation) *)
Definition dump_file_path (dump_folder : list Z) (i : Z) : res (list Z) :=
  sprintf 1024 (dump_folder ++ ch "/" :: dec (as_int i)).

(** The contents of the files after their headers are written, from thread [i].

    src/src/hclib-instrument.c:162-172 (initialize_instrumentation) *)
Fixpoint open_dump_files (types : list hclib_event_type_info) (dump_folder : list Z) (n : nat) (i : Z)
    : res (list (list Z)) :=
  match n with
  | O => Ok []
  | S n =>
      filename ← dump_file_path dump_folder i;
      if negb (fopen filename) then Err (ExitCode 1)
      else
        header ← write_dump_file_header types;
        files ← open_dump_files types dump_folder n (i + 1);
        Ok (header :: files)
  end.

(** [HCLIB_DUMP_DIR] or its default.

    src/src/hclib-instrument.c:145-148 (initialize_instrumentation) *)
Definition dump_file_dir (HCLIB_DUMP_DIR : option (list Z)) : list Z :=
  match HCLIB_DUMP_DIR with Some dir => dir | None => chars "/tmp" end.

Definition dump_folder_name (dir : list Z) (current_time : Z) : list Z :=
  dir ++ chars "/hclib." ++ print_ull current_time ++ chars ".dump".

(** The character before the NUL of an empty directory is out of bounds.

    src/src/hclib-instrument.c:123-180 (initialize_instrumentation) *)
Definition initialize_instrumentation (types : list hclib_event_type_info)
    (HCLIB_DUMP_DIR : option (list Z)) (current_time : Z) (nthreads : nat) : res instrument :=
  let dir := dump_file_dir HCLIB_DUMP_DIR in
  c ← array_get dir (Z.of_nat (length dir) - 1);
  _ ← hassert (negb (c =? ch "/"));
  folder ← sprintf 512 (dump_folder_name dir current_time);
  let mkdir_err := mkdir folder in
  _ ← hassert (mkdir_err =? 0);
  files ← open_dump_files types folder nthreads 0;
  Ok (mkInstrument types (replicate nthreads []) None files
    ((λ file, Z.of_nat (length file)) <$> files) folder (Z.of_nat nthreads)).
End with_file_system.

(** src/src/hclib-instrument.c:185-194 (finalize_instrumentation) *)
Fixpoint finalize_loop (st : instrument) (n : nat) (i : Z) : res instrument :=
  match n with
  | O => Ok st
  | S n =>
      st ← flush_events st i;
      st ← flush_events st i;
      finalize_loop st n (i + 1)
  end.

(** The files it leaves.

    src/src/hclib-instrument.c:182-209 (finalize_instrumentation) *)
Definition finalize_instrumentation (st : instrument) : res (list (list Z)) :=
  st ← finalize_loop st (Z.to_nat (save_nthreads st)) 0;
  Ok (dump_files st).

(** Recording is switched off: no event reaches a buffer.

    src/inc/hclib-instrument.h:63-66 (hclib_register_event) *)
Definition hclib_register_event (st : instrument) (event_type transition event_id : Z)
    : Z * instrument := (-1, st).

(** ** The parser's side *)

(** A line with its newline, and the rest; [None] at the end of the file. *)
Fixpoint getline (file : list Z) : option (list Z * list Z) :=
  match file with
  | [] => None
  | c :: file =>
      if c =? 10 then Some ([10], file)
      else match getline file with
           | Some (line, rest) => Some (c :: line, rest)
           | None => Some ([c], [])
           end
  end.

Definition getline_or_fail (file : list Z) : res (list Z * list Z) :=
  match getline file with Some r => Ok r | None => Err AssertFail end.

(** The line up to the first [c] and after it; reading beyond the line's NUL
    is out of bounds. *)
Fixpoint split_at (c : Z) (line : list Z) : res (list Z * list Z) :=
  match line with
  | [] => Err BadDeref
  | x :: line =>
      if x =? c then Ok ([], line)
      else '(before, after) ← split_at c line; Ok (x :: before, after)
  end.

(** src/tools/hclib_instrument_parser.c:70-90 (main) *)
Fixpoint read_types (n : nat) (file : list Z) : res (list hclib_event_type_info * list Z) :=
  match n with
  | O => Ok ([], file)
  | S n =>
      '(line, file) ← getline_or_fail file;
      '(number, rest) ← split_at (ch " ") line;
      event_type_id ← atoi number;
      '(event_name, _) ← split_at 10 rest;
      '(infos, file) ← read_types n file;
      Ok (mkTypeInfo (to_uint event_type_id) event_name :: infos, file)
  end.

(** src/tools/hclib_instrument_parser.c:107-115 (main) *)
Fixpoint read_events (n : nat) (file : list Z) : list hclib_instrument_event :=
  match n with
  | O => []
  | S n => event_of_bytes file :: read_events n (drop (Z.to_nat sizeof_event) file)
  end.

(** The type of an event, of which there must be one.

    src/tools/hclib_instrument_parser.c:120-127 (main) *)
Fixpoint find_type (infos : list hclib_event_type_info) (type : Z)
    (found : option hclib_event_type_info) : res (option hclib_event_type_info) :=
  match infos with
  | [] => Ok found
  | info :: infos =>
      if info_event_type info =? type then
        _ ← hassert (bool_decide (found = None));
        find_type infos type (Some info)
      else find_type infos type found
  end.

(** What the parser prints for an event: time, thread, name, transition, and the
    id, which is unsigned and printed with [%d]. *)
Definition printed : Type := Z * Z * list Z * event_transition * Z.

(** src/tools/hclib_instrument_parser.c:117-146 (main) *)
Definition print_event (infos : list hclib_event_type_info) (thread_id : Z)
    (event : hclib_instrument_event) : res printed :=
  found ← find_type infos (event_type event) None;
  match found with
  | None => Err AssertFail
  | Some info =>
      if transition event =? 0 then
        Ok (timestamp_ns event, thread_id, info_name info, START, as_int (event_id event))
      else if transition event =? 1 then
        Ok (timestamp_ns event, thread_id, info_name info, END, as_int (event_id event))
      else Err (ExitCode 1)
  end.

Fixpoint print_events (infos : list hclib_event_type_info) (thread_id : Z)
    (events : list hclib_instrument_event) : res (list printed) :=
  match events with
  | [] => Ok []
  | e :: events => p ← print_event infos thread_id e; ps ← print_events infos thread_id events; Ok (p :: ps)
  end.

(** The event types of a file, and the rest of it.

    src/tools/hclib_instrument_parser.c:57-90 (main) *)
Definition read_header (file : list Z) : res (list hclib_event_type_info * list Z) :=
  '(line, rest) ← getline_or_fail file;
  n ← atoi line;
  read_types (Z.to_nat (to_uint n)) rest.

(** One file of the directory.

    src/tools/hclib_instrument_parser.c:57-148 (main) *)
Definition parse_file (thread_id : Z) (file : list Z) : res (list printed) :=
  '(infos, rest) ← read_header file;
  let buf_size := Z.of_nat (length rest) in
  if negb (buf_size mod sizeof_event =? 0) then Err (ExitCode 1)
  else print_events infos thread_id (read_events (Z.to_nat (buf_size / sizeof_event)) rest).

(** What a name of the directory stands for. *)
Inductive entry :=
  | Regular (file : list Z)
  | Unreadable               (** a regular file that [fopen] refuses *)
  | NotRegular.

(** The path goes through a buffer of 256 bytes.

    src/tools/hclib_instrument_parser.c:41-55 (main) *)
Definition parse_entry (dir d_name : list Z) (ent : entry) : res (list printed) :=
  absolute_path ← sprintf 256 (dir ++ ch "/" :: d_name);
  match ent with
  | NotRegular => Ok []
  | Unreadable => Err (ExitCode 1)
  | Regular file => thread_id ← atoi d_name; parse_file thread_id file
  end.

(** The names in the order in which [readdir] returns them.

    src/tools/hclib_instrument_parser.c:39-153 (main) *)
Fixpoint parse_dir (dir : list Z) (ents : list (list Z * entry)) : res (list printed) :=
  match ents with
  | [] => Ok []
  | (d_name, ent) :: ents =>
      ps ← parse_entry dir d_name ent;
      rest ← parse_dir dir ents;
      Ok (ps ++ rest)
  end.

(** ** Lemmas: bytes *)

Definition event_ok (e : hclib_instrument_event) : Prop :=
  0 <= timestamp_ns e < 256 ^ 8 ∧ 0 <= event_type e < 256 ^ 4 ∧
  (transition e = 0 ∨ transition e = 1) ∧ 0 <= event_id e < 256 ^ 4.

Lemma length_event_bytes e : length (event_bytes e) = 24%nat.
Proof. unfold event_bytes. by rewrite !length_app, !length_le, length_replicate. Qed.

Lemma event_of_event_bytes e rest : event_ok e → event_of_bytes (event_bytes e ++ rest) = e.
Proof.
  intros (H1 & H2 & H3 & H4). unfold event_of_bytes, event_bytes. rewrite <- !app_assoc.
  change 16%nat with (8 + 4 + 4)%nat. change 12%nat with (8 + 4)%nat.
  rewrite <- !drop_drop, !drop_le, !take_le.
  rewrite !of_le_le by (change (Z.of_nat 8) with 8; change (Z.of_nat 4) with 4; lia).
  by destruct e.
Qed.

Lemma length_events es : length (concat (event_bytes <$> es)) = (24 * length es)%nat.
Proof.
  induction es as [|e es IH]; [done|]. cbn [fmap list_fmap concat length].
  rewrite length_app, length_event_bytes, IH. lia.
Qed.

Lemma read_events_ok es : Forall event_ok es → read_events (length es) (concat (event_bytes <$> es)) = es.
Proof.
  induction 1 as [|e es He Hes IH]; [done|]. cbn [fmap list_fmap concat length read_events].
  rewrite event_of_event_bytes by done. change (Z.to_nat sizeof_event) with 24%nat.
  rewrite drop_app_length' by (by rewrite length_event_bytes). by rewrite IH.
Qed.

Lemma write_at_end file bytes : write_at file (Z.of_nat (length file)) bytes = file ++ bytes.
Proof.
  unfold write_at. rewrite Nat2Z.id, take_ge, Nat.sub_diag, drop_ge by lia. cbn. by rewrite app_nil_r.
Qed.

(** ** Lemmas: lines *)

Lemma getline_ok l rest : 10 ∉ l → getline (l ++ 10 :: rest) = Some (l ++ [10], rest).
Proof.
  induction l as [|c l IH]; intros Hl; [done|]. apply not_elem_of_cons in Hl as [Hc Hl].
  cbn. rewrite (proj2 (Z.eqb_neq c 10)) by done. by rewrite IH.
Qed.

Lemma split_at_ok c l rest : c ∉ l → split_at c (l ++ c :: rest) = Ok (l, rest).
Proof.
  induction l as [|x l IH]; intros Hl; cbn [app split_at]; [by rewrite Z.eqb_refl|].
  apply not_elem_of_cons in Hl as [Hx Hl]. rewrite (proj2 (Z.eqb_neq x c)) by done. by rewrite IH.
Qed.

Lemma digits_val_stop acc s c r :
  Forall (λ c, is_digit c = true) s → is_digit c = false → digits_val acc (s ++ c :: r) = digits_val acc s.
Proof.
  intros Hs Hc. revert acc. induction Hs as [|x s Hx Hs IH]; intros acc; cbn.
  - by rewrite Hc.
  - by rewrite Hx, IH.
Qed.

(** A decimal number is read back, also when a newline follows. *)
Lemma dec_line n :
  0 <= n <= INT_MAX →
  Forall (λ c, is_digit c = true) (dec n) ∧ (length (dec n) <= 32)%nat ∧
  atoi (dec n) = Ok n ∧ atoi (dec n ++ [10]) = Ok n.
Proof.
  intros Hn. destruct (itoa_ok n) as (s & Es & Hs & Hne & Hl & Hv); [unfold INT_MIN; lia|].
  unfold dec. rewrite Es, (proj2 (Z.ltb_ge n 0)) by lia. split; [done|]. split; [done|].
  rewrite Z.abs_eq in Hv by lia. split.
  - rewrite atoi_digits, Hv by done. apply to_int_id. unfold INT_MIN. lia.
  - destruct Hs as [|c s Hc Hs]; [done|]. destruct (digit_not_sign c Hc) as (H1 & H2 & H3 & _).
    unfold atoi. cbn [app skip_space]. rewrite H1, !(proj2 (Z.eqb_neq _ _)) by done.
    rewrite app_comm_cons, digits_val_stop, Hv by (done || by constructor).
    apply to_int_id. unfold INT_MIN. lia.
Qed.

Lemma not_in_digits c s : Forall (λ c, is_digit c = true) s → is_digit c = false → c ∉ s.
Proof. intros Hs Hc Hin. rewrite Forall_forall in Hs. apply Hs in Hin. congruence. Qed.

(** ** Lemmas: the header *)

(** Types as [register_event_type] numbers them, with names that fit on a line. *)
Definition name_ok (name : list Z) : Prop := 10 ∉ name ∧ (length name <= 900)%nat.

Definition types_ok (types : list hclib_event_type_info) : Prop :=
  Z.of_nat (length types) <= INT_MAX ∧
  ∀ i info, types !! i = Some info → info_event_type info = Z.of_nat i ∧ name_ok (info_name info).

Definition line_ok (info : hclib_event_type_info) : Prop :=
  0 <= info_event_type info <= INT_MAX ∧ name_ok (info_name info).

Lemma types_lines types : types_ok types → Forall line_ok types.
Proof.
  intros [Hl Ht]. apply Forall_lookup. intros i info Hi. destruct (Ht i info Hi) as [E Hn].
  pose proof (lookup_lt_Some _ _ _ Hi). split; [lia|done].
Qed.

Lemma not_newline n : 0 <= n <= INT_MAX → 10 ∉ dec n ∧ ch " " ∉ dec n.
Proof. intros Hn. destruct (dec_line n Hn) as [Hd _]. split; by eapply not_in_digits. Qed.

Lemma header_lines_ok types rest :
  Forall line_ok types →
  ∃ text, header_lines types = Ok text ∧ read_types (length types) (text ++ rest) = Ok (types, rest).
Proof.
  induction 1 as [|[id name] types [Hid [Hnl Hlen]] Htypes (text & Etext & Eread)]; [by exists []|].
  cbn [info_event_type info_name] in *. destruct (dec_line id Hid) as (Hd & Hdl & Hatoi & _).
  destruct (not_newline id Hid) as [Hd10 Hdsp].
  exists ((dec id ++ ch " " :: name ++ [10]) ++ text). cbn [header_lines info_event_type info_name]. split.
  - unfold sprintf. rewrite (proj2 (Z.ltb_lt _ _)); [cbn [mbind res_bind]; by rewrite Etext|].
    rewrite length_app. cbn [length]. rewrite length_app. cbn [length]. lia.
  - cbn [length read_types]. unfold getline_or_fail.
    replace (((dec id ++ ch " " :: name ++ [10]) ++ text) ++ rest)
      with ((dec id ++ ch " " :: name) ++ 10 :: text ++ rest)
      by (rewrite <- !app_assoc; cbn; by rewrite <- !app_assoc).
    rewrite getline_ok by (rewrite not_elem_of_app, not_elem_of_cons; by split_and!).
    cbn [mbind res_bind]. rewrite <- app_assoc. cbn [app]. rewrite split_at_ok by done.
    cbn [mbind res_bind]. rewrite Hatoi. cbn [mbind res_bind]. rewrite split_at_ok by done.
    cbn [mbind res_bind]. rewrite Eread. cbn [mbind res_bind]. unfold to_uint.
    rewrite Z.mod_small; [done|]. unfold INT_MAX, UINT_MOD in *. lia.
Qed.

Lemma find_type_none infos type found :
  Forall (λ info, info_event_type info ≠ type) infos → find_type infos type found = Ok found.
Proof.
  induction 1 as [|info infos Hne Hrest IH]; [done|]. cbn. by rewrite (proj2 (Z.eqb_neq _ _)).
Qed.

Lemma find_type_ok types i info :
  types_ok types → types !! i = Some info → find_type types (Z.of_nat i) None = Ok (Some info).
Proof.
  intros [_ Ht] Hi. rewrite <- (take_drop_middle types i info Hi).
  assert (∀ pre infos, Forall (λ x, info_event_type x ≠ Z.of_nat i) pre →
    find_type (pre ++ infos) (Z.of_nat i) None = find_type infos (Z.of_nat i) None) as Hpre.
  { intros pre infos. induction 1 as [|x pre Hne _ IH]; [done|]. cbn.
    by rewrite (proj2 (Z.eqb_neq _ _)). }
  rewrite Hpre.
  - cbn [find_type]. rewrite (proj1 (Ht i info Hi)), Z.eqb_refl. cbn.
    apply find_type_none, Forall_lookup. intros j x Hx. rewrite lookup_drop in Hx.
    rewrite (proj1 (Ht _ _ Hx)). lia.
  - apply Forall_lookup. intros j x [Hx Hlt]%lookup_take_Some. rewrite (proj1 (Ht _ _ Hx)). lia.
Qed.

(** ** Specification: what is printed for an event *)

Definition rendered (types : list hclib_event_type_info) (tid : Z) (e : hclib_instrument_event)
    (p : printed) : Prop :=
  ∃ info, types !! Z.to_nat (event_type e) = Some info ∧
    p = (timestamp_ns e, tid, info_name info, if transition e =? 0 then START else END,
         as_int (event_id e)).

Definition recorded (types : list hclib_event_type_info) (e : hclib_instrument_event) : Prop :=
  event_ok e ∧ event_type e < Z.of_nat (length types).

Lemma print_events_ok types tid es :
  types_ok types → Forall (recorded types) es →
  ∃ ps, print_events types tid es = Ok ps ∧ Forall2 (rendered types tid) es ps.
Proof.
  intros Ht. induction 1 as [|e es [(H1 & H2 & H3 & H4) He] Hes (ps & Eps & Hps)]; [by exists []|].
  destruct (lookup_lt_is_Some_2 types (Z.to_nat (event_type e))) as [info Hinfo]; [lia|].
  pose proof (find_type_ok types _ info Ht Hinfo) as Ef. rewrite Z2Nat.id in Ef by lia.
  exists ((timestamp_ns e, tid, info_name info, if transition e =? 0 then START else END,
    as_int (event_id e)) :: ps).
  split; [|constructor; [by exists info|done]].
  cbn [print_events]. unfold print_event. rewrite Ef. cbn [mbind res_bind].
  destruct H3 as [-> | ->]; cbn [Z.eqb mbind res_bind Pos.eqb]; by rewrite Eps.
Qed.

Lemma parse_file_ok types tid es :
  types_ok types → Forall (recorded types) es →
  ∃ header ps, write_dump_file_header types = Ok header ∧
    read_header (header ++ concat (event_bytes <$> es)) = Ok (types, concat (event_bytes <$> es)) ∧
    parse_file tid (header ++ concat (event_bytes <$> es)) = Ok ps ∧ Forall2 (rendered types tid) es ps.
Proof.
  intros Ht Hes. destruct (header_lines_ok types (concat (event_bytes <$> es)) (types_lines _ Ht))
    as (text & Etext & Eread). destruct (print_events_ok types tid es Ht Hes) as (ps & Eps & Hps).
  set (n := Z.of_nat (length types)). assert (0 <= n <= INT_MAX) as Hn by (destruct Ht; lia).
  destruct (dec_line n Hn) as (Hd & Hdl & _ & Hatoi). destruct (not_newline n Hn) as [Hd10 _].
  assert (read_header (((dec n ++ [10]) ++ text) ++ concat (event_bytes <$> es)) =
    Ok (types, concat (event_bytes <$> es))) as Eh.
  { unfold read_header, getline_or_fail.
    replace (((dec n ++ [10]) ++ text) ++ concat (event_bytes <$> es))
      with (dec n ++ 10 :: text ++ concat (event_bytes <$> es)) by (by rewrite <- !app_assoc).
    rewrite getline_ok by done. cbn [mbind res_bind]. rewrite Hatoi. cbn [mbind res_bind].
    assert (to_uint n = n) as -> by (unfold to_uint; apply Z.mod_small; unfold INT_MAX, UINT_MOD in *; lia).
    unfold n at 1. by rewrite Nat2Z.id, Eread. }
  exists ((dec n ++ [10]) ++ text), ps. split; [|split; [exact Eh|split; [|done]]].
  - unfold write_dump_file_header, sprintf. fold n. rewrite (proj2 (Z.ltb_lt _ _)).
    + cbn [mbind res_bind]. by rewrite Etext.
    + rewrite length_app. cbn [length]. lia.
  - unfold parse_file. rewrite Eh. cbn [mbind res_bind]. rewrite length_events.
    replace (Z.of_nat (24 * length es)) with (Z.of_nat (length es) * sizeof_event)
      by (unfold sizeof_event; lia).
    rewrite Z.mod_mul, Z.div_mul by done. cbn [Z.eqb negb].
    rewrite Nat2Z.id, read_events_ok; [done|]. eapply Forall_impl; [exact Hes|]. by intros e [? _].
Qed.

(** ** Lemmas: the flushes *)

(** No write is pending and every offset is at the end of its file. *)
Record flushed (n : nat) (st : instrument) : Prop := {
  flushed_none : flushing st = None;
  flushed_buffers : length (active_thread_buffers st) = n;
  flushed_files : length (dump_files st) = n;
  flushed_offsets : dump_file_offsets st = (λ file, Z.of_nat (length file)) <$> dump_files st
}.

Definition buffer_bytes (st : instrument) (i : nat) : list Z :=
  match active_thread_buffers st !! i with Some es => concat (event_bytes <$> es) | None => [] end.

Lemma flush_twice n st i :
  flushed n st → (i < n)%nat →
  ∃ file st1 st2, dump_files st !! i = Some file ∧
    flush_events st (Z.of_nat i) = Ok st1 ∧ flush_events st1 (Z.of_nat i) = Ok st2 ∧ flushed n st2 ∧
    dump_files st2 = <[i := file ++ buffer_bytes st i]> (dump_files st) ∧
    (∀ j, j ≠ i → buffer_bytes st2 j = buffer_bytes st j).
Proof.
  intros [Hf Hb Hl Ho] Hi.
  destruct (lookup_lt_is_Some_2 (dump_files st) i) as [file Hfile]; [lia|].
  destruct (lookup_lt_is_Some_2 (active_thread_buffers st) i) as [es Hes]; [lia|].
  assert (buffer_bytes st i = concat (event_bytes <$> es)) as Eb by (unfold buffer_bytes; by rewrite Hes).
  assert (array_get (active_thread_buffers st) (Z.of_nat i) = Ok es) as Hget
    by (apply array_get_Ok; rewrite Nat2Z.id; split; [lia|done]).
  unfold flush_events at 1. rewrite Hget. cbn [mbind res_bind].
  unfold wait_pending at 1. rewrite Hf. cbn [mbind res_bind]. exists file.
  destruct (Z.gtb_spec (Z.of_nat (length (concat (event_bytes <$> es)))) 0) as [Hgt|Hle].
  - assert (array_get (dump_file_offsets st) (Z.of_nat i) = Ok (Z.of_nat (length file))) as Hoff.
    { apply array_get_Ok. rewrite Nat2Z.id, Ho, list_lookup_fmap, Hfile. split; [lia|done]. }
    rewrite Hoff. cbn [mbind res_bind].
    rewrite !array_set_in by (rewrite ?Ho, ?length_fmap; lia). cbn [mbind res_bind].
    rewrite Nat2Z.id. eexists _, _. split; [done|]. split; [done|].
    unfold flush_events. cbn [active_thread_buffers].
    rewrite (proj2 (array_get_Ok _ _ [])).
    2: { rewrite Nat2Z.id, list_lookup_insert_eq by lia. split; [lia|done]. }
    cbn [mbind res_bind]. unfold wait_pending. cbn [flushing dump_files aio_tid aio_offset aio_bytes].
    rewrite (proj2 (array_get_Ok _ _ file)) by (rewrite Nat2Z.id; split; [lia|done]).
    cbn [mbind res_bind]. rewrite array_set_in by lia. cbn [mbind res_bind fmap list_fmap concat length].
    cbn [Z.of_nat Z.gtb Z.compare]. rewrite Nat2Z.id, write_at_end. split; [done|]. rewrite Eb. split; [split|split; [done|]].
    + done.
    + cbn. by rewrite length_insert.
    + cbn. by rewrite length_insert.
    + cbn. rewrite Ho, list_fmap_insert, length_app. f_equal. lia.
    + intros j Hj. unfold buffer_bytes. cbn. by rewrite list_lookup_insert_ne.
  - assert (concat (event_bytes <$> es) = []) as Enil
      by (destruct (concat _); [done|cbn in Hle; lia]).
    exists st, st. split; [done|]. split; [done|]. unfold flush_events. rewrite Hget. cbn [mbind res_bind].
    unfold wait_pending. rewrite Hf. cbn [mbind res_bind]. rewrite Enil. cbn [length Z.of_nat Z.gtb Z.compare].
    split; [done|]. split; [done|]. rewrite Eb, Enil, app_nil_r. split; [by rewrite list_insert_id|done].
Qed.

Lemma finalize_loop_ok n st k i :
  flushed n st → (i + k = n)%nat →
  ∃ st', finalize_loop st k (Z.of_nat i) = Ok st' ∧
    ∀ j file, dump_files st !! j = Some file →
      dump_files st' !! j = Some (if decide (i <= j)%nat then file ++ buffer_bytes st j else file).
Proof.
  revert st i. induction k as [|k IH]; intros st i Hst Hi.
  - exists st. split; [done|]. intros j file Hj. rewrite decide_False; [done|].
    apply lookup_lt_Some in Hj. rewrite (flushed_files _ _ Hst) in Hj. lia.
  - destruct (flush_twice n st i Hst ltac:(lia)) as (f & st1 & st2 & Hf & E1 & E2 & Hst2 & Ef & Eb).
    cbn [finalize_loop]. rewrite E1. cbn [mbind res_bind]. rewrite E2. cbn [mbind res_bind].
    destruct (IH st2 (S i) Hst2 ltac:(lia)) as (st' & E & Hst'). exists st'.
    split; [by replace (Z.of_nat i + 1) with (Z.of_nat (S i)) by lia|].
    intros j file Hj. destruct (decide (j = i)) as [->|Hne].
    + assert (f = file) as -> by congruence.
      rewrite (Hst' i (file ++ buffer_bytes st i)).
      * rewrite decide_False by lia. by rewrite decide_True by lia.
      * rewrite Ef, list_lookup_insert_eq; [done|]. by eapply lookup_lt_Some.
    + rewrite (Hst' j file) by (rewrite Ef, list_lookup_insert_ne; done). rewrite Eb by done.
      destruct (decide (i <= j)%nat), (decide (S i <= j)%nat); try done; lia.
Qed.

Lemma flush_length st tid st' :
  flush_events st tid = Ok st' → length (dump_files st') = length (dump_files st).
Proof.
  unfold flush_events. intros (buffer & _ & (st1 & H1 & H)%bind_Ok)%bind_Ok.
  assert (length (dump_files st1) = length (dump_files st)) as E1.
  { unfold wait_pending in H1. destruct (flushing st); [|by injection H1 as <-].
    apply bind_Ok in H1 as (file & _ & (files & Es & [= <-])%bind_Ok). cbn.
    unfold array_set in Es. apply bind_Ok in Es as (? & _ & [= <-]). apply length_insert. }
  destruct (_ >? 0); [|by injection H as <-].
  apply bind_Ok in H as (o & _ & (os & _ & (bs & _ & [= <-])%bind_Ok)%bind_Ok). done.
Qed.

Lemma finalize_loop_length st n i st' :
  finalize_loop st n i = Ok st' → length (dump_files st') = length (dump_files st).
Proof.
  revert st i. induction n as [|n IH]; intros st i; cbn [finalize_loop]; [by intros [= <-]|].
  intros (st1 & H1%flush_length & (st2 & H2%flush_length & H)%bind_Ok)%bind_Ok.
  rewrite (IH _ _ H). congruence.
Qed.

(** ** Lemmas: the start *)

(** The program's event types: [register_event_type] for each name. *)
Definition register_names (names : list (list Z)) : list hclib_event_type_info :=
  foldl (λ types name, (register_event_type types name).2) [] names.

Lemma register_names_snoc names name :
  register_names (names ++ [name]) =
    register_names names ++ [mkTypeInfo (Z.of_nat (length (register_names names))) name].
Proof. unfold register_names. by rewrite foldl_app. Qed.

Lemma register_names_ok names :
  Forall name_ok names → Z.of_nat (length names) <= INT_MAX → types_ok (register_names names).
Proof.
  intros Hn Hl.
  assert (length (register_names names) = length names ∧ ∀ i info, register_names names !! i = Some info →
    info_event_type info = Z.of_nat i ∧ name_ok (info_name info)) as [El Ht].
  { clear Hl. induction names as [|name names IH] using rev_ind; [done|].
    apply Forall_app in Hn as [Hn [Hname _]%Forall_cons]. destruct (IH Hn) as [El Ht].
    rewrite register_names_snoc, !length_app, El. split; [done|].
    intros i info [Hi|[Hge Hi]]%lookup_app_Some; [by apply Ht|].
    apply list_lookup_singleton_Some in Hi as [E <-]. cbn. split; [lia|done]. }
  split; [lia|done].
Qed.

Lemma length_dec n : 0 <= n <= INT_MAX → (length (dec n) <= 32)%nat ∧ atoi (dec n) = Ok n.
Proof. intros Hn. by destruct (dec_line n Hn) as (_ & ? & ? & _). Qed.

Lemma as_int_id n : n <= INT_MAX → as_int n = n.
Proof. intros H. unfold as_int. by rewrite (proj2 (Z.leb_le _ _)). Qed.

(** The name of a thread's file. *)
Definition thread_file (folder : list Z) (i : Z) : list Z := folder ++ ch "/" :: dec i.

Section start.
Context (mkdir : list Z → Z) (fopen : list Z → bool).

(** No path outgrows its buffer when the folder's did not. *)
Lemma dump_file_path_ok folder i :
  Z.of_nat (length folder) < 512 → 0 <= i <= INT_MAX → dump_file_path folder i = Ok (thread_file folder i).
Proof.
  intros Hf Hi. unfold dump_file_path, thread_file, sprintf. rewrite as_int_id by lia.
  destruct (length_dec i Hi) as [Hd _]. rewrite (proj2 (Z.ltb_lt _ _)); [done|].
  rewrite length_app. cbn [length]. lia.
Qed.

Lemma open_dump_files_ok types folder header n i :
  Z.of_nat (length folder) < 512 → 0 <= i → i + Z.of_nat n <= INT_MAX →
  write_dump_file_header types = Ok header →
  ((∀ j, i <= j < i + Z.of_nat n → fopen (thread_file folder j) = true) →
     open_dump_files fopen types folder n i = Ok (replicate n header)) ∧
  ((∃ files, open_dump_files fopen types folder n i = Ok files) →
     ∀ j, i <= j < i + Z.of_nat n → fopen (thread_file folder j) = true).
Proof.
  intros Hf Hi Hn Hh. revert i Hi Hn. induction n as [|n IH]; intros i Hi Hn; [split; [done|lia]|].
  cbn [open_dump_files]. rewrite dump_file_path_ok by lia. cbn [mbind res_bind]. rewrite Hh.
  destruct (IH (i + 1) ltac:(lia) ltac:(lia)) as [IH1 IH2]. split.
  - intros H. rewrite (H i), IH1 by (lia || (intros j Hj; apply H; lia)). done.
  - intros [files E]. destruct (fopen (thread_file folder i)) eqn:Eo; [|done]. cbn [negb mbind res_bind] in E.
    destruct (open_dump_files fopen types folder n (i + 1)) as [fs|] eqn:Efs; [|done].
    intros j Hj. destruct (decide (j = i)) as [->|Hne]; [done|]. apply IH2; [eauto|lia].
Qed.

(** When the start succeeds: the directory is not empty and does not end in a
    slash, the folder's name fits its buffer, and the system calls succeed. *)
Definition start_ok (dir : list Z) (current_time : Z) (nthreads : nat) : Prop :=
  let folder := dump_folder_name dir current_time in
  (∃ c, last dir = Some c ∧ c ≠ ch "/") ∧ Z.of_nat (length folder) < 512 ∧ mkdir folder = 0 ∧
  ∀ i, 0 <= i < Z.of_nat nthreads → fopen (thread_file folder i) = true.

Lemma last_char (dir : list Z) :
  match last dir with
  | Some c => array_get dir (Z.of_nat (length dir) - 1) = Ok c
  | None => array_get dir (Z.of_nat (length dir) - 1) = Err BadDeref
  end.
Proof.
  rewrite last_lookup. destruct dir as [|c dir]; [done|]. cbn [length].
  replace (Z.of_nat (S (length dir)) - 1) with (Z.of_nat (length dir)) by lia. cbn [Nat.pred].
  destruct (lookup_lt_is_Some_2 (c :: dir) (length dir)) as [x Hx]; [cbn; lia|]. rewrite Hx.
  apply array_get_Ok. rewrite Nat2Z.id. split; [lia|done].
Qed.

Lemma initialize_ok types dump_dir time n header :
  write_dump_file_header types = Ok header → Z.of_nat n <= INT_MAX →
  let dir := dump_file_dir dump_dir in
  (start_ok dir time n →
     initialize_instrumentation mkdir fopen types dump_dir time n =
       Ok (mkInstrument types (replicate n []) None (replicate n header)
         (replicate n (Z.of_nat (length header))) (dump_folder_name dir time) (Z.of_nat n))) ∧
  ((∃ st, initialize_instrumentation mkdir fopen types dump_dir time n = Ok st) → start_ok dir time n).
Proof.
  intros Hh Hn dir. unfold initialize_instrumentation, start_ok. fold dir.
  set (folder := dump_folder_name dir time). pose proof (last_char dir) as Hlast. split.
  - intros ((c & Hc & Hne) & Hl & Hm & Ho). rewrite Hc in Hlast. rewrite Hlast. cbn [mbind res_bind].
    rewrite (proj2 (Z.eqb_neq _ _)) by done. cbn [negb hassert mbind res_bind]. unfold hassert at 1.
    cbn [mbind res_bind]. unfold sprintf. rewrite (proj2 (Z.ltb_lt _ _)) by done. cbn [mbind res_bind].
    rewrite Hm. cbn [Z.eqb]. unfold hassert. cbn [mbind res_bind].
    destruct (open_dump_files_ok types folder header n 0) as [E _]; [done|lia|lia|done|].
    rewrite E by (intros j Hj; apply Ho; lia). cbn [mbind res_bind]. by rewrite fmap_replicate.
  - intros [st E]. destruct (last dir) as [c|]; rewrite Hlast in E; [|done]. cbn [mbind res_bind] in E.
    destruct (Z.eqb_spec c (ch "/")) as [|Hne]; [done|]. unfold hassert in E. cbn [negb mbind res_bind] in E.
    unfold sprintf in E. fold folder in E.
    destruct (Z.ltb_spec (Z.of_nat (length folder)) 512) as [Hl|]; [|done].
    cbn [mbind res_bind] in E. destruct (Z.eqb_spec (mkdir folder) 0) as [Hm|]; [|done].
    cbn [mbind res_bind] in E.
    destruct (open_dump_files fopen types folder n 0) as [files|] eqn:Ef; [|done].
    destruct (open_dump_files_ok types folder header n 0) as [_ Ho]; [done|lia|lia|done|].
    split; [by exists c|]. split; [done|]. split; [done|].
    intros i Hi. apply Ho; [by exists files|lia].
Qed.
End start.

(** The state with these events in the buffers. *)
Definition with_buffers (bufs : list (list hclib_instrument_event)) (st : instrument) : instrument :=
  mkInstrument (event_types st) bufs (flushing st) (dump_files st) (dump_file_offsets st) (dump_folder st)
    (save_nthreads st).

(** The flushes of [finalize_instrumentation] write every buffer behind its header. *)
Lemma finalize_ok types folder header n bufs :
  length bufs = n →
  ∃ files, finalize_instrumentation (mkInstrument types bufs None (replicate n header)
      (replicate n (Z.of_nat (length header))) folder (Z.of_nat n)) = Ok files ∧
    ∀ i es, bufs !! i = Some es → files !! i = Some (header ++ concat (event_bytes <$> es)).
Proof.
  intros Hb. set (st := mkInstrument _ _ _ _ _ _ _).
  assert (flushed n st) as Hst.
  { split; cbn; [done|done|by rewrite length_replicate|by rewrite fmap_replicate]. }
  destruct (finalize_loop_ok n st n 0 Hst eq_refl) as (st' & Ef & Hfiles). exists (dump_files st'). split.
  - unfold finalize_instrumentation. change (save_nthreads st) with (Z.of_nat n). rewrite Nat2Z.id.
    change (Z.of_nat 0) with 0 in Ef. by rewrite Ef.
  - intros i es Hes. pose proof (lookup_lt_Some _ _ _ Hes). rewrite (Hfiles i header).
    + rewrite decide_True by lia. unfold buffer_bytes. cbn. by rewrite Hes.
    + cbn. apply lookup_replicate. split; [done|lia].
Qed.

(** ** Properties *)

(** The flushes and the parser agree on buffers with any contents: had the
    threads recorded these events, the parser would print them, in order, with
    the names of their types (an id from 2^31 on comes out negative).  The
    program records none. *)
Theorem buffers_roundtrip mkdir fopen types dump_dir time n bufs st :
  types_ok types → Z.of_nat n <= INT_MAX → length bufs = n → Forall (Forall (recorded types)) bufs →
  initialize_instrumentation mkdir fopen types dump_dir time n = Ok st →
  ∃ files, finalize_instrumentation (with_buffers bufs st) = Ok files ∧
    ∀ tid es, bufs !! tid = Some es →
      ∃ file ps, files !! tid = Some file ∧ parse_file (Z.of_nat tid) file = Ok ps ∧
        Forall2 (rendered types (Z.of_nat tid)) es ps.
Proof.
  intros Ht Hn Hb Hbufs Hst. destruct (parse_file_ok types 0 [] Ht ltac:(constructor)) as (header & _ & Eh & _).
  destruct (initialize_ok mkdir fopen types dump_dir time n header Eh Hn) as [Hinit Hok].
  rewrite Hinit in Hst by (apply Hok; by exists st). injection Hst as <-.
  destruct (finalize_ok types (dump_folder_name (dump_file_dir dump_dir) time) header n bufs Hb)
    as (files & Ef & Hfiles).
  exists files. split; [exact Ef|]. intros tid es Hes.
  destruct (parse_file_ok types (Z.of_nat tid) es Ht) as (header' & ps & Eh' & _ & Hp & Hps).
  { by eapply (Forall_lookup_1 _ _ _ _ Hbufs). }
  assert (header' = header) as -> by congruence.
  exists (header ++ concat (event_bytes <$> es)), ps. split; [by apply Hfiles|done].
Qed.

(** The calls of [hclib_register_event] that a run makes: type, transition, id. *)
Definition register_events (calls : list (Z * Z * Z)) (st : instrument) : instrument :=
  foldl (λ st '(type, transition, id), (hclib_register_event st type transition id).2) st calls.

(** A name of the dump folder: a thread's file, or no regular file. *)
Definition listed (files : list (list Z)) (x : list Z * entry) : Prop :=
  x.2 = NotRegular ∨ ∃ i file, files !! i = Some file ∧ x = (dec (Z.of_nat i), Regular file).

(** The parser's buffer holds the path. *)
Definition path_fits (folder : list Z) (x : list Z * entry) : Prop :=
  Z.of_nat (length (folder ++ ch "/" :: x.1)) < 256.

#[export] Instance path_fits_dec folder x : Decision (path_fits folder x).
Proof. unfold path_fits. apply _. Defined.

Lemma parse_dir_listed folder files ents :
  Z.of_nat (length files) <= INT_MAX →
  (∀ i file, files !! i = Some file → parse_file (Z.of_nat i) file = Ok []) →
  Forall (listed files) ents →
  parse_dir folder ents = if decide (Forall (path_fits folder) ents) then Ok [] else Err BadDeref.
Proof.
  intros Hn Hf. induction 1 as [|[d_name ent] ents Hx Hents IH]; [by rewrite decide_True by constructor|].
  cbn [parse_dir]. unfold parse_entry, sprintf.
  destruct (Z.ltb_spec (Z.of_nat (length (folder ++ ch "/" :: d_name))) 256) as [Hl|Hl].
  2: { rewrite decide_False; [done|]. intros [Hp _]%Forall_cons. unfold path_fits in Hp. cbn [fst] in Hp. lia. }
  cbn [mbind res_bind].
  assert (match ent with NotRegular => Ok [] | Unreadable => Err (ExitCode 1)
    | Regular file => thread_id ← atoi d_name; parse_file thread_id file end = Ok []) as ->.
  { destruct Hx as [E|(i & file & Hi & [= -> ->])]; [cbn in E; by subst ent|].
    pose proof (lookup_lt_Some _ _ _ Hi). destruct (length_dec (Z.of_nat i)) as [_ ->]; [lia|].
    by apply Hf. }
  cbn [mbind res_bind]. rewrite IH.
  destruct (decide (Forall (path_fits folder) ents)) as [Hall|Hall].
  - rewrite decide_True; [done|]. by constructor.
  - rewrite decide_False; [done|]. by intros [_ ?]%Forall_cons.
Qed.


(** The folder of the example, and one whose name fits the runtime's buffer and
    not the parser's. *)
Definition example_names : list (list Z) := [chars "MPI_SEND"; chars "one sided get"].
Definition created (path : list Z) : Z := 0.
Definition opened (path : list Z) : bool := true.

