(* ===== verification/PromiseConc.v ===== *)
(** * Wait lists under concurrent puts and registrations

    The lock-free wait list of [src/src/hclib-promise.c], one access to shared
    memory at a time: any number of threads spawn tasks on futures and put
    promises, and every put walks the list it closed and registers its tasks on
    their next future.  [Runtime] runs each of these calls as one action; here
    they interleave.  A task that is handed to the scheduler is gone from memory
    at once, because another worker may run and free it. *)

From S2P Require Import Prelude Deque Pool Runtime RuntimeHeap.
From stdpp Require Import options.

(** ** The machine *)

(** Who called [try_schedule_async] or [register_on_all_promise_dependencies]:
    a spawn, or the loop of [hclib_promise_put] with its [next_task]. *)
Inductive caller :=
  | Spawner
  | Waker (next : Z).

(** The point before the next access to shared memory, with the locals read so
    far; [eligible] tells the registration that [is_eligible_to_schedule] makes
    from the one of [hclib_promise_put].

    src/src/hclib-promise.c:132-166 (_register_if_promise_not_ready), from [PutTest]

    src/src/hclib-promise.c:203-245 (hclib_promise_put) *)
Inductive pc :=
  | Idle
  | TrySchedule (t : Z) (c : caller)
  | NextDep (t : Z) (eligible : bool) (c : caller)
  | RegHead (t p : Z) (eligible : bool) (c : caller)       (** read [wait_list_head] *)
  | RegLink (t p head : Z) (eligible : bool) (c : caller)  (** write [next_waiter] *)
  | RegCas (t p head : Z) (eligible : bool) (c : caller)
  | PutTest (p d : Z)                                      (** the assertions *)
  | PutHead (p d : Z)                                      (** read [wait_list_head] *)
  | PutDatum (p d list : Z)
  | PutSatisfied (p list : Z)
  | PutCas (p list : Z)
  | PutReread (p : Z)
  | PutWalk (curr : Z).                                    (** read [next_waiter] *)

(** [p_spawned] and [p_scheduled] log the spawns and the hand-overs to the
    scheduler, each a task with its futures; [p_puts] logs the calls of
    [hclib_promise_put]. *)
Record pstate := mkP {
  p_tasks : gmap Z hclib_task_t;
  p_promises : gmap Z hclib_promise_t;
  p_threads : nat → pc;
  p_spawned : list (Z * list Z);
  p_scheduled : list (Z * list Z);
  p_puts : list (Z * Z)
}.

Definition set_pc (i : nat) (x : pc) (s : pstate) : pstate :=
  mkP (p_tasks s) (p_promises s) (<[i := x]> (p_threads s)) (p_spawned s) (p_scheduled s) (p_puts s).
Definition store_task (t : Z) (tk : hclib_task_t) (s : pstate) : pstate :=
  mkP (<[t := tk]> (p_tasks s)) (p_promises s) (p_threads s) (p_spawned s) (p_scheduled s) (p_puts s).
Definition store_promise (p : Z) (pr : hclib_promise_t) (s : pstate) : pstate :=
  mkP (p_tasks s) (<[p := pr]> (p_promises s)) (p_threads s) (p_spawned s) (p_scheduled s) (p_puts s).

(** After the call. *)
Definition return_pc (c : caller) : pc :=
  match c with Spawner => Idle | Waker next => PutWalk next end.

(** [rt_schedule_async]. *)
Definition hand_over (t : Z) (tk : hclib_task_t) (s : pstate) : pstate :=
  mkP (delete t (p_tasks s)) (p_promises s) (p_threads s) (p_spawned s)
    (p_scheduled s ++ [(t, deps tk)]) (p_puts s).

(** The loops of [register_on_all_promise_dependencies] up to their next call of
    [_register_if_promise_not_ready], which may be none; only the thread that
    has the task reads and writes these fields.

    src/src/hclib-promise.c:172-178 (register_on_all_promise_dependencies) *)
Fixpoint next_inline (fuel : nat) (t : hclib_task_t) : res (option Z * hclib_task_t) :=
  match fuel with
  | O => Err OutOfFuel
  | S fuel =>
      if waiting_on_index t <? MAX_NUM_WAITS - 1 then
        let t := set_index t (waiting_on_index t + 1) in
        curr ← array_get (waiting_on t) (waiting_on_index t);
        if negb (curr =? NULL) then Ok (Some curr, t) else next_inline fuel t
      else Ok (None, t)
  end.

(** src/src/hclib-promise.c:171-195 (register_on_all_promise_dependencies) *)
Definition next_dependency (t : hclib_task_t) : res (option Z * hclib_task_t) :=
  '(d, t) ← next_inline 5 t;
  match d with
  | Some _ => Ok (d, t)
  | None =>
      match waiting_on_extra t with
      | None => Ok (None, t)
      | Some extra =>
          next ← array_get extra (waiting_on_index t - MAX_NUM_WAITS + 1);
          if negb (next =? NULL) then Ok (Some next, set_index t (waiting_on_index t + 1))
          else Ok (None, t)
      end
  end.

(** src/src/hclib-runtime.c:540-570 (try_schedule_async) *)
Definition try_schedule_step (i : nat) (t : Z) (c : caller) (s : pstate) : res pstate :=
  tk ← deref (p_tasks s !! t);
  first ← array_get (waiting_on tk) 0;
  if negb (first =? NULL) then Ok (set_pc i (NextDep t true c) s)
  else Ok (set_pc i (return_pc c) (hand_over t tk s)).

(** src/src/hclib-promise.c:171-195 (register_on_all_promise_dependencies) *)
Definition next_dep_step (i : nat) (t : Z) (eligible : bool) (c : caller) (s : pstate) : res pstate :=
  tk ← deref (p_tasks s !! t);
  '(d, tk) ← next_dependency tk;
  match d with
  | Some p => Ok (set_pc i (RegHead t p eligible c) (store_task t tk s))
  | None =>
      if eligible then Ok (set_pc i (return_pc c) (hand_over t tk s))
      else Ok (set_pc i (TrySchedule t c) (store_task t tk s))
  end.

(** One access of thread [i] in [_register_if_promise_not_ready].

    src/src/hclib-promise.c:135-165 (_register_if_promise_not_ready) *)
Definition register_step (i : nat) (s : pstate) : res pstate :=
  match p_threads s i with
  | RegHead t p eligible c =>
      _ ← hassert (negb (t =? SENTINEL_FUTURE_WAITLIST_PTR));
      pr ← deref (p_promises s !! p);
      if negb (wait_list_head pr =? SATISFIED_FUTURE_WAITLIST_PTR)
      then Ok (set_pc i (RegLink t p (wait_list_head pr) eligible c) s)
      else Ok (set_pc i (NextDep t eligible c) s)
  | RegLink t p head eligible c =>
      tk ← deref (p_tasks s !! t);
      Ok (set_pc i (RegCas t p head eligible c) (store_task t (set_next tk head) s))
  | RegCas t p head eligible c =>
      pr ← deref (p_promises s !! p);
      if wait_list_head pr =? head
      then Ok (set_pc i (return_pc c) (store_promise p (mkPromise (satisfied pr) (datum pr) t) s))
      else Ok (set_pc i (RegHead t p eligible c) s)
  | _ => Err Disabled
  end.

(** One access of thread [i] in [hclib_promise_put].

    src/src/hclib-promise.c:203-245 (hclib_promise_put) *)
Definition put_step (i : nat) (s : pstate) : res pstate :=
  match p_threads s i with
  | PutTest p d =>
      _ ← hassert (negb (p =? NULL));
      pr ← deref (p_promises s !! p);
      _ ← hassert (satisfied pr =? 0);
      Ok (set_pc i (PutHead p d) s)
  | PutHead p d =>
      pr ← deref (p_promises s !! p);
      Ok (set_pc i (PutDatum p d (wait_list_head pr)) s)
  | PutDatum p d list =>
      pr ← deref (p_promises s !! p);
      Ok (set_pc i (PutSatisfied p list)
            (store_promise p (mkPromise (satisfied pr) d (wait_list_head pr)) s))
  | PutSatisfied p list =>
      pr ← deref (p_promises s !! p);
      Ok (set_pc i (PutCas p list)
            (store_promise p (mkPromise 1 (datum pr) (wait_list_head pr)) s))
  | PutCas p list =>
      pr ← deref (p_promises s !! p);
      if wait_list_head pr =? list
      then Ok (set_pc i (PutWalk list)
                 (store_promise p (mkPromise (satisfied pr) (datum pr) SATISFIED_FUTURE_WAITLIST_PTR) s))
      else Ok (set_pc i (PutReread p) s)
  | PutReread p =>
      pr ← deref (p_promises s !! p);
      Ok (set_pc i (PutCas p (wait_list_head pr)) s)
  | PutWalk curr =>
      if negb (curr =? SENTINEL_FUTURE_WAITLIST_PTR) then
        tk ← deref (p_tasks s !! curr);
        Ok (set_pc i (NextDep curr false (Waker (next_waiter tk))) s)
      else Ok (set_pc i Idle s)
  | _ => Err Disabled
  end.

Definition pstep (i : nat) (s : pstate) : res pstate :=
  match p_threads s i with
  | Idle => Err Disabled
  | TrySchedule t c => try_schedule_step i t c s
  | NextDep t eligible c => next_dep_step i t eligible c s
  | RegHead _ _ _ _ | RegLink _ _ _ _ _ | RegCas _ _ _ _ _ => register_step i s
  | _ => put_step i s
  end.

(** A thread that is idle calls [spawn_handler], with the task already filled in
    at a free address and futures of existing promises, or [hclib_promise_put]. *)
Inductive plabel :=
  | CallSpawn (i : nat) (t : Z) (fp : fn) (nb : bool) (futures : list Z)
  | CallPut (i : nat) (p d : Z)
  | Step (i : nat).

Definition plstep (l : plabel) (s : pstate) : res pstate :=
  match l with
  | CallSpawn i t fp nb futures =>
      match p_threads s i with
      | Idle =>
          if bool_decide (p_tasks s !! t = None ∧ t ≠ NULL ∧ t ≠ SENTINEL_FUTURE_WAITLIST_PTR ∧
               Forall (λ p, is_Some (p_promises s !! p)) futures)
          then
            let tk := spawned_task (fresh_task fp nb) NULL None futures in
            Ok (mkP (<[t := tk]> (p_tasks s)) (p_promises s) (<[i := TrySchedule t Spawner]> (p_threads s))
                  (p_spawned s ++ [(t, futures)]) (p_scheduled s) (p_puts s))
          else Err Disabled
      | _ => Err Disabled
      end
  | CallPut i p d =>
      match p_threads s i with
      | Idle =>
          if bool_decide (is_Some (p_promises s !! p)) then
            Ok (mkP (p_tasks s) (p_promises s) (<[i := PutTest p d]> (p_threads s))
                  (p_spawned s) (p_scheduled s) (p_puts s ++ [(p, d)]))
          else Err Disabled
      | _ => Err Disabled
      end
  | Step i => pstep i s
  end.

Fixpoint prun (ls : list plabel) (s : pstate) : res pstate :=
  match ls with
  | [] => Ok s
  | l :: ls => s' ← plstep l s; prun ls s'
  end.

(** Promises that [hclib_promise_init] has just set up, and idle threads. *)
Definition pinit (ps : list Z) : pstate :=
  mkP ∅ (list_to_map ((λ p, (p, mkPromise 0 UNINITIALIZED_PROMISE_DATA_PTR SENTINEL_FUTURE_WAITLIST_PTR)) <$> ps))
    (λ _, Idle) [] [] [].

(** ** Invariant *)

(** Who has a task: a wait list, or the call of a thread. *)
Inductive owner :=
  | Nobody
  | InList (p : Z)
  | Held (i : nat).

#[export] Instance owner_eq_dec : EqDecision owner.
Proof. solve_decision. Defined.

Definition rest (c : caller) : Z :=
  match c with Spawner => SENTINEL_FUTURE_WAITLIST_PTR | Waker next => next end.

(** The promise whose list the thread is about to close. *)
Definition putting (x : pc) : option Z :=
  match x with
  | PutTest p _ | PutHead p _ | PutDatum p _ _ | PutSatisfied p _ | PutCas p _ | PutReread p => Some p
  | _ => None
  end.

Definition sat (s : pstate) (p : Z) : Prop :=
  ∃ pr, p_promises s !! p = Some pr ∧ wait_list_head pr = SATISFIED_FUTURE_WAITLIST_PTR.

(** The extra futures end with [NULL], and the index has not passed it. *)
Definition extra_ok (tk : hclib_task_t) : Prop :=
  ∀ extra, waiting_on_extra tk = Some extra →
    ∃ ps, extra = ps ++ [NULL] ∧ waiting_on_index tk <= 3 + Z.of_nat (length ps).

Definition good (s : pstate) (tk : hclib_task_t) : Prop :=
  task_shape tk ∧ extra_ok tk ∧
  ∀ j q, entry tk j = Some q → q ≠ NULL → is_Some (p_promises s !! q) ∧ q ∈ deps tk.

(** Everything before the index is satisfied; the future at the index is [p]. *)
Definition dep_at (P : Z → Prop) (tk : hclib_task_t) (p : Z) : Prop :=
  entry tk (waiting_on_index tk) = Some p ∧ p ≠ NULL ∧ 0 <= waiting_on_index tk ∧
  upto P tk (waiting_on_index tk - 1).

Definition past (P : Z → Prop) (tk : hclib_task_t) : Prop := upto P tk (waiting_on_index tk).

(** The list that a put has closed and still has to walk. *)
Definition walk (s : pstate) (head : Z) (l : list Z) : Prop :=
  chain (p_tasks s) head l ∧ ∀ t tk, t ∈ l → p_tasks s !! t = Some tk → past (sat s) tk.

(** The thread has task [t], then those it still has to walk. *)
Definition has_task (s : pstate) (l : list Z) (t : Z) (c : caller) (Q : hclib_task_t → Prop) : Prop :=
  ∃ w tk, l = t :: w ∧ walk s (rest c) w ∧ p_tasks s !! t = Some tk ∧ Q tk.

(** The promise the thread is putting. *)
Definition has_promise (s : pstate) (l : list Z) (p : Z) (Q : hclib_promise_t → Prop) : Prop :=
  l = [] ∧ ∃ pr, p_promises s !! p = Some pr ∧
    wait_list_head pr ≠ SATISFIED_FUTURE_WAITLIST_PTR ∧ Q pr.

Definition pc_ok (s : pstate) (l : list Z) (x : pc) : Prop :=
  match x with
  | Idle => l = []
  | TrySchedule t c | NextDep t _ c => has_task s l t c (past (sat s))
  | RegHead t p _ c => has_task s l t c (λ tk, dep_at (sat s) tk p)
  | RegLink t p head _ c =>
      head ≠ SATISFIED_FUTURE_WAITLIST_PTR ∧ has_task s l t c (λ tk, dep_at (sat s) tk p)
  | RegCas t p head _ c =>
      head ≠ SATISFIED_FUTURE_WAITLIST_PTR ∧
      has_task s l t c (λ tk, dep_at (sat s) tk p ∧ next_waiter tk = head)
  | PutTest p d | PutHead p d | PutDatum p d _ =>
      (p, d) ∈ p_puts s ∧ has_promise s l p (λ pr, satisfied pr = 0)
  | PutSatisfied p _ =>
      has_promise s l p (λ pr, satisfied pr = 0 ∧ (p, datum pr) ∈ p_puts s)
  | PutCas p _ | PutReread p =>
      has_promise s l p (λ pr, satisfied pr = 1 ∧ (p, datum pr) ∈ p_puts s)
  | PutWalk curr => walk s curr l
  end.

Definition thread_ok (own : Z → owner) (s : pstate) (i : nat) : Prop :=
  ∃ l, NoDup l ∧ (∀ t, t ∈ l ↔ own t = Held i) ∧ pc_ok s l (p_threads s i).

Definition list_ok (own : Z → owner) (s : pstate) (p : Z) (pr : hclib_promise_t) : Prop :=
  (wait_list_head pr = SATISFIED_FUTURE_WAITLIST_PTR ∧ satisfied pr = 1 ∧ ∀ t, own t ≠ InList p) ∨
  (wait_list_head pr ≠ SATISFIED_FUTURE_WAITLIST_PTR ∧
   ∃ l, chain (p_tasks s) (wait_list_head pr) l ∧ NoDup l ∧ ∀ t, t ∈ l ↔ own t = InList p).

(** What a task in memory is. *)
Definition task_ok (own : Z → owner) (s : pstate) (t : Z) (tk : hclib_task_t) : Prop :=
  t ≠ NULL ∧ t ≠ SENTINEL_FUTURE_WAITLIST_PTR ∧ own t ≠ Nobody ∧ good s tk ∧
  ∀ p, own t = InList p → dep_at (sat s) tk p.

Record heap (own : Z → owner) (s : pstate) : Prop := {
  heap_owned : ∀ t, own t ≠ Nobody → is_Some (p_tasks s !! t);
  heap_task : ∀ t tk, p_tasks s !! t = Some tk → task_ok own s t tk;
  heap_list : ∀ p pr, p_promises s !! p = Some pr → p ≠ NULL ∧ list_ok own s p pr;
  heap_known : ∀ t p, own t = InList p → is_Some (p_promises s !! p)
}.

(** Each promise has at most one put, and a put that is not over closes it. *)
Record puts_ok (s : pstate) : Prop := {
  put_logged : ∀ i p, putting (p_threads s i) = Some p → p ∈ (p_puts s).*1;
  put_once : ∀ i j p, putting (p_threads s i) = Some p → putting (p_threads s j) = Some p → i = j;
  put_closes : ∀ p, p ∈ (p_puts s).*1 → sat s p ∨ ∃ i, putting (p_threads s i) = Some p;
  put_datum : ∀ p pr, p_promises s !! p = Some pr →
    satisfied pr = 0 ∨ satisfied pr = 1 ∧ (p, datum pr) ∈ p_puts s;
  put_none : ∀ p pr, p_promises s !! p = Some pr → p ∉ (p_puts s).*1 →
    satisfied pr = 0 ∧ wait_list_head pr ≠ SATISFIED_FUTURE_WAITLIST_PTR
}.

Record log_ok (s : pstate) : Prop := {
  log_tasks : p_spawned s ≡ₚ p_scheduled s ++ map_to_list (deps <$> p_tasks s);
  log_ready : ∀ t ds p, (t, ds) ∈ p_scheduled s → p ∈ ds → sat s p
}.

Record pinv (own : Z → owner) (s : pstate) : Prop := {
  inv_heap : heap own s;
  inv_threads : ∀ i, thread_ok own s i;
  inv_puts : puts_ok s;
  inv_log : log_ok s
}.

(** ** Lemmas: the next dependency *)

Lemma upto_step P tk i q :
  upto P tk (i - 1) → entry tk i = Some q → q = NULL ∨ P q → upto P tk i.
Proof.
  intros H He Hq j p Hj Hp Hn. destruct (decide (j = i)) as [->|Hne]; [|apply (H j p); [lia|done..]].
  destruct Hq as [->|Hq]; congruence.
Qed.

Lemma next_inline_ok P fuel tk :
  task_shape tk → 0 `max` (3 - waiting_on_index tk) < Z.of_nat fuel → past P tk →
  ∃ d i, next_inline fuel tk = Ok (d, set_index tk i) ∧ waiting_on_index tk <= i ∧
    i <= 3 `max` waiting_on_index tk ∧
    match d with
    | Some p => waiting_on_index tk < i ∧ dep_at P (set_index tk i) p
    | None => 3 <= i ∧ past P (set_index tk i)
    end.
Proof.
  revert tk. induction fuel as [|fuel IH]; intros tk [Hlen Hi] Hf Hp; cbn [next_inline].
  - lia.
  - destruct (Z.ltb_spec (waiting_on_index tk) (MAX_NUM_WAITS - 1)) as [Hlt|Hge].
    + unfold MAX_NUM_WAITS in Hlt. set (i := waiting_on_index tk + 1). set (tk1 := set_index tk i).
      destruct (array_get_lt (waiting_on tk) i) as (q & Hget & Hq); [lia|].
      change (waiting_on tk1) with (waiting_on tk). change (waiting_on_index tk1) with i.
      rewrite Hget. cbn [mbind res_bind].
      assert (entry tk i = Some q) as He.
      { unfold entry, MAX_NUM_WAITS. destruct (Z.ltb_spec i 4); [done|lia]. }
      assert (upto P tk (i - 1)) as Hup by (by replace (i - 1) with (waiting_on_index tk) by lia).
      destruct (Z.eqb_spec q NULL) as [->|Hn]; cbn [negb].
      * destruct (IH tk1) as (d & k & E & Hk & Hk' & Hd).
        { split; [done|cbn; lia]. } { cbn; lia. }
        { change (upto P tk i). by eapply upto_step; [..|left]. }
        exists d, k. cbn in Hk, Hk'. split; [exact E|]. split; [lia|]. split; [lia|].
        destruct d; [split; [lia|apply Hd]|exact Hd].
      * exists (Some q), i. split; [done|]. split; [lia|]. split; [lia|]. split; [lia|].
        split; [exact He|]. split; [done|]. split; [cbn; lia|exact Hup].
    + unfold MAX_NUM_WAITS in Hge. exists None, (waiting_on_index tk). rewrite set_index_id. split; [done|].
      split; [lia|]. split; [lia|]. split; [lia|done].
Qed.

Lemma next_dependency_ok s P tk :
  good s tk → past P tk →
  ∃ d i, next_dependency tk = Ok (d, set_index tk i) ∧ good s (set_index tk i) ∧
    match d with
    | Some p => waiting_on_index tk < i ∧ dep_at P (set_index tk i) p
    | None => waiting_on_index tk <= i ∧ past P (set_index tk i) ∧ ∀ p, p ∈ deps tk → P p
    end.
Proof.
  intros (Hsh & Hex & Hknown) Hp.
  destruct (next_inline_ok P 5 tk Hsh) as (d & i & E & Hi & Hi' & Hd); [destruct Hsh; lia|done|].
  assert (∀ k, waiting_on_index tk <= k →
    (∀ ps, waiting_on_extra tk = Some (ps ++ [NULL]) → k <= 3 + Z.of_nat (length ps)) →
    good s (set_index tk k)) as Hgood.
  { intros k Hk Hbound. destruct Hsh. split; [split; [done|cbn; lia]|]. split; [|exact Hknown].
    intros extra He. destruct (Hex extra He) as (ps & -> & _). exists ps. split; [done|].
    by apply Hbound. }
  assert (good s (set_index tk i)) as Hgi.
  { apply Hgood; [done|]. intros ps He. destruct (Hex _ He) as (ps' & [-> _]%app_inj_tail & Hb). lia. }
  unfold next_dependency. rewrite E. cbn [mbind res_bind].
  destruct d as [q|]; [by exists (Some q), i|]. destruct Hd as [Hi3 Hpast].
  change (waiting_on_extra (set_index tk i)) with (waiting_on_extra tk).
  change (waiting_on_index (set_index tk i)) with i.
  destruct (waiting_on_extra tk) as [extra|] eqn:He.
  2: { exists None, i. split; [done|]. split; [done|]. split; [done|]. split; [done|].
       apply (upto_deps P tk i); [apply Hsh|exact Hpast|unfold MAX_NUM_WAITS; lia|congruence]. }
  destruct (proj1 (proj2 Hgi) extra He) as (ps & -> & Hb). cbn in Hb. unfold MAX_NUM_WAITS.
  destruct (array_get_lt (ps ++ [NULL]) (i - 4 + 1)) as (q & Hget & Hq).
  { rewrite length_app. cbn. lia. }
  rewrite Hget. cbn [mbind res_bind]. destruct (Z.eqb_spec q NULL) as [->|Hn]; cbn [negb].
  - exists None, i. split; [done|]. split; [done|]. split; [done|]. split; [done|].
    apply (upto_deps P tk i); [apply Hsh|exact Hpast|unfold MAX_NUM_WAITS; lia|].
    intros extra E'. by assert (extra = ps ++ [NULL]) as -> by congruence.
  - exists (Some q), (i + 1). split; [done|].
    assert (i - 4 + 1 < Z.of_nat (length ps)) as Hlt.
    { destruct (decide (i - 4 + 1 = Z.of_nat (length ps))) as [Heq|]; [|lia].
      rewrite Heq, Nat2Z.id, list_lookup_middle in Hq by done. congruence. }
    split; [apply Hgood; [lia|]|].
    { intros ps' [= [-> _]%app_inj_tail]. lia. }
    split; [lia|]. split; [|split; [done|split; [cbn; lia|]]].
    + unfold entry, MAX_NUM_WAITS. cbn [waiting_on_index waiting_on_extra set_index].
      destruct (Z.ltb_spec (i + 1) 4); [lia|]. rewrite He. by replace (i + 1 - 4) with (i - 4 + 1) by lia.
    + cbn [waiting_on_index set_index]. replace (i + 1 - 1) with i by lia. exact Hpast.
Qed.

(** ** Lemmas: what one access changes *)

Lemma chain_frame ts ts' h l :
  (∀ t, t ∈ l → ts' !! t = ts !! t) → chain ts h l → chain ts' h l.
Proof. intros H. apply chain_same_next. intros t Ht. by rewrite H. Qed.

Lemma upto_mono (P Q : Z → Prop) tk i : (∀ p, P p → Q p) → upto P tk i → upto Q tk i.
Proof. intros H Hu j p Hj Hp Hn. apply H. by apply (Hu j). Qed.

Lemma dep_at_mono (P Q : Z → Prop) tk p : (∀ p, P p → Q p) → dep_at P tk p → dep_at Q tk p.
Proof. intros H (?&?&?&?). split; [done|]. split; [done|]. split; [done|]. by eapply upto_mono. Qed.

Lemma walk_frame s s' h l :
  (∀ t, t ∈ l → p_tasks s' !! t = p_tasks s !! t) → (∀ p, sat s p → sat s' p) →
  walk s h l → walk s' h l.
Proof.
  intros Hs Hsat [Hc Hp]. split; [by eapply chain_frame|]. intros t tk Ht.
  rewrite Hs by done. intros E. eapply upto_mono; [exact Hsat|]. by eapply Hp.
Qed.

Lemma has_task_frame s s' l t c (Q Q' : hclib_task_t → Prop) :
  has_task s l t c Q → (∀ t, t ∈ l → p_tasks s' !! t = p_tasks s !! t) →
  (∀ p, sat s p → sat s' p) → (∀ tk, Q tk → Q' tk) → has_task s' l t c Q'.
Proof.
  intros (w & tk & -> & Hc & Ht & HQ) Hs Hsat HQ'. exists w, tk. split; [done|]. split.
  - eapply walk_frame; [|done|done]. intros t' Ht'. apply Hs. by right.
  - split; [|auto]. rewrite Hs; [done|by left].
Qed.

Definition keeps (s s' : pstate) (p : Z) : Prop :=
  ∀ pr, p_promises s !! p = Some pr → ∃ pr', p_promises s' !! p = Some pr' ∧
    satisfied pr' = satisfied pr ∧ datum pr' = datum pr ∧
    (wait_list_head pr ≠ SATISFIED_FUTURE_WAITLIST_PTR →
     wait_list_head pr' ≠ SATISFIED_FUTURE_WAITLIST_PTR).

Lemma has_promise_frame s s' l p (Q Q' : hclib_promise_t → Prop) :
  has_promise s l p Q → keeps s s' p →
  (∀ pr pr', satisfied pr' = satisfied pr → datum pr' = datum pr → Q pr → Q' pr') →
  has_promise s' l p Q'.
Proof.
  intros (-> & pr & Hp & Hh & HQ) Hk HQ'. destruct (Hk pr Hp) as (pr' & ? & ? & ? & ?).
  split; [done|]. exists pr'. split; [done|]. split; [auto|]. by eapply HQ'.
Qed.

Lemma pc_ok_frame s s' l x :
  pc_ok s l x → (∀ t, t ∈ l → p_tasks s' !! t = p_tasks s !! t) →
  (∀ p, sat s p → sat s' p) → (∀ p, putting x = Some p → keeps s s' p) →
  p_puts s ⊆ p_puts s' → pc_ok s' l x.
Proof.
  intros H Ht Hsat Hk Hputs. destruct x; cbn in *; try done.
  1-3: eapply has_task_frame; [done..|]; intros tk; try (by apply upto_mono); by apply dep_at_mono.
  1-2: destruct H as [? H]; split; [done|]; eapply has_task_frame; [done..|];
    intros tk; try (intros [HQ ?]; split; [|done]; revert HQ); by apply dep_at_mono.
  1-3: destruct H as [? H]; split; [by apply Hputs|]; eapply has_promise_frame; [done|by apply Hk|]; congruence.
  1-3: eapply has_promise_frame; [done|by apply Hk|]; intros pr pr' -> -> [-> ?]; split; [done|by apply Hputs].
  by eapply walk_frame.
Qed.

Lemma threads_step own s own' s' i x l :
  (∀ j, thread_ok own s j) → puts_ok s → p_threads s' = <[i := x]> (p_threads s) →
  (∀ t j, j ≠ i → own' t = Held j ↔ own t = Held j) →
  (∀ t j, j ≠ i → own t = Held j → p_tasks s' !! t = p_tasks s !! t) →
  (∀ p, sat s p → sat s' p) →
  (∀ p, putting (p_threads s i) ≠ Some p → keeps s s' p) → p_puts s ⊆ p_puts s' →
  NoDup l → (∀ t, t ∈ l ↔ own' t = Held i) → pc_ok s' l x → ∀ j, thread_ok own' s' j.
Proof.
  intros Hthr Hputs Ex Hown Htasks Hsat Hkeep Hsub Hnd Hl Hok j.
  destruct (decide (j = i)) as [->|Hne].
  - exists l. rewrite Ex, fn_lookup_insert. done.
  - destruct (Hthr j) as (lj & Hndj & Hlj & Hokj). exists lj. split; [done|].
    split; [intros t; rewrite Hlj, Hown; done|]. rewrite Ex, fn_lookup_insert_ne by done.
    eapply pc_ok_frame; [done| |done| |done].
    + intros t Ht. apply (Htasks t j); [done|]. by apply Hlj.
    + intros p Hp. apply Hkeep. intros Hi. apply Hne. by eapply (put_once s Hputs).
Qed.


(** The promises of [s'] are those of [s], up to what a put in progress and a
    registration may change. *)
Definition comes_from (s s' : pstate) : Prop :=
  ∀ p pr', p_promises s' !! p = Some pr' → ∃ pr, p_promises s !! p = Some pr ∧
    ((satisfied pr' = satisfied pr ∧ datum pr' = datum pr ∧
      (wait_list_head pr ≠ SATISFIED_FUTURE_WAITLIST_PTR →
       wait_list_head pr' ≠ SATISFIED_FUTURE_WAITLIST_PTR)) ∨
     (p ∈ (p_puts s).*1 ∧ (satisfied pr' = 0 ∨ satisfied pr' = 1 ∧ (p, datum pr') ∈ p_puts s))).

Lemma puts_step s s' i x :
  puts_ok s → p_threads s' = <[i := x]> (p_threads s) → p_puts s' = p_puts s →
  (putting x = putting (p_threads s i) ∨
   putting x = None ∧ ∀ p, putting (p_threads s i) = Some p → sat s' p) →
  (∀ p, sat s p → sat s' p) → comes_from s s' → puts_ok s'.
Proof.
  intros [Hlog Honce Hclose Hdatum Hnone] Ex Ep Hx Hsat Hfrom.
  assert (∀ j p, putting (p_threads s' j) = Some p → putting (p_threads s j) = Some p) as Hput.
  { intros j p. rewrite Ex. destruct (decide (j = i)) as [->|Hne].
    - rewrite fn_lookup_insert. destruct Hx as [->|[-> _]]; done.
    - by rewrite fn_lookup_insert_ne. }
  split; rewrite ?Ep.
  - intros j p Hj. by eapply Hlog, Hput.
  - intros j k p Hj Hk. by eapply Honce; apply Hput.
  - intros p Hp. destruct (Hclose p Hp) as [Hs|[j Hj]]; [left; auto|].
    destruct (decide (j = i)) as [->|Hne].
    + destruct Hx as [Hx|[_ Hx]]; [right; exists i; by rewrite Ex, fn_lookup_insert, Hx|left; auto].
    + right. exists j. by rewrite Ex, fn_lookup_insert_ne.
  - intros p pr' Hp. destruct (Hfrom p pr' Hp) as (pr & Hpr & [(-> & -> & _)|[_ ?]]); [|done]. by apply Hdatum.
  - intros p pr' Hp Hnp. destruct (Hfrom p pr' Hp) as (pr & Hpr & [(-> & _ & Hh)|[? _]]); [|done].
    destruct (Hnone p pr Hpr Hnp). auto.
Qed.

Lemma comes_same s s' : p_promises s' = p_promises s → comes_from s s'.
Proof. intros E p pr' Hp. rewrite E in Hp. exists pr'. split; [done|]. by left. Qed.

Lemma keeps_same s s' p : p_promises s' = p_promises s → keeps s s' p.
Proof. intros E pr Hp. exists pr. by rewrite E. Qed.

Lemma sat_same s s' p : p_promises s' = p_promises s → sat s p → sat s' p.
Proof. intros E (pr & Hp & ?). exists pr. by rewrite E. Qed.

Lemma good_frame s s' tk :
  (∀ p, is_Some (p_promises s !! p) → is_Some (p_promises s' !! p)) → good s tk → good s' tk.
Proof. intros H (?&?&Hk). split; [done|]. split; [done|]. intros j q Hq Hn. destruct (Hk j q Hq Hn) as [? ?]. auto. Qed.

Lemma heap_ext own s s' :
  p_tasks s' = p_tasks s → p_promises s' = p_promises s → heap own s → heap own s'.
Proof.
  destruct s, s'. cbn. intros -> -> [H1 H2 H3 H4].
  split; [exact H1|exact H2|exact H3|exact H4].
Qed.

Lemma log_step s s' :
  log_ok s → deps <$> p_tasks s' = deps <$> p_tasks s → p_spawned s' = p_spawned s →
  p_scheduled s' = p_scheduled s → (∀ p, sat s p → sat s' p) → log_ok s'.
Proof.
  intros [Hl Hr] Ed Es Ec Hsat. split; rewrite ?Ec, ?Es, ?Ed; [done|].
  intros t ds p Ht Hp. apply Hsat. by apply (Hr t ds).
Qed.

(** A thread that only moves on. *)
Lemma pinv_pc own s i x l :
  pinv own s → NoDup l → (∀ t, t ∈ l ↔ own t = Held i) → pc_ok s l x →
  putting x = putting (p_threads s i) → pinv own (set_pc i x s).
Proof.
  intros [Hh Ht Hp Hl] Hnd Hll Hx Hput. split.
  - by apply (heap_ext own s).
  - eapply (threads_step own s own _ i x l); try done. intros p _. by apply keeps_same.
  - eapply (puts_step s _ i x); [done..|by left|done|by apply comes_same].
  - by apply (log_step s).
Qed.

(** ** Lemmas: writes to a task *)

Lemma list_ok_frame own s s' p pr :
  (∀ t, own t = InList p → p_tasks s' !! t = p_tasks s !! t) →
  list_ok own s p pr → list_ok own s' p pr.
Proof.
  intros Hs [H|(Hn & l & Hc & Hnd & Hl)]; [by left|]. right. split; [done|]. exists l.
  split; [|done]. eapply chain_frame; [|done]. intros t Ht. apply Hs. by apply Hl.
Qed.

Lemma heap_store own s i t tk tk' :
  heap own s → own t = Held i → p_tasks s !! t = Some tk → good s tk' →
  heap own (store_task t tk' s).
Proof.
  intros [H1 H2 H3 H4] Ho Ht Hg. split.
  - intros t' Ht'. cbn. destruct (decide (t' = t)) as [->|Hne];
      [rewrite lookup_insert_eq; eauto|rewrite lookup_insert_ne by done; auto].
  - intros t' tk0. cbn. destruct (decide (t' = t)) as [->|Hne].
    + rewrite lookup_insert_eq. intros [= <-]. destruct (H2 t tk Ht) as (?&?&?&_).
      do 3 (split; [done|]). split; [done|]. congruence.
    + rewrite lookup_insert_ne by done. apply H2.
  - intros p pr Hp. destruct (H3 p pr Hp) as [Hn Hl]. split; [done|].
    eapply list_ok_frame; [|exact Hl]. intros t' Ht'. cbn. rewrite lookup_insert_ne; [done|congruence].
  - exact H4.
Qed.

(** A thread that writes the task it has. *)
Lemma pinv_store own s i t tk tk' x l :
  pinv own s → NoDup l → (∀ t, t ∈ l ↔ own t = Held i) → own t = Held i →
  p_tasks s !! t = Some tk → good s tk' → deps tk' = deps tk →
  pc_ok (store_task t tk' s) l x → putting x = None → putting (p_threads s i) = None →
  pinv own (set_pc i x (store_task t tk' s)).
Proof.
  intros [Hh Hthr Hp Hl] Hnd Hll Ho Ht Hg Hd Hx Hput Hput'. split.
  - apply (heap_ext own (store_task t tk' s)); [done..|]. by eapply heap_store.
  - eapply (threads_step own s own _ i x l); try done.
    + intros t' j Hj Ho'. cbn. rewrite lookup_insert_ne; [done|congruence].
    + intros p _. by apply keeps_same.
  - eapply (puts_step s _ i x); [done..|left; congruence|done|by apply comes_same].
  - eapply (log_step s); try done. cbn. rewrite fmap_insert, Hd.
    apply insert_id. by rewrite lookup_fmap, Ht.
Qed.

(** ** Lemmas: giving a task away *)

Lemma held_rest own (i : nat) (t : Z) w o :
  NoDup (t :: w) → (∀ t', t' ∈ t :: w ↔ own t' = Held i) → o ≠ Held i →
  NoDup w ∧ t ∉ w ∧ (∀ t', t' ∈ w ↔ (<[t := o]> own) t' = Held i).
Proof.
  intros [Hn Hnd]%NoDup_cons Hl Ho. split; [done|]. split; [done|]. intros t'.
  destruct (decide (t' = t)) as [->|Hne].
  - rewrite fn_lookup_insert. naive_solver.
  - rewrite fn_lookup_insert_ne by done. rewrite <- Hl, elem_of_cons. naive_solver.
Qed.

Lemma held_others own (i : nat) (t : Z) o (t' : Z) (j : nat) :
  own t = Held i → (∀ j, o ≠ Held j) → j ≠ i → (<[t := o]> own) t' = Held j ↔ own t' = Held j.
Proof.
  intros Ht Ho Hj. destruct (decide (t' = t)) as [->|Hne].
  - rewrite fn_lookup_insert, Ht. split; intros E; [by apply Ho in E|congruence].
  - by rewrite fn_lookup_insert_ne.
Qed.

Lemma return_pc_ok s w c :
  (∀ t tk, p_tasks s !! t = Some tk → t ≠ SENTINEL_FUTURE_WAITLIST_PTR) →
  walk s (rest c) w → pc_ok s w (return_pc c).
Proof.
  intros Hn Hc. destruct c as [|next]; [|exact Hc]. destruct w as [|t w]; [done|].
  destruct Hc as [(E & tk & Ht & _) _]. by destruct (Hn t tk Ht).
Qed.

Lemma return_putting c : putting (return_pc c) = None.
Proof. by destruct c. Qed.

Lemma heap_hand_over own s i t tk :
  heap own s → own t = Held i → p_tasks s !! t = Some tk →
  heap (<[t := Nobody]> own) (hand_over t tk s).
Proof.
  intros [H1 H2 H3 H4] Ho Ht.
  assert (∀ t' o, (<[t := Nobody]> own) t' = o → o ≠ Nobody → t' ≠ t ∧ own t' = o) as Hown.
  { intros t' o. destruct (decide (t' = t)) as [->|Hne]; [rewrite fn_lookup_insert; congruence|].
    by rewrite fn_lookup_insert_ne. }
  split.
  - intros t' Ht'. destruct (Hown t' _ eq_refl Ht') as [Hne E]. cbn.
    rewrite lookup_delete_ne by done. apply H1. by rewrite E.
  - intros t' tk'. cbn. intros Ht'. destruct (decide (t' = t)) as [->|Hne];
      [by rewrite lookup_delete_eq in Ht'|]. rewrite lookup_delete_ne in Ht' by done.
    destruct (H2 t' tk' Ht') as (?&?&?&?&?). split; [done|]. split; [done|].
    rewrite !fn_lookup_insert_ne by done. done.
  - intros p pr Hp. destruct (H3 p pr Hp) as [Hn Hl]. split; [done|].
    destruct Hl as [(?&?&Hl)|(?&l&Hc&Hnd&Hl)].
    + left. split; [done|]. split; [done|]. intros t' E. by apply Hown in E as [_ E]; [apply (Hl t')|].
    + right. split; [done|]. exists l. split; [|split; [done|]].
      * apply chain_delete; [|done]. rewrite Hl. congruence.
      * intros t'. rewrite Hl. destruct (decide (t' = t)) as [->|Hne];
          [rewrite fn_lookup_insert; split; congruence|by rewrite fn_lookup_insert_ne].
  - intros t' p E. apply Hown in E as [_ E]; [by apply (H4 t')|done].
Qed.

Lemma pinv_hand_over own s i t w tk c :
  pinv own s → NoDup (t :: w) → (∀ t', t' ∈ t :: w ↔ own t' = Held i) →
  p_tasks s !! t = Some tk → walk s (rest c) w → (∀ p, p ∈ deps tk → sat s p) →
  putting (p_threads s i) = None →
  ∃ own', pinv own' (set_pc i (return_pc c) (hand_over t tk s)).
Proof.
  intros [Hh Hthr Hp Hl] Hnd Hll Ht Hc Hready Hput. exists (<[t := Nobody]> own).
  assert (own t = Held i) as Ho by (apply Hll; by left).
  destruct (held_rest own i t w Nobody Hnd Hll ltac:(done)) as (Hndw & Htw & Hlw). split.
  - apply (heap_ext _ (hand_over t tk s)); [done..|]. by eapply heap_hand_over.
  - eapply (threads_step own s _ _ i (return_pc c) w); try done.
    + intros t' j Hj. by apply held_others with i.
    + intros t' j Hj Ho'. cbn. rewrite lookup_delete_ne; [done|congruence].
    + intros p _. by apply keeps_same.
    + apply return_pc_ok; cbn.
      * intros t' tk' [_ Ht']%lookup_delete_Some. by apply (heap_task _ _ Hh t' tk').
      * eapply (walk_frame s); [|done|exact Hc]. intros t' Ht'. cbn. rewrite lookup_delete_ne; [done|congruence].
  - eapply (puts_step s _ i (return_pc c)); [done..| |done|by apply comes_same].
    left. by rewrite return_putting.
  - destruct Hl as [Hl Hr]. split.
    + cbn. rewrite Hl, fmap_delete. rewrite <- app_assoc. apply Permutation_app; [done|].
      symmetry. apply map_to_list_delete. by rewrite lookup_fmap, Ht.
    + intros t' ds p. cbn. rewrite elem_of_app, list_elem_of_singleton.
      intros [Ht'|[= -> ->]] Hds; [by apply (Hr t' ds)|by apply Hready].
Qed.

(** ** Lemmas: writes to a promise *)

Lemma sat_store s p pr pr' q :
  p_promises s !! p = Some pr →
  (wait_list_head pr = SATISFIED_FUTURE_WAITLIST_PTR → wait_list_head pr' = SATISFIED_FUTURE_WAITLIST_PTR) →
  sat s q → sat (store_promise p pr' s) q.
Proof.
  intros Hp Hh (qr & Hq & E). destruct (decide (q = p)) as [->|Hne].
  - exists pr'. cbn. rewrite lookup_insert_eq. split; [done|]. apply Hh. congruence.
  - exists qr. cbn. by rewrite lookup_insert_ne.
Qed.

Lemma keeps_store s p pr' q : q ≠ p → keeps s (store_promise p pr' s) q.
Proof. intros Hne qr Hq. exists qr. cbn. by rewrite lookup_insert_ne. Qed.

Lemma keeps_head s p pr h q :
  p_promises s !! p = Some pr → h ≠ SATISFIED_FUTURE_WAITLIST_PTR →
  keeps s (store_promise p (mkPromise (satisfied pr) (datum pr) h) s) q.
Proof.
  intros Hp Hh. destruct (decide (q = p)) as [->|Hne]; [|by apply keeps_store].
  intros qr Hq. assert (qr = pr) as -> by congruence. eexists. cbn. rewrite lookup_insert_eq. done.
Qed.

Lemma comes_store s p pr pr' :
  p_promises s !! p = Some pr →
  (satisfied pr' = satisfied pr ∧ datum pr' = datum pr ∧
    (wait_list_head pr ≠ SATISFIED_FUTURE_WAITLIST_PTR →
     wait_list_head pr' ≠ SATISFIED_FUTURE_WAITLIST_PTR)) ∨
  (p ∈ (p_puts s).*1 ∧ (satisfied pr' = 0 ∨ satisfied pr' = 1 ∧ (p, datum pr') ∈ p_puts s)) →
  comes_from s (store_promise p pr' s).
Proof.
  intros Hp Hr q qr. cbn. destruct (decide (q = p)) as [->|Hne].
  - rewrite lookup_insert_eq. intros [= <-]. by exists pr.
  - rewrite lookup_insert_ne by done. intros Hq. exists qr. split; [done|]. by left.
Qed.

Lemma known_store s p pr' q :
  is_Some (p_promises s !! q) → is_Some (p_promises (store_promise p pr' s) !! q).
Proof.
  intros H. cbn. destruct (decide (q = p)) as [->|Hne];
    [by rewrite lookup_insert_eq|by rewrite lookup_insert_ne].
Qed.

Lemma task_ok_store own own' s p pr' t tk :
  (∀ q, sat s q → sat (store_promise p pr' s) q) →
  (own' t = own t ∨ own' t ≠ Nobody ∧ ∀ q, own' t = InList q → dep_at (sat s) tk q) →
  task_ok own s t tk → task_ok own' (store_promise p pr' s) t tk.
Proof.
  intros Hsat Ho (?&?&Hn&Hg&Hd). split; [done|]. split; [done|].
  split; [destruct Ho as [->|[? _]]; done|].
  split; [eapply good_frame; [|exact Hg]; intros q; apply known_store|].
  intros q Hq. eapply dep_at_mono; [exact Hsat|]. destruct Ho as [Ho|[_ Ho]]; [|auto].
  apply Hd. by rewrite <- Ho.
Qed.

(** The task goes to the front of the list. *)
Lemma heap_register own s i t tk p pr :
  heap own s → own t = Held i → p_tasks s !! t = Some tk → dep_at (sat s) tk p →
  p_promises s !! p = Some pr → wait_list_head pr ≠ SATISFIED_FUTURE_WAITLIST_PTR →
  next_waiter tk = wait_list_head pr →
  heap (<[t := InList p]> own) (store_promise p (mkPromise (satisfied pr) (datum pr) t) s).
Proof.
  intros [H1 H2 H3 H4] Ho Ht Hd Hp Hh Hnext.
  assert (∀ q, sat s q → sat (store_promise p (mkPromise (satisfied pr) (datum pr) t) s) q) as Hsat.
  { intros q. eapply sat_store; [done|]. by intros. }
  split.
  - intros t' Ht'. destruct (decide (t' = t)) as [->|Hne]; [cbn; eauto|].
    rewrite fn_lookup_insert_ne in Ht' by done. by apply H1.
  - intros t' tk' Ht'. eapply task_ok_store; [done| |by apply H2].
    destruct (decide (t' = t)) as [->|Hne]; [|left; by rewrite fn_lookup_insert_ne].
    right. rewrite fn_lookup_insert. split; [done|]. intros q [= <-].
    by assert (tk' = tk) as -> by (cbn in Ht'; congruence).
  - assert (∀ q t', t' ≠ t → (<[t := InList p]> own) t' = InList q ↔ own t' = InList q) as Hne.
    { intros q t' Hne. by rewrite fn_lookup_insert_ne. }
    intros q qr. cbn. destruct (decide (q = p)) as [->|Hqp].
    + rewrite lookup_insert_eq. intros [= <-]. destruct (H3 p pr Hp) as [Hn Hl]. split; [done|].
      destruct Hl as [(?&_)|(_ & l & Hc & Hnd & Hl)]; [done|].
      destruct (H2 t tk Ht) as (Htn & _). right. cbn. split; [done|]. exists (t :: l).
      split; [split; [done|]; exists tk; by rewrite Hnext|].
      split; [apply NoDup_cons; split; [rewrite Hl; congruence|done]|].
      intros t'. rewrite elem_of_cons, Hl. destruct (decide (t' = t)) as [->|Ht'].
      * rewrite fn_lookup_insert. split; [done|by left].
      * rewrite Hne by done. naive_solver.
    + rewrite lookup_insert_ne by done. intros Hq. destruct (H3 q qr Hq) as [Hn Hl]. split; [done|].
      assert (∀ t', (<[t := InList p]> own) t' = InList q ↔ own t' = InList q) as Hiff.
      { intros t'. destruct (decide (t' = t)) as [->|Ht']; [|by apply Hne].
        rewrite fn_lookup_insert, Ho. naive_solver. }
      destruct Hl as [(?&?&Hl)|(?&l&Hc&Hnd&Hl)]; [left|right]; split; try done.
      * split; [done|]. intros t'. by rewrite Hiff.
      * exists l. split; [done|]. split; [done|]. intros t'. by rewrite Hl, Hiff.
  - intros t' q E. apply known_store. destruct (decide (t' = t)) as [->|Hne].
    + rewrite fn_lookup_insert in E. assert (q = p) as -> by congruence. eauto.
    + rewrite fn_lookup_insert_ne in E by done. by eapply H4.
Qed.

Lemma pinv_register own s i t w tk p pr c :
  pinv own s → NoDup (t :: w) → (∀ t', t' ∈ t :: w ↔ own t' = Held i) →
  p_tasks s !! t = Some tk → walk s (rest c) w → dep_at (sat s) tk p →
  p_promises s !! p = Some pr → wait_list_head pr ≠ SATISFIED_FUTURE_WAITLIST_PTR →
  next_waiter tk = wait_list_head pr → putting (p_threads s i) = None →
  ∃ own', pinv own' (set_pc i (return_pc c)
    (store_promise p (mkPromise (satisfied pr) (datum pr) t) s)).
Proof.
  intros [Hh Hthr Hp Hl] Hnd Hll Ht Hc Hd Hpr Hhead Hnext Hput. exists (<[t := InList p]> own).
  assert (own t = Held i) as Ho by (apply Hll; by left).
  destruct (held_rest own i t w (InList p) Hnd Hll ltac:(done)) as (Hndw & Htw & Hlw).
  destruct (heap_task _ _ Hh t tk Ht) as (Htn & _).
  assert (∀ q, sat s q → sat (store_promise p (mkPromise (satisfied pr) (datum pr) t) s) q) as Hsat.
  { intros q. eapply sat_store; [done|]. by intros. }
  split.
  - apply (heap_ext _ (store_promise p (mkPromise (satisfied pr) (datum pr) t) s)); [done..|].
    by eapply heap_register.
  - eapply (threads_step own s _ _ i (return_pc c) w); try done.
    + intros t' j Hj. by apply held_others with i.
    + intros q _. by eapply keeps_head.
    + apply return_pc_ok; [intros t' tk' Ht'; by apply (heap_task _ _ Hh t' tk')|].
      by eapply (walk_frame s); [|exact Hsat|exact Hc].
  - eapply (puts_step s _ i (return_pc c)); [done..| |done|].
    { left. by rewrite return_putting. }
    eapply comes_store; [done|]. by left.
  - by apply (log_step s).
Qed.

(** A field of the promise that a thread is putting. *)
Lemma pinv_field own s i p pr a b x :
  pinv own s → p_promises s !! p = Some pr →
  wait_list_head pr ≠ SATISFIED_FUTURE_WAITLIST_PTR →
  (∀ t, own t ≠ Held i) → putting (p_threads s i) = Some p → putting x = Some p →
  a = 0 ∨ a = 1 ∧ (p, b) ∈ p_puts s →
  pc_ok (store_promise p (mkPromise a b (wait_list_head pr)) s) [] x →
  pinv own (set_pc i x (store_promise p (mkPromise a b (wait_list_head pr)) s)).
Proof.
  intros [[H1 H2 H3 H4] Hthr Hp Hl] Hpr Hhead Hfree Hput Hputx Hab Hx.
  set (s1 := store_promise p (mkPromise a b (wait_list_head pr)) s).
  assert (∀ q, sat s q → sat s1 q) as Hsat by (intros q; by eapply sat_store).
  split.
  - apply (heap_ext _ s1); [done..|]. split; [exact H1| |..].
    + intros t tk Ht. eapply task_ok_store; [done|by left|by apply H2].
    + intros q qr. cbn. destruct (decide (q = p)) as [->|Hqp].
      * rewrite lookup_insert_eq. intros [= <-]. destruct (H3 p pr Hpr) as [? [[? _]|Hlist]]; [done|].
        split; [done|]. by right.
      * rewrite lookup_insert_ne by done. apply H3.
    + intros t q E. apply known_store. by eapply H4.
  - eapply (threads_step own s own _ i x []); try done.
    + intros q Hq. apply keeps_store. congruence.
    + apply NoDup_nil_2.
    + intros t. rewrite elem_of_nil. split; [done|]. intros E. by destruct (Hfree t).
  - eapply (puts_step s _ i x); [done..|left; congruence|done|].
    eapply comes_store; [done|]. right. split; [|done]. exact (put_logged s Hp i p Hput).
  - by apply (log_step s).
Qed.

(** The list is closed: its tasks are the thread's. *)
Definition take_list (own : Z → owner) (p : Z) (i : nat) (t : Z) : owner :=
  if decide (own t = InList p) then Held i else own t.

Lemma take_list_in own p i t q : take_list own p i t = InList q ↔ own t = InList q ∧ q ≠ p.
Proof.
  unfold take_list. case_decide as E.
  - split; [done|]. intros [Eq Hne]. rewrite E in Eq. by injection Eq as ->.
  - split; [|by intros [? _]]. intros Eq. split; [done|]. by intros ->.
Qed.

Lemma take_list_held own p i t : (∀ t, own t ≠ Held i) →
  take_list own p i t = Held i ↔ own t = InList p.
Proof. intros Hfree. unfold take_list. case_decide; [done|]. split; [by intros ?%Hfree|done]. Qed.

Lemma take_list_other own p i t j : j ≠ i → take_list own p i t = Held j ↔ own t = Held j.
Proof.
  intros Hj. unfold take_list. case_decide as E; [|done]. rewrite E.
  split; [intros [= ->]; done|done].
Qed.

Lemma pinv_close own s i p pr :
  pinv own s → p_promises s !! p = Some pr →
  wait_list_head pr ≠ SATISFIED_FUTURE_WAITLIST_PTR → satisfied pr = 1 →
  (∀ t, own t ≠ Held i) → putting (p_threads s i) = Some p →
  pinv (take_list own p i) (set_pc i (PutWalk (wait_list_head pr))
    (store_promise p (mkPromise (satisfied pr) (datum pr) SATISFIED_FUTURE_WAITLIST_PTR) s)).
Proof.
  intros [[H1 H2 H3 H4] Hthr Hp Hl] Hpr Hhead Hs1 Hfree Hput.
  set (s1 := store_promise p (mkPromise (satisfied pr) (datum pr) SATISFIED_FUTURE_WAITLIST_PTR) s).
  assert (∀ q, sat s q → sat s1 q) as Hsat by (intros q; by eapply sat_store).
  assert (sat s1 p) as Hsatp by (eexists; cbn; by rewrite lookup_insert_eq).
  assert (∀ t q, take_list own p i t = InList q ↔ own t = InList q ∧ q ≠ p) as Hin.
  { intros t q. apply take_list_in. }
  assert (∀ t, take_list own p i t ≠ Nobody → own t ≠ Nobody) as Hno.
  { intros t. unfold take_list. case_decide as E; [by rewrite E|done]. }
  destruct (H3 p pr Hpr) as [? [[? _]|(_ & l & Hc & Hnd & Hll)]]; [done|].
  split.
  - apply (heap_ext _ s1); [done..|]. split.
    + intros t Ht. by apply H1, Hno.
    + intros t tk Ht. eapply task_ok_store; [done| |by apply H2]. unfold take_list.
      case_decide; [right; split; [done|intros ? [=]]|by left].
    + intros q qr. cbn. destruct (decide (q = p)) as [->|Hqp].
      * rewrite lookup_insert_eq. intros [= <-]. split; [done|]. left. split; [done|]. split; [done|].
        intros t. rewrite Hin. by intros [_ ?].
      * rewrite lookup_insert_ne by done. intros Hq. destruct (H3 q qr Hq) as [Hn Hlq]. split; [done|].
        destruct Hlq as [(?&?&Hlq)|(?&lq&Hcq&Hndq&Hlq)]; [left|right]; split; try done.
        -- split; [done|]. intros t. rewrite Hin. intros [? _]. by apply (Hlq t).
        -- exists lq. split; [done|]. split; [done|]. intros t. rewrite Hin, Hlq. split; [done|by intros [? _]].
    + intros t q [E _]%Hin. apply known_store. by eapply H4.
  - eapply (threads_step own s _ _ i (PutWalk (wait_list_head pr)) l); try done.
    + intros t j Hj. by apply take_list_other.
    + intros q Hq. apply keeps_store. congruence.
    + intros t. by rewrite Hll, take_list_held.
    + split; [exact Hc|]. intros t tk Ht Etk. apply Hll in Ht.
      destruct (H2 t tk Etk) as (_ & _ & _ & _ & Hd). destruct (Hd p Ht) as (He & _ & _ & Hup).
      eapply upto_step; [by eapply upto_mono|exact He|by right].
  - eapply (puts_step s _ i (PutWalk (wait_list_head pr))); [done..| |done|].
    + right. split; [done|]. intros q. rewrite Hput. by intros [= <-].
    + eapply comes_store; [done|]. right. split; [exact (put_logged s Hp i p Hput)|].
      right. split; [done|]. destruct (put_datum s Hp p pr Hpr) as [|[_ ?]]; [congruence|done].
  - by apply (log_step s).
Qed.

(** ** Lemmas: new calls *)

Lemma spawned_entry fp nb g futures j q :
  entry (spawned_task (fresh_task fp nb) g None futures) j = Some q → q ≠ NULL → q ∈ futures.
Proof.
  intros He Hn.
  assert (q ∈ waiting_on (spawned_task (fresh_task fp nb) g None futures) ∨
          ∃ ex, waiting_on_extra (spawned_task (fresh_task fp nb) g None futures) = Some ex ∧ q ∈ ex) as Hq.
  { unfold entry in He. destruct (j <? MAX_NUM_WAITS); [left; by eapply list_elem_of_lookup_2|].
    destruct (waiting_on_extra _) as [ex|]; [|done]. right. exists ex. split; [done|].
    by eapply list_elem_of_lookup_2. }
  clear He. revert Hq. unfold spawned_task. set (n := Z.to_nat _).
  assert (∀ k, q ∈ drop k [NULL; NULL; NULL; NULL] → False) as Hdrop.
  { intros k Hk%subseteq_drop. set_solver. }
  destruct (Z.gtb_spec (Z.of_nat (length futures)) 0); cbn [waiting_on waiting_on_extra fresh_task].
  - intros [[Hq|Hq]%elem_of_app|(ex & Hex & Hq)]; [by eapply subseteq_take|by destruct (Hdrop _ Hq)|].
    destruct (Z.of_nat (length futures) >? MAX_NUM_WAITS); [|done]. injection Hex as <-.
    apply elem_of_app in Hq as [Hq|Hq]; [by eapply subseteq_drop|]. set_solver.
  - intros [Hq|(ex & [=] & _)]. set_solver.
Qed.

Lemma spawned_good s P fp nb g futures :
  Forall (λ p, is_Some (p_promises s !! p)) futures → (∀ p, p ∈ futures → p ≠ NULL) →
  good s (spawned_task (fresh_task fp nb) g None futures) ∧
  past P (spawned_task (fresh_task fp nb) g None futures).
Proof.
  intros Hf Hnull. split; [split; [|split]|].
  - unfold spawned_task, task_shape, MAX_NUM_WAITS. rewrite !Z.gtb_ltb.
    destruct (Z.ltb_spec 0 (Z.of_nat (length futures))); [|cbn; lia].
    cbn [waiting_on waiting_on_index fresh_task]. rewrite length_app, length_take, length_drop. cbn [length].
    destruct (Z.ltb_spec 4 (Z.of_nat (length futures))); lia.
  - intros extra. unfold spawned_task. destruct (Z.of_nat (length futures) >? 0); [|done].
    cbn [waiting_on_extra fresh_task waiting_on_index]. destruct (_ >? MAX_NUM_WAITS); [|done].
    intros [= <-]. eexists. split; [done|]. lia.
  - intros j q He Hn. rewrite Forall_forall in Hf. pose proof (spawned_entry _ _ _ _ _ _ He Hn).
    split; [by apply Hf|]. by rewrite spawned_deps_eq.
  - intros j q Hj He Hn. exfalso. apply Hn. revert Hj He. unfold spawned_task.
    destruct (Z.of_nat (length futures) >? 0); cbn [waiting_on_index fresh_task]; [lia|].
    intros Hj. assert (j = 0) as -> by lia. by intros [= <-].
Qed.

Lemma pinv_spawn own s i t fp nb futures :
  pinv own s → p_threads s i = Idle → p_tasks s !! t = None → t ≠ NULL →
  t ≠ SENTINEL_FUTURE_WAITLIST_PTR → Forall (λ p, is_Some (p_promises s !! p)) futures →
  pinv (<[t := Held i]> own)
    (mkP (<[t := spawned_task (fresh_task fp nb) NULL None futures]> (p_tasks s)) (p_promises s)
       (<[i := TrySchedule t Spawner]> (p_threads s)) (p_spawned s ++ [(t, futures)])
       (p_scheduled s) (p_puts s)).
Proof.
  intros [[H1 H2 H3 H4] Hthr Hp Hl] Hidle Ht Hn Hsent Hf. set (tk := spawned_task _ _ _ _).
  assert (∀ p, p ∈ futures → p ≠ NULL) as Hnull.
  { intros p Hpf. rewrite Forall_forall in Hf. destruct (Hf p Hpf) as [pr Hpr]. by apply (H3 p pr). }
  destruct (spawned_good s (sat s) fp nb NULL futures Hf Hnull) as [Hg Hpast]. fold tk in Hg, Hpast.
  assert (own t = Nobody) as Ho.
  { destruct (decide (own t = Nobody)) as [|Ho]; [done|]. apply H1 in Ho. rewrite Ht in Ho. by destruct Ho. }
  assert (∀ t', own t' ≠ Held i) as Hfree.
  { destruct (Hthr i) as (l & _ & Hll & Hok). rewrite Hidle in Hok. cbn in Hok. subst l.
    intros t' E. by apply Hll, elem_of_nil in E. }
  assert (∀ t', own t' ≠ Nobody → t' ≠ t) as Hne by congruence.
  assert (∀ t' q, (<[t := Held i]> own) t' = InList q ↔ own t' = InList q) as Hin.
  { intros t' q. destruct (decide (t' = t)) as [->|]; [|by rewrite fn_lookup_insert_ne].
    rewrite fn_lookup_insert, Ho. done. }
  assert (deps tk = futures) as Hdeps by (by apply spawned_deps_eq).
  split.
  - split.
    + intros t' Ht'. cbn. destruct (decide (t' = t)) as [->|Hd]; [by rewrite lookup_insert_eq|].
      rewrite fn_lookup_insert_ne in Ht' by done. rewrite lookup_insert_ne by done. by apply H1.
    + intros t' tk'. cbn. destruct (decide (t' = t)) as [->|Hd].
      * rewrite lookup_insert_eq. intros [= <-]. split; [done|]. split; [done|].
        rewrite fn_lookup_insert. split; [done|]. split; [exact Hg|done].
      * rewrite lookup_insert_ne by done. intros Ht'. destruct (H2 t' tk' Ht') as (?&?&?&?&?).
        split; [done|]. split; [done|]. rewrite !fn_lookup_insert_ne by done. done.
    + intros p pr Hpr. destruct (H3 p pr Hpr) as [? Hlist]. split; [done|].
      destruct Hlist as [(?&?&Hlist)|(?&l&Hc&Hnd&Hll)].
      * left. split; [done|]. split; [done|]. intros t'. rewrite Hin. apply Hlist.
      * right. split; [done|]. exists l. split; [|split; [done|intros t'; by rewrite Hll, Hin]].
        apply chain_insert; [|done]. rewrite Hll. congruence.
    + intros t' q E%Hin. by eapply H4.
  - eapply (threads_step own s _ _ i (TrySchedule t Spawner) [t]); try done.
    + intros t' j Hj. destruct (decide (t' = t)) as [->|]; [|by rewrite fn_lookup_insert_ne].
      rewrite fn_lookup_insert, Ho. split; [intros [= ->]; done|done].
    + intros t' j Hj Ho'. cbn. rewrite lookup_insert_ne; [done|congruence].
    + intros p _. by apply keeps_same.
    + apply NoDup_singleton.
    + intros t'. rewrite list_elem_of_singleton. destruct (decide (t' = t)) as [->|].
      * by rewrite fn_lookup_insert.
      * rewrite fn_lookup_insert_ne by done. split; [done|]. by intros ?%Hfree.
    + exists [], tk. split; [done|]. split; [split; [done|intros ? ? H; by apply elem_of_nil in H]|].
      split; [apply lookup_insert_eq|exact Hpast].
  - eapply (puts_step s _ i (TrySchedule t Spawner)); [done..|left; by rewrite Hidle|done|by apply comes_same].
  - destruct Hl as [Hl Hr]. split; [|exact Hr]. cbn. rewrite Hl, fmap_insert, Hdeps, <- app_assoc.
    apply Permutation_app; [done|]. rewrite map_to_list_insert by (by rewrite lookup_fmap, Ht).
    symmetry. apply Permutation_cons_append.
Qed.

Lemma pinv_call_put own s i p d :
  pinv own s → p_threads s i = Idle → is_Some (p_promises s !! p) → p ∉ (p_puts s).*1 →
  pinv own
    (mkP (p_tasks s) (p_promises s) (<[i := PutTest p d]> (p_threads s)) (p_spawned s)
       (p_scheduled s) (p_puts s ++ [(p, d)])).
Proof.
  intros [Hh Hthr Hp Hl] Hidle [pr Hpr] Hnp.
  set (s' := mkP _ _ _ _ _ (p_puts s ++ [(p, d)])).
  assert (∀ q, q ∈ (p_puts s').*1 ↔ q ∈ (p_puts s).*1 ∨ q = p) as Hin.
  { intros q. cbn. rewrite fmap_app, elem_of_app. cbn. by rewrite list_elem_of_singleton. }
  assert (∀ j q, putting (p_threads s' j) = Some q →
    j = i ∧ q = p ∨ j ≠ i ∧ putting (p_threads s j) = Some q) as Hput.
  { intros j q. cbn. destruct (decide (j = i)) as [->|Hne].
    - rewrite fn_lookup_insert. intros [= ->]. by left.
    - rewrite fn_lookup_insert_ne by done. by right. }
  destruct (Hthr i) as (l & _ & Hll & Hok). rewrite Hidle in Hok. cbn in Hok. subst l.
  split.
  - by apply (heap_ext own s).
  - eapply (threads_step own s own _ i (PutTest p d) []); try done.
    + intros q _. by apply keeps_same.
    + intros e He. by apply elem_of_app; left.
    + apply NoDup_nil_2.
    + split; [cbn; set_solver|]. split; [done|]. exists pr. split; [done|].
      destruct (put_none s Hp p pr Hpr Hnp). done.
  - destruct Hp as [Hlog Honce Hclose Hdatum Hnone]. split.
    + intros j q Hj. apply Hin. destruct (Hput j q Hj) as [[_ ->]|[_ E]]; [by right|left; by eapply Hlog].
    + intros j k q Hj Hk. destruct (Hput j q Hj) as [[-> ->]|[_ Ej]], (Hput k _ Hk) as [[-> Ek]|[_ Ek]].
      * done.
      * destruct Hnp. by eapply Hlog.
      * subst q. destruct Hnp. by eapply Hlog.
      * by eapply Honce.
    + intros q [Hq| ->]%Hin; [|right; exists i; cbn; by rewrite fn_lookup_insert].
      destruct (Hclose q Hq) as [?|[j Hj]]; [by left|right]. exists j. cbn.
      rewrite fn_lookup_insert_ne; [done|]. intros ->. by rewrite Hidle in Hj.
    + intros q qr Hq. destruct (Hdatum q qr Hq) as [|[? ?]]; [by left|right]. split; [done|].
      cbn. apply elem_of_app. by left.
    + intros q qr Hq Hnq. apply (Hnone q qr Hq). intros Hq'. apply Hnq, Hin. by left.
  - destruct Hl as [H1 H2]. by split.
Qed.

Lemma pinv_init ps : NULL ∉ ps → pinv (λ _, Nobody) (pinit ps).
Proof.
  intros Hn.
  assert (∀ p pr, p_promises (pinit ps) !! p = Some pr → p ∈ ps ∧ satisfied pr = 0 ∧
    wait_list_head pr = SENTINEL_FUTURE_WAITLIST_PTR) as Hp.
  { intros p pr H%elem_of_list_to_map_2. apply list_elem_of_fmap in H as (q & [= -> ->] & Hq). done. }
  split.
  - split; [done|intros t tk E; cbn in E; by rewrite lookup_empty in E| |done].
    intros p pr H. destruct (Hp p pr H) as (Hin & _ & E). split; [by intros ->|].
    right. split; [by rewrite E|]. exists []. split; [exact E|].
    split; [apply NoDup_nil_2|]. intros t. by rewrite elem_of_nil.
  - intros i. exists []. split; [apply NoDup_nil_2|]. split; [|done]. intros t. by rewrite elem_of_nil.
  - split; [done|done| | |].
    + intros p Hin. by apply elem_of_nil in Hin.
    + intros p pr H. left. by destruct (Hp p pr H) as (_ & ? & _).
    + intros p pr H _. destruct (Hp p pr H) as (_ & ? & E). by rewrite E.
  - split; [done|]. intros t ds p Ht. by apply elem_of_nil in Ht.
Qed.

(** ** Every access is safe and keeps the invariant *)

Definition steps_on (s : pstate) (i : nat) : Prop :=
  ∃ s', pstep i s = Ok s' ∧ ∃ own, pinv own s'.

Lemma try_schedule_step_ok own s i t c l :
  pinv own s → p_threads s i = TrySchedule t c → NoDup l → (∀ t', t' ∈ l ↔ own t' = Held i) →
  has_task s l t c (past (sat s)) → steps_on s i.
Proof.
  intros Hinv Epc Hnd Hll (w & tk & -> & Hc & Ht & Hpast). unfold steps_on, pstep. rewrite Epc.
  unfold try_schedule_step. rewrite Ht. change (deref (Some tk)) with (Ok tk). cbn [mbind res_bind].
  destruct (heap_task _ _ (inv_heap _ _ Hinv) t tk Ht) as (_ & _ & _ & ((Hlen & _) & _) & _).
  destruct (array_get_lt (waiting_on tk) 0) as (q & Hget & Hq); [lia|].
  rewrite Hget. cbn [mbind res_bind]. destruct (Z.eqb_spec q NULL) as [->|Hn]; cbn [negb].
  - eexists. split; [done|]. eapply pinv_hand_over; try done; [|by rewrite Epc].
    intros p Hp. unfold deps in Hp. destruct (waiting_on tk) as [|q l]; [by apply elem_of_nil in Hp|].
    injection Hq as ->. by apply elem_of_nil in Hp.
  - eexists. split; [done|]. exists own. eapply pinv_pc; [done..| |by rewrite Epc]. by exists w, tk.
Qed.

Lemma next_dep_ok own s i t e c l :
  pinv own s → p_threads s i = NextDep t e c → NoDup l → (∀ t', t' ∈ l ↔ own t' = Held i) →
  has_task s l t c (past (sat s)) → steps_on s i.
Proof.
  intros Hinv Epc Hnd Hll (w & tk & -> & Hc & Ht & Hpast). unfold steps_on, pstep. rewrite Epc.
  unfold next_dep_step. rewrite Ht. change (deref (Some tk)) with (Ok tk). cbn [mbind res_bind].
  assert (own t = Held i) as Ho by (apply Hll; by left).
  destruct (heap_task _ _ (inv_heap _ _ Hinv) t tk Ht) as (_ & _ & _ & Hg & _).
  destruct (next_dependency_ok s (sat s) tk Hg Hpast) as (d & k & E & Hgk & Hd).
  rewrite E. cbn [mbind res_bind].
  assert (∀ Q, Q (set_index tk k) → has_task (store_task t (set_index tk k) s) (t :: w) t c Q) as Hhas.
  { intros Q HQ. exists w, (set_index tk k). split; [done|].
    apply NoDup_cons in Hnd as [Hnw _]. split; [|cbn; by rewrite lookup_insert_eq].
    eapply (walk_frame s); [|done|exact Hc]. intros t' Ht'. cbn. rewrite lookup_insert_ne; [done|congruence]. }
  destruct d as [p|].
  - destruct Hd as [_ Hd]. eexists. split; [done|]. exists own.
    eapply pinv_store; try done; [by apply Hhas|by rewrite Epc].
  - destruct Hd as (_ & Hpk & Hall). destruct e.
    + eexists. split; [done|]. eapply (pinv_hand_over own s i t w tk c); try done. by rewrite Epc.
    + eexists. split; [done|]. exists own. eapply pinv_store; try done; [by apply Hhas|by rewrite Epc].
Qed.

Lemma deref_Some {A} (a : A) : deref (Some a) = Ok a.
Proof. done. Qed.

(** The thread moves on to [x] with the same tasks. *)
Ltac moves_on own Epc :=
  eexists; split; [done|]; exists own; eapply pinv_pc; [done..| |by rewrite Epc].

Lemma register_ok own s i l :
  pinv own s → NoDup l → (∀ t', t' ∈ l ↔ own t' = Held i) → pc_ok s l (p_threads s i) →
  match p_threads s i with RegHead _ _ _ _ | RegLink _ _ _ _ _ | RegCas _ _ _ _ _ => True | _ => False end →
  steps_on s i.
Proof.
  intros Hinv Hnd Hll Hok Hpc.
  assert (∀ t c Q, has_task s l t c Q → own t = Held i ∧ t ≠ SENTINEL_FUTURE_WAITLIST_PTR ∧
    ∀ tk, p_tasks s !! t = Some tk → good s tk) as Hmine.
  { intros t c Q (w & tk & -> & _ & Ht & _). split; [apply Hll; by left|].
    destruct (heap_task _ _ (inv_heap _ _ Hinv) t tk Ht) as (_ & ? & _ & Hg & _). split; [done|]. congruence. }
  destruct (p_threads s i) as [| | |t p e c|t p h e c|t p h e c| | | | | | |] eqn:Epc; try done;
    unfold steps_on, pstep, register_step; rewrite Epc; cbn in Hok.
  - destruct (Hmine _ _ _ Hok) as (Ho & Hsent & Hgood).
    rewrite (proj2 (Z.eqb_neq t _)) by done. change (hassert (negb false)) with (Ok tt).
    destruct Hok as (w & tk & -> & Hc & Ht & Hd).
    destruct (Hgood tk Ht) as (_ & _ & Hknown).
    destruct (Hknown _ _ (proj1 Hd) (proj1 (proj2 Hd))) as [[pr Hp] _]. rewrite Hp, deref_Some. cbn [mbind res_bind].
    destruct (Z.eqb_spec (wait_list_head pr) SATISFIED_FUTURE_WAITLIST_PTR) as [Hh|Hh]; cbn [negb].
    + moves_on own Epc. exists w, tk. do 3 (split; [done|]).
      eapply upto_step; [apply Hd|apply Hd|right; by exists pr].
    + moves_on own Epc. split; [done|]. by exists w, tk.
  - destruct Hok as [Hh Hok]. destruct (Hmine _ _ _ Hok) as (Ho & Hsent & Hgood).
    destruct Hok as (w & tk & -> & Hc & Ht & Hd). rewrite Ht, deref_Some. cbn [mbind res_bind].
    eexists. split; [done|]. exists own.
    eapply (pinv_store own s i t tk (set_next tk h)); try done; [exact (Hgood tk Ht)| |by rewrite Epc].
    split; [done|]. exists w, (set_next tk h). apply NoDup_cons in Hnd as [Hnw _].
    split; [done|]. split; [|split; [apply lookup_insert_eq|done]].
    eapply (walk_frame s); [|done|exact Hc]. intros t' Ht'. cbn. rewrite lookup_insert_ne; [done|congruence].
  - destruct Hok as [Hh Hok]. destruct (Hmine _ _ _ Hok) as (Ho & Hsent & Hgood).
    destruct Hok as (w & tk & -> & Hc & Ht & Hd & Hnext).
    destruct (Hgood tk Ht) as (_ & _ & Hknown).
    destruct (Hknown _ _ (proj1 Hd) (proj1 (proj2 Hd))) as [[pr Hp] _]. rewrite Hp, deref_Some. cbn [mbind res_bind].
    destruct (Z.eqb_spec (wait_list_head pr) h) as [Eh|Eh].
    + eexists. split; [done|]. eapply (pinv_register own s i t w tk p pr c); try done; [congruence..|].
      by rewrite Epc.
    + moves_on own Epc. by exists w, tk.
Qed.

Lemma put_step_ok own s i l :
  pinv own s → NoDup l → (∀ t', t' ∈ l ↔ own t' = Held i) → pc_ok s l (p_threads s i) →
  match p_threads s i with
  | PutTest _ _ | PutHead _ _ | PutDatum _ _ _ | PutSatisfied _ _ | PutCas _ _ | PutReread _ | PutWalk _ => True
  | _ => False end →
  steps_on s i.
Proof.
  intros Hinv Hnd Hll Hok Hpc.
  assert (l = [] → ∀ t, own t ≠ Held i) as Hfree by (intros -> t E; by apply Hll, elem_of_nil in E).
  destruct (p_threads s i) as [| | | | | |p d|p d|p d h|p h|p h|p|curr] eqn:Epc; try done;
    unfold steps_on, pstep, put_step; rewrite Epc; cbn in Hok.
  - destruct Hok as [Hput (-> & pr & Hp & Hh & Hs)].
    destruct (heap_list _ _ (inv_heap _ _ Hinv) p pr Hp) as [Hn _].
    rewrite (proj2 (Z.eqb_neq p NULL)) by done. change (hassert (negb false)) with (Ok tt).
    rewrite Hp, deref_Some. cbn [mbind res_bind]. rewrite Hs. change (hassert (0 =? 0)) with (Ok tt).
    moves_on own Epc. split; [done|]. split; [done|]. by exists pr.
  - destruct Hok as [Hput (-> & pr & Hp & Hh & Hs)]. rewrite Hp, deref_Some. cbn [mbind res_bind].
    moves_on own Epc. split; [done|]. split; [done|]. by exists pr.
  - destruct Hok as [Hput (-> & pr & Hp & Hh & Hs)]. rewrite Hp, deref_Some. cbn [mbind res_bind].
    eexists. split; [done|]. exists own. eapply pinv_field; try done; [auto|by rewrite Epc|by left|].
    split; [done|]. eexists. split; [apply lookup_insert_eq|done].
  - destruct Hok as (-> & pr & Hp & Hh & Hs & Hput). rewrite Hp, deref_Some. cbn [mbind res_bind].
    eexists. split; [done|]. exists own. eapply pinv_field; try done; [auto|by rewrite Epc|by right|].
    split; [done|]. eexists. split; [apply lookup_insert_eq|done].
  - destruct Hok as (-> & pr & Hp & Hh & Hs & Hput). rewrite Hp, deref_Some. cbn [mbind res_bind].
    destruct (Z.eqb_spec (wait_list_head pr) h) as [<-|Eh].
    + eexists. split; [done|]. exists (take_list own p i). eapply pinv_close; try done; [auto|by rewrite Epc].
    + moves_on own Epc. split; [done|]. by exists pr.
  - destruct Hok as (-> & pr & Hp & Hh & Hs & Hput). rewrite Hp, deref_Some. cbn [mbind res_bind].
    moves_on own Epc. split; [done|]. by exists pr.
  - destruct (Z.eqb_spec curr SENTINEL_FUTURE_WAITLIST_PTR) as [->|Hn]; cbn [negb].
    + moves_on own Epc. destruct l as [|t l]; [done|]. destruct Hok as [(E & tk & Ht & _) _].
      by destruct (heap_task _ _ (inv_heap _ _ Hinv) t tk Ht) as (_ & [] & _).
    + destruct l as [|t l]; [by destruct Hok|]. destruct Hok as [(-> & tk & Ht & Hc) Hpast]. rewrite Ht, deref_Some.
      cbn [mbind res_bind]. moves_on own Epc. exists l, tk. split; [done|].
      split; [split; [done|]; intros t' tk' Ht'; apply Hpast; by right|].
      split; [done|]. apply (Hpast t); [by left|done].
Qed.

Lemma pstep_ok own s i : pinv own s → p_threads s i ≠ Idle → steps_on s i.
Proof.
  intros Hinv Hpc. destruct (inv_threads _ _ Hinv i) as (l & Hnd & Hll & Hok).
  destruct (p_threads s i) eqn:E; [done|by eapply try_schedule_step_ok|by eapply next_dep_ok|..].
  1-3: apply (register_ok own s i l); [done..|by rewrite E|by rewrite E].
  all: apply (put_step_ok own s i l); [done..|by rewrite E|by rewrite E].
Qed.

(** ** Runs *)

Lemma pstep_puts i s s' : pstep i s = Ok s' → p_puts s' = p_puts s.
Proof.
  unfold pstep, try_schedule_step, next_dep_step, register_step, put_step, hassert, mbind, res_bind.
  intros H. repeat case_match; simplify_eq; done.
Qed.

Lemma plstep_puts l s s' : plstep l s = Ok s' → p_puts s `prefix_of` p_puts s'.
Proof.
  destruct l as [i t fp nb futures|i p d|i]; cbn; intros H.
  - destruct (p_threads s i); try done. case_bool_decide; [|done]. by injection H as <-.
  - destruct (p_threads s i); try done. case_bool_decide; [|done]. injection H as <-. by eexists.
  - apply pstep_puts in H. by rewrite H.
Qed.

Lemma prun_puts ls s s' : prun ls s = Ok s' → p_puts s `prefix_of` p_puts s'.
Proof.
  revert s. induction ls as [|l ls IH]; intros s; cbn; [by intros [= <-]|].
  intros (s1 & E & H)%bind_Ok. etrans; [by eapply plstep_puts|by apply IH].
Qed.

Lemma prefix_nodup {A B} (f : A → B) l k : l `prefix_of` k → NoDup (f <$> k) → NoDup (f <$> l).
Proof. intros [m ->]. rewrite fmap_app. by intros [? _]%NoDup_app. Qed.

Lemma plstep_inv own l s s' :
  pinv own s → plstep l s = Ok s' → NoDup (p_puts s').*1 → ∃ own', pinv own' s'.
Proof.
  intros Hinv H Hnd. destruct l as [i t fp nb futures|i p d|i]; cbn in H.
  - destruct (p_threads s i) eqn:E; try done. case_bool_decide as Hb; [|done]. injection H as <-.
    destruct Hb as (?&?&?&?). eexists. by apply pinv_spawn.
  - destruct (p_threads s i) eqn:E; try done. case_bool_decide as Hb; [|done]. injection H as <-.
    exists own. apply pinv_call_put; [done..|]. cbn in Hnd. rewrite fmap_app in Hnd.
    apply NoDup_app in Hnd as (_ & Hnd & _). intros Hp. apply (Hnd p Hp). by left.
  - destruct (pstep_ok own s i Hinv) as (s1 & E & Hs1).
    { intros E. unfold pstep in H. by rewrite E in H. }
    by assert (s1 = s') as -> by congruence.
Qed.

Lemma prun_inv own ls s s' :
  pinv own s → prun ls s = Ok s' → NoDup (p_puts s').*1 → ∃ own', pinv own' s'.
Proof.
  revert own s. induction ls as [|l ls IH]; intros own s Hinv; cbn; [intros [= <-]; eauto|].
  intros (s1 & E & H)%bind_Ok Hnd. destruct (plstep_inv own l s s1 Hinv E) as [own1 H1].
  - eapply prefix_nodup; [by eapply prun_puts|done].
  - by eapply IH.
Qed.

Lemma reached ps ls s :
  NULL ∉ ps → prun ls (pinit ps) = Ok s → NoDup (p_puts s).*1 → ∃ own, pinv own s.
Proof. intros Hn. apply prun_inv with (λ _, Nobody). by apply pinv_init. Qed.

(** ** The calls end

    A measure that every access lowers.  A compare-and-swap fails only when the
    head has changed since it was read, and the access that changed it pays for
    all the others' retries; a task pays for its next futures. *)

Fixpoint sum (f : nat → Z) (k : nat) : Z :=
  match k with O => 0 | S k => sum f k + f k end.

Lemma sum_le f g d k : (∀ j, (j < k)%nat → g j <= f j + d) → sum g k <= sum f k + d * Z.of_nat k.
Proof.
  induction k as [|k IH]; intros H; cbn [sum]; [lia|].
  pose proof (H k ltac:(lia)). assert (sum g k <= sum f k + d * Z.of_nat k) by (apply IH; intros; apply H; lia).
  nia.
Qed.

(** One term changes, the others grow by at most [d]. *)
Lemma sum_change f g d i k :
  (i < k)%nat → 0 <= d → (∀ j, j ≠ i → g j <= f j + d) →
  sum g k <= sum f k + d * Z.of_nat k - f i + g i.
Proof.
  intros Hi Hd H. induction k as [|k IH]; [lia|]. cbn [sum]. destruct (decide (i = k)) as [->|Hne].
  - assert (sum g k <= sum f k + d * Z.of_nat k); [|nia].
    apply sum_le. intros j Hj. apply H. lia.
  - pose proof (IH ltac:(lia)). pose proof (H k ltac:(done)). nia.
Qed.

Section measure.
Context (n : nat).
#[local] Set Default Proof Using "Type*".

(** What one change of a head may cost the others. *)
Let F : Z := 4 * Z.of_nat n.

Definition remaining (tk : hclib_task_t) : Z :=
  0 `max` (3 + match waiting_on_extra tk with Some extra => Z.of_nat (length extra) | None => 0 end
           - waiting_on_index tk).

Definition weight (tk : hclib_task_t) : Z := 8 + (16 + F) * remaining tk.

Definition tasks_weight (m : gmap Z hclib_task_t) : Z := map_fold (λ _ tk acc, weight tk + acc) 0 m.

Definition stale (s : pstate) (p h : Z) : Z :=
  match p_promises s !! p with
  | Some pr => if wait_list_head pr =? h then 0 else 4
  | None => 4
  end.

Definition caller_cost (c : caller) : Z := match c with Spawner => 0 | Waker _ => 2 end.

Definition cost (s : pstate) (x : pc) : Z :=
  match x with
  | Idle => 0
  | TrySchedule _ c => caller_cost c - 4
  | NextDep _ e c => caller_cost c - (if e then 5 else 3)
  | RegHead _ _ _ c => 10 + F + caller_cost c
  | RegLink _ p h _ c => 9 + F + stale s p h + caller_cost c
  | RegCas _ p h _ c => 8 + F + stale s p h + caller_cost c
  | PutTest _ _ => 9 + F
  | PutHead _ _ => 8 + F
  | PutDatum p _ h => 7 + F + stale s p h
  | PutSatisfied p h => 6 + F + stale s p h
  | PutCas p h => 5 + F + stale s p h
  | PutReread _ => 8 + F
  | PutWalk _ => 1
  end.

Definition measure (s : pstate) : Z :=
  tasks_weight (p_tasks s) + sum (λ i, cost s (p_threads s i)) n.

Lemma tasks_weight_delete m t tk :
  m !! t = Some tk → tasks_weight m = weight tk + tasks_weight (delete t m).
Proof. intros H. unfold tasks_weight. apply (map_fold_delete_L (λ (_ : Z) tk acc, weight tk + acc) 0 t tk m); [intros; lia|done]. Qed.

Lemma tasks_weight_insert m t tk tk' :
  m !! t = Some tk → tasks_weight (<[t := tk']> m) = tasks_weight m - weight tk + weight tk'.
Proof.
  intros H. rewrite (tasks_weight_delete m t tk H).
  rewrite (tasks_weight_delete _ t tk') by apply lookup_insert_eq. rewrite delete_insert_eq. lia.
Qed.

Lemma weight_next tk h : weight (set_next tk h) = weight tk.
Proof. done. Qed.

Lemma weight_index tk i :
  waiting_on_index tk < i → is_Some (entry tk i) → -1 <= waiting_on_index tk →
  weight (set_index tk i) + 16 + F <= weight tk.
Proof.
  intros Hi [q He] Hlow. unfold weight, remaining. cbn [waiting_on_extra waiting_on_index set_index].
  assert (i <= 3 + match waiting_on_extra tk with Some extra => Z.of_nat (length extra) | None => 0 end).
  { unfold entry, MAX_NUM_WAITS in He. destruct (Z.ltb_spec i 4).
    - destruct (waiting_on_extra tk); lia.
    - destruct (waiting_on_extra tk) as [extra|]; [|done]. apply lookup_lt_Some in He. lia. }
  unfold F. nia.
Qed.

Lemma task_weight_pos tk : 8 <= weight tk.
Proof. unfold weight, remaining, F. nia. Qed.

Lemma weight_mono tk i : waiting_on_index tk <= i → weight (set_index tk i) <= weight tk.
Proof.
  intros Hi. unfold weight, remaining. cbn [waiting_on_extra waiting_on_index set_index]. unfold F. nia.
Qed.

(** Thread [i] goes to [x]; the others' heads are as fresh as before. *)
Lemma measure_step s s' i x :
  (i < n)%nat → p_threads s' = <[i := x]> (p_threads s) →
  (∀ p h, stale s' p h <= stale s p h) →
  measure s' <= measure s - tasks_weight (p_tasks s) + tasks_weight (p_tasks s')
    - cost s (p_threads s i) + cost s' x.
Proof.
  intros Hi Ex Hst. unfold measure.
  pose proof (sum_change (λ j, cost s (p_threads s j)) (λ j, cost s' (p_threads s' j)) 0 i n Hi ltac:(lia)) as H.
  rewrite Ex, fn_lookup_insert in H. rewrite Ex. enough (∀ j, j ≠ i →
    cost s' (<[i := x]> (p_threads s) j) <= cost s (p_threads s j) + 0) as Hj by (specialize (H Hj); lia).
  intros j Hj. rewrite fn_lookup_insert_ne by done. unfold cost.
  destruct (p_threads s j) as [| | | |? p h|? p h| | |p d h|p h|p h| |]; try lia; pose proof (Hst p h); lia.
Qed.

(** Thread [i] changes a head and goes to [x]. *)
Lemma measure_head s s' i x :
  (i < n)%nat → p_threads s' = <[i := x]> (p_threads s) → p_tasks s' = p_tasks s →
  measure s' <= measure s + F - cost s (p_threads s i) + cost s' x.
Proof.
  intros Hi Ex Et. unfold measure. rewrite Et.
  pose proof (sum_change (λ j, cost s (p_threads s j)) (λ j, cost s' (p_threads s' j)) 4 i n Hi ltac:(lia)) as H.
  rewrite Ex, fn_lookup_insert in H. rewrite Ex. enough (∀ j, j ≠ i →
    cost s' (<[i := x]> (p_threads s) j) <= cost s (p_threads s j) + 4) as Hj
    by (specialize (H Hj); unfold F; lia).
  intros j Hj. rewrite fn_lookup_insert_ne by done. unfold cost.
  assert (∀ s p h, 0 <= stale s p h <= 4) as Hst.
  { intros s0 p h. unfold stale. repeat case_match; lia. }
  destruct (p_threads s j) as [| | | |? p h|? p h| | |p d h|p h|p h| |]; try lia;
    pose proof (Hst s p h); pose proof (Hst s' p h); lia.
Qed.

Lemma stale_same s s' p h : p_promises s' = p_promises s → stale s' p h <= stale s p h.
Proof. intros E. unfold stale. by rewrite E. Qed.

Lemma stale_fresh s p pr : p_promises s !! p = Some pr → stale s p (wait_list_head pr) = 0.
Proof. intros H. unfold stale. by rewrite H, Z.eqb_refl. Qed.

Lemma stale_old s p pr h : p_promises s !! p = Some pr → wait_list_head pr ≠ h → stale s p h = 4.
Proof. intros H Hh. unfold stale. rewrite H. by rewrite (proj2 (Z.eqb_neq _ _)). Qed.

Lemma stale_field s p pr a b q h :
  p_promises s !! p = Some pr →
  stale (store_promise p (mkPromise a b (wait_list_head pr)) s) q h <= stale s q h.
Proof.
  intros H. unfold stale. cbn. destruct (decide (q = p)) as [->|Hne].
  - by rewrite lookup_insert_eq, H.
  - by rewrite lookup_insert_ne.
Qed.

Lemma return_cost s c : cost s (return_pc c) <= caller_cost c.
Proof. destruct c; cbn; lia. Qed.

(** The bound of [measure_step] for a step that writes no head. *)
Ltac lowers s Epc :=
  eapply Z.le_lt_trans; [eapply (measure_step s); [done|reflexivity|]|rewrite Epc; cbn [cost]].

Lemma try_schedule_measure s i t c s' :
  p_threads s i = TrySchedule t c → try_schedule_step i t c s = Ok s' → (i < n)%nat →
  measure s' < measure s.
Proof.
  intros Epc H Hi. unfold try_schedule_step in H. apply bind_Ok in H as (tk & Htk%deref_Ok & H).
  apply bind_Ok in H as (q & _ & H). destruct (negb _); injection H as <-.
  - lowers s Epc; [by intros; apply stale_same|]. cbn [set_pc p_tasks]. lia.
  - lowers s Epc; [by intros; apply stale_same|]. cbn [set_pc p_tasks hand_over].
    rewrite (tasks_weight_delete _ _ _ Htk). pose proof (task_weight_pos tk).
    pose proof (return_cost (set_pc i (return_pc c) (hand_over t tk s)) c). lia.
Qed.

Lemma next_dep_measure own s i t e c s' :
  pinv own s → p_threads s i = NextDep t e c → next_dep_step i t e c s = Ok s' → (i < n)%nat →
  measure s' < measure s.
Proof.
  intros Hinv Epc H Hi. unfold next_dep_step in H. apply bind_Ok in H as (tk & Htk%deref_Ok & H).
  destruct (heap_task _ _ (inv_heap _ _ Hinv) t tk Htk) as (_ & _ & _ & Hg & _).
  destruct (inv_threads _ _ Hinv i) as (l & _ & _ & Hok). rewrite Epc in Hok.
  destruct Hok as (w & tk0 & _ & _ & Ht0 & Hpast). assert (tk0 = tk) as -> by congruence.
  destruct (next_dependency_ok s (sat s) tk Hg Hpast) as (d & k & E & _ & Hd).
  rewrite E in H. cbn [mbind res_bind] in H.
  destruct d as [p|]; [|destruct e]; injection H as <-.
  - lowers s Epc; [by intros; apply stale_same|]. cbn [set_pc p_tasks store_task].
    rewrite (tasks_weight_insert _ _ _ _ Htk).
    assert (weight (set_index tk k) + 16 + F <= weight tk); [|destruct e; lia].
    destruct Hd as (Hk & He & _). apply weight_index; [done|by exists p|apply Hg].
  - lowers s Epc; [by intros; apply stale_same|]. cbn [set_pc p_tasks hand_over].
    rewrite (tasks_weight_delete _ _ _ Htk). pose proof (task_weight_pos tk).
    pose proof (return_cost (set_pc i (return_pc c) (hand_over t (set_index tk k) s)) c). lia.
  - lowers s Epc; [by intros; apply stale_same|]. cbn [set_pc p_tasks store_task].
    rewrite (tasks_weight_insert _ _ _ _ Htk). pose proof (weight_mono tk k (proj1 Hd)). lia.
Qed.

Lemma register_measure s i s' :
  register_step i s = Ok s' → (i < n)%nat → measure s' < measure s.
Proof.
  intros H Hi. unfold register_step in H.
  destruct (p_threads s i) as [| | |t p e c|t p h e c|t p h e c| | | | | | |] eqn:Epc; try done.
  - apply bind_Ok in H as (_ & _ & H). apply bind_Ok in H as (pr & Hp%deref_Ok & H).
    destruct (negb _); injection H as <-.
    + lowers s Epc; [by intros; apply stale_same|]. cbn [set_pc p_tasks].
      rewrite (stale_fresh (set_pc _ _ s) p pr Hp). lia.
    + lowers s Epc; [by intros; apply stale_same|]. cbn [set_pc p_tasks]. unfold F. destruct e; lia.
  - apply bind_Ok in H as (tk & Htk%deref_Ok & H). injection H as <-.
    lowers s Epc; [by intros; apply stale_same|]. cbn [set_pc p_tasks store_task].
    rewrite (tasks_weight_insert _ _ _ _ Htk), weight_next.
    pose proof (stale_same s (set_pc i (RegCas t p h e c) (store_task t (set_next tk h) s)) p h eq_refl). lia.
  - apply bind_Ok in H as (pr & Hp%deref_Ok & H).
    destruct (Z.eqb_spec (wait_list_head pr) h) as [<-|Hh]; injection H as <-.
    + eapply Z.le_lt_trans; [by eapply (measure_head s)|]. rewrite Epc. cbn [cost].
      rewrite (stale_fresh s p pr Hp).
      pose proof (return_cost (set_pc i (return_pc c)
        (store_promise p (mkPromise (satisfied pr) (datum pr) t) s)) c). lia.
    + lowers s Epc; [by intros; apply stale_same|]. cbn [set_pc p_tasks].
      rewrite (stale_old s p pr h Hp Hh). lia.
Qed.

Lemma put_measure s i s' : put_step i s = Ok s' → (i < n)%nat → measure s' < measure s.
Proof.
  intros H Hi. unfold put_step in H.
  destruct (p_threads s i) as [| | | | | |p d|p d|p d h|p h|p h|p|curr] eqn:Epc; try done.
  - apply bind_Ok in H as (_ & _ & H). apply bind_Ok in H as (pr & Hp%deref_Ok & H).
    apply bind_Ok in H as (_ & _ & H). injection H as <-.
    lowers s Epc; [by intros; apply stale_same|]. cbn [set_pc p_tasks]. lia.
  - apply bind_Ok in H as (pr & Hp%deref_Ok & H). injection H as <-.
    lowers s Epc; [by intros; apply stale_same|]. cbn [set_pc p_tasks].
    rewrite (stale_fresh (set_pc _ _ s) p pr Hp). lia.
  - apply bind_Ok in H as (pr & Hp%deref_Ok & H). injection H as <-.
    lowers s Epc; [intros; by apply stale_field|]. cbn [set_pc p_tasks store_promise].
    pose proof (stale_field s p pr (satisfied pr) d p h Hp) as Hs.
    change (stale (set_pc _ _ ?s0) p h) with (stale s0 p h). lia.
  - apply bind_Ok in H as (pr & Hp%deref_Ok & H). injection H as <-.
    lowers s Epc; [intros; by apply stale_field|]. cbn [set_pc p_tasks store_promise].
    pose proof (stale_field s p pr 1 (datum pr) p h Hp) as Hs.
    change (stale (set_pc _ _ ?s0) p h) with (stale s0 p h). lia.
  - apply bind_Ok in H as (pr & Hp%deref_Ok & H).
    destruct (Z.eqb_spec (wait_list_head pr) h) as [<-|Hh]; injection H as <-.
    + eapply Z.le_lt_trans; [by eapply (measure_head s)|]. rewrite Epc. cbn [cost].
      rewrite (stale_fresh s p pr Hp). lia.
    + lowers s Epc; [by intros; apply stale_same|]. cbn [set_pc p_tasks].
      rewrite (stale_old s p pr h Hp Hh). lia.
  - apply bind_Ok in H as (pr & Hp%deref_Ok & H). injection H as <-.
    lowers s Epc; [by intros; apply stale_same|]. cbn [set_pc p_tasks].
    rewrite (stale_fresh (set_pc _ _ s) p pr Hp). lia.
  - destruct (negb _).
    + apply bind_Ok in H as (tk & Htk%deref_Ok & H). injection H as <-.
      lowers s Epc; [by intros; apply stale_same|]. cbn [set_pc p_tasks caller_cost]. lia.
    + injection H as <-. lowers s Epc; [by intros; apply stale_same|]. cbn [set_pc p_tasks]. lia.
Qed.
End measure.

Lemma pstep_measure n own s i s' :
  pinv own s → pstep i s = Ok s' → (i < n)%nat → measure n s' < measure n s.
Proof.
  intros Hinv H Hi. unfold pstep in H. destruct (p_threads s i) eqn:E; try done.
  - by eapply try_schedule_measure.
  - by eapply next_dep_measure.
  - by eapply register_measure.
  - by eapply register_measure.
  - by eapply register_measure.
  - by eapply put_measure.
  - by eapply put_measure.
  - by eapply put_measure.
  - by eapply put_measure.
  - by eapply put_measure.
  - by eapply put_measure.
  - by eapply put_measure.
Qed.

Lemma measure_low n s : - 8 * Z.of_nat n <= measure n s.
Proof.
  unfold measure. assert (0 <= tasks_weight n (p_tasks s)) as Ht.
  { unfold tasks_weight. apply (map_fold_weak_ind (λ r _, 0 <= r)); [done|].
    intros t tk m r _ Hr. pose proof (task_weight_pos n tk). lia. }
  pose proof (sum_le (λ i, cost n s (p_threads s i)) (λ _, 0) 8 n) as H.
  assert (∀ k, sum (λ _, 0) k = 0) as Hz by (induction k; cbn [sum]; lia).
  rewrite Hz in H. enough (0 <= sum (λ i, cost n s (p_threads s i)) n + 8 * Z.of_nat n) by lia.
  apply H. intros j _. destruct (p_threads s j) as [|? []|? [] []|? ? ? []|? ? ? ? []|? ? ? ? []| | | | | | |];
    cbn [cost caller_cost]; unfold stale; repeat case_match; lia.
Qed.

Lemma pstep_threads i s s' : pstep i s = Ok s' → ∃ x, p_threads s' = <[i := x]> (p_threads s).
Proof.
  unfold pstep, try_schedule_step, next_dep_step, register_step, put_step, hassert, mbind, res_bind.
  intros H. repeat case_match; simplify_eq; eexists; reflexivity.
Qed.

Lemma pstep_idle i s s' n :
  pstep i s = Ok s' → (∀ j, (n <= j)%nat → p_threads s j = Idle) →
  (i < n)%nat ∧ ∀ j, (n <= j)%nat → p_threads s' j = Idle.
Proof.
  intros H Hidle. assert (i < n)%nat as Hi.
  { destruct (decide (n <= i)%nat) as [Hle|]; [|lia]. unfold pstep in H. by rewrite Hidle in H. }
  split; [done|]. intros j Hj. destruct (pstep_threads i s s' H) as [x ->].
  rewrite fn_lookup_insert_ne by lia. by apply Hidle.
Qed.

(** The next step of the calls in progress, if any is. *)
Lemma some_step own s n :
  pinv own s → (∀ j, (n <= j)%nat → p_threads s j = Idle) →
  (∀ i, p_threads s i = Idle) ∨ ∃ i s', pstep i s = Ok s' ∧ ∃ own', pinv own' s'.
Proof.
  intros Hinv Hidle.
  assert (∀ k, (k <= n)%nat → (∀ i, (i < k)%nat → p_threads s i = Idle) ∨
    ∃ i, p_threads s i ≠ Idle) as Hk.
  { induction k as [|k IH]; intros Hle; [left; lia|]. destruct IH as [IH|?]; [lia| |by right].
    destruct (p_threads s k) eqn:E; [|right; exists k; by rewrite E..].
    left. intros i Hi. destruct (decide (i = k)) as [->|]; [done|apply IH; lia]. }
  destruct (Hk n) as [H|[i Hi]]; [lia| |].
  - left. intros i. destruct (decide (i < n)%nat); [auto|apply Hidle; lia].
  - right. destruct (pstep_ok own s i Hinv Hi) as (s' & E & Hs'). by exists i, s'.
Qed.

Lemma pstep_inv own s i s' : pinv own s → pstep i s = Ok s' → ∃ own', pinv own' s'.
Proof.
  intros Hinv H. destruct (pstep_ok own s i Hinv) as (s1 & E & Hs1).
  { intros E. unfold pstep in H. by rewrite E in H. }
  by assert (s1 = s') as -> by congruence.
Qed.

Lemma steps_bounded n js : ∀ own s s',
  pinv own s → (∀ j, (n <= j)%nat → p_threads s j = Idle) → prun (Step <$> js) s = Ok s' →
  Z.of_nat (length js) <= measure n s + 8 * Z.of_nat n.
Proof.
  induction js as [|i js IH]; intros own s s' Hinv Hidle H.
  - cbn. pose proof (measure_low n s). lia.
  - cbn in H. apply bind_Ok in H as (s1 & E & H).
    destruct (pstep_idle i s s1 n E Hidle) as [Hi Hidle1]. destruct (pstep_inv own s i s1 Hinv E) as [own1 H1].
    pose proof (IH own1 s1 s' H1 Hidle1 H). pose proof (pstep_measure n own s i s1 Hinv E Hi).
    rewrite length_cons. lia.
Qed.

Lemma steps_end n : ∀ k own s,
  measure n s + 8 * Z.of_nat n <= Z.of_nat k → pinv own s →
  (∀ j, (n <= j)%nat → p_threads s j = Idle) →
  ∃ js s', prun (Step <$> js) s = Ok s' ∧ ∀ i, p_threads s' i = Idle.
Proof.
  induction k as [|k IH]; intros own s Hk Hinv Hidle.
  all: destruct (some_step own s n Hinv Hidle) as [Hall|(i & s1 & E & own1 & H1)]; [by exists [], s|].
  all: destruct (pstep_idle i s s1 n E Hidle) as [Hi Hidle1].
  all: pose proof (pstep_measure n own s i s1 Hinv E Hi); pose proof (measure_low n s1).
  { lia. }
  destruct (IH own1 s1) as (js & s' & H' & Hend); [lia|done|done|].
  exists (i :: js), s'. split; [|done]. cbn. by rewrite E.
Qed.

(** ** Properties *)

(** C7: wait lists under concurrency.  Whatever the interleaving of spawns, puts
    and the registrations they make, no access fails or touches a task that was
    handed to the scheduler before; every task spawned is handed over at most
    once, the others are still in memory; and a task is handed over only when
    each of its futures is satisfied, with the datum of its put to read.  Each
    promise is put at most once, as the interface asks ([NoDup] of the puts). *)
Theorem promise_lists_safe ps ls s :
  NULL ∉ ps → prun ls (pinit ps) = Ok s → NoDup (p_puts s).*1 →
  (∀ i, p_threads s i ≠ Idle → ∃ s', pstep i s = Ok s') ∧
  p_spawned s ≡ₚ p_scheduled s ++ map_to_list (deps <$> p_tasks s) ∧
  ∀ t ds p, (t, ds) ∈ p_scheduled s → p ∈ ds →
    ∃ pr, p_promises s !! p = Some pr ∧ satisfied pr = 1 ∧ (p, datum pr) ∈ p_puts s.
Proof.
  intros Hn H Hnd. destruct (reached ps ls s Hn H Hnd) as [own Hinv]. split; [|split].
  - intros i Hi. destruct (pstep_ok own s i Hinv Hi) as (s' & E & _). by exists s'.
  - by apply log_tasks, (inv_log own).
  - intros t ds p Ht Hp. destruct (log_ready s (inv_log _ _ Hinv) t ds p Ht Hp) as (pr & Hpr & Hh).
    exists pr. split; [done|]. destruct (heap_list _ _ (inv_heap _ _ Hinv) p pr Hpr) as [_ [(_ & Hs & _)|[? _]]];
      [|done]. split; [done|].
    destruct (put_datum s (inv_puts _ _ Hinv) p pr Hpr) as [|[_ ?]]; [congruence|done].
Qed.

(** C3: no lost wakeup.  When no call is in progress, each task spawned has been
    handed to the scheduler, once, or waits for a promise that nobody has put:
    a registration that races with a put is never missed.  Each promise is put at
    most once, as the interface asks ([NoDup] of the puts). *)
Theorem promise_no_lost_wakeup ps ls s :
  NULL ∉ ps → prun ls (pinit ps) = Ok s → NoDup (p_puts s).*1 → (∀ i, p_threads s i = Idle) →
  ∃ waiting, p_spawned s ≡ₚ p_scheduled s ++ waiting ∧
    ∀ t ds, (t, ds) ∈ waiting → ∃ p, p ∈ ds ∧ p ∉ (p_puts s).*1.
Proof.
  intros Hn H Hnd Hidle. destruct (reached ps ls s Hn H Hnd) as [own Hinv].
  exists (map_to_list (deps <$> p_tasks s)). split; [by apply log_tasks, (inv_log own)|].
  intros t ds Ht%elem_of_map_to_list. rewrite lookup_fmap in Ht.
  apply fmap_Some in Ht as (tk & Ht & ->).
  destruct (heap_task _ _ (inv_heap _ _ Hinv) t tk Ht) as (_ & _ & Ho & (_ & _ & Hknown) & Hd).
  destruct (own t) as [|p|i] eqn:Eo; [done| |].
  - destruct (Hd p eq_refl) as (He & Hp & _ & _). destruct (Hknown _ _ He Hp) as [[pr Hpr] Hin].
    exists p. split; [done|]. intros Hput. destruct (put_closes s (inv_puts _ _ Hinv) p Hput) as [(qr & Hq & Hh)|[i Hi]].
    + assert (qr = pr) as -> by congruence.
      destruct (heap_list _ _ (inv_heap _ _ Hinv) p pr Hpr) as [_ [(_ & _ & Hl)|[? _]]]; [by apply (Hl t)|done].
    + by rewrite Hidle in Hi.
  - destruct (inv_threads _ _ Hinv i) as (l & _ & Hl & Hok). rewrite Hidle in Hok. cbn in Hok. subst l.
    by apply Hl, elem_of_nil in Eo.
Qed.

(** C14: the calls end.  The calls in progress on [n] threads make at most
    [measure n s + 8 n] accesses in total, in whatever order the threads move,
    even though each compare-and-swap is retried until it succeeds; and some
    order brings all of them to their end.  Each promise is put at most once, as
    the interface asks ([NoDup] of the puts). *)
Theorem promise_calls_end ps ls s n :
  NULL ∉ ps → prun ls (pinit ps) = Ok s → NoDup (p_puts s).*1 →
  (∀ i, (n <= i)%nat → p_threads s i = Idle) →
  (∀ js s', prun (Step <$> js) s = Ok s' → Z.of_nat (length js) <= measure n s + 8 * Z.of_nat n) ∧
  ∃ js s', prun (Step <$> js) s = Ok s' ∧ ∀ i, p_threads s' i = Idle.
Proof.
  intros Hn H Hnd Hidle. destruct (reached ps ls s Hn H Hnd) as [own Hinv]. split.
  - intros js s'. by eapply steps_bounded.
  - apply (steps_end n (Z.to_nat (measure n s + 8 * Z.of_nat n)) own); [|done..].
    pose proof (measure_low n s). lia.
Qed.

(** A task on two promises that are put while it registers: its first
    compare-and-swap fails because promise 1 was closed, and the put of
    promise 2 fails once because the task got in front of it. *)
Definition race : list plabel :=
  [CallSpawn 0 10 (User (Return 0)) false [1; 2]] ++ replicate 4 (Step 0) ++
  [CallPut 1 1 7] ++ replicate 6 (Step 1) ++ [CallPut 2 2 9] ++ replicate 3 (Step 2) ++
  replicate 6 (Step 0) ++ replicate 9 (Step 2).

Definition state_after (ls : list plabel) (ps : list Z) : pstate :=
  match prun ls (pinit ps) with Ok s => s | Err _ => pinit ps end.

Lemma state_after_ok ls ps :
  is_ok (prun ls (pinit ps)) = true → prun ls (pinit ps) = Ok (state_after ls ps).
Proof. unfold state_after. by destruct (prun ls (pinit ps)). Qed.

Lemma promise_lists_safe_witness :
  p_scheduled (state_after race [1; 2]) = [(10, [1; 2])] ∧
  p_spawned (state_after race [1; 2]) ≡ₚ p_scheduled (state_after race [1; 2]) ++
    map_to_list (deps <$> p_tasks (state_after race [1; 2])).
Proof.
  split; [by vm_compute|].
  apply (promise_lists_safe [1; 2] race (state_after race [1; 2])).
  - by apply (bool_decide_unpack _); vm_compute.
  - apply state_after_ok. by vm_compute.
  - by apply (bool_decide_unpack _); vm_compute.
Defined.

Lemma promise_no_lost_wakeup_witness :
  ∃ waiting, p_spawned (state_after race [1; 2]) ≡ₚ p_scheduled (state_after race [1; 2]) ++ waiting ∧
    ∀ t ds, (t, ds) ∈ waiting → ∃ p, p ∈ ds ∧ p ∉ (p_puts (state_after race [1; 2])).*1.
Proof.
  apply (promise_no_lost_wakeup [1; 2] race (state_after race [1; 2])).
  - by apply (bool_decide_unpack _); vm_compute.
  - apply state_after_ok. by vm_compute.
  - by apply (bool_decide_unpack _); vm_compute.
  - intros [|[|[|i]]]; by vm_compute.
Defined.

(** Cut in the middle, with three calls in progress. *)
Definition half_race : list plabel := take 16 race.

Lemma promise_calls_end_witness :
  ∃ js s', prun (Step <$> js) (state_after half_race [1; 2]) = Ok s' ∧ ∀ i, p_threads s' i = Idle.
Proof.
  apply (promise_calls_end [1; 2] half_race (state_after half_race [1; 2]) 3).
  - by apply (bool_decide_unpack _); vm_compute.
  - apply state_after_ok. by vm_compute.
  - by apply (bool_decide_unpack _); vm_compute.
  - intros [|[|[|i]]] Hi; [lia..|]. by vm_compute.
Defined.
