(* ===== verification/Pending.v ===== *)
(** * The list of pending operations of the communication modules

    [src/modules/common/hclib-module-common.h]: a module appends an operation it
    has started (an [MPI_Isend], say) to a shared list, and a polling task
    tests the operations and completes them.  Appending is lock-free; one task
    polls at a time, and it exits when it empties the list.  The accesses to the
    shared head and to the operations interleave here in any order; whether an
    operation is complete is the module's to say ([Step] carries the answer). *)

From S2P Require Import Prelude.
From stdpp Require Import options.

(** ** The machine *)

(** Either a promise to put or a task to spawn.

    src/modules/mpi/src/hclib_mpi.cpp:66-75 (_pending_mpi_op) *)
Record pending_op := mkOp { op_prom : Z; op_task : Z; op_next : Z }.

Definition set_op_next (x : pending_op) (next : Z) : pending_op :=
  mkOp (op_prom x) (op_task x) next.

(** The point before the next access to shared memory; [ne] is
    [pending_list_non_empty].

    src/modules/common/hclib-module-common.h:11-89 (poll_on_pending), from [AHead]

    src/modules/common/hclib-module-common.h:92-115 (append_to_pending) *)
Inductive ppc :=
  | PIdle
  | AHead (op : Z)                                  (** read the head into [op->next] *)
  | ACas (op : Z)
  | ASpawn                                          (** [async_at] *)
  | PStart                                          (** read the head *)
  | PLoop (prev op : Z) (ne : bool)                 (** read [op->next] *)
  | PTest (prev op next : Z) (ne : bool)            (** the callback *)
  | PUnlink (prev op next : Z) (ne : bool)          (** the compare-and-swap, or [prev->next] *)
  | PFix (old_head op next : Z) (ne : bool)         (** [old_head->next] *)
  | PComplete (prev op next : Z) (ne : bool).       (** put or spawn, and free *)

(** [pollers] counts the polling tasks spawned and not started; [appended] and
    [completed] log promises and tasks of operations. *)
Record pending_state := mkPending {
  ops : gmap Z pending_op;
  head : Z;
  pollers : Z;
  threads : nat → ppc;
  appended : list (Z * Z);
  completed : list (Z * Z)
}.

Definition goto (i : nat) (x : ppc) (s : pending_state) : pending_state :=
  mkPending (ops s) (head s) (pollers s) (<[i := x]> (threads s)) (appended s) (completed s).
Definition set_op (a : Z) (x : pending_op) (s : pending_state) : pending_state :=
  mkPending (<[a := x]> (ops s)) (head s) (pollers s) (threads s) (appended s) (completed s).
Definition set_list_head (h : Z) (s : pending_state) : pending_state :=
  mkPending (ops s) h (pollers s) (threads s) (appended s) (completed s).
Definition set_pollers (n : Z) (s : pending_state) : pending_state :=
  mkPending (ops s) (head s) n (threads s) (appended s) (completed s).

(** What completing an operation does. *)
Definition action (x : pending_op) : Z * Z := (op_prom x, op_task x).

Definition finish_op (a : Z) (x : pending_op) (s : pending_state) : pending_state :=
  mkPending (delete a (ops s)) (head s) (pollers s) (threads s) (appended s) (completed s ++ [action x]).

(** One access of thread [i] that is appending.

    src/modules/common/hclib-module-common.h:95-115 (append_to_pending) *)
Definition append_step (i : nat) (s : pending_state) : res pending_state :=
  match threads s i with
  | AHead op =>
      x ← deref (ops s !! op);
      Ok (goto i (ACas op) (set_op op (set_op_next x (head s)) s))
  | ACas op =>
      x ← deref (ops s !! op);
      let old_head := head s in
      if old_head =? op_next x then
        Ok (goto i (if old_head =? NULL then ASpawn else PIdle) (set_list_head op s))
      else Ok (goto i (ACas op) (set_op op (set_op_next x old_head) s))
  | ASpawn => Ok (goto i PIdle (set_pollers (pollers s + 1) s))
  | _ => Err Disabled
  end.

(** One access of thread [i] that polls; [complete] is the answer of the
    callback when it is asked.  Only the polling task writes the [next] of an
    operation in the list, so the assertion on it and the write are one access.

    src/modules/common/hclib-module-common.h:14-88 (poll_on_pending) *)
Definition poll_step (i : nat) (complete : bool) (s : pending_state) : res pending_state :=
  match threads s i with
  | PStart =>
      _ ← hassert (negb (head s =? NULL));
      Ok (goto i (PLoop NULL (head s) true) s)
  | PLoop prev op ne =>
      if negb (op =? NULL) then
        x ← deref (ops s !! op);
        Ok (goto i (PTest prev op (op_next x) ne) s)
      else Ok (goto i (if ne then PStart else PIdle) s)
  | PTest prev op next ne =>
      Ok (goto i (if complete then PUnlink prev op next ne else PLoop op next ne) s)
  | PUnlink prev op next ne =>
      if prev =? NULL then
        let old_head := head s in
        if old_head =? op
        then Ok (goto i (PComplete prev op next (negb (next =? NULL))) (set_list_head next s))
        else Ok (goto i (PFix old_head op next ne) s)
      else
        x ← deref (ops s !! prev);
        _ ← hassert (op_next x =? op);
        Ok (goto i (PComplete prev op next ne) (set_op prev (set_op_next x next) s))
  | PFix old_head op next ne =>
      x ← deref (ops s !! old_head);
      _ ← hassert (op_next x =? op);
      Ok (goto i (PComplete old_head op next ne) (set_op old_head (set_op_next x next) s))
  | PComplete prev op next ne =>
      x ← deref (ops s !! op);
      Ok (goto i (PLoop prev next ne) (finish_op op x s))
  | _ => Err Disabled
  end.

Definition pending_step (i : nat) (complete : bool) (s : pending_state) : res pending_state :=
  match threads s i with
  | PIdle => Err Disabled
  | AHead _ | ACas _ | ASpawn => append_step i s
  | _ => poll_step i complete s
  end.

(** An idle thread appends an operation at a free address, or a worker starts a
    polling task. *)
Inductive pending_label :=
  | Append (i : nat) (op prom task : Z)
  | StartPoll (i : nat)
  | Step (i : nat) (complete : bool).

Definition pending_lstep (l : pending_label) (s : pending_state) : res pending_state :=
  match l with
  | Append i op prom task =>
      match threads s i with
      | PIdle =>
          if bool_decide (ops s !! op = None ∧ op ≠ NULL) then
            Ok (mkPending (<[op := mkOp prom task NULL]> (ops s)) (head s) (pollers s)
                  (<[i := AHead op]> (threads s)) (appended s ++ [(prom, task)]) (completed s))
          else Err Disabled
      | _ => Err Disabled
      end
  | StartPoll i =>
      match threads s i with
      | PIdle =>
          if pollers s >? 0 then Ok (goto i PStart (set_pollers (pollers s - 1) s)) else Err Disabled
      | _ => Err Disabled
      end
  | Step i complete => pending_step i complete s
  end.

Fixpoint pending_run (ls : list pending_label) (s : pending_state) : res pending_state :=
  match ls with
  | [] => Ok s
  | l :: ls => s' ← pending_lstep l s; pending_run ls s'
  end.

(** src/modules/mpi/src/hclib_mpi.cpp:77-77 (pending) *)
Definition pending : pending_state := mkPending ∅ NULL 0 (λ _, PIdle) [] [].

(** ** Invariant *)

(** From [h], the operations [l] linked by [next], up to [h']. *)
Fixpoint seg (m : gmap Z pending_op) (h : Z) (l : list Z) (h' : Z) : Prop :=
  match l with
  | [] => h = h'
  | a :: l => h = a ∧ ∃ x, m !! a = Some x ∧ seg m (op_next x) l h'
  end.

(** The operation that only this thread has. *)
Definition held (x : ppc) : option Z :=
  match x with
  | AHead op | ACas op | PComplete _ op _ _ => Some op
  | _ => None
  end.

(** The thread keeps polling, or decides to when it comes to it. *)
Definition polling (x : ppc) : bool :=
  match x with
  | PStart => true
  | PLoop _ _ ne | PTest _ _ _ ne | PUnlink _ _ _ ne | PFix _ _ _ ne | PComplete _ _ _ ne => ne
  | _ => false
  end.

(** Who sees to it that a list that is not empty is polled. *)
Inductive token :=
  | Nobody
  | Appender (i : nat)
  | Spawned
  | Poller (i : nat).

Record token_ok (k : token) (s : pending_state) : Prop := {
  tok_empty : k = Nobody ↔ head s = NULL;
  tok_append : ∀ i, threads s i = ASpawn ↔ k = Appender i;
  tok_spawned : pollers s = match k with Spawned => 1 | _ => 0 end;
  tok_polls : ∀ i, polling (threads s i) = true ↔ k = Poller i
}.

(** [prev] is the last operation of [B], or not set. *)
Definition ends (B : list Z) (prev : Z) : Prop := prev = NULL ∨ ∃ B', B = B' ++ [prev].

(** Operation [op] is linked, before [M]. *)
Definition linked (s : pending_state) (op next : Z) (M : list Z) : Prop :=
  seg (ops s) next M NULL ∧ ∃ x, ops s !! op = Some x ∧ op_next x = next.

(** What a thread knows of the list [L]. *)
Definition ppc_ok (s : pending_state) (L : list Z) (x : ppc) : Prop :=
  match x with
  | PLoop prev op true => ∃ B M, L = B ++ M ∧ ends B prev ∧ seg (ops s) op M NULL
  | PLoop prev op false => op = NULL
  | PTest prev op next true | PUnlink prev op next true =>
      ∃ B M, L = B ++ op :: M ∧ ends B prev ∧ linked s op next M
  | PFix old_head op next true =>
      ∃ B M, L = B ++ op :: M ∧ old_head ∈ B ∧ linked s op next M
  | PComplete prev op next true => ∃ B M, L = B ++ M ∧ ends B prev ∧ seg (ops s) next M NULL
  | PComplete prev op next false => next = NULL
  | PTest _ _ _ false | PUnlink _ _ _ false | PFix _ _ _ false => False
  | _ => True
  end.

Record qinv (L : list Z) (k : token) (s : pending_state) : Prop := {
  q_list : seg (ops s) (head s) L NULL;
  q_nodup : NoDup L;
  q_ops : ∀ a, is_Some (ops s !! a) ↔ a ∈ L ∨ ∃ i, held (threads s i) = Some a;
  q_null : ∀ a x, ops s !! a = Some x → a ≠ NULL;
  q_held : ∀ i a, held (threads s i) = Some a → a ∉ L ∧ ∀ j, held (threads s j) = Some a → j = i;
  q_token : token_ok k s;
  q_pc : ∀ i, ppc_ok s L (threads s i);
  q_log : appended s ≡ₚ completed s ++ (map_to_list (action <$> ops s)).*2
}.

(** ** Lemmas: lists of operations *)

Lemma seg_app m h l1 l2 h' : seg m h (l1 ++ l2) h' ↔ ∃ h1, seg m h l1 h1 ∧ seg m h1 l2 h'.
Proof.
  revert h. induction l1 as [|a l1 IH]; intros h; cbn.
  - split; [intros H; by exists h|by intros (h1 & -> & H)].
  - split.
    + intros (-> & x & Hx & (h1 & H1 & H2)%IH). exists h1. split; [|done]. split; [done|]. by exists x.
    + intros (h1 & (-> & x & Hx & H1) & H2). split; [done|]. exists x. split; [done|]. apply IH. by exists h1.
Qed.

Lemma seg_insert m h l h' a x : a ∉ l → seg m h l h' → seg (<[a := x]> m) h l h'.
Proof.
  revert h. induction l as [|b l IH]; intros h Hn; cbn; [done|].
  apply not_elem_of_cons in Hn as [Hne Hn]. intros (-> & y & Hy & H). split; [done|].
  exists y. rewrite lookup_insert_ne by done. auto.
Qed.

Lemma seg_delete m h l h' a : a ∉ l → seg m h l h' → seg (delete a m) h l h'.
Proof.
  revert h. induction l as [|b l IH]; intros h Hn; cbn; [done|].
  apply not_elem_of_cons in Hn as [Hne Hn]. intros (-> & y & Hy & H). split; [done|].
  exists y. rewrite lookup_delete_ne by done. auto.
Qed.

(** The list with [op] taken out behind [prev]. *)
Lemma seg_unlink m h B prev op M next xp xo :
  seg m h ((B ++ [prev]) ++ op :: M) NULL → NoDup ((B ++ [prev]) ++ op :: M) →
  m !! prev = Some xp → m !! op = Some xo → op_next xo = next →
  seg (<[prev := set_op_next xp next]> m) h ((B ++ [prev]) ++ M) NULL.
Proof.
  intros Hs Hnd Hp Ho <-.
  assert (prev ∉ B ∧ prev ∉ M) as [HnB HnM].
  { rewrite <- app_assoc in Hnd. apply NoDup_app in Hnd as (_ & HB & Hnd).
    apply NoDup_app in Hnd as (_ & HM & _). split.
    - intros H. apply (HB prev H). set_solver.
    - intros H. apply (HM prev); set_solver. }
  rewrite <- app_assoc in Hs |- *. apply seg_app in Hs as (h1 & H1 & (-> & xp' & Hp' & H2)).
  destruct H2 as (_ & xo' & Ho' & H3). assert (xo' = xo) as -> by congruence.
  apply seg_app. exists prev. split; [by apply seg_insert|]. split; [done|].
  exists (set_op_next xp (op_next xo)). rewrite lookup_insert_eq. split; [done|].
  by apply seg_insert.
Qed.

Lemma seg_head m h a l h' : seg m h (a :: l) h' → h = a.
Proof. by intros [-> _]. Qed.

(** In a list, an operation whose [next] is [op] is the one before [op]. *)
Lemma seg_before m h B op M h' p x :
  seg m h (B ++ op :: M) h' → NoDup (B ++ op :: M) → p ∈ B → m !! p = Some x → op_next x = op →
  ∃ B', B = B' ++ [p].
Proof.
  intros Hs Hnd Hp Hx Hn. apply list_elem_of_split in Hp as (B1 & B2 & ->). exists B1.
  rewrite <- app_assoc in Hs, Hnd. apply seg_app in Hs as (h1 & _ & (-> & y & Hy & H)).
  assert (y = x) as -> by congruence. rewrite Hn in H. destruct B2 as [|b B2]; [done|].
  cbn in H. destruct H as (<- & _). apply NoDup_app in Hnd as (_ & _ & Hnd).
  apply NoDup_cons in Hnd as [_ Hnd]. cbn in Hnd. apply NoDup_cons in Hnd as [Hnb _]. set_solver.
Qed.

(** ** Lemmas: what one access changes *)

Lemma seg_frame m m' h l h' : (∀ a, a ∈ l → m' !! a = m !! a) → seg m h l h' → seg m' h l h'.
Proof.
  revert h. induction l as [|a l IH]; intros h Hs; cbn; [done|].
  intros (-> & x & Hx & H). split; [done|]. exists x. rewrite Hs by (by left). split; [done|].
  apply IH; [|done]. intros b Hb. apply Hs. by right.
Qed.

Lemma linked_frame s s' op next M :
  (∀ a, a ∈ op :: M → ops s' !! a = ops s !! a) → linked s op next M → linked s' op next M.
Proof.
  intros Hs (H & x & Hx & Hn). split.
  - eapply seg_frame; [|done]. intros a Ha. apply Hs. by right.
  - exists x. rewrite Hs by (by left). done.
Qed.

Lemma ends_cons a B prev : ends B prev → ends (a :: B) prev.
Proof. intros [?|[B' ->]]; [by left|right]. by exists (a :: B'). Qed.

(** More operations in front do not matter to the poller. *)
Lemma ppc_ok_frame s s' L A x :
  ppc_ok s L x → (∀ a, a ∈ L → ops s' !! a = ops s !! a) → ppc_ok s' (A ++ L) x.
Proof.
  intros H Hs. assert (∀ B prev, ends B prev → ends (A ++ B) prev) as HA.
  { intros B prev HB. induction A as [|a A IH]; [done|]. by apply ends_cons. }
  destruct x as [| | | | |prev op [|]|prev op next [|]|prev op next [|]|h op next [|]|prev op next [|]];
    try done; cbn in *.
  - destruct H as (B & M & -> & He & HM). exists (A ++ B), M. rewrite app_assoc. split; [done|].
    split; [auto|]. eapply seg_frame; [|done]. intros a Ha. apply Hs. set_solver.
  - destruct H as (B & M & -> & He & HM). exists (A ++ B), M. rewrite app_assoc. split; [done|].
    split; [auto|]. eapply linked_frame; [|done]. intros a Ha. apply Hs. set_solver.
  - destruct H as (B & M & -> & He & HM). exists (A ++ B), M. rewrite app_assoc. split; [done|].
    split; [auto|]. eapply linked_frame; [|done]. intros a Ha. apply Hs. set_solver.
  - destruct H as (B & M & -> & He & HM). exists (A ++ B), M. rewrite app_assoc. split; [done|].
    split; [set_solver|]. eapply linked_frame; [|done]. intros a Ha. apply Hs. set_solver.
  - destruct H as (B & M & -> & He & HM). exists (A ++ B), M. rewrite app_assoc. split; [done|].
    split; [auto|]. eapply seg_frame; [|done]. intros a Ha. apply Hs. set_solver.
Qed.

(** A thread that does not poll knows nothing of the list. *)
Lemma ppc_ok_other s s' L L' x : polling x = false → ppc_ok s L x → ppc_ok s' L' x.
Proof. by destruct x as [| | | | |? ? []|? ? ? []|? ? ? []|? ? ? []|? ? ? []]. Qed.

Lemma poller_alone L k s i j :
  qinv L k s → polling (threads s i) = true → j ≠ i → polling (threads s j) = false.
Proof.
  intros H Hi Hj. destruct (polling (threads s j)) eqn:E; [|done].
  apply (tok_polls k s (q_token _ _ _ H)) in Hi, E. congruence.
Qed.

(** The [k]-th clause of [token_ok] for a thread that goes from [y] to [x] with
    the same duties. *)
Lemma token_step k s s' i x :
  token_ok k s → threads s' = <[i := x]> (threads s) → (head s' = NULL ↔ head s = NULL) →
  pollers s' = pollers s → (x = ASpawn ↔ threads s i = ASpawn) →
  polling x = polling (threads s i) → token_ok k s'.
Proof.
  intros [H1 H2 H3 H4] Ex Hh Hp Ha Hpoll. split.
  - by rewrite Hh.
  - intros j. rewrite <- H2, Ex. destruct (decide (j = i)) as [->|];
      [by rewrite fn_lookup_insert|by rewrite fn_lookup_insert_ne].
  - by rewrite Hp.
  - intros j. rewrite <- H4, Ex. destruct (decide (j = i)) as [->|];
      [by rewrite fn_lookup_insert, Hpoll|by rewrite fn_lookup_insert_ne].
Qed.

Lemma held_step s s' i x o a :
  threads s' = <[i := x]> (threads s) → held x = o → (∃ j, held (threads s' j) = Some a) ↔
  o = Some a ∨ ∃ j, j ≠ i ∧ held (threads s j) = Some a.
Proof.
  intros Ex Hx. rewrite Ex. split.
  - intros [j Hj]. destruct (decide (j = i)) as [->|Hne].
    + rewrite fn_lookup_insert in Hj. left. congruence.
    + rewrite fn_lookup_insert_ne in Hj by done. right. by exists j.
  - intros [Ho|(j & Hne & Hj)]; [exists i; rewrite fn_lookup_insert; congruence|].
    exists j. by rewrite fn_lookup_insert_ne.
Qed.

Lemma held_unique L k s s' (L' : list Z) i x :
  qinv L k s → threads s' = <[i := x]> (threads s) →
  (∀ a, held x = Some a → a ∉ L' ∧ ∀ j, j ≠ i → held (threads s j) ≠ Some a) →
  (∀ j a, j ≠ i → held (threads s j) = Some a → a ∉ L') →
  ∀ j a, held (threads s' j) = Some a → a ∉ L' ∧ ∀ j', held (threads s' j') = Some a → j' = j.
Proof.
  intros Hq Ex Hx Hother j a. rewrite Ex. destruct (decide (j = i)) as [->|Hne].
  - rewrite fn_lookup_insert. intros Ha. destruct (Hx a Ha) as [Hn Hu]. split; [done|].
    intros j'. destruct (decide (j' = i)) as [->|Hne']; [done|].
    rewrite fn_lookup_insert_ne by done. intros Hj'. by destruct (Hu j').
  - rewrite fn_lookup_insert_ne by done. intros Ha. split; [by apply (Hother j)|].
    intros j'. destruct (decide (j' = i)) as [->|Hne'].
    + rewrite fn_lookup_insert. intros Ha'. by destruct (proj2 (Hx a Ha') j).
    + rewrite fn_lookup_insert_ne by done. by apply (q_held _ _ _ Hq j a Ha).
Qed.

(** A thread that only moves on. *)
Lemma qinv_move L k k' s s' i x :
  qinv L k s → threads s' = <[i := x]> (threads s) → ops s' = ops s → head s' = head s →
  appended s' = appended s → completed s' = completed s →
  held x = held (threads s i) → token_ok k' s' → ppc_ok s L x → qinv L k' s'.
Proof.
  intros H Ex Eo Eh Ea Ec Hx Hk Hok. split.
  - rewrite Eo, Eh. apply H.
  - apply H.
  - intros a. rewrite Eo, (q_ops _ _ _ H). rewrite (held_step s s' i x _ a Ex eq_refl).
    split; intros [?|Hj]; [by left|right|by left|right].
    + destruct Hj as [j Hj]. destruct (decide (j = i)) as [->|]; [left; congruence|right; by exists j].
    + destruct Hj as [Hj|(j & _ & Hj)]; [exists i; congruence|by exists j].
  - intros a y. rewrite Eo. apply (q_null _ _ _ H).
  - eapply held_unique; [done|done| |].
    + intros a. rewrite Hx. intros Ha. destruct (q_held _ _ _ H i a Ha) as [? Hu]. split; [done|].
      intros j Hj Ha'. by apply Hj, Hu.
    + intros j a _ Ha. by apply (q_held _ _ _ H j).
  - done.
  - intros j. rewrite Ex. destruct (decide (j = i)) as [->|Hne].
    + rewrite fn_lookup_insert. apply (ppc_ok_frame s s' L []); [done|]. intros a _. by rewrite Eo.
    + rewrite fn_lookup_insert_ne by done. apply (ppc_ok_frame s s' L []); [apply H|]. intros a _. by rewrite Eo.
  - rewrite Eo, Ea, Ec. apply H.
Qed.

(** Writes that keep what the operations are. *)
Lemma action_insert (m : gmap Z pending_op) a x y :
  m !! a = Some x → action y = action x → action <$> <[a := y]> m = action <$> m.
Proof. intros Hx Ha. rewrite fmap_insert, Ha. apply insert_id. by rewrite lookup_fmap, Hx. Qed.

Lemma some_insert (m : gmap Z pending_op) a x y b :
  m !! a = Some x → is_Some (<[a := y]> m !! b) ↔ is_Some (m !! b).
Proof.
  intros Hx. destruct (decide (b = a)) as [->|]; [rewrite lookup_insert_eq, Hx; by split|].
  by rewrite lookup_insert_ne.
Qed.

(** An appender writes its operation. *)
Lemma qinv_private L k s i x a y y' :
  qinv L k s → held (threads s i) = Some a → held x = Some a → ops s !! a = Some y →
  action y' = action y → polling x = polling (threads s i) → (x = ASpawn ↔ threads s i = ASpawn) →
  (∀ s' : pending_state, ppc_ok s' L x) → qinv L k (goto i x (set_op a y' s)).
Proof.
  intros H Ha Hx Hy Hact Hpoll Hsp Hok. destruct (q_held _ _ _ H i a Ha) as [HaL Hu]. split.
  - apply seg_insert; [done|apply H].
  - apply H.
  - intros b. cbn. rewrite (some_insert _ _ _ _ _ Hy), (q_ops _ _ _ H b).
    rewrite (held_step s (goto i x s) i x _ b eq_refl Hx).
    split; intros [?|Hj]; [by left|right|by left|right].
    + destruct Hj as [j Hj]. destruct (decide (j = i)) as [->|]; [left; congruence|right; by exists j].
    + destruct Hj as [Hj|(j & _ & Hj)]; [exists i; congruence|by exists j].
  - intros b z. cbn. intros [[<- _]|[_ Hz]]%lookup_insert_Some; [|by apply (q_null _ _ _ H b z)].
    by apply (q_null _ _ _ H a y).
  - eapply (held_unique L k s _ L i x); [done..| |].
    + intros b. rewrite Hx. intros [= <-]. split; [done|]. intros j Hj Ha'. by apply Hj, Hu.
    + intros j b _ Hb. by apply (q_held _ _ _ H j).
  - eapply (token_step k s _ i x); try done. apply H.
  - intros j. cbn. destruct (decide (j = i)) as [->|Hne]; [by rewrite fn_lookup_insert|].
    rewrite fn_lookup_insert_ne by done. apply (ppc_ok_frame s _ L []); [apply H|].
    intros b Hb. cbn. rewrite lookup_insert_ne; [done|congruence].
  - cbn. rewrite (action_insert _ _ _ _ Hy Hact). apply H.
Qed.

(** The operation becomes the head; who finds an empty list spawns the poller. *)
Lemma qinv_link L k s i op x :
  qinv L k s → threads s i = ACas op → ops s !! op = Some x → op_next x = head s →
  qinv (op :: L) (if head s =? NULL then Appender i else k)
    (goto i (if head s =? NULL then ASpawn else PIdle) (set_list_head op s)).
Proof.
  intros H Epc Hx Hn. set (y := if head s =? NULL then ASpawn else PIdle).
  assert (held (threads s i) = Some op) as Hh by (by rewrite Epc).
  destruct (q_held _ _ _ H i op Hh) as [HopL Hu].
  assert (op ≠ NULL) as Hnull by (by apply (q_null _ _ _ H op x)).
  assert (held y = None) as Hy by (unfold y; by destruct (head s =? NULL)).
  set (s' := goto i y (set_list_head op s)). split.
  - cbn. split; [done|]. exists x. rewrite Hn. split; [done|]. apply H.
  - apply NoDup_cons. split; [done|apply H].
  - intros a. cbn [ops s' goto set_list_head]. rewrite (q_ops _ _ _ H a), elem_of_cons.
    rewrite (held_step s s' i y _ a eq_refl Hy). split.
    + intros [?|[j Hj]]; [by left; right|]. destruct (decide (j = i)) as [->|]; [left; left; congruence|].
      right. right. by exists j.
    + intros [[->|?]|[?|(j & _ & Hj)]]; [right; by exists i|by left|done|right; by exists j].
  - apply (q_null _ _ _ H).
  - eapply (held_unique L k s s' (op :: L) i y); [done..| |].
    + intros a. by rewrite Hy.
    + intros j a Hj Ha. apply not_elem_of_cons. split; [|by apply (q_held _ _ _ H j)].
      intros ->. by apply Hj, Hu.
  - destruct (q_token _ _ _ H) as [H1 H2 H3 H4]. unfold s', y. destruct (Z.eqb_spec (head s) NULL) as [Hd|Hd].
    + assert (k = Nobody) as -> by (by apply H1). split.
      * cbn. done.
      * intros j. cbn. destruct (decide (j = i)) as [->|Hne]; [by rewrite fn_lookup_insert|].
        rewrite fn_lookup_insert_ne, H2 by done. split; [done|]. congruence.
      * done.
      * intros j. cbn. destruct (decide (j = i)) as [->|Hne]; [by rewrite fn_lookup_insert|].
        rewrite fn_lookup_insert_ne, H4 by done. done.
    + by eapply (token_step k s _ i PIdle); rewrite ?Epc; try done; cbn.
  - intros j. cbn. destruct (decide (j = i)) as [->|Hne].
    + rewrite fn_lookup_insert. unfold y. by destruct (head s =? NULL).
    + rewrite fn_lookup_insert_ne by done. by apply (ppc_ok_frame s _ L [op]); [apply H|].
  - apply H.
Qed.

(** The poller takes [op] out of the list. *)
Lemma qinv_unlink B op M k k' s s' i prev next ne :
  qinv (B ++ op :: M) k s → polling (threads s i) = true → held (threads s i) = None →
  threads s' = <[i := PComplete prev op next ne]> (threads s) →
  (∀ a, is_Some (ops s' !! a) ↔ is_Some (ops s !! a)) → action <$> ops s' = action <$> ops s →
  appended s' = appended s → completed s' = completed s →
  seg (ops s') (head s') (B ++ M) NULL → token_ok k' s' →
  ppc_ok s' (B ++ M) (PComplete prev op next ne) → qinv (B ++ M) k' s'.
Proof.
  intros H Hpoll Hno Ex Hops Hact Ea Ec Hseg Hk Hok.
  assert (NoDup (B ++ M) ∧ op ∉ B ++ M) as [Hnd Hnop].
  { pose proof (q_nodup _ _ _ H) as Hnd. rewrite <- Permutation_middle in Hnd.
    apply NoDup_cons in Hnd. by destruct Hnd. }
  assert (∀ a, a ∈ B ++ op :: M ↔ a = op ∨ a ∈ B ++ M) as Hin by set_solver.
  split.
  - done.
  - done.
  - intros a. rewrite Hops, (q_ops _ _ _ H a), Hin, (held_step s s' i _ _ a Ex eq_refl). split.
    + intros [[->|?]|[j Hj]]; [right; by left|by left|]. right. right. exists j. split; [congruence|done].
    + intros [?|[[= <-]|(j & _ & Hj)]]; [left; by right|left; by left|right; by exists j].
  - intros a y Hy. assert (is_Some (ops s !! a)) as [z Hz] by (apply Hops; eauto).
    by apply (q_null _ _ _ H a z).
  - eapply held_unique; [done|done| |].
    + intros a [= <-]. split; [done|]. intros j _ Hj. apply (q_held _ _ _ H j) in Hj as [Hj _].
      apply Hj, Hin. by left.
    + intros j a _ Ha Hal. apply (q_held _ _ _ H j) in Ha as [Ha _]. apply Ha, Hin. by right.
  - done.
  - intros j. rewrite Ex. destruct (decide (j = i)) as [->|Hne]; [by rewrite fn_lookup_insert|].
    rewrite fn_lookup_insert_ne by done. eapply ppc_ok_other; [|apply H].
    by eapply poller_alone.
  - rewrite Ea, Ec, Hact. apply H.
Qed.

Lemma qinv_finish L k s i prev op next ne x :
  qinv L k s → threads s i = PComplete prev op next ne → ops s !! op = Some x →
  qinv L k (goto i (PLoop prev next ne) (finish_op op x s)).
Proof.
  intros H Epc Hx. set (s' := goto i (PLoop prev next ne) (finish_op op x s)).
  assert (held (threads s i) = Some op) as Hh by (by rewrite Epc).
  destruct (q_held _ _ _ H i op Hh) as [HopL Hu]. split.
  - apply seg_delete; [done|apply H].
  - apply H.
  - intros a. cbn [ops s' goto finish_op]. rewrite (held_step s s' i (PLoop prev next ne) None a eq_refl eq_refl).
    destruct (decide (a = op)) as [->|Hne].
    + rewrite lookup_delete_eq. split; [by intros []|]. intros [?|[?|(j & Hj & Ha)]]; [done..|]. by apply Hu in Ha.
    + rewrite lookup_delete_ne, (q_ops _ _ _ H a) by done. split.
      * intros [?|[j Hj]]; [by left|right; right]. exists j. split; [congruence|done].
      * intros [?|[?|(j & _ & Hj)]]; [by left|done|right; by exists j].
  - intros a y. cbn. intros [_ Hy]%lookup_delete_Some. by apply (q_null _ _ _ H a y).
  - eapply (held_unique L k s s' L i (PLoop prev next ne)); [done..|].
    intros j a _ Ha. by apply (q_held _ _ _ H j).
  - eapply (token_step k s s' i (PLoop prev next ne)); try done; [apply H|by rewrite Epc|by rewrite Epc].
  - intros j. cbn. destruct (decide (j = i)) as [->|Hne].
    + rewrite fn_lookup_insert. pose proof (q_pc _ _ _ H i) as Hok. rewrite Epc in Hok.
      destruct ne; cbn in *; [|done]. destruct Hok as (B & M & -> & He & HM). exists B, M.
      split; [done|]. split; [done|]. apply seg_delete; [|done]. set_solver.
    + rewrite fn_lookup_insert_ne by done. apply (ppc_ok_frame s _ L []); [apply H|].
      intros a Ha. cbn. rewrite lookup_delete_ne; [done|congruence].
  - cbn. rewrite (q_log _ _ _ H), <- app_assoc, fmap_delete. apply Permutation_app; [done|].
    rewrite <- (map_to_list_delete (action <$> ops s) op (action x)) by (by rewrite lookup_fmap, Hx). done.
Qed.

(** ** Lemmas: new calls *)

Lemma qinv_append L k s i op prom task :
  qinv L k s → threads s i = PIdle → ops s !! op = None → op ≠ NULL →
  qinv L k (mkPending (<[op := mkOp prom task NULL]> (ops s)) (head s) (pollers s)
    (<[i := AHead op]> (threads s)) (appended s ++ [(prom, task)]) (completed s)).
Proof.
  intros H Epc Hop Hn. set (s' := mkPending _ _ _ _ _ _).
  assert (op ∉ L ∧ ∀ j, held (threads s j) ≠ Some op) as [HopL Hno].
  { split; [intros Hin|intros j Hj].
    - assert (is_Some (ops s !! op)) as [? E] by (apply (q_ops _ _ _ H); by left). congruence.
    - assert (is_Some (ops s !! op)) as [? E] by (apply (q_ops _ _ _ H); right; by exists j). congruence. }
  split.
  - apply seg_insert; [done|apply H].
  - apply H.
  - intros a. cbn [ops s']. rewrite (held_step s s' i (AHead op) (Some op) a eq_refl eq_refl).
    destruct (decide (a = op)) as [->|Hne].
    + rewrite lookup_insert_eq. split; [intros _; right; by left|by eexists].
    + rewrite lookup_insert_ne, (q_ops _ _ _ H a) by done. split.
      * intros [?|[j Hj]]; [by left|right; right]. exists j. split; [|done]. intros ->. by rewrite Epc in Hj.
      * intros [?|[?|(j & _ & Hj)]]; [by left|congruence|right; by exists j].
  - intros a y. cbn. intros [[<- _]|[_ Hy]]%lookup_insert_Some; [done|by apply (q_null _ _ _ H a y)].
  - eapply (held_unique L k s s' L i (AHead op)); [done..| |].
    + intros a [= <-]. split; [done|]. intros j _. apply Hno.
    + intros j a _ Ha. by apply (q_held _ _ _ H j).
  - eapply (token_step k s s' i (AHead op)); try done; [apply H|by rewrite Epc|by rewrite Epc].
  - intros j. cbn. destruct (decide (j = i)) as [->|Hne]; [by rewrite fn_lookup_insert|].
    rewrite fn_lookup_insert_ne by done. apply (ppc_ok_frame s _ L []); [apply H|].
    intros a Ha. cbn. rewrite lookup_insert_ne; [done|congruence].
  - cbn. rewrite (q_log _ _ _ H), fmap_insert, <- app_assoc. apply Permutation_app; [done|].
    rewrite map_to_list_insert by (by rewrite lookup_fmap, Hop). cbn.
    symmetry. apply Permutation_cons_append.
Qed.

(** The spawned poller starts on thread [i]. *)
Lemma token_take s i :
  token_ok Spawned s → token_ok (Poller i) (goto i PStart (set_pollers 0 s)).
Proof.
  intros [H1 H2 H3 H4]. split; cbn.
  - split; [done|]. intros Hh. by apply H1 in Hh.
  - intros j. destruct (decide (j = i)) as [->|Hne]; [rewrite fn_lookup_insert; by split|].
    rewrite fn_lookup_insert_ne, H2 by done. done.
  - done.
  - intros j. destruct (decide (j = i)) as [->|Hne]; [by rewrite fn_lookup_insert|].
    rewrite fn_lookup_insert_ne, H4 by done. split; [done|]. congruence.
Qed.

Lemma qinv_start L k s i :
  qinv L k s → threads s i = PIdle → pollers s > 0 →
  qinv L (Poller i) (goto i PStart (set_pollers (pollers s - 1) s)).
Proof.
  intros H Epc Hp. pose proof (tok_spawned k s (q_token _ _ _ H)) as E.
  assert (k = Spawned) as -> by (destruct k; [lia..|done|lia]). rewrite E.
  eapply (qinv_move L Spawned _ s _ i PStart); try done; [by rewrite Epc|]. by apply token_take, H.
Qed.

Lemma qinv_spawn_poll L k s i :
  qinv L k s → threads s i = ASpawn → qinv L Spawned (goto i PIdle (set_pollers (pollers s + 1) s)).
Proof.
  intros H Epc. pose proof (q_token _ _ _ H) as [H1 H2 H3 H4].
  assert (k = Appender i) as -> by (by apply H2).
  eapply (qinv_move L _ _ s _ i PIdle); try done; [by rewrite Epc|]. split; cbn.
  - split; [done|]. intros Hh. by apply H1 in Hh.
  - intros j. destruct (decide (j = i)) as [->|Hne]; [rewrite fn_lookup_insert; by split|].
    rewrite fn_lookup_insert_ne, H2 by done. split; [|done]. congruence.
  - lia.
  - intros j. destruct (decide (j = i)) as [->|Hne]; [rewrite fn_lookup_insert; by split|].
    rewrite fn_lookup_insert_ne, H4 by done. done.
Qed.

(** ** Every access keeps the invariant *)

(** The operation that this thread takes out of the list, or has taken out. *)
Definition target (x : ppc) : option Z :=
  match x with
  | PUnlink _ op _ _ | PFix _ op _ _ | PComplete _ op _ _ => Some op
  | _ => None
  end.

(** The step succeeds, and from the list it takes nothing but its target, or
    the assertion on [old_head->next] fails. *)
Definition keeps_going (L : list Z) (i : nat) (complete : bool) (s : pending_state) : Prop :=
  (∃ s', pending_step i complete s = Ok s' ∧
     ∃ L' k, qinv L' k s' ∧ ∀ a, a ∈ L → a ∈ L' ∨ target (threads s i) = Some a) ∨
  (pending_step i complete s = Err AssertFail ∧ ∃ h op next ne, threads s i = PFix h op next ne).

Lemma append_ok L k s i b :
  qinv L k s → match threads s i with AHead _ | ACas _ | ASpawn => True | _ => False end →
  keeps_going L i b s.
Proof.
  intros H Hpc. left. unfold pending_step, append_step.
  assert (∀ a, held (threads s i) = Some a → ∃ x, ops s !! a = Some x) as Hmine.
  { intros a Ha. assert (is_Some (ops s !! a)) as [x Hx]; [|by exists x]. apply (q_ops _ _ _ H). right. by exists i. }
  destruct (threads s i) as [|op|op| | | | | | |] eqn:E; try done.
  - destruct (Hmine op eq_refl) as [x Hx]. rewrite Hx. eexists. split; [reflexivity|]. exists L, k. split; [|by left].
    eapply qinv_private; try done; by rewrite E.
  - destruct (Hmine op eq_refl) as [x Hx]. rewrite Hx. change (deref (Some x)) with (Ok x).
    cbn [mbind res_bind]. destruct (Z.eqb_spec (head s) (op_next x)) as [Eh|Eh].
    + eexists. split; [reflexivity|]. eexists _, _. split; [by eapply qinv_link|]. intros a Ha. left. by right.
    + eexists. split; [reflexivity|]. exists L, k. split; [|by left]. eapply qinv_private; try done; by rewrite E.
  - eexists. split; [reflexivity|]. exists L, Spawned. split; [by eapply qinv_spawn_poll|by left].
Qed.

Lemma unlink_head s L B op M next xo :
  seg (ops s) (head s) L NULL → L = B ++ op :: M → NoDup L → head s = op →
  ops s !! op = Some xo → op_next xo = next → B = [] ∧ seg (ops s) next M NULL.
Proof.
  intros Hs -> Hnd Hh Hx <-. destruct B as [|b B].
  - split; [done|]. destruct Hs as (_ & y & Hy & H). congruence.
  - exfalso. apply seg_head in Hs. cbn in Hnd. apply NoDup_cons in Hnd as [Hnb _].
    apply Hnb. rewrite <- Hs, Hh. set_solver.
Qed.

(** Without the last operation nobody has to poll. *)
Lemma token_release s i x h :
  token_ok (Poller i) s → polling x = negb (h =? NULL) → x ≠ ASpawn →
  token_ok (if h =? NULL then Nobody else Poller i) (goto i x (set_list_head h s)).
Proof.
  intros [H1 H2 H3 H4] Hx Hs. destruct (Z.eqb_spec h NULL) as [->|Hn]; split; cbn.
  - done.
  - intros j. destruct (decide (j = i)) as [->|Hne]; [rewrite fn_lookup_insert; by split|].
    rewrite fn_lookup_insert_ne, H2 by done. done.
  - done.
  - intros j. destruct (decide (j = i)) as [->|Hne]; [rewrite fn_lookup_insert, Hx; by split|].
    rewrite fn_lookup_insert_ne, H4 by done. split; [congruence|done].
  - done.
  - intros j. destruct (decide (j = i)) as [->|Hne]; [rewrite fn_lookup_insert; by split|].
    rewrite fn_lookup_insert_ne, H2 by done. done.
  - done.
  - intros j. destruct (decide (j = i)) as [->|Hne]; [by rewrite fn_lookup_insert, Hx|].
    by rewrite fn_lookup_insert_ne, H4 by done.
Qed.

(** The poller takes [op] out behind [prev], which must be the one before it. *)
Lemma relink_ok B op M k s i prev next xp :
  qinv (B ++ op :: M) k s → polling (threads s i) = true → held (threads s i) = None →
  threads s i ≠ ASpawn → prev ∈ B → ops s !! prev = Some xp → op_next xp = op → linked s op next M →
  qinv (B ++ M) k (goto i (PComplete prev op next true) (set_op prev (set_op_next xp next) s)).
Proof.
  intros H Hpoll Hno Hns Hin Hp Hn (HM & xo & Ho & Hon).
  destruct (seg_before _ _ B op M _ prev xp (q_list _ _ _ H) (q_nodup _ _ _ H) Hin Hp Hn) as [B' ->].
  assert (prev ∉ M) as HpM.
  { pose proof (q_nodup _ _ _ H) as Hnd. apply NoDup_app in Hnd as (_ & Hd & _).
    intros HpM. apply (Hd prev); set_solver. }
  eapply (qinv_unlink _ op M k k s _ i); [exact H|done..| | |done|done| | |].
  - intros a. cbn. by apply (some_insert _ _ xp).
  - cbn. by eapply action_insert.
  - eapply seg_unlink; [apply H|apply H|done..].
  - eapply (token_step k s _ i (PComplete prev op next true)); try done; apply H.
  - exists (B' ++ [prev]), M. split; [done|]. split; [right; by exists B'|]. by apply seg_insert.
Qed.

Lemma poller_token L k s i : qinv L k s → polling (threads s i) = true → k = Poller i.
Proof. intros H Hp. by apply (tok_polls k s (q_token _ _ _ H)). Qed.

Lemma taken_out (B M : list Z) op a : a ∈ B ++ op :: M → a ∈ B ++ M ∨ Some op = Some a.
Proof. rewrite !elem_of_app, elem_of_cons. naive_solver. Qed.

Lemma move_ok L k s i b x :
  qinv L k s → pending_step i b s = Ok (goto i x s) → held x = held (threads s i) →
  polling x = polling (threads s i) → (x = ASpawn ↔ threads s i = ASpawn) → ppc_ok s L x →
  keeps_going L i b s.
Proof.
  intros H E Hh Hp Hs Hok. left. exists (goto i x s). split; [done|]. exists L, k. split; [|by left].
  eapply (qinv_move L k k s _ i x); try done. eapply (token_step k s _ i x); try done. apply H.
Qed.

Lemma unlink_ok L k s i b prev op next ne :
  qinv L k s → threads s i = PUnlink prev op next ne → keeps_going L i b s.
Proof.
  intros H E. pose proof (q_pc _ _ _ H i) as Hok. pose proof (poller_token L k s i H) as Hk.
  rewrite E in Hok, Hk. cbn in Hok.
  destruct ne; [|done]. destruct Hok as (B & M & -> & He & HM & x & Hx & Hxn).
  assert (prev = NULL ∨ prev ≠ NULL ∧ ∃ B', B = B' ++ [prev]) as Hprev.
  { destruct (decide (prev = NULL)); [by left|right]. by destruct He. }
  destruct Hprev as [->|[Hn [B' ->]]].
  + destruct (Z.eqb_spec (head s) op) as [Eh|Eh].
    * destruct (unlink_head s _ B op M next x (q_list _ _ _ H) eq_refl (q_nodup _ _ _ H) Eh Hx Hxn) as [-> HM'].
      left. exists (goto i (PComplete NULL op next (negb (next =? NULL))) (set_list_head next s)).
      split; [unfold pending_step, poll_step; rewrite E; cbn; by rewrite Eh, Z.eqb_refl|].
      specialize (Hk eq_refl). subst k. exists M, (if next =? NULL then Nobody else Poller i).
      split; [|rewrite E; intros a [-> |Ha]%elem_of_cons; [by right|by left]].
      eapply (qinv_unlink [] op M (Poller i) _ s _ i); try done; [by rewrite E|by rewrite E| |].
      -- apply token_release; [apply H|done|done].
      -- destruct (Z.eqb_spec next NULL); cbn; [done|]. exists [], M. split; [done|]. split; [by left|done].
    * eapply (move_ok _ _ s i b (PFix (head s) op next true)); rewrite ?E; try done.
      -- unfold pending_step, poll_step. rewrite E. cbn. by rewrite (proj2 (Z.eqb_neq _ _)).
      -- exists B, M. split; [done|]. split; [|by split; [|exists x]].
         pose proof (q_list _ _ _ H) as Hs. destruct B as [|c B]; [by destruct Hs|].
         apply seg_head in Hs as ->. by left.
  + assert (is_Some (ops s !! prev)) as [xp Hp].
    { apply (q_ops _ _ _ H). left. set_solver. }
    assert (op_next xp = op) as Hxp.
    { pose proof (q_list _ _ _ H) as Hs. rewrite <- app_assoc in Hs.
      apply seg_app in Hs as (h1 & _ & (-> & y & Hy & Hs)). apply seg_head in Hs. congruence. }
    left. eexists. split.
    { unfold pending_step, poll_step. rewrite E. rewrite (proj2 (Z.eqb_neq _ _)) by done. rewrite Hp.
      change (deref (Some xp)) with (Ok xp). cbn [mbind res_bind]. rewrite Hxp, Z.eqb_refl. reflexivity. }
    exists ((B' ++ [prev]) ++ M), k. split; [|rewrite E; cbn; apply taken_out].
    eapply relink_ok; rewrite ?E; try done; [set_solver|].
    split; [done|by exists x].
Qed.

Lemma fix_ok L k s i b h op next ne :
  qinv L k s → threads s i = PFix h op next ne → keeps_going L i b s.
Proof.
  intros H E. pose proof (q_pc _ _ _ H i) as Hok. rewrite E in Hok. cbn in Hok.
  destruct ne; [|done]. destruct Hok as (B & M & -> & Hin & HM & x & Hx & Hxn).
  assert (is_Some (ops s !! h)) as [xh Hh].
  { apply (q_ops _ _ _ H). left. set_solver. }
  destruct (Z.eqb_spec (op_next xh) op) as [Eh|Eh].
  + left. eexists. split.
    { unfold pending_step, poll_step. rewrite E, Hh. change (deref (Some xh)) with (Ok xh).
      cbn [mbind res_bind]. rewrite Eh, Z.eqb_refl. reflexivity. }
    exists (B ++ M), k. split; [|rewrite E; cbn; apply taken_out].
    eapply relink_ok; rewrite ?E; try done. split; [done|by exists x].
  + right. split; [|by exists h, op, next, true]. unfold pending_step, poll_step. rewrite E, Hh.
    change (deref (Some xh)) with (Ok xh). cbn [mbind res_bind]. by rewrite (proj2 (Z.eqb_neq _ _)).
Qed.

Lemma poll_ok L k s i b :
  qinv L k s → match threads s i with PIdle | AHead _ | ACas _ | ASpawn => False | _ => True end →
  keeps_going L i b s.
Proof.
  intros H Hpc. pose proof (q_pc _ _ _ H i) as Hok. pose proof (poller_token L k s i H) as Hk.
  destruct (threads s i) as [| | | | |prev op ne|prev op next ne|prev op next ne|h op next ne|prev op next ne]
    eqn:E; try done.
  - specialize (Hk eq_refl). subst k.
    assert (head s ≠ NULL) as Hh by (intros Hh; by apply (tok_empty _ _ (q_token _ _ _ H)) in Hh).
    eapply (move_ok L _ s i b (PLoop NULL (head s) true)); rewrite ?E; try done.
    + unfold pending_step, poll_step. rewrite E. by rewrite (proj2 (Z.eqb_neq _ _)).
    + exists [], L. split; [done|]. split; [by left|apply H].
  - destruct (Z.eqb_spec op NULL) as [->|Hn].
    + eapply (move_ok L _ s i b (if ne then PStart else PIdle)); rewrite ?E; try done; [|by destruct ne..].
      unfold pending_step, poll_step. by rewrite E.
    + destruct ne; [|done]. destruct Hok as (B & M & -> & He & HM).
      destruct M as [|a M]; [by cbn in HM|]. destruct HM as (-> & x & Hx & HM).
      eapply (move_ok _ _ s i b (PTest prev a (op_next x) true)); rewrite ?E; try done.
      * unfold pending_step, poll_step. rewrite E. rewrite (proj2 (Z.eqb_neq _ _)) by done. by rewrite Hx.
      * exists B, M. split; [done|]. split; [done|]. split; [done|]. by exists x.
  - destruct ne; [|done]. destruct Hok as (B & M & -> & He & HM & x & Hx & Hxn).
    eapply (move_ok _ _ s i b (if b then PUnlink prev op next true else PLoop op next true));
      rewrite ?E; try done; try by destruct b.
    + unfold pending_step, poll_step. by rewrite E.
    + destruct b; [exists B, M; split; [done|]; split; [done|]; split; [done|by exists x]|].
      exists (B ++ [op]), M. rewrite <- app_assoc. split; [done|]. split; [right; by exists B|done].
  - by eapply unlink_ok.
  - by eapply fix_ok.
  - left. assert (is_Some (ops s !! op)) as [x Hx].
    { apply (q_ops _ _ _ H). right. exists i. by rewrite E. }
    eexists. split; [unfold pending_step, poll_step; rewrite E, Hx; reflexivity|]. exists L, k.
    split; [by eapply qinv_finish|by left].
Qed.

Lemma pending_step_ok L k s i b : qinv L k s → threads s i ≠ PIdle → keeps_going L i b s.
Proof.
  intros H Hpc. destruct (threads s i) eqn:E; [done|..].
  1-3: apply (append_ok L k); [done|by rewrite E].
  all: apply (poll_ok L k); [done|by rewrite E].
Qed.

(** ** Runs *)

Lemma lstep_inv L k l s s' :
  qinv L k s → pending_lstep l s = Ok s' →
  ∃ L' k', qinv L' k' s' ∧ ∀ a, a ∈ L → a ∈ L' ∨ ∃ i, target (threads s i) = Some a.
Proof.
  intros H Hs. destruct l as [i op prom task|i|i b]; cbn in Hs.
  - destruct (threads s i) eqn:E; try done. case_bool_decide as Hb; [|done]. injection Hs as <-.
    destruct Hb. exists L, k. split; [by apply qinv_append|by left].
  - destruct (threads s i) eqn:E; try done. destruct (Z.gtb_spec (pollers s) 0); [|done].
    injection Hs as <-. exists L, (Poller i).
    split; [eapply qinv_start; [done..|lia]|by left].
  - destruct (pending_step_ok L k s i b H) as [(s1 & E & L' & k' & Hs1 & HL)|[E _]].
    + intros E. unfold pending_step in Hs. by rewrite E in Hs.
    + assert (s1 = s') as -> by congruence. exists L', k'. split; [done|]. intros a Ha.
      destruct (HL a Ha); [by left|right]. by exists i.
    + congruence.
Qed.

Lemma qinv_init : qinv [] Nobody pending.
Proof.
  split; try done.
  - apply NoDup_nil_2.
  - intros a. cbn. rewrite lookup_empty. split; [by intros []|].
    intros [Ha|[i Hi]]; [by apply elem_of_nil in Ha|done].
Qed.

Lemma pending_reached ls s : pending_run ls pending = Ok s → ∃ L k, qinv L k s.
Proof.
  enough (∀ s0, (∃ L k, qinv L k s0) → pending_run ls s0 = Ok s → ∃ L k, qinv L k s) as Hrun.
  { apply Hrun. exists [], Nobody. apply qinv_init. }
  induction ls as [|l ls IH]; intros s0 Hs0; cbn; [by intros [= <-]|].
  intros (s1 & E & H)%bind_Ok. destruct Hs0 as (L & k & H0). eapply IH; [|done].
  destruct (lstep_inv L k l s0 s1 H0 E) as (L' & k' & ? & _). by exists L', k'.
Qed.

(** ** What the callback said *)

Lemma pending_run_snoc ls l s :
  pending_run (ls ++ [l]) pending = Ok s → ∃ s0, pending_run ls pending = Ok s0 ∧ pending_lstep l s0 = Ok s.
Proof.
  generalize pending. induction ls as [|l' ls IH]; intros s0; cbn [app pending_run].
  - intros (s1 & E & [= <-])%bind_Ok. by exists s0.
  - intros (s1 & E & H)%bind_Ok. rewrite E. by apply IH.
Qed.

(** In the run [ls] a poller asked the callback about the operation at [a], the
    callback said that it is complete, and no operation was put at this address
    since: the answer is about the operation that is there. *)
Definition said_complete (ls : list pending_label) (a : Z) : Prop :=
  ∃ ls1 i ls2 s prev next ne,
    ls = ls1 ++ Step i true :: ls2 ∧ pending_run ls1 pending = Ok s ∧
    threads s i = PTest prev a next ne ∧ ∀ j prom task, Append j a prom task ∉ ls2.

Lemma said_snoc ls l a :
  said_complete ls a → (∀ j prom task, l ≠ Append j a prom task) → said_complete (ls ++ [l]) a.
Proof.
  intros (ls1 & i & ls2 & s & prev & next & ne & -> & Hs & Ht & Hn) Hl.
  exists ls1, i, (ls2 ++ [l]), s, prev, next, ne. rewrite <- app_assoc. split; [done|].
  split; [done|]. split; [done|]. intros j prom task [H|H]%elem_of_app; [by eapply Hn|].
  apply list_elem_of_singleton in H. by eapply Hl.
Qed.

Lemma target_in_memory L k s i a : qinv L k s → target (threads s i) = Some a → is_Some (ops s !! a).
Proof.
  intros H Ht. pose proof (q_pc _ _ _ H i) as Hok.
  destruct (threads s i) as [| | | | | | |prev op next [|]|h op next [|]|prev op next ne] eqn:E; try done;
    injection Ht as ->; cbn in Hok; try done.
  - destruct Hok as (B & M & _ & _ & _ & x & Hx & _). eauto.
  - destruct Hok as (B & M & _ & _ & _ & x & Hx & _). eauto.
  - apply (q_ops _ _ _ H). right. exists i. by rewrite E.
Qed.

Ltac open_step H :=
  repeat match type of H with
  | context [match ?x with _ => _ end] => destruct x eqn:?; try done
  | (_ ← _; _) = Ok _ => apply bind_Ok in H as (? & ? & H)
  end.

(** A step of thread [i]: the others stay where they are, and [i] gets its target
    from the answer of the callback, or keeps it. *)
Lemma step_target i b s s' :
  pending_step i b s = Ok s' →
  (∀ j, j ≠ i → threads s' j = threads s j) ∧
  ∀ a, target (threads s' i) = Some a →
    target (threads s i) = Some a ∨ b = true ∧ ∃ prev next ne, threads s i = PTest prev a next ne.
Proof.
  unfold pending_step, append_step, poll_step. intros H. destruct (threads s i) eqn:E;
    try done; open_step H; injection H as <-; cbn;
    (split; [intros j Hj; by rewrite fn_lookup_insert_ne|]); intros a; rewrite fn_lookup_insert; cbn;
    try (by repeat case_match); try naive_solver.
Qed.

Lemma said_reached ls s :
  pending_run ls pending = Ok s → ∀ i a, target (threads s i) = Some a → said_complete ls a.
Proof.
  revert s. induction ls as [|l ls IH] using rev_ind; intros s; [by intros [= <-]|].
  intros Hr i a Ha. destruct (pending_run_snoc ls l s Hr) as (s0 & H0 & Hs).
  destruct (pending_reached ls s0 H0) as (L & k & Hq). specialize (IH s0 H0).
  destruct l as [j op prom task|j|j b]; cbn in Hs.
  - destruct (threads s0 j) eqn:E; try done. case_bool_decide as Hb; [|done]. injection Hs as <-.
    cbn in Ha. destruct (decide (i = j)) as [->|Hne]; [by rewrite fn_lookup_insert in Ha|].
    rewrite fn_lookup_insert_ne in Ha by done. apply said_snoc; [by eapply IH|].
    intros j' p' t' [= _ -> _ _]. destruct (target_in_memory L k s0 i a Hq Ha), Hb. congruence.
  - destruct (threads s0 j) eqn:E; try done. destruct (pollers s0 >? 0); [|done]. injection Hs as <-.
    cbn in Ha. destruct (decide (i = j)) as [->|Hne]; [by rewrite fn_lookup_insert in Ha|].
    rewrite fn_lookup_insert_ne in Ha by done. apply said_snoc; [by eapply IH|done].
  - destruct (step_target j b s0 s Hs) as [Hoth Hown]. destruct (decide (i = j)) as [->|Hne].
    + destruct (Hown a Ha) as [Ha'|(-> & prev & next & ne & Ht)]; [apply said_snoc; [by eapply IH|done]|].
      exists ls, j, [], s0, prev, next, ne. split; [done|]. split; [done|]. split; [done|].
      intros ? ? ? []%elem_of_nil.
    + rewrite Hoth in Ha by done. apply said_snoc; [by eapply IH|done].
Qed.

(** A step completes nothing, or the target of its thread. *)
Lemma step_completes l s s' :
  pending_lstep l s = Ok s' →
  completed s' = completed s ∧ (∀ a, is_Some (ops s !! a) → is_Some (ops s' !! a)) ∨
  ∃ i a x, target (threads s i) = Some a ∧ ops s !! a = Some x ∧
    completed s' = completed s ++ [action x] ∧ ops s' = delete a (ops s).
Proof.
  assert (∀ a x (m : gmap Z pending_op) b, is_Some (m !! b) → is_Some (<[a := x]> m !! b)) as Hins.
  { intros a x m b Hb. apply lookup_insert_is_Some'. by right. }
  destruct l as [i op prom task|i|i b]; cbn; intros H.
  - destruct (threads s i); try done. case_bool_decide; [|done]. injection H as <-. left. cbn. auto.
  - destruct (threads s i); try done. destruct (pollers s >? 0); [|done]. injection H as <-. by left.
  - unfold pending_step, append_step, poll_step in H. destruct (threads s i) eqn:E; try done;
      open_step H; injection H as <-; cbn; try (left; by auto).
    right. exists i, op. rewrite E. cbn.
    destruct (ops s !! op) as [y|] eqn:Ho; [|done].
    eexists. split; [done|]. split; [done|]. split; [|done].
    by match goal with H : deref (Some _) = Ok _ |- _ => injection H as -> end.
Qed.

(** The list that starts at [h] is determined by the memory. *)
Lemma seg_unique m h l l' :
  (∀ a x, m !! a = Some x → a ≠ NULL) → seg m h l NULL → seg m h l' NULL → l = l'.
Proof.
  intros Hm. revert h l'. induction l as [|a l IH]; intros h [|b l']; cbn; [done|..].
  - intros -> (<- & x & Hx & _). by apply Hm in Hx.
  - intros (-> & x & Hx & _) ->. by apply Hm in Hx.
  - intros (-> & x & Hx & H1) (<- & y & Hy & H2). f_equal. assert (y = x) as -> by congruence. by eapply IH.
Qed.
(** ** Properties *)

(** Without a thread at work or a polling task to start nothing is pending. *)
Lemma idle_complete L k s :
  qinv L k s → (∀ i, threads s i = PIdle) → pollers s = 0 → appended s ≡ₚ completed s.
Proof.
  intros Hq Hidle Hp. destruct (q_token _ _ _ Hq) as [H1 H2 H3 H4].
  assert (head s = NULL) as Hh.
  { apply H1. destruct k as [|i| |i]; [done| |cbn in H3; lia|].
    - by destruct (H2 i) as [_ E]; rewrite Hidle in E; specialize (E eq_refl).
    - by destruct (H4 i) as [_ E]; rewrite Hidle in E; specialize (E eq_refl). }
  assert (ops s = ∅) as Ho.
  { apply map_empty. intros a. destruct (ops s !! a) as [x|] eqn:Ha; [|done]. exfalso.
    destruct (proj1 (q_ops _ _ _ Hq a)) as [Hin|[i Hi]]; [eauto| |by rewrite Hidle in Hi].
    pose proof (q_list _ _ _ Hq) as Hs. destruct L as [|c L]; [by apply elem_of_nil in Hin|].
    rewrite Hh in Hs. destruct Hs as (<- & y & Hy & _). by apply (q_null _ _ _ Hq NULL y). }
  rewrite (q_log _ _ _ Hq), Ho. by rewrite fmap_empty, map_to_list_empty, app_nil_r.
Qed.

(** ** A poller to which every operation is complete *)

Lemma pending_run_app ls1 ls2 s :
  pending_run (ls1 ++ ls2) s = (s' ← pending_run ls1 s; pending_run ls2 s').
Proof.
  revert s. induction ls1 as [|l ls1 IH]; intros s; [done|]. cbn [app pending_run].
  destruct (pending_lstep l s) as [s'|]; [|done]. apply IH.
Qed.

(** Taking out the operation at the front is four accesses. *)
Lemma poll_front i s op x ne :
  threads s i = PLoop NULL op ne → head s = op → op ≠ NULL → ops s !! op = Some x →
  ∃ s', pending_run (replicate 4 (Step i true)) s = Ok s' ∧
    threads s' i = PLoop NULL (op_next x) (negb (op_next x =? NULL)) ∧ head s' = op_next x ∧
    ops s' = delete op (ops s) ∧ pollers s' = pollers s ∧ appended s' = appended s ∧
    ∀ j, j ≠ i → threads s' j = threads s j.
Proof.
  intros Ht Hh Hn Hx.
  set (s1 := goto i (PTest NULL op (op_next x) ne) s).
  set (s2 := goto i (PUnlink NULL op (op_next x) ne) s1).
  set (s3 := goto i (PComplete NULL op (op_next x) (negb (op_next x =? NULL))) (set_list_head (op_next x) s2)).
  set (s4 := goto i (PLoop NULL (op_next x) (negb (op_next x =? NULL))) (finish_op op x s3)).
  assert (threads s1 i = PTest NULL op (op_next x) ne) as T1 by apply fn_lookup_insert.
  assert (threads s2 i = PUnlink NULL op (op_next x) ne) as T2 by apply fn_lookup_insert.
  assert (threads s3 i = PComplete NULL op (op_next x) (negb (op_next x =? NULL))) as T3 by apply fn_lookup_insert.
  assert (pending_step i true s = Ok s1) as E1.
  { unfold pending_step, poll_step. rewrite Ht, (proj2 (Z.eqb_neq op NULL)), Hx by done. reflexivity. }
  assert (pending_step i true s1 = Ok s2) as E2.
  { unfold pending_step, poll_step. by rewrite T1. }
  assert (pending_step i true s2 = Ok s3) as E3.
  { unfold pending_step, poll_step. rewrite T2. change (head s2) with (head s).
    rewrite Hh, !Z.eqb_refl. reflexivity. }
  assert (pending_step i true s3 = Ok s4) as E4.
  { unfold pending_step, poll_step. rewrite T3.
    change (ops s3) with (ops s). rewrite Hx. reflexivity. }
  exists s4. cbn [replicate pending_run pending_lstep]. rewrite E1. cbn [mbind res_bind]. rewrite E2.
  cbn [mbind res_bind]. rewrite E3. cbn [mbind res_bind]. rewrite E4.
  split; [done|]. cbn. rewrite fn_lookup_insert. do 5 (split; [done|]).
  intros j Hj. by rewrite !fn_lookup_insert_ne.
Qed.

Lemma poll_all i L s :
  threads s i = PLoop NULL (head s) (negb (head s =? NULL)) → seg (ops s) (head s) L NULL → NoDup L →
  (∀ a x, ops s !! a = Some x → a ≠ NULL) →
  ∃ m s', pending_run (replicate m (Step i true)) s = Ok s' ∧ threads s' i = PIdle ∧
    pollers s' = pollers s ∧ appended s' = appended s ∧ ∀ j, j ≠ i → threads s' j = threads s j.
Proof.
  revert s. induction L as [|op L IH]; intros s Ht Hs Hnd Hnull.
  - cbn in Hs. exists 1%nat. cbn [replicate pending_run pending_lstep].
    unfold pending_step, poll_step. rewrite Ht, Hs. cbn. eexists. split; [reflexivity|]. cbn.
    rewrite fn_lookup_insert. do 3 (split; [done|]). intros j Hj. by rewrite fn_lookup_insert_ne.
  - destruct Hs as (Eh & x & Hx & Hs). apply NoDup_cons in Hnd as [Hni Hnd]. rewrite Eh in Ht.
    destruct (poll_front i s op x _ Ht Eh ltac:(by eapply Hnull) Hx) as (s1 & E1 & Ht1 & Hh1 & Ho1 & Hp1 & Ha1 & Hj1).
    destruct (IH s1) as (m & s' & E & Hti & Hp & Ha & Hj).
    + by rewrite Ht1, Hh1.
    + rewrite Hh1, Ho1. by apply seg_delete.
    + done.
    + intros a y. rewrite Ho1. intros [_ Hy]%lookup_delete_Some. by eapply Hnull.
    + exists (4 + m)%nat, s'. rewrite replicate_add, pending_run_app, E1. split; [exact E|].
      split; [done|]. split; [congruence|]. split; [congruence|]. intros j Hne. by rewrite Hj, Hj1.
Qed.

Lemma poll_completes L k s i :
  qinv L k s → (∀ j, threads s j = PIdle) → 0 < pollers s →
  ∃ m s', pending_run (StartPoll i :: replicate m (Step i true)) s = Ok s' ∧
    (∀ j, threads s' j = PIdle) ∧ pollers s' = 0 ∧ appended s' = appended s.
Proof.
  intros Hq Hidle Hp. pose proof (qinv_start L k s i Hq (Hidle i) ltac:(lia)) as Hq1.
  set (s1 := goto i PStart (set_pollers (pollers s - 1) s)) in *.
  assert (pollers s = 1) as Hone.
  { pose proof (tok_spawned _ _ (q_token _ _ _ Hq)) as E. destruct k; lia. }
  assert (head s1 ≠ NULL) as Hh by (intros Hh; by apply (tok_empty _ _ (q_token _ _ _ Hq1)) in Hh).
  destruct (poll_all i L (goto i (PLoop NULL (head s1) true) s1)) as (m & s' & E & Hti & Hps & Ha & Hj).
  - cbn. rewrite fn_lookup_insert. by rewrite (proj2 (Z.eqb_neq _ _)).
  - apply Hq1.
  - apply Hq1.
  - apply Hq1.
  - exists (S m), s'. split.
    + cbn [replicate pending_run pending_lstep]. rewrite Hidle, Z.gtb_ltb, (proj2 (Z.ltb_lt _ _)) by done. cbn [mbind res_bind].
      fold s1. unfold pending_step, poll_step. rewrite (fn_lookup_insert (threads s) i PStart : threads s1 i = _).
      rewrite (proj2 (Z.eqb_neq _ _)) by done. exact E.
    + split.
      * intros j. destruct (decide (j = i)) as [->|Hne]; [done|]. rewrite Hj by done. cbn.
        by rewrite !fn_lookup_insert_ne, Hidle by done.
      * split; [rewrite Hps; cbn; lia|by rewrite Ha].
Qed.

(** C16: pending operations.  Whatever the interleaving of threads that append and
    the task that polls, no access touches an operation that was freed, and the
    only one that can fail is the assertion on [old_head->next]; an operation is
    taken out of the list, and completed and freed, only after a poller asked the
    callback about it (about this operation, not about an earlier one at its
    address) and the callback said that it is complete ([said_complete]); it is
    completed at most once, and until then it is in memory; and nothing is
    forgotten: when no call is in progress and no polling task is waiting to
    start, every operation appended has been completed; when one is waiting, it
    completes them all and ends if the callback says of each that it is complete
    and nothing is appended meanwhile. *)
Theorem pending_ops_complete ls s :
  pending_run ls pending = Ok s →
  (∀ i b, threads s i ≠ PIdle → (∃ s', pending_step i b s = Ok s') ∨
     pending_step i b s = Err AssertFail ∧ ∃ h op next ne, threads s i = PFix h op next ne) ∧
  (∀ l s', pending_lstep l s = Ok s' →
     (completed s' = completed s ∧ (∀ a, is_Some (ops s !! a) → is_Some (ops s' !! a)) ∨
      ∃ a x, said_complete ls a ∧ ops s !! a = Some x ∧
        completed s' = completed s ++ [action x] ∧ ops s' = delete a (ops s)) ∧
     ∀ L L' a, seg (ops s) (head s) L NULL → seg (ops s') (head s') L' NULL →
       a ∈ L → a ∉ L' → said_complete ls a) ∧
  appended s ≡ₚ completed s ++ (map_to_list (action <$> ops s)).*2 ∧
  ((∀ i, threads s i = PIdle) → pollers s = 0 → appended s ≡ₚ completed s) ∧
  ((∀ i, threads s i = PIdle) → 0 < pollers s → ∀ i, ∃ m s',
     pending_run (StartPoll i :: replicate m (Step i true)) s = Ok s' ∧
     (∀ j, threads s' j = PIdle) ∧ pollers s' = 0 ∧ appended s ≡ₚ completed s').
Proof.
  intros H. destruct (pending_reached ls s H) as (L & k & Hq). pose proof (said_reached ls s H) as Hsaid.
  split; [|split; [|split; [|split]]].
  - intros i b Hi. destruct (pending_step_ok L k s i b Hq Hi) as [(s' & E & _)|?]; [left; by exists s'|by right].
  - intros l s' Hl. split.
    + destruct (step_completes l s s' Hl) as [?|(i & a & x & Ha & ?)]; [by left|right].
      exists a, x. split; [by eapply Hsaid|done].
    + intros L1 L' a HL1 HL' Hin Hout. destruct (lstep_inv L k l s s' Hq Hl) as (L2 & k2 & Hq2 & HL).
      assert (L1 = L) as -> by (eapply seg_unique; [apply (q_null _ _ _ Hq)|done|apply Hq]).
      assert (L' = L2) as -> by (eapply seg_unique; [apply (q_null _ _ _ Hq2)|done|apply Hq2]).
      destruct (HL a Hin) as [?|[i Hi]]; [done|by eapply Hsaid].
  - apply (q_log _ _ _ Hq).
  - by eapply idle_complete.
  - intros Hidle Hp i. destruct (poll_completes L k s i Hq Hidle Hp) as (m & s' & E & Hidle' & Hp' & Ea).
    exists m, s'. split; [done|]. split; [done|]. split; [done|]. rewrite <- Ea.
    destruct (pending_reached (ls ++ StartPoll i :: replicate m (Step i true)) s') as (L' & k' & Hq').
    { by rewrite pending_run_app, H. }
    by eapply idle_complete.
Qed.

(** One operation is being polled when two more are appended. *)
Definition two_appends : list pending_label :=
  [Append 0 1 11 0] ++ replicate 3 (Step 0 false) ++ [StartPoll 1] ++ replicate 3 (Step 1 true) ++
  [Append 0 2 12 0] ++ replicate 2 (Step 0 false) ++ [Append 0 3 13 0] ++ replicate 2 (Step 0 false) ++
  [Step 1 true].

(** Two appends break the list.  When two operations are appended while the
    poller tests the one at the front, and that one is complete, the assertion
    [old_head->next == op] fails: the new head is not the operation before it.
    With one append in between, all is well. *)
Theorem pending_two_appends_abort :
  is_ok (pending_run two_appends pending) = true ∧
  pending_run (two_appends ++ [Step 1 true]) pending = Err AssertFail ∧
  completed <$> pending_run (take 11 two_appends ++ replicate 10 (Step 1 true)) pending =
    Ok [(11, 0); (12, 0)].
Proof. by vm_compute. Qed.

Definition all_done : pending_state :=
  match pending_run (take 11 two_appends ++ replicate 10 (Step 1 true)) pending with
  | Ok s => s | Err _ => pending end.

(** The first operation is complete and taken out: its completion is next. *)
Definition first_unlinked : list pending_label := take 8 two_appends ++ [Step 1 true].

Lemma pending_ops_complete_witness :
  (∃ s s', pending_run first_unlinked pending = Ok s ∧ pending_step 1 false s = Ok s' ∧
     completed s = [] ∧ completed s' = [(11, 0)] ∧ said_complete first_unlinked 1) ∧
  appended all_done = [(11, 0); (12, 0)] ∧ appended all_done ≡ₚ completed all_done.
Proof.
  split; [|split; [by vm_compute|]].
  - destruct (pending_run first_unlinked pending) as [s|] eqn:E; [|by vm_compute in E].
    destruct (pending_step 1 false s) as [s'|] eqn:E'; [|exfalso; vm_compute in E; injection E as <-; by vm_compute in E'].
    exists s, s'. split; [done|]. split; [done|].
    destruct (pending_ops_complete first_unlinked s E) as (_ & H & _).
    destruct (H (Step 1 false) s' E') as [[[Hc _]|(a & x & Hs & Hx & _)] _].
    + exfalso. vm_compute in E. injection E as <-. vm_compute in E'. injection E' as <-. done.
    + vm_compute in E. injection E as <-. vm_compute in E'. injection E' as <-.
      split; [done|]. split; [done|]. destruct (decide (a = 1)) as [->|Hne]; [done|].
      exfalso. vm_compute in Hx. by destruct a as [|[]|].
  - apply (pending_ops_complete (take 11 two_appends ++ replicate 10 (Step 1 true)) all_done).
    + unfold all_done. destruct (pending_run _ pending) eqn:E; [done|]. by vm_compute in E.
    + intros [|[|i]]; by vm_compute.
    + by vm_compute.
Defined.
