(* ===== verification/WaitSets.v ===== *)
(** * Waiting for memory and for requests

    What the communication modules put on the list of [Pending], and when it is
    complete: wait sets of the OpenSHMEM module (several variables, any of which may
    change), waits of the SOS module (one variable) and requests of MPI.  The poller
    tests one condition at a time; the memory that it reads is written by other
    threads and other processing elements at any time in between.  [poll_on_waits]
    and [enqueue_wait_set] of the OpenSHMEM module are [poll_on_pending] and
    [append_to_pending] again, with the loop over the conditions of a wait set in
    the place of the callback. *)

From S2P Require Import Prelude Pending.
From stdpp Require Import options.

(** ** The list with what its operations wait for *)

Section waiting.
(** What there is to see, a condition, and its test. *)
Context {world item : Type} (test : world → item → res bool).

Record wait_state := mkWait {
  list_of : pending_state;
  infos : gmap Z (list item);
  next_info : nat → nat;                  (** the next condition to test, by thread *)
  seen : world
}.

(** The world changes, an operation is appended, a polling task starts, or a thread
    makes its next access. *)
Inductive wait_label :=
  | WWorld (w : world)
  | WAppend (i : nat) (op prom task : Z) (items : list item)
  | WStart (i : nat)
  | WStep (i : nat).

Definition go (l : pending_label) (s : wait_state) : res wait_state :=
  l ← pending_lstep l (list_of s); Ok (mkWait l (infos s) (next_info s) (seen s)).

Definition finish_test (i : nat) (any_complete : bool) (s : wait_state) : res wait_state :=
  s ← go (Step i any_complete) s;
  Ok (mkWait (list_of s) (infos s) (<[i := 0%nat]> (next_info s)) (seen s)).

(** The loop over the conditions ends at the first that is true; the conditions are
    freed with the operation.

    src/modules/openshmem/src/hclib_openshmem.cpp:758-878 (poll_on_waits) *)
Definition poll_on_waits_step (i : nat) (s : wait_state) : res wait_state :=
  match threads (list_of s) i with
  | PTest _ op _ _ =>
      items ← deref (infos s !! op);
      match items !! next_info s i with
      | None => finish_test i false s
      | Some x =>
          complete ← test (seen s) x;
          if (complete : bool) then finish_test i true s
          else Ok (mkWait (list_of s) (infos s) (<[i := S (next_info s i)]> (next_info s)) (seen s))
      end
  | PComplete _ op _ _ =>
      s ← go (Step i false) s;
      Ok (mkWait (list_of s) (delete op (infos s)) (next_info s) (seen s))
  | _ => go (Step i false) s
  end.

(** src/modules/openshmem/src/hclib_openshmem.cpp:901-922 (enqueue_wait_set) *)
Definition enqueue_wait_set (i : nat) (op prom task : Z) (items : list item) (s : wait_state) : res wait_state :=
  s ← go (Append i op prom task) s;
  Ok (mkWait (list_of s) (<[op := items]> (infos s)) (next_info s) (seen s)).

Definition wait_lstep (l : wait_label) (s : wait_state) : res wait_state :=
  match l with
  | WWorld w => Ok (mkWait (list_of s) (infos s) (next_info s) w)
  | WAppend i op prom task items => enqueue_wait_set i op prom task items s
  | WStart i => go (StartPoll i) s
  | WStep i => poll_on_waits_step i s
  end.

Fixpoint wait_run (ls : list wait_label) (s : wait_state) : res wait_state :=
  match ls with
  | [] => Ok s
  | l :: ls => s' ← wait_lstep l s; wait_run ls s'
  end.

(** Nobody waits. *)
Definition no_waits (w : world) : wait_state := mkWait pending ∅ (λ _, 0%nat) w.

(** What is done for an operation was asked for, and since then one of its
    conditions was seen to be true. *)
Definition fired (w0 : world) (ls : list wait_label) (a : Z * Z) : Prop :=
  ∃ ls0 i op items ls1 ls2 s x,
    ls = (ls0 ++ WAppend i op a.1 a.2 items :: ls1) ++ ls2 ∧
    wait_run (ls0 ++ WAppend i op a.1 a.2 items :: ls1) (no_waits w0) = Ok s ∧
    x ∈ items ∧ test (seen s) x = Ok true.

(** ** Lemmas *)

(** The operation whose test has succeeded. *)
Definition past_test (x : ppc) : option Z :=
  match x with
  | PUnlink _ op _ _ | PFix _ op _ _ | PComplete _ op _ _ => Some op
  | _ => None
  end.

Lemma in_memory L k s i op :
  qinv L k s → past_test (threads s i) = Some op ∨ (∃ prev next ne, threads s i = PTest prev op next ne) →
  is_Some (ops s !! op).
Proof.
  intros H Hp. pose proof (q_pc _ _ _ H i) as Hok. apply (q_ops _ _ _ H).
  destruct Hp as [Hp|(prev & next & ne & E)].
  - destruct (threads s i) as [| | | | | |?|prev op' next ne|h op' next ne|prev op' next ne] eqn:E; try done;
      injection Hp as ->.
    + destruct ne; [|done]. destruct Hok as (B & M & -> & _). left. set_solver.
    + destruct ne; [|done]. destruct Hok as (B & M & -> & _). left. set_solver.
    + right. exists i. by rewrite E.
  - rewrite E in Hok. destruct ne; [|done]. destruct Hok as (B & M & -> & _). left. set_solver.
Qed.

(** What a step of the list does to the operations, the log and the threads. *)
Record list_step (i : nat) (b : bool) (s s' : pending_state) : Prop := {
  ls_ops : ∀ op x', ops s' !! op = Some x' → ∃ x, ops s !! op = Some x ∧ action x = action x';
  ls_gone : ∀ prev op next ne, threads s i = PComplete prev op next ne → ops s' !! op = None;
  ls_log : completed s' = completed s ∨
    ∃ prev op next ne x, threads s i = PComplete prev op next ne ∧ ops s !! op = Some x ∧
      completed s' = completed s ++ [action x];
  ls_past : ∀ op, past_test (threads s' i) = Some op →
    past_test (threads s i) = Some op ∨ b = true ∧ ∃ prev next ne, threads s i = PTest prev op next ne;
  ls_others : ∀ j, j ≠ i → threads s' j = threads s j
}.

Lemma insert_action (m : gmap Z pending_op) a x y op x' :
  m !! a = Some x → action y = action x → <[a := y]> m !! op = Some x' →
  ∃ z, m !! op = Some z ∧ action z = action x'.
Proof. intros Hx Hy [[<- <-]|[_ H]]%lookup_insert_Some; [by exists x|by exists x']. Qed.

Lemma pending_step_list i b s s' : pending_step i b s = Ok s' → list_step i b s s'.
Proof.
  unfold pending_step, append_step, poll_step. intros H.
  destruct (threads s i) as [|op|op| | |prev op ne|prev op next ne|prev op next ne|h op next ne|prev op next ne]
    eqn:E; try done.
  all: repeat (res_inv; try match type of H with context [if ?c then _ else _] => destruct c eqn:? end).
  all: split; cbn; rewrite ?E, ?fn_lookup_insert.
  all: try (intros j Hj; by rewrite fn_lookup_insert_ne).
  all: try (intros; by eauto).
  all: try (intros op' x' Hop'; eapply insert_action; [| |exact Hop']; [eassumption|reflexivity]).
  all: try (by left).
  all: try (intros op' [= ->]; by eauto 10).
  - by destruct (head s =? NULL).
  - by destruct ne.
  - destruct b; [|done]. intros op' [= ->]. right. by eauto.
  - intros op' x' [_ Hop']%lookup_delete_Some. by exists x'.
  - intros prev' op' next' ne' [= <- <- <- <-]. apply lookup_delete_eq.
  - right. by exists prev, op, next, ne, x.
Qed.

Lemma pending_lstep_list i b s s' : pending_lstep (Step i b) s = Ok s' → list_step i b s s'.
Proof. apply pending_step_list. Qed.

(** *** Runs *)

Lemma wait_run_snoc ls l s : wait_run (ls ++ [l]) s = (wait_run ls s ≫= wait_lstep l).
Proof.
  revert s. induction ls as [|l' ls IH]; intros s; cbn; [by destruct (wait_lstep l s)|].
  destruct (wait_lstep l' s); [apply IH|done].
Qed.

(** Operation [x] at [op] was appended, with what it waits for. *)
Definition appended_with (w0 : world) (ls : list wait_label) (s : wait_state) (op : Z) (x : pending_op) : Prop :=
  ∃ ls0 i items ls1, ls = ls0 ++ WAppend i op (op_prom x) (op_task x) items :: ls1 ∧ infos s !! op = Some items.

Record wait_inv (w0 : world) (ls : list wait_label) (s : wait_state) : Prop := {
  wi_run : wait_run ls (no_waits w0) = Ok s;
  wi_list : ∃ L k, qinv L k (list_of s);
  wi_ops : ∀ op x, ops (list_of s) !! op = Some x → appended_with w0 ls s op x;
  wi_past : ∀ i op, past_test (threads (list_of s) i) = Some op →
    ∃ x, ops (list_of s) !! op = Some x ∧ fired w0 ls (action x);
  wi_log : ∀ a, a ∈ completed (list_of s) → fired w0 ls a
}.

Lemma fired_more w0 ls l a : fired w0 ls a → fired w0 (ls ++ [l]) a.
Proof.
  intros (ls0 & i & op & items & ls1 & ls2 & s & x & -> & H). exists ls0, i, op, items, ls1, (ls2 ++ [l]), s, x.
  split; [by rewrite <-!app_assoc|done].
Qed.

Lemma appended_more w0 ls l s s' op x x' :
  appended_with w0 ls s op x → action x = action x' → infos s' !! op = infos s !! op →
  appended_with w0 (ls ++ [l]) s' op x'.
Proof.
  intros (ls0 & i & items & ls1 & -> & Hi) [= Hp Ht] E. exists ls0, i, items, (ls1 ++ [l]).
  rewrite <-app_assoc, <-Hp, <-Ht, E. done.
Qed.

(** An operation that is appended and whose test succeeds now. *)
Lemma fires_now w0 ls l s op x items c :
  wait_inv w0 ls s → ops (list_of s) !! op = Some x → infos s !! op = Some items → c ∈ items →
  test (seen s) c = Ok true → fired w0 (ls ++ [l]) (action x).
Proof.
  intros Hi Hx Hit Hc Ht. destruct (wi_ops _ _ _ Hi op x Hx) as (ls0 & i & items' & ls1 & -> & Hit').
  assert (items' = items) as -> by congruence.
  exists ls0, i, op, items, ls1, [l], s, c. split; [done|]. split; [apply Hi|done].
Qed.

(** A step of the list keeps the invariant when the operation of a test that
    succeeds has fired. *)
Lemma list_step_inv w0 ls l s s' i b :
  wait_inv w0 ls s → wait_lstep l s = Ok s' → pending_lstep (Step i b) (list_of s) = Ok (list_of s') →
  (∀ op, is_Some (ops (list_of s') !! op) → infos s' !! op = infos s !! op) →
  (b = true → ∀ prev op next ne x, threads (list_of s) i = PTest prev op next ne →
     ops (list_of s) !! op = Some x → fired w0 (ls ++ [l]) (action x)) →
  wait_inv w0 (ls ++ [l]) s'.
Proof.
  intros Hi Hs Hl Hinfo Hf. destruct (wi_list _ _ _ Hi) as (L & k & Hq).
  destruct (lstep_inv _ _ _ _ _ Hq Hl) as (L' & k' & Hq' & _).
  pose proof (pending_lstep_list _ _ _ _ Hl) as Hls. split.
  - rewrite wait_run_snoc, (wi_run _ _ _ Hi). exact Hs.
  - by exists L', k'.
  - intros op x' Hx'. destruct (ls_ops _ _ _ _ Hls op x' Hx') as (x & Hx & Ha).
    eapply appended_more; [by apply Hi|done|]. apply Hinfo. by rewrite Hx'.
  - intros j op Hj. destruct (in_memory _ _ _ j op Hq' (or_introl Hj)) as [x' Hx']. exists x'. split; [done|].
    destruct (ls_ops _ _ _ _ Hls op x' Hx') as (x & Hx & <-).
    destruct (decide (j = i)) as [->|Hne].
    + destruct (ls_past _ _ _ _ Hls op Hj) as [Hp|[-> (prev & next & ne & E)]]; [|by eapply Hf].
      destruct (wi_past _ _ _ Hi i op Hp) as (y & Hy & H). assert (y = x) as -> by congruence. by apply fired_more.
    + rewrite (ls_others _ _ _ _ Hls j Hne) in Hj.
      destruct (wi_past _ _ _ Hi j op Hj) as (y & Hy & H). assert (y = x) as -> by congruence. by apply fired_more.
  - intros a Ha. apply fired_more. destruct (ls_log _ _ _ _ Hls) as [E|(prev & op & next & ne & x & E & Hx & Ec)].
    + apply Hi. by rewrite <-E.
    + rewrite Ec in Ha. apply elem_of_app in Ha as [Ha| ->%list_elem_of_singleton]; [by apply Hi|].
      destruct (wi_past _ _ _ Hi i op ltac:(by rewrite E)) as (y & Hy & H).
      by assert (y = x) as -> by congruence.
Qed.

Lemma poll_on_waits_inv w0 ls s s' i :
  wait_inv w0 ls s → wait_lstep (WStep i) s = Ok s' → wait_inv w0 (ls ++ [WStep i]) s'.
Proof.
  intros Hi Hs. pose proof Hs as H. cbn in H. unfold poll_on_waits_step in H.
  destruct (threads (list_of s) i) as [| | | | | |prev op next ne| | |prev op next ne] eqn:E.
  all: try (unfold go in H; apply bind_Ok in H as (l & Hl & H); injection H as <-;
            eapply (list_step_inv w0 ls _ s _ i false); by eauto).
  - apply bind_Ok in H as (items & Hit%deref_Ok & H). destruct (items !! next_info s i) as [c|] eqn:Ec.
    + apply bind_Ok in H as ([] & Hc & H).
      * unfold finish_test, go in H. apply bind_Ok in H as (s1 & Hl & H). apply bind_Ok in Hl as (l & Hl & Hl').
        injection Hl' as <-. injection H as <-. eapply (list_step_inv w0 ls _ s _ i true); [done..|].
        intros _ prev' op' next' ne' x E' Hx. rewrite E in E'. injection E' as <- <- <- <-.
        eapply fires_now; [done..|by eapply list_elem_of_lookup_2|done].
      * injection H as <-. destruct Hi as [Hr Hl Ho Hp Hlog]. split.
        -- rewrite wait_run_snoc, Hr. exact Hs.
        -- done.
        -- intros op' x Hx. by eapply (appended_more _ _ _ s); [apply Ho| |].
        -- intros j op' Hj. destruct (Hp j op' Hj) as (x & Hx & Hf). exists x. split; [done|by apply fired_more].
        -- intros a Ha. by apply fired_more, Hlog.
    + unfold finish_test, go in H. apply bind_Ok in H as (s1 & Hl & H). apply bind_Ok in Hl as (l & Hl & Hl').
      injection Hl' as <-. injection H as <-. by eapply (list_step_inv w0 ls _ s _ i false).
  - unfold go in H. apply bind_Ok in H as (s1 & Hl & H). apply bind_Ok in Hl as (l & Hl & Hl').
    injection Hl' as <-. injection H as <-. eapply (list_step_inv w0 ls _ s _ i false); [done..| |done].
    intros op' [x Hx]. cbn in *. apply lookup_delete_ne. intros <-.
    rewrite (ls_gone _ _ _ _ (pending_lstep_list _ _ _ _ Hl) _ _ _ _ E) in Hx. done.
Qed.

Lemma enqueue_inv w0 ls s s' i op prom task items :
  wait_inv w0 ls s → wait_lstep (WAppend i op prom task items) s = Ok s' →
  wait_inv w0 (ls ++ [WAppend i op prom task items]) s'.
Proof.
  intros Hi Hs. pose proof Hs as H. cbn in H. unfold enqueue_wait_set, go in H.
  apply bind_Ok in H as (s1 & Hl & H). apply bind_Ok in Hl as (l & Hl & Hl').
  injection Hl' as <-. injection H as <-. destruct (wi_list _ _ _ Hi) as (L & k & Hq).
  destruct (lstep_inv _ _ (Append i op prom task) _ _ Hq Hl) as (L' & k' & Hq' & _).
  cbn in Hl. destruct (threads (list_of s) i) eqn:E; try done. case_bool_decide as Hb; [|done]. injection Hl as <-.
  destruct Hb as [Hb _]. split; cbn.
  - rewrite wait_run_snoc, (wi_run _ _ _ Hi). exact Hs.
  - by exists L', k'.
  - intros op' x [[<- <-]|[Hne Hx]]%lookup_insert_Some.
    + exists ls, i, items, []. split; [done|]. apply lookup_insert_eq.
    + eapply appended_more; [by apply Hi|done|]. by apply lookup_insert_ne.
  - intros j op' Hj. destruct (decide (j = i)) as [->|Hne]; [by rewrite fn_lookup_insert in Hj|].
    rewrite fn_lookup_insert_ne in Hj by done. destruct (wi_past _ _ _ Hi j op' Hj) as (x & Hx & Hf).
    exists x. rewrite lookup_insert_ne by congruence. split; [done|by apply fired_more].
  - intros a Ha. by apply fired_more, Hi.
Qed.

Lemma start_inv w0 ls s s' i :
  wait_inv w0 ls s → wait_lstep (WStart i) s = Ok s' → wait_inv w0 (ls ++ [WStart i]) s'.
Proof.
  intros Hi Hs. pose proof Hs as H. cbn in H. unfold go in H. apply bind_Ok in H as (l & Hl & H). injection H as <-.
  destruct (wi_list _ _ _ Hi) as (L & k & Hq). destruct (lstep_inv _ _ (StartPoll i) _ _ Hq Hl) as (L' & k' & Hq' & _).
  cbn in Hl. destruct (threads (list_of s) i) eqn:E; try done. destruct (_ >? _); [|done]. injection Hl as <-.
  split; cbn.
  - rewrite wait_run_snoc, (wi_run _ _ _ Hi). exact Hs.
  - by exists L', k'.
  - intros op x Hx. eapply appended_more; [by apply Hi|done..].
  - intros j op Hj. destruct (decide (j = i)) as [->|Hne]; [by rewrite fn_lookup_insert in Hj|].
    rewrite fn_lookup_insert_ne in Hj by done. destruct (wi_past _ _ _ Hi j op Hj) as (x & Hx & Hf).
    exists x. split; [done|by apply fired_more].
  - intros a Ha. by apply fired_more, Hi.
Qed.

Lemma world_inv w0 ls s w : wait_inv w0 ls s →
  wait_inv w0 (ls ++ [WWorld w]) (mkWait (list_of s) (infos s) (next_info s) w).
Proof.
  intros Hi. split; cbn.
  - by rewrite wait_run_snoc, (wi_run _ _ _ Hi).
  - apply Hi.
  - intros op x Hx. by eapply appended_more; [apply Hi|..].
  - intros i op Hp. destruct (wi_past _ _ _ Hi i op Hp) as (x & Hx & Hf). exists x. split; [done|by apply fired_more].
  - intros a Ha. by apply fired_more, Hi.
Qed.

Lemma wait_reached w0 ls s : wait_run ls (no_waits w0) = Ok s → wait_inv w0 ls s.
Proof.
  revert s. induction ls as [|l ls IH] using rev_ind; intros s.
  - intros [= <-]. split; try done; [by exists [], Nobody; apply qinv_init|].
    intros a Ha. by apply elem_of_nil in Ha.
  - rewrite wait_run_snoc. intros (s0 & Hr & Hs)%bind_Ok. specialize (IH s0 Hr). destruct l as [w|i op prom task items|i|i].
    + injection Hs as <-. by apply world_inv.
    + by eapply enqueue_inv.
    + by eapply start_inv.
    + by eapply poll_on_waits_inv.
Qed.
End waiting.

(** ** Wait sets of the OpenSHMEM modules *)

Section shmem.
(** The library's names of comparisons. *)
Context (SHMEM_CMP_EQ SHMEM_CMP_NE : Z).

(** A variable of type [integer], the only type there is.

    src/modules/openshmem/inc/hclib_openshmem-internal.h:23-28 (wait_info_t) *)
Record wait_info_t := mkInfo { var : Z; cmp : Z; cmp_value : Z }.

(** [mem] gives the values of variables.

    src/modules/openshmem/src/hclib_openshmem.cpp:775-806 (poll_on_waits) *)
Definition info_complete (mem : Z → Z) (wait_info : wait_info_t) : res bool :=
  if cmp wait_info =? SHMEM_CMP_EQ then Ok (mem (var wait_info) =? cmp_value wait_info)
  else if cmp wait_info =? SHMEM_CMP_NE then Ok (negb (mem (var wait_info) =? cmp_value wait_info))
  else Err (ExitCode 1).

(** src/modules/sos/src/hclib_sos.cpp:114-154 (test_sos_completion) *)
Definition test_sos_completion (mem : Z → Z) (op : wait_info_t) : res bool :=
  if cmp op =? SHMEM_CMP_EQ then
    if mem (var op) =? cmp_value op then Ok true else Ok false
  else if cmp op =? SHMEM_CMP_NE then
    if negb (mem (var op) =? cmp_value op) then Ok true else Ok false
  else Err (ExitCode 1).

(** The loop that fills the conditions.

    src/modules/openshmem/inc/hclib_openshmem-internal.h:112-117 (construct_and_insert_wait_set) *)
Fixpoint fill_infos (vars : list Z) (cmp : Z) (cmp_values : list Z) (i : Z) (rounds : nat) : res (list wait_info_t) :=
  match rounds with
  | O => Ok []
  | S rounds =>
      var ← array_get vars i;
      value ← array_get cmp_values i;
      infos ← fill_infos vars cmp cmp_values (i + 1) rounds;
      Ok (mkInfo var cmp value :: infos)
  end.

(** Either a task or a new promise; the address of the promise is given.

    src/modules/openshmem/inc/hclib_openshmem-internal.h:109-131 (construct_and_insert_wait_set) *)
Definition construct_and_insert_wait_set (i : nat) (vars : list Z) (cmp : Z) (cmp_values : list Z) (nwaits : Z)
    (dependent_task wait_set promise : Z) : res (wait_label (world := Z → Z) (item := wait_info_t)) :=
  infos ← fill_infos vars cmp cmp_values 0 (Z.to_nat nwaits);
  Ok (WAppend i wait_set (if negb (dependent_task =? NULL) then NULL else promise) dependent_task infos).

(** The caller then waits for the promise.

    src/modules/openshmem/src/hclib_openshmem.cpp:880-883 (shmem_int_wait_until) *)
Definition shmem_int_wait_until (i : nat) (ivar cmp cmp_value : Z) (wait_set promise : Z) :=
  construct_and_insert_wait_set i [ivar] cmp [cmp_value] 1 NULL wait_set promise.

(** src/modules/openshmem/src/hclib_openshmem.cpp:890-894 (shmem_int_wait_until_any) *)
Definition shmem_int_wait_until_any (i : nat) (ivars : list Z) (cmp : Z) (cmp_values : list Z) (nwaits : Z)
    (wait_set promise : Z) :=
  construct_and_insert_wait_set i ivars cmp cmp_values nwaits NULL wait_set promise.

(** src/modules/openshmem/inc/hclib_openshmem-internal.h:135-144 (shmem_int_async_when) *)
Definition shmem_int_async_when (i : nat) (ivar cmp cmp_value task : Z) (wait_set : Z) :=
  construct_and_insert_wait_set i [ivar] cmp [cmp_value] 1 task wait_set NULL.

(** src/modules/openshmem/inc/hclib_openshmem-internal.h:158-167 (shmem_int_async_when_any) *)
Definition shmem_int_async_when_any (i : nat) (ivars : list Z) (cmp : Z) (cmp_values : list Z) (nwaits task : Z)
    (wait_set : Z) :=
  construct_and_insert_wait_set i ivars cmp cmp_values nwaits task wait_set NULL.

(** A condition that holds. *)
Definition holds (mem : Z → Z) (x : wait_info_t) : Prop :=
  cmp x = SHMEM_CMP_EQ ∧ mem (var x) = cmp_value x ∨
  cmp x = SHMEM_CMP_NE ∧ mem (var x) ≠ cmp_value x.

Lemma info_complete_holds mem x : info_complete mem x = Ok true → holds mem x.
Proof.
  unfold info_complete, holds. destruct (Z.eqb_spec (cmp x) SHMEM_CMP_EQ); [|destruct (Z.eqb_spec (cmp x) SHMEM_CMP_NE)].
  - intros [= H%Z.eqb_eq]. by left.
  - intros [= H%negb_true_iff%Z.eqb_neq]. by right.
  - done.
Qed.

Lemma test_sos_completion_info mem x : test_sos_completion mem x = info_complete mem x.
Proof. unfold test_sos_completion, info_complete. repeat destruct (_ =? _); done. Qed.

Lemma fill_infos_ok vars cmp0 values i rounds infos :
  fill_infos vars cmp0 values i rounds = Ok infos →
  ∀ x, x ∈ infos → cmp x = cmp0 ∧ ∃ k, 0 <= k ∧ i <= k < i + Z.of_nat rounds ∧
    array_get vars k = Ok (var x) ∧ array_get values k = Ok (cmp_value x).
Proof.
  revert i infos. induction rounds as [|rounds IH]; intros i infos; cbn.
  - intros [= <-] x Hx. by apply elem_of_nil in Hx.
  - intros (v & Hv & (c & Hc & (rest & Hr & [= <-])%bind_Ok)%bind_Ok)%bind_Ok x [->|Hx]%elem_of_cons.
    + split; [done|]. exists i. apply array_get_Ok in Hv as Hv'. split; [lia|]. split; [lia|done].
    + destruct (IH _ _ Hr x Hx) as (H1 & k & H2 & H3 & H4). split; [done|]. exists k. split; [lia|]. split; [lia|done].
Qed.

(** C33: a wait ends only when what it waits for has been true.  Whatever the
    interleaving of threads that wait, the polling task, and changes of memory, the
    promise that the poller has put, or the task that it has spawned, belongs to a
    wait set that was appended before, and at a time since then one of its
    conditions held in memory; for a wait set made by
    [construct_and_insert_wait_set] this is the comparison of one of the variables
    with its value.  This goes for the OpenSHMEM and the SOS module. *)
Theorem shmem_waits_fire test mem0 ls s prom task :
  test = info_complete ∨ test = test_sos_completion →
  wait_run test ls (no_waits mem0) = Ok s → (prom, task) ∈ completed (list_of s) →
  ∃ ls0 i op infos ls1 ls2 s1 x,
    ls = (ls0 ++ WAppend i op prom task infos :: ls1) ++ ls2 ∧
    wait_run test (ls0 ++ WAppend i op prom task infos :: ls1) (no_waits mem0) = Ok s1 ∧
    x ∈ infos ∧ holds (seen s1) x ∧
    ∀ vars cmp values nwaits dependent_task promise,
      construct_and_insert_wait_set i vars cmp values nwaits dependent_task op promise =
        Ok (WAppend i op prom task infos) →
      ∃ k var value, 0 <= k < nwaits ∧ array_get vars k = Ok var ∧ array_get values k = Ok value ∧
        holds (seen s1) (mkInfo var cmp value).
Proof.
  intros Ht Hr Hc. destruct (wi_log _ _ _ _ (wait_reached _ _ _ _ Hr) _ Hc)
    as (ls0 & i & op & infos & ls1 & ls2 & s1 & x & -> & Hr1 & Hx & Htest).
  exists ls0, i, op, infos, ls1, ls2, s1, x. do 3 (split; [done|]).
  assert (holds (seen s1) x) as Hh.
  { apply info_complete_holds. by destruct Ht as [-> | ->]; [|rewrite <-test_sos_completion_info]. }
  split; [done|]. intros vars cmp0 values nwaits dt p H.
  apply bind_Ok in H as (infos' & Hf & [= _ _ <-]).
  destruct (fill_infos_ok _ _ _ _ _ _ Hf x Hx) as (E & k & Hk & Hk' & Hv & Hw).
  exists k, (var x), (cmp_value x). split; [lia|]. split; [done|]. split; [done|]. subst cmp0. by destruct x.
Qed.
End shmem.

(** ** Requests of MPI *)

Section requests.
Context (MPI_SUCCESS : Z).

(** [mpi_test] is what [MPI_Test] would say of a request: an error code, and
    whether the request is complete.

    src/modules/mpi/src/hclib_mpi.cpp:130-141 (test_mpi_completion) *)
Definition test_mpi_completion (mpi_test : Z → Z * Z) (req : Z) : res bool :=
  let '(err, complete) := mpi_test req in
  _ ← (if negb (err =? MPI_SUCCESS) then Err (ExitCode 1) else Ok tt);
  if negb (complete =? 0) then Ok true else Ok false.

(** The future of a request is put only after MPI has said that it is complete. *)
Theorem mpi_requests_fire said0 ls s prom :
  wait_run test_mpi_completion ls (no_waits said0) = Ok s → (prom, NULL) ∈ completed (list_of s) →
  ∃ ls0 i op reqs ls1 ls2 s1 req complete,
    ls = (ls0 ++ WAppend i op prom NULL reqs :: ls1) ++ ls2 ∧
    wait_run test_mpi_completion (ls0 ++ WAppend i op prom NULL reqs :: ls1) (no_waits said0) = Ok s1 ∧
    req ∈ reqs ∧ seen s1 req = (MPI_SUCCESS, complete) ∧ complete ≠ 0.
Proof.
  intros Hr Hc. destruct (wi_log _ _ _ _ (wait_reached _ _ _ _ Hr) _ Hc)
    as (ls0 & i & op & reqs & ls1 & ls2 & s1 & req & -> & Hr1 & Hx & Ht).
  unfold test_mpi_completion in Ht. destruct (seen s1 req) as [err complete] eqn:E.
  exists ls0, i, op, reqs, ls1, ls2, s1, req, complete. do 3 (split; [done|]).
  destruct (Z.eqb_spec err MPI_SUCCESS) as [->|]; [|done]. split; [done|].
  by destruct (Z.eqb_spec complete 0).
Qed.
End requests.

(** ** Witness

    Thread 0 waits for variable 5 or 6 to be 1, and variable 6 becomes 1. *)
Definition zeros : Z → Z := λ _, 0.
Definition six_is_one : Z → Z := λ v, if v =? 6 then 1 else 0.

Definition wait_for_six : list (wait_label (world := Z → Z) (item := wait_info_t)) :=
  WAppend 0 1 77 NULL [mkInfo 5 0 1; mkInfo 6 0 1] :: replicate 3 (WStep 0) ++ WStart 1 ::
  replicate 10 (WStep 1) ++ WWorld six_is_one :: replicate 9 (WStep 1).

Lemma wait_for_six_run :
  completed ∘ list_of <$> wait_run (info_complete 0 1) wait_for_six (no_waits zeros) = Ok [(77, NULL)] ∧
  completed ∘ list_of <$> wait_run (info_complete 0 1) (take 14 wait_for_six) (no_waits zeros) = Ok [] ∧
  shmem_int_wait_until_any 0 [5; 6] 0 [1; 1] 2 1 77 = Ok (WAppend 0 1 77 NULL [mkInfo 5 0 1; mkInfo 6 0 1]).
Proof. by vm_compute. Qed.

Lemma shmem_waits_fire_witness :
  ∃ ls0 i op infos ls1 ls2 s1 x,
    wait_for_six = (ls0 ++ WAppend i op 77 NULL infos :: ls1) ++ ls2 ∧
    wait_run (info_complete 0 1) (ls0 ++ WAppend i op 77 NULL infos :: ls1) (no_waits zeros) = Ok s1 ∧
    x ∈ infos ∧ holds 0 1 (seen s1) x.
Proof.
  destruct wait_for_six_run as [H _].
  destruct (wait_run (info_complete 0 1) wait_for_six (no_waits zeros)) as [s|] eqn:E; [|discriminate H].
  injection H as H.
  destruct (shmem_waits_fire 0 1 (info_complete 0 1) zeros wait_for_six s 77 NULL)
    as (ls0 & i & op & infos & ls1 & ls2 & s1 & x & H1 & H2 & H3 & H4 & _).
  - by left.
  - exact E.
  - rewrite H. apply list_elem_of_singleton. reflexivity.
  - exists ls0, i, op, infos, ls1, ls2, s1, x. split; [exact H1|]. split; [exact H2|]. split; [exact H3|exact H4].
Defined.
